(* ===== verification/_CoqProject ===== *)
-Q . S2P
Prelude.v
GoStd.v
GoStdFacts.v
Review.v
ReviewMarker.v
ReviewMarkerFacts.v
ReviewEpoch.v
ReviewEpochFacts.v
ReviewMilestone.v
ReviewReduce.v
ReviewVerdict.v
ReviewExamples.v
ReviewWitnesses.v
ReviewReduceFacts.v
ReviewDriver.v
ReviewDurable.v
ReviewDriverFacts.v
ReviewSweep.v
ReviewSweepFacts.v
ReviewGate.v
ReviewGateFacts.v
FaultIO.v
Core.v
OrchState.v
OrchRecover.v
OrchRecoverFacts.v
Verify.v
VerifyFacts.v
StateLog.v
StateLogFacts.v
Workspace.v
WorkspaceFacts.v
Sha256.v
Remote.v
RemoteJournal.v
RemoteAttempt.v
RemoteRunner.v
RemoteHooks.v
RemoteFacts.v
RemoteRun.v
RemoteAttemptFacts.v
RemoteCodec.v
RemoteDaemon.v
RemoteReserve.v
RemoteRunnerFacts.v
RemoteHooksFacts.v
TemplateLex.v
TemplateGrammar.v
Template.v
TemplateEngine.v
TemplateFlow.v
TemplateFacts.v
TemplatePrompt.v
Update.v
OrchRecord.v
OrchApproval.v
OrchPipeline.v
OrchHeld.v
OrchResume.v
OrchLoop.v
OrchControl.v
OrchFrame.v
OrchRefine.v
OrchSystem.v
OrchStep.v
OrchSafety.v
OrchExample.v
OrchFindings.v
TrackerBudget.v
TrackerBudgetFacts.v
TrackerAdmission.v
TrackerExample.v
TrackerAdapter.v
TrackerClaimFacts.v
TrackerMilestoneFacts.v
TrackerLabelFacts.v
TrackerAdapterExample.v
