(* ===== verification/Prelude.v ===== *)
(** * BEN: a verification development

    BEN is a daemon that claims tracker issues, runs coding agents on them in
    isolated workspaces, decides from evidence whether their work was published,
    and drives a review controller over what was. Its promise is that decisions
    rest on facts it can check - the tracker's change log, git, a forge, its own
    durable markers - and never on what an agent says. This development models the
    parts of [src/internal] that decide, and proves what they promise.

    ** Parts of the program, and the files that model them

    - Shared. [Prelude] (this file) has errors and results, list loops with an
      early return, the stable sort, tactics and hint databases; [GoStd] the pieces
      of Go's language and library the code uses on byte strings (splitting,
      trimming, UTF-8, quoting, decimal numbers, times as instants), the tables of
      [unicode] and the host syntax of [net/url] being the class [GoTables] with its
      ASCII laws; [GoStdFacts] their lemmas.
    - The review controller, [internal/review]. [Review] is [review.go]
      (configuration, [Validate], reviewer profiles, the observation); [ReviewMarker]
      is [marker.go], [blocked.go] and the bodies of [verdict.go] (the durable
      vocabulary); [ReviewVerdict] the reading of a reviewer's reply in [verdict.go],
      the JSON decoder being a class; [ReviewEpoch] is [epoch.go] (claims and
      approvals replayed from the change log); [ReviewMilestone] is [milestone.go]
      (which delivery may be acted on); [ReviewReduce] is [reduce.go], the pure
      function from an observation to the one next step.
    - Its execution, [internal/reviewctl]. [ReviewDriver] is [driver.go], a state and
      error monad over the type classes [Forge] and [Reviewer] with a trace of every
      action; [ReviewSweep] is [controller.go], the candidate queue carried between
      sweeps; [ReviewGate] is [gate.go], the pacing and backoff of the client.
    - The orchestrator, [internal/orchestrator]. [OrchState] is the closed state map of
      [state.go] and the integer part of [retry.go]; [OrchRecover] is
      [recover_classify.go] with the functions of [held.go] and [pipeline.go] it
      calls: what to do with a claim found after a restart. The daemon around them:
      [OrchRecord] has the record of a run, the orchestrator's state, its signals and its
      goroutines as data ([record.go], [bundle.go], [signals.go], [orchestrator.go]; [Update]
      is the notation for record fields); [OrchApproval] is [approval.go], the rotation of
      [absence.go] and the account of [summary.go]; [OrchPipeline] has the handlers of one
      record ([pipeline.go], [owed.go], [marker.go], [credential.go], [retry.go] with its
      jitter, and of [held.go], [parked.go], [summary.go], [shutdown.go] and [cycle.go] what
      concerns one record); [OrchHeld] the held claims, parked records and ended cycles
      ([held.go], [parked.go], [absence.go], [cycle.go]); [OrchResume] is [recover.go] with the
      cleanup sweep and the reload barrier; [OrchLoop] is [signals.go] and [shutdown.go], the
      bodies of the goroutines, and [step], the system: the loop takes a signal, a worker
      answers, a pump forwards, an effect is carried out, time passes, in any order.
    - The GitHub tracker, [internal/tracker/github]. [TrackerBudget] is [budget.go]: the
      request windows, the four fixed-point allowances, reservations and leases, and the
      transport as a system of critical sections in any order; [TrackerAdapter] is
      [adapter.go], [issue.go] and [comment.go]: the claim and its race, releases, state
      labels, milestone comments, paging, eligibility, the pull request of a branch, as
      functions of what GitHub answers.
    - The types of [internal/core] the components exchange: [Core].
    - Durable effects. [FaultIO] is the monad of the components that keep durable
      state: every system call, git command or request may fail before or after it
      took effect, a write may also fall short, and every state gone through is kept, so
      that what a crash leaves is one of them; with the logic ([triple], [stays], [runs], [reads]) their proofs use.
    - Publication evidence, [internal/verify]. [Verify] is [verify.go], [remote.go] and
      [select.go], over type classes for the workspace, tracker, claim, mirror and
      forge seams.
    - The state directory, [internal/state]. [StateLog] is [jsonl.go] and
      [transitions.go]: the file is its bytes, every system call may fail, a failing
      write leaves any prefix.
    - The workspace provider, [internal/workspace]. [Workspace] is [key.go],
      [claimbase.go] and [facts.go]: workspace keys, the claim-base records and refs
      and their transitions, branch and publication facts; git answers from parameters.
    - Remote runs, [internal/remote]. [Remote] has the pure parts: identities
      ([workspace.go], [process.go]), reconnection, retention gaps, the replay filter of
      [cursor.go], and of [attempt.go] the framing of provider output and the
      reconciliation of a recovered inbox. [RemoteJournal] is [record.go], [store.go],
      [journal.go] and the request digests ([Sha256] is executable); [RemoteAttempt] is
      [consumer_store.go] and the pump of [attempt.go]; [RemoteRunner] is [runner.go];
      [RemoteHooks] is [hooks.go], [hook_store.go], [lease.go] and the workspace gate.
      [encoding/json] is the classes [RemoteJSON] and [HookJSON] with its round trip,
      which [RemoteCodec] instantiates.
    - Prompts, [internal/template]. [TemplateLex] is [scan.go] (tokens, references, the
      loop grammar), and [TemplateGrammar] the same expressions as relations, against which
      the scanner is proved: its tokens are exactly theirs, it reports every variable they
      name and leaves out nothing of a loop; [Template] is [schema.go], [binding.go], [fence.go], [errors.go],
      [walk.go] and [template.go] (shapes, what is bound, fences, the load-time walk, [Load]
      and [Render]). The Liquid engine is the class [Liquid], and what its documentation
      promises of tags and expressions the class [LiquidSem] of [TemplateEngine], which is
      stated over that grammar, allows failures and panics, and is instantiated by the small
      engine of [TemplatePrompt].

    The components interact as in the code: the driver calls [Reduce] on each
    observation and performs its step through the forge; the controller runs the
    driver per candidate; recovery and the pipeline act on the verdicts of [Verify];
    [LastFailure] of the log is what recovery reads after a restart; the verifier
    reads its facts from the workspace provider; the runner reserves and dispatches
    through the journal, and the attempt it returns consumes the run's events.

    ** What the theorems show

    Each [...Facts] file states its component's contract and proves it.
    - [ReviewMarkerFacts], [ReviewDurable]: what the controller writes it reads back,
      whatever prose a model put next to it, and as no other kind; recording a route
      settles its occurrence.
    - [ReviewEpochFacts]: the replays compute the claim and the approval that stood at
      a point of the log, and an approval counts as unchanged exactly when it never
      lapsed.
    - [ReviewReduceFacts]: the closed set of mutations a step may ask for, the evidence
      behind each of them, no action twice for one occurrence, independence of the
      order of the log and of anything others write.
    - [ReviewDriverFacts], [ReviewSweepFacts], [ReviewGateFacts]: a run follows the
      protocol of the reducer (every attempted write is its answer on the observation
      before it, and a review is published directly behind the report on its request and
      an observation that confirms it, with what the report says); a sweep works off a
      prefix of its queue and keeps the rest; the spend is bounded and every wait ends.
    - [OrchState], [OrchRecoverFacts]: the state map is closed, retry delays do not
      overflow, recovery neither destroys nor restarts work without the evidence that
      allows it.
    - [OrchControl], [OrchFrame], [OrchRefine], [OrchSystem], [OrchStep]: [OrchControl] is the
      abstract control machine of one run, whose reachable states are computed and checked;
      [OrchFrame] says what a handler of one record may touch; the other three prove that
      every step of [OrchLoop] is, record by record, steps of that machine, for any number of
      records and any interleaving. [OrchSafety] draws the consequences: one worker at a time
      on a workspace and none beside an agent, no agent forgotten and no workspace removed
      under one, a draining daemon starts nothing and reports drained only when all is quiet,
      records follow the state map, waits are for workers that exist. [OrchExample] runs a
      daemon through a claim to a running agent and through a shutdown; [OrchFindings] runs it
      to where it departs from its documentation.
    - [TrackerBudgetFacts], [TrackerAdmission]: in every interleaving the requests that reach
      the network stay inside GitHub's published limits, the counters are what the calls
      account for and no action panics, and the wait a caller is told is exact.
      [TrackerClaimFacts]: two standing verified claims are one, every path out of a claim is
      accounted for, and the race is the arbitration of recovery except where the log never
      assigned the principal. [TrackerMilestoneFacts]: the
      review controller reads back what the daemon wrote, once per occurrence.
      [TrackerLabelFacts]: one state label and never none, and a complete change log. What
      GitHub documents of its answers is [Answered], [LabelServer] and [Paged];
      [TrackerExample] and [TrackerAdapterExample] run both and hold the witnesses.
    - [VerifyFacts]: a publication verdict holds exactly on complete evidence, and an
      attempt is only judged by the checker of its substrate.
    - [StateLogFacts]: appends are all or nothing under every failure, a crash costs
      at most the record it interrupted, and readers return what was acknowledged and at
      most one record more, of the append that was interrupted or that latched the log.
    - [WorkspaceFacts]: a workspace key is a safe path and ref component whatever the
      identifier; claim-base transitions refine an abstract machine under every
      fault, and a published verdict over this provider rests on git and the forge.
    - [RemoteFacts], [RemoteRun], [RemoteAttemptFacts], [RemoteDaemon]: the replay filter
      is exact; the lines of a run's durable inbox are, whatever fails and wherever daemons
      stop, a run of an abstract machine that decodes the provider's output as one piece,
      with at most the beginning of one next record behind them, and a restart resumes it
      and delivers its events again. No daemon is started, in these theorems, where a write
      lost the line break of a record and nothing else: [lost_newline_glues] shows what the
      code does there.
    - [RemoteReserve], [RemoteRunnerFacts], [RemoteHooksFacts]: a claim cycle's run and a
      hook firing are one request however often they are tried, and a hook's result is
      recorded only when its domain is quiet. Their examples show where the code starts
      something its record does not know about, and where an inbox refuses itself.
    - [TemplateFacts], [TemplateFlow], [TemplatePrompt]: a fence cannot be closed from
      inside and its nonce is found; the scanners have enough fuel; in a prompt from a
      loaded template nothing outside the fences depends on what others wrote, provided
      the template is [disciplined], which the examples show the walk does not check.
    [ReviewExamples] and [ReviewWitnesses] evaluate the definitions on one issue's
    history; the other witnesses stand beside their theorems.

    ** Bounds and fuel

    Machine integers are [Z] with the wrap-around written where the code can reach it
    ([wrap64], the saturations of [ReviewGate]). Recursion is structural except for
    [acquire], whose fuel of two passes is proved enough, and [run_loop], which has
    the code's own bound of [maxSteps]. A pump reads as often as it is given answers, and
    a hook is polled as often; both range over lists of any length. The framing of a
    chunk takes its length as fuel, which [frame_fuel] proves enough; so do the lexer and the
    analysis of an expression ([lex_fuel], [analyze_fuel]). A fence tries a given number of
    salts, [fence_found] says how many are enough. [itoa] takes one digit per bit as fuel, which
    its round-trip lemma uses. Record sizes follow the code's 64 KiB limit. The exploration of
    the control machine makes 2^17 visits, which suffice: [control_closed] checks that the states
    found are closed under every handler. Queues of signals and effects have the code's depths.
    The change log is read with a number of requests that [events_complete] bounds by its pages;
    a waiting request turns as often as it is woken. The counters of windows and ticks of the
    budget are unbounded; [budget_accounts] keeps its credits far inside [int64].

    ** Not modelled

    HTTP, paging and the candidate scan of
    the forge client; the tracker's conditional cache, its rate-limit classification, GraphQL
    reads, options and readiness; prompt composition; of the orchestrator the durable queue behind its
    logs (a log is the list of its entries), log lines, what the tick does with its request report and the
    published status; [Runner.Start] returns a handle or an error and never both, [Tracker.Get] the issue it
    was asked for, and listed issues have identifiers, as their documentation says; worktrees
    and hooks of the local provider; stopping
    and probing a remote run, remote workspaces, mirrors and the execution service;
    configuration decoding, the agents' subprocess management and command lines. In
    [Workspace] the synced creation of the claims directory is one step and fetching a remote
    ref a parameter. The daemons of a remote run follow one another, and closing its journal
    is not among their steps. Mutexes are not modelled as such: each critical section is one
    step, and sequences of steps range over every interleaving of them. *)

From stdpp Require Export sorting strings gmap numbers base list.

#[global] Open Scope Z_scope.

(** ** Scope, results and errors

    A Go [error] is its message together with the sentinels it wraps: the code
    asks [errors.Is(err, ErrX)] of it, and prints it. A sentinel is identified
    by its text, the texts of the program's sentinels being pairwise distinct. *)

Declare Scope go_scope.
Delimit Scope go_scope with go.
#[global] Open Scope go_scope.

Record error := MkError { err_chain : list string; err_text : string }.

Definition errors_New (t : string) : error := MkError [t] t.

(** [fmt.Errorf("%w<suffix>", e)]: the suffix follows the wrapped text. *)
Definition errorf_w (e : error) (suffix : string) : error :=
  MkError (err_chain e) (err_text e +:+ suffix).

(** [fmt.Errorf] without a wrapped error. *)
Definition errorf (t : string) : error := MkError [] t.

(** [fmt.Errorf("<prefix>%w<suffix>", e)]. *)
Definition errorf_wrap (prefix : string) (e : error) (suffix : string) : error :=
  MkError (err_chain e) (prefix +:+ err_text e +:+ suffix).

Definition errors_Is (e sentinel : error) : bool :=
  bool_decide (err_text sentinel ∈ err_chain e).

Inductive result (A : Type) :=
  | Ok (a : A)
  | Err (e : error).
Arguments Ok {_} _.
Arguments Err {_} _.

Notation "'try' x ':=' e 'in' k" :=
  (match e with Ok x => k | Err er => Err er end)
  (at level 10, x name, e at level 100, k at level 200,
   format "'[v' 'try'  x  ':='  e  'in' '/' k ']'") : go_scope.

#[global] Instance error_eq_dec : EqDecision error.
Proof. solve_decision. Defined.

(** ** Tactics and hints *)

Create HintDb ben.
Create Rewrite HintDb ben_str.

(** Case analysis on the innermost scrutinee of a goal or hypothesis. *)
Ltac split_match :=
  match goal with
  | |- context [match ?x with _ => _ end] =>
      lazymatch x with
      | context [match _ with _ => _ end] => fail
      | _ => destruct x eqn:?
      end
  end.

Ltac split_match_in H :=
  match type of H with
  | context [match ?x with _ => _ end] =>
      lazymatch x with
      | context [match _ with _ => _ end] => fail
      | _ => destruct x eqn:?
      end
  end.

Ltac split_bools :=
  repeat match goal with
  | H : _ && _ = true |- _ => apply andb_true_iff in H as [? ?]
  | H : _ || _ = false |- _ => apply orb_false_iff in H as [? ?]
  | H : negb _ = true |- _ => apply negb_true_iff in H
  | H : negb _ = false |- _ => apply negb_false_iff in H
  | H : bool_decide _ = true |- _ => apply bool_decide_eq_true in H
  | H : bool_decide _ = false |- _ => apply bool_decide_eq_false in H
  end.

(** A decidable goal without free data, by evaluation. *)
Ltac solve_decided :=
  match goal with |- ?P => refine (bool_decide_unpack P _); vm_compute; exact I end.

(** ** Loops with an early return

    [find_map f l] is Go's [for _, x := range l { if y, ok := f(x); ok
    { return y } }]. *)

Fixpoint find_map {A B} (f : A → option B) (l : list A) : option B :=
  match l with
  | [] => None
  | x :: l' => match f x with Some y => Some y | None => find_map f l' end
  end.

Lemma find_map_Some {A B} (f : A → option B) l y :
  find_map f l = Some y ↔
  ∃ l1 x l2, l = l1 ++ x :: l2 ∧ f x = Some y ∧ Forall (λ z, f z = None) l1.
Proof.
  induction l as [|x l IH]; simpl.
  - split; [done|]. intros ([|??] & ? & ? & ? & _); discriminate.
  - destruct (f x) as [z|] eqn:Hx.
    + split.
      * intros [= <-]. exists [], x, l. eauto.
      * intros ([|w l1] & x' & l2 & [= -> ->] & Hf & Hn); [congruence|].
        inversion Hn; congruence.
    + rewrite IH. split.
      * intros (l1 & x' & l2 & -> & Hf & Hn). exists (x :: l1), x', l2. eauto.
      * intros ([|w l1] & x' & l2 & [= -> ->] & Hf & Hn); [congruence|].
        inversion Hn; subst. eauto 8.
Qed.

Lemma find_map_Some_elem {A B} (f : A → option B) l y :
  find_map f l = Some y → ∃ x, x ∈ l ∧ f x = Some y.
Proof.
  intros (l1 & x & l2 & -> & Hf & _)%find_map_Some. exists x. split; [|done].
  set_solver.
Qed.

Lemma find_map_None {A B} (f : A → option B) (l : list A) :
  find_map f l = None ↔ ∀ x, x ∈ l → f x = None.
Proof.
  induction l as [|x l IH]; simpl; [set_solver|].
  destruct (f x) eqn:Hx.
  - split; [done|]. intros H. rewrite (H x) in Hx by set_solver. done.
  - rewrite IH. split.
    + intros H z Hz. apply elem_of_cons in Hz as [?|?]; subst; auto.
    + intros H z Hz. apply H. set_solver.
Qed.

Lemma find_map_app {A B} (f : A → option B) l1 l2 :
  find_map f (l1 ++ l2) =
  match find_map f l1 with Some y => Some y | None => find_map f l2 end.
Proof. induction l1 as [|x l1 IH]; simpl; [done|]. by destruct (f x). Qed.

Lemma find_map_ext {A B} (f g : A → option B) l :
  (∀ x, x ∈ l → f x = g x) → find_map f l = find_map g l.
Proof.
  induction l as [|x l IH]; simpl; [done|]. intros H.
  rewrite (H x) by set_solver. destruct (g x); [done|].
  apply IH. intros z Hz. apply H. set_solver.
Qed.

(** Entries a loop skips may be dropped before it. *)
Lemma omap_filter_id {A B} (P : A → Prop) `{∀ x, Decision (P x)} (f : A → option B) (l : list A) :
  (∀ x, ¬ P x → f x = None) → omap f (filter P l) = omap f l.
Proof.
  intros Hf. induction l as [|x l IH]; [done|]. rewrite filter_cons. case_decide as Hx; csimpl.
  - by rewrite IH.
  - by rewrite (Hf x Hx), IH.
Qed.

Lemma find_map_filter_id {A B} (P : A → Prop) `{∀ x, Decision (P x)} (f : A → option B) (l : list A) :
  (∀ x, ¬ P x → f x = None) → find_map f (filter P l) = find_map f l.
Proof.
  intros Hf. induction l as [|x l IH]; [done|]. rewrite filter_cons. case_decide as Hx; simpl.
  - by rewrite IH.
  - by rewrite (Hf x Hx), IH.
Qed.

(** The last element of a non-empty slice, [l[len(l)-1]], is stdpp's [last]. *)

(** ** Stable insertion sort

    Go's [sort.SliceStable] with the strict order [lt]: every stable sort of a
    slice by a strict weak order has the same result, so insertion stands for
    the library's block merge. *)

Section sort.
Context {A : Type} (lt : A → A → bool).

(** Insert before the first element that is not smaller. *)
Fixpoint sort_insert (x : A) (l : list A) : list A :=
  match l with
  | [] => [x]
  | y :: l' => if lt y x then y :: sort_insert x l' else x :: l
  end.

Definition stable_sort (l : list A) : list A := foldr sort_insert [] l.

Definition sorted_by : list A → Prop := Sorted (λ x y, lt y x = false).

Context (lt_asym : ∀ x y, lt x y = true → lt y x = false).
Context (lt_neg_trans : ∀ x y z, lt y x = false → lt z y = false → lt z x = false).

Lemma sort_insert_perm x l : sort_insert x l ≡ₚ x :: l.
Proof.
  induction l as [|y l IH]; simpl; [done|]. destruct (lt y x); [|done].
  rewrite IH. apply Permutation_swap.
Qed.

Lemma stable_sort_perm l : stable_sort l ≡ₚ l.
Proof.
  induction l as [|x l IH]; simpl; [done|].
  change (sort_insert x (stable_sort l) ≡ₚ x :: l).
  rewrite sort_insert_perm. by apply perm_skip.
Qed.

Lemma sort_insert_sorted x l : sorted_by l → sorted_by (sort_insert x l).
Proof.
  unfold sorted_by. induction l as [|y l IH]; simpl; intros Hs.
  - by repeat constructor.
  - apply Sorted_inv in Hs as [Hs Hh]. destruct (lt y x) eqn:Hyx.
    + constructor; [by apply IH|]. destruct l as [|z l]; simpl.
      * constructor. by apply lt_asym.
      * destruct (lt z x); constructor; [by inversion Hh|by apply lt_asym].
    + constructor; [by constructor|]. by constructor.
Qed.

Lemma stable_sort_sorted l : sorted_by (stable_sort l).
Proof.
  induction l as [|x l IH]; simpl; [constructor|]. by apply sort_insert_sorted.
Qed.

Lemma sorted_by_strong l :
  sorted_by l → StronglySorted (λ x y, lt y x = false) l.
Proof.
  apply Sorted_StronglySorted. intros x y z. apply lt_neg_trans.
Qed.

(** Two sorted permutations agree when incomparable members are equal. *)
Lemma sorted_by_unique l1 l2 :
  sorted_by l1 → sorted_by l2 → l1 ≡ₚ l2 →
  (∀ x y, x ∈ l1 → y ∈ l1 → lt x y = false → lt y x = false → x = y) →
  l1 = l2.
Proof.
  intros H1%sorted_by_strong H2%sorted_by_strong Hp Hu.
  revert l2 H2 Hp. induction H1 as [|x l1 H1 IH Hx]; intros l2 H2 Hp.
  { apply Permutation_nil_l in Hp. done. }
  destruct H2 as [|y l2 H2 Hy]; [by apply Permutation_nil_r in Hp|].
  assert (x = y) as <-.
  { assert (x ∈ y :: l2) as Hxin by (rewrite <-Hp; set_solver).
    assert (y ∈ x :: l1) as Hyin by (rewrite Hp; set_solver).
    apply elem_of_cons in Hxin as [?|Hxin]; [done|].
    apply elem_of_cons in Hyin as [?|Hyin]; [done|].
    rewrite Forall_forall in Hx, Hy.
    apply Hu; [set_solver..|by apply Hy|by apply Hx]. }
  f_equal. apply Permutation_cons_inv in Hp. apply IH; [|done..].
  intros a b Ha Hb. apply Hu; by constructor.
Qed.

Lemma stable_sort_canonical l1 l2 :
  l1 ≡ₚ l2 →
  (∀ x y, x ∈ l1 → y ∈ l1 → lt x y = false → lt y x = false → x = y) →
  stable_sort l1 = stable_sort l2.
Proof.
  intros Hp Hu. apply sorted_by_unique; try apply stable_sort_sorted.
  - by rewrite !stable_sort_perm.
  - intros x y. rewrite !stable_sort_perm. apply Hu.
Qed.

(** A sorted slice is left as it is. *)
Lemma stable_sort_id l : sorted_by l → stable_sort l = l.
Proof.
  unfold sorted_by. induction l as [|x l IH]; simpl; [done|].
  intros Hs. apply Sorted_inv in Hs as [Hs Hh].
  rewrite IH by done. destruct l as [|y l]; simpl; [done|].
  inversion Hh as [|?? Hyx]; subst. by rewrite Hyx.
Qed.
End sort.
