(* ===== verification/GoStd.v ===== *)
(** * GoStd: the parts of Go's language and standard library the code uses

    A Go [string] is a byte sequence, here [String.string] (a list of [ascii]).
    The functions below follow the documented behaviour of the packages
    [strings], [strconv], [unicode/utf8] and [fmt] on byte strings, invalid
    UTF-8 included. Four pieces that are tables or long grammars are a class,
    [GoTables]: Unicode simple case folding, Unicode lower-casing,
    [strconv.IsPrint] and the authority grammar of [net/url]; of the first
    three the behaviour on ASCII is fixed by law. *)

From S2P Require Import Prelude.
From Stdlib Require Import Ascii.

Implicit Types (c : ascii) (s t : string).

(** ** Bytes *)

Definition byte_val (c : ascii) : Z := Z.of_N (N_of_ascii c).
Definition byte_of (z : Z) : ascii := ascii_of_N (Z.to_N z).
Definition in_range (lo hi z : Z) : bool := (lo <=? z) && (z <=? hi).

Definition is_lower (z : Z) : bool := in_range 97 122 z.
Definition is_upper (z : Z) : bool := in_range 65 90 z.
Definition is_digit (z : Z) : bool := in_range 48 57 z.
Definition ascii_lower (z : Z) : Z := if is_upper z then z + 32 else z.

(** [len(s)] *)
Definition str_len (s : string) : Z := Z.of_nat (String.length s).

Fixpoint all_bytes (p : Z → bool) (s : string) : bool :=
  match s with
  | EmptyString => true
  | String c s' => p (byte_val c) && all_bytes p s'
  end.

(** [s[:n]] and [s[n:]], for [0 <= n <= len(s)]. *)
Fixpoint str_take (n : nat) (s : string) : string :=
  match n, s with
  | S n', String c s' => String c (str_take n' s')
  | _, _ => EmptyString
  end.

Fixpoint str_drop (n : nat) (s : string) : string :=
  match n, s with
  | S n', String _ s' => str_drop n' s'
  | _, _ => s
  end.

(** ** Searching and splitting *)

(** [strings.CutPrefix(s, p)] *)
Fixpoint cut_prefix (p s : string) : option string :=
  match p, s with
  | EmptyString, _ => Some s
  | String a p', String b s' => if bool_decide (a = b) then cut_prefix p' s' else None
  | _, _ => None
  end.

Definition has_prefix (p s : string) : bool :=
  match cut_prefix p s with Some _ => true | None => false end.

(** [strings.Cut(s, sub)]: around the first occurrence. [strings.Index] with
    the two slices [s[:i]] and [s[i+len(sub):]] the code takes of it. *)
Fixpoint cut (sub s : string) : option (string * string) :=
  match cut_prefix sub s with
  | Some rest => Some (EmptyString, rest)
  | None =>
      match s with
      | EmptyString => None
      | String c s' =>
          match cut sub s' with
          | Some (b, a) => Some (String c b, a)
          | None => None
          end
      end
  end.

(** [strings.Contains(s, sub)] *)
Definition contains (sub s : string) : bool :=
  match cut sub s with Some _ => true | None => false end.

(** [strings.ReplaceAll(s, old, new)] for a non-empty [old]; [skip] counts the
    bytes of a matched [old] still to be passed over. *)
Fixpoint replace_from (old new : string) (skip : nat) (s : string) : string :=
  match s with
  | EmptyString => EmptyString
  | String c s' =>
      match skip with
      | S k => replace_from old new k s'
      | O => if has_prefix old s
             then new +:+ replace_from old new (pred (String.length old)) s'
             else String c (replace_from old new 0 s')
      end
  end.
Definition replace_all (s old new : string) : string := replace_from old new 0 s.

(** [strings.Split(s, sep)] for a non-empty [sep]. *)
Fixpoint split_from (sep : string) (skip : nat) (cur : string) (s : string) : list string :=
  match s with
  | EmptyString => [cur]
  | String c s' =>
      match skip with
      | S k => split_from sep k cur s'
      | O => if has_prefix sep s
             then cur :: split_from sep (pred (String.length sep)) EmptyString s'
             else split_from sep 0 (cur +:+ String c EmptyString) s'
      end
  end.
Definition split (s sep : string) : list string := split_from sep 0 EmptyString s.

(** [strings.Join(l, sep)] *)
Fixpoint join (sep : string) (l : list string) : string :=
  match l with
  | [] => EmptyString
  | [x] => x
  | x :: l' => x +:+ sep +:+ join sep l'
  end.

(** ** UTF-8

    [decode s] is the sequence of runes a [for range] over [s] visits, each with
    the bytes it was read from: the runes of valid encodings, and U+FFFD of
    width one for every byte that starts none. *)

Definition rune_error : Z := 65533.
Definition is_cont (z : Z) : bool := in_range 128 191 z.

(** The second byte a three- or four-byte encoding accepts. *)
Definition accept2 (b0 b1 : Z) : bool :=
  if b0 =? 224 then in_range 160 191 b1
  else if b0 =? 237 then in_range 128 159 b1
  else if b0 =? 240 then in_range 144 191 b1
  else if b0 =? 244 then in_range 128 143 b1
  else is_cont b1.

Fixpoint decode (s : string) : list (Z * string) :=
  match s with
  | EmptyString => []
  | String c0 s1 =>
      let b0 := byte_val c0 in
      let one := String c0 EmptyString in
      if b0 <? 128 then (b0, one) :: decode s1 else
      match s1 with
      | EmptyString => [(rune_error, one)]
      | String c1 s2 =>
          let b1 := byte_val c1 in
          if in_range 194 223 b0 && is_cont b1 then
            ((b0 - 192) * 64 + (b1 - 128), String c0 (String c1 EmptyString)) :: decode s2
          else if in_range 224 244 b0 && accept2 b0 b1 then
            match s2 with
            | EmptyString => (rune_error, one) :: decode s1
            | String c2 s3 =>
                let b2 := byte_val c2 in
                if negb (is_cont b2) then (rune_error, one) :: decode s1
                else if b0 <=? 239 then
                  ((b0 - 224) * 4096 + (b1 - 128) * 64 + (b2 - 128),
                   String c0 (String c1 (String c2 EmptyString))) :: decode s3
                else
                  match s3 with
                  | EmptyString => (rune_error, one) :: decode s1
                  | String c3 s4 =>
                      let b3 := byte_val c3 in
                      if is_cont b3 then
                        ((b0 - 240) * 262144 + (b1 - 128) * 4096 + (b2 - 128) * 64 + (b3 - 128),
                         String c0 (String c1 (String c2 (String c3 EmptyString)))) :: decode s4
                      else (rune_error, one) :: decode s1
                  end
            end
          else (rune_error, one) :: decode s1
      end
  end.

Definition runes (s : string) : list Z := (decode s).*1.

Definition str1 (z : Z) : string := String (byte_of z) EmptyString.

(** [utf8.EncodeRune]: surrogates and values out of range encode U+FFFD. *)
Definition encode_rune (r : Z) : string :=
  let r := if in_range 0 1114111 r && negb (in_range 55296 57343 r) then r else rune_error in
  if r <? 128 then str1 r
  else if r <? 2048 then str1 (192 + r / 64) +:+ str1 (128 + r mod 64)
  else if r <? 65536 then
    str1 (224 + r / 4096) +:+ str1 (128 + r / 64 mod 64) +:+ str1 (128 + r mod 64)
  else str1 (240 + r / 262144) +:+ str1 (128 + r / 4096 mod 64)
       +:+ str1 (128 + r / 64 mod 64) +:+ str1 (128 + r mod 64).

(** ** White space

    [unicode.IsSpace]: the ASCII spaces, U+0085, U+00A0, U+1680,
    U+2000..U+200A, U+2028, U+2029, U+202F, U+205F and U+3000, by the bytes of
    their encodings. A valid encoding is the only one of its rune, so a rune at
    either end of a string is one of these exactly when its bytes stand there. *)

Definition space1 (a : Z) : bool := in_range 9 13 a || (a =? 32).
Definition space2 (a b : Z) : bool := (a =? 194) && ((b =? 133) || (b =? 160)).
Definition space3 (a b c : Z) : bool :=
  ((a =? 225) && (b =? 154) && (c =? 128))
  || ((a =? 226) && (b =? 128) && (in_range 128 138 c || (c =? 168) || (c =? 169) || (c =? 175)))
  || ((a =? 226) && (b =? 129) && (c =? 159))
  || ((a =? 227) && (b =? 128) && (c =? 128)).

Section trim.
Context (q2 : Z → Z → bool) (q3 : Z → Z → Z → bool).

(** Drop the leading one-, two- and three-byte spaces. *)
Fixpoint trim_with (s : string) : string :=
  match s with
  | String c0 s1 =>
      if space1 (byte_val c0) then trim_with s1 else
      match s1 with
      | String c1 s2 =>
          if q2 (byte_val c0) (byte_val c1) then trim_with s2 else
          match s2 with
          | String c2 s3 =>
              if q3 (byte_val c0) (byte_val c1) (byte_val c2) then trim_with s3 else s
          | EmptyString => s
          end
      | EmptyString => s
      end
  | EmptyString => s
  end.
End trim.

Definition trim_left : string → string := trim_with space2 space3.

(** From the other end the bytes of a space stand in reverse. *)
Definition trim_right (s : string) : string :=
  String.rev (trim_with (λ x y, space2 y x) (λ x y z, space3 z y x) (String.rev s)).

(** [strings.TrimSpace(s)] *)
Definition trim_space (s : string) : string := trim_right (trim_left s).

(** [strings.Fields(s)]; [cur] is the field being read. *)
Definition emit_field (cur : string) (l : list string) : list string :=
  if bool_decide (cur = EmptyString) then l else cur :: l.

Fixpoint fields_from (cur : string) (s : string) : list string :=
  match s with
  | EmptyString => emit_field cur []
  | String c0 s1 =>
      let keep := fields_from (cur +:+ String c0 EmptyString) s1 in
      if space1 (byte_val c0) then emit_field cur (fields_from EmptyString s1) else
      match s1 with
      | String c1 s2 =>
          if space2 (byte_val c0) (byte_val c1)
          then emit_field cur (fields_from EmptyString s2) else
          match s2 with
          | String c2 s3 =>
              if space3 (byte_val c0) (byte_val c1) (byte_val c2)
              then emit_field cur (fields_from EmptyString s3) else keep
          | EmptyString => keep
          end
      | EmptyString => keep
      end
  end.
Definition str_fields (s : string) : list string := fields_from EmptyString s.

(** ** Tables *)

Class GoTables := {
  (** The least rune of the [unicode.SimpleFold] orbit, ASCII orbits being named
      by their lower-case letter. *)
  fold_rune : Z → Z;
  (** [unicode.ToLower] *)
  lower_rune : Z → Z;
  (** [strconv.IsPrint] *)
  print_rune : Z → bool;
  (** [net/url] reads this authority as a non-empty host without user information. *)
  url_host_ok : string → bool;
  fold_rune_ascii : ∀ r, 0 ≤ r < 128 → fold_rune r = ascii_lower r;
  lower_rune_ascii : ∀ r, 0 ≤ r < 128 → lower_rune r = ascii_lower r;
  print_rune_ascii : ∀ r, 0 ≤ r < 128 → print_rune r = in_range 32 126 r;
}.

(** The tables restricted to ASCII, with hosts of letters, digits, dots and
    hyphens: the instance the examples evaluate with. *)
Definition ascii_host_byte (z : Z) : bool :=
  is_lower z || is_upper z || is_digit z || (z =? 45) || (z =? 46).

#[export] Instance ascii_tables : GoTables := {
  fold_rune := ascii_lower;
  lower_rune := ascii_lower;
  print_rune := in_range 32 126;
  url_host_ok h := negb (bool_decide (h = EmptyString)) && all_bytes ascii_host_byte h;
  fold_rune_ascii _ _ := eq_refl;
  lower_rune_ascii _ _ := eq_refl;
  print_rune_ascii _ _ := eq_refl;
}.

Section tables.
Context {T : GoTables}.

(** [strings.EqualFold(s, t)] *)
Definition EqualFold (s t : string) : bool :=
  bool_decide (fold_rune <$> runes s = fold_rune <$> runes t).

(** [strings.ToLower(s)] *)
Definition ToLower (s : string) : string :=
  foldr (λ r acc, encode_rune (lower_rune r) +:+ acc) EmptyString (runes s).

(** [strconv.Quote(s)], the verb [%q]. *)
Definition hex_digit (z : Z) : string :=
  str1 (if z <? 10 then 48 + z else 87 + z).
Fixpoint hex (width : nat) (z : Z) : string :=
  match width with
  | O => EmptyString
  | S w => hex w (z / 16) +:+ hex_digit (z mod 16)
  end.

Definition escape_rune (r : Z) : string :=
  if (r =? 34) || (r =? 92) then str1 92 +:+ str1 r
  else if print_rune r then encode_rune r
  else if r =? 7 then "\a" else if r =? 8 then "\b" else if r =? 12 then "\f"
  else if r =? 10 then "\n" else if r =? 13 then "\r" else if r =? 9 then "\t"
  else if r =? 11 then "\v"
  else if (r <? 32) || (r =? 127) then "\x" +:+ hex 2 r
  else if r <? 65536 then "\u" +:+ hex 4 r
  else "\U" +:+ hex 8 r.

Definition escape_chunk (p : Z * string) : string :=
  match p with
  | (r, String c EmptyString) =>
      if r =? rune_error then "\x" +:+ hex 2 (byte_val c) else escape_rune r
  | (r, _) => escape_rune r
  end.

Definition quote (s : string) : string :=
  str1 34 +:+ foldr (λ p acc, escape_chunk p +:+ acc) EmptyString (decode s) +:+ str1 34.
End tables.

(** ** Numbers *)

(** Non-negative decimal, most significant digit first; [fuel] bounds the
    number of digits. *)
Fixpoint dec_digits (fuel : nat) (n : Z) (acc : string) : string :=
  match fuel with
  | O => acc
  | S f =>
      let acc' := String (byte_of (48 + n mod 10)) acc in
      if n / 10 =? 0 then acc' else dec_digits f (n / 10) acc'
  end.

(** [strconv.Itoa], [strconv.FormatInt(_, 10)] and the verb [%d]. A number has at
    most one decimal digit per bit. *)
Definition itoa (n : Z) : string :=
  if n <? 0 then String (byte_of 45) (dec_digits (S (Z.to_nat (Z.log2 (- n)))) (- n) EmptyString)
  else dec_digits (S (Z.to_nat (Z.log2 n))) n EmptyString.

(** Decimal digits read most significant first. *)
Fixpoint dec_value (acc : Z) (s : string) : option Z :=
  match s with
  | EmptyString => Some acc
  | String c s' =>
      if is_digit (byte_val c) then dec_value (acc * 10 + (byte_val c - 48)) s' else None
  end.

Definition max_int64 : Z := 2 ^ 63 - 1.
Definition min_int64 : Z := - 2 ^ 63.

(** [time.Duration.String]: the last [prec] digits of [v] as a fraction without its
    trailing zeroes, before [acc]. *)
Fixpoint fmt_frac (prec : nat) (v : Z) (print : bool) (acc : string) : string :=
  match prec with
  | O => if print then "." +:+ acc else acc
  | S prec' =>
      let digit := v mod 10 in
      let print := print || negb (digit =? 0) in
      fmt_frac prec' (v / 10) print (if print then str1 (48 + digit) +:+ acc else acc)
  end.

Definition duration_string (d : Z) : string :=
  let u := Z.abs d in
  let sign := if d <? 0 then "-" else "" in
  if u =? 0 then "0s"
  else if u <? 10 ^ 3 then sign +:+ itoa u +:+ "ns"
  else if u <? 10 ^ 6 then sign +:+ itoa (u / 10 ^ 3) +:+ fmt_frac 3 u false "µs"
  else if u <? 10 ^ 9 then sign +:+ itoa (u / 10 ^ 6) +:+ fmt_frac 6 u false "ms"
  else
    let secs := u / 10 ^ 9 in
    let mins := secs / 60 in
    let s := itoa (secs mod 60) +:+ fmt_frac 9 u false "s" in
    let m := if 0 <? mins then itoa (mins mod 60) +:+ "m" +:+ s else s in
    let hours := mins / 60 in
    sign +:+ (if 0 <? hours then itoa hours +:+ "h" +:+ m else m).

Example duration_strings :
  duration_string 0 = "0s" ∧ duration_string 1500 = "1.5µs" ∧ duration_string 90000000000 = "1m30s"
  ∧ duration_string 3600000000000 = "1h0m0s" ∧ duration_string 2050000000 = "2.05s".
Proof. vm_compute. done. Qed.

(** [strconv.ParseInt(s, 10, 64)], and [strconv.Atoi] where [int] has 64 bits;
    [None] is a non-nil error, whichever it is. *)
Definition parse_int (s : string) : option Z :=
  let '(neg, digits) :=
    match s with
    | String c s' =>
        if byte_val c =? 43 then (false, s')
        else if byte_val c =? 45 then (true, s') else (false, s)
    | EmptyString => (false, s)
    end in
  match digits with
  | EmptyString => None
  | _ =>
      match dec_value 0 digits with
      | Some v =>
          let v := if neg : bool then - v else v in
          if in_range min_int64 max_int64 v then Some v else None
      | None => None
      end
  end.

(** ** Time

    A [time.Time] is an instant: nanoseconds since the zero [time.Time]. *)

Definition zero_time : Z := 0.
Definition time_before (a b : Z) : bool := a <? b.
Definition time_after (a b : Z) : bool := b <? a.

(** A newline, [\n]. *)
Definition nl : string := str1 10.
