(* ===== verification/GoStdFacts.v ===== *)
(** * GoStdFacts: lemmas about the string functions of [GoStd]

    What the components need of them: where a pattern can occur in a
    concatenation, that sanitised text holds no comment opener, that trimming
    and slicing return a piece of the string, that fields separated by single
    spaces are read back, and that decimal printing is undone by parsing. *)

From S2P Require Import Prelude GoStd.
From Stdlib Require Import Ascii.

Implicit Types (c : ascii) (s t : string).

(** ** Concatenation *)

Lemma sapp_nil_l s : EmptyString +:+ s = s.
Proof. done. Qed.

Lemma sapp_cons c s t : String c s +:+ t = String c (s +:+ t).
Proof. done. Qed.

Lemma sapp_assoc s t u : (s +:+ t) +:+ u = s +:+ (t +:+ u).
Proof. induction s as [|c s IH]; [done|]. by rewrite !sapp_cons, IH. Qed.

Lemma sapp_nil_r s : s +:+ EmptyString = s.
Proof. induction s as [|c s IH]; [done|]. by rewrite sapp_cons, IH. Qed.

Lemma sapp_inj_l s t u : s +:+ t = s +:+ u → t = u.
Proof. induction s as [|c s IH]; [done|]. rewrite !sapp_cons. intros [= H]. auto. Qed.

Lemma sapp_empty s t : s +:+ t = EmptyString → s = EmptyString ∧ t = EmptyString.
Proof. by destruct s. Qed.

Lemma srev_app_spec s t : String.rev_app s t = String.rev s +:+ t.
Proof.
  unfold String.rev. revert t. induction s as [|c s IH]; intros t; simpl; [done|].
  rewrite (IH (String c t)), (IH (String c "")), sapp_assoc. done.
Qed.

Lemma srev_cons c s : String.rev (String c s) = String.rev s +:+ String c EmptyString.
Proof. unfold String.rev at 1. simpl. apply srev_app_spec. Qed.

Lemma srev_app s t : String.rev (s +:+ t) = String.rev t +:+ String.rev s.
Proof.
  induction s as [|c s IH]; [by rewrite sapp_nil_r|].
  rewrite sapp_cons, !srev_cons, IH, sapp_assoc. done.
Qed.

Lemma srev_involutive s : String.rev (String.rev s) = s.
Proof. induction s as [|c s IH]; [done|]. by rewrite srev_cons, srev_app, IH. Qed.

Lemma srev_eq s t : String.rev s = t → s = String.rev t.
Proof. intros <-. by rewrite srev_involutive. Qed.

Lemma all_bytes_app p s t : all_bytes p (s +:+ t) = all_bytes p s && all_bytes p t.
Proof.
  induction s as [|c s IH]; [done|]. rewrite sapp_cons. simpl.
  by rewrite IH, andb_assoc.
Qed.

Lemma all_bytes_impl (p q : Z → bool) s :
  (∀ z, p z = true → q z = true) → all_bytes p s = true → all_bytes q s = true.
Proof.
  intros Hpq. induction s as [|c s IH]; simpl; [done|].
  rewrite !andb_true_iff. naive_solver.
Qed.

(** ** Bytes *)

Lemma byte_val_bound c : 0 ≤ byte_val c < 256.
Proof. unfold byte_val. pose proof (N_ascii_bounded c). lia. Qed.

Lemma byte_of_val c : byte_of (byte_val c) = c.
Proof. unfold byte_of, byte_val. rewrite N2Z.id. apply ascii_N_embedding. Qed.

Lemma byte_val_of z : 0 ≤ z < 256 → byte_val (byte_of z) = z.
Proof. intros Hz. unfold byte_of, byte_val. rewrite N_ascii_embedding; lia. Qed.

Lemma byte_val_inj c d : byte_val c = byte_val d → c = d.
Proof. intros H. by rewrite <-(byte_of_val c), <-(byte_of_val d), H. Qed.

(** ** Searching *)

Lemma cut_prefix_cons a p b s :
  cut_prefix (String a p) (String b s) = if bool_decide (a = b) then cut_prefix p s else None.
Proof. done. Qed.

Lemma cut_prefix_Some p s r : cut_prefix p s = Some r ↔ s = p +:+ r.
Proof.
  revert s. induction p as [|a p IH]; intros [|b s]; simpl.
  - rewrite sapp_nil_l. split; congruence.
  - rewrite sapp_nil_l. split; congruence.
  - split; [done|]. rewrite sapp_cons. done.
  - rewrite sapp_cons. case_bool_decide; subst.
    + rewrite IH. split; congruence.
    + split; [done|]. congruence.
Qed.

Lemma cut_prefix_app p s : cut_prefix p (p +:+ s) = Some s.
Proof. by apply cut_prefix_Some. Qed.

Lemma has_prefix_spec p s : has_prefix p s = true ↔ ∃ r, s = p +:+ r.
Proof.
  unfold has_prefix. destruct (cut_prefix p s) as [r|] eqn:H.
  - apply cut_prefix_Some in H. naive_solver.
  - split; [done|]. intros [r Hr]. apply cut_prefix_Some in Hr. congruence.
Qed.

Lemma cut_cons sub c s :
  cut sub (String c s) =
  match cut_prefix sub (String c s) with
  | Some rest => Some (EmptyString, rest)
  | None => match cut sub s with
            | Some (b, a) => Some (String c b, a)
            | None => None
            end
  end.
Proof. done. Qed.

Lemma cut_Some_app sub s b a : cut sub s = Some (b, a) → s = b +:+ sub +:+ a.
Proof.
  revert b. induction s as [|c s IH]; intros b.
  - simpl. destruct (cut_prefix sub "") eqn:H; [|done].
    intros [= <- <-]. by apply cut_prefix_Some in H.
  - rewrite cut_cons. destruct (cut_prefix sub (String c s)) eqn:H.
    + intros [= <- <-]. by apply cut_prefix_Some in H.
    + destruct (cut sub s) as [[b' a']|]; [|done]. intros [= <- <-].
      rewrite sapp_cons. f_equal. by apply IH.
Qed.

Lemma cut_head sub r : cut sub (sub +:+ r) = Some (EmptyString, r).
Proof. destruct (sub +:+ r) eqn:H; simpl; by rewrite <-H, cut_prefix_app. Qed.

Lemma cut_app_exists sub b a : is_Some (cut sub (b +:+ sub +:+ a)).
Proof.
  induction b as [|c b IH].
  - rewrite sapp_nil_l, cut_head. eauto.
  - rewrite sapp_cons, cut_cons. destruct (cut_prefix _ _); [eauto|].
    destruct IH as [[b' a'] ->]. eauto.
Qed.

Lemma contains_spec sub s : contains sub s = true ↔ ∃ b a, s = b +:+ sub +:+ a.
Proof.
  unfold contains. destruct (cut sub s) as [[b a]|] eqn:H.
  - apply cut_Some_app in H. naive_solver.
  - split; [done|]. intros (b & a & ->). destruct (cut_app_exists sub b a).
    congruence.
Qed.

Lemma contains_false_cut sub s : contains sub s = false ↔ cut sub s = None.
Proof. unfold contains. by destruct (cut sub s). Qed.

(** A string that holds a piece holds everything the piece holds. *)
Lemma contains_factor sub l m r :
  contains sub (l +:+ m +:+ r) = false → contains sub m = false.
Proof.
  rewrite <-!not_true_iff_false, !contains_spec. intros H (b & a & ->). apply H.
  exists (l +:+ b), (a +:+ r). by rewrite !sapp_assoc.
Qed.

Lemma contains_longer sub ext s : contains sub s = false → contains (sub +:+ ext) s = false.
Proof.
  rewrite <-!not_true_iff_false, !contains_spec. intros H (b & a & ->). apply H.
  exists b, (ext +:+ a). by rewrite sapp_assoc.
Qed.

(** A byte the pattern does not have separates the places it can occur. *)
Definition avoids (c : ascii) (s : string) : bool :=
  all_bytes (λ z, negb (z =? byte_val c)) s.

Lemma avoids_cons c d s : avoids c (String d s) = true ↔ d ≠ c ∧ avoids c s = true.
Proof.
  unfold avoids. simpl. rewrite andb_true_iff, negb_true_iff, Z.eqb_neq.
  split; intros [H ?]; split; try done.
  - by intros ->.
  - intros Hv. by apply byte_val_inj in Hv.
Qed.

Lemma avoids_app c s t : avoids c (s +:+ t) = avoids c s && avoids c t.
Proof. apply all_bytes_app. Qed.

Lemma avoids_prefix_cons c p t :
  avoids c p = true → p ≠ EmptyString → cut_prefix p (String c t) = None.
Proof.
  destruct p as [|a p]; [done|]. intros [Ha _]%avoids_cons _. simpl.
  by rewrite bool_decide_eq_false_2.
Qed.

Lemma cut_prefix_sep c p s t :
  avoids c p = true →
  cut_prefix p (s +:+ String c t) =
  match cut_prefix p s with Some r => Some (r +:+ String c t) | None => None end.
Proof.
  revert s. induction p as [|a p IH]; intros s Hp; [by destruct s|].
  pose proof Hp as [Ha Hp']%avoids_cons. destruct s as [|b s].
  - rewrite sapp_nil_l. apply avoids_prefix_cons; done.
  - rewrite sapp_cons. simpl. case_bool_decide; [by apply IH|done].
Qed.

Lemma cut_sep c sub s t :
  avoids c sub = true → sub ≠ EmptyString →
  cut sub (s +:+ String c t) =
  match cut sub s with
  | Some (b, a) => Some (b, a +:+ String c t)
  | None => match cut sub t with
            | Some (b, a) => Some (s +:+ String c b, a)
            | None => None
            end
  end.
Proof.
  intros Hav Hne. induction s as [|d s IH].
  - rewrite sapp_nil_l, cut_cons, avoids_prefix_cons by done.
    replace (cut sub "") with (@None (string * string)); [by destruct (cut sub t) as [[]|]|].
    by destruct sub.
  - rewrite sapp_cons, (cut_cons sub d s), cut_cons, <-sapp_cons, cut_prefix_sep by done.
    destruct (cut_prefix sub (String d s)); [done|]. rewrite IH.
    destruct (cut sub s) as [[]|]; [done|]. by destruct (cut sub t) as [[]|].
Qed.

Lemma contains_sep c sub s t :
  avoids c sub = true → sub ≠ EmptyString →
  contains sub (s +:+ String c t) = contains sub s || contains sub t.
Proof.
  intros H1 H2. unfold contains. rewrite cut_sep by done.
  destruct (cut sub s) as [[]|]; [done|]. by destruct (cut sub t) as [[]|].
Qed.

(** A pattern cannot occur where its first byte does not. *)
Lemma cut_first_absent c p s : avoids c s = true → cut (String c p) s = None.
Proof.
  induction s as [|d s IH]; [done|]. intros [Hd Hs]%avoids_cons.
  rewrite cut_cons, (IH Hs). simpl. by rewrite bool_decide_eq_false_2 by congruence.
Qed.

Lemma contains_first_absent c p s : avoids c s = true → contains (String c p) s = false.
Proof. intros H. unfold contains. by rewrite cut_first_absent. Qed.

Lemma cut_at_first_byte c s t :
  avoids c s = true → cut (String c EmptyString) (s +:+ String c t) = Some (s, t).
Proof.
  induction s as [|d s IH]; intros H.
  - rewrite sapp_nil_l, cut_cons. simpl. by rewrite bool_decide_eq_true_2.
  - apply avoids_cons in H as [Hd Hs]. rewrite sapp_cons, cut_cons, (IH Hs). simpl.
    by rewrite bool_decide_eq_false_2 by congruence.
Qed.

(** The first comment closer after text without [>]. *)
Lemma cut_closer s t :
  avoids ">" s = true → cut "-->" (s +:+ "-->" +:+ t) = Some (s, t).
Proof.
  induction s as [|d s IH]; intros H.
  - rewrite sapp_nil_l. change ("-->" +:+ t) with (String "-" (String "-" (String ">" t))).
    rewrite cut_cons. done.
  - apply avoids_cons in H as [Hd Hs]. rewrite sapp_cons, cut_cons, (IH Hs).
    replace (cut_prefix "-->" (String d (s +:+ "-->" +:+ t))) with (@None string); [done|].
    symmetry. simpl. case_bool_decide; [|done]. destruct s as [|e s]; [done|].
    apply avoids_cons in Hs as [He Hs]. rewrite sapp_cons. case_bool_decide; [|done].
    destruct s as [|f s]; [done|]. apply avoids_cons in Hs as [Hf _].
    rewrite sapp_cons. by rewrite bool_decide_eq_false_2 by congruence.
Qed.

(** ** Lengths *)

Lemma str_len_app s t : str_len (s +:+ t) = str_len s + str_len t.
Proof.
  unfold str_len. induction s as [|c s IH]; [by rewrite sapp_nil_l|].
  rewrite sapp_cons. simpl String.length. lia.
Qed.

Lemma length_sapp s t : String.length (s +:+ t) = (String.length s + String.length t)%nat.
Proof. apply Nat2Z.inj. rewrite Nat2Z.inj_add. apply str_len_app. Qed.

Lemma str_len_nonneg s : 0 ≤ str_len s.
Proof. unfold str_len. lia. Qed.

Lemma str_len_empty s : str_len s = 0 → s = EmptyString.
Proof. destruct s; [done|]. unfold str_len. simpl. lia. Qed.

(** ** Slices and trimming *)

Lemma str_take_all n s : (String.length s ≤ n)%nat → str_take n s = s.
Proof.
  revert n. induction s as [|c s IH]; intros [|n] H; simpl in *; [done|done|lia|].
  rewrite IH; [done|lia].
Qed.

Lemma str_take_app_le n s t : (n ≤ String.length s)%nat → str_take n (s +:+ t) = str_take n s.
Proof.
  revert n. induction s as [|c s IH]; intros [|n] H.
  - by destruct t.
  - simpl in H. lia.
  - done.
  - rewrite sapp_cons. simpl in *. rewrite IH; [done|lia].
Qed.

Lemma str_take_drop n s : s = str_take n s +:+ str_drop n s.
Proof.
  revert s. induction n as [|n IH]; intros [|c s]; try done.
  simpl. rewrite sapp_cons. by rewrite <-IH.
Qed.

Lemma trim_with_suffix q2 q3 s : ∃ l, s = l +:+ trim_with q2 q3 s.
Proof.
  remember (String.length s) as n eqn:Hn. assert (String.length s ≤ n)%nat as Hle by lia.
  clear Hn. revert s Hle. induction n as [|n IH]; intros s Hle.
  { destruct s; simpl in *; [by exists ""|lia]. }
  destruct s as [|c0 s1]; [by exists ""|]. simpl in Hle |- *.
  destruct (space1 _).
  { destruct (IH s1) as [l Hl]; [lia|]. exists (String c0 l). rewrite sapp_cons. by f_equal. }
  destruct s1 as [|c1 s2]; [by exists ""|]. destruct (q2 _ _).
  { destruct (IH s2) as [l Hl]; [simpl in *; lia|]. exists (String c0 (String c1 l)).
    rewrite !sapp_cons. by do 2 f_equal. }
  destruct s2 as [|c2 s3]; [by exists ""|]. destruct (q3 _ _ _); [|by exists ""].
  destruct (IH s3) as [l Hl]; [simpl in *; lia|].
  exists (String c0 (String c1 (String c2 l))). rewrite !sapp_cons. by do 3 f_equal.
Qed.

Lemma trim_space_factor s : ∃ l r, s = l +:+ trim_space s +:+ r.
Proof.
  unfold trim_space, trim_right. destruct (trim_with_suffix space2 space3 s) as [l Hl].
  edestruct trim_with_suffix as [r Hr].
  exists l, (String.rev r). rewrite Hl at 1. f_equal.
  apply srev_eq in Hr. by rewrite srev_app in Hr.
Qed.

Lemma contains_trim_space sub s : contains sub s = false → contains sub (trim_space s) = false.
Proof.
  intros H. destruct (trim_space_factor s) as (l & r & Hs). rewrite Hs in H.
  by apply contains_factor in H.
Qed.

Lemma contains_str_take sub n s : contains sub s = false → contains sub (str_take n s) = false.
Proof.
  intros H. rewrite (str_take_drop n s), <-(sapp_nil_l (str_take n s +:+ _)) in H.
  by apply contains_factor in H.
Qed.

(** ** Replacement

    Replacing [<!--] by [< !--] leaves no [<!--]: the bytes the replacement
    emits cannot complete one across its borders. *)

Lemma replace_prefix p old new' s r :
  avoids "<" p = true →
  cut_prefix p (replace_from old (String "<" new') 0 s) = Some r → has_prefix p s = true.
Proof.
  revert s r. induction p as [|a p IH]; intros s r Hp; [done|].
  apply avoids_cons in Hp as [Ha Hp]. destruct s as [|c s]; [done|].
  simpl. destruct (has_prefix old (String c s)).
  - rewrite sapp_cons. simpl. by rewrite bool_decide_eq_false_2 by congruence.
  - simpl. case_bool_decide as Hac; [|done]. intros H. apply IH in H; [|done]. subst.
    unfold has_prefix in *. simpl. rewrite bool_decide_eq_true_2 by done. done.
Qed.

Lemma replace_opener s : contains "<!--" (replace_all s "<!--" "< !--") = false.
Proof.
  unfold replace_all. generalize 0%nat as k. induction s as [|c s IH]; intros k; [done|].
  simpl. destruct k as [|k]; [|apply IH].
  destruct (has_prefix "<!--" (String c s)) eqn:Hp.
  - specialize (IH 3%nat). rewrite contains_false_cut in *.
    rewrite !sapp_cons, sapp_nil_l.
    do 5 (rewrite cut_cons; simpl cut_prefix; cbv beta iota).
    by rewrite IH.
  - specialize (IH 0%nat). rewrite contains_false_cut in *. rewrite cut_cons, IH.
    destruct (cut_prefix "<!--" _) as [r|] eqn:H; [|done]. exfalso.
    rewrite cut_prefix_cons in H. case_bool_decide as Hc; [subst c|done].
    apply replace_prefix in H; [|done]. unfold has_prefix in Hp, H.
    rewrite cut_prefix_cons, bool_decide_eq_true_2 in Hp by done.
    destruct (cut_prefix "!--" s); done.
Qed.

(** ** Fields *)

Definition token_byte (z : Z) : bool := in_range 33 126 z.
Definition is_token (s : string) : bool := all_bytes token_byte s.

Lemma token_not_space z : token_byte z = true → space1 z = false.
Proof. unfold token_byte, space1, in_range. lia. Qed.

Lemma token_not_space2 z y : token_byte z = true → space2 z y = false.
Proof. unfold token_byte, space2, in_range. lia. Qed.

Lemma token_not_space3 z y x : token_byte z = true → space3 z y x = false.
Proof. unfold token_byte, space3, in_range. lia. Qed.

Lemma fields_from_token_cons cur c s :
  token_byte (byte_val c) = true →
  fields_from cur (String c s) = fields_from (cur +:+ String c EmptyString) s.
Proof.
  intros Hc. simpl fields_from at 1. rewrite token_not_space by done.
  destruct s as [|c1 s]; [done|]. rewrite token_not_space2 by done.
  destruct s as [|c2 s]; [done|]. by rewrite token_not_space3 by done.
Qed.

Lemma fields_from_token cur tok s :
  is_token tok = true → fields_from cur (tok +:+ s) = fields_from (cur +:+ tok) s.
Proof.
  unfold is_token. revert cur. induction tok as [|c tok IH]; intros cur H.
  - by rewrite sapp_nil_r.
  - simpl in H. apply andb_true_iff in H as [Hc Ht].
    rewrite sapp_cons, fields_from_token_cons by done. rewrite (IH _ Ht), sapp_assoc. done.
Qed.

Lemma fields_from_space cur s :
  fields_from cur (String " " s) = emit_field cur (fields_from EmptyString s).
Proof. done. Qed.

Lemma str_fields_token tok s :
  is_token tok = true → tok ≠ EmptyString →
  str_fields (tok +:+ String " " s) = tok :: str_fields s.
Proof.
  intros Ht Hne. unfold str_fields. rewrite fields_from_token, fields_from_space by done.
  rewrite sapp_nil_l. unfold emit_field. by rewrite bool_decide_eq_false_2.
Qed.

(** ** Decimal numbers *)

Lemma byte_val_digit n : 0 ≤ n → byte_val (byte_of (48 + n mod 10)) = 48 + n mod 10.
Proof. intros. apply byte_val_of. pose proof (Z.mod_pos_bound n 10). lia. Qed.

Lemma dec_digits_spec fuel n acc :
  0 ≤ n < 2 ^ Z.of_nat fuel → (fuel ≠ 0)%nat →
  ∃ pre, dec_digits fuel n acc = pre +:+ acc ∧ pre ≠ EmptyString ∧
    all_bytes is_digit pre = true ∧
    ∀ v t, ∃ k, dec_value v (pre +:+ t) = dec_value (v * k + n) t.
Proof.
  revert n acc. induction fuel as [|fuel IH]; intros n acc Hn Hf; [done|].
  assert (is_digit (byte_val (byte_of (48 + n mod 10))) = true) as Hd.
  { rewrite byte_val_digit by lia. pose proof (Z.mod_pos_bound n 10).
    unfold is_digit, in_range. lia. }
  simpl dec_digits. destruct (Z.eqb_spec (n / 10) 0) as [H0|H0].
  - exists (String (byte_of (48 + n mod 10)) ""). split_and!; [done..| |].
    + simpl. by rewrite Hd.
    + intros v t. exists 10. rewrite sapp_cons, sapp_nil_l. simpl. rewrite Hd.
      f_equal. rewrite byte_val_digit by lia. pose proof (Z.div_mod n 10). lia.
  - assert (0 ≤ n / 10 < 2 ^ Z.of_nat fuel) as Hb.
    { rewrite Nat2Z.inj_succ, Z.pow_succ_r in Hn by lia.
      split; [apply Z.div_pos; lia|]. apply Z.div_lt_upper_bound; lia. }
    destruct (IH (n / 10) (String (byte_of (48 + n mod 10)) acc)) as (pre & He & Hne & Ha & Hv);
      [done| |].
    { intros ->. simpl in Hb. lia. }
    exists (pre +:+ String (byte_of (48 + n mod 10)) ""). split_and!.
    + by rewrite He, sapp_assoc.
    + intros [? [=]]%sapp_empty.
    + rewrite all_bytes_app, Ha. simpl. by rewrite Hd.
    + intros v t. rewrite sapp_assoc, sapp_cons, sapp_nil_l.
      destruct (Hv v (String (byte_of (48 + n mod 10)) t)) as [k Hk].
      exists (k * 10). rewrite Hk. simpl. rewrite Hd. f_equal.
      rewrite byte_val_digit by lia. pose proof (Z.div_mod n 10). lia.
Qed.

Lemma itoa_pos_spec n :
  0 ≤ n →
  itoa n ≠ EmptyString ∧ all_bytes is_digit (itoa n) = true ∧ dec_value 0 (itoa n) = Some n.
Proof.
  intros Hn. unfold itoa. destruct (Z.ltb_spec n 0); [lia|].
  destruct (dec_digits_spec (S (Z.to_nat (Z.log2 n))) n "") as (pre & He & Hne & Ha & Hv).
  - split; [done|]. rewrite Nat2Z.inj_succ, Z2Nat.id by apply Z.log2_nonneg.
    destruct (Z.eq_dec n 0) as [->|]; [done|]. apply Z.log2_spec. lia.
  - done.
  - rewrite He, sapp_nil_r. split_and!; [done..|].
    destruct (Hv 0 "") as [k Hk]. by rewrite sapp_nil_r in Hk.
Qed.

Lemma parse_int_itoa n : 0 ≤ n ≤ max_int64 → parse_int (itoa n) = Some n.
Proof.
  intros Hn. destruct (itoa_pos_spec n) as (Hne & Ha & Hv); [lia|].
  unfold parse_int. destruct (itoa n) as [|c s] eqn:Hi; [done|].
  simpl in Ha. apply andb_true_iff in Ha as [Hc _].
  unfold is_digit, in_range in Hc.
  destruct (Z.eqb_spec (byte_val c) 43); [lia|]. destruct (Z.eqb_spec (byte_val c) 45); [lia|].
  rewrite Hv. assert (in_range min_int64 max_int64 n = true) as ->; [|done].
  unfold in_range, min_int64. lia.
Qed.

Lemma itoa_inj n m : 0 ≤ n → 0 ≤ m → itoa n = itoa m → n = m.
Proof.
  intros Hn Hm Heq. destruct (itoa_pos_spec n Hn) as (_ & _ & H1), (itoa_pos_spec m Hm) as (_ & _ & H2).
  rewrite Heq in H1. congruence.
Qed.

Lemma digit_token s : all_bytes is_digit s = true → is_token s = true.
Proof. apply all_bytes_impl. intros z. unfold is_digit, token_byte, in_range. lia. Qed.

Lemma itoa_token n : 0 ≤ n → is_token (itoa n) = true.
Proof. intros Hn. apply digit_token. by apply itoa_pos_spec. Qed.

Lemma all_bytes_avoids p c s :
  all_bytes p s = true → p (byte_val c) = false → avoids c s = true.
Proof.
  intros H Hc. eapply all_bytes_impl; [|exact H]. intros z Hz. simpl.
  destruct (Z.eqb_spec z (byte_val c)); [congruence|done].
Qed.

(** ** Case folding *)

#[export] Instance EqualFold_equiv `{GoTables} : Equivalence (λ s t, EqualFold s t = true).
Proof.
  unfold EqualFold. split.
  - intros s. by apply bool_decide_eq_true.
  - intros s t ?%bool_decide_eq_true. by apply bool_decide_eq_true.
  - intros s t u ?%bool_decide_eq_true ?%bool_decide_eq_true.
    apply bool_decide_eq_true. congruence.
Qed.

#[export] Hint Rewrite sapp_assoc sapp_cons sapp_nil_l sapp_nil_r : ben_str.
#[export] Hint Resolve itoa_token contains_trim_space contains_str_take : ben.
