(* ===== verification/Review.v ===== *)
(** * Review: vocabulary and policy of the review controller

    Models [internal/review/review.go]: verdicts, outcomes, the controller's
    configuration with its validation and reviewer-profile selection, and the
    observation of an issue the reducer is handed. *)

From S2P Require Import Prelude GoStd GoStdFacts.
From Stdlib Require Import Ascii.

(** ** Closed vocabularies

    Go's [Verdict] and [Outcome] are strings; the zero value is a member of the
    type and not of the closed set. *)

Inductive Verdict := VerdictUnset | VerdictClean | VerdictChangesRequested.

Inductive Outcome :=
  | OutcomeUnset | OutcomeRevise | OutcomeHumanReview | OutcomeRoundCap | OutcomeNoProgress.

#[export] Instance Verdict_eq_dec : EqDecision Verdict.
Proof. solve_decision. Defined.
#[export] Instance Outcome_eq_dec : EqDecision Outcome.
Proof. solve_decision. Defined.

Definition verdict_string (v : Verdict) : string :=
  match v with
  | VerdictUnset => ""
  | VerdictClean => "clean"
  | VerdictChangesRequested => "changes_requested"
  end.

Definition outcome_string (o : Outcome) : string :=
  match o with
  | OutcomeUnset => ""
  | OutcomeRevise => "revise"
  | OutcomeHumanReview => "human-review"
  | OutcomeRoundCap => "round-cap"
  | OutcomeNoProgress => "no-progress"
  end.

Definition HumanReviewLabel : string := "human-review".
Definition ReviewerProfileLabelPrefix : string := "review-profile:".
Definition MaxReviewerProfiles : Z := 8.

Definition ErrInvalidConfig : error := errors_New "review: invalid controller configuration".

(** ** Configuration *)

Record Config := MkConfig {
  cfg_Owner : string;
  cfg_Repo : string;
  cfg_Issue : Z;
  cfg_Principal : string;
  cfg_TrackerAuthor : string;
  cfg_Controller : string;
  cfg_AllowSharedTrackerController : bool;
  cfg_RequiredLabels : list string;
  cfg_QueueLabel : string;
  cfg_AddHumanReviewLabel : bool;
  cfg_RoundCap : Z;
  cfg_ReviewerProfiles : list string;
  cfg_DefaultReviewerProfile : string;
}.

(** ** Observation *)

Record Issue := MkIssue {
  iss_Number : Z;
  iss_Closed : bool;
  iss_Labels : list string;
  iss_Assignees : list string;
}.

Record Comment := MkComment {
  com_ID : Z;
  com_Author : string;
  com_Body : string;
  com_CreatedAt : Z;
}.

Record Event := MkEvent {
  ev_ID : Z;
  ev_Type : string;
  ev_Actor : string;
  ev_Assignee : string;
  ev_Label : string;
  ev_CreatedAt : Z;
}.

Definition EventAssigned : string := "assigned".
Definition EventUnassigned : string := "unassigned".
Definition EventLabeled : string := "labeled".
Definition EventUnlabeled : string := "unlabeled".

Record PullRequest := MkPR {
  pr_Number : Z;
  pr_URL : string;
  pr_Closed : bool;
  pr_Merged : bool;
  pr_Branch : string;
  pr_Head : string;
  pr_Base : string;
  pr_BaseSHA : string;
  pr_Body : string;
}.

Definition zero_PR : PullRequest := MkPR 0 "" false false "" "" "" "" "".

Record Review := MkReview {
  rv_ID : Z;
  rv_Author : string;
  rv_Body : string;
  rv_CommitID : string;
  rv_State : string;
  rv_SubmittedAt : Z;
}.

Record Snapshot := MkSnapshot {
  sn_Issue : Issue;
  sn_Comments : list Comment;
  sn_Events : list Event;
  sn_Reviews : list Review;
  sn_PR : option PullRequest;
}.

#[export] Instance Event_eq_dec : EqDecision Event.
Proof. solve_decision. Defined.

(** ** Operations *)

Section operations.
Context {T : GoTables}.

Definition eqFold (a b : string) : bool := EqualFold (trim_space a) (trim_space b).

Definition hasLabel (labels : list string) (want : string) : bool :=
  existsb (λ l, eqFold l want) labels.

(** The first required label that is not on the issue, or [""]. *)
Fixpoint missingRequiredLabel (labels required : list string) : string :=
  match required with
  | [] => ""
  | want :: rest => if hasLabel labels want then missingRequiredLabel labels rest else want
  end.

Definition Branch (c : Config) : string := "ben/" +:+ itoa (cfg_Issue c).

Definition profile_byte (z : Z) : bool := is_lower z || is_digit z || (z =? 45).

Definition first_byte (s : string) : Z :=
  match s with String c _ => byte_val c | EmptyString => 0 end.
Fixpoint last_byte (s : string) : Z :=
  match s with
  | EmptyString => 0
  | String c EmptyString => byte_val c
  | String _ s' => last_byte s'
  end.

(** A rune loop that refuses everything but ASCII refuses exactly the strings
    with another byte. *)
Definition ValidReviewerProfile (name : string) : bool :=
  if (str_len name <? 1) || (32 <? str_len name)
     || (first_byte name =? 45) || (last_byte name =? 45)
  then false else all_bytes profile_byte name.

Definition hasReviewerProfilePrefix (label : string) : bool :=
  let label := trim_space label in
  (str_len ReviewerProfileLabelPrefix <=? str_len label)
  && EqualFold (str_take (String.length ReviewerProfileLabelPrefix) label)
               ReviewerProfileLabelPrefix.

Definition invalid (msg : string) : option error :=
  Some (errorf_w ErrInvalidConfig (": " +:+ msg)).

Definition profile_shape : string :=
  " is not a lowercase name of 1-32 letters, digits, or hyphens".

Fixpoint validateProfileSet (dflt : string) (names seen : list string) (foundDefault : bool)
    : option error :=
  match names with
  | [] =>
      if negb foundDefault
      then invalid ("default reviewer profile " +:+ quote dflt +:+ " is not in the configured set")
      else None
  | name :: rest =>
      if negb (ValidReviewerProfile name)
      then invalid ("reviewer profile " +:+ quote name +:+ profile_shape)
      else if hasLabel seen name
      then invalid ("reviewer profile " +:+ quote name +:+ " is repeated")
      else validateProfileSet dflt rest (seen ++ [name])
             (foundDefault || bool_decide (name = dflt))
  end.

Definition validateReviewerProfiles (c : Config) : option error :=
  if bool_decide (cfg_ReviewerProfiles c = []) then
    if negb (bool_decide (cfg_DefaultReviewerProfile c = ""))
    then invalid ("default reviewer profile " +:+ quote (cfg_DefaultReviewerProfile c)
                  +:+ " is set without named reviewer profiles")
    else None
  else if negb (ValidReviewerProfile (cfg_DefaultReviewerProfile c))
  then invalid ("default reviewer profile " +:+ quote (cfg_DefaultReviewerProfile c)
                +:+ profile_shape)
  else if MaxReviewerProfiles <? Z.of_nat (length (cfg_ReviewerProfiles c))
  then invalid (itoa (Z.of_nat (length (cfg_ReviewerProfiles c)))
                +:+ " reviewer profiles exceed the limit of " +:+ itoa MaxReviewerProfiles)
  else validateProfileSet (cfg_DefaultReviewerProfile c) (cfg_ReviewerProfiles c) [] false.

Fixpoint validateRequiredLabels (i : Z) (labels seen : list string) : option error :=
  match labels with
  | [] => None
  | label :: rest =>
      let label := trim_space label in
      if bool_decide (label = "")
      then invalid ("required label " +:+ itoa i +:+ " is blank")
      else if hasLabel seen label
      then invalid ("required label " +:+ quote label +:+ " is repeated")
      else validateRequiredLabels (i + 1) rest (seen ++ [label])
  end.

Definition missingFields (c : Config) : list string :=
  (filter (λ f, trim_space f.2 = "")
    [("owner", cfg_Owner c); ("repo", cfg_Repo c); ("principal", cfg_Principal c);
     ("tracker author", cfg_TrackerAuthor c); ("controller", cfg_Controller c);
     ("queue label", cfg_QueueLabel c)]).*1.

Definition reservedQueueLabel (c : Config) : bool :=
  let queueLabel := trim_space (cfg_QueueLabel c) in
  (4 <=? str_len queueLabel) && EqualFold (str_take 4 queueLabel) "ben:".

(** [Config.Validate]; [None] is a nil error. *)
Definition Validate (c : Config) : option error :=
  if negb (bool_decide (missingFields c = []))
  then invalid ("missing " +:+ join ", " (missingFields c))
  else if bool_decide (cfg_RequiredLabels c = []) then invalid "missing required labels"
  else match validateRequiredLabels 0 (cfg_RequiredLabels c) [] with Some e => Some e | None =>
  if cfg_Issue c <=? 0
  then invalid ("issue number " +:+ itoa (cfg_Issue c) +:+ " is not positive")
  else if cfg_RoundCap c <? 1
  then invalid ("round cap " +:+ itoa (cfg_RoundCap c) +:+ " leaves no round to run")
  else match validateReviewerProfiles c with Some e => Some e | None =>
  if reservedQueueLabel c
  then invalid ("queue label " +:+ quote (cfg_QueueLabel c)
                +:+ " is in BEN's reserved state-label namespace")
  else if eqFold (cfg_Controller c) (cfg_Principal c)
  then invalid ("the controller identity " +:+ quote (cfg_Controller c)
                +:+ " is also the claim principal — it would review and unassign itself")
  else if eqFold (cfg_Controller c) (cfg_TrackerAuthor c)
          && negb (cfg_AllowSharedTrackerController c)
  then invalid ("the controller identity " +:+ quote (cfg_Controller c)
                +:+ " is also the milestone author — it could trigger its own rounds")
  else if cfg_AddHumanReviewLabel c && eqFold HumanReviewLabel (cfg_QueueLabel c)
  then invalid ("the fixed informational label " +:+ quote HumanReviewLabel
                +:+ " is the required label — adding it would be an approval")
  else if negb (hasLabel (cfg_RequiredLabels c) (cfg_QueueLabel c))
  then invalid ("queue label " +:+ quote (cfg_QueueLabel c)
                +:+ " is not in the complete required-label set")
  else if cfg_AddHumanReviewLabel c && hasLabel (cfg_RequiredLabels c) HumanReviewLabel
  then invalid ("the fixed informational label " +:+ quote HumanReviewLabel
                +:+ " is in the required-label set — adding it would be an approval")
  else find_map (λ label,
         if hasReviewerProfilePrefix label
         then invalid ("required label " +:+ quote label
                +:+ " is in the reviewer-profile namespace; profile choice is operational policy, not workflow approval")
         else None) (cfg_RequiredLabels c)
  end end.

(** The loop of [SelectReviewerProfile], with [selected] and [count]. *)
Fixpoint selectProfileLoop (profiles labels : list string) (selected : string) (count : Z)
    : result (string * Z) :=
  match labels with
  | [] => Ok (selected, count)
  | label :: rest =>
      if negb (hasReviewerProfilePrefix label)
      then selectProfileLoop profiles rest selected count
      else if bool_decide (profiles = [])
      then selectProfileLoop profiles rest selected (count + 1)
      else
        let name := str_drop (String.length ReviewerProfileLabelPrefix) (trim_space label) in
        let canonical := default "" (find (λ allowed, EqualFold name allowed) profiles) in
        if bool_decide (canonical = "")
        then Err (errorf ("reviewer profile label " +:+ quote label
                          +:+ " names no configured profile"))
        else selectProfileLoop profiles rest canonical (count + 1)
  end.

Definition SelectReviewerProfile (c : Config) (labels : list string) : result string :=
  match selectProfileLoop (cfg_ReviewerProfiles c) labels "" 0 with
  | Err e => Err e
  | Ok (selected, count) =>
      if bool_decide (cfg_ReviewerProfiles c = []) then
        if 0 <? count
        then Err (errorf "reviewer profile labels are not selectable with legacy review.reviewer_argv")
        else Ok ""
      else if 1 <? count
      then Err (errorf ("issue carries " +:+ itoa count
                        +:+ " reviewer profile labels; exactly zero or one is allowed"))
      else if bool_decide (selected = "") then Ok (cfg_DefaultReviewerProfile c)
      else Ok selected
  end.
End operations.
