(* ===== verification/ReviewMarker.v ===== *)
(** * ReviewMarker: the controller's durable vocabulary

    Models [internal/review/marker.go], [internal/review/blocked.go] and the
    bodies of [internal/review/verdict.go]: the markers the controller writes
    into reviews and comments, the parser that reads them back, and the bodies
    that carry them next to untrusted prose. *)

From S2P Require Import Prelude GoStd GoStdFacts Review.
From Stdlib Require Import Ascii.

(** ** Definitions *)

Definition markerReview : string := "ben:review".
Definition markerRoute : string := "ben:route".
Definition markerRouteIntent : string := "ben:route-intent".
Definition markerReviewBlocked : string := "ben:review-blocked".
Definition markerMilestone : string := "ben:milestone".

Definition ErrNoMarker : error := errors_New "review: no marker".
Definition ErrAmbiguousMarker : error :=
  errors_New "review: more than one marker of the same kind".
Definition ErrMalformedMarker : error := errors_New "review: malformed marker".

Record ReviewMarker := MkReviewMarker {
  rm_Occurrence : Z;
  rm_Claim : Z;
  rm_Approval : Z;
  rm_Head : string;
  rm_Base : string;
  rm_Verdict : Verdict;
  rm_ReviewerProfile : string;
}.

Definition zero_ReviewMarker : ReviewMarker := MkReviewMarker 0 0 0 "" "" VerdictUnset "".

Record RouteMarker := MkRouteMarker {
  ro_Occurrence : Z;
  ro_Claim : Z;
  ro_Head : string;
  ro_Outcome : Outcome;
}.

Record RouteIntentMarker := MkIntent {
  ri_Occurrence : Z;
  ri_Claim : Z;
  ri_Approval : Z;
  ri_Head : string;
  ri_Outcome : Outcome;
}.

Record ReviewBlockedMarker := MkBlocked {
  rb_Occurrence : Z;
  rb_Claim : Z;
  rb_Approval : Z;
  rb_Head : string;
  rb_Reason : string;
}.

#[export] Instance RouteIntentMarker_eq_dec : EqDecision RouteIntentMarker.
Proof. solve_decision. Defined.

(** [ReviewMarker.String] and its siblings. *)
Definition review_marker_string (m : ReviewMarker) : string :=
  let profile :=
    if bool_decide (rm_ReviewerProfile m = "") then "" else " profile=" +:+ rm_ReviewerProfile m in
  "<!-- " +:+ markerReview +:+ " occurrence=" +:+ itoa (rm_Occurrence m)
  +:+ " claim=" +:+ itoa (rm_Claim m) +:+ " approval=" +:+ itoa (rm_Approval m)
  +:+ " head=" +:+ rm_Head m +:+ " base=" +:+ rm_Base m
  +:+ " verdict=" +:+ verdict_string (rm_Verdict m) +:+ profile +:+ " -->".

Definition route_marker_string (m : RouteMarker) : string :=
  "<!-- " +:+ markerRoute +:+ " occurrence=" +:+ itoa (ro_Occurrence m)
  +:+ " claim=" +:+ itoa (ro_Claim m) +:+ " head=" +:+ ro_Head m
  +:+ " outcome=" +:+ outcome_string (ro_Outcome m) +:+ " -->".

Definition intent_marker_string (m : RouteIntentMarker) : string :=
  "<!-- " +:+ markerRouteIntent +:+ " occurrence=" +:+ itoa (ri_Occurrence m)
  +:+ " claim=" +:+ itoa (ri_Claim m) +:+ " approval=" +:+ itoa (ri_Approval m)
  +:+ " head=" +:+ ri_Head m +:+ " outcome=" +:+ outcome_string (ri_Outcome m) +:+ " -->".

Definition blocked_marker_string (m : ReviewBlockedMarker) : string :=
  "<!-- " +:+ markerReviewBlocked +:+ " occurrence=" +:+ itoa (rb_Occurrence m)
  +:+ " claim=" +:+ itoa (rb_Claim m) +:+ " approval=" +:+ itoa (rb_Approval m)
  +:+ " head=" +:+ rb_Head m +:+ " reason=" +:+ rb_Reason m +:+ " -->".

Definition hex_byte (z : Z) : bool := is_digit z || in_range 97 102 z.

Definition isFullSHA (s : string) : bool := (str_len s =? 40) && all_bytes hex_byte s.

Definition reason_byte (z : Z) : bool :=
  is_lower z || is_digit z || (z =? 95) || (z =? 45).

Definition ValidBlockReason (reason : string) : bool :=
  if bool_decide (reason = "") || (64 <? str_len reason) then false
  else all_bytes reason_byte reason.

(** [SanitizeFindings] *)
Definition SanitizeFindings (s : string) : string := replace_all s "<!--" "< !--".

(** [maxFindings] *)
Definition maxFindings : Z := 60000.

Section parse.
Context {T : GoTables}.

(** Type [fields]: a marker's [key=value] pairs. *)
Definition field_id (f : gmap string string) (key : string) : result Z :=
  match f !! key with
  | None => Err (errorf_w ErrMalformedMarker (": no " +:+ key +:+ " field"))
  | Some raw =>
      let malformed := Err (errorf_w ErrMalformedMarker
        (": " +:+ key +:+ "=" +:+ quote raw +:+ " is not a tracker event id")) in
      match parse_int raw with
      | Some v => if v <=? 0 then malformed else Ok v
      | None => malformed
      end
  end.

Definition field_sha (f : gmap string string) (key : string) : result string :=
  let raw := default "" (f !! key) in
  if negb (isFullSHA raw)
  then Err (errorf_w ErrMalformedMarker
         (": " +:+ key +:+ "=" +:+ quote raw +:+ " is not a full commit sha"))
  else Ok raw.

Fixpoint marker_fields (name : string) (toks : list string) (f : gmap string string)
    : result (gmap string string) :=
  match toks with
  | [] => Ok f
  | tok :: rest =>
      match cut "=" tok with
      | None => Err (errorf_w ErrMalformedMarker
            (": " +:+ name +:+ " carries " +:+ quote tok +:+ ", which is not key=value"))
      | Some (k, v) =>
          match f !! k with
          | Some _ => Err (errorf_w ErrMalformedMarker
                (": " +:+ name +:+ " repeats " +:+ quote k))
          | None => marker_fields name rest (<[k := v]> f)
          end
      end
  end.

Definition parseMarker (body name : string) : result (gmap string string) :=
  let open := "<!-- " +:+ name +:+ " " in
  match cut open body with
  | None => Err ErrNoMarker
  | Some (_, rest) =>
      if contains open rest then Err (errorf_w ErrAmbiguousMarker (": " +:+ name))
      else match cut "-->" rest with
      | None => Err (errorf_w ErrMalformedMarker (": " +:+ name +:+ " is unterminated"))
      | Some (inner, _) => marker_fields name (str_fields inner) ∅
      end
  end.

Definition parse_verdict (f : gmap string string) : result Verdict :=
  let raw := default "" (f !! "verdict") in
  if bool_decide (raw = "clean") then Ok VerdictClean
  else if bool_decide (raw = "changes_requested") then Ok VerdictChangesRequested
  else Err (errorf_w ErrMalformedMarker
         (": verdict " +:+ quote raw +:+ " is outside the closed set")).

Definition parse_outcome (f : gmap string string) : result Outcome :=
  let raw := default "" (f !! "outcome") in
  if bool_decide (raw = "revise") then Ok OutcomeRevise
  else if bool_decide (raw = "human-review") then Ok OutcomeHumanReview
  else if bool_decide (raw = "round-cap") then Ok OutcomeRoundCap
  else if bool_decide (raw = "no-progress") then Ok OutcomeNoProgress
  else Err (errorf_w ErrMalformedMarker
         (": outcome " +:+ quote raw +:+ " is outside the closed set")).

Definition parse_terminal_outcome (f : gmap string string) : result Outcome :=
  let raw := default "" (f !! "outcome") in
  if bool_decide (raw = "human-review") then Ok OutcomeHumanReview
  else if bool_decide (raw = "round-cap") then Ok OutcomeRoundCap
  else if bool_decide (raw = "no-progress") then Ok OutcomeNoProgress
  else Err (errorf_w ErrMalformedMarker
         (": terminal outcome " +:+ quote raw +:+ " is outside the closed set")).

Definition ParseReviewMarker (body : string) : result ReviewMarker :=
  try f := parseMarker body markerReview in
  try occurrence := field_id f "occurrence" in
  try claim := field_id f "claim" in
  try approval :=
    (match f !! "approval" with None => Ok 0 | Some _ => field_id f "approval" end) in
  try head := field_sha f "head" in
  try base := field_sha f "base" in
  try profile :=
    (match f !! "profile" with
     | None => Ok ""
     | Some profile =>
         if negb (ValidReviewerProfile profile)
         then Err (errorf_w ErrMalformedMarker
                (": profile " +:+ quote profile +:+ " is not a valid reviewer profile"))
         else Ok profile
     end) in
  try verdict := parse_verdict f in
  Ok (MkReviewMarker occurrence claim approval head base verdict profile).

Definition ParseRouteMarker (body : string) : result RouteMarker :=
  try f := parseMarker body markerRoute in
  try occurrence := field_id f "occurrence" in
  try claim := field_id f "claim" in
  try head := field_sha f "head" in
  try outcome := parse_outcome f in
  Ok (MkRouteMarker occurrence claim head outcome).

Definition ParseRouteIntentMarker (body : string) : result RouteIntentMarker :=
  try f := parseMarker body markerRouteIntent in
  try occurrence := field_id f "occurrence" in
  try claim := field_id f "claim" in
  try approval := field_id f "approval" in
  try head := field_sha f "head" in
  try outcome := parse_terminal_outcome f in
  Ok (MkIntent occurrence claim approval head outcome).

Definition ParseReviewBlockedMarker (body : string) : result ReviewBlockedMarker :=
  try f := parseMarker body markerReviewBlocked in
  try occurrence := field_id f "occurrence" in
  try claim := field_id f "claim" in
  try approval := field_id f "approval" in
  try head := field_sha f "head" in
  let reason := default "" (f !! "reason") in
  if negb (ValidBlockReason reason)
  then Err (errorf_w ErrMalformedMarker
         (": reason " +:+ quote reason +:+ " is not a reason token"))
  else Ok (MkBlocked occurrence claim approval head reason).

Definition PublishedOccurrence (body : string) : result Z :=
  try f := parseMarker body markerMilestone in
  if negb (bool_decide (default "" (f !! "kind") = "published")) then Err ErrNoMarker
  else field_id f "occurrence".

(** [BlockedReviewFor] *)
Definition BlockedReviewFor (cfg : Config) (comments : list Comment)
    (occurrence : Z) (head : string) : option ReviewBlockedMarker :=
  find_map (λ c,
    if negb (eqFold (com_Author c) (cfg_Controller cfg)) then None
    else match ParseReviewBlockedMarker (com_Body c) with
         | Err _ => None
         | Ok m => if negb (rb_Occurrence m =? occurrence)
                      || negb (bool_decide (rb_Head m = head))
                   then None else Some m
         end) comments.
End parse.

(** *** Bodies *)

(** The findings as published: neutralised, trimmed, bounded. *)
Definition published_findings (findings : string) : string :=
  let f := trim_space (SanitizeFindings findings) in
  let f := if maxFindings <? str_len f
           then str_take (Z.to_nat maxFindings) f +:+ nl +:+ nl +:+ "_(truncated)_" else f in
  if bool_decide (f = "") then "_The reviewer returned no findings._" else f.

Definition ReviewBody (m : ReviewMarker) (findings : string) : string :=
  "**Automated review** — advisory only. This is a `COMMENT` review by BEN's review controller; it is not an approval, and a human code owner's review is still required."
  +:+ nl +:+ nl
  +:+ "- verdict: `" +:+ verdict_string (rm_Verdict m) +:+ "`" +:+ nl
  +:+ "- head: `" +:+ rm_Head m +:+ "`" +:+ nl
  +:+ (if bool_decide (rm_ReviewerProfile m = "") then ""
       else "- reviewer profile: `" +:+ rm_ReviewerProfile m +:+ "`" +:+ nl)
  +:+ nl +:+ published_findings findings +:+ nl +:+ nl
  +:+ review_marker_string m +:+ nl.

Definition RouteBody (m : RouteMarker) (why : string) : string :=
  "**Review controller** routed occurrence `" +:+ itoa (ro_Occurrence m) +:+ "` to `"
  +:+ outcome_string (ro_Outcome m) +:+ "`." +:+ nl +:+ nl
  +:+ "- head: `" +:+ ro_Head m +:+ "`" +:+ nl
  +:+ "- reason: " +:+ trim_space (SanitizeFindings why) +:+ nl +:+ nl
  +:+ route_marker_string m +:+ nl.

Definition RouteIntentBody (m : RouteIntentMarker) (why : string) : string :=
  "**Review controller** prepared terminal route `" +:+ outcome_string (ri_Outcome m)
  +:+ "` for occurrence `" +:+ itoa (ri_Occurrence m) +:+ "`." +:+ nl +:+ nl
  +:+ "- head: `" +:+ ri_Head m +:+ "`" +:+ nl
  +:+ "- approval event: `" +:+ itoa (ri_Approval m) +:+ "`" +:+ nl
  +:+ "- reason: " +:+ trim_space (SanitizeFindings why) +:+ nl +:+ nl
  +:+ intent_marker_string m +:+ nl.

Definition ReviewBlockedBody (m : ReviewBlockedMarker) (detail : string) : string :=
  "**Review controller** could not start the independent review of head `" +:+ rb_Head m
  +:+ "`." +:+ nl +:+ nl
  +:+ "The execution substrate refused to admit the reviewer run (`" +:+ rb_Reason m
  +:+ "`), so no review was produced and none will be until the request or the substrate's limits change. This is not a verdict on the change: the pull request still needs a human code owner's review, and BEN's assignment and the approval label are untouched."
  +:+ nl +:+ nl
  +:+ (let d := trim_space (SanitizeFindings detail) in
       if bool_decide (d = "") then "" else "- detail: " +:+ d +:+ nl)
  +:+ "- occurrence: `" +:+ itoa (rb_Occurrence m) +:+ "`" +:+ nl +:+ nl
  +:+ blocked_marker_string m +:+ nl.
