(* ===== verification/ReviewMarkerFacts.v ===== *)
(** * ReviewMarkerFacts: what can be read back from a controller artifact

    The bodies the controller publishes carry model-authored prose next to the
    marker that is the artifact's identity. The theorems show that the marker
    read back is the one written whatever the prose says, that a body holds no
    marker of another kind, and that whatever parses is well formed. *)

From S2P Require Import Prelude GoStd GoStdFacts Review ReviewMarker.
From Stdlib Require Import Ascii.

(** ** Well-formed markers *)

Definition event_id (n : Z) : Prop := 0 < n ≤ max_int64.

Definition wf_review_marker (m : ReviewMarker) : Prop :=
  event_id (rm_Occurrence m) ∧ event_id (rm_Claim m) ∧ event_id (rm_Approval m)
  ∧ isFullSHA (rm_Head m) = true ∧ isFullSHA (rm_Base m) = true
  ∧ rm_Verdict m ≠ VerdictUnset
  ∧ (rm_ReviewerProfile m = "" ∨ ValidReviewerProfile (rm_ReviewerProfile m) = true).

Definition wf_route_marker (m : RouteMarker) : Prop :=
  event_id (ro_Occurrence m) ∧ event_id (ro_Claim m)
  ∧ isFullSHA (ro_Head m) = true ∧ ro_Outcome m ≠ OutcomeUnset.

Definition wf_intent_marker (m : RouteIntentMarker) : Prop :=
  event_id (ri_Occurrence m) ∧ event_id (ri_Claim m) ∧ event_id (ri_Approval m)
  ∧ isFullSHA (ri_Head m) = true
  ∧ ri_Outcome m ≠ OutcomeUnset ∧ ri_Outcome m ≠ OutcomeRevise.

Definition wf_blocked_marker (m : ReviewBlockedMarker) : Prop :=
  event_id (rb_Occurrence m) ∧ event_id (rb_Claim m) ∧ event_id (rb_Approval m)
  ∧ isFullSHA (rb_Head m) = true ∧ ValidBlockReason (rb_Reason m) = true.

(** ** Values a marker carries

    Every value is a run of printable ASCII without [=], [<] or [>]. *)

Definition value_byte (z : Z) : bool :=
  token_byte z && negb (z =? 61) && negb (z =? 60) && negb (z =? 62).

Definition is_value (s : string) : bool := all_bytes value_byte s.

Lemma digits_value s : all_bytes is_digit s = true → is_value s = true.
Proof.
  apply all_bytes_impl. intros z. unfold is_digit, value_byte, token_byte, in_range. lia.
Qed.

Lemma itoa_value n : 0 ≤ n → is_value (itoa n) = true.
Proof. intros. apply digits_value. by apply itoa_pos_spec. Qed.

Lemma event_id_value n : event_id n → is_value (itoa n) = true.
Proof. intros []. apply itoa_value. lia. Qed.

Lemma sha_value s : isFullSHA s = true → is_value s = true.
Proof.
  unfold isFullSHA. intros [_ H]%andb_true_iff. revert H. apply all_bytes_impl.
  intros z. unfold hex_byte, is_digit, value_byte, token_byte, in_range. lia.
Qed.

Lemma profile_value s : ValidReviewerProfile s = true → is_value s = true.
Proof.
  unfold ValidReviewerProfile. destruct (_ || _); [done|]. apply all_bytes_impl.
  intros z. unfold profile_byte, is_lower, is_digit, value_byte, token_byte, in_range. lia.
Qed.

Lemma reason_value s : ValidBlockReason s = true → is_value s = true.
Proof.
  unfold ValidBlockReason. destruct (_ || _); [done|]. apply all_bytes_impl.
  intros z. unfold reason_byte, is_lower, is_digit, value_byte, token_byte, in_range. lia.
Qed.

Lemma verdict_value v : is_value (verdict_string v) = true.
Proof. by destruct v. Qed.

Lemma outcome_value o : is_value (outcome_string o) = true.
Proof. by destruct o. Qed.

#[export] Hint Resolve event_id_value sha_value profile_value reason_value
  verdict_value outcome_value : ben.

(** ** The marker as a list of pairs *)

Definition kv_token (kv : string * string) : string := kv.1 +:+ "=" +:+ kv.2.
Definition marker_inner (kvs : list (string * string)) : string :=
  foldr (λ kv acc, kv_token kv +:+ String " " acc) EmptyString kvs.
Definition marker_text (name : string) (kvs : list (string * string)) : string :=
  "<!-- " +:+ name +:+ " " +:+ marker_inner kvs +:+ "-->".

Definition plain_pair (kv : string * string) : Prop :=
  is_value kv.1 = true ∧ is_value kv.2 = true.

Lemma value_token s : is_value s = true → is_token s = true.
Proof. apply all_bytes_impl. intros z. unfold value_byte, token_byte, in_range. lia. Qed.

Lemma kv_token_is_token kv : plain_pair kv → is_token (kv_token kv) = true.
Proof.
  intros [Hk Hv]. unfold is_token, kv_token. rewrite !all_bytes_app.
  apply value_token in Hk, Hv. unfold is_token in Hk, Hv. by rewrite Hk, Hv.
Qed.

Lemma kv_token_nonempty kv : kv_token kv ≠ EmptyString.
Proof. unfold kv_token. intros [_ [=]]%sapp_empty. Qed.

Lemma str_fields_inner kvs :
  Forall plain_pair kvs → str_fields (marker_inner kvs) = kv_token <$> kvs.
Proof.
  induction 1 as [|kv kvs Hkv _ IH]; [done|]. simpl.
  rewrite str_fields_token by (by apply kv_token_is_token || apply kv_token_nonempty).
  by rewrite IH.
Qed.

Lemma value_avoids c s : is_value s = true → value_byte (byte_val c) = false → avoids c s = true.
Proof. apply all_bytes_avoids. Qed.

Lemma inner_avoids c kvs :
  Forall plain_pair kvs → value_byte (byte_val c) = false →
  byte_val c ≠ 61 → byte_val c ≠ 32 → avoids c (marker_inner kvs) = true.
Proof.
  intros H Hc H1 H2. induction H as [|kv kvs [Hk Hv] _ IH]; [done|]. simpl.
  rewrite avoids_app. apply andb_true_iff. split.
  - unfold kv_token. rewrite !avoids_app, (value_avoids _ _ Hk Hc), (value_avoids _ _ Hv Hc).
    rewrite andb_true_r. apply avoids_cons. split; [by intros <-|done].
  - apply avoids_cons. split; [by intros <-|done].
Qed.

Lemma marker_fields_pairs `{GoTables} name kvs f :
  Forall plain_pair kvs → NoDup kvs.*1 → (∀ k, k ∈ kvs.*1 → f !! k = None) →
  marker_fields name (kv_token <$> kvs) f = Ok (list_to_map kvs ∪ f).
Proof.
  intros Hkvs. revert f. induction Hkvs as [|[k v] kvs [Hk Hv] _ IH]; intros f Hnd Hf; simpl.
  - by rewrite (left_id_L ∅ (∪)).
  - unfold kv_token at 1. simpl fst. simpl snd. change ("=" +:+ v) with (String "=" v).
    rewrite cut_at_first_byte by (apply value_avoids; done).
    apply NoDup_cons in Hnd as [Hk' Hnd]. rewrite Hf by set_solver.
    rewrite IH; [|done|].
    + f_equal. rewrite <-insert_union_l, <-insert_union_r; [done|].
      by apply not_elem_of_list_to_map.
    + intros k' Hk''. rewrite lookup_insert_ne by set_solver. apply Hf. set_solver.
Qed.

(** ** Reading a body

    [pre] is everything before the marker's line. *)

Definition marker_body (pre name : string) (kvs : list (string * string)) : string :=
  pre +:+ nl +:+ marker_text name kvs +:+ nl.

Section read.
Context `{GoTables}.

Lemma marker_body_eq pre name kvs :
  marker_body pre name kvs =
  pre +:+ String (byte_of 10)
    ("<!-- " +:+ name +:+ " " +:+ marker_inner kvs +:+ "-->" +:+ nl).
Proof. unfold marker_body, marker_text, nl, str1. by rewrite !sapp_assoc. Qed.

Lemma opener_cons s : "<!-- " +:+ s = String "<" ("!-- " +:+ s).
Proof. done. Qed.

Lemma opener_avoids_nl name :
  is_value name = true → avoids (byte_of 10) ("<!-- " +:+ name +:+ " ") = true.
Proof. intros Hn. by rewrite !avoids_app, (value_avoids _ _ Hn). Qed.

Lemma after_opener_no_angle kvs :
  Forall plain_pair kvs → avoids "<" (marker_inner kvs +:+ "-->" +:+ nl) = true.
Proof. intros Hk. by rewrite !avoids_app, inner_avoids. Qed.

Lemma parseMarker_body pre name kvs :
  contains "<!--" pre = false → is_value name = true →
  Forall plain_pair kvs → NoDup kvs.*1 →
  parseMarker (marker_body pre name kvs) name = Ok (list_to_map kvs).
Proof.
  intros Hpre Hname Hkvs Hnd. unfold parseMarker. rewrite marker_body_eq.
  rewrite cut_sep; [|by apply opener_avoids_nl|done].
  assert (contains ("<!-- " +:+ name +:+ " ") pre = false) as Hpre'.
  { change ("<!-- " +:+ name +:+ " ") with ("<!--" +:+ (" " +:+ name +:+ " ")).
    by apply contains_longer. }
  apply contains_false_cut in Hpre'. rewrite Hpre'.
  set (rest := marker_inner kvs +:+ "-->" +:+ nl).
  replace ("<!-- " +:+ name +:+ " " +:+ rest)
    with (("<!-- " +:+ name +:+ " ") +:+ rest) by (by rewrite !sapp_assoc).
  rewrite cut_head.
  rewrite opener_cons, contains_first_absent by (by apply after_opener_no_angle).
  unfold rest. rewrite cut_closer by (by apply inner_avoids).
  rewrite str_fields_inner, marker_fields_pairs by (done || set_solver).
  by rewrite (right_id_L ∅ (∪)).
Qed.

(** A marker alone reads as it does in a body. *)
Lemma parseMarker_text name kvs :
  is_value name = true → Forall plain_pair kvs → NoDup kvs.*1 →
  parseMarker (marker_text name kvs) name = Ok (list_to_map kvs).
Proof.
  intros Hname Hkvs Hnd. unfold parseMarker, marker_text.
  replace ("<!-- " +:+ name +:+ " " +:+ marker_inner kvs +:+ "-->")
    with (("<!-- " +:+ name +:+ " ") +:+ (marker_inner kvs +:+ "-->")) by (by rewrite !sapp_assoc).
  rewrite cut_head.
  rewrite opener_cons, contains_first_absent by (by rewrite !avoids_app, inner_avoids).
  replace (marker_inner kvs +:+ "-->") with (marker_inner kvs +:+ "-->" +:+ "") by done.
  rewrite cut_closer by (by apply inner_avoids).
  rewrite str_fields_inner, marker_fields_pairs by (done || set_solver).
  by rewrite (right_id_L ∅ (∪)).
Qed.

(** A name followed by a space fixes the marker's kind. *)
Lemma name_space_inj n1 n2 t1 t2 :
  is_value n1 = true → is_value n2 = true →
  n1 +:+ String " " t1 = n2 +:+ String " " t2 → n1 = n2.
Proof.
  revert n2. unfold is_value. induction n1 as [|a n1 IH]; intros [|b n2] H1 H2 He; try done.
  - rewrite sapp_nil_l, sapp_cons in He. by injection He as <- _.
  - rewrite sapp_nil_l, sapp_cons in He. by injection He as -> _.
  - rewrite !sapp_cons in He. simpl in H1, H2.
    apply andb_true_iff in H1 as [_ H1], H2 as [_ H2]. injection He as -> He.
    f_equal. by apply IH.
Qed.

Lemma parseMarker_other_kind pre name name' kvs :
  contains "<!--" pre = false → is_value name = true → is_value name' = true →
  name ≠ name' → Forall plain_pair kvs →
  parseMarker (marker_body pre name kvs) name' = Err ErrNoMarker.
Proof.
  intros Hpre Hname Hname' Hne Hkvs. unfold parseMarker.
  enough (contains ("<!-- " +:+ name' +:+ " ") (marker_body pre name kvs) = false) as Hc
    by (apply contains_false_cut in Hc; by rewrite Hc).
  rewrite marker_body_eq, contains_sep; [|by apply opener_avoids_nl|done].
  apply orb_false_iff. split.
  { change ("<!-- " +:+ name' +:+ " ") with ("<!--" +:+ (" " +:+ name' +:+ " ")).
    by apply contains_longer. }
  rewrite contains_false_cut, !opener_cons, cut_cons, cut_first_absent.
  - destruct (cut_prefix _ _) as [r|] eqn:Hp; [|done]. exfalso.
    apply cut_prefix_Some in Hp.
    rewrite <-!opener_cons, !sapp_assoc in Hp.
    apply sapp_inj_l in Hp. apply Hne. by eapply name_space_inj.
  - rewrite (avoids_app _ "!-- "), (avoids_app _ name), (avoids_app _ " ").
    by rewrite after_opener_no_angle, (value_avoids "<" name).
Qed.
End read.

(** ** The bodies are marker bodies *)

Definition review_pairs (m : ReviewMarker) : list (string * string) :=
  [("occurrence", itoa (rm_Occurrence m)); ("claim", itoa (rm_Claim m));
   ("approval", itoa (rm_Approval m)); ("head", rm_Head m); ("base", rm_Base m);
   ("verdict", verdict_string (rm_Verdict m))]
  ++ (if bool_decide (rm_ReviewerProfile m = "") then []
      else [("profile", rm_ReviewerProfile m)]).

Definition route_pairs (m : RouteMarker) : list (string * string) :=
  [("occurrence", itoa (ro_Occurrence m)); ("claim", itoa (ro_Claim m));
   ("head", ro_Head m); ("outcome", outcome_string (ro_Outcome m))].

Definition intent_pairs (m : RouteIntentMarker) : list (string * string) :=
  [("occurrence", itoa (ri_Occurrence m)); ("claim", itoa (ri_Claim m));
   ("approval", itoa (ri_Approval m)); ("head", ri_Head m);
   ("outcome", outcome_string (ri_Outcome m))].

Definition blocked_pairs (m : ReviewBlockedMarker) : list (string * string) :=
  [("occurrence", itoa (rb_Occurrence m)); ("claim", itoa (rb_Claim m));
   ("approval", itoa (rb_Approval m)); ("head", rb_Head m); ("reason", rb_Reason m)].

Lemma review_marker_text m :
  review_marker_string m = marker_text markerReview (review_pairs m).
Proof.
  unfold review_marker_string, marker_text, review_pairs.
  case_bool_decide; simpl; unfold kv_token; by autorewrite with ben_str.
Qed.

Lemma route_marker_text m : route_marker_string m = marker_text markerRoute (route_pairs m).
Proof. unfold route_marker_string, marker_text. simpl. unfold kv_token. by autorewrite with ben_str. Qed.

Lemma intent_marker_text m :
  intent_marker_string m = marker_text markerRouteIntent (intent_pairs m).
Proof. unfold intent_marker_string, marker_text. simpl. unfold kv_token. by autorewrite with ben_str. Qed.

Lemma blocked_marker_text m :
  blocked_marker_string m = marker_text markerReviewBlocked (blocked_pairs m).
Proof. unfold blocked_marker_string, marker_text. simpl. unfold kv_token. by autorewrite with ben_str. Qed.

(** ** Text before the marker *)

Definition no_opener (s : string) : Prop := contains "<!--" s = false.

Lemma no_opener_nl s t : no_opener s → no_opener t → no_opener (s +:+ nl +:+ t).
Proof.
  unfold no_opener, nl, str1. intros Hs Ht.
  rewrite sapp_cons, sapp_nil_l, contains_sep by done. by rewrite Hs, Ht.
Qed.

Lemma no_opener_plain s : avoids "<" s = true → no_opener s.
Proof. apply contains_first_absent. Qed.

Lemma no_opener_prefixed p s : avoids "<" p = true → no_opener s → no_opener (p +:+ s).
Proof.
  unfold no_opener. rewrite !contains_false_cut. intros Hp Hs.
  induction p as [|c p IH]; [done|]. apply avoids_cons in Hp as [Hc Hp].
  rewrite sapp_cons, cut_cons, (IH Hp), cut_prefix_cons.
  by rewrite bool_decide_eq_false_2 by congruence.
Qed.

(** A value in backquotes after a literal. *)
Lemma no_opener_quoted p v q :
  avoids "<" p = true → is_value v = true → avoids "<" q = true → no_opener (p +:+ v +:+ q).
Proof.
  intros Hp Hv Hq. apply no_opener_plain. rewrite !avoids_app, Hp, Hq.
  by rewrite (value_avoids "<" v).
Qed.

Lemma no_opener_sanitized s : no_opener (trim_space (SanitizeFindings s)).
Proof. apply contains_trim_space, replace_opener. Qed.

Lemma no_opener_findings f : no_opener (published_findings f).
Proof.
  unfold published_findings. pose proof (no_opener_sanitized f) as Hf.
  destruct (maxFindings <? _).
  - rewrite bool_decide_eq_false_2.
    + apply no_opener_nl; [by apply contains_str_take|]. by apply (no_opener_nl "").
    + intros [_ [=]]%sapp_empty.
  - case_bool_decide; [done|exact Hf].
Qed.

#[export] Hint Resolve no_opener_nl no_opener_plain no_opener_prefixed no_opener_quoted
  no_opener_sanitized no_opener_findings : ben.

(** ** Bodies as marker bodies *)

Definition review_pre (m : ReviewMarker) (findings : string) : string :=
  "**Automated review** — advisory only. This is a `COMMENT` review by BEN's review controller; it is not an approval, and a human code owner's review is still required."
  +:+ nl +:+ "" +:+ nl
  +:+ ("- verdict: `" +:+ verdict_string (rm_Verdict m) +:+ "`") +:+ nl
  +:+ ("- head: `" +:+ rm_Head m +:+ "`") +:+ nl
  +:+ (if bool_decide (rm_ReviewerProfile m = "") then ""
       else ("- reviewer profile: `" +:+ rm_ReviewerProfile m +:+ "`") +:+ nl +:+ "") +:+ nl
  +:+ published_findings findings +:+ nl +:+ "".

Definition route_pre (m : RouteMarker) (why : string) : string :=
  (("**Review controller** routed occurrence `" +:+ itoa (ro_Occurrence m) +:+ "` to `")
   +:+ outcome_string (ro_Outcome m) +:+ "`.") +:+ nl +:+ "" +:+ nl
  +:+ ("- head: `" +:+ ro_Head m +:+ "`") +:+ nl
  +:+ ("- reason: " +:+ trim_space (SanitizeFindings why)) +:+ nl +:+ "".

Definition intent_pre (m : RouteIntentMarker) (why : string) : string :=
  (("**Review controller** prepared terminal route `" +:+ outcome_string (ri_Outcome m)
    +:+ "` for occurrence `") +:+ itoa (ri_Occurrence m) +:+ "`.") +:+ nl +:+ "" +:+ nl
  +:+ ("- head: `" +:+ ri_Head m +:+ "`") +:+ nl
  +:+ ("- approval event: `" +:+ itoa (ri_Approval m) +:+ "`") +:+ nl
  +:+ ("- reason: " +:+ trim_space (SanitizeFindings why)) +:+ nl +:+ "".

Definition blocked_pre (m : ReviewBlockedMarker) (detail : string) : string :=
  ("**Review controller** could not start the independent review of head `" +:+ rb_Head m
   +:+ "`.") +:+ nl +:+ "" +:+ nl
  +:+ ("The execution substrate refused to admit the reviewer run (`" +:+ rb_Reason m
  +:+ "`), so no review was produced and none will be until the request or the substrate's limits change. This is not a verdict on the change: the pull request still needs a human code owner's review, and BEN's assignment and the approval label are untouched.")
  +:+ nl +:+ "" +:+ nl
  +:+ (let d := trim_space (SanitizeFindings detail) in
       (if bool_decide (d = "") then "" else ("- detail: " +:+ d) +:+ nl +:+ "")
       +:+ ("- occurrence: `" +:+ itoa (rb_Occurrence m) +:+ "`")) +:+ nl +:+ "".

Lemma ReviewBody_eq m f : ReviewBody m f = marker_body (review_pre m f) markerReview (review_pairs m).
Proof.
  unfold ReviewBody, marker_body, review_pre. rewrite review_marker_text.
  case_bool_decide; by rewrite !sapp_assoc, ?sapp_nil_l.
Qed.

Lemma RouteBody_eq m w : RouteBody m w = marker_body (route_pre m w) markerRoute (route_pairs m).
Proof.
  unfold RouteBody, marker_body, route_pre. rewrite route_marker_text.
  by rewrite !sapp_assoc, !sapp_nil_l.
Qed.

Lemma RouteIntentBody_eq m w :
  RouteIntentBody m w = marker_body (intent_pre m w) markerRouteIntent (intent_pairs m).
Proof.
  unfold RouteIntentBody, marker_body, intent_pre. rewrite intent_marker_text.
  by rewrite !sapp_assoc, !sapp_nil_l.
Qed.

Lemma ReviewBlockedBody_eq m d :
  ReviewBlockedBody m d = marker_body (blocked_pre m d) markerReviewBlocked (blocked_pairs m).
Proof.
  unfold ReviewBlockedBody, marker_body, blocked_pre. rewrite blocked_marker_text. cbv zeta.
  case_bool_decide; by rewrite !sapp_assoc, ?sapp_nil_l.
Qed.

Lemma review_pre_clean m f : wf_review_marker m → no_opener (review_pre m f).
Proof.
  intros (_ & _ & _ & ? & _ & _ & Hp). unfold review_pre.
  repeat apply no_opener_nl; auto with ben; try done.
  case_bool_decide; [done|]. destruct Hp; [done|].
  apply no_opener_nl; auto with ben; done.
Qed.

Lemma route_pre_clean m w : wf_route_marker m → no_opener (route_pre m w).
Proof.
  intros (? & _ & ? & _). unfold route_pre. repeat apply no_opener_nl; auto with ben; try done.
  apply no_opener_quoted; [|auto with ben|done]. rewrite !avoids_app.
  by rewrite (value_avoids "<" (itoa _)) by auto with ben.
Qed.

Lemma intent_pre_clean m w : wf_intent_marker m → no_opener (intent_pre m w).
Proof.
  intros (? & _ & ? & ? & _). unfold intent_pre. repeat apply no_opener_nl; auto with ben; try done.
  apply no_opener_quoted; [|auto with ben|done]. rewrite !avoids_app.
  by rewrite (value_avoids "<" (outcome_string _)) by auto with ben.
Qed.

Lemma blocked_pre_clean m d : wf_blocked_marker m → no_opener (blocked_pre m d).
Proof.
  intros (? & _ & _ & ? & ?). unfold blocked_pre. repeat apply no_opener_nl; auto with ben; try done.
  cbv zeta. case_bool_decide; [apply (no_opener_prefixed ""); auto with ben|].
  rewrite (sapp_assoc ("- detail: " +:+ _)), (sapp_assoc nl).
  apply no_opener_nl; [|apply (no_opener_prefixed "")]; auto with ben.
Qed.

(** ** Round trips *)

Section roundtrip.
Context `{GoTables}.

Lemma review_pairs_plain m :
  wf_review_marker m → Forall plain_pair (review_pairs m) ∧ NoDup (review_pairs m).*1.
Proof.
  intros (? & ? & ? & ? & ? & _ & Hp). unfold review_pairs.
  case_bool_decide as Hb; simpl; (split; [|by solve_decided]).
  - repeat constructor; simpl; auto with ben.
  - destruct Hp; [done|]. repeat constructor; simpl; auto with ben.
Qed.

Lemma route_pairs_plain m :
  wf_route_marker m → Forall plain_pair (route_pairs m) ∧ NoDup (route_pairs m).*1.
Proof.
  intros (? & ? & ? & _). split; [|by solve_decided].
  repeat constructor; simpl; auto with ben.
Qed.

Lemma intent_pairs_plain m :
  wf_intent_marker m → Forall plain_pair (intent_pairs m) ∧ NoDup (intent_pairs m).*1.
Proof.
  intros (? & ? & ? & ? & _). split; [|by solve_decided].
  repeat constructor; simpl; auto with ben.
Qed.

Lemma blocked_pairs_plain m :
  wf_blocked_marker m → Forall plain_pair (blocked_pairs m) ∧ NoDup (blocked_pairs m).*1.
Proof.
  intros (? & ? & ? & ? & ?). split; [|by solve_decided].
  repeat constructor; simpl; auto with ben.
Qed.

Lemma field_id_itoa (f : gmap string string) k n :
  f !! k = Some (itoa n) → event_id n → field_id f k = Ok n.
Proof.
  intros Hf [Hpos Hmax]. unfold field_id. rewrite Hf, parse_int_itoa by lia.
  by destruct (Z.leb_spec n 0); [lia|].
Qed.

Lemma field_sha_Some (f : gmap string string) k h :
  f !! k = Some h → isFullSHA h = true → field_sha f k = Ok h.
Proof. intros Hf Hh. unfold field_sha. by rewrite Hf; simpl; rewrite Hh. Qed.

Lemma parse_verdict_string (f : gmap string string) v :
  f !! "verdict" = Some (verdict_string v) → v ≠ VerdictUnset → parse_verdict f = Ok v.
Proof. intros Hf Hv. unfold parse_verdict. rewrite Hf. by destruct v. Qed.

Lemma parse_outcome_string (f : gmap string string) o :
  f !! "outcome" = Some (outcome_string o) → o ≠ OutcomeUnset → parse_outcome f = Ok o.
Proof. intros Hf Ho. unfold parse_outcome. rewrite Hf. by destruct o. Qed.

Lemma parse_terminal_string (f : gmap string string) o :
  f !! "outcome" = Some (outcome_string o) → o ≠ OutcomeUnset → o ≠ OutcomeRevise →
  parse_terminal_outcome f = Ok o.
Proof. intros Hf Ho Hr. unfold parse_terminal_outcome. rewrite Hf. by destruct o. Qed.

Lemma review_pairs_lookup m k v :
  (k, v) ∈ review_pairs m → NoDup (review_pairs m).*1 →
  (list_to_map (review_pairs m) : gmap string string) !! k = Some v.
Proof. intros. by apply elem_of_list_to_map_1. Qed.

Lemma review_pairs_profile m :
  (list_to_map (review_pairs m) : gmap string string) !! "profile" =
  if bool_decide (rm_ReviewerProfile m = "") then None else Some (rm_ReviewerProfile m).
Proof. unfold review_pairs. by case_bool_decide; simplify_map_eq. Qed.

Lemma ParseReviewMarker_fields body m :
  wf_review_marker m → parseMarker body markerReview = Ok (list_to_map (review_pairs m)) →
  ParseReviewMarker body = Ok m.
Proof.
  intros Hwf Hb. destruct (review_pairs_plain m Hwf) as [Hp Hn].
  unfold ParseReviewMarker. rewrite Hb.
  destruct Hwf as (? & ? & ? & ? & ? & ? & Hprof).
  pose proof (λ k v Hkv, review_pairs_lookup m k v Hkv Hn) as Hl.
  rewrite (field_id_itoa _ "occurrence" (rm_Occurrence m)) by (done || apply Hl; set_solver).
  rewrite (field_id_itoa _ "claim" (rm_Claim m)) by (done || apply Hl; set_solver).
  rewrite (Hl "approval" (itoa (rm_Approval m))) by set_solver.
  rewrite (field_id_itoa _ "approval" (rm_Approval m)) by (done || apply Hl; set_solver).
  rewrite (field_sha_Some _ "head" (rm_Head m)) by (done || apply Hl; set_solver).
  rewrite (field_sha_Some _ "base" (rm_Base m)) by (done || apply Hl; set_solver).
  rewrite review_pairs_profile.
  rewrite (parse_verdict_string _ (rm_Verdict m)) by (done || apply Hl; set_solver).
  case_bool_decide as Hb'; [by destruct m; simpl in *; subst|].
  destruct Hprof as [?|Hprof]; [done|]. rewrite Hprof. by destruct m.
Qed.

Lemma ParseRouteMarker_fields body m :
  wf_route_marker m → parseMarker body markerRoute = Ok (list_to_map (route_pairs m)) →
  ParseRouteMarker body = Ok m.
Proof.
  intros Hwf Hb. unfold ParseRouteMarker. rewrite Hb.
  destruct Hwf as (? & ? & ? & ?). unfold route_pairs.
  rewrite (field_id_itoa _ "occurrence" (ro_Occurrence m)) by (done || by simplify_map_eq).
  rewrite (field_id_itoa _ "claim" (ro_Claim m)) by (done || by simplify_map_eq).
  rewrite (field_sha_Some _ "head" (ro_Head m)) by (done || by simplify_map_eq).
  rewrite (parse_outcome_string _ (ro_Outcome m)) by (done || by simplify_map_eq).
  by destruct m.
Qed.

Lemma ParseRouteIntentMarker_fields body m :
  wf_intent_marker m → parseMarker body markerRouteIntent = Ok (list_to_map (intent_pairs m)) →
  ParseRouteIntentMarker body = Ok m.
Proof.
  intros Hwf Hb. unfold ParseRouteIntentMarker. rewrite Hb.
  destruct Hwf as (? & ? & ? & ? & ? & ?). unfold intent_pairs.
  rewrite (field_id_itoa _ "occurrence" (ri_Occurrence m)) by (done || by simplify_map_eq).
  rewrite (field_id_itoa _ "claim" (ri_Claim m)) by (done || by simplify_map_eq).
  rewrite (field_id_itoa _ "approval" (ri_Approval m)) by (done || by simplify_map_eq).
  rewrite (field_sha_Some _ "head" (ri_Head m)) by (done || by simplify_map_eq).
  rewrite (parse_terminal_string _ (ri_Outcome m)) by (done || by simplify_map_eq).
  by destruct m.
Qed.

Lemma ParseReviewBlockedMarker_fields body m :
  wf_blocked_marker m → parseMarker body markerReviewBlocked = Ok (list_to_map (blocked_pairs m)) →
  ParseReviewBlockedMarker body = Ok m.
Proof.
  intros Hwf Hb. unfold ParseReviewBlockedMarker. rewrite Hb.
  destruct Hwf as (? & ? & ? & ? & Hr). unfold blocked_pairs.
  rewrite (field_id_itoa _ "occurrence" (rb_Occurrence m)) by (done || by simplify_map_eq).
  rewrite (field_id_itoa _ "claim" (rb_Claim m)) by (done || by simplify_map_eq).
  rewrite (field_id_itoa _ "approval" (rb_Approval m)) by (done || by simplify_map_eq).
  rewrite (field_sha_Some _ "head" (rb_Head m)) by (done || by simplify_map_eq).
  simplify_map_eq. rewrite Hr. by destruct m.
Qed.

(** The bodies the controller publishes read back. *)
Lemma ReviewBody_reads m f : wf_review_marker m → ParseReviewMarker (ReviewBody m f) = Ok m.
Proof.
  intros Hwf. apply ParseReviewMarker_fields; [done|]. destruct (review_pairs_plain m Hwf).
  rewrite ReviewBody_eq. apply parseMarker_body; try done. by apply review_pre_clean.
Qed.

Lemma RouteBody_reads m w : wf_route_marker m → ParseRouteMarker (RouteBody m w) = Ok m.
Proof.
  intros Hwf. apply ParseRouteMarker_fields; [done|]. destruct (route_pairs_plain m Hwf).
  rewrite RouteBody_eq. apply parseMarker_body; try done. by apply route_pre_clean.
Qed.

Lemma RouteIntentBody_reads m w :
  wf_intent_marker m → ParseRouteIntentMarker (RouteIntentBody m w) = Ok m.
Proof.
  intros Hwf. apply ParseRouteIntentMarker_fields; [done|]. destruct (intent_pairs_plain m Hwf).
  rewrite RouteIntentBody_eq. apply parseMarker_body; try done. by apply intent_pre_clean.
Qed.

Lemma ReviewBlockedBody_reads m d :
  wf_blocked_marker m → ParseReviewBlockedMarker (ReviewBlockedBody m d) = Ok m.
Proof.
  intros Hwf. apply ParseReviewBlockedMarker_fields; [done|]. destruct (blocked_pairs_plain m Hwf).
  rewrite ReviewBlockedBody_eq. apply parseMarker_body; try done. by apply blocked_pre_clean.
Qed.

(** So do the markers alone, which the driver reads before it posts. *)
Lemma route_string_reads m : wf_route_marker m → ParseRouteMarker (route_marker_string m) = Ok m.
Proof.
  intros Hwf. apply ParseRouteMarker_fields; [done|]. destruct (route_pairs_plain m Hwf).
  rewrite route_marker_text. by apply parseMarker_text.
Qed.

Lemma intent_string_reads m :
  wf_intent_marker m → ParseRouteIntentMarker (intent_marker_string m) = Ok m.
Proof.
  intros Hwf. apply ParseRouteIntentMarker_fields; [done|]. destruct (intent_pairs_plain m Hwf).
  rewrite intent_marker_text. by apply parseMarker_text.
Qed.

Lemma blocked_string_reads m :
  wf_blocked_marker m → ParseReviewBlockedMarker (blocked_marker_string m) = Ok m.
Proof.
  intros Hwf. apply ParseReviewBlockedMarker_fields; [done|]. destruct (blocked_pairs_plain m Hwf).
  rewrite blocked_marker_text. by apply parseMarker_text.
Qed.

(** C34: for every well-formed review marker and every findings text the reviewer
    model can write, [ParseReviewMarker] reads exactly that marker back from the
    body [ReviewBody] publishes: prose cannot add, replace or hide the identity. *)
Theorem review_body_roundtrip (m : ReviewMarker) (findings : string) :
  wf_review_marker m → ParseReviewMarker (ReviewBody m findings) = Ok m.
Proof. apply ReviewBody_reads. Qed.

(** The three comment artifacts survive their prose: whatever reason or
    detail text is recorded with it, [ParseRouteMarker], [ParseRouteIntentMarker]
    and [ParseReviewBlockedMarker] read the marker back from the comment body. *)
Theorem comment_bodies_roundtrip (ro : RouteMarker) (ri : RouteIntentMarker)
    (rb : ReviewBlockedMarker) (why : string) :
  wf_route_marker ro → wf_intent_marker ri → wf_blocked_marker rb →
  ParseRouteMarker (RouteBody ro why) = Ok ro
  ∧ ParseRouteIntentMarker (RouteIntentBody ri why) = Ok ri
  ∧ ParseReviewBlockedMarker (ReviewBlockedBody rb why) = Ok rb.
Proof.
  intros. split_and!; [by apply RouteBody_reads|by apply RouteIntentBody_reads|].
  by apply ReviewBlockedBody_reads.
Qed.
End roundtrip.

(** ** One body, one kind *)

Inductive artifact :=
  | AReview (m : ReviewMarker) (findings : string)
  | ARoute (m : RouteMarker) (why : string)
  | AIntent (m : RouteIntentMarker) (why : string)
  | ABlocked (m : ReviewBlockedMarker) (detail : string).

Definition artifact_body (a : artifact) : string :=
  match a with
  | AReview m f => ReviewBody m f
  | ARoute m w => RouteBody m w
  | AIntent m w => RouteIntentBody m w
  | ABlocked m d => ReviewBlockedBody m d
  end.

Definition artifact_kind (a : artifact) : string :=
  match a with
  | AReview _ _ => markerReview
  | ARoute _ _ => markerRoute
  | AIntent _ _ => markerRouteIntent
  | ABlocked _ _ => markerReviewBlocked
  end.

Definition wf_artifact (a : artifact) : Prop :=
  match a with
  | AReview m _ => wf_review_marker m
  | ARoute m _ => wf_route_marker m
  | AIntent m _ => wf_intent_marker m
  | ABlocked m _ => wf_blocked_marker m
  end.

Definition marker_kinds : list string :=
  [markerReview; markerRoute; markerRouteIntent; markerReviewBlocked; markerMilestone].

Lemma artifact_marker_body a :
  wf_artifact a →
  ∃ pre kvs, artifact_body a = marker_body pre (artifact_kind a) kvs ∧
    no_opener pre ∧ Forall plain_pair kvs.
Proof.
  destruct a as [m f|m w|m w|m d]; simpl; intros Hwf; eexists _, _.
  - split; [apply ReviewBody_eq|]. split; [by apply review_pre_clean|by apply review_pairs_plain].
  - split; [apply RouteBody_eq|]. split; [by apply route_pre_clean|by apply route_pairs_plain].
  - split; [apply RouteIntentBody_eq|]. split; [by apply intent_pre_clean|by apply intent_pairs_plain].
  - split; [apply ReviewBlockedBody_eq|].
    split; [by apply blocked_pre_clean|by apply blocked_pairs_plain].
Qed.

Lemma marker_kinds_value k : k ∈ marker_kinds → is_value k = true.
Proof.
  intros Hk. repeat (apply elem_of_cons in Hk as [->|Hk]; [done|]). by apply elem_of_nil in Hk.
Qed.

(** An artifact of one kind is never read as another: a review, route, intent
    or blocked-review body, whatever prose it carries, holds no marker of any of
    the other four kinds, a published milestone included. *)
Theorem artifact_single_kind `{GoTables} (a : artifact) (k : string) :
  wf_artifact a → k ∈ marker_kinds → k ≠ artifact_kind a →
  parseMarker (artifact_body a) k = Err ErrNoMarker.
Proof.
  intros Hwf Hk Hne. destruct (artifact_marker_body a Hwf) as (pre & kvs & -> & Hpre & Hkvs).
  apply parseMarker_other_kind; try done.
  - apply marker_kinds_value. by destruct a; repeat constructor.
  - by apply marker_kinds_value.
Qed.

(** ** What parses is well formed *)

Section sound.
Context `{GoTables}.

Lemma parse_int_bound s v : parse_int s = Some v → min_int64 ≤ v ≤ max_int64.
Proof.
  unfold parse_int. destruct (match s with "" => _ | String _ _ => _ end) as [neg ds].
  destruct ds; [done|]. destruct (dec_value 0 _); [|done].
  destruct (in_range _ _ _) eqn:Hr; [|done]. intros [= <-]. unfold in_range in Hr. lia.
Qed.

Lemma field_id_sound f k v : field_id f k = Ok v → event_id v.
Proof.
  unfold field_id, event_id. destruct (f !! k) as [raw|]; [|done].
  destruct (parse_int raw) as [n|] eqn:Hn; [|done].
  destruct (Z.leb_spec n 0); [done|]. intros [= ->]. apply parse_int_bound in Hn. lia.
Qed.

Lemma field_sha_sound f k h : field_sha f k = Ok h → isFullSHA h = true.
Proof.
  unfold field_sha. destruct (isFullSHA _) eqn:Hh; [|done]. by intros [= <-].
Qed.

Lemma parse_verdict_sound f v : parse_verdict f = Ok v → v ≠ VerdictUnset.
Proof. unfold parse_verdict. repeat case_bool_decide; by intros [= <-]. Qed.

Lemma parse_outcome_sound f o : parse_outcome f = Ok o → o ≠ OutcomeUnset.
Proof. unfold parse_outcome. repeat case_bool_decide; by intros [= <-]. Qed.

Lemma parse_terminal_sound f o :
  parse_terminal_outcome f = Ok o → o ≠ OutcomeUnset ∧ o ≠ OutcomeRevise.
Proof. unfold parse_terminal_outcome. repeat case_bool_decide; by intros [= <-]. Qed.

Lemma ParseReviewMarker_sound body m :
  ParseReviewMarker body = Ok m →
  wf_review_marker m ∨
  (rm_Approval m = 0 ∧ wf_review_marker (MkReviewMarker (rm_Occurrence m) (rm_Claim m)
     (rm_Claim m) (rm_Head m) (rm_Base m) (rm_Verdict m) (rm_ReviewerProfile m))).
Proof.
  unfold ParseReviewMarker. intros Hp.
  destruct (parseMarker body markerReview) as [f|]; [|done].
  destruct (field_id f "occurrence") eqn:H1; [|done].
  destruct (field_id f "claim") eqn:H2; [|done].
  destruct (match f !! "approval" with Some _ => _ | None => _ end) eqn:H3; [|done].
  destruct (field_sha f "head") eqn:H4; [|done].
  destruct (field_sha f "base") eqn:H5; [|done].
  destruct (match f !! "profile" with Some _ => _ | None => _ end) as [pr|] eqn:H6; [|done].
  destruct (parse_verdict f) eqn:H7; [|done]. injection Hp as <-.
  apply field_id_sound in H1, H2. apply field_sha_sound in H4, H5.
  apply parse_verdict_sound in H7.
  assert (pr = "" ∨ ValidReviewerProfile pr = true) as Hpr.
  { destruct (f !! "profile") as [p|]; [|injection H6 as <-; by left].
    destruct (ValidReviewerProfile p) eqn:Hv; [|done]. injection H6 as <-. by right. }
  unfold wf_review_marker; simpl. destruct (f !! "approval").
  - apply field_id_sound in H3. left. by split_and!.
  - injection H3 as <-. right. by split_and!.
Qed.

Lemma ParseRouteMarker_sound body m : ParseRouteMarker body = Ok m → wf_route_marker m.
Proof.
  unfold ParseRouteMarker, wf_route_marker. intros Hp.
  destruct (parseMarker body markerRoute) as [f|]; [|done].
  destruct (field_id f "occurrence") eqn:H1; [|done].
  destruct (field_id f "claim") eqn:H2; [|done].
  destruct (field_sha f "head") eqn:H4; [|done].
  destruct (parse_outcome f) eqn:H5; [|done]. injection Hp as <-. simpl.
  split_and!; eauto using field_id_sound, field_sha_sound, parse_outcome_sound.
Qed.

Lemma ParseRouteIntentMarker_sound body m :
  ParseRouteIntentMarker body = Ok m → wf_intent_marker m.
Proof.
  unfold ParseRouteIntentMarker, wf_intent_marker. intros Hp.
  destruct (parseMarker body markerRouteIntent) as [f|]; [|done].
  destruct (field_id f "occurrence") eqn:H1; [|done].
  destruct (field_id f "claim") eqn:H2; [|done].
  destruct (field_id f "approval") eqn:H3; [|done].
  destruct (field_sha f "head") eqn:H4; [|done].
  destruct (parse_terminal_outcome f) eqn:H5; [|done]. injection Hp as <-. simpl.
  apply parse_terminal_sound in H5 as [].
  split_and!; eauto using field_id_sound, field_sha_sound.
Qed.
End sound.
