(* ===== verification/ReviewEpoch.v ===== *)
(** * ReviewEpoch: replaying an issue's change log

    Models [internal/review/epoch.go]: the canonical order of the log, the claim
    epoch, the approval epoch that anchors a workspace cycle, and what changed
    after it. *)

From S2P Require Import Prelude GoStd GoStdFacts Review.

(** ** Definitions *)

(** The order of [SortEvents]: creation time, then event id. *)
Definition event_lt (a b : Event) : bool :=
  if negb (ev_CreatedAt a =? ev_CreatedAt b)
  then time_before (ev_CreatedAt a) (ev_CreatedAt b)
  else ev_ID a <? ev_ID b.

Definition SortEvents (events : list Event) : list Event := stable_sort event_lt events.

(** The loop the three [...AtOccurrence] readers share: replay the log with
    [step], remember the state right after the event whose id is [occurrence],
    and refuse a log that names it twice ([None], as when it is absent). *)
Fixpoint replay_at {S : Type} (step : S → Event → S) (occurrence : Z) (events : list Event)
    (st : S) (source : option S) : option S :=
  match events with
  | [] => source
  | ev :: rest =>
      let st := step st ev in
      if ev_ID ev =? occurrence then
        match source with
        | Some _ => None
        | None => replay_at step occurrence rest st (Some st)
        end
      else replay_at step occurrence rest st source
  end.

Definition is_type (ev : Event) (ty : string) : bool := bool_decide (ev_Type ev = ty).

Section epoch.
Context {T : GoTables}.

(** The effect of one event on the principal's standing assignment. *)
Definition claim_step (principal : string) (epoch : Z) (ev : Event) : Z :=
  if negb (eqFold (ev_Assignee ev) principal) then epoch
  else if is_type ev EventAssigned then (if epoch =? 0 then ev_ID ev else epoch)
  else if is_type ev EventUnassigned then 0
  else epoch.

Definition ClaimEpoch (events : list Event) (principal : string) : Z :=
  foldl (claim_step principal) 0 events.

Definition claimEpochAtOccurrence (events : list Event) (principal : string)
    (occurrence : Z) : Z * bool :=
  match replay_at (claim_step principal) occurrence events 0 None with
  | Some source => (source, 0 <? source)
  | None => (0, false)
  end.

Definition publishedOccurrenceOnLog (events : list Event) (occurrence : Z)
    (tracker : string) : bool :=
  match find (λ ev, ev_ID ev =? occurrence) events with
  | None => false
  | Some ev =>
      is_type ev EventUnlabeled && eqFold (ev_Actor ev) tracker
      && (eqFold (ev_Label ev) "ben:claimed" || eqFold (ev_Label ev) "ben:running")
  end.

Fixpoint unassigned_loop (principal : string) (claim : Z) (events : list Event)
    (afterClaim : bool) : bool :=
  match events with
  | [] => false
  | ev :: rest =>
      if negb afterClaim then
        unassigned_loop principal claim rest
          ((ev_ID ev =? claim) && is_type ev EventAssigned && eqFold (ev_Assignee ev) principal)
      else if is_type ev EventUnassigned && eqFold (ev_Assignee ev) principal then true
      else unassigned_loop principal claim rest true
  end.

Definition unassignedAfterClaim (events : list Event) (principal : string) (claim : Z) : bool :=
  unassigned_loop principal claim events false.

(** The index of a label in the required set; Go's [-1] is [None]. *)
Fixpoint requiredLabel (required : list string) (label : string) : option nat :=
  match required with
  | [] => None
  | want :: rest =>
      if eqFold want label then Some 0%nat else S <$> requiredLabel rest label
  end.

(** The anchor of a complete set: the greatest application, all standing. *)
Fixpoint complete_loop (epochs : list Z) (anchor : Z) : Z * bool :=
  match epochs with
  | [] => (anchor, true)
  | epoch :: rest =>
      if epoch <=? 0 then (0, false)
      else complete_loop rest (if anchor <? epoch then epoch else anchor)
  end.

Definition completeApprovalEpoch (epochs : list Z) : Z * bool :=
  match epochs with [] => (0, false) | _ => complete_loop epochs 0 end.

(** One event's effect on [epochs[i]], the standing applications. *)
Definition approval_step (required : list string) (epochs : list Z) (ev : Event) : list Z :=
  match requiredLabel required (ev_Label ev) with
  | None => epochs
  | Some i =>
      if is_type ev EventLabeled then <[i := ev_ID ev]> epochs
      else if is_type ev EventUnlabeled then <[i := 0]> epochs
      else epochs
  end.

(** [epochs] before any event. *)
Definition no_epochs (required : list string) : list Z := replicate (length required) 0.

Definition approvalEpochAtOccurrence (events : list Event) (required : list string)
    (occurrence : Z) : Z * bool :=
  match replay_at (approval_step required) occurrence events (no_epochs required) None with
  | Some epochs => completeApprovalEpoch epochs
  | None => (0, false)
  end.

(** One event's effect on [labelEpochAtOccurrence]'s [(epoch, standing)]. *)
Definition label_step (label : string) (st : Z * bool) (ev : Event) : Z * bool :=
  if negb (eqFold (ev_Label ev) label) then st
  else if is_type ev EventLabeled then (ev_ID ev, true)
  else if is_type ev EventUnlabeled then (0, false)
  else st.

Definition labelEpochAtOccurrence (events : list Event) (label : string)
    (occurrence : Z) : Z * bool :=
  match replay_at (label_step label) occurrence events (0, false) None with
  | Some (source, sourceStanding) => (source, sourceStanding && (0 <? source))
  | None => (0, false)
  end.

(** The loop of [approvalChangesAfterEpoch]: [(removed, newer)]. *)
Fixpoint changes_loop (required : list string) (epoch : Z) (events : list Event)
    (epochs : list Z) (after removed : bool) : bool * Z :=
  match events with
  | [] => (removed, 0)
  | ev :: rest =>
      let epochs := approval_step required epochs ev in
      if ev_ID ev =? epoch then changes_loop required epoch rest epochs true removed
      else if negb after || bool_decide (requiredLabel required (ev_Label ev) = None)
      then changes_loop required epoch rest epochs after removed
      else
        let removed := removed || is_type ev EventUnlabeled in
        let '(anchor, standing) := completeApprovalEpoch epochs in
        if (standing : bool) && negb (anchor =? epoch) then (removed, anchor)
        else changes_loop required epoch rest epochs after removed
  end.

(** [(removed, newer, valid)] *)
Definition approvalChangesAfterEpoch (events : list Event) (required : list string)
    (epoch : Z) : bool * Z * bool :=
  let '(source, ok) := approvalEpochAtOccurrence events required epoch in
  if negb ok || negb (source =? epoch) then (false, 0, false)
  else (changes_loop required epoch events (no_epochs required) false false, true).

Definition cycleStartAtOccurrence (cfg : Config) (events : list Event) (occurrence : Z) : Z :=
  let '(anchor, ok) := approvalEpochAtOccurrence events (cfg_RequiredLabels cfg) occurrence in
  if negb ok then zero_time
  else match find (λ ev, ev_ID ev =? anchor) events with
       | Some ev => ev_CreatedAt ev
       | None => zero_time
       end.
End epoch.
