(* ===== verification/ReviewEpochFacts.v ===== *)
(** * ReviewEpochFacts: what replaying the change log establishes

    The canonical order does not depend on the order events arrived in; an epoch
    read at an occurrence is the epoch of the log up to it; the claim epoch is
    the assignment that began the standing streak; the approval epoch is the
    greatest standing application of a complete required set; and an approval
    reported unchanged stands at every later point of the log. *)

From S2P Require Import Prelude GoStd GoStdFacts Review ReviewEpoch.

(** ** The canonical order *)

Lemma event_lt_asym x y : event_lt x y = true → event_lt y x = false.
Proof.
  unfold event_lt, time_before. rewrite (Z.eqb_sym (ev_CreatedAt y)).
  destruct (negb (ev_CreatedAt x =? ev_CreatedAt y)); lia.
Qed.

Lemma event_lt_neg_trans x y z :
  event_lt y x = false → event_lt z y = false → event_lt z x = false.
Proof.
  unfold event_lt, time_before.
  destruct (Z.eqb_spec (ev_CreatedAt y) (ev_CreatedAt x)),
    (Z.eqb_spec (ev_CreatedAt z) (ev_CreatedAt y)),
    (Z.eqb_spec (ev_CreatedAt z) (ev_CreatedAt x)); simpl; lia.
Qed.

Lemma event_lt_total x y :
  event_lt x y = false → event_lt y x = false →
  ev_CreatedAt x = ev_CreatedAt y ∧ ev_ID x = ev_ID y.
Proof.
  unfold event_lt, time_before.
  destruct (Z.eqb_spec (ev_CreatedAt x) (ev_CreatedAt y)),
    (Z.eqb_spec (ev_CreatedAt y) (ev_CreatedAt x)); simpl; lia.
Qed.

(** The log's entries are told apart by the order's key. *)
Definition keyed_events (events : list Event) : Prop :=
  ∀ x y, x ∈ events → y ∈ events →
    ev_CreatedAt x = ev_CreatedAt y → ev_ID x = ev_ID y → x = y.

Lemma SortEvents_perm events : SortEvents events ≡ₚ events.
Proof. apply stable_sort_perm. Qed.

Lemma SortEvents_sorted events : sorted_by event_lt (SortEvents events).
Proof. apply stable_sort_sorted, event_lt_asym. Qed.

Lemma SortEvents_order events events' :
  keyed_events events → events ≡ₚ events' → SortEvents events = SortEvents events'.
Proof.
  intros Hk Hp. apply stable_sort_canonical; [apply event_lt_asym|apply event_lt_neg_trans|done|].
  intros x y Hx Hy H1 H2. by destruct (event_lt_total x y); auto.
Qed.

(** [SortEvents] puts a change log into one order: the result is the input's
    events sorted by creation time and id, and it is the same for every order in
    which the forge returned them. *)
Theorem SortEvents_canonical (events events' : list Event) :
  keyed_events events → events ≡ₚ events' →
  SortEvents events = SortEvents events' ∧ SortEvents events ≡ₚ events
  ∧ sorted_by event_lt (SortEvents events).
Proof.
  intros Hk Hp. split_and!; [by apply SortEvents_order|apply SortEvents_perm|apply SortEvents_sorted].
Qed.

(** ** Replaying up to an occurrence *)

(** [o] is the only event named [occ]; [pre] and [post] are around it. *)
Definition unique_at (events : list Event) (occ : Z) (pre : list Event) (o : Event)
    (post : list Event) : Prop :=
  events = pre ++ o :: post ∧ ev_ID o = occ ∧ occ ∉ ev_ID <$> pre ∧ occ ∉ ev_ID <$> post.

Section replay.
Context {St : Type} (step : St → Event → St).

Lemma replay_at_absent occ events st source :
  occ ∉ ev_ID <$> events → replay_at step occ events st source = source.
Proof.
  revert st. induction events as [|ev events IH]; intros st; simpl; [done|].
  intros [Hne Hin]%not_elem_of_cons. destruct (Z.eqb_spec (ev_ID ev) occ); [congruence|].
  by apply IH.
Qed.

Lemma replay_at_again occ events st x :
  occ ∈ ev_ID <$> events → replay_at step occ events st (Some x) = None.
Proof.
  revert st. induction events as [|ev events IH]; intros st; simpl; [set_solver|].
  intros Hin. destruct (Z.eqb_spec (ev_ID ev) occ); [done|].
  apply IH. apply elem_of_cons in Hin as [?|?]; [congruence|done].
Qed.

Lemma replay_at_Some occ events st st' :
  replay_at step occ events st None = Some st' ↔
  ∃ pre o post, unique_at events occ pre o post ∧ st' = foldl step st (pre ++ [o]).
Proof.
  unfold unique_at. revert st. induction events as [|ev events IH]; intros st; simpl.
  { split; [done|]. by intros ([|??] & ? & ? & ([=] & _) & _). }
  destruct (Z.eqb_spec (ev_ID ev) occ) as [Heq|Hne].
  - split.
    + intros Hr. exists [], ev, events. destruct (decide (occ ∈ ev_ID <$> events)) as [Hin|Hin].
      * by rewrite replay_at_again in Hr.
      * rewrite replay_at_absent in Hr by done. injection Hr as <-.
        split_and!; [done..|set_solver|done|done].
    + intros ([|e pre] & o & post & (Hev & Ho & Hpre & Hpost) & ->).
      * simpl in Hev. injection Hev as -> ->. by rewrite replay_at_absent.
      * simpl in Hev. injection Hev as -> ->. set_solver.
  - rewrite IH. split.
    + intros (pre & o & post & (-> & Ho & Hpre & Hpost) & ->).
      exists (ev :: pre), o, post. split_and!; [done..|set_solver|done|done].
    + intros ([|e pre] & o & post & (Hev & Ho & Hpre & Hpost) & ->).
      * simpl in Hev. injection Hev as -> ->. done.
      * simpl in Hev. injection Hev as -> ->. exists pre, o, post.
        split_and!; [done..|set_solver|done|done].
Qed.
End replay.

Lemma unique_at_inj events occ pre o post pre' o' post' :
  unique_at events occ pre o post → unique_at events occ pre' o' post' →
  pre = pre' ∧ o = o' ∧ post = post'.
Proof.
  intros (-> & Ho & Hpre & Hpost) (He & Ho' & Hpre' & Hpost').
  revert pre' He Hpre'. induction pre as [|x pre IH]; intros [|y pre'] He Hpre'; simpl in He.
  - by injection He as -> ->.
  - injection He as -> ->. exfalso. apply Hpre'. rewrite fmap_cons, Ho. set_solver.
  - injection He as -> <-. exfalso. apply Hpre. rewrite fmap_cons, Ho'. set_solver.
  - injection He as -> He. destruct (IH ltac:(set_solver) pre' He) as (-> & -> & ->); set_solver.
Qed.

(** ** The claim epoch *)

Section claim.
Context {T : GoTables}.
Implicit Types (p : string) (l : list Event).

Definition assigns p (ev : Event) : bool :=
  is_type ev EventAssigned && eqFold (ev_Assignee ev) p.
Definition unassigns p (ev : Event) : bool :=
  is_type ev EventUnassigned && eqFold (ev_Assignee ev) p.

(** Every assignment of [p] in the log was taken back later in it. *)
Definition released p l : Prop :=
  ∀ l1 a l2, l = l1 ++ a :: l2 → assigns p a = true → ∃ u, u ∈ l2 ∧ unassigns p u = true.

(** [a] began [p]'s standing assignment. *)
Definition streak p l (a : Event) : Prop :=
  ∃ l1 l2, l = l1 ++ a :: l2 ∧ assigns p a = true ∧ released p l1
    ∧ ∀ u, u ∈ l2 → unassigns p u = false.

Lemma claim_step_cases p e ev :
  claim_step p e ev =
  if assigns p ev then (if e =? 0 then ev_ID ev else e)
  else if unassigns p ev then 0 else e.
Proof.
  unfold claim_step, assigns, unassigns, is_type.
  destruct (eqFold (ev_Assignee ev) p); simpl; rewrite ?andb_false_r, ?andb_true_r; [|done].
  done.
Qed.

Lemma ClaimEpoch_snoc p l ev : ClaimEpoch (l ++ [ev]) p = claim_step p (ClaimEpoch l p) ev.
Proof. unfold ClaimEpoch. by rewrite foldl_snoc. Qed.

Lemma released_snoc_un p l ev : unassigns p ev = true → released p (l ++ [ev]).
Proof.
  intros Hu l1 a l2 Hl Ha. destruct l2 as [|x l2 _] using rev_ind.
  - apply app_inj_tail in Hl as [-> ->]. unfold assigns, unassigns, is_type in *.
    apply andb_true_iff in Ha as [Ha _], Hu as [Hu _].
    apply bool_decide_eq_true in Ha, Hu. rewrite Ha in Hu. discriminate.
  - rewrite app_comm_cons, app_assoc in Hl. apply app_inj_tail in Hl as [-> ->].
    exists x. set_solver.
Qed.

Lemma released_snoc_other p l ev :
  assigns p ev = false → released p l → released p (l ++ [ev]).
Proof.
  intros Hn Hr l1 a l2 Hl Ha. destruct l2 as [|x l2 _] using rev_ind.
  - apply app_inj_tail in Hl as [-> ->]. congruence.
  - rewrite app_comm_cons, app_assoc in Hl. apply app_inj_tail in Hl as [-> ->].
    destruct (Hr l1 a l2) as (u & Hu & ?); [done..|]. exists u. set_solver.
Qed.

Lemma streak_snoc p l ev a :
  unassigns p ev = false → streak p l a → streak p (l ++ [ev]) a.
Proof.
  intros Hu (l1 & l2 & -> & Ha & Hr & Hn). exists l1, (l2 ++ [ev]).
  split_and!; [by rewrite <-app_assoc|done..|]. intros u [?|Hi]%elem_of_app; [auto|].
  apply list_elem_of_singleton in Hi as ->. done.
Qed.

Lemma ClaimEpoch_cases p l :
  Forall (λ ev, ev_ID ev ≠ 0) l →
  (ClaimEpoch l p = 0 ∧ released p l) ∨
  (ClaimEpoch l p ≠ 0 ∧ ∃ a, streak p l a ∧ ev_ID a = ClaimEpoch l p).
Proof.
  induction l as [|ev l IH] using rev_ind; intros Hid.
  { left. split; [done|]. by intros [|??] a l2. }
  rewrite Forall_app, Forall_singleton in Hid. destruct Hid as [Hid Hev]. specialize (IH Hid).
  rewrite ClaimEpoch_snoc, claim_step_cases.
  destruct (assigns p ev) eqn:Ha; [|destruct (unassigns p ev) eqn:Hu].
  - assert (unassigns p ev = false) as Hu.
    { unfold assigns, unassigns, is_type in *. apply andb_true_iff in Ha as [Ha _].
      apply bool_decide_eq_true in Ha. rewrite Ha. done. }
    right. destruct IH as [[-> Hr]|(Hne & a & Hs & Hida)].
    + simpl. split; [done|]. exists ev. split; [|done]. exists l, []. split_and!; try done.
      intros u Hin. by apply elem_of_nil in Hin.
    + destruct (Z.eqb_spec (ClaimEpoch l p) 0); [done|]. split; [done|].
      exists a. split; [by apply streak_snoc|done].
  - left. split; [done|]. by apply released_snoc_un.
  - destruct IH as [[-> Hr]|(Hne & a & Hs & Hida)].
    + left. split; [done|]. by apply released_snoc_other.
    + right. split; [done|]. exists a. split; [by apply streak_snoc|done].
Qed.
End claim.

Section claim_spec.
Context {T : GoTables}.

Lemma streak_unique p l a a' : streak p l a → streak p l a' → a = a'.
Proof.
  intros (l1 & l2 & -> & Ha & Hr & Hn) (k1 & k2 & Hl & Ha' & Hr' & Hn').
  destruct (app_eq_inv _ _ _ _ Hl) as [(k & -> & Hk)|(k & -> & Hk)].
  - destruct k as [|b k]; simpl in Hk; [by injection Hk|]. injection Hk as <- ->.
    destruct (Hr k1 a' k) as (u & Hu & Hu'); [done..|].
    rewrite Hn' in Hu'; [done|set_solver].
  - destruct k as [|b k]; simpl in Hk; [by injection Hk|]. injection Hk as <- ->.
    destruct (Hr' l1 a k) as (u & Hu & Hu'); [done..|].
    rewrite Hn in Hu'; [done|set_solver].
Qed.

Lemma streak_not_released p l a : streak p l a → ¬ released p l.
Proof.
  intros (l1 & l2 & -> & Ha & _ & Hn) Hr.
  destruct (Hr l1 a l2) as (u & Hu & Hu'); [done..|]. by rewrite Hn in Hu'.
Qed.

(** [ClaimEpoch] is the id of the assignment that began the principal's
    standing streak — after it the principal was never unassigned, and every
    earlier assignment had been taken back — and 0 exactly when no assignment
    stands. *)
Theorem ClaimEpoch_spec (events : list Event) (principal : string) (e : Z) :
  Forall (λ ev, ev_ID ev ≠ 0) events →
  ClaimEpoch events principal = e ↔
  (e = 0 ∧ released principal events) ∨ (∃ a, streak principal events a ∧ ev_ID a = e).
Proof.
  intros Hid. destruct (ClaimEpoch_cases principal events Hid) as [[H0 Hr]|(Hne & a & Hs & Ha)].
  - rewrite H0. split; [intros <-; by left|]. intros [[-> _]|(a & Hs & _)]; [done|].
    by apply streak_not_released in Hs.
  - split; [intros <-; right; by exists a|]. intros [[_ Hr]|(a' & Hs' & <-)].
    + by apply streak_not_released in Hs.
    + by rewrite (streak_unique _ _ _ _ Hs' Hs).
Qed.

(** The claim a delivery belongs to is the claim epoch of the log up to and
    including its transition, and a log that names the transition not exactly
    once, or under no claim, yields none. *)
Theorem claim_at_occurrence_spec (events : list Event) (principal : string) (occ c : Z) :
  claimEpochAtOccurrence events principal occ = (c, true) ↔
  ∃ pre o post, unique_at events occ pre o post
    ∧ c = ClaimEpoch (pre ++ [o]) principal ∧ 0 < c.
Proof.
  unfold claimEpochAtOccurrence. destruct (replay_at _ _ _ _ _) as [e|] eqn:Hr.
  - apply replay_at_Some in Hr as (pre & o & post & Hu & ->).
    change (foldl _ 0 (pre ++ [o])) with (ClaimEpoch (pre ++ [o]) principal). split.
    + intros [= <- Hpos]. exists pre, o, post. split_and!; [done..|lia].
    + intros (pre' & o' & post' & Hu' & -> & Hpos).
      destruct (unique_at_inj _ _ _ _ _ _ _ _ Hu Hu') as (-> & -> & ->).
      f_equal. lia.
  - split; [done|]. intros (pre & o & post & Hu & -> & _).
    assert (∃ s, replay_at (claim_step principal) occ events 0 None = Some s) as [s Hs].
    { eexists. apply replay_at_Some. eauto. }
    congruence.
Qed.
End claim_spec.

(** ** The approval epoch *)

Section approval.
Context {T : GoTables}.
Implicit Types (required : list string) (l : list Event) (i : nat).

(** The standing applications after a log. *)
Definition standing_epochs required l : list Z :=
  foldl (approval_step required) (no_epochs required) l.

Definition touches required i (ev : Event) : bool :=
  bool_decide (requiredLabel required (ev_Label ev) = Some i)
  && (is_type ev EventLabeled || is_type ev EventUnlabeled).

(** [e] is the standing application of required label [i] after [l]. *)
Definition applied required l i (e : Event) : Prop :=
  ∃ l1 l2, l = l1 ++ e :: l2 ∧ requiredLabel required (ev_Label e) = Some i
    ∧ is_type e EventLabeled = true ∧ ∀ x, x ∈ l2 → touches required i x = false.

Lemma requiredLabel_lt required label i :
  requiredLabel required label = Some i → (i < length required)%nat.
Proof.
  revert i. induction required as [|w required IH]; intros i; simpl; [done|].
  destruct (eqFold w label); [intros [= <-]; lia|].
  destruct (requiredLabel required label) as [j|]; simpl; [|done].
  intros [= <-]. specialize (IH j eq_refl). lia.
Qed.

Lemma approval_step_length required eps ev :
  length (approval_step required eps ev) = length eps.
Proof. unfold approval_step. repeat case_match; by rewrite ?length_insert. Qed.

Lemma standing_length required l : length (standing_epochs required l) = length required.
Proof.
  unfold standing_epochs. induction l as [|ev l IH] using rev_ind.
  - apply length_replicate.
  - by rewrite foldl_snoc, approval_step_length.
Qed.

Lemma standing_snoc required l ev :
  standing_epochs required (l ++ [ev]) = approval_step required (standing_epochs required l) ev.
Proof. unfold standing_epochs. by rewrite foldl_snoc. Qed.

Lemma approval_step_lookup required eps ev i :
  (i < length eps)%nat →
  approval_step required eps ev !! i =
  if touches required i ev
  then Some (if is_type ev EventLabeled then ev_ID ev else 0) else eps !! i.
Proof.
  intros Hi. unfold approval_step, touches.
  destruct (requiredLabel required (ev_Label ev)) as [j|]; [|by rewrite bool_decide_eq_false_2].
  destruct (decide (i = j)) as [->|Hne].
  - rewrite (bool_decide_eq_true_2 (Some j = Some j)) by done. simpl.
    destruct (is_type ev EventLabeled); [by rewrite list_lookup_insert_eq|].
    destruct (is_type ev EventUnlabeled); [by rewrite list_lookup_insert_eq|done].
  - rewrite bool_decide_eq_false_2 by congruence. simpl.
    destruct (is_type ev EventLabeled); [by rewrite list_lookup_insert_ne|].
    destruct (is_type ev EventUnlabeled); [by rewrite list_lookup_insert_ne|done].
Qed.

Lemma applied_snoc required l ev i e :
  touches required i ev = false → applied required l i e → applied required (l ++ [ev]) i e.
Proof.
  intros Ht (l1 & l2 & -> & Hr & Hty & Hn). exists l1, (l2 ++ [ev]).
  split_and!; [by rewrite <-app_assoc|done..|]. intros x [?|Hx]%elem_of_app; [auto|].
  apply list_elem_of_singleton in Hx as ->. done.
Qed.

(** Entry [i] is the id of the standing application, 0 when there is none. *)
Lemma standing_lookup required l i :
  (i < length required)%nat → Forall (λ ev, 0 < ev_ID ev) l →
  ∃ v, standing_epochs required l !! i = Some v ∧
    ((v = 0 ∧ ∀ e, ¬ applied required l i e) ∨
     (0 < v ∧ ∃ e, applied required l i e ∧ ev_ID e = v)).
Proof.
  intros Hi. induction l as [|ev l IH] using rev_ind; intros Hid.
  { exists 0. split; [by apply lookup_replicate_2|]. left. split; [done|].
    by intros e ([|??] & ? & [=] & _). }
  rewrite Forall_app, Forall_singleton in Hid. destruct Hid as [Hid Hev].
  destruct (IH Hid) as (v & Hv & Hcase). rewrite standing_snoc.
  rewrite approval_step_lookup by (by rewrite standing_length).
  destruct (touches required i ev) eqn:Ht.
  - eexists. split; [done|]. pose proof Ht as Ht'. unfold touches in Ht'. split_bools.
    destruct (is_type ev EventLabeled) eqn:Hty.
    + right. split; [done|]. exists ev. split; [|done]. exists l, []. split_and!; try done.
      intros x Hx. by apply elem_of_nil in Hx.
    + left. split; [done|]. intros e (l1 & l2 & Hl & Hr & Hty' & Hn).
      destruct l2 as [|x l2 _] using rev_ind.
      * apply app_inj_tail in Hl as [-> ->]. congruence.
      * rewrite app_comm_cons, app_assoc in Hl. apply app_inj_tail in Hl as [-> ->].
        rewrite Hn in Ht by set_solver. done.
  - exists v. split; [done|]. destruct Hcase as [[-> Hn]|(Hpos & e & He & <-)].
    + left. split; [done|]. intros e (l1 & l2 & Hl & Hr & Hty & Hn').
      destruct l2 as [|x l2 _] using rev_ind.
      * apply app_inj_tail in Hl as [-> ->]. unfold touches in Ht.
        rewrite bool_decide_eq_true_2, Hty in Ht by done. done.
      * rewrite app_comm_cons, app_assoc in Hl. apply app_inj_tail in Hl as [-> ->].
        apply (Hn e). exists l1, l2. split_and!; try done. intros y Hy. apply Hn'. set_solver.
    + right. split; [done|]. exists e. split; [by apply applied_snoc|done].
Qed.

(** [completeApprovalEpoch] is the maximum of a non-empty list of positives. *)
Lemma complete_loop_spec eps a0 a :
  0 ≤ a0 →
  complete_loop eps a0 = (a, true) ↔
  Forall (λ e, 0 < e) eps ∧ Forall (λ e, e ≤ a) (a0 :: eps) ∧ a ∈ a0 :: eps.
Proof.
  revert a0. induction eps as [|e eps IH]; intros a0 Ha0; simpl.
  - split; [intros [= <-]; split_and!; [constructor|repeat constructor; lia|set_solver]|].
    intros (_ & _ & Hin). apply list_elem_of_singleton in Hin. by subst.
  - destruct (Z.leb_spec e 0).
    { split; [done|]. intros (Hf & _). inversion Hf; lia. }
    rewrite IH by (destruct (a0 <? e); lia).
    rewrite !Forall_cons, !elem_of_cons.
    destruct (Z.ltb_spec a0 e); naive_solver lia.
Qed.

Lemma completeApprovalEpoch_spec eps a :
  completeApprovalEpoch eps = (a, true) ↔
  eps ≠ [] ∧ Forall (λ e, 0 < e) eps ∧ Forall (λ e, e ≤ a) eps ∧ a ∈ eps.
Proof.
  unfold completeApprovalEpoch. destruct eps as [|e eps]; [naive_solver|].
  rewrite complete_loop_spec by lia. split.
  - intros (Hp & Hle & Hin). apply Forall_cons in Hle as [H0 Hle].
    apply elem_of_cons in Hin as [->|Hin]; [|done].
    apply Forall_cons in Hp as [? _], Hle as [? _]. lia.
  - intros (_ & Hp & Hle & Hin). split_and!; [done| |by right]. apply Forall_cons.
    split; [|done]. rewrite Forall_forall in Hp. specialize (Hp _ Hin). lia.
Qed.
End approval.

Section approval_spec.
Context {T : GoTables}.
Implicit Types (required : list string) (l : list Event).

Lemma approval_at_Some events required occ a :
  approvalEpochAtOccurrence events required occ = (a, true) ↔
  ∃ pre o post, unique_at events occ pre o post
    ∧ completeApprovalEpoch (standing_epochs required (pre ++ [o])) = (a, true).
Proof.
  unfold approvalEpochAtOccurrence. destruct (replay_at _ _ _ _ _) as [eps|] eqn:Hr.
  - apply replay_at_Some in Hr as (pre & o & post & Hu & ->). split; [eauto 6|].
    intros (pre' & o' & post' & Hu' & Hc).
    by destruct (unique_at_inj _ _ _ _ _ _ _ _ Hu Hu') as (-> & -> & ->).
  - split; [done|]. intros (pre & o & post & Hu & _).
    assert (∃ s, replay_at (approval_step required) occ events (no_epochs required) None
                 = Some s) as [s Hs] by (eexists; apply replay_at_Some; eauto).
    congruence.
Qed.

Lemma applied_inj required l i e e' :
  applied required l i e → applied required l i e' → e = e'.
Proof.
  intros (l1 & l2 & -> & Hr & Ht & Hn) (k1 & k2 & Hl & Hr' & Ht' & Hn').
  assert (touches required i e = true) as He
    by (unfold touches; rewrite bool_decide_eq_true_2, Ht by done; done).
  assert (touches required i e' = true) as He'
    by (unfold touches; rewrite bool_decide_eq_true_2, Ht' by done; done).
  destruct (app_eq_inv _ _ _ _ Hl) as [(k & -> & Hk)|(k & -> & Hk)];
    (destruct k as [|b k]; simpl in Hk; [by injection Hk|]); injection Hk as <- ->.
  - rewrite Hn' in He; [done|set_solver].
  - rewrite Hn in He'; [done|set_solver].
Qed.

Lemma complete_standing_spec required l a :
  Forall (λ ev, 0 < ev_ID ev) l →
  completeApprovalEpoch (standing_epochs required l) = (a, true) ↔
  required ≠ []
  ∧ (∀ i, (i < length required)%nat → ∃ e, applied required l i e ∧ ev_ID e ≤ a)
  ∧ ∃ i e, applied required l i e ∧ ev_ID e = a.
Proof.
  intros Hid. rewrite completeApprovalEpoch_spec. pose proof (standing_length required l) as Hlen.
  assert (standing_epochs required l ≠ [] ↔ required ≠ []) as ->.
  { rewrite <-!length_zero_iff_nil. lia. }
  rewrite !Forall_lookup. split.
  - intros (Hne & Hpos & Hle & Hin). split_and!; [done| |].
    + intros i Hi. destruct (standing_lookup required l i Hi Hid) as (v & Hv & [[-> _]|(? & e & He & Hid')]).
      * specialize (Hpos _ _ Hv). lia.
      * exists e. split; [done|]. specialize (Hle _ _ Hv). lia.
    + apply list_elem_of_lookup in Hin as [i Hi].
      assert (i < length required)%nat as Hlt by (rewrite <-Hlen; by eapply lookup_lt_Some).
      destruct (standing_lookup required l i Hlt Hid) as (v & Hv & [[-> _]|(? & e & He & Hid')]).
      * specialize (Hpos _ _ Hv). lia.
      * rewrite Hi in Hv. injection Hv as <-. eauto.
  - intros (Hne & Hall & i0 & e0 & He0 & <-). split_and!; [done|..].
    + intros i v Hi. assert (i < length required)%nat as Hlt by (rewrite <-Hlen; by eapply lookup_lt_Some).
      destruct (Hall i Hlt) as (e & He & _).
      destruct (standing_lookup required l i Hlt Hid) as (v' & Hv' & [[-> Hn]|(? & _)]).
      * by apply Hn in He.
      * congruence.
    + intros i v Hi. assert (i < length required)%nat as Hlt by (rewrite <-Hlen; by eapply lookup_lt_Some).
      destruct (Hall i Hlt) as (e & He & Hle).
      destruct (standing_lookup required l i Hlt Hid) as (v' & Hv' & [[-> Hn]|(? & e' & He' & <-)]).
      * by apply Hn in He.
      * rewrite (applied_inj _ _ _ _ _ He' He) in Hv'. congruence.
    + assert (i0 < length required)%nat as Hlt
        by (destruct He0 as (? & ? & _ & Hr & _); by eapply requiredLabel_lt).
      destruct (standing_lookup required l i0 Hlt Hid) as (v' & Hv' & [[-> Hn]|(? & e' & He' & <-)]).
      * by apply Hn in He0.
      * rewrite (applied_inj _ _ _ _ _ He' He0) in Hv'. apply list_elem_of_lookup. eauto.
Qed.

(** The approval epoch of a delivery is the greatest event id among the
    standing applications of the required labels right after its transition,
    and it exists exactly when the log names the transition once and every
    required label stands there. *)
Theorem approval_at_occurrence_spec (events : list Event) (required : list string) (occ a : Z) :
  Forall (λ ev, 0 < ev_ID ev) events →
  approvalEpochAtOccurrence events required occ = (a, true) ↔
  ∃ pre o post, unique_at events occ pre o post ∧ required ≠ []
    ∧ (∀ i, (i < length required)%nat → ∃ e, applied required (pre ++ [o]) i e ∧ ev_ID e ≤ a)
    ∧ ∃ i e, applied required (pre ++ [o]) i e ∧ ev_ID e = a.
Proof.
  intros Hid. rewrite approval_at_Some.
  assert (∀ pre o post, unique_at events occ pre o post →
            Forall (λ ev, 0 < ev_ID ev) (pre ++ [o])) as Hsub.
  { intros pre o post (-> & _). rewrite cons_middle, app_assoc, Forall_app in Hid. apply Hid. }
  split; intros (pre & o & post & Hu & H); exists pre, o, post; (split; [done|]);
    by apply complete_standing_spec; [eapply Hsub|].
Qed.

(** *** After the epoch *)

Lemma requiredLabel_None_step required eps ev :
  requiredLabel required (ev_Label ev) = None → approval_step required eps ev = eps.
Proof. intros H. unfold approval_step. by rewrite H. Qed.

Lemma complete_total eps :
  eps ≠ [] → Forall (λ e, 0 < e) eps → ∃ a, completeApprovalEpoch eps = (a, true).
Proof.
  intros Hne Hp. unfold completeApprovalEpoch. destruct eps as [|e0 eps]; [done|].
  generalize 0 as a0. revert Hp. generalize (e0 :: eps). clear.
  induction 1 as [|e l He _ IH]; intros a0; simpl; [eauto|].
  destruct (Z.leb_spec e 0); [lia|]. apply IH.
Qed.

(** A removal, once seen, is reported. *)
Lemma changes_loop_removed required epoch l eps after :
  (changes_loop required epoch l eps after true).1 = true.
Proof.
  revert eps after. induction l as [|x l IH]; intros eps after; simpl; [done|].
  destruct (ev_ID x =? epoch); [apply IH|]. destruct (_ || _); [apply IH|].
  destruct (completeApprovalEpoch _) as [a st]. destruct (_ && _); [done|apply IH].
Qed.

(** An event that is no removal keeps a complete set complete. *)
Lemma approval_step_complete required eps ev a :
  completeApprovalEpoch eps = (a, true) → is_type ev EventUnlabeled = false → 0 < ev_ID ev →
  ∃ a', completeApprovalEpoch (approval_step required eps ev) = (a', true).
Proof.
  intros Hc Hun Hev. unfold approval_step. rewrite Hun.
  destruct (requiredLabel required (ev_Label ev)) as [i|]; [|eauto].
  destruct (is_type ev EventLabeled); [|eauto].
  apply completeApprovalEpoch_spec in Hc as (Hne & Hp & _). apply complete_total.
  - intros He. apply (f_equal length) in He. rewrite length_insert in He.
    by apply length_zero_iff_nil in He.
  - by apply Forall_insert.
Qed.

Lemma complete_anchor_pos eps a : completeApprovalEpoch eps = (a, true) → 0 < a.
Proof.
  intros (_ & Hp & _ & Ha)%completeApprovalEpoch_spec. rewrite Forall_forall in Hp. by apply Hp.
Qed.

Lemma changes_loop_after required epoch l eps removed :
  completeApprovalEpoch eps = (epoch, true) → epoch ∉ ev_ID <$> l →
  Forall (λ ev, 0 < ev_ID ev) l →
  changes_loop required epoch l eps true removed = (false, 0) →
  removed = false ∧ ∀ l1 l2, l = l1 ++ l2 →
    completeApprovalEpoch (foldl (approval_step required) eps l1) = (epoch, true).
Proof.
  revert eps removed. induction l as [|ev l IH]; intros eps removed Hc Hin Hid; simpl.
  { intros [= ->]. split; [done|]. by intros [|??] l2. }
  rewrite fmap_cons in Hin. apply not_elem_of_cons in Hin as [Hne Hin].
  apply Forall_cons in Hid as [Hev Hid].
  destruct (Z.eqb_spec (ev_ID ev) epoch); [congruence|]. simpl.
  assert (∀ r, completeApprovalEpoch (approval_step required eps ev) = (epoch, true) →
    changes_loop required epoch l (approval_step required eps ev) true r = (false, 0) →
    r = false ∧ ∀ l1 l2, ev :: l = l1 ++ l2 →
      completeApprovalEpoch (foldl (approval_step required) eps l1) = (epoch, true)) as Hgo.
  { intros r Hstep Hl. destruct (IH _ r Hstep Hin Hid Hl) as [-> Hall]. split; [done|].
    intros [|x l1] l2 Hsplit; [done|]. injection Hsplit as <- Hsplit. by apply (Hall l1 l2). }
  case_bool_decide as Hreq.
  { apply Hgo. by rewrite requiredLabel_None_step. }
  destruct (completeApprovalEpoch (approval_step required eps ev)) as [a st] eqn:Hc'.
  destruct (st && negb (a =? epoch)) eqn:Hnew.
  { intros [= _ ->]. apply andb_true_iff in Hnew as [-> _].
    apply complete_anchor_pos in Hc'. lia. }
  intros Hl. destruct (is_type ev EventUnlabeled) eqn:Hun.
  { pose proof (changes_loop_removed required epoch l (approval_step required eps ev) true) as Hr.
    rewrite orb_true_r in Hl. by rewrite Hl in Hr. }
  destruct (approval_step_complete required eps ev epoch Hc Hun Hev) as [a' Ha'].
  rewrite orb_false_r in Hl. apply Hgo; [|done].
  rewrite Ha' in Hc'. injection Hc' as <- <-. simpl in Hnew. f_equal. lia.
Qed.

Lemma changes_loop_before required epoch pre l eps :
  epoch ∉ ev_ID <$> pre →
  changes_loop required epoch (pre ++ l) eps false false =
  changes_loop required epoch l (foldl (approval_step required) eps pre) false false.
Proof.
  revert eps. induction pre as [|x pre IH]; intros eps; simpl; [done|].
  intros [Hne Hin]%not_elem_of_cons. destruct (Z.eqb_spec (ev_ID x) epoch); [congruence|].
  simpl. by apply IH.
Qed.

(** An approval epoch reported neither removed nor replaced is the anchor of the
    complete set at every point of the log from its own event on. *)
Lemma approval_unchanged_stands events required epoch :
  Forall (λ ev, 0 < ev_ID ev) events →
  approvalChangesAfterEpoch events required epoch = (false, 0, true) →
  ∃ pre o post, unique_at events epoch pre o post ∧
    ∀ l1 l2, post = l1 ++ l2 →
      completeApprovalEpoch (standing_epochs required (pre ++ o :: l1)) = (epoch, true).
Proof.
  intros Hid. unfold approvalChangesAfterEpoch.
  destruct (approvalEpochAtOccurrence events required epoch) as [src ok] eqn:Ha.
  destruct (negb ok || negb (src =? epoch)) eqn:Hok; [done|]. split_bools. subst ok.
  apply Z.eqb_eq in H0 as ->. apply approval_at_Some in Ha as (pre & o & post & Hu & Hc).
  pose proof Hu as (-> & Ho & Hpre & Hpost). intros [= Hl].
  rewrite changes_loop_before in Hl by done. simpl in Hl. rewrite Ho, Z.eqb_refl in Hl.
  apply changes_loop_after in Hl as [_ Hall]; [| |done|].
  - exists pre, o, post. split; [done|]. intros l1 l2 Hsplit.
    unfold standing_epochs. rewrite foldl_app. simpl. by apply (Hall l1 l2).
  - unfold standing_epochs in Hc. by rewrite foldl_snoc in Hc.
  - apply Forall_app in Hid as [_ Hid]. by apply Forall_cons in Hid as [_ Hid].
Qed.

Lemma approval_unchanged_end events required epoch :
  Forall (λ ev, 0 < ev_ID ev) events →
  approvalChangesAfterEpoch events required epoch = (false, 0, true) →
  completeApprovalEpoch (standing_epochs required events) = (epoch, true).
Proof.
  intros Hid H. apply approval_unchanged_stands in H as (pre & o & post & (-> & _) & Hall); [|done].
  apply (Hall post []). by rewrite app_nil_r.
Qed.

(** Taking a required label off leaves the set incomplete. *)
Lemma approval_step_unlabeled required eps ev i :
  length eps = length required → requiredLabel required (ev_Label ev) = Some i →
  is_type ev EventUnlabeled = true →
  (completeApprovalEpoch (approval_step required eps ev)).2 = false.
Proof.
  intros Hlen Hi Hun. destruct (completeApprovalEpoch _) as [a []] eqn:Hc; [|done].
  apply completeApprovalEpoch_spec in Hc as (_ & Hp & _).
  pose proof (requiredLabel_lt _ _ _ Hi) as Hlt. rewrite Forall_lookup in Hp.
  specialize (Hp i 0). rewrite approval_step_lookup in Hp by lia. unfold touches in Hp.
  rewrite bool_decide_eq_true_2, Hun, orb_true_r in Hp by done. simpl in Hp.
  unfold is_type in *. apply bool_decide_eq_true in Hun. rewrite Hun in Hp.
  specialize (Hp eq_refl). lia.
Qed.

Lemma changes_loop_stands required epoch l eps :
  length eps = length required → epoch ∉ ev_ID <$> l →
  (∀ l1 l2, l = l1 ++ l2 →
    completeApprovalEpoch (foldl (approval_step required) eps l1) = (epoch, true)) →
  changes_loop required epoch l eps true false = (false, 0).
Proof.
  revert eps. induction l as [|ev l IH]; intros eps Hlen Hin Hall; simpl; [done|].
  rewrite fmap_cons in Hin. apply not_elem_of_cons in Hin as [Hne Hin].
  destruct (Z.eqb_spec (ev_ID ev) epoch); [congruence|]. simpl.
  assert (changes_loop required epoch l (approval_step required eps ev) true false = (false, 0))
    as Hgo.
  { apply IH; [by rewrite approval_step_length|done|]. intros l1 l2 ->. by apply (Hall (ev :: l1) l2). }
  case_bool_decide as Hreq; [done|].
  pose proof (Hall [ev] l eq_refl) as Hc. simpl in Hc. rewrite Hc, Z.eqb_refl. simpl.
  destruct (is_type ev EventUnlabeled) eqn:Hun; [|done].
  destruct (requiredLabel required (ev_Label ev)) as [i|] eqn:Hi; [|done].
  pose proof (approval_step_unlabeled required eps ev i Hlen Hi Hun) as Hf. by rewrite Hc in Hf.
Qed.

(** C35: [approvalChangesAfterEpoch] reports neither a removal nor a replacement
    exactly when the approval never lapsed: the epoch's event is on the log once,
    and from it on, at every point of the log to the end, every required label
    stands and the newest application among them is still that epoch. *)
Theorem approval_unchanged_iff (events : list Event) (required : list string) (epoch : Z) :
  Forall (λ ev, 0 < ev_ID ev) events →
  approvalChangesAfterEpoch events required epoch = (false, 0, true) ↔
  ∃ pre o post, unique_at events epoch pre o post ∧
    ∀ l1 l2, post = l1 ++ l2 →
      completeApprovalEpoch (standing_epochs required (pre ++ o :: l1)) = (epoch, true).
Proof.
  intros Hid. split; [by apply approval_unchanged_stands|].
  intros (pre & o & post & Hu & Hall). unfold approvalChangesAfterEpoch.
  assert (approvalEpochAtOccurrence events required epoch = (epoch, true)) as ->.
  { apply approval_at_Some. exists pre, o, post. split; [done|]. by apply (Hall [] post). }
  simpl. rewrite Z.eqb_refl. simpl. f_equal. pose proof Hu as (-> & Ho & Hpre & Hpost).
  rewrite changes_loop_before by done. simpl. rewrite Ho, Z.eqb_refl.
  apply changes_loop_stands; [|done|].
  - rewrite approval_step_length. apply standing_length.
  - intros l1 l2 Hs. specialize (Hall l1 l2 Hs). unfold standing_epochs in Hall.
    by rewrite foldl_app in Hall.
Qed.
End approval_spec.
