(* ===== verification/ReviewMilestone.v ===== *)
(** * ReviewMilestone: which delivery the controller may act on

    Models [internal/review/milestone.go]: reading published milestones off the
    issue, resolving the pull request they link, and the validation that stands
    before every routing decision. *)

From S2P Require Import Prelude GoStd GoStdFacts Review ReviewMarker.
From Stdlib Require Import Ascii.

(** ** Definitions *)

Record Trigger := MkTrigger {
  tr_Occurrence : Z;
  tr_PRURL : string;
  tr_At : Z;
  tr_CommentID : Z;
}.

Definition prLinkField : string := "- pull request: ".

Definition publishedPRLink (body : string) : option string :=
  find_map (λ line,
    match cut_prefix prLinkField (trim_space line) with
    | None => None
    | Some rest =>
        let rest := trim_space rest in
        if bool_decide (rest = "") then None else Some rest
    end) (split body nl).

(** [^[A-Za-z0-9._-]+$] *)
Definition name_byte (z : Z) : bool :=
  is_lower z || is_upper z || is_digit z || (z =? 46) || (z =? 95) || (z =? 45).
Definition prPathName (s : string) : bool := negb (bool_decide (s = "")) && all_bytes name_byte s.

Definition ascii_lower_string (s : string) : string :=
  String.string_of_list_ascii
    ((λ c, byte_of (ascii_lower (byte_val c))) <$> String.list_ascii_of_string s).

Section milestone.
Context {T : GoTables}.

(** One trigger per occurrence, before sorting. *)
Fixpoint milestones_loop (cfg : Config) (comments : list Comment) (seen : gset Z)
    : list Trigger :=
  match comments with
  | [] => []
  | c :: rest =>
      if negb (eqFold (com_Author c) (cfg_TrackerAuthor cfg))
      then milestones_loop cfg rest seen
      else match PublishedOccurrence (com_Body c) with
      | Err _ => milestones_loop cfg rest seen
      | Ok occ =>
          match publishedPRLink (com_Body c) with
          | None => milestones_loop cfg rest seen
          | Some url =>
              if bool_decide (occ ∈ seen) then milestones_loop cfg rest seen
              else MkTrigger occ url (com_CreatedAt c) (com_ID c)
                   :: milestones_loop cfg rest ({[occ]} ∪ seen)
          end
      end
  end.

Definition trigger_lt (a b : Trigger) : bool := tr_Occurrence a <? tr_Occurrence b.

Definition publishedMilestones (cfg : Config) (comments : list Comment) : list Trigger :=
  stable_sort trigger_lt (milestones_loop cfg comments ∅).

Definition LatestPublished (cfg : Config) (comments : list Comment) : option Trigger :=
  last (publishedMilestones cfg comments).

(** The path of an URL [net/url] parses with scheme [https], a host and no user
    information, no query, no fragment and no escaped path; an empty fragment
    is no fragment, and the scheme is case-insensitive. *)
Definition url_https_path (raw : string) : option string :=
  let u := match cut "#" raw with
           | Some (u, frag) => if bool_decide (frag = "") then Some u else None
           | None => Some raw
           end in
  match u with
  | None => None
  | Some u =>
      match cut ":" u with
      | None => None
      | Some (scheme, rest) =>
          if negb (bool_decide (ascii_lower_string scheme = "https")) || contains "?" rest
          then None
          else match cut_prefix "//" rest with
          | None => None
          | Some authority_path =>
              match cut "/" authority_path with
              | None => None
              | Some (authority, path) =>
                  if url_host_ok authority then Some ("/" +:+ path) else None
              end
          end
      end
  end.

(** [ParsePRURL]: owner, repository and number. The parts admit only bytes that
    path escaping leaves alone, so a path with an escape has no acceptable part. *)
Definition ParsePRURL (raw : string) : result (string * string * Z) :=
  let not_pr := Err (errorf (quote raw +:+ " is not a pull request URL")) in
  match url_https_path (trim_space raw) with
  | None => not_pr
  | Some path =>
      match split path "/" with
      | [p0; p1; p2; p3; p4] =>
          if negb (bool_decide (p0 = "")) || negb (bool_decide (p3 = "pull"))
             || negb (prPathName p1) || negb (prPathName p2)
          then not_pr
          else match parse_int p4 with
          | Some number =>
              if number <=? 0
              then Err (errorf (quote raw +:+ " carries no pull request number"))
              else Ok (p1, p2, number)
          | None => Err (errorf (quote raw +:+ " carries no pull request number"))
          end
      | _ => not_pr
      end
  end.

(** *** The closing-keyword expression

    [(?i)\b(?:close[sd]?|fix(?:e[sd])?|resolve[sd]?)\s+(?:(N)/(N))?#([0-9]+)\b]
    with [N] one or more of [[A-Za-z0-9._-]]. After each part the next byte
    decides how the match continues, so greedy reading finds the match the
    engine prefers. Case-insensitivity folds U+017F with [s] and U+212A with
    [k]. *)

Fixpoint fold_lit (lit s : string) : option string :=
  match lit with
  | EmptyString => Some s
  | String a lit' =>
      match s with
      | EmptyString => None
      | String c s1 =>
          if ascii_lower (byte_val c) =? byte_val a then fold_lit lit' s1
          else match s1 with
          | String d s2 =>
              if (byte_val a =? 115) && (byte_val c =? 197) && (byte_val d =? 191)
              then fold_lit lit' s2 else None
          | EmptyString => None
          end
      end
  end.

(** [[sd]?] *)
Definition opt_sd (s : string) : string :=
  match fold_lit "s" s with
  | Some r => r
  | None => match fold_lit "d" s with Some r => r | None => s end
  end.

Definition closing_keyword (s : string) : option string :=
  match fold_lit "close" s with
  | Some r => Some (opt_sd r)
  | None =>
      match fold_lit "fix" s with
      | Some r =>
          match fold_lit "es" r with
          | Some r' => Some r'
          | None => match fold_lit "ed" r with Some r' => Some r' | None => Some r end
          end
      | None => match fold_lit "resolve" s with Some r => Some (opt_sd r) | None => None end
      end
  end.

Definition re_space (z : Z) : bool :=
  (z =? 9) || (z =? 10) || (z =? 12) || (z =? 13) || (z =? 32).

(** The longest prefix of bytes in a class, and what follows. *)
Fixpoint span (p : Z → bool) (s : string) : string * string :=
  match s with
  | EmptyString => (EmptyString, EmptyString)
  | String c s' =>
      if p (byte_val c) then let '(run, rest) := span p s' in (String c run, rest)
      else (EmptyString, s)
  end.

(** The same for [N] under case folding. *)
Fixpoint span_name (s : string) : string * string :=
  match s with
  | EmptyString => (EmptyString, EmptyString)
  | String c s1 =>
      if name_byte (byte_val c)
      then let '(run, rest) := span_name s1 in (String c run, rest)
      else match s1 with
      | EmptyString => (EmptyString, s)
      | String d s2 =>
          if (byte_val c =? 197) && (byte_val d =? 191)
          then let '(run, rest) := span_name s2 in (String c (String d run), rest)
          else match s2 with
          | EmptyString => (EmptyString, s)
          | String e s3 =>
              if (byte_val c =? 226) && (byte_val d =? 132) && (byte_val e =? 170)
              then let '(run, rest) := span_name s3 in (String c (String d (String e run)), rest)
              else (EmptyString, s)
          end
      end
  end.

Definition word_byte (z : Z) : bool := is_lower z || is_upper z || is_digit z || (z =? 95).

(** The number after [#] up to a word boundary, and what follows. *)
Definition closing_number (s : string) : option (string * string) :=
  match cut_prefix "#" s with
  | None => None
  | Some r =>
      let '(digits, rest) := span is_digit r in
      if bool_decide (digits = "") then None
      else match rest with
      | String c _ => if word_byte (byte_val c) then None else Some (digits, rest)
      | EmptyString => Some (digits, rest)
      end
  end.

(** A match at the head of [s]: the groups [(owner, repo, number)] and the rest. *)
Definition closing_at (s : string) : option (string * string * string * string) :=
  match closing_keyword s with
  | None => None
  | Some r =>
      let '(spaces, r) := span re_space r in
      if bool_decide (spaces = "") then None
      else match closing_number r with
      | Some (digits, rest) => Some ("", "", digits, rest)
      | None =>
          let '(owner, r1) := span_name r in
          if bool_decide (owner = "") then None
          else match cut_prefix "/" r1 with
          | None => None
          | Some r2 =>
              let '(repo, r3) := span_name r2 in
              if bool_decide (repo = "") then None
              else match closing_number r3 with
              | Some (digits, rest) => Some (owner, repo, digits, rest)
              | None => None
              end
          end
      end
  end.

(** [FindAllStringSubmatch(body, -1)]: [prev] says whether the byte before is a
    word byte, [skip] counts the bytes of the last match still to be passed. *)
Fixpoint closing_matches (prev : bool) (skip : nat) (s : string)
    : list (string * string * string) :=
  match s with
  | EmptyString => []
  | String c s' =>
      let next := word_byte (byte_val c) in
      match skip with
      | S k => closing_matches next k s'
      | O =>
          match (if prev then None else closing_at s) with
          | Some (owner, repo, digits, rest) =>
              (owner, repo, digits)
              :: closing_matches next (String.length s' - String.length rest) s'
          | None => closing_matches next 0 s'
          end
      end
  end.

(** The loop of [closingIssues]. *)
Fixpoint closing_loop (cfg : Config) (ms : list (string * string * string)) (seen : gset Z)
    (issues : list Z) (foreign : bool) : list Z * bool :=
  match ms with
  | [] => (issues, foreign)
  | (owner, repo, digits) :: rest =>
      if negb (bool_decide (owner = ""))
         && negb (eqFold owner (cfg_Owner cfg) && eqFold repo (cfg_Repo cfg))
      then closing_loop cfg rest seen issues true
      else match parse_int digits with
      | None => closing_loop cfg rest seen issues foreign
      | Some n =>
          if bool_decide (n ∈ seen) then closing_loop cfg rest seen issues foreign
          else closing_loop cfg rest ({[n]} ∪ seen) (issues ++ [n]) foreign
      end
  end.

Definition closingIssues (cfg : Config) (body : string) : list Z * bool :=
  closing_loop cfg (closing_matches false 0 body) ∅ [] false.

Definition branchIssue (branch : string) : option Z :=
  match cut_prefix "ben/" branch with
  | None => None
  | Some rest =>
      match parse_int rest with
      | Some n => if n <=? 0 then None else Some n
      | None => None
      end
  end.

(** [validateSubject]; [None] is a nil error. *)
Definition validateSubject (cfg : Config) (t : Trigger) (pr : option PullRequest)
    : option error :=
  match pr with
  | None => Some (errorf ("the milestone's pull request " +:+ tr_PRURL t +:+ " could not be read"))
  | Some pr =>
  let num := "#" +:+ itoa (pr_Number pr) in
  match ParsePRURL (tr_PRURL t) with
  | Err e => Some (errorf_wrap "the milestone's link is not usable: " e "")
  | Ok (owner, repo, number) =>
  if negb (eqFold owner (cfg_Owner cfg)) || negb (eqFold repo (cfg_Repo cfg))
  then Some (errorf ("the milestone links " +:+ owner +:+ "/" +:+ repo +:+ ", which is not "
                     +:+ cfg_Owner cfg +:+ "/" +:+ cfg_Repo cfg))
  else if negb (number =? pr_Number pr)
  then Some (errorf ("the milestone links pull request #" +:+ itoa number +:+ " but " +:+ num
                     +:+ " was read"))
  else match ParsePRURL (pr_URL pr) with
  | Err e => Some (errorf_wrap ("pull request " +:+ num +:+ " reports no canonical web URL: ") e "")
  | Ok (apiOwner, apiRepo, apiNumber) =>
  if negb (eqFold apiOwner (cfg_Owner cfg)) || negb (eqFold apiRepo (cfg_Repo cfg))
     || negb (apiNumber =? pr_Number pr)
  then Some (errorf ("pull request " +:+ num +:+ " reports URL " +:+ quote (pr_URL pr)
                     +:+ " outside " +:+ cfg_Owner cfg +:+ "/" +:+ cfg_Repo cfg))
  else if negb (bool_decide (trim_space (tr_PRURL t) = trim_space (pr_URL pr)))
  then Some (errorf ("the milestone's link " +:+ quote (tr_PRURL t)
                     +:+ " does not exactly match the forge's canonical " +:+ quote (pr_URL pr)))
  else if pr_Closed pr || pr_Merged pr
  then Some (errorf ("pull request " +:+ num +:+ " is not open"))
  else if negb (bool_decide (pr_Branch pr = Branch cfg))
  then Some (errorf ("pull request " +:+ num +:+ " is from " +:+ quote (pr_Branch pr)
                     +:+ ", not the canonical " +:+ quote (Branch cfg)))
  else if negb (bool_decide (branchIssue (pr_Branch pr) = Some (cfg_Issue cfg)))
  then Some (errorf ("branch " +:+ quote (pr_Branch pr) +:+ " does not resolve to issue #"
                     +:+ itoa (cfg_Issue cfg)))
  else if negb (isFullSHA (pr_Head pr))
  then Some (errorf ("pull request " +:+ num +:+ " reports head " +:+ quote (pr_Head pr)
                     +:+ ", which is not a commit sha"))
  else if bool_decide (trim_space (pr_Base pr) = "")
  then Some (errorf ("pull request " +:+ num +:+ " reports no base ref"))
  else if negb (isFullSHA (pr_BaseSHA pr))
  then Some (errorf ("pull request " +:+ num +:+ " reports base " +:+ quote (pr_BaseSHA pr)
                     +:+ ", which is not a commit sha"))
  else
    let '(issues, foreign) := closingIssues cfg (pr_Body pr) in
    let own := "#" +:+ itoa (cfg_Issue cfg) in
    if (foreign : bool) && negb (bool_decide (issues = []))
    then Some (errorf ("pull request " +:+ num
           +:+ " also closes an issue in another repository; one branch may close only " +:+ own))
    else if foreign
    then Some (errorf ("pull request " +:+ num
           +:+ " closes an issue in another repository, not " +:+ own))
    else match issues with
    | [] => Some (errorf ("pull request " +:+ num
              +:+ " names no issue to close, so it cannot be confirmed as " +:+ own +:+ "'s work"))
    | [n] =>
        if negb (n =? cfg_Issue cfg)
        then Some (errorf ("pull request " +:+ num +:+ " closes issue #" +:+ itoa n +:+ ", not " +:+ own))
        else None
    | _ => Some (errorf ("pull request " +:+ num +:+ " closes " +:+ itoa (Z.of_nat (length issues))
              +:+ " issues; one branch, one issue, one pull request"))
    end
  end end end.
End milestone.
