(* ===== verification/ReviewReduce.v ===== *)
(** * ReviewReduce: the controller's state reducer

    Models [internal/review/reduce.go]: [Reduce] decides, from one observation of
    an issue, the one move the controller may make next. *)

From S2P Require Import Prelude GoStd GoStdFacts Review ReviewMarker ReviewEpoch.
From S2P Require Import ReviewMilestone.

(** ** Steps *)

Inductive StepKind :=
  | StepNothing | StepReview | StepUnassign | StepRevoke | StepRecordIntent | StepRecordRoute.

#[export] Instance StepKind_eq_dec : EqDecision StepKind.
Proof. solve_decision. Defined.

Definition ReviewStateCommented : string := "COMMENTED".

Record Step := MkStep {
  st_Kind : StepKind;
  st_Why : string;
  st_PR : PullRequest;
  st_Occurrence : Z;
  st_Claim : Z;
  st_Head : string;
  st_Approval : Z;
  st_ReviewerProfile : string;
  st_Outcome : Outcome;
  st_Principal : string;
  st_RemoveLabel : string;
  st_AddLabel : string;
}.

Definition nothing (why : string) : Step :=
  MkStep StepNothing why zero_PR 0 0 "" 0 "" OutcomeUnset "" "" "".

Definition record (pr : PullRequest) (t : Trigger) (claim : Z) (head : string) (o : Outcome)
    (why : string) : Step :=
  MkStep StepRecordRoute why pr (tr_Occurrence t) claim head 0 "" o "" "" "".

Definition short (sha : string) : string := if 12 <? str_len sha then str_take 12 sha else sha.

(** A controller review the forge has confirmed. *)
Record published := MkPublished {
  pub_review : Review;
  pub_marker : ReviewMarker;
  pub_zero : bool;
}.

Definition zero_Review : Review := MkReview 0 "" "" "" "" zero_time.

(** [published.head] *)
Definition pub_head (p : published) (pr : PullRequest) : string * Z :=
  if pub_zero p then (pr_Head pr, rm_Claim (pub_marker p))
  else (rm_Head (pub_marker p), rm_Claim (pub_marker p)).

Definition unreviewed (sourceClaim : Z) : published :=
  MkPublished zero_Review (MkReviewMarker 0 sourceClaim 0 "" "" VerdictUnset "") true.

Record decision := MkDecision { d_outcome : Outcome; d_why : string }.

Record completedRoute := MkCompleted {
  cr_trigger : Trigger;
  cr_claim : Z;
  cr_head : string;
  cr_outcome : Outcome;
  cr_why : string;
}.

Definition observedPR (s : Snapshot) : PullRequest := default zero_PR (sn_PR s).

(** ** Selecting reviews *)

Definition since (reviews : list published) (from : Z) : list published :=
  filter (λ p, time_before (rv_SubmittedAt (pub_review p)) from = false) reviews.

Definition forApproval (reviews : list published) (approval : Z) : list published :=
  filter (λ p, rm_Approval (pub_marker p) = approval) reviews.

Definition through (reviews : list published) (to : Z) : list published :=
  filter (λ p, time_after (rv_SubmittedAt (pub_review p)) to = false) reviews.

Definition matches_occurrence (occurrence claim approval : Z) (p : published) : bool :=
  (rm_Occurrence (pub_marker p) =? occurrence) && (rm_Claim (pub_marker p) =? claim)
  && (rm_Approval (pub_marker p) =? approval).

Definition reviewFor (reviews : list published) (occurrence claim approval : Z)
    (head base : string) : option published :=
  find (λ p, matches_occurrence occurrence claim approval p
             && bool_decide (rm_Head (pub_marker p) = head)
             && bool_decide (rm_Base (pub_marker p) = base)) reviews.

Definition reviewForHead (reviews : list published) (occurrence claim approval : Z)
    (head : string) : option published :=
  find (λ p, matches_occurrence occurrence claim approval p
             && bool_decide (rm_Head (pub_marker p) = head)) reviews.

Definition mismatchedReviewForOccurrence (reviews : list published)
    (occurrence claim approval : Z) : option published :=
  find (λ p, (rm_Occurrence (pub_marker p) =? occurrence)
             && (negb (rm_Claim (pub_marker p) =? claim)
                 || negb (rm_Approval (pub_marker p) =? approval))) reviews.

(** The loop of [latestReviewForOccurrenceThrough]. *)
Definition later_review (occurrence claim approval to : Z) (latest : option published)
    (p : published) : option published :=
  if negb (matches_occurrence occurrence claim approval p)
     || time_after (rv_SubmittedAt (pub_review p)) to
  then latest
  else match latest with
  | None => Some p
  | Some l =>
      if time_after (rv_SubmittedAt (pub_review p)) (rv_SubmittedAt (pub_review l))
         || ((rv_SubmittedAt (pub_review p) =? rv_SubmittedAt (pub_review l))
             && (rv_ID (pub_review l) <? rv_ID (pub_review p)))
      then Some p else latest
  end.

Definition latestReviewForOccurrenceThrough (reviews : list published)
    (occurrence claim approval to : Z) : option published :=
  foldl (later_review occurrence claim approval to) None reviews.

(** [distinctHeads]: the round counter. *)
Fixpoint distinct_loop (reviews : list published) (seen : gset string) : list string :=
  match reviews with
  | [] => []
  | p :: rest =>
      let h := rm_Head (pub_marker p) in
      if bool_decide (h ∈ seen) then distinct_loop rest seen
      else h :: distinct_loop rest ({[h]} ∪ seen)
  end.
Definition distinctHeads (reviews : list published) : list string := distinct_loop reviews ∅.

Definition containsHead (heads : list string) (head : string) : bool := bool_decide (head ∈ heads).

Section reduce.
Context {T : GoTables}.

Definition containsLogin (logins : list string) (want : string) : bool :=
  existsb (λ l, eqFold l want) logins.

Definition controllerReviews (cfg : Config) (events : list Event) (all : list Review)
    (from : Z) : list published :=
  omap (λ r,
    if negb (eqFold (rv_Author r) (cfg_Controller cfg))
       || negb (bool_decide (rv_State r = ReviewStateCommented))
    then None
    else if time_before (rv_SubmittedAt r) from then None
    else match ParseReviewMarker (rv_Body r) with
    | Err _ => None
    | Ok m =>
        if negb (bool_decide (rm_Head m = rv_CommitID r)) then None
        else if rm_Approval m =? 0 then
          let approval :=
            (approvalEpochAtOccurrence events (cfg_RequiredLabels cfg) (rm_Occurrence m)).1 in
          if approval =? 0 then None
          else Some (MkPublished r (MkReviewMarker (rm_Occurrence m) (rm_Claim m) approval
                       (rm_Head m) (rm_Base m) (rm_Verdict m) (rm_ReviewerProfile m)) false)
        else Some (MkPublished r m false)
    end) all.

Definition routeFor (cfg : Config) (comments : list Comment) (occurrence : Z)
    : option RouteMarker :=
  find_map (λ c,
    if negb (eqFold (com_Author c) (cfg_Controller cfg)) then None
    else match ParseRouteMarker (com_Body c) with
    | Err _ => None
    | Ok m => if negb (ro_Occurrence m =? occurrence) then None else Some m
    end) comments.

Definition routeExists (cfg : Config) (comments : list Comment) (occurrence : Z) : bool :=
  match routeFor cfg comments occurrence with Some _ => true | None => false end.

Definition outcomeFor (cfg : Config) (reviews : list published) (cur : ReviewMarker) : decision :=
  if bool_decide (rm_Verdict cur = VerdictClean)
  then MkDecision OutcomeHumanReview ("the review of head " +:+ short (rm_Head cur) +:+ " is clean")
  else
    let n := Z.of_nat (length (distinctHeads reviews)) in
    if cfg_RoundCap cfg <=? n
    then MkDecision OutcomeRoundCap ("changes are still requested after " +:+ itoa n
           +:+ " distinct heads, which is the cap")
    else MkDecision OutcomeRevise ("changes are requested on head " +:+ short (rm_Head cur)).

(** The informational label a terminal route may add. *)
Definition infoLabel (cfg : Config) : string :=
  if cfg_AddHumanReviewLabel cfg then HumanReviewLabel else "".

(** ** Ending automation *)

Definition stop (cfg : Config) (s : Snapshot) (events : list Event) (pr : PullRequest)
    (t : Trigger) (cur : published) (d : decision) : Step :=
  let '(head, claim) := pub_head cur pr in
  let occ := itoa (tr_Occurrence t) in
  let '(approval, ok) :=
    approvalEpochAtOccurrence events (cfg_RequiredLabels cfg) (tr_Occurrence t) in
  if negb ok
  then nothing ("occurrence " +:+ occ +:+ " has no standing required-label approval epoch")
  else if negb (pub_zero cur) && negb (rm_Approval (pub_marker cur) =? approval)
  then nothing ("occurrence " +:+ occ +:+ " review names approval "
         +:+ itoa (rm_Approval (pub_marker cur)) +:+ ", but its source approval is "
         +:+ itoa approval +:+ "; a contested review never routes")
  else if pub_zero cur
  then MkStep StepRecordIntent (d_why d) pr (tr_Occurrence t) claim head approval ""
         (d_outcome d) "" "" ""
  else
    let '(approvalRemoved, newerApproval, validApproval) :=
      approvalChangesAfterEpoch events (cfg_RequiredLabels cfg) approval in
    if negb validApproval
    then nothing ("occurrence " +:+ occ +:+ " approval epoch " +:+ itoa approval
           +:+ " is not a complete required-label anchor")
    else if negb (newerApproval =? 0)
    then record pr t claim head (d_outcome d)
           (d_why d +:+ "; preserving newer human approval epoch " +:+ itoa newerApproval)
    else if (approvalRemoved : bool)
    then record pr t claim head (d_outcome d)
           (d_why d +:+ "; the occurrence's approval epoch was withdrawn")
    else if hasLabel (iss_Labels (sn_Issue s)) (cfg_QueueLabel cfg)
    then MkStep StepRevoke (d_why d) pr (tr_Occurrence t) claim head 0 "" (d_outcome d) ""
           (cfg_QueueLabel cfg) (infoLabel cfg)
    else record pr t claim head (d_outcome d)
           (d_why d +:+ "; the label is already gone, recording the route").

(** ** Routing a verdict *)

Definition route (cfg : Config) (s : Snapshot) (events : list Event) (pr : PullRequest)
    (t : Trigger) (cur : published) (d : decision) : Step :=
  if negb (bool_decide (d_outcome d = OutcomeRevise)) then stop cfg s events pr t cur d
  else
  let occ := itoa (tr_Occurrence t) in
  let m := pub_marker cur in
  let handedBack := unassignedAfterClaim events (cfg_Principal cfg) (rm_Claim m) in
  let missing := missingRequiredLabel (iss_Labels (sn_Issue s)) (cfg_RequiredLabels cfg) in
  if negb (bool_decide (missing = "")) && negb handedBack
  then stop cfg s events pr t cur (MkDecision OutcomeHumanReview
         ("required label " +:+ quote missing +:+ " was withdrawn before the revision could be routed"))
  else
  let '(approval, ok) :=
    approvalEpochAtOccurrence events (cfg_RequiredLabels cfg) (tr_Occurrence t) in
  if negb ok || negb (approval =? rm_Approval m)
  then nothing ("occurrence " +:+ occ +:+ " review names approval " +:+ itoa (rm_Approval m)
         +:+ ", but its source approval is " +:+ itoa approval
         +:+ "; a contested review never routes")
  else
  let '(approvalRemoved, newerApproval, validApproval) :=
    approvalChangesAfterEpoch events (cfg_RequiredLabels cfg) approval in
  if negb validApproval
  then nothing ("occurrence " +:+ occ +:+ " approval epoch " +:+ itoa approval
         +:+ " is not a complete required-label anchor")
  else if negb (newerApproval =? 0)
  then record pr t (rm_Claim m) (rm_Head m) (d_outcome d)
         (d_why d +:+ "; preserving newer human approval epoch " +:+ itoa newerApproval)
  else if (approvalRemoved : bool)
  then nothing ("occurrence " +:+ occ +:+ " approval epoch " +:+ itoa approval
         +:+ " was withdrawn; waiting for issue state to converge")
  else if negb (bool_decide (pr_Head pr = rm_Head m))
  then nothing ("head moved from " +:+ short (rm_Head m) +:+ " to " +:+ short (pr_Head pr)
         +:+ " since the review; a stale verdict never routes")
  else if negb (bool_decide (pr_BaseSHA pr = rm_Base m))
  then nothing ("base moved from " +:+ short (rm_Base m) +:+ " to " +:+ short (pr_BaseSHA pr)
         +:+ " since the review; a stale verdict never routes")
  else
  let epoch := ClaimEpoch events (cfg_Principal cfg) in
  if negb (epoch =? rm_Claim m) then
    if handedBack
    then record pr t (rm_Claim m) (rm_Head m) OutcomeRevise
           "the claim has been handed back; recording the route"
    else stop cfg s events pr t cur (MkDecision OutcomeHumanReview
           ("the claim epoch moved from " +:+ itoa (rm_Claim m) +:+ " to " +:+ itoa epoch
            +:+ " with no unassignment of ours; the state is contested"))
  else
  let assignees := iss_Assignees (sn_Issue s) in
  if negb (containsLogin assignees (cfg_Principal cfg))
  then nothing ("the change log holds claim epoch " +:+ itoa epoch +:+ " for "
         +:+ cfg_Principal cfg +:+ " but the assignee list does not; retrying")
  else if negb (length assignees =? 1)%nat
  then stop cfg s events pr t cur (MkDecision OutcomeHumanReview
         ("issue #" +:+ itoa (cfg_Issue cfg) +:+ " has " +:+ itoa (Z.of_nat (length assignees))
          +:+ " assignees; no assignee is removed when a human shares the claim"))
  else MkStep StepUnassign (d_why d +:+ "; handing the claim back to " +:+ cfg_Principal cfg)
         pr (tr_Occurrence t) (rm_Claim m) (rm_Head m) 0 "" OutcomeUnset (cfg_Principal cfg) "" "".

(** ** Opening a round *)

Definition beginReview (cfg : Config) (s : Snapshot) (events : list Event) (pr : PullRequest)
    (t : Trigger) (sourceClaim : Z) (why : string) : Step :=
  let occ := itoa (tr_Occurrence t) in
  let missing := missingRequiredLabel (iss_Labels (sn_Issue s)) (cfg_RequiredLabels cfg) in
  if negb (bool_decide (missing = ""))
  then nothing (quote missing +:+ " is not standing on issue #" +:+ itoa (cfg_Issue cfg)
         +:+ "; automation is revoked")
  else
  let epoch := ClaimEpoch events (cfg_Principal cfg) in
  if epoch =? 0
  then nothing ("no standing claim by " +:+ cfg_Principal cfg +:+ " to review under")
  else if negb (epoch =? sourceClaim)
  then nothing ("occurrence " +:+ occ +:+ " belongs to claim " +:+ itoa sourceClaim
         +:+ ", but the current claim is " +:+ itoa epoch
         +:+ "; a stale delivery never reviews or routes the newer claim")
  else
  let '(approval, ok) :=
    approvalEpochAtOccurrence events (cfg_RequiredLabels cfg) (tr_Occurrence t) in
  if negb ok
  then nothing ("occurrence " +:+ occ
         +:+ " has no datable required-label approval to anchor a review to")
  else
  let '(removed, newer, valid) :=
    approvalChangesAfterEpoch events (cfg_RequiredLabels cfg) approval in
  if negb valid
  then nothing ("occurrence " +:+ occ +:+ " approval epoch " +:+ itoa approval
         +:+ " is not a complete required-label anchor")
  else if negb (newer =? 0)
  then nothing ("occurrence " +:+ occ +:+ " belongs to approval epoch " +:+ itoa approval
         +:+ ", but it was replaced by epoch " +:+ itoa newer
         +:+ "; stale output never reviews or routes the replacement cycle")
  else if (removed : bool)
  then nothing ("occurrence " +:+ occ +:+ " approval epoch " +:+ itoa approval
         +:+ " was withdrawn; stale output never reviews or routes a replacement cycle")
  else match SelectReviewerProfile cfg (iss_Labels (sn_Issue s)) with
  | Err e => nothing ("issue #" +:+ itoa (cfg_Issue cfg)
               +:+ " cannot select a reviewer invocation: " +:+ err_text e)
  | Ok profile =>
      MkStep StepReview
        (if bool_decide (profile = "") then why
         else why +:+ " using reviewer profile " +:+ quote profile)
        pr (tr_Occurrence t) sourceClaim (pr_Head pr) approval profile OutcomeUnset "" "" ""
  end.

(** ** Resuming a terminal intent *)

(** The loop of [resumeTerminalIntent]: intents without a route, one per
    occurrence in the order of the comments, and the occurrences whose
    repeated intents disagree. *)
Fixpoint intents_loop (cfg : Config) (all comments : list Comment)
    (seen : gmap Z RouteIntentMarker) (conflicted : gset Z) (ordered : list RouteIntentMarker)
    : gset Z * list RouteIntentMarker :=
  match comments with
  | [] => (conflicted, ordered)
  | c :: rest =>
      if negb (eqFold (com_Author c) (cfg_Controller cfg))
      then intents_loop cfg all rest seen conflicted ordered
      else match ParseRouteIntentMarker (com_Body c) with
      | Err _ => intents_loop cfg all rest seen conflicted ordered
      | Ok m =>
          if routeExists cfg all (ri_Occurrence m)
          then intents_loop cfg all rest seen conflicted ordered
          else match seen !! ri_Occurrence m with
          | Some prior =>
              intents_loop cfg all rest seen
                (if bool_decide (prior = m) then conflicted
                 else {[ri_Occurrence m]} ∪ conflicted) ordered
          | None =>
              intents_loop cfg all rest (<[ri_Occurrence m := m]> seen) conflicted
                (ordered ++ [m])
          end
      end
  end.

Definition intent_lt (a b : RouteIntentMarker) : bool := ri_Occurrence a <? ri_Occurrence b.

(** What an admitted intent owes. *)
Definition finish_intent (cfg : Config) (s : Snapshot) (events : list Event)
    (m : RouteIntentMarker) (intentApproval : Z) : Step :=
  let occ := itoa (ri_Occurrence m) in
  let '(approvalRemoved, newerApproval, validApproval) :=
    approvalChangesAfterEpoch events (cfg_RequiredLabels cfg) intentApproval in
  if negb validApproval
  then nothing ("terminal route intent occurrence " +:+ occ +:+ " resolves to approval epoch "
         +:+ itoa intentApproval +:+ ", which is not a complete required-label anchor")
  else
  let trigger := MkTrigger (ri_Occurrence m) "" zero_time 0 in
  let why := "resuming durable " +:+ outcome_string (ri_Outcome m) +:+ " intent for head "
             +:+ short (ri_Head m) in
  if negb (hasLabel (iss_Labels (sn_Issue s)) (cfg_QueueLabel cfg))
  then record (observedPR s) trigger (ri_Claim m) (ri_Head m) (ri_Outcome m)
         (why +:+ "; the required label removal is complete")
  else if negb (newerApproval =? 0)
  then record (observedPR s) trigger (ri_Claim m) (ri_Head m) (ri_Outcome m)
         (why +:+ "; preserving newer human approval epoch " +:+ itoa newerApproval)
  else if (approvalRemoved : bool)
  then record (observedPR s) trigger (ri_Claim m) (ri_Head m) (ri_Outcome m)
         (why +:+ "; the observed approval epoch was withdrawn")
  else MkStep StepRevoke why (observedPR s) (ri_Occurrence m) (ri_Claim m) (ri_Head m) 0 ""
         (ri_Outcome m) "" (cfg_QueueLabel cfg) (infoLabel cfg).

Definition resume_intent (cfg : Config) (s : Snapshot) (events : list Event)
    (conflicted : gset Z) (m : RouteIntentMarker) : Step :=
  let occ := itoa (ri_Occurrence m) in
  if bool_decide (ri_Occurrence m ∈ conflicted)
  then nothing ("occurrence " +:+ occ +:+ " has conflicting terminal route intents")
  else if negb (publishedOccurrenceOnLog events (ri_Occurrence m) (cfg_TrackerAuthor cfg))
  then nothing ("terminal route intent occurrence " +:+ occ
         +:+ " is not a tracker-authored published transition")
  else
  let '(claim, ok) := claimEpochAtOccurrence events (cfg_Principal cfg) (ri_Occurrence m) in
  if negb ok || negb (claim =? ri_Claim m)
  then nothing ("terminal route intent occurrence " +:+ occ +:+ " names claim "
         +:+ itoa (ri_Claim m) +:+ ", but its source claim is " +:+ itoa claim)
  else
  let '(sourceApproval, ok) :=
    approvalEpochAtOccurrence events (cfg_RequiredLabels cfg) (ri_Occurrence m) in
  let wrong := nothing ("terminal route intent occurrence " +:+ occ +:+ " names approval epoch "
         +:+ itoa (ri_Approval m) +:+ ", but its source approval is " +:+ itoa sourceApproval) in
  if negb ok then wrong
  else if ri_Approval m =? sourceApproval then finish_intent cfg s events m (ri_Approval m)
  else
    let '(queueApproval, legacy) :=
      labelEpochAtOccurrence events (cfg_QueueLabel cfg) (ri_Occurrence m) in
    if negb legacy || negb (ri_Approval m =? queueApproval) then wrong
    else finish_intent cfg s events m sourceApproval.

Definition resumeTerminalIntent (cfg : Config) (s : Snapshot) (events : list Event)
    : option Step :=
  let '(conflicted, ordered) := intents_loop cfg (sn_Comments s) (sn_Comments s) ∅ ∅ [] in
  match stable_sort intent_lt ordered with
  | [] => None
  | m :: _ => Some (resume_intent cfg s events conflicted m)
  end.

(** ** Repairing a completed route *)

Definition published_transition (cfg : Config) (ev : Event) : bool :=
  is_type ev EventUnlabeled && eqFold (ev_Actor ev) (cfg_TrackerAuthor cfg)
  && (eqFold (ev_Label ev) "ben:claimed" || eqFold (ev_Label ev) "ben:running").

(** [publishedPositions]: the last position of each trusted publication. *)
Definition publishedPositions (cfg : Config) (triggers : list Trigger) (events : list Event)
    : gmap Z nat :=
  let wanted : gset Z := list_to_set (tr_Occurrence <$> triggers) in
  foldl (λ out p,
    if negb (bool_decide (ev_ID p.2 ∈ wanted)) || negb (published_transition cfg p.2) then out
    else <[ev_ID p.2 := p.1]> out) ∅ (imap pair events).

(** [publicationBeforeMutation] *)
Definition publicationBeforeMutation (triggers : list Trigger) (positions : gmap Z nat)
    (events : list Event) (mutation : nat) : option Trigger :=
  match events !! mutation with
  | None => None
  | Some mev =>
      snd <$> foldl (λ (latest : option (nat * Trigger)) trigger,
        match positions !! tr_Occurrence trigger with
        | None => latest
        | Some position =>
            if (mutation <=? position)%nat || time_after (tr_At trigger) (ev_CreatedAt mev)
            then latest
            else match latest with
            | Some (latestPosition, _) =>
                if (latestPosition <? position)%nat then Some (position, trigger) else latest
            | None => Some (position, trigger)
            end
        end) None triggers
  end.

(** One mutation [events[i]] tried for one trigger. *)
Definition completed_by (cfg : Config) (triggers : list Trigger) (positions : gmap Z nat)
    (events : list Event) (reviews : list published) (trigger : Trigger)
    (claim approval : Z) (p : nat * Event) : option completedRoute :=
  let '(i, ev) := p in
  let isStop := is_type ev EventUnlabeled && eqFold (ev_Actor ev) (cfg_Controller cfg)
                && eqFold (ev_Label ev) (cfg_QueueLabel cfg) in
  let isHandoff := is_type ev EventUnassigned && eqFold (ev_Assignee ev) (cfg_Principal cfg) in
  if negb isStop && negb isHandoff then None
  else match publicationBeforeMutation triggers positions events i with
  | None => None
  | Some owner =>
      if negb (tr_Occurrence owner =? tr_Occurrence trigger) then None
      else match latestReviewForOccurrenceThrough reviews (tr_Occurrence trigger) claim approval
                   (ev_CreatedAt ev) with
      | None => None
      | Some prior =>
          let m := pub_marker prior in
          let cycle := through (forApproval
              (since reviews (cycleStartAtOccurrence cfg events (tr_Occurrence trigger)))
              approval) (ev_CreatedAt ev) in
          let d := outcomeFor cfg cycle m in
          if isStop then
            let d := if bool_decide (d_outcome d = OutcomeRevise)
                     then MkDecision OutcomeHumanReview
                            "the controller already removed the required label after the review"
                     else d in
            Some (MkCompleted trigger claim (rm_Head m) (d_outcome d)
              (d_why d +:+ "; the required label is no longer standing because the terminal mutation already landed, recording its original route"))
          else if bool_decide (rm_Verdict m = VerdictChangesRequested) then
            if negb (bool_decide (d_outcome d = OutcomeRevise)) then None
            else Some (MkCompleted trigger claim (rm_Head m) OutcomeRevise
              (d_why d +:+ "; the source claim has already been handed back, recording the route"))
          else None
      end
  end.

Definition completedUnroutedRoute (cfg : Config) (comments : list Comment)
    (triggers : list Trigger) (events : list Event) (reviews : list published)
    : option completedRoute :=
  let positions := publishedPositions cfg triggers events in
  find_map (λ trigger,
    if routeExists cfg comments (tr_Occurrence trigger) then None
    else match positions !! tr_Occurrence trigger with
    | None => None
    | Some _ =>
        let '(claim, ok) :=
          claimEpochAtOccurrence events (cfg_Principal cfg) (tr_Occurrence trigger) in
        if negb ok then None
        else
        let '(approval, ok) :=
          approvalEpochAtOccurrence events (cfg_RequiredLabels cfg) (tr_Occurrence trigger) in
        if negb ok then None
        else find_map (completed_by cfg triggers positions events reviews trigger claim approval)
               (imap pair events)
    end) triggers.

(** ** The reducer *)

(** The part of [Reduce] after the latest occurrence has validated. *)
Definition reduce_subject (cfg : Config) (s : Snapshot) (selectedProfile : string)
    (events : list Event) (all : list published) (trigger : Trigger) (pr : PullRequest)
    (sourceClaim sourceApproval : Z) : Step :=
  let occ := itoa (tr_Occurrence trigger) in
  let reviews := forApproval
    (since all (cycleStartAtOccurrence cfg events (tr_Occurrence trigger))) sourceApproval in
  match reviewFor all (tr_Occurrence trigger) sourceClaim sourceApproval
          (pr_Head pr) (pr_BaseSHA pr) with
  | Some cur =>
      let profile := rm_ReviewerProfile (pub_marker cur) in
      if negb (bool_decide (profile = "")) && negb (bool_decide (profile = selectedProfile))
      then nothing ("occurrence " +:+ occ +:+ " was reviewed with profile " +:+ quote profile
             +:+ ", but the issue now selects " +:+ quote selectedProfile
             +:+ "; the durable verdict cannot route under a different profile")
      else route cfg s events pr trigger cur (outcomeFor cfg reviews (pub_marker cur))
  | None =>
  match mismatchedReviewForOccurrence all (tr_Occurrence trigger) sourceClaim sourceApproval with
  | Some cur =>
      stop cfg s events pr trigger (unreviewed sourceClaim) (MkDecision OutcomeHumanReview
        ("occurrence " +:+ occ +:+ " belongs to claim " +:+ itoa sourceClaim +:+ " and approval "
         +:+ itoa sourceApproval +:+ ", but a controller review names claim "
         +:+ itoa (rm_Claim (pub_marker cur)) +:+ " and approval "
         +:+ itoa (rm_Approval (pub_marker cur)) +:+ "; the durable record is contested"))
  | None =>
  let heads := distinctHeads reviews in
  let nheads := Z.of_nat (length heads) in
  match reviewForHead all (tr_Occurrence trigger) sourceClaim sourceApproval (pr_Head pr) with
  | Some prior =>
      beginReview cfg s events pr trigger sourceClaim
        ("base moved from " +:+ short (rm_Base (pub_marker prior)) +:+ " to "
         +:+ short (pr_BaseSHA pr) +:+ " while occurrence " +:+ occ +:+ " still names head "
         +:+ short (pr_Head pr) +:+ "; reviewing the current diff without consuming another head round")
  | None =>
  if containsHead heads (pr_Head pr)
  then route cfg s events pr trigger (unreviewed sourceClaim) (MkDecision OutcomeNoProgress
         ("head " +:+ short (pr_Head pr) +:+ " was already reviewed this cycle and has not moved"))
  else if cfg_RoundCap cfg <=? nheads
  then route cfg s events pr trigger (unreviewed sourceClaim) (MkDecision OutcomeRoundCap
         (itoa nheads +:+ " distinct heads have been reviewed this cycle, which is the cap"))
  else beginReview cfg s events pr trigger sourceClaim
         ("occurrence " +:+ occ +:+ " delivered head " +:+ short (pr_Head pr) +:+ ", which round "
          +:+ itoa (nheads + 1) +:+ " of " +:+ itoa (cfg_RoundCap cfg) +:+ " has not reviewed")
  end end end.

(** The part of [Reduce] that answers for the latest occurrence. *)
Definition reduce_latest (cfg : Config) (s : Snapshot) (selectedProfile : string)
    (events : list Event) (all : list published) (trigger : Trigger) : Step :=
  let occ := itoa (tr_Occurrence trigger) in
  if negb (publishedOccurrenceOnLog events (tr_Occurrence trigger) (cfg_TrackerAuthor cfg))
  then nothing ("occurrence " +:+ occ
         +:+ " is not a tracker-authored published transition on issue #" +:+ itoa (cfg_Issue cfg))
  else match routeFor cfg (sn_Comments s) (tr_Occurrence trigger) with
  | Some routed => nothing ("occurrence " +:+ occ +:+ " already routed as "
                     +:+ outcome_string (ro_Outcome routed))
  | None =>
  let '(sourceClaim, ok) :=
    claimEpochAtOccurrence events (cfg_Principal cfg) (tr_Occurrence trigger) in
  if negb ok
  then nothing ("occurrence " +:+ occ +:+ " has no ordered standing claim by " +:+ cfg_Principal cfg)
  else match validateSubject cfg trigger (sn_PR s) with
  | Some e => nothing ("occurrence " +:+ occ +:+ " does not validate: " +:+ err_text e)
  | None =>
  let '(sourceApproval, ok) :=
    approvalEpochAtOccurrence events (cfg_RequiredLabels cfg) (tr_Occurrence trigger) in
  if negb ok
  then nothing ("occurrence " +:+ occ
         +:+ " has no ordered standing complete required-label approval")
  else match sn_PR s with
  | None => nothing ""  (* unreachable: [validateSubject] refuses a nil pull request *)
  | Some pr => reduce_subject cfg s selectedProfile events all trigger pr sourceClaim sourceApproval
  end end end.

Definition Reduce (cfg : Config) (s : Snapshot) : Step :=
  match Validate cfg with
  | Some e => nothing (err_text e)
  | None =>
  match SelectReviewerProfile cfg (iss_Labels (sn_Issue s)) with
  | Err e => nothing ("issue #" +:+ itoa (cfg_Issue cfg)
               +:+ " cannot select a reviewer invocation: " +:+ err_text e)
  | Ok selectedProfile =>
  let triggers := publishedMilestones cfg (sn_Comments s) in
  let events := SortEvents (sn_Events s) in
  let all := controllerReviews cfg events (sn_Reviews s) zero_time in
  match resumeTerminalIntent cfg s events with
  | Some step => step
  | None =>
  match completedUnroutedRoute cfg (sn_Comments s) triggers events all with
  | Some done =>
      record (observedPR s) (cr_trigger done) (cr_claim done) (cr_head done) (cr_outcome done)
        (cr_why done)
  | None =>
  if iss_Closed (sn_Issue s)
  then nothing ("issue #" +:+ itoa (cfg_Issue cfg) +:+ " is closed")
  else match last triggers with
  | None => nothing ("no published milestone by " +:+ cfg_TrackerAuthor cfg +:+ " to act on")
  | Some trigger => reduce_latest cfg s selectedProfile events all trigger
  end end end end end.
End reduce.
