(* ===== verification/ReviewVerdict.v ===== *)
(** * ReviewVerdict: reading the reviewer's report

    Models [ParseReport] and [soleFencedObject] of [internal/review/verdict.go].
    Go's JSON decoder is the parameter [JSON]. *)

From S2P Require Import Prelude GoStd GoStdFacts Review.

(** ** Definitions *)

Definition ErrNoVerdict : error := errors_New "review: the reviewer stated no verdict".
Definition ErrUnknownVerdict : error := errors_New "review: verdict is outside the closed set".
Definition io_EOF : error := errors_New "EOF".

Record Report := MkReport { rep_Verdict : Verdict; rep_Findings : string }.

(** What [ParseReport] uses of [encoding/json]: a strict decoder reads one object
    off the input as the two fields' strings and leaves the rest; a second decode
    of the rest into [any] answers its error, [None] when it read a value. *)
Class JSON := {
  json_report : string → result (string * string * string);
  json_any : string → option error;
}.

Definition fence : string := "```".

(** The elements at the odd indices. *)
Fixpoint odd_parts {A} (l : list A) : list A :=
  match l with
  | _ :: y :: l' => y :: odd_parts l'
  | _ => []
  end.

Section verdict.
Context {T : GoTables} {J : JSON}.

(** The content of one fenced block that begins an object, without its info string. *)
Definition fenced_object (block : string) : option string :=
  let block :=
    match cut nl block with
    | Some (_, rest) => if negb (has_prefix "{" (trim_space block)) then rest else block
    | None => block
    end in
  let block := trim_space block in
  if has_prefix "{" block then Some block else None.

Definition soleFencedObject (body : string) : result string :=
  match omap fenced_object (odd_parts (split body fence)) with
  | [] => Err ErrNoVerdict
  | [found] => Ok found
  | found => Err (errorf_w ErrUnknownVerdict (": the reply carries "
                    +:+ itoa (Z.of_nat (length found))
                    +:+ " JSON objects, so none of them is the verdict"))
  end.

Definition decode_body (body : string) : result Report :=
  match json_report body with
  | Err e => Err (errorf_w ErrUnknownVerdict (": " +:+ err_text e))
  | Ok (verdict, findings, rest) =>
      let trailing (e : error) :=
        Err (errorf_w ErrUnknownVerdict (": trailing content: " +:+ err_text e)) in
      match json_any rest with
      | None => trailing (errorf "more than one JSON value")
      | Some e =>
          if negb (errors_Is e io_EOF) then trailing e
          else if bool_decide (verdict = "") then Err ErrNoVerdict
          else if bool_decide (verdict = verdict_string VerdictClean)
          then Ok (MkReport VerdictClean findings)
          else if bool_decide (verdict = verdict_string VerdictChangesRequested)
          then Ok (MkReport VerdictChangesRequested findings)
          else Err (errorf_w ErrUnknownVerdict (": " +:+ quote verdict))
      end
  end.

Definition ParseReport (data : string) : result Report :=
  let body := trim_space data in
  if bool_decide (body = "") then Err ErrNoVerdict
  else if negb (has_prefix "{" body) then
    try fenced := soleFencedObject body in decode_body fenced
  else decode_body body.

(** ** A report that parses states a verdict *)

Lemma decode_body_closed body r : decode_body body = Ok r → rep_Verdict r ≠ VerdictUnset.
Proof.
  unfold decode_body. destruct (json_report body) as [[[v f] rest]|]; [|done].
  destruct (json_any rest); [|done]. destruct (negb _); [done|].
  case_bool_decide; [done|]. case_bool_decide; [by intros [= <-]|].
  case_bool_decide; [by intros [= <-]|done].
Qed.

Lemma ParseReport_closed data r : ParseReport data = Ok r → rep_Verdict r ≠ VerdictUnset.
Proof.
  unfold ParseReport. case_bool_decide; [done|]. destruct (negb _); [|apply decode_body_closed].
  destruct (soleFencedObject _); [apply decode_body_closed|done].
Qed.

(** A reply whose verdict is not the one JSON object it carries authorizes
    nothing: an empty reply, a prose reply with no fenced object, or with two or
    more of them, is refused before any decoder sees it, and every report that
    is accepted states one of the two verdicts of the closed set. *)
Theorem report_unambiguous (data : string) :
  match ParseReport data with
  | Ok r => rep_Verdict r = VerdictClean ∨ rep_Verdict r = VerdictChangesRequested
  | Err e => True
  end
  ∧ (has_prefix "{" (trim_space data) = false →
     length (omap fenced_object (odd_parts (split (trim_space data) fence))) ≠ 1%nat →
     ∃ e, ParseReport data = Err e ∧ (errors_Is e ErrNoVerdict || errors_Is e ErrUnknownVerdict) = true).
Proof.
  split.
  - destruct (ParseReport data) as [r|] eqn:Hp; [|done].
    apply ParseReport_closed in Hp. destruct (rep_Verdict r); tauto.
  - intros Hbrace Hn. unfold ParseReport. rewrite Hbrace. simpl.
    case_bool_decide; [eexists; split; [done|]; by vm_compute|].
    unfold soleFencedObject. destruct (omap _ _) as [|x [|y l]]; [| |].
    + eexists. split; [done|]. by vm_compute.
    + done.
    + eexists. split; [done|]. by vm_compute.
Qed.
End verdict.

(** A decoder that knows the two canonical replies. *)
Definition ex_json : JSON := {|
  json_report s :=
    if bool_decide (s = "{clean}") then Ok ("clean", "", "")
    else if bool_decide (s = "{changes}") then Ok ("changes_requested", "fix it", "")
    else Err (errorf "unexpected token");
  json_any s := Some io_EOF |}.

Example ex_fenced :
  @ParseReport ascii_tables ex_json ("Here it is:" +:+ nl +:+ "```json" +:+ nl +:+ "{clean}" +:+ nl +:+ "```")
  = Ok (MkReport VerdictClean "").
Proof. vm_compute. reflexivity. Qed.
Example ex_two_objects :
  match @ParseReport ascii_tables ex_json ("```" +:+ nl +:+ "{clean}" +:+ nl +:+ "``` or ```{changes}```") with
  | Ok _ => False | Err e => errors_Is e ErrUnknownVerdict = true end.
Proof. vm_compute. reflexivity. Qed.
