(* ===== verification/ReviewExamples.v ===== *)
(** * ReviewExamples: one issue through the controller

    A concrete configuration and the observations of one issue as its review
    cycle advances. The witnesses of the reducer's theorems evaluate on them. *)

From S2P Require Import Prelude GoStd Review ReviewMarker ReviewEpoch ReviewMilestone.
From S2P Require Import ReviewReduce.

Definition ex_sha (c : string) : string := String.concat "" (replicate 40 c).
Definition ex_headA : string := ex_sha "a".
Definition ex_headB : string := ex_sha "b".
Definition ex_base : string := ex_sha "0".
Definition ex_base' : string := ex_sha "1".

Definition ex_cfg : Config := {|
  cfg_Owner := "acme"; cfg_Repo := "app"; cfg_Issue := 7;
  cfg_Principal := "ben-bot"; cfg_TrackerAuthor := "ben-tracker"; cfg_Controller := "ben-review";
  cfg_AllowSharedTrackerController := false;
  cfg_RequiredLabels := ["ready"; "triaged"]; cfg_QueueLabel := "ready";
  cfg_AddHumanReviewLabel := true; cfg_RoundCap := 2;
  cfg_ReviewerProfiles := []; cfg_DefaultReviewerProfile := "" |}.

Definition ex_url : string := "https://github.com/acme/app/pull/31".

Definition ex_pr (head base : string) : PullRequest := {|
  pr_Number := 31; pr_URL := ex_url; pr_Closed := false; pr_Merged := false;
  pr_Branch := "ben/7"; pr_Head := head; pr_Base := "main"; pr_BaseSHA := base;
  pr_Body := "Closes #7" |}.

Definition ex_issue : Issue := {|
  iss_Number := 7; iss_Closed := false; iss_Labels := ["ready"; "Triaged"];
  iss_Assignees := ["ben-bot"] |}.

(** Approved (101, 102), claimed (103), published (104). *)
Definition ex_events : list Event :=
  [MkEvent 101 "labeled" "alice" "" "ready" 1000;
   MkEvent 102 "labeled" "alice" "" "triaged" 1001;
   MkEvent 103 "assigned" "ben-tracker" "ben-bot" "" 1002;
   MkEvent 104 "unlabeled" "ben-tracker" "" "ben:running" 1003].

Definition ex_milestone (occ : string) (at' : Z) : Comment :=
  MkComment 500 "ben-tracker"
    ("Published." +:+ nl +:+ "- pull request: " +:+ ex_url +:+ nl
     +:+ "<!-- ben:milestone kind=published occurrence=" +:+ occ +:+ " -->") at'.

Definition ex_snapshot (reviews : list Review) (extra : list Comment) (head base : string) : Snapshot :=
  {| sn_Issue := ex_issue; sn_Comments := ex_milestone "104" 1004 :: extra;
     sn_Events := ex_events; sn_Reviews := reviews; sn_PR := Some (ex_pr head base) |}.

Definition ex_marker (v : Verdict) (head base : string) : ReviewMarker :=
  MkReviewMarker 104 103 102 head base v "".

Definition ex_review (v : Verdict) (head base : string) : Review :=
  MkReview 900 "ben-review" (ReviewBody (ex_marker v head base) "Looks at the diff.") head
    "COMMENTED" 1010.

(** A first delivery opens a round. *)
Definition ex_fresh : Snapshot := ex_snapshot [] [] ex_headA ex_base.
(** Changes were requested: the claim goes back. *)
Definition ex_changes : Snapshot :=
  ex_snapshot [ex_review VerdictChangesRequested ex_headA ex_base] [] ex_headA ex_base.
(** The review was clean: automation stops. *)
Definition ex_clean : Snapshot :=
  ex_snapshot [ex_review VerdictClean ex_headA ex_base] [] ex_headA ex_base.
(** The base moved under a reviewed head: the diff is reviewed again. *)
Definition ex_rebased : Snapshot :=
  ex_snapshot [ex_review VerdictChangesRequested ex_headA ex_base] [] ex_headA ex_base'.
(** The clean route is recorded. *)
Definition ex_routed : Snapshot :=
  ex_snapshot [ex_review VerdictClean ex_headA ex_base]
    [MkComment 501 "ben-review"
       (RouteBody (MkRouteMarker 104 103 ex_headA OutcomeHumanReview) "clean") 1020]
    ex_headA ex_base.

Example ex_fresh_step : st_Kind (Reduce ex_cfg ex_fresh) = StepReview.
Proof. vm_compute. reflexivity. Qed.
Example ex_changes_step : st_Kind (Reduce ex_cfg ex_changes) = StepUnassign.
Proof. vm_compute. reflexivity. Qed.
Example ex_clean_step : st_Kind (Reduce ex_cfg ex_clean) = StepRevoke.
Proof. vm_compute. reflexivity. Qed.
Example ex_rebased_step : st_Kind (Reduce ex_cfg ex_rebased) = StepReview.
Proof. vm_compute. reflexivity. Qed.
Example ex_routed_step : st_Kind (Reduce ex_cfg ex_routed) = StepNothing.
Proof. vm_compute. reflexivity. Qed.
