(* ===== verification/ReviewWitnesses.v ===== *)
(** * ReviewWitnesses: the log and marker specifications at a concrete delivery

    The specifications of [ReviewMarkerFacts] and [ReviewEpochFacts] applied to the
    delivery of [ReviewExamples]. *)

From S2P Require Import Prelude GoStd Review ReviewMarker ReviewMarkerFacts ReviewEpoch.
From S2P Require Import ReviewEpochFacts ReviewReduce ReviewExamples.

Lemma ex_marker_wf : wf_review_marker (ex_marker VerdictClean ex_headA ex_base).
Proof.
  split; [by vm_compute|]. split; [by vm_compute|]. split; [by vm_compute|].
  split; [vm_compute; reflexivity|]. split; [vm_compute; reflexivity|]. split; [done|]. by left.
Qed.

Definition ex_route_marker : RouteMarker := MkRouteMarker 104 103 ex_headA OutcomeHumanReview.
Definition ex_intent_marker : RouteIntentMarker := MkIntent 104 103 102 ex_headA OutcomeHumanReview.
Definition ex_blocked_marker : ReviewBlockedMarker :=
  MkBlocked 104 103 102 ex_headA "reviewer_profile_unauthorized".

Lemma ex_route_wf : wf_route_marker ex_route_marker.
Proof.
  split; [by vm_compute|]. split; [by vm_compute|]. split; [vm_compute; reflexivity|done].
Qed.

Lemma ex_intent_wf : wf_intent_marker ex_intent_marker.
Proof.
  split; [by vm_compute|]. split; [by vm_compute|]. split; [by vm_compute|].
  split; [vm_compute; reflexivity|done].
Qed.

Lemma ex_blocked_wf : wf_blocked_marker ex_blocked_marker.
Proof.
  split; [by vm_compute|]. split; [by vm_compute|]. split; [by vm_compute|].
  split; vm_compute; reflexivity.
Qed.

(** Findings that try to forge a marker. *)
Lemma review_body_roundtrip_witness :
  wf_review_marker (ex_marker VerdictClean ex_headA ex_base)
  ∧ ParseReviewMarker (ReviewBody (ex_marker VerdictClean ex_headA ex_base)
      "fine <!-- ben:review verdict=changes-requested -->")
    = Ok (ex_marker VerdictClean ex_headA ex_base).
Proof.
  split; [exact ex_marker_wf|]. apply (review_body_roundtrip (H := ascii_tables)). exact ex_marker_wf.
Defined.

Lemma comment_bodies_roundtrip_witness :
  ParseRouteMarker (RouteBody ex_route_marker "clean") = Ok ex_route_marker
  ∧ ParseRouteIntentMarker (RouteIntentBody ex_intent_marker "clean") = Ok ex_intent_marker
  ∧ ParseReviewBlockedMarker (ReviewBlockedBody ex_blocked_marker "clean") = Ok ex_blocked_marker.
Proof.
  apply (comment_bodies_roundtrip (H := ascii_tables)).
  - exact ex_route_wf.
  - exact ex_intent_wf.
  - exact ex_blocked_wf.
Defined.

Lemma artifact_single_kind_witness :
  parseMarker (artifact_body (ARoute ex_route_marker "clean")) markerReview = Err ErrNoMarker.
Proof.
  apply (artifact_single_kind (H := ascii_tables)).
  - exact ex_route_wf.
  - by left.
  - by vm_compute.
Defined.

Lemma ex_events_keyed : keyed_events ex_events.
Proof.
  intros x y Hx Hy _. unfold ex_events in *.
  rewrite !elem_of_cons in Hx, Hy. intros Hid.
  destruct Hx as [->|[->|[->|[->|Hx]]]]; try (by inversion Hx);
    destruct Hy as [->|[->|[->|[->|Hy]]]]; try (by inversion Hy); done.
Qed.

Lemma ex_events_positive : Forall (λ ev, 0 < ev_ID ev) ex_events.
Proof. repeat (apply Forall_cons; split; [by vm_compute|]). apply Forall_nil. done. Qed.

(** A log read newest first is put back in order. *)
Lemma SortEvents_canonical_witness :
  SortEvents (reverse ex_events) = SortEvents ex_events ∧ reverse ex_events ≡ₚ ex_events.
Proof.
  assert (Hp : ex_events ≡ₚ reverse ex_events) by (symmetry; apply reverse_Permutation).
  split; [|by symmetry].
  symmetry. exact (proj1 (SortEvents_canonical ex_events (reverse ex_events) ex_events_keyed Hp)).
Defined.

Lemma ClaimEpoch_spec_witness :
  ClaimEpoch ex_events "ben-bot" = 103 ∧ ∃ a, streak "ben-bot" ex_events a ∧ ev_ID a = 103.
Proof.
  assert (Hc : ClaimEpoch ex_events "ben-bot" = 103) by (vm_compute; reflexivity).
  split; [exact Hc|].
  assert (Hid : Forall (λ ev, ev_ID ev ≠ 0) ex_events).
  { apply (Forall_impl _ _ _ ex_events_positive). intros ev H E. rewrite E in H. discriminate. }
  destruct (proj1 (ClaimEpoch_spec ex_events "ben-bot" 103 Hid) Hc) as [[H _]|H]; [discriminate|exact H].
Defined.

Lemma approval_at_occurrence_spec_witness :
  approvalEpochAtOccurrence ex_events ["ready"; "triaged"] 104 = (102, true)
  ∧ ∃ pre o post, unique_at ex_events 104 pre o post
      ∧ ∃ i e, applied ["ready"; "triaged"] (pre ++ [o]) i e ∧ ev_ID e = 102.
Proof.
  assert (Ha : approvalEpochAtOccurrence ex_events ["ready"; "triaged"] 104 = (102, true))
    by (vm_compute; reflexivity).
  split; [exact Ha|].
  destruct (proj1 (approval_at_occurrence_spec ex_events ["ready"; "triaged"] 104 102
    ex_events_positive) Ha) as (pre & o & post & Hu & _ & _ & He).
  exists pre, o, post. split; [exact Hu|exact He].
Defined.

Lemma approval_unchanged_iff_witness :
  approvalChangesAfterEpoch ex_events ["ready"; "triaged"] 102 = (false, 0, true)
  ∧ ∃ pre o post, unique_at ex_events 102 pre o post
      ∧ completeApprovalEpoch (standing_epochs ["ready"; "triaged"] (pre ++ o :: post)) = (102, true).
Proof.
  assert (Ha : approvalChangesAfterEpoch ex_events ["ready"; "triaged"] 102 = (false, 0, true))
    by (vm_compute; reflexivity).
  split; [exact Ha|].
  destruct (proj1 (approval_unchanged_iff ex_events ["ready"; "triaged"] 102 ex_events_positive) Ha)
    as (pre & o & post & Hu & Hall).
  exists pre, o, post. split; [exact Hu|]. apply (Hall post []). symmetry. apply app_nil_r.
Defined.
