(* ===== verification/ReviewReduceFacts.v ===== *)
(** * ReviewReduceFacts: what a step of the reducer is evidence of

    Every mutation [Reduce] may ask for, read back as facts about the observation:
    which labels and logins it can name, what stands behind a review, a hand-back
    and a revocation, that a routed occurrence is never acted on again, and that
    neither the order the forge lists events in nor anything a third party writes
    changes the answer. *)

From S2P Require Import Prelude GoStd GoStdFacts Review ReviewMarker ReviewMarkerFacts.
From S2P Require Import ReviewEpoch ReviewEpochFacts ReviewMilestone ReviewReduce.
From S2P Require Import ReviewExamples.

(** ** Shapes of the parts *)

Section parts.
Context {T : GoTables}.
Implicit Types (cfg : Config) (s : Snapshot) (events : list Event) (t : Trigger).

(** The approval epoch of an occurrence, unremoved and unreplaced since. *)
Definition approval_in_force cfg events (occ approval : Z) : Prop :=
  approvalEpochAtOccurrence events (cfg_RequiredLabels cfg) occ = (approval, true) ∧
  approvalChangesAfterEpoch events (cfg_RequiredLabels cfg) approval = (false, 0, true).

(** The answers that end automation, for a delivery that was [reviewed] or not. *)
Inductive stop_shape cfg s events t (claim : Z) (head : string) (o : Outcome)
    (reviewed : bool) : Step → Prop :=
  | stop_none why : stop_shape cfg s events t claim head o reviewed (nothing why)
  | stop_intent why pr approval :
      reviewed = false →
      approvalEpochAtOccurrence events (cfg_RequiredLabels cfg) (tr_Occurrence t)
        = (approval, true) →
      stop_shape cfg s events t claim head o reviewed
        (MkStep StepRecordIntent why pr (tr_Occurrence t) claim head approval "" o "" "" "")
  | stop_record why pr :
      reviewed = true →
      stop_shape cfg s events t claim head o reviewed (record pr t claim head o why)
  | stop_revoke why pr approval :
      reviewed = true →
      approval_in_force cfg events (tr_Occurrence t) approval →
      hasLabel (iss_Labels (sn_Issue s)) (cfg_QueueLabel cfg) = true →
      stop_shape cfg s events t claim head o reviewed
        (MkStep StepRevoke why pr (tr_Occurrence t) claim head 0 "" o ""
           (cfg_QueueLabel cfg) (infoLabel cfg)).

Lemma stop_shaped cfg s events pr t cur d :
  stop_shape cfg s events t (pub_head cur pr).2 (pub_head cur pr).1 (d_outcome d)
    (negb (pub_zero cur)) (stop cfg s events pr t cur d).
Proof.
  unfold stop. destruct (pub_head cur pr) as [head claim]; simpl.
  destruct (approvalEpochAtOccurrence _ _ _) as [approval []] eqn:Ha; simpl; [|constructor].
  destruct (negb (pub_zero cur) && _); [constructor|].
  destruct (pub_zero cur) eqn:Hz; simpl; [by constructor|].
  destruct (approvalChangesAfterEpoch _ _ _) as [[rem newer] []] eqn:Hc; simpl; [|constructor].
  destruct (Z.eqb_spec newer 0) as [->|]; simpl; [|by constructor].
  destruct rem; [by constructor|].
  destruct (hasLabel _ _) eqn:Hl; [|by constructor].
  by apply (stop_revoke _ _ _ _ _ _ _ _ _ _ approval).
Qed.

(** What the hand-back of a claim rests on. *)
Definition handback_ok cfg s events (pr : PullRequest) t (m : ReviewMarker) : Prop :=
  approval_in_force cfg events (tr_Occurrence t) (rm_Approval m)
  ∧ pr_Head pr = rm_Head m ∧ pr_BaseSHA pr = rm_Base m
  ∧ ClaimEpoch events (cfg_Principal cfg) = rm_Claim m
  ∧ (∃ a, iss_Assignees (sn_Issue s) = [a] ∧ eqFold a (cfg_Principal cfg) = true)
  ∧ (missingRequiredLabel (iss_Labels (sn_Issue s)) (cfg_RequiredLabels cfg) = ""
     ∨ unassignedAfterClaim events (cfg_Principal cfg) (rm_Claim m) = true).

Inductive route_shape cfg s events (pr : PullRequest) t (cur : published) (o : Outcome)
    : Step → Prop :=
  | route_stop o' st :
      o' = o ∧ o ≠ OutcomeRevise ∨ o' = OutcomeHumanReview →
      stop_shape cfg s events t (pub_head cur pr).2 (pub_head cur pr).1 o'
        (negb (pub_zero cur)) st →
      route_shape cfg s events pr t cur o st
  | route_record why :
      o = OutcomeRevise →
      route_shape cfg s events pr t cur o
        (record pr t (rm_Claim (pub_marker cur)) (rm_Head (pub_marker cur)) OutcomeRevise why)
  | route_unassign why :
      o = OutcomeRevise → handback_ok cfg s events pr t (pub_marker cur) →
      route_shape cfg s events pr t cur o
        (MkStep StepUnassign why pr (tr_Occurrence t) (rm_Claim (pub_marker cur))
           (rm_Head (pub_marker cur)) 0 "" OutcomeUnset (cfg_Principal cfg) "" "").

Lemma route_none cfg s events pr t cur o why :
  route_shape cfg s events pr t cur o (nothing why).
Proof. apply (route_stop _ _ _ _ _ _ _ OutcomeHumanReview); [by right|constructor]. Qed.

Lemma containsLogin_sole logins want :
  containsLogin logins want = true → (length logins =? 1)%nat = true →
  ∃ a, logins = [a] ∧ eqFold a want = true.
Proof.
  destruct logins as [|a [|]]; try done. simpl. rewrite orb_false_r. eauto.
Qed.

Lemma route_shaped cfg s events pr t cur d :
  route_shape cfg s events pr t cur (d_outcome d) (route cfg s events pr t cur d).
Proof.
  unfold route. case_bool_decide as Ho; simpl;
    [|apply (route_stop _ _ _ _ _ _ _ (d_outcome d)); [by left|apply stop_shaped]].
  assert (∀ w, route_shape cfg s events pr t cur (d_outcome d)
                 (stop cfg s events pr t cur (MkDecision OutcomeHumanReview w))) as Hstop.
  { intros w. apply (route_stop _ _ _ _ _ _ _ OutcomeHumanReview); [by right|].
    apply (stop_shaped cfg s events pr t cur (MkDecision OutcomeHumanReview w)). }
  destruct (negb (bool_decide (missingRequiredLabel _ _ = "")) && _) eqn:Hm; [apply Hstop|].
  destruct (approvalEpochAtOccurrence _ _ _) as [approval []] eqn:Ha; simpl; [|apply route_none].
  destruct (Z.eqb_spec approval (rm_Approval (pub_marker cur))) as [->|]; simpl; [|apply route_none].
  destruct (approvalChangesAfterEpoch _ _ _) as [[rem newer] []] eqn:Hc; simpl; [|apply route_none].
  destruct (Z.eqb_spec newer 0) as [->|]; simpl; [|rewrite Ho; by apply route_record].
  destruct rem; [apply route_none|].
  destruct (bool_decide (pr_Head pr = _)) eqn:Hh; simpl; [|apply route_none].
  destruct (bool_decide (pr_BaseSHA pr = _)) eqn:Hb; simpl; [|apply route_none].
  split_bools.
  destruct (Z.eqb_spec (ClaimEpoch events (cfg_Principal cfg)) (rm_Claim (pub_marker cur))) as [He|];
    simpl; [|destruct (unassignedAfterClaim _ _ _); [by apply route_record|apply Hstop]].
  destruct (containsLogin _ _) eqn:Hl; simpl; [|apply route_none].
  destruct (_ =? 1)%nat eqn:Hn; simpl; [|apply Hstop].
  apply route_unassign; [done|]. split_and!; try done.
  - by apply containsLogin_sole.
  - apply andb_false_iff in Hm as [Hm|Hm]; [left|right]; split_bools; done.
Qed.

(** What opening a round rests on. *)
Definition review_ok cfg s events (pr : PullRequest) t (claim approval : Z)
    (profile : string) : Prop :=
  missingRequiredLabel (iss_Labels (sn_Issue s)) (cfg_RequiredLabels cfg) = ""
  ∧ ClaimEpoch events (cfg_Principal cfg) = claim ∧ claim ≠ 0
  ∧ approval_in_force cfg events (tr_Occurrence t) approval
  ∧ SelectReviewerProfile cfg (iss_Labels (sn_Issue s)) = Ok profile.

Lemma begin_shaped cfg s events pr t claim why :
  (∃ w, beginReview cfg s events pr t claim why = nothing w) ∨
  ∃ w approval profile,
    review_ok cfg s events pr t claim approval profile ∧
    beginReview cfg s events pr t claim why =
      MkStep StepReview w pr (tr_Occurrence t) claim (pr_Head pr) approval profile
        OutcomeUnset "" "" "".
Proof.
  unfold beginReview, review_ok, approval_in_force. case_bool_decide as Hm; simpl; [|eauto].
  destruct (Z.eqb_spec (ClaimEpoch events (cfg_Principal cfg)) 0) as [|H0]; [eauto|].
  destruct (Z.eqb_spec (ClaimEpoch events (cfg_Principal cfg)) claim) as [<-|]; simpl; [|eauto].
  destruct (approvalEpochAtOccurrence _ _ _) as [approval []] eqn:Ha; simpl; [|eauto].
  destruct (approvalChangesAfterEpoch _ _ _) as [[rem newer] []] eqn:Hc; simpl; [|eauto].
  destruct (Z.eqb_spec newer 0) as [->|]; simpl; [|eauto].
  destruct rem; [eauto|].
  destruct (SelectReviewerProfile _ _) as [profile|] eqn:Hp; [|eauto].
  right. eexists _, approval, profile. split_and!; done.
Qed.
End parts.

(** ** Terminal intents *)

Section intents.
Context {T : GoTables}.
Implicit Types (cfg : Config) (s : Snapshot) (events : list Event) (m : RouteIntentMarker).

(** An intent comment of the controller for an occurrence without a route. *)
Definition open_intent cfg (comments : list Comment) m : Prop :=
  (∃ c, c ∈ comments ∧ eqFold (com_Author c) (cfg_Controller cfg) = true
    ∧ ParseRouteIntentMarker (com_Body c) = Ok m)
  ∧ routeFor cfg comments (ri_Occurrence m) = None.

Lemma routeExists_false cfg comments occ :
  routeExists cfg comments occ = false ↔ routeFor cfg comments occ = None.
Proof. unfold routeExists. by destruct (routeFor _ _ _). Qed.

Lemma intents_loop_open cfg all comments seen conflicted ordered :
  (∀ c, c ∈ comments → c ∈ all) → Forall (open_intent cfg all) ordered →
  Forall (open_intent cfg all) (intents_loop cfg all comments seen conflicted ordered).2.
Proof.
  revert seen conflicted ordered.
  induction comments as [|c rest IH]; intros seen conflicted ordered Hsub Ho; simpl; [done|].
  assert (∀ x, x ∈ rest → x ∈ all) as Hsub' by set_solver.
  destruct (eqFold _ _) eqn:Ha; simpl; [|by apply IH].
  destruct (ParseRouteIntentMarker (com_Body c)) as [m|] eqn:Hp; [|by apply IH].
  destruct (routeExists _ _ _) eqn:Hr; [by apply IH|]. apply routeExists_false in Hr.
  destruct (seen !! _); apply IH; try done. apply Forall_app. split; [done|].
  apply Forall_singleton. split; [|done]. exists c. split_and!; [set_solver|done..].
Qed.

Lemma resume_open cfg s events st :
  resumeTerminalIntent cfg s events = Some st →
  ∃ conflicted m, open_intent cfg (sn_Comments s) m ∧ st = resume_intent cfg s events conflicted m.
Proof.
  unfold resumeTerminalIntent.
  pose proof (intents_loop_open cfg (sn_Comments s) (sn_Comments s) ∅ ∅ []) as Ho.
  destruct (intents_loop _ _ _ _ _ _) as [conflicted ordered]. simpl in Ho.
  destruct (stable_sort intent_lt ordered) as [|m l] eqn:Hs; [done|]. intros [= <-].
  exists conflicted, m. split; [|done].
  assert (m ∈ ordered) as Hm.
  { rewrite <-(stable_sort_perm intent_lt ordered), Hs. set_solver. }
  specialize (Ho ltac:(done) ltac:(constructor)). rewrite Forall_forall in Ho. auto.
Qed.

(** The answers a terminal intent may get. *)
Inductive intent_shape cfg s events m : Step → Prop :=
  | intent_none why : intent_shape cfg s events m (nothing why)
  | intent_record why :
      publishedOccurrenceOnLog events (ri_Occurrence m) (cfg_TrackerAuthor cfg) = true →
      claimEpochAtOccurrence events (cfg_Principal cfg) (ri_Occurrence m) = (ri_Claim m, true) →
      intent_shape cfg s events m
        (record (observedPR s) (MkTrigger (ri_Occurrence m) "" zero_time 0)
           (ri_Claim m) (ri_Head m) (ri_Outcome m) why)
  | intent_revoke why approval :
      publishedOccurrenceOnLog events (ri_Occurrence m) (cfg_TrackerAuthor cfg) = true →
      claimEpochAtOccurrence events (cfg_Principal cfg) (ri_Occurrence m) = (ri_Claim m, true) →
      approval_in_force cfg events (ri_Occurrence m) approval →
      hasLabel (iss_Labels (sn_Issue s)) (cfg_QueueLabel cfg) = true →
      intent_shape cfg s events m
        (MkStep StepRevoke why (observedPR s) (ri_Occurrence m) (ri_Claim m) (ri_Head m) 0 ""
           (ri_Outcome m) "" (cfg_QueueLabel cfg) (infoLabel cfg)).

Lemma finish_shaped cfg s events m approval :
  publishedOccurrenceOnLog events (ri_Occurrence m) (cfg_TrackerAuthor cfg) = true →
  claimEpochAtOccurrence events (cfg_Principal cfg) (ri_Occurrence m) = (ri_Claim m, true) →
  approvalEpochAtOccurrence events (cfg_RequiredLabels cfg) (ri_Occurrence m) = (approval, true) →
  intent_shape cfg s events m (finish_intent cfg s events m approval).
Proof.
  intros Hpub Hcl Ha. unfold finish_intent.
  destruct (approvalChangesAfterEpoch _ _ _) as [[rem newer] []] eqn:Hc; simpl; [|constructor].
  destruct (hasLabel _ _) eqn:Hl; simpl; [|by constructor].
  destruct (Z.eqb_spec newer 0) as [->|]; simpl; [|by constructor].
  destruct rem; [by constructor|]. by apply (intent_revoke _ _ _ _ _ approval).
Qed.

Lemma resume_shaped cfg s events conflicted m :
  intent_shape cfg s events m (resume_intent cfg s events conflicted m).
Proof.
  unfold resume_intent. case_bool_decide; [constructor|].
  destruct (publishedOccurrenceOnLog _ _ _) eqn:Hpub; simpl; [|constructor].
  destruct (claimEpochAtOccurrence _ _ _) as [claim []] eqn:Hcl; simpl; [|constructor].
  destruct (Z.eqb_spec claim (ri_Claim m)) as [->|]; simpl; [|constructor].
  destruct (approvalEpochAtOccurrence _ _ _) as [source []] eqn:Ha; simpl; [|constructor].
  destruct (Z.eqb_spec (ri_Approval m) source) as [->|]; [by apply finish_shaped|].
  destruct (labelEpochAtOccurrence _ _ _) as [queue legacy].
  destruct (negb legacy || _); [constructor|]. by apply finish_shaped.
Qed.
End intents.

(** ** Trusted reviews *)

Section trusted.
Context {T : GoTables}.
Implicit Types (cfg : Config) (s : Snapshot) (events : list Event).

Definition with_approval (m : ReviewMarker) (a : Z) : ReviewMarker :=
  MkReviewMarker (rm_Occurrence m) (rm_Claim m) a (rm_Head m) (rm_Base m) (rm_Verdict m)
    (rm_ReviewerProfile m).

(** [r] is a comment review of the controller whose body holds the marker [m],
    attached by the forge to the commit [m] names; a marker from before
    approvals were written takes the approval of its own occurrence. *)
Definition trusted_review cfg events (reviews : list Review) (r : Review) (m : ReviewMarker)
    : Prop :=
  r ∈ reviews ∧ eqFold (rv_Author r) (cfg_Controller cfg) = true
  ∧ rv_State r = ReviewStateCommented ∧ rm_Head m = rv_CommitID r
  ∧ (ParseReviewMarker (rv_Body r) = Ok m ∧ rm_Approval m ≠ 0
     ∨ ∃ m0, ParseReviewMarker (rv_Body r) = Ok m0 ∧ rm_Approval m0 = 0
         ∧ m = with_approval m0
                 (approvalEpochAtOccurrence events (cfg_RequiredLabels cfg) (rm_Occurrence m0)).1
         ∧ rm_Approval m ≠ 0).

Lemma controllerReviews_trusted cfg events reviews from p :
  p ∈ controllerReviews cfg events reviews from →
  pub_zero p = false ∧ trusted_review cfg events reviews (pub_review p) (pub_marker p).
Proof.
  unfold controllerReviews. intros (r & Hr & Hf)%list_elem_of_omap.
  destruct (negb (eqFold _ _) || _) eqn:Hg; [done|]. split_bools.
  destruct (time_before _ _); [done|].
  destruct (ParseReviewMarker (rv_Body r)) as [m|] eqn:Hp; [|done].
  destruct (negb _) eqn:Hh; [done|]. split_bools.
  destruct (Z.eqb_spec (rm_Approval m) 0) as [Ha|Ha].
  - destruct (Z.eqb_spec (approvalEpochAtOccurrence events (cfg_RequiredLabels cfg)
      (rm_Occurrence m)).1 0) as [|Hne]; [done|]. injection Hf as <-. split; [done|].
    split_and!; try done. right. exists m. by split_and!.
  - injection Hf as <-. split; [done|]. split_and!; try done. by left.
Qed.

Lemma trusted_wf cfg events reviews r m :
  trusted_review cfg events reviews r m →
  event_id (rm_Occurrence m) ∧ event_id (rm_Claim m) ∧ isFullSHA (rm_Head m) = true
  ∧ isFullSHA (rm_Base m) = true ∧ rm_Verdict m ≠ VerdictUnset
  ∧ (rm_ReviewerProfile m = "" ∨ ValidReviewerProfile (rm_ReviewerProfile m) = true).
Proof.
  intros (_ & _ & _ & _ & [[Hp _]|(m0 & Hp & _ & -> & _)]);
    apply ParseReviewMarker_sound in Hp as [Hw|[_ Hw]]; unfold wf_review_marker in Hw;
    simpl in *; naive_solver.
Qed.

Lemma find_elem {A} (f : A → bool) l x : find f l = Some x → x ∈ l ∧ f x = true.
Proof. intros H. apply find_some in H as [H ?]. split; [by apply list_elem_of_In|done]. Qed.
End trusted.

(** ** Completed routes *)

Section completed.
Context {T : GoTables}.
Implicit Types (cfg : Config) (events : list Event).

(** A landed mutation that ends a cycle: the controller took the queue label
    off, or the principal was unassigned. *)
Definition route_mutation cfg (ev : Event) : bool :=
  is_type ev EventUnlabeled && eqFold (ev_Actor ev) (cfg_Controller cfg)
    && eqFold (ev_Label ev) (cfg_QueueLabel cfg)
  || is_type ev EventUnassigned && eqFold (ev_Assignee ev) (cfg_Principal cfg).

Lemma later_review_elem occ claim approval to reviews latest p :
  foldl (later_review occ claim approval to) latest reviews = Some p →
  latest = Some p ∨ p ∈ reviews ∧ matches_occurrence occ claim approval p = true
    ∧ rv_SubmittedAt (pub_review p) ≤ to.
Proof.
  revert latest. induction reviews as [|q reviews IH]; intros latest; simpl; [auto|].
  intros H. apply IH in H as [H|(? & ?)]; [|right; split; [by right|done]].
  unfold later_review in H.
  destruct (negb (matches_occurrence _ _ _ _) || _) eqn:Hg; [auto|]. split_bools.
  unfold time_after in *.
  destruct latest as [l|]; [destruct ((_ <? _) || _); [|auto]|];
    injection H as ->; right; (split_and!; [by left|done|lia]).
Qed.

Lemma outcomeFor_set cfg reviews m : d_outcome (outcomeFor cfg reviews m) ≠ OutcomeUnset.
Proof. unfold outcomeFor. case_bool_decide; [done|]. by destruct (_ <=? _). Qed.

Lemma completed_sound cfg comments triggers events reviews done :
  completedUnroutedRoute cfg comments triggers events reviews = Some done →
  cr_trigger done ∈ triggers
  ∧ routeFor cfg comments (tr_Occurrence (cr_trigger done)) = None
  ∧ claimEpochAtOccurrence events (cfg_Principal cfg) (tr_Occurrence (cr_trigger done))
    = (cr_claim done, true)
  ∧ cr_outcome done ≠ OutcomeUnset
  ∧ ∃ ev p, ev ∈ events ∧ route_mutation cfg ev = true ∧ p ∈ reviews
      ∧ rm_Occurrence (pub_marker p) = tr_Occurrence (cr_trigger done)
      ∧ rm_Claim (pub_marker p) = cr_claim done ∧ rm_Head (pub_marker p) = cr_head done
      ∧ rv_SubmittedAt (pub_review p) ≤ ev_CreatedAt ev.
Proof.
  unfold completedUnroutedRoute. intros (t & Ht & Hf)%find_map_Some_elem.
  destruct (routeExists _ _ _) eqn:Hr; [done|]. apply routeExists_false in Hr.
  destruct (publishedPositions cfg triggers events !! tr_Occurrence t); [|done].
  destruct (claimEpochAtOccurrence _ _ _) as [claim []] eqn:Hc; simpl in Hf; [|done].
  destruct (approvalEpochAtOccurrence _ _ _) as [approval []]; simpl in Hf; [|done].
  apply find_map_Some_elem in Hf as ([i ev] & Hin & Hf).
  apply elem_of_lookup_imap in Hin as (j & ev' & [= -> ->] & Hev%list_elem_of_lookup_2).
  unfold completed_by in Hf. destruct (negb _ && negb _) eqn:Hmut; [done|].
  assert (route_mutation cfg ev' = true) as Hmut'.
  { apply andb_false_iff in Hmut. unfold route_mutation. apply orb_true_iff.
    destruct Hmut as [Hmut|Hmut]; apply negb_false_iff in Hmut; auto. }
  destruct (publicationBeforeMutation _ _ _ _) as [owner|]; [|done].
  destruct (negb (_ =? _)); [done|].
  destruct (latestReviewForOccurrenceThrough _ _ _ _ _) as [p|] eqn:Hl; [|done].
  apply later_review_elem in Hl as [?|(Hp & Hm & Hle)]; [done|].
  unfold matches_occurrence in Hm. split_bools.
  pose proof (outcomeFor_set cfg (through (forApproval (since reviews
    (cycleStartAtOccurrence cfg events (tr_Occurrence t))) approval) (ev_CreatedAt ev'))
    (pub_marker p)) as Ho.
  destruct (is_type ev' EventUnlabeled && _ && _).
  - injection Hf as <-. simpl. split_and!; try done; [by case_bool_decide|].
    exists ev', p. split_and!; try done; lia.
  - case_bool_decide; [|done]. case_bool_decide; simpl in Hf; [|done].
    injection Hf as <-. simpl. split_and!; try done.
    exists ev', p. split_and!; try done; lia.
Qed.

Lemma milestones_loop_id cfg comments seen t :
  t ∈ milestones_loop cfg comments seen → event_id (tr_Occurrence t).
Proof.
  revert seen. induction comments as [|c rest IH]; intros seen; simpl; [set_solver|].
  destruct (negb _); [apply IH|].
  destruct (PublishedOccurrence (com_Body c)) as [occ|] eqn:Ho; [|apply IH].
  destruct (publishedPRLink _); [|apply IH]. case_bool_decide; [apply IH|].
  intros [->|?]%elem_of_cons; [simpl|by eapply IH].
  unfold PublishedOccurrence in Ho. destruct (parseMarker _ _); [|done].
  destruct (negb _); [done|]. by eapply field_id_sound.
Qed.

Lemma publishedMilestones_id cfg comments t :
  t ∈ publishedMilestones cfg comments → event_id (tr_Occurrence t).
Proof.
  unfold publishedMilestones. rewrite stable_sort_perm. apply milestones_loop_id.
Qed.
End completed.

(** ** Every answer of the reducer *)

Section shape.
Context {T : GoTables}.
Implicit Types (cfg : Config) (s : Snapshot).

(** The delivery the reducer answers for: the newest published milestone,
    confirmed on the log, not yet routed, validated against the pull request,
    under the claim and the approval that stood when it was published. *)
Definition live_delivery cfg s (profile : string) (t : Trigger) (pr : PullRequest)
    (claim approval : Z) : Prop :=
  let events := SortEvents (sn_Events s) in
  Validate cfg = None
  ∧ SelectReviewerProfile cfg (iss_Labels (sn_Issue s)) = Ok profile
  ∧ iss_Closed (sn_Issue s) = false
  ∧ LatestPublished cfg (sn_Comments s) = Some t
  ∧ publishedOccurrenceOnLog events (tr_Occurrence t) (cfg_TrackerAuthor cfg) = true
  ∧ routeFor cfg (sn_Comments s) (tr_Occurrence t) = None
  ∧ claimEpochAtOccurrence events (cfg_Principal cfg) (tr_Occurrence t) = (claim, true)
  ∧ sn_PR s = Some pr ∧ validateSubject cfg t (Some pr) = None
  ∧ approvalEpochAtOccurrence events (cfg_RequiredLabels cfg) (tr_Occurrence t) = (approval, true).

Definition trusted cfg s : list published :=
  controllerReviews cfg (SortEvents (sn_Events s)) (sn_Reviews s) zero_time.

(** The heads this approval cycle has reviewed. *)
Definition cycle_heads cfg s (t : Trigger) (approval : Z) : list string :=
  distinctHeads (forApproval (since (trusted cfg s)
    (cycleStartAtOccurrence cfg (SortEvents (sn_Events s)) (tr_Occurrence t))) approval).

Inductive delivery_shape cfg s (profile : string) (t : Trigger) (pr : PullRequest)
    (claim approval : Z) : Step → Prop :=
  | delivery_routed cur o st :
      cur ∈ trusted cfg s → matches_occurrence (tr_Occurrence t) claim approval cur = true →
      rm_Head (pub_marker cur) = pr_Head pr → rm_Base (pub_marker cur) = pr_BaseSHA pr →
      rm_ReviewerProfile (pub_marker cur) ∈ [""; profile] →
      o ≠ OutcomeUnset →
      (o = OutcomeRevise → rm_Verdict (pub_marker cur) ≠ VerdictClean ∧
         Z.of_nat (length (cycle_heads cfg s t approval)) < cfg_RoundCap cfg) →
      route_shape cfg s (SortEvents (sn_Events s)) pr t cur o st →
      delivery_shape cfg s profile t pr claim approval st
  | delivery_unreviewed o st :
      o ∈ [OutcomeHumanReview; OutcomeNoProgress; OutcomeRoundCap] →
      stop_shape cfg s (SortEvents (sn_Events s)) t claim (pr_Head pr) o false st →
      delivery_shape cfg s profile t pr claim approval st
  | delivery_opened st why w approval' profile' :
      reviewFor (trusted cfg s) (tr_Occurrence t) claim approval (pr_Head pr) (pr_BaseSHA pr) = None →
      (∃ prior, reviewForHead (trusted cfg s) (tr_Occurrence t) claim approval (pr_Head pr)
                = Some prior) ∨
      pr_Head pr ∉ cycle_heads cfg s t approval ∧
      Z.of_nat (length (cycle_heads cfg s t approval)) < cfg_RoundCap cfg →
      review_ok cfg s (SortEvents (sn_Events s)) pr t claim approval' profile' →
      st = beginReview cfg s (SortEvents (sn_Events s)) pr t claim why →
      st = MkStep StepReview w pr (tr_Occurrence t) claim (pr_Head pr) approval' profile'
             OutcomeUnset "" "" "" →
      delivery_shape cfg s profile t pr claim approval st.

Lemma delivery_none cfg s profile t pr claim approval why :
  delivery_shape cfg s profile t pr claim approval (nothing why).
Proof. apply (delivery_unreviewed _ _ _ _ _ _ _ OutcomeHumanReview); [set_solver|constructor]. Qed.

Lemma unreviewed_route cfg s profile t pr claim approval o w :
  o ∈ [OutcomeNoProgress; OutcomeRoundCap] →
  delivery_shape cfg s profile t pr claim approval
    (route cfg s (SortEvents (sn_Events s)) pr t (unreviewed claim) (MkDecision o w)).
Proof.
  intros Ho. unfold route. simpl. rewrite bool_decide_eq_false_2 by set_solver. simpl.
  apply (delivery_unreviewed _ _ _ _ _ _ _ o); [set_solver|].
  apply (stop_shaped cfg s (SortEvents (sn_Events s)) pr t (unreviewed claim) (MkDecision o w)).
Qed.

Lemma outcomeFor_revise cfg reviews m :
  d_outcome (outcomeFor cfg reviews m) = OutcomeRevise →
  rm_Verdict m ≠ VerdictClean ∧ Z.of_nat (length (distinctHeads reviews)) < cfg_RoundCap cfg.
Proof. unfold outcomeFor. case_bool_decide; [done|]. destruct (Z.leb_spec (cfg_RoundCap cfg)
  (Z.of_nat (length (distinctHeads reviews)))); [done|]. auto. Qed.

Lemma reduce_subject_shaped cfg s profile t pr claim approval :
  delivery_shape cfg s profile t pr claim approval
    (reduce_subject cfg s profile (SortEvents (sn_Events s)) (trusted cfg s) t pr claim approval).
Proof.
  unfold reduce_subject. destruct (reviewFor _ _ _ _ _ _) as [cur|] eqn:Hf.
  - apply find_elem in Hf as [Hin Hf]. split_bools.
    destruct (negb _ && negb _) eqn:Hp; [apply delivery_none|].
    eapply delivery_routed; [done..| |apply outcomeFor_set|apply outcomeFor_revise|apply route_shaped].
    apply andb_false_iff in Hp as [Hp|Hp]; split_bools; rewrite Hp; set_solver.
  - destruct (mismatchedReviewForOccurrence _ _ _ _) as [bad|].
    { eapply delivery_unreviewed; [|apply (stop_shaped _ _ _ pr t (unreviewed claim))]. set_solver. }
    destruct (reviewForHead _ _ _ _ _) as [prior|] eqn:Hh.
    { destruct (begin_shaped cfg s (SortEvents (sn_Events s)) pr t claim
        ("base moved from " +:+ short (rm_Base (pub_marker prior)) +:+ " to "
         +:+ short (pr_BaseSHA pr) +:+ " while occurrence " +:+ itoa (tr_Occurrence t)
         +:+ " still names head " +:+ short (pr_Head pr)
         +:+ "; reviewing the current diff without consuming another head round"))
        as [[w ->]|(w & a & p & Hok & Hst)]; [apply delivery_none|].
      eapply delivery_opened; eauto. }
    unfold containsHead. case_bool_decide as Hc; [apply unreviewed_route; set_solver|].
    destruct (Z.leb_spec (cfg_RoundCap cfg) (Z.of_nat (length (distinctHeads (forApproval
      (since (trusted cfg s) (cycleStartAtOccurrence cfg (SortEvents (sn_Events s))
         (tr_Occurrence t))) approval))))); [apply unreviewed_route; set_solver|].
    match goal with |- context [beginReview cfg s ?ev pr t claim ?w] =>
      destruct (begin_shaped cfg s ev pr t claim w) as [[w' ->]|(w' & a & p & Hok & Hst)];
      [apply delivery_none|] end.
    eapply delivery_opened; eauto.
Qed.

(** Every answer of [Reduce], with what it was decided from. *)
Inductive reduce_shape cfg s : Step → Prop :=
  | reduce_none why : reduce_shape cfg s (nothing why)
  | reduce_intent m st :
      Validate cfg = None → open_intent cfg (sn_Comments s) m →
      intent_shape cfg s (SortEvents (sn_Events s)) m st → reduce_shape cfg s st
  | reduce_completed d :
      Validate cfg = None →
      completedUnroutedRoute cfg (sn_Comments s) (publishedMilestones cfg (sn_Comments s))
        (SortEvents (sn_Events s)) (trusted cfg s) = Some d →
      reduce_shape cfg s (record (observedPR s) (cr_trigger d) (cr_claim d) (cr_head d)
        (cr_outcome d) (cr_why d))
  | reduce_delivery profile t pr claim approval st :
      live_delivery cfg s profile t pr claim approval →
      delivery_shape cfg s profile t pr claim approval st → reduce_shape cfg s st.

Lemma Reduce_shaped cfg s : reduce_shape cfg s (Reduce cfg s).
Proof.
  unfold Reduce. destruct (Validate cfg) eqn:Hv; [constructor|].
  destruct (SelectReviewerProfile _ _) as [profile|] eqn:Hp; [|constructor].
  destruct (resumeTerminalIntent _ _ _) as [st|] eqn:Hr.
  { apply resume_open in Hr as (cf & m & Ho & ->).
    by apply (reduce_intent _ _ m); [..|apply resume_shaped]. }
  destruct (completedUnroutedRoute _ _ _ _ _) as [d|] eqn:Hd; [by apply reduce_completed|].
  destruct (iss_Closed _) eqn:Hcl; [constructor|].
  destruct (last _) as [t|] eqn:Ht; [|constructor].
  unfold reduce_latest. destruct (publishedOccurrenceOnLog _ _ _) eqn:Hpub; simpl; [|constructor].
  destruct (routeFor _ _ _) eqn:Hro; [constructor|].
  destruct (claimEpochAtOccurrence _ _ _) as [claim []] eqn:Hc; simpl; [|constructor].
  destruct (validateSubject _ _ _) eqn:Hs; [constructor|].
  destruct (approvalEpochAtOccurrence _ _ _) as [approval []] eqn:Ha; simpl; [|constructor].
  destruct (sn_PR s) as [pr|] eqn:Hpr; [|constructor].
  eapply (reduce_delivery _ _ profile t pr claim approval); [|apply reduce_subject_shaped].
  unfold live_delivery. by split_and!.
Qed.

(** A claim handed back after its assignment is no longer the claim epoch. *)
Lemma unassigned_loop_Some p claim events after :
  unassigned_loop p claim events after = true →
  (after = true ∧ ∃ u, u ∈ events ∧ unassigns p u = true) ∨
  ∃ l1 a l2 u, events = l1 ++ a :: l2 ∧ ev_ID a = claim ∧ assigns p a = true ∧ u ∈ l2
    ∧ unassigns p u = true.
Proof.
  revert after. induction events as [|ev events IH]; intros after; simpl; [done|].
  destruct after; simpl.
  - destruct (is_type ev EventUnassigned && _) eqn:Hu.
    + intros _. left. split; [done|]. exists ev. split; [by left|done].
    + intros [[_ (u & ? & ?)]|(l1 & a & l2 & u & -> & ?)]%IH.
      * left. split; [done|]. exists u. split; [by right|done].
      * right. by exists (ev :: l1), a, l2, u.
  - intros H. right. apply IH in H as [[Ha (u & ? & ?)]|(l1 & a & l2 & u & -> & ?)].
    + exists [], ev, events, u. split_bools. split_and!; try done; [lia|].
      unfold assigns. by apply andb_true_iff.
    + by exists (ev :: l1), a, l2, u.
Qed.

Lemma unassigned_not_epoch events p claim :
  Forall (λ ev, 0 < ev_ID ev) events → NoDup (ev_ID <$> events) →
  unassignedAfterClaim events p claim = true → ClaimEpoch events p ≠ claim.
Proof.
  intros Hpos Hnd [[? _]|(l1 & a & l2 & u & Hl & Ha & _ & Hu & Hun)]%unassigned_loop_Some Hc;
    [done|].
  assert (0 < claim) as Hcl.
  { rewrite Hl, Forall_app, Forall_cons in Hpos. destruct Hpos as (_ & ? & _). lia. }
  destruct (ClaimEpoch_cases p events) as [[? _]|(_ & a' & (k1 & k2 & Hk & _ & _ & Hn) & Ha')];
    [by eapply Forall_impl; [done|]; simpl; lia|lia|].
  rewrite Hc in Ha'.
  assert (k2 = l2) as ->; [|by rewrite Hn in Hun].
  assert (unique_at events claim l1 a l2 ∧ unique_at events claim k1 a' k2) as [H1 H2].
  { split; (split_and!; [done|done| |]); intros Hin;
      [rewrite Hl in Hnd|rewrite Hl in Hnd|rewrite Hk in Hnd|rewrite Hk in Hnd];
      rewrite fmap_app, fmap_cons in Hnd; apply NoDup_app in Hnd as (_ & Hd & Hnd);
      apply NoDup_cons in Hnd as [Hnd _]; [apply (Hd claim)|apply Hnd|apply (Hd claim)|apply Hnd];
      try done; [rewrite Ha|rewrite Ha|rewrite Ha'|rewrite Ha']; set_solver. }
  by destruct (unique_at_inj _ _ _ _ _ _ _ _ H1 H2) as (_ & _ & ->).
Qed.
End shape.

(** ** The authority of a step *)

Section authority.
Context {T : GoTables}.
Implicit Types (cfg : Config) (s : Snapshot).

(** What [Validate] refuses, for the facts the reducer leans on. *)
Lemma Validate_policy cfg :
  Validate cfg = None →
  eqFold (cfg_Controller cfg) (cfg_Principal cfg) = false
  ∧ reservedQueueLabel cfg = false
  ∧ hasLabel (cfg_RequiredLabels cfg) (cfg_QueueLabel cfg) = true
  ∧ (cfg_AddHumanReviewLabel cfg = true →
     hasLabel (cfg_RequiredLabels cfg) HumanReviewLabel = false
     ∧ eqFold HumanReviewLabel (cfg_QueueLabel cfg) = false)
  ∧ 1 ≤ cfg_RoundCap cfg ∧ 0 < cfg_Issue cfg.
Proof.
  unfold Validate. intros Hv.
  destruct (negb _); [done|]. destruct (bool_decide _); [done|].
  destruct (validateRequiredLabels _ _ _); [done|].
  destruct (Z.leb_spec (cfg_Issue cfg) 0); [done|].
  destruct (Z.ltb_spec (cfg_RoundCap cfg) 1); [done|].
  destruct (validateReviewerProfiles cfg); [done|].
  destruct (reservedQueueLabel cfg); [done|].
  destruct (eqFold (cfg_Controller cfg) (cfg_Principal cfg)); [done|].
  destruct (_ && negb (cfg_AllowSharedTrackerController cfg)); [done|].
  destruct (cfg_AddHumanReviewLabel cfg && _) eqn:Hq; [done|].
  destruct (hasLabel (cfg_RequiredLabels cfg) (cfg_QueueLabel cfg)); [|done]. simpl in Hv.
  destruct (cfg_AddHumanReviewLabel cfg && hasLabel _ _) eqn:Hh; [done|].
  split_and!; [reflexivity..| |lia|lia]. intros Hadd. rewrite Hadd, andb_true_l in Hq, Hh.
  split; assumption.
Qed.

(** The writes a step may name. *)
Definition step_authority cfg s (st : Step) : Prop :=
  (st_Principal st = "" ∨
     st_Kind st = StepUnassign ∧ st_Principal st = cfg_Principal cfg
     ∧ eqFold (cfg_Controller cfg) (st_Principal st) = false)
  ∧ (st_RemoveLabel st = "" ∨
     st_Kind st = StepRevoke ∧ st_RemoveLabel st = cfg_QueueLabel cfg
     ∧ hasLabel (iss_Labels (sn_Issue s)) (st_RemoveLabel st) = true
     ∧ reservedQueueLabel cfg = false)
  ∧ (st_AddLabel st = "" ∨
     st_Kind st = StepRevoke ∧ st_AddLabel st = HumanReviewLabel
     ∧ hasLabel (cfg_RequiredLabels cfg) (st_AddLabel st) = false).

Lemma silent_authority cfg s st :
  st_Principal st = "" → st_RemoveLabel st = "" → st_AddLabel st = "" → step_authority cfg s st.
Proof. intros. split_and!; by left. Qed.

Lemma revoke_authority cfg s why pr occ claim head o :
  Validate cfg = None → hasLabel (iss_Labels (sn_Issue s)) (cfg_QueueLabel cfg) = true →
  step_authority cfg s (MkStep StepRevoke why pr occ claim head 0 "" o ""
    (cfg_QueueLabel cfg) (infoLabel cfg)).
Proof.
  intros Hv Hl. apply Validate_policy in Hv as (_ & Hq & _ & Hh & _). unfold step_authority; simpl.
  split_and!; [by left|right; by split_and!|]. unfold infoLabel.
  destruct (cfg_AddHumanReviewLabel cfg); [right|by left]. destruct (Hh eq_refl). by split_and!.
Qed.

Lemma stop_authority cfg s events t claim head o reviewed st :
  Validate cfg = None → stop_shape cfg s events t claim head o reviewed st →
  step_authority cfg s st.
Proof.
  intros Hv [why|why pr approval ? ?|why pr ?|why pr approval ? ? Hl].
  1-3: by apply silent_authority. by apply revoke_authority.
Qed.

(** The reducer's permission model. Whatever the observation, a step removes
    no assignee but the claim principal (never the controller itself) and only
    to hand a claim back; removes no label but the queue label, which is on the
    issue and never one of BEN's state labels; and adds no label but the fixed
    informational one, which is never a required label, so the controller cannot
    approve. *)
Theorem reduce_authority (cfg : Config) (s : Snapshot) : step_authority cfg s (Reduce cfg s).
Proof.
  destruct (Reduce_shaped cfg s) as [why|m st Hv _ Hi|d Hv _|profile t pr claim approval st Hl Hd].
  - by apply silent_authority.
  - destruct Hi; try by apply silent_authority. by apply revoke_authority.
  - by apply silent_authority.
  - destruct Hl as (Hv & _).
    destruct Hd as [cur o st ??????? Hr|o st _ Hs|st why w a p _ _ _ _ ->].
    + destruct Hr as [o' st _ Hs|why _|why _ _]; [by eapply stop_authority|by apply silent_authority|].
      apply Validate_policy in Hv as [Hne _]. split_and!; [right; by split_and!|by left..].
    + by eapply stop_authority.
    + by apply silent_authority.
Qed.

(** ** A routed occurrence is settled *)

Lemma Reduce_unrouted cfg s :
  st_Kind (Reduce cfg s) ≠ StepNothing →
  routeFor cfg (sn_Comments s) (st_Occurrence (Reduce cfg s)) = None.
Proof.
  destruct (Reduce_shaped cfg s) as [why|m st _ [_ Hr] Hi|d _ Hd|profile t pr claim approval st Hl Hd].
  - done.
  - by destruct Hi.
  - by apply completed_sound in Hd as (_ & ? & _).
  - destruct Hl as (_ & _ & _ & _ & _ & Hr & _).
    destruct Hd as [cur o st ??????? Hs|o st _ Hs|st why w a p _ _ _ _ ->]; [|by destruct Hs|done].
    destruct Hs as [o' st _ Hs|why _|why _ _]; [by destruct Hs|done..].
Qed.

(** An occurrence that carries a route marker is settled: every step that is
    not [StepNothing] is about an occurrence the issue holds no route for, so no
    redelivery, reapproval or restart makes the controller act on it again. *)
Theorem reduce_never_twice (cfg : Config) (s : Snapshot) (occ : Z) :
  is_Some (routeFor cfg (sn_Comments s) occ) →
  st_Kind (Reduce cfg s) = StepNothing ∨ st_Occurrence (Reduce cfg s) ≠ occ.
Proof.
  intros [r Hr]. destruct (decide (st_Kind (Reduce cfg s) = StepNothing)) as [?|Hn]; [by left|right].
  intros <-. by rewrite Reduce_unrouted in Hr.
Qed.
End authority.

Lemma reduce_never_twice_witness :
  st_Kind (Reduce ex_cfg ex_routed) = StepNothing ∨ st_Occurrence (Reduce ex_cfg ex_routed) ≠ 104.
Proof. apply (reduce_never_twice ex_cfg ex_routed 104). vm_compute. by eexists. Defined.

(** ** What stands behind each mutation *)

Section sound.
Context {T : GoTables}.
Implicit Types (cfg : Config) (s : Snapshot).

(** The log as the forge keeps it: positive ids, no id twice. *)
Definition forge_log (events : list Event) : Prop :=
  Forall (λ ev, 0 < ev_ID ev) events ∧ NoDup (ev_ID <$> events).

Lemma forge_log_sorted events : forge_log events → forge_log (SortEvents events).
Proof. unfold forge_log. by rewrite SortEvents_perm. Qed.

(** The approval of a delivery stands, complete and unreplaced, at the end of the log. *)
Definition approval_stands cfg s (approval : Z) : Prop :=
  completeApprovalEpoch
    (standing_epochs (cfg_RequiredLabels cfg) (SortEvents (sn_Events s))) = (approval, true).

Lemma in_force_stands cfg s occ approval :
  forge_log (sn_Events s) →
  approval_in_force cfg (SortEvents (sn_Events s)) occ approval → approval_stands cfg s approval.
Proof.
  intros [Hpos _]%forge_log_sorted [_ H]. by apply approval_unchanged_end.
Qed.

(** A trusted review of exactly this delivery: occurrence, claim, approval, head, base. *)
Definition review_of cfg s (t : Trigger) (pr : PullRequest) (claim approval : Z)
    (m : ReviewMarker) : Prop :=
  (∃ r, trusted_review cfg (SortEvents (sn_Events s)) (sn_Reviews s) r m)
  ∧ rm_Occurrence m = tr_Occurrence t ∧ rm_Claim m = claim ∧ rm_Approval m = approval
  ∧ rm_Head m = pr_Head pr ∧ rm_Base m = pr_BaseSHA pr.

Lemma trusted_review_of cfg s t pr claim approval cur :
  cur ∈ trusted cfg s → matches_occurrence (tr_Occurrence t) claim approval cur = true →
  rm_Head (pub_marker cur) = pr_Head pr → rm_Base (pub_marker cur) = pr_BaseSHA pr →
  pub_zero cur = false ∧ review_of cfg s t pr claim approval (pub_marker cur).
Proof.
  intros [Hz Ht]%controllerReviews_trusted Hm Hh Hb. unfold matches_occurrence in Hm.
  split_bools. split; [done|]. split_and!; [eauto|lia..|done|done].
Qed.

(** C10: a claim is handed back only on evidence. When [Reduce] asks for
    [StepUnassign], the newest published delivery is live and validated, the
    controller's own review of exactly its occurrence, claim, approval, head and
    base requested changes, fewer than [RoundCap] heads were reviewed in the
    cycle, the approval has stood without a break and every required label is on
    the issue, the claim reviewed is the claim in force, and the principal is the
    only assignee. *)
Theorem unassign_sound (cfg : Config) (s : Snapshot) :
  forge_log (sn_Events s) → st_Kind (Reduce cfg s) = StepUnassign →
  ∃ profile t pr claim approval m,
    live_delivery cfg s profile t pr claim approval
    ∧ review_of cfg s t pr claim approval m ∧ rm_Verdict m = VerdictChangesRequested
    ∧ rm_ReviewerProfile m ∈ [""; profile]
    ∧ Z.of_nat (length (cycle_heads cfg s t approval)) < cfg_RoundCap cfg
    ∧ approval_stands cfg s approval
    ∧ missingRequiredLabel (iss_Labels (sn_Issue s)) (cfg_RequiredLabels cfg) = ""
    ∧ ClaimEpoch (SortEvents (sn_Events s)) (cfg_Principal cfg) = claim
    ∧ (∃ a, iss_Assignees (sn_Issue s) = [a] ∧ eqFold a (cfg_Principal cfg) = true)
    ∧ st_Occurrence (Reduce cfg s) = tr_Occurrence t ∧ st_Claim (Reduce cfg s) = claim
    ∧ st_Head (Reduce cfg s) = pr_Head pr.
Proof.
  intros Hlog Hk. pose proof (forge_log_sorted _ Hlog) as [Hpos Hnd].
  destruct (Reduce_shaped cfg s) as [why|m st _ _ Hi|d _ _|profile t pr claim approval st Hl Hd];
    [done|by destruct Hi|done|].
  destruct Hd as [cur o st Hin Hmo Hh Hb Hp _ Ho Hr|o st _ Hs|st why w a p _ _ _ _ ->];
    [|by destruct Hs|done].
  destruct (trusted_review_of cfg s t pr claim approval cur Hin Hmo Hh Hb) as [_ Hof].
  destruct Hr as [o' st _ Hs|why _|why Hrev Hok]; [by destruct Hs|done|].
  destruct (Ho Hrev) as [Hv Hcap]. destruct Hok as (Hforce & _ & _ & Hc & Ha & Hmiss).
  pose proof Hof as ([r Hr] & Ho1 & Hc1 & Ha1 & _).
  exists profile, t, pr, claim, approval, (pub_marker cur). rewrite Ha1 in Hforce.
  assert (rm_Verdict (pub_marker cur) ≠ VerdictUnset) by apply (trusted_wf _ _ _ _ _ Hr).
  split_and!; try done; try congruence.
  - by destruct (rm_Verdict (pub_marker cur)).
  - by eapply in_force_stands.
  - destruct Hmiss as [?|Hun]; [done|]. by eapply unassigned_not_epoch in Hc.
Qed.

(** C14: a review is performed only for work that is still wanted and within the
    budget. When [Reduce] asks for [StepReview], the newest published delivery is
    live and validated, its claim is the claim in force, its approval has stood
    without a break, every required label is on the issue, no review of exactly
    this head and base exists, and either the cycle has reviewed fewer than
    [RoundCap] heads and never this one, or this delivery's head was reviewed
    and only its base moved. *)
Theorem review_sound (cfg : Config) (s : Snapshot) :
  forge_log (sn_Events s) → st_Kind (Reduce cfg s) = StepReview →
  ∃ profile t pr claim approval,
    live_delivery cfg s profile t pr claim approval
    ∧ ClaimEpoch (SortEvents (sn_Events s)) (cfg_Principal cfg) = claim
    ∧ approval_stands cfg s approval
    ∧ missingRequiredLabel (iss_Labels (sn_Issue s)) (cfg_RequiredLabels cfg) = ""
    ∧ reviewFor (trusted cfg s) (tr_Occurrence t) claim approval (pr_Head pr) (pr_BaseSHA pr) = None
    ∧ (pr_Head pr ∉ cycle_heads cfg s t approval
         ∧ Z.of_nat (length (cycle_heads cfg s t approval)) < cfg_RoundCap cfg
       ∨ ∃ prior, reviewForHead (trusted cfg s) (tr_Occurrence t) claim approval (pr_Head pr)
                    = Some prior ∧ rm_Base (pub_marker prior) ≠ pr_BaseSHA pr)
    ∧ st_Occurrence (Reduce cfg s) = tr_Occurrence t ∧ st_Claim (Reduce cfg s) = claim
    ∧ st_Head (Reduce cfg s) = pr_Head pr ∧ st_Approval (Reduce cfg s) = approval
    ∧ st_ReviewerProfile (Reduce cfg s) = profile.
Proof.
  intros Hlog Hk.
  destruct (Reduce_shaped cfg s) as [why|m st _ _ Hi|d _ _|profile t pr claim approval st Hl Hd];
    [done|by destruct Hi|done|].
  destruct Hd as [cur o st ??????? Hr|o st _ Hs|st why w a p Hnone Hround Hok _ ->];
    [|by destruct Hs|].
  { destruct Hr as [o' st _ Hs|why _|why Hrev Hok]; [by destruct Hs|done|done]. }
  destruct Hok as (Hmiss & Hc & _ & Hforce & Hprof).
  pose proof Hl as (_ & Hprof' & _ & _ & _ & _ & _ & _ & _ & Ha).
  assert (a = approval) as ->. { destruct Hforce as [Hforce _]. congruence. }
  exists profile, t, pr, claim, approval. split_and!; try done; [by eapply in_force_stands| |].
  - destruct Hround as [[prior Hprior]|Hround]; [right|by left]. exists prior. split; [done|].
    intros Hb. apply find_elem in Hprior as [Hin Hf].
    assert (∃ q, reviewFor (trusted cfg s) (tr_Occurrence t) claim approval (pr_Head pr)
                   (pr_BaseSHA pr) = Some q) as [q Hq]; [|congruence].
    unfold reviewFor in *. apply list_elem_of_In in Hin. eapply find_none in Hnone; [|done].
    simpl in Hnone. rewrite Hf, Hb, bool_decide_eq_true_2 in Hnone by done. done.
  - simpl. congruence.
Qed.

(** C15: a label is revoked only under the approval it belongs to. When [Reduce]
    asks for [StepRevoke], the step's occurrence is a publication by the tracker,
    its claim is the claim that stood there, its approval has stood without a
    break to the end of the log — so a newer human approval is never revoked —
    the queue label is on the issue, and the decision is already durable: either
    as the controller's terminal intent or as its review of the step's head. *)
Theorem revoke_sound (cfg : Config) (s : Snapshot) :
  forge_log (sn_Events s) → st_Kind (Reduce cfg s) = StepRevoke →
  let st := Reduce cfg s in
  let events := SortEvents (sn_Events s) in
  publishedOccurrenceOnLog events (st_Occurrence st) (cfg_TrackerAuthor cfg) = true
  ∧ claimEpochAtOccurrence events (cfg_Principal cfg) (st_Occurrence st) = (st_Claim st, true)
  ∧ (∃ approval,
       approvalEpochAtOccurrence events (cfg_RequiredLabels cfg) (st_Occurrence st) = (approval, true)
       ∧ approval_stands cfg s approval)
  ∧ hasLabel (iss_Labels (sn_Issue s)) (cfg_QueueLabel cfg) = true
  ∧ ((∃ m, open_intent cfg (sn_Comments s) m ∧ ri_Occurrence m = st_Occurrence st
            ∧ ri_Claim m = st_Claim st ∧ ri_Head m = st_Head st ∧ ri_Outcome m = st_Outcome st)
     ∨ ∃ r m, trusted_review cfg events (sn_Reviews s) r m
            ∧ rm_Occurrence m = st_Occurrence st ∧ rm_Claim m = st_Claim st
            ∧ rm_Head m = st_Head st).
Proof.
  intros Hlog Hk. simpl.
  destruct (Reduce_shaped cfg s) as [why|m st _ Ho Hi|d _ _|profile t pr claim approval st Hl Hd];
    [done| |done|].
  { destruct Hi as [|why|why approval Hpub Hcl Hf Hl]; [done..|]. simpl. split_and!; try done.
    - exists approval. split; [apply Hf|by eapply in_force_stands].
    - left. by exists m. }
  destruct Hd as [cur o st Hin Hmo Hh Hb _ _ _ Hr|o st _ Hs|st why w a p _ _ _ _ ->];
    [|by destruct Hs|done].
  destruct (trusted_review_of cfg s t pr claim approval cur Hin Hmo Hh Hb)
    as [Hz ([r Htr] & Ho1 & Hc1 & Ha1 & _)].
  destruct Hr as [o' st _ Hs|why _|why Hrev Hok]; [|done..].
  pose proof Hl as (_ & _ & _ & _ & Hpub & _ & Hcl & _).
  destruct Hs as [| | |why pr' a' _ Hf Hlab]; [done..|]. unfold pub_head. rewrite Hz. simpl.
  split_and!; try done; [congruence| |].
  - exists a'. split; [apply Hf|by eapply in_force_stands].
  - right. exists r, (pub_marker cur). done.
Qed.
End sound.

Lemma ex_log : forge_log ex_events.
Proof. split; [repeat constructor; lia|]. solve_decided. Defined.

Lemma ex_log_keyed x y : x ∈ ex_events → y ∈ ex_events → ev_ID x = ev_ID y → x = y.
Proof.
  unfold ex_events. rewrite !elem_of_cons, !elem_of_nil.
  intros [->|[->|[->|[->|[]]]]] [->|[->|[->|[->|[]]]]]; simpl; by intros.
Qed.

Lemma unassign_sound_witness :
  approval_stands ex_cfg ex_changes 102 ∧
  ∃ profile t pr claim approval m,
    live_delivery ex_cfg ex_changes profile t pr claim approval
    ∧ review_of ex_cfg ex_changes t pr claim approval m.
Proof.
  destruct (unassign_sound ex_cfg ex_changes ex_log ex_changes_step)
    as (profile & t & pr & claim & approval & m & Hl & Ho & _).
  split; [vm_compute; reflexivity|]. by exists profile, t, pr, claim, approval, m.
Defined.

Lemma review_sound_witness :
  ∃ profile t pr claim approval, live_delivery ex_cfg ex_fresh profile t pr claim approval
    ∧ st_Approval (Reduce ex_cfg ex_fresh) = approval.
Proof.
  destruct (review_sound ex_cfg ex_fresh ex_log ex_fresh_step)
    as (profile & t & pr & claim & approval & Hl & _ & _ & _ & _ & _ & _ & _ & _ & Ha & _).
  by exists profile, t, pr, claim, approval.
Defined.

Lemma revoke_sound_witness :
  publishedOccurrenceOnLog (SortEvents ex_events) (st_Occurrence (Reduce ex_cfg ex_clean))
    "ben-tracker" = true.
Proof. apply (revoke_sound ex_cfg ex_clean ex_log ex_clean_step). Defined.

(** ** Independence from order and from third parties *)

Section independence.
Context {T : GoTables}.
Implicit Types (cfg : Config) (s : Snapshot).

Definition with_events s (events : list Event) : Snapshot :=
  MkSnapshot (sn_Issue s) (sn_Comments s) events (sn_Reviews s) (sn_PR s).

(** The reducer's answer does not depend on the order in which the forge
    listed the change log: two observations whose logs are permutations of each
    other get the same step, reason included. *)
Theorem reduce_event_order (cfg : Config) (s : Snapshot) (events : list Event) :
  keyed_events (sn_Events s) → sn_Events s ≡ₚ events →
  Reduce cfg (with_events s events) = Reduce cfg s.
Proof.
  intros Hk Hp. destruct s as [iss comments evs reviews pr]; simpl in *.
  assert (SortEvents events = SortEvents evs) as Hs by (symmetry; by apply SortEvents_order).
  unfold Reduce, with_events; simpl. rewrite Hs. reflexivity.
Qed.

(** The part of an observation the controller and the tracker wrote. *)
Definition ours cfg (c : Comment) : Prop :=
  eqFold (com_Author c) (cfg_Controller cfg) = true
  ∨ eqFold (com_Author c) (cfg_TrackerAuthor cfg) = true.
#[global] Instance ours_dec cfg c : Decision (ours cfg c).
Proof. unfold ours. apply _. Defined.

Definition own_review cfg (r : Review) : Prop :=
  eqFold (rv_Author r) (cfg_Controller cfg) = true ∧ rv_State r = ReviewStateCommented.
#[global] Instance own_review_dec cfg r : Decision (own_review cfg r).
Proof. unfold own_review. apply _. Defined.

Definition own_view cfg s : Snapshot :=
  MkSnapshot (sn_Issue s) (filter (ours cfg) (sn_Comments s)) (sn_Events s)
    (filter (own_review cfg) (sn_Reviews s)) (sn_PR s).

Lemma milestones_loop_ours cfg comments seen :
  milestones_loop cfg (filter (ours cfg) comments) seen = milestones_loop cfg comments seen.
Proof.
  revert seen. induction comments as [|c rest IH]; intros seen; [done|].
  rewrite filter_cons. case_decide as Ho; simpl.
  - destruct (negb _); [done|]. destruct (PublishedOccurrence _); [|done].
    destruct (publishedPRLink _); [|done]. case_bool_decide; by rewrite ?IH.
  - destruct (eqFold (com_Author c) (cfg_TrackerAuthor cfg)) eqn:Ht; [|apply IH].
    exfalso. apply Ho. by right.
Qed.

Lemma routeFor_ours cfg comments occ :
  routeFor cfg (filter (ours cfg) comments) occ = routeFor cfg comments occ.
Proof.
  unfold routeFor. apply find_map_filter_id. intros c Ho.
  destruct (eqFold (com_Author c) (cfg_Controller cfg)) eqn:Ht; [|done].
  exfalso. apply Ho. by left.
Qed.

Lemma routeExists_ours cfg comments occ :
  routeExists cfg (filter (ours cfg) comments) occ = routeExists cfg comments occ.
Proof. unfold routeExists. by rewrite routeFor_ours. Qed.

Lemma intents_loop_ours cfg all comments seen conflicted ordered :
  intents_loop cfg (filter (ours cfg) all) (filter (ours cfg) comments) seen conflicted ordered
  = intents_loop cfg all comments seen conflicted ordered.
Proof.
  revert seen conflicted ordered. induction comments as [|c rest IH]; intros; [done|].
  rewrite filter_cons. case_decide as Ho; simpl.
  - destruct (negb _); [done|]. destruct (ParseRouteIntentMarker _); [|done].
    rewrite routeExists_ours. destruct (routeExists _ _ _); [done|]. by destruct (seen !! _).
  - destruct (eqFold (com_Author c) (cfg_Controller cfg)) eqn:Ht; [|apply IH].
    exfalso. apply Ho. by left.
Qed.

Lemma controllerReviews_own cfg events reviews from :
  controllerReviews cfg events (filter (own_review cfg) reviews) from
  = controllerReviews cfg events reviews from.
Proof.
  unfold controllerReviews. apply omap_filter_id. intros r Ho.
  destruct (eqFold (rv_Author r) (cfg_Controller cfg)) eqn:Ha; simpl; [|done].
  case_bool_decide as Hst; [|done]. exfalso. by apply Ho.
Qed.

Lemma completed_ours cfg comments triggers events reviews :
  completedUnroutedRoute cfg (filter (ours cfg) comments) triggers events reviews
  = completedUnroutedRoute cfg comments triggers events reviews.
Proof.
  unfold completedUnroutedRoute. apply find_map_ext. intros t _. by rewrite routeExists_ours.
Qed.

(** C36: nobody but the controller and the tracker can steer a review cycle by
    writing: dropping every comment by anyone else, and every review that is not
    a comment review by the controller, leaves the reducer's answer as it is.
    Forged markers, milestones and verdicts have no effect. *)
Theorem reduce_ignores_others (cfg : Config) (s : Snapshot) :
  Reduce cfg (own_view cfg s) = Reduce cfg s.
Proof.
  destruct s as [iss comments evs reviews pr]. unfold Reduce, own_view; simpl.
  rewrite controllerReviews_own, completed_ours.
  unfold publishedMilestones, resumeTerminalIntent; simpl.
  rewrite milestones_loop_ours, intents_loop_ours.
  destruct (Validate cfg); [done|]. destruct (SelectReviewerProfile _ _); [|done].
  destruct (intents_loop _ _ _ _ _ _) as [cf ordered].
  destruct (stable_sort intent_lt ordered); [|done].
  destruct (completedUnroutedRoute _ _ _ _ _); [done|]. destruct (iss_Closed iss); [done|].
  destruct (last _) as [t|]; [|done]. unfold reduce_latest; simpl. by rewrite routeFor_ours.
Qed.
End independence.

Lemma reduce_event_order_witness :
  Reduce ex_cfg (with_events ex_clean (reverse ex_events)) = Reduce ex_cfg ex_clean.
Proof.
  apply (reduce_event_order ex_cfg ex_clean).
  - intros x y Hx Hy _ Hid. revert x y Hx Hy Hid. apply ex_log_keyed.
  - symmetry. apply reverse_Permutation.
Defined.
