(* ===== verification/ReviewDriver.v ===== *)
(** * ReviewDriver: executing the reducer's steps against a forge

    Models [internal/reviewctl/driver.go] and the interfaces it is written
    against: [Forge] of [forge.go] and [Reviewer] of [reviewer.go]. The forge and
    the reviewer are type classes over an arbitrary world, so every theorem holds
    for every implementation of them. A run also keeps a trace of what it observed,
    what the reviewer answered and every write it attempted. *)

From S2P Require Import Prelude GoStd GoStdFacts Review ReviewMarker ReviewEpoch.
From S2P Require Import ReviewMilestone ReviewReduce ReviewVerdict.

(** ** Errors of the forge and the reviewer *)

(** An error of this package: its message and sentinels, the status of the
    [*httpError] in its chain, the reason and detail of the [*RefusedError] in it. *)
Record ferror := MkFerror {
  fe_err : error;
  fe_status : option Z;
  fe_refusal : option (string * string);
}.

Definition plain (e : error) : ferror := MkFerror e None None.

Definition errStop : error := errors_New "stop".
Definition ErrRateLimited : error :=
  errors_New "reviewctl: the forge declared a rate-limit backoff".
Definition ErrSweepBudget : error := errors_New "reviewctl: the sweep's request budget is spent".
Definition ErrRunRefused : error :=
  errors_New "reviewrun: the executor refused to admit this reviewer invocation; nothing was started".

(** [errors.Is]; a [*RefusedError] answers to [ErrRunRefused]. *)
Definition ferror_Is (e : ferror) (sentinel : error) : bool :=
  errors_Is (fe_err e) sentinel
  || bool_decide (sentinel = ErrRunRefused) && bool_decide (is_Some (fe_refusal e)).

Definition isNotFound (e : ferror) : bool := bool_decide (fe_status e = Some 404).

Definition RefusalOf (e : ferror) : option (string * string) :=
  match fe_refusal e with
  | Some (reason, detail) => if bool_decide (reason = "") then None else Some (reason, detail)
  | None => None
  end.

(** ** Interfaces *)

Notation "'fres' A" := (A + ferror)%type (at level 10).

(** The bounded review subject, [reviewrun.Subject]. *)
Record Subject := MkSubject {
  sub_Repository : string;
  sub_Issue : string;
  sub_Cycle : Z;
  sub_Occurrence : Z;
  sub_Claim : Z;
  sub_PR : Z;
  sub_TargetBranch : string;
  sub_Base : string;
  sub_Head : string;
  sub_Diff : string;
  sub_ReviewerProfile : string;
}.

Class Forge (W : Type) := {
  forge_Issue : Z → W → fres Issue * W;
  forge_Comments : Z → W → fres (list Comment) * W;
  forge_Events : Z → W → fres (list Event) * W;
  forge_PullRequest : Z → W → fres (option PullRequest) * W;
  forge_Reviews : Z → W → fres (list Review) * W;
  forge_Diff : string → string → W → fres string * W;
  forge_PublishReview : Z → string → string → W → fres unit * W;
  forge_Unassign : Z → string → W → fres unit * W;
  forge_RemoveLabel : Z → string → W → fres unit * W;
  forge_AddLabel : Z → string → W → fres unit * W;
  forge_PostComment : Z → string → W → fres unit * W;
  (** a slice may come with an error *)
  forge_Candidates : string → W → list Z * option ferror * W;
  forge_resetSweepBudget : W → W;
}.

Class Reviewer (W : Type) := {
  reviewer_Review : Subject → W → fres Report * W;
  reviewer_Retire : Subject → W → fres unit * W;
}.

(** ** The trace and the monad *)

Inductive Act :=
  | AObserve (s : Snapshot)
  | APublishReview (pr : Z) (commit body : string)
  | AUnassign (issue : Z) (login : string)
  | ARemoveLabel (issue : Z) (label : string)
  | AAddLabel (issue : Z) (label : string)
  | APostComment (issue : Z) (body : string)
  | AReview (sub : Subject) (answer : fres Report)
  | ARetire (sub : Subject).

Section monad.
Context {W : Type}.

Definition St : Type := W * list Act.
Definition M (A : Type) : Type := St → fres A * St.

#[export] Instance M_ret : MRet M := λ A a st, (inl a, st).
Definition fail {A} (e : ferror) : M A := λ st, (inr e, st).
#[export] Instance M_bind : MBind M := λ A B k m st,
  match m st with
  | (inl a, st') => k a st'
  | (inr e, st') => (inr e, st')
  end.
(** The call's error as a value, where the code inspects it. *)
Definition attempt {A} (m : M A) : M (fres A) := λ st, let '(r, st') := m st in (inl r, st').

Definition read {A} (f : W → fres A * W) : M A := λ st,
  let '(r, w) := f st.1 in (r, (w, st.2)).
Definition tell (a : Act) : M unit := λ st, (inl tt, (st.1, st.2 ++ [a])).
(** A call and its record on the trace, with its answer where the record keeps it. *)
Definition act_with {A} (a : fres A → Act) (f : W → fres A * W) : M A := λ st,
  let '(r, w) := f st.1 in (r, (w, st.2 ++ [a r])).
Definition act {A} (a : Act) (f : W → fres A * W) : M A := act_with (λ _, a) f.
End monad.
Arguments St : clear implicits.
Arguments M : clear implicits.

(** ** The driver *)

Definition diffTruncationNotice : string :=
  nl +:+ nl +:+ "*** truncated: this diff exceeds the controller's limit and is not complete ***" +:+ nl.

(** Slicing by a negative bound panics in Go; [New] admits only positive bounds. *)
Definition BoundDiff (diff : string) (maxBytes : Z) : string :=
  if str_len diff <=? maxBytes then diff
  else str_take (Z.to_nat maxBytes) diff +:+ diffTruncationNotice.

Definition maxSteps : nat := 6.

Record driver := MkDriver {
  dr_cfg : Config;
  dr_repository : string;
  dr_maxDiffBytes : Z;
  dr_dryRun : bool;
}.

Definition sameStep (a b : Step) : bool :=
  bool_decide (st_Kind a = st_Kind b) && (st_Occurrence a =? st_Occurrence b)
  && bool_decide (st_Head a = st_Head b) && bool_decide (pr_Base (st_PR a) = pr_Base (st_PR b))
  && bool_decide (pr_BaseSHA (st_PR a) = pr_BaseSHA (st_PR b))
  && bool_decide (st_Outcome a = st_Outcome b)
  && bool_decide (st_ReviewerProfile a = st_ReviewerProfile b).

Definition sameReviewSubject (confirm step : Step) : bool :=
  bool_decide (st_Kind confirm = StepReview) && (st_Occurrence confirm =? st_Occurrence step)
  && (st_Claim confirm =? st_Claim step) && (st_Approval confirm =? st_Approval step)
  && bool_decide (st_Head confirm = st_Head step)
  && bool_decide (pr_Base (st_PR confirm) = pr_Base (st_PR step))
  && bool_decide (pr_BaseSHA (st_PR confirm) = pr_BaseSHA (st_PR step))
  && bool_decide (st_ReviewerProfile confirm = st_ReviewerProfile step).

Definition step_intent (st : Step) : RouteIntentMarker :=
  MkIntent (st_Occurrence st) (st_Claim st) (st_Approval st) (st_Head st) (st_Outcome st).
Definition step_route (st : Step) : RouteMarker :=
  MkRouteMarker (st_Occurrence st) (st_Claim st) (st_Head st) (st_Outcome st).
Definition step_review (st : Step) (v : Verdict) : ReviewMarker :=
  MkReviewMarker (st_Occurrence st) (st_Claim st) (st_Approval st) (st_Head st)
    (pr_BaseSHA (st_PR st)) v (st_ReviewerProfile st).
Definition step_blocked (st : Step) (reason : string) : ReviewBlockedMarker :=
  MkBlocked (st_Occurrence st) (st_Claim st) (st_Approval st) (st_Head st) reason.

(** [driver.subject] *)
Definition subject (d : driver) (step : Step) (diff : string) : Subject :=
  MkSubject (dr_repository d) (itoa (cfg_Issue (dr_cfg d))) (st_Approval step)
    (st_Occurrence step) (st_Claim step) (pr_Number (st_PR step)) (pr_Base (st_PR step))
    (pr_BaseSHA (st_PR step)) (st_Head step) diff (st_ReviewerProfile step).

Section driver.
Context {T : GoTables} {W : Type} {F : Forge W} {R : Reviewer W}.
Implicit Type d : driver.

Definition observe_reads d : M W Snapshot :=
  let issue := cfg_Issue (dr_cfg d) in
  iss ← read (forge_Issue issue);
  comments ← read (forge_Comments issue);
  events ← read (forge_Events issue);
  let snap pr reviews := MkSnapshot iss comments events reviews pr in
  match LatestPublished (dr_cfg d) comments with
  | None => mret (snap None [])
  | Some trigger =>
      match ParsePRURL (tr_PRURL trigger) with
      | Err _ => mret (snap None [])
      | Ok (owner, repo, number) =>
          if negb (EqualFold owner (cfg_Owner (dr_cfg d)))
             || negb (EqualFold repo (cfg_Repo (dr_cfg d)))
          then mret (snap None [])
          else
            r ← attempt (read (forge_PullRequest number));
            match r with
            | inr e => if isNotFound e then mret (snap None []) else fail e
            | inl pr =>
                reviews ← read (forge_Reviews number);
                mret (snap pr reviews)
            end
      end
  end.

(** [observe], and its result on the trace. *)
Definition observe d : M W Snapshot :=
  snap ← observe_reads d; tell (AObserve snap) ;; mret snap.

Definition post d (body : string) : M W unit :=
  act (APostComment (cfg_Issue (dr_cfg d)) body) (forge_PostComment (cfg_Issue (dr_cfg d)) body).

Definition stop_run {A} : M W A := fail (plain errStop).

Definition surfaceRefusal d (snap : Snapshot) (step : Step) (e : ferror) : M W unit :=
  match RefusalOf e with
  | None => stop_run
  | Some (reason, detail) =>
      if negb (ValidBlockReason reason) then stop_run
      else
        let m := step_blocked step reason in
        let stated :=
          match BlockedReviewFor (dr_cfg d) (sn_Comments snap) (rb_Occurrence m) (rb_Head m) with
          | Some existing => bool_decide (rb_Reason existing = rb_Reason m)
          | None => false
          end in
        if (stated : bool) then stop_run
        else match ParseReviewBlockedMarker (blocked_marker_string m) with
        | Err pe => fail (plain (errorf_wrap
            "refusing to post a blocked-review statement that cannot be read back: " pe ""))
        | Ok _ => post d (ReviewBlockedBody m detail) ;; stop_run
        end
  end.

Definition performReview d (snap : Snapshot) (step : Step) : M W unit :=
  if bool_decide (pr_Base (st_PR step) = "") || bool_decide (pr_BaseSHA (st_PR step) = "")
  then fail (plain (errorf ("issue #" +:+ itoa (cfg_Issue (dr_cfg d)) +:+ ": pull request #"
         +:+ itoa (pr_Number (st_PR step))
         +:+ " reports no complete base, so there is no exact diff to review")))
  else
    diff ← read (forge_Diff (pr_BaseSHA (st_PR step)) (st_Head step));
    let sub := subject d step (BoundDiff diff (dr_maxDiffBytes d)) in
    r ← attempt (act_with (AReview sub) (reviewer_Review sub));
    match r with
    | inr e => if ferror_Is e ErrRunRefused then surfaceRefusal d snap step e else stop_run
    | inl report =>
        after ← observe d;
        if negb (sameReviewSubject (Reduce (dr_cfg d) after) step) then mret tt
        else
          let body := ReviewBody (step_review step (rep_Verdict report)) (rep_Findings report) in
          act (APublishReview (pr_Number (st_PR step)) (st_Head step) body)
              (forge_PublishReview (pr_Number (st_PR step)) (st_Head step) body) ;;
          attempt (act (ARetire sub) (reviewer_Retire sub)) ;; mret tt
    end.

Definition apply d (snap : Snapshot) (step : Step) : M W unit :=
  let issue := cfg_Issue (dr_cfg d) in
  match st_Kind step with
  | StepReview => performReview d snap step
  | StepUnassign =>
      act (AUnassign issue (st_Principal step)) (forge_Unassign issue (st_Principal step))
  | StepRevoke =>
      r ← attempt (act (ARemoveLabel issue (st_RemoveLabel step))
                        (forge_RemoveLabel issue (st_RemoveLabel step)));
      let add :=
        if bool_decide (st_AddLabel step = "") then mret tt
        else act (AAddLabel issue (st_AddLabel step)) (forge_AddLabel issue (st_AddLabel step)) in
      match r with
      | inr e => if negb (isNotFound e) then fail e else add
      | inl _ => add
      end
  | StepRecordIntent =>
      match ParseRouteIntentMarker (intent_marker_string (step_intent step)) with
      | Err pe => fail (plain (errorf_wrap
          "refusing to post a terminal route intent that cannot be read back: " pe ""))
      | Ok _ => post d (RouteIntentBody (step_intent step) (st_Why step))
      end
  | StepRecordRoute =>
      match ParseRouteMarker (route_marker_string (step_route step)) with
      | Err pe => fail (plain (errorf_wrap
          "refusing to post a route marker that cannot be read back: " pe ""))
      | Ok _ => post d (RouteBody (step_route step) (st_Why step))
      end
  | StepNothing => fail (plain (errorf ("unknown step " +:+ quote "nothing")))
  end.

(** The loop of [Run]; [last] is the previous step, absent in the first round. *)
Fixpoint run_loop d (rounds : nat) (last : option Step) : M W unit :=
  match rounds with
  | O => fail (plain (errorf ("issue #" +:+ itoa (cfg_Issue (dr_cfg d)) +:+ ": "
           +:+ itoa (Z.of_nat maxSteps)
           +:+ " steps without settling; something is re-driving the same decision")))
  | S rounds =>
      snap ← observe d;
      let step := Reduce (dr_cfg d) snap in
      if bool_decide (st_Kind step = StepNothing) then mret tt
      else if dr_dryRun d then mret tt
      else if (match last with Some prev => sameStep step prev | None => false end) then mret tt
      else
        r ← attempt (apply d snap step);
        match r with
        | inr e => if ferror_Is e errStop then mret tt else fail e
        | inl _ => run_loop d rounds (Some step)
        end
  end.

(** [driver.Run] *)
Definition Run d : M W unit := run_loop d maxSteps None.
End driver.
