(* ===== verification/ReviewDurable.v ===== *)
(** * ReviewDurable: the artifacts of a step are readable

    Every artifact a step makes the controller publish is a well-formed marker, so
    what one reconciliation writes the next one reads: recording a route settles
    its occurrence, and recording an intent is what the reducer resumes. *)

From S2P Require Import Prelude GoStd GoStdFacts Review ReviewMarker ReviewMarkerFacts.
From S2P Require Import ReviewEpoch ReviewEpochFacts ReviewMilestone ReviewReduce.
From S2P Require Import ReviewExamples ReviewReduceFacts ReviewVerdict ReviewDriver.

Section durable.
Context {T : GoTables}.
Implicit Types (cfg : Config) (s : Snapshot) (events : list Event).

(** Event ids are positive [int64]s, each on the log once. *)
Definition forge_ids (events : list Event) : Prop :=
  Forall (λ ev, event_id (ev_ID ev)) events ∧ NoDup (ev_ID <$> events).

Lemma forge_ids_log events : forge_ids events → forge_log events.
Proof. intros [H ?]. split; [|done]. eapply Forall_impl; [done|]. by intros ev []. Qed.

Lemma forge_ids_sorted events : forge_ids events → forge_ids (SortEvents events).
Proof. unfold forge_ids. by rewrite SortEvents_perm. Qed.

(** ** Epochs are ids of the log *)

Lemma claim_at_id events p occ claim :
  forge_ids events → claimEpochAtOccurrence events p occ = (claim, true) → event_id claim.
Proof.
  intros [Hid _]. unfold claimEpochAtOccurrence.
  destruct (replay_at _ _ _ _ _) as [e|] eqn:Hr; [|done]. intros [= -> Hpos].
  apply replay_at_Some in Hr as (pre & o & post & (-> & _) & ->).
  rewrite cons_middle, app_assoc, Forall_app in Hid. destruct Hid as [Hid _].
  destruct (ClaimEpoch_cases p (pre ++ [o])) as [[H0 _]|(_ & a & (l1 & l2 & Hl & _) & Ha)].
  - eapply Forall_impl; [done|]. unfold event_id. simpl. lia.
  - unfold ClaimEpoch in H0. lia.
  - unfold ClaimEpoch in Ha. rewrite <-Ha. rewrite Hl, Forall_app, Forall_cons in Hid. apply Hid.
Qed.

Lemma approval_at_id events required occ approval :
  forge_ids events → approvalEpochAtOccurrence events required occ = (approval, true) →
  event_id approval.
Proof.
  intros [Hid _] (pre & o & post & (-> & _) & Hc)%approval_at_Some.
  rewrite cons_middle, app_assoc, Forall_app in Hid. destruct Hid as [Hid _].
  apply complete_standing_spec in Hc as (_ & _ & i & e & (l1 & l2 & Hl & _) & <-).
  - rewrite Hl, Forall_app, Forall_cons in Hid. apply Hid.
  - eapply Forall_impl; [done|]. by intros ? [].
Qed.

(** ** Selected profiles are well formed *)

Lemma validateProfileSet_valid dflt names seen found :
  validateProfileSet dflt names seen found = None →
  Forall (λ n, ValidReviewerProfile n = true) names.
Proof.
  revert seen found. induction names as [|n names IH]; intros seen found; simpl; [by constructor|].
  destruct (ValidReviewerProfile n) eqn:Hn; simpl; [|done].
  destruct (hasLabel seen n); [done|]. intros H. constructor; [done|]. by eapply IH.
Qed.

Lemma Validate_profiles cfg :
  Validate cfg = None →
  Forall (λ n, ValidReviewerProfile n = true) (cfg_ReviewerProfiles cfg)
  ∧ (cfg_DefaultReviewerProfile cfg = "" ∨
     ValidReviewerProfile (cfg_DefaultReviewerProfile cfg) = true).
Proof.
  unfold Validate. destruct (negb _); [done|]. destruct (bool_decide _); [done|].
  destruct (validateRequiredLabels _ _ _); [done|]. destruct (_ <=? 0); [done|].
  destruct (_ <? 1); [done|]. destruct (validateReviewerProfiles cfg) eqn:Hv; [done|].
  intros _. revert Hv. unfold validateReviewerProfiles.
  case_bool_decide as Hnil.
  - case_bool_decide as Hd; simpl; [|done]. rewrite Hnil. intros _. split; [constructor|by left].
  - destruct (ValidReviewerProfile (cfg_DefaultReviewerProfile cfg)) eqn:Hd; simpl; [|done].
    destruct (_ <? _); [done|]. intros H. split; [by eapply validateProfileSet_valid|by right].
Qed.

Lemma selectProfileLoop_valid profiles labels selected count r :
  Forall (λ n, ValidReviewerProfile n = true) profiles →
  (selected = "" ∨ ValidReviewerProfile selected = true) →
  selectProfileLoop profiles labels selected count = Ok r →
  r.1 = "" ∨ ValidReviewerProfile r.1 = true.
Proof.
  intros Hp. revert selected count.
  induction labels as [|l labels IH]; intros selected count Hs; simpl; [by intros [= <-]|].
  destruct (negb _); [by apply IH|]. case_bool_decide; [by apply IH|].
  case_bool_decide as Hc; [done|]. apply IH. right. revert Hc.
  destruct (find _ profiles) as [c|] eqn:Hf; [|done]. intros _. simpl.
  apply find_elem in Hf as [Hf _]. rewrite Forall_forall in Hp. by apply Hp.
Qed.

Lemma SelectReviewerProfile_valid cfg labels profile :
  Validate cfg = None → SelectReviewerProfile cfg labels = Ok profile →
  profile = "" ∨ ValidReviewerProfile profile = true.
Proof.
  intros [Hp Hd]%Validate_profiles. unfold SelectReviewerProfile.
  destruct (selectProfileLoop _ _ _ _) as [[sel n]|] eqn:Hl; [|done].
  apply selectProfileLoop_valid in Hl; [|done|by left]. simpl in Hl.
  case_bool_decide; [destruct (0 <? n); [done|]; intros [= <-]; by left|].
  destruct (1 <? n); [done|]. case_bool_decide; intros [= <-]; done.
Qed.

Lemma validateSubject_shas cfg t pr :
  validateSubject cfg t (Some pr) = None →
  isFullSHA (pr_Head pr) = true ∧ isFullSHA (pr_BaseSHA pr) = true.
Proof.
  unfold validateSubject. destruct (ParsePRURL (tr_PRURL t)) as [[[ow rp] num]|]; [|done].
  destruct (negb _ || _); [done|]. destruct (negb _); [done|].
  destruct (ParsePRURL (pr_URL pr)) as [[[ow' rp'] num']|]; [|done].
  destruct (negb _ || _ || _); [done|]. destruct (negb (bool_decide (_ = trim_space _))); [done|].
  destruct (_ || _); [done|]. destruct (negb (bool_decide (pr_Branch pr = _))); [done|].
  destruct (negb (bool_decide (branchIssue _ = _))); [done|].
  destruct (isFullSHA (pr_Head pr)); [|done]. simpl.
  destruct (bool_decide _); [done|]. by destruct (isFullSHA (pr_BaseSHA pr)).
Qed.

(** ** The artifact of a step is well formed *)

Definition artifact_ok (st : Step) : Prop :=
  match st_Kind st with
  | StepRecordRoute => wf_route_marker (step_route st)
  | StepRecordIntent => wf_intent_marker (step_intent st)
  | StepReview =>
      (∀ v, v ≠ VerdictUnset → wf_review_marker (step_review st v))
      ∧ (∀ r, ValidBlockReason r = true → wf_blocked_marker (step_blocked st r))
  | _ => True
  end.

Lemma stop_artifact cfg s events t claim head o reviewed st :
  forge_ids events → event_id (tr_Occurrence t) → event_id claim → isFullSHA head = true →
  o ≠ OutcomeUnset → o ≠ OutcomeRevise →
  stop_shape cfg s events t claim head o reviewed st → artifact_ok st.
Proof.
  intros Hid Ho Hc Hh Hu Hr [why|why pr approval ? Ha|why pr ?|why pr approval ? ? ?];
    unfold artifact_ok; simpl; try done.
  repeat split; simpl; try done; [apply Ho|apply Ho|apply Hc|apply Hc|by eapply approval_at_id..].
Qed.

Lemma artifact_ok_delivery cfg s profile t pr claim approval st :
  forge_ids (SortEvents (sn_Events s)) → live_delivery cfg s profile t pr claim approval →
  delivery_shape cfg s profile t pr claim approval st → artifact_ok st.
Proof.
  intros Hids (Hv & Hprof & _ & Hlast & _ & _ & Hcl & _ & Hsub & Ha) Hd.
  assert (event_id (tr_Occurrence t)) as Hocc.
  { eapply publishedMilestones_id. by apply last_Some_elem_of. }
  pose proof (claim_at_id _ _ _ _ Hids Hcl) as Hclaim.
  pose proof (approval_at_id _ _ _ _ Hids Ha) as Happr.
  destruct (validateSubject_shas _ _ _ Hsub) as [Hhead Hbase].
  destruct Hd as [cur o st Hin Hmo Hh Hb _ Hou _ Hr|o st Ho Hs|st why w a p _ _ Hok _ ->].
  - destruct (trusted_review_of cfg s t pr claim approval cur Hin Hmo Hh Hb)
      as [Hz (_ & _ & Hc1 & _)].
    destruct Hr as [o' st Hcase Hs|why _|why _ _]; [| |done].
    + unfold pub_head in Hs. rewrite Hz in Hs. simpl in Hs. rewrite Hc1, Hh in Hs.
      eapply stop_artifact, Hs; try done; naive_solver.
    + unfold artifact_ok, wf_route_marker; simpl. rewrite Hc1, Hh. done.
  - eapply stop_artifact, Hs; try done; set_solver.
  - destruct Hok as (_ & _ & _ & [Ha' _] & Hp). pose proof (approval_at_id _ _ _ _ Hids Ha').
    apply SelectReviewerProfile_valid in Hp; [|done]. split; intros; by split_and!.
Qed.

Lemma Reduce_artifact cfg s : forge_ids (sn_Events s) → artifact_ok (Reduce cfg s).
Proof.
  intros Hids%forge_ids_sorted.
  destruct (Reduce_shaped cfg s) as [why|m st _ [(c & _ & _ & Hp) _] Hi|d _ Hd|
    profile t pr claim approval st Hl Hd]; [done| | |by eapply artifact_ok_delivery].
  - apply ParseRouteIntentMarker_sound in Hp as (? & ? & ? & ? & ? & ?).
    destruct Hi; unfold artifact_ok; simpl; by try split_and!.
  - apply completed_sound in Hd as (Ht & _ & Hcl & Ho & ev & p & _ & _ & Hp & _ & _ & Hh & _).
    apply publishedMilestones_id in Ht. apply claim_at_id in Hcl; [|done].
    apply controllerReviews_trusted in Hp as [_ Hp%trusted_wf]. destruct Hp as (_ & _ & Hsha & _).
    unfold artifact_ok, wf_route_marker; simpl. rewrite <-Hh. done.
Qed.

(** Whatever the reducer asks to publish can be read back. The marker of a
    recorded route and of a recorded intent, the review marker under either
    verdict, and the blocked-review statement under every valid reason are all
    well formed, so their bodies parse to exactly that marker and the driver's
    own read-back guards never refuse them. *)
Theorem reduce_artifacts_read_back (cfg : Config) (s : Snapshot) (text : string) :
  forge_ids (sn_Events s) →
  let st := Reduce cfg s in
  (st_Kind st = StepRecordRoute →
     ParseRouteMarker (route_marker_string (step_route st)) = Ok (step_route st)
     ∧ ParseRouteMarker (RouteBody (step_route st) text) = Ok (step_route st))
  ∧ (st_Kind st = StepRecordIntent →
     ParseRouteIntentMarker (intent_marker_string (step_intent st)) = Ok (step_intent st)
     ∧ ParseRouteIntentMarker (RouteIntentBody (step_intent st) text) = Ok (step_intent st))
  ∧ (st_Kind st = StepReview → ∀ v, v ≠ VerdictUnset →
     ParseReviewMarker (ReviewBody (step_review st v) text) = Ok (step_review st v))
  ∧ (st_Kind st = StepReview → ∀ r, ValidBlockReason r = true →
     ParseReviewBlockedMarker (blocked_marker_string (step_blocked st r)) = Ok (step_blocked st r)).
Proof.
  intros Hids. pose proof (Reduce_artifact cfg s Hids) as Hok. unfold artifact_ok in Hok. simpl.
  split_and!; intros Hk; rewrite Hk in Hok.
  - split; [by apply route_string_reads|by apply RouteBody_reads].
  - split; [by apply intent_string_reads|by apply RouteIntentBody_reads].
  - intros v Hv. apply ReviewBody_reads, Hok, Hv.
  - intros r Hr. apply blocked_string_reads, Hok, Hr.
Qed.

(** The observation after the controller's comment landed. *)
Definition with_comment cfg s (id at' : Z) (body : string) : Snapshot :=
  MkSnapshot (sn_Issue s) (sn_Comments s ++ [MkComment id (cfg_Controller cfg) body at'])
    (sn_Events s) (sn_Reviews s) (sn_PR s).

Lemma eqFold_refl x : eqFold x x = true.
Proof. unfold eqFold. exact (reflexivity (R := λ a b, EqualFold a b = true) (trim_space x)). Qed.

Lemma routeFor_recorded cfg s id at' m text :
  wf_route_marker m →
  is_Some (routeFor cfg (sn_Comments (with_comment cfg s id at' (RouteBody m text))) (ro_Occurrence m)).
Proof.
  intros Hwf. unfold routeFor, with_comment; simpl. rewrite find_map_app. simpl.
  rewrite eqFold_refl. simpl. rewrite RouteBody_reads by done. rewrite Z.eqb_refl. simpl.
  destruct (find_map _ _); eauto.
Qed.

(** Recording a route settles it. Once the comment a [StepRecordRoute] asks
    for is on the issue, the occurrence carries a route, and the reducer's next
    step, on whatever else that observation holds, is about another occurrence
    or is nothing: the loop makes progress. *)
Theorem record_settles (cfg : Config) (s : Snapshot) (id at' : Z) :
  forge_ids (sn_Events s) → st_Kind (Reduce cfg s) = StepRecordRoute →
  let s' := with_comment cfg s id at'
              (RouteBody (step_route (Reduce cfg s)) (st_Why (Reduce cfg s))) in
  is_Some (routeFor cfg (sn_Comments s') (st_Occurrence (Reduce cfg s)))
  ∧ (st_Kind (Reduce cfg s') = StepNothing
     ∨ st_Occurrence (Reduce cfg s') ≠ st_Occurrence (Reduce cfg s)).
Proof.
  intros Hids Hk. pose proof (Reduce_artifact cfg s Hids) as Hok. unfold artifact_ok in Hok.
  rewrite Hk in Hok.
  intros s'.
  assert (is_Some (routeFor cfg (sn_Comments s') (st_Occurrence (Reduce cfg s)))) as Hr
    by exact (routeFor_recorded cfg s id at' _ (st_Why (Reduce cfg s)) Hok).
  split; [done|].
  destruct (decide (st_Kind (Reduce cfg s') = StepNothing)) as [?|Hn]; [by left|right].
  intros Heq. apply Reduce_unrouted in Hn. rewrite Heq in Hn. destruct Hr as [x Hx]. congruence.
Qed.
End durable.

Lemma ex_ids : forge_ids ex_events.
Proof.
  split; [|solve_decided]. unfold ex_events, event_id. rewrite !Forall_cons. simpl.
  split_and!; done || constructor.
Defined.

(** The clean review's label is already gone: the route is recorded. *)
Definition ex_unlabeled : Snapshot :=
  MkSnapshot (MkIssue 7 false ["triaged"] ["ben-bot"]) (sn_Comments ex_clean) (sn_Events ex_clean)
    (sn_Reviews ex_clean) (sn_PR ex_clean).

Example ex_unlabeled_step : st_Kind (Reduce ex_cfg ex_unlabeled) = StepRecordRoute.
Proof. vm_compute. reflexivity. Qed.

Lemma reduce_artifacts_read_back_witness :
  ParseRouteMarker (RouteBody (step_route (Reduce ex_cfg ex_unlabeled)) "<!-- ben:route")
  = Ok (step_route (Reduce ex_cfg ex_unlabeled)).
Proof.
  apply (reduce_artifacts_read_back ex_cfg ex_unlabeled "<!-- ben:route" ex_ids).
  apply ex_unlabeled_step.
Defined.

Lemma record_settles_witness :
  is_Some (routeFor ex_cfg
    (sn_Comments (with_comment ex_cfg ex_unlabeled 502 1030
      (RouteBody (step_route (Reduce ex_cfg ex_unlabeled)) (st_Why (Reduce ex_cfg ex_unlabeled)))))
    (st_Occurrence (Reduce ex_cfg ex_unlabeled))).
Proof. apply (record_settles ex_cfg ex_unlabeled 502 1030 ex_ids ex_unlabeled_step). Defined.
