(* ===== verification/ReviewDriverFacts.v ===== *)
(** * ReviewDriverFacts: what a run may write

    Every write a run attempts is the one the reducer asked for on the run's latest
    observation, whatever the forge and the reviewer answer, and a review is published
    only as the reviewer reported it and only once an observation made after the report
    asks for it again; a dry run writes nothing and starts no reviewer. *)

From S2P Require Import Prelude GoStd GoStdFacts Review ReviewMarker ReviewMarkerFacts.
From S2P Require Import ReviewEpoch ReviewMilestone ReviewReduce ReviewExamples.
From S2P Require Import ReviewReduceFacts ReviewVerdict ReviewDriver.

(** ** The protocol of a run *)

(** Where a run is, by what it has observed and done. *)
Inductive phase :=
  | Idle
  (** [s] is observed and nothing was done about it *)
  | Observed (s : Snapshot)
  (** the reviewer was asked for [sub] on the strength of [s] *)
  | Reviewed (s : Snapshot) (sub : Subject) (answer : fres Report)
  (** the reviewer reported, and [after] was observed since *)
  | Confirmed (s : Snapshot) (sub : Subject) (report : Report) (after : Snapshot)
  (** the review of [sub] was sent *)
  | Published (sub : Subject)
  (** the first half of the revocation [s] asks for was sent *)
  | Removed (s : Snapshot).

(** Two steps ask for one review: of the same delivery, claim and approval, head and base,
    by the same profile. *)
Definition same_request (a b : Step) : Prop :=
  st_Kind a = StepReview ∧ st_Occurrence a = st_Occurrence b ∧ st_Claim a = st_Claim b
  ∧ st_Approval a = st_Approval b ∧ st_Head a = st_Head b
  ∧ pr_Base (st_PR a) = pr_Base (st_PR b) ∧ pr_BaseSHA (st_PR a) = pr_BaseSHA (st_PR b)
  ∧ st_ReviewerProfile a = st_ReviewerProfile b.

Section protocol.
Context {T : GoTables} (d : driver).
Notation step s := (Reduce (dr_cfg d) s).
Notation issue := (cfg_Issue (dr_cfg d)).

(** What a run may do next. *)
Inductive may : phase → Act → phase → Prop :=
  | may_observe s : may Idle (AObserve s) (Observed s)
  | may_review s diff sub answer :
      st_Kind (step s) = StepReview → sub = subject d (step s) (BoundDiff diff (dr_maxDiffBytes d)) →
      may (Observed s) (AReview sub answer) (Reviewed s sub answer)
  | may_confirm s sub report after :
      may (Reviewed s sub (inl report)) (AObserve after) (Confirmed s sub report after)
  | may_publish s sub report after :
      same_request (step after) (step s) →
      may (Confirmed s sub report after)
        (APublishReview (sub_PR sub) (sub_Head sub)
           (ReviewBody (step_review (step s) (rep_Verdict report)) (rep_Findings report)))
        (Published sub)
  | may_retire sub : may (Published sub) (ARetire sub) Idle
  (** the request is gone: the report is dropped *)
  | may_drop s sub report after s' :
      ¬ same_request (step after) (step s) →
      may (Confirmed s sub report after) (AObserve s') (Observed s')
  (** the reviewer was refused, for a reason the issue does not state yet *)
  | may_state_refusal s sub e reason detail :
      ferror_Is e ErrRunRefused = true → RefusalOf e = Some (reason, detail) →
      ValidBlockReason reason = true →
      (∀ m, BlockedReviewFor (dr_cfg d) (sn_Comments s) (st_Occurrence (step s)) (st_Head (step s)) = Some m →
            rb_Reason m ≠ reason) →
      may (Reviewed s sub (inr e))
        (APostComment issue (ReviewBlockedBody (step_blocked (step s) reason) detail)) Idle
  | may_unassign s :
      st_Kind (step s) = StepUnassign → may (Observed s) (AUnassign issue (st_Principal (step s))) Idle
  | may_remove s :
      st_Kind (step s) = StepRevoke →
      may (Observed s) (ARemoveLabel issue (st_RemoveLabel (step s))) (Removed s)
  | may_add s :
      st_AddLabel (step s) ≠ "" → may (Removed s) (AAddLabel issue (st_AddLabel (step s))) Idle
  | may_removed s s' : st_AddLabel (step s) = "" → may (Removed s) (AObserve s') (Observed s')
  | may_intent s :
      st_Kind (step s) = StepRecordIntent →
      may (Observed s) (APostComment issue (RouteIntentBody (step_intent (step s)) (st_Why (step s)))) Idle
  | may_route s :
      st_Kind (step s) = StepRecordRoute →
      may (Observed s) (APostComment issue (RouteBody (step_route (step s)) (st_Why (step s)))) Idle.

Inductive authorised : phase → list Act → phase → Prop :=
  | authorised_nil ph : authorised ph [] ph
  | authorised_cons ph a ph1 tr ph2 :
      may ph a ph1 → authorised ph1 tr ph2 → authorised ph (a :: tr) ph2.

Lemma authorised_app ph tr1 ph1 tr2 ph2 :
  authorised ph tr1 ph1 → authorised ph1 tr2 ph2 → authorised ph (tr1 ++ tr2) ph2.
Proof. induction 1; [done|]. intros. econstructor; eauto. Qed.

Lemma authorised_one ph a ph1 : may ph a ph1 → authorised ph [a] ph1.
Proof. intros. econstructor; [done|constructor]. Qed.

Lemma authorised_split ph tr1 tr2 ph2 :
  authorised ph (tr1 ++ tr2) ph2 → ∃ ph1, authorised ph tr1 ph1 ∧ authorised ph1 tr2 ph2.
Proof.
  revert ph. induction tr1 as [|b tr IH]; intros ph H; [by exists ph; split; [constructor|]|].
  inversion_clear H as [|? ? ph1 ? ? Hm Ht]. destruct (IH _ Ht) as (ph' & ? & ?). exists ph'. split; [by econstructor|done].
Qed.

(** How a run got where it is with a review. *)
Definition behind (tr : list Act) (ph : phase) : Prop :=
  let asked s sub := st_Kind (step s) = StepReview
    ∧ ∃ diff, sub = subject d (step s) (BoundDiff diff (dr_maxDiffBytes d)) in
  match ph with
  | Observed s => ∃ tr', tr = tr' ++ [AObserve s]
  | Reviewed s sub answer => asked s sub ∧ ∃ tr', tr = tr' ++ [AObserve s; AReview sub answer]
  | Confirmed s sub report after =>
      asked s sub ∧ ∃ tr', tr = tr' ++ [AObserve s; AReview sub (inl report); AObserve after]
  | _ => True
  end.

Lemma authorised_behind tr ph : authorised Idle tr ph → behind tr ph.
Proof.
  revert ph. induction tr as [|a tr IH] using rev_ind; intros ph H; [by inversion H|].
  apply authorised_split in H as (ph1 & H1 & H2). specialize (IH _ H1). inversion H2 as [|? ? ? ? ? Hm Hn]; subst.
  inversion Hn; subst. clear H2 Hn. inversion Hm; subst; simpl in *; eauto.
  - destruct IH as [tr' ->]. split; [eauto|]. exists tr'. by rewrite <-app_assoc.
  - destruct IH as [Ha (tr' & ->)]. split; [done|]. exists tr'. by rewrite <-app_assoc.
Qed.

(** The four acts a published review is the last of. *)
Lemma authorised_published pre pr commit body post ph :
  authorised Idle (pre ++ APublishReview pr commit body :: post) ph →
  ∃ tr s diff report after,
    let sub := subject d (step s) (BoundDiff diff (dr_maxDiffBytes d)) in
    pre = tr ++ [AObserve s; AReview sub (inl report); AObserve after]
    ∧ st_Kind (step s) = StepReview ∧ same_request (step after) (step s)
    ∧ pr = pr_Number (st_PR (step s)) ∧ commit = st_Head (step s)
    ∧ body = ReviewBody (step_review (step s) (rep_Verdict report)) (rep_Findings report).
Proof.
  intros (ph1 & H1 & H2)%authorised_split. apply authorised_behind in H1.
  inversion H2 as [|? ? ? ? ? Hm _]; subst. inversion Hm; subst. simpl in H1.
  destruct H1 as ((Hk & diff & ->) & tr & ->). exists tr, s, diff, report, after. by split_and!.
Qed.
End protocol.

(** ** A logic of traces

    [emits d ph m Q]: started in phase [ph], [m] only extends the trace, as the protocol
    allows, and ends with a result and in a phase in [Q]. *)

Section emits.
Context {T : GoTables} {W : Type} (d : driver).
Implicit Types ph : phase.

Definition emits {A} ph (m : M W A) (Q : fres A → phase → Prop) : Prop :=
  ∀ st, ∃ tr ph', (m st).2.2 = st.2 ++ tr ∧ authorised d ph tr ph' ∧ Q (m st).1 ph'.

(** The phase is the one it was; the phase is [ph'] where the call succeeds. *)
Definition still {A} ph : fres A → phase → Prop := λ _ ph', ph' = ph.
Definition any {A} : fres A → phase → Prop := λ _ _, True.
Definition ends {A} ph : fres A → phase → Prop :=
  λ r ph', match r with inl _ => ph' = ph | inr _ => True end.

Lemma emits_ret {A} ph (a : A) (Q : fres A → phase → Prop) : Q (inl a) ph → emits ph (mret a : M W A) Q.
Proof. intros HQ st. exists [], ph. rewrite app_nil_r. split_and!; [done|constructor|done]. Qed.

Lemma emits_fail {A} ph e (Q : fres A → phase → Prop) : Q (inr e) ph → emits ph (fail e : M W A) Q.
Proof. intros HQ st. exists [], ph. rewrite app_nil_r. split_and!; [done|constructor|done]. Qed.

Lemma emits_act_with {A} ph (a : fres A → Act) (f : W → fres A * W) (next : fres A → phase) :
  (∀ r, may d ph (a r) (next r)) → emits ph (act_with a f) (λ r ph', ph' = next r).
Proof.
  intros Ha st. unfold act_with. destruct (f st.1) as [r w]. exists [a r], (next r).
  split_and!; [done|by apply authorised_one|done].
Qed.

Lemma emits_act {A} ph a (f : W → fres A * W) ph' : may d ph a ph' → emits ph (act a f) (still ph').
Proof. intros Ha. by apply (emits_act_with _ _ _ (λ _, ph')). Qed.

Lemma emits_attempt {A} ph (m : M W A) (Q : fres A → phase → Prop) :
  emits ph m Q → emits ph (attempt m) (λ r ph', ∃ x, r = inl x ∧ Q x ph').
Proof.
  intros Hm st. destruct (Hm st) as (tr & ph' & H1 & H2 & H3). exists tr, ph'. unfold attempt.
  destruct (m st) as [r st']. simpl in *. eauto.
Qed.

Lemma emits_bind {A B} ph (m : M W A) (k : A → M W B) (Q : fres A → phase → Prop) (Q' : fres B → phase → Prop) :
  emits ph m Q →
  (∀ e ph', Q (inr e) ph' → Q' (inr e) ph') →
  (∀ a ph', Q (inl a) ph' → emits ph' (k a) Q') →
  emits ph (m ≫= k) Q'.
Proof.
  intros Hm He Hk st. destruct (Hm st) as (tr & ph1 & H1 & H2 & H3).
  unfold mbind, M_bind. destruct (m st) as [[a|e] st'] eqn:Hst; simpl in *.
  - destruct (Hk a _ H3 st') as (tr' & ph2 & H1' & H2' & H3'). exists (tr ++ tr'), ph2.
    rewrite H1', H1, app_assoc. split_and!; [done|by eapply authorised_app|done].
  - exists tr, ph1. auto.
Qed.

Lemma emits_bind_attempt {A B} ph (m : M W A) (k : fres A → M W B) (Q : fres A → phase → Prop)
    (Q' : fres B → phase → Prop) :
  emits ph m Q → (∀ r ph', Q r ph' → emits ph' (k r) Q') → emits ph (attempt m ≫= k) Q'.
Proof.
  intros Hm Hk. eapply emits_bind; [by apply emits_attempt|by intros e ph' (x & ? & _)|].
  intros r ph' (x & [= ->] & H). by apply Hk.
Qed.

Lemma emits_weaken {A} ph (m : M W A) (Q Q' : fres A → phase → Prop) :
  emits ph m Q → (∀ r ph', Q r ph' → Q' r ph') → emits ph m Q'.
Proof. intros Hm HQ st. destruct (Hm st) as (tr & ph' & ? & ? & ?). exists tr, ph'. auto. Qed.

(** The reads leave the trace alone. *)
Definition silent {A} (m : M W A) : Prop := ∀ st, (m st).2.2 = st.2.

Lemma emits_silent {A B} ph (m : M W A) (k : A → M W B) (Q : fres B → phase → Prop) :
  silent m → (∀ e, Q (inr e) ph) → (∀ a, emits ph (k a) Q) → emits ph (m ≫= k) Q.
Proof.
  intros Hm He Hk. apply (emits_bind _ _ _ (still ph)); [|by intros e ph' ->|by intros a ph' ->].
  intros st. exists [], ph. rewrite app_nil_r. split_and!; [apply Hm|constructor|done].
Qed.

Lemma silent_bind {A B} (m : M W A) (k : A → M W B) :
  silent m → (∀ a, silent (k a)) → silent (m ≫= k).
Proof.
  intros Hm Hk st. specialize (Hm st). unfold mbind, M_bind.
  destruct (m st) as [[a|e] st']; simpl in *; [|done]. by rewrite (Hk a st'), Hm.
Qed.

Lemma silent_read {A} (f : W → fres A * W) : silent (read f).
Proof. intros st. unfold read. by destruct (f st.1). Qed.

Lemma silent_attempt {A} (m : M W A) : silent m → silent (attempt m).
Proof. intros Hm st. specialize (Hm st). unfold attempt. by destruct (m st). Qed.

Lemma silent_ret {A} (a : A) : silent (mret a).
Proof. done. Qed.
End emits.

#[export] Hint Resolve silent_read silent_attempt silent_ret : ben.

(** ** The driver's operations *)

Section driver_facts.
Context {T : GoTables} {W : Type} {F : Forge W} {R : Reviewer W}.
Implicit Types (d : driver) (s : Snapshot).

Lemma observe_reads_silent d : silent (observe_reads d).
Proof.
  unfold observe_reads. do 3 (apply silent_bind; [apply silent_read|intros ?]).
  destruct (LatestPublished _ _) as [t|]; [|apply silent_ret].
  destruct (ParsePRURL _) as [[[owner repo] number]|]; [|apply silent_ret].
  destruct (_ || _); [apply silent_ret|].
  apply silent_bind; [apply silent_attempt, silent_read|].
  intros [pr|e]; [|by destruct (isNotFound e)].
  apply silent_bind; [apply silent_read|]. intros ?. apply silent_ret.
Qed.

(** An observation that fails leaves no trace. *)
Lemma observe_emits d ph (next : Snapshot → phase) :
  (∀ s, may d ph (AObserve s) (next s)) →
  emits d ph (observe d) (λ r ph', match r with inl s => ph' = next s | inr _ => ph' = ph end).
Proof.
  intros Hm. unfold observe. apply emits_silent; [apply observe_reads_silent|done|].
  intros s st. exists [AObserve s], (next s). split_and!; [done|by apply authorised_one|done].
Qed.

Lemma surfaceRefusal_emits d s sub e :
  ferror_Is e ErrRunRefused = true →
  emits d (Reviewed s sub (inr e)) (surfaceRefusal d s (Reduce (dr_cfg d) s) e) (ends Idle).
Proof.
  intros He. unfold surfaceRefusal, stop_run.
  destruct (RefusalOf e) as [[reason detail]|] eqn:Hr; [|by apply emits_fail].
  destruct (ValidBlockReason reason) eqn:Hv; simpl; [|by apply emits_fail].
  destruct (match BlockedReviewFor _ _ _ _ with Some _ => _ | None => _ end) eqn:Hs; [by apply emits_fail|].
  destruct (ParseReviewBlockedMarker _); [|by apply emits_fail].
  unfold post. eapply emits_bind; [apply emits_act, may_state_refusal; try done|done|intros; by apply emits_fail].
  intros m Hm. rewrite Hm in Hs. by apply bool_decide_eq_false in Hs.
Qed.

Lemma sameReviewSubject_spec a b : sameReviewSubject a b = true ↔ same_request a b.
Proof.
  unfold sameReviewSubject, same_request. rewrite !andb_true_iff, !bool_decide_eq_true, !Z.eqb_eq. tauto.
Qed.

(** A report that goes unpublished leaves a request that is gone. *)
Definition review_ends d (ph : phase) : Prop :=
  ph = Idle ∨ ∃ s sub report after, ph = Confirmed s sub report after
    ∧ ¬ same_request (Reduce (dr_cfg d) after) (Reduce (dr_cfg d) s).

Lemma performReview_emits d s :
  st_Kind (Reduce (dr_cfg d) s) = StepReview →
  emits d (Observed s) (performReview d s (Reduce (dr_cfg d) s))
    (λ r ph, match r with inl _ => review_ends d ph | inr _ => True end).
Proof.
  intros Hk. unfold performReview. destruct (_ || _); [by apply emits_fail|].
  apply emits_silent; [eauto with ben|done|intros diff].
  set (sub := subject d _ _).
  eapply emits_bind_attempt; [apply (emits_act_with _ _ _ _ (λ r, Reviewed s sub r)); intros; by eapply may_review|].
  intros [report|e] ph ->.
  - eapply emits_bind; [apply (observe_emits _ _ (Confirmed s sub report)); intros; constructor|done|].
    intros after ph ->. destruct (sameReviewSubject _ _) eqn:Hs; simpl.
    + apply sameReviewSubject_spec in Hs.
      eapply emits_bind; [apply emits_act; exact (may_publish d s sub report after Hs)|done|].
      intros [] ph ->. eapply emits_bind_attempt; [apply emits_act, may_retire|].
      intros r ph ->. apply emits_ret. by left.
    + apply emits_ret. right. exists s, sub, report, after. split; [done|].
      intros Hsame%sameReviewSubject_spec. congruence.
  - destruct (ferror_Is e ErrRunRefused) eqn:He; [|by apply emits_fail].
    eapply emits_weaken; [by apply surfaceRefusal_emits|]. intros [u|e'] ph; [by left|done].
Qed.

(** From where a step ends the run observes again. *)
Definition step_ends d (ph : phase) : Prop := ∀ s', may d ph (AObserve s') (Observed s').

Lemma apply_emits d s :
  emits d (Observed s) (apply d s (Reduce (dr_cfg d) s))
    (λ r ph, match r with inl _ => step_ends d ph | inr _ => True end).
Proof.
  assert (∀ A (m : M W A), emits d (Observed s) m (still Idle) →
    emits d (Observed s) m (λ r ph, match r with inl _ => step_ends d ph | inr _ => True end)) as Hidle.
  { intros A m Hm. eapply emits_weaken; [exact Hm|]. intros [a|e] ph ->; [constructor|done]. }
  unfold apply. destruct (st_Kind (Reduce (dr_cfg d) s)) eqn:Hk.
  - by apply emits_fail.
  - eapply emits_weaken; [by apply performReview_emits|].
    intros [u|e] ph H; [|done]. destruct H as [->|(s0 & sub & report & after & -> & Hn)]; intros s'; by constructor.
  - by apply Hidle, emits_act, may_unassign.
  - assert (emits d (Removed s)
      (if bool_decide (st_AddLabel (Reduce (dr_cfg d) s) = "") then mret tt
       else act (AAddLabel (cfg_Issue (dr_cfg d)) (st_AddLabel (Reduce (dr_cfg d) s)))
              (forge_AddLabel (cfg_Issue (dr_cfg d)) (st_AddLabel (Reduce (dr_cfg d) s))))
      (λ r ph, match r with inl _ => step_ends d ph | inr _ => True end)) as Hadd.
    { case_bool_decide as Hn; [apply emits_ret; by constructor|].
      eapply emits_weaken; [by apply emits_act, may_add|]. intros [u|e] ph ->; [constructor|done]. }
    eapply emits_bind_attempt; [by apply emits_act, may_remove|]. intros [u|e] ph ->; [exact Hadd|].
    destruct (isNotFound e); simpl; [exact Hadd|by apply emits_fail].
  - destruct (ParseRouteIntentMarker _); [|by apply emits_fail]. by apply Hidle, emits_act, may_intent.
  - destruct (ParseRouteMarker _); [|by apply emits_fail]. by apply Hidle, emits_act, may_route.
Qed.

Lemma run_loop_emits d rounds last ph : step_ends d ph → emits d ph (run_loop d rounds last) any.
Proof.
  revert last ph. induction rounds as [|rounds IH]; intros last ph Hph; simpl; [by apply emits_fail|].
  eapply emits_bind; [by apply (observe_emits _ _ Observed)|done|]. intros s ph' ->.
  case_bool_decide; [by apply emits_ret|]. destruct (dr_dryRun d); [by apply emits_ret|].
  destruct (match last with Some _ => _ | None => _ end); [by apply emits_ret|].
  eapply emits_bind_attempt; [apply apply_emits|].
  intros [u|e] ph' Hx; [by apply IH|]. by destruct (ferror_Is e errStop); [apply emits_ret|apply emits_fail].
Qed.

(** C11: every write of a reconciliation is the reducer's. For any forge and any
    reviewer, honest or not, what a run does follows the protocol [may]: each
    unassignment, label change and comment is the step [Reduce] answers on the
    observation just made, with exactly that step's issue, login, label and body; an
    observation carries one step only, a label removal its addition; a refusal is stated
    as the reviewer gave it, and not again when the issue states it. In particular a
    published review comes right after the observation that asked for it, the reviewer's
    report on that observation's subject, and an observation made since that asks for the
    same review; it goes to that subject's pull request and head, with the verdict and
    the findings of that report. *)
Theorem run_writes_authorised (d : driver) (w : W) :
  let trace := (Run d (w, [])).2.2 in
  (∃ ph, authorised d Idle trace ph)
  ∧ ∀ pre pr commit body post, trace = pre ++ APublishReview pr commit body :: post →
      ∃ tr s diff report after,
        let step := Reduce (dr_cfg d) s in
        pre = tr ++ [AObserve s; AReview (subject d step (BoundDiff diff (dr_maxDiffBytes d))) (inl report);
                     AObserve after]
        ∧ st_Kind step = StepReview ∧ same_request (Reduce (dr_cfg d) after) step
        ∧ pr = pr_Number (st_PR step) ∧ commit = st_Head step
        ∧ body = ReviewBody (step_review step (rep_Verdict report)) (rep_Findings report).
Proof.
  intros trace. assert (∃ ph, authorised d Idle trace ph) as [ph Hph].
  { unfold trace, Run. destruct (run_loop_emits d maxSteps None Idle) with (w, [] : list Act)
      as (tr & ph & -> & ? & _); [by intros; constructor|]. by exists ph. }
  split; [eauto|]. intros pre pr commit body post Htr. rewrite Htr in Hph.
  by apply authorised_published in Hph.
Qed.

(** ** Dry runs *)

(** A dry run changes nothing: whatever the forge answers, the trace of a
    run with [dryRun] holds at most the one observation it decided on, so no
    write reaches the forge and no reviewer is started. *)
Theorem dry_run_writes_nothing (d : driver) (w : W) :
  dr_dryRun d = true →
  (Run d (w, [])).2.2 = [] ∨ ∃ s, (Run d (w, [])).2.2 = [AObserve s].
Proof.
  intros Hd. unfold Run, maxSteps. generalize 5%nat. intros n. cbn [run_loop]. unfold mbind, M_bind.
  pose proof (observe_reads_silent d (w, [])) as Hs.
  unfold observe, mbind, M_bind. destruct (observe_reads d (w, [])) as [[s|e] st']; simpl in *.
  - right. exists s. rewrite Hs, Hd. by destruct (bool_decide _).
  - by left.
Qed.
End driver_facts.

(** ** A forge that keeps one issue *)

(** The world is the observation itself; writes land at once. *)
Definition ex_forge : Forge Snapshot := {|
  forge_Issue n w := (inl (sn_Issue w), w);
  forge_Comments n w := (inl (sn_Comments w), w);
  forge_Events n w := (inl (sn_Events w), w);
  forge_PullRequest n w := (inl (sn_PR w), w);
  forge_Reviews n w := (inl (sn_Reviews w), w);
  forge_Diff b h w := (inl "diff", w);
  forge_PublishReview n c body w :=
    (inl tt, MkSnapshot (sn_Issue w) (sn_Comments w) (sn_Events w)
       (sn_Reviews w ++ [MkReview 901 "ben-review" body c "COMMENTED" 1011]) (sn_PR w));
  forge_Unassign n login w := (inl tt, w);
  forge_RemoveLabel n label w :=
    (inl tt, MkSnapshot
       (MkIssue (iss_Number (sn_Issue w)) (iss_Closed (sn_Issue w))
          (filter (λ l, l ≠ label) (iss_Labels (sn_Issue w))) (iss_Assignees (sn_Issue w)))
       (sn_Comments w)
       (sn_Events w ++ [MkEvent 105 "unlabeled" "ben-review" "" label 1012])
       (sn_Reviews w) (sn_PR w));
  forge_AddLabel n label w := (inl tt, w);
  forge_PostComment n body w :=
    (inl tt, MkSnapshot (sn_Issue w) (sn_Comments w ++ [MkComment 600 "ben-review" body 1013])
       (sn_Events w) (sn_Reviews w) (sn_PR w));
  forge_Candidates l w := ([7], None, w);
  forge_resetSweepBudget w := w |}.

Definition ex_reviewer : Reviewer Snapshot := {|
  reviewer_Review sub w := (inl (MkReport VerdictClean "Nothing to add."), w);
  reviewer_Retire sub w := (inl tt, w) |}.

Definition ex_driver (dry : bool) : driver := MkDriver ex_cfg "acme/app" 400000 dry.

Definition act_name (a : Act) : string :=
  match a with
  | AObserve _ => "observe" | APublishReview _ _ _ => "publish" | AUnassign _ _ => "unassign"
  | ARemoveLabel _ _ => "remove" | AAddLabel _ _ => "add" | APostComment _ _ => "comment"
  | AReview _ _ => "review" | ARetire _ => "retire"
  end.

Definition ex_run (dry : bool) (w : Snapshot) : fres unit * St Snapshot :=
  @Run ascii_tables Snapshot ex_forge ex_reviewer (ex_driver dry) (w, []).

(** A fresh delivery is reviewed, found clean, its label revoked and its route recorded. *)
Example ex_full_cycle :
  (ex_run false ex_fresh).1 = inl tt ∧
  act_name <$> (ex_run false ex_fresh).2.2 =
    ["observe"; "review"; "observe"; "publish"; "retire";
     "observe"; "remove"; "add"; "observe"; "comment"; "observe"].
Proof. vm_compute. by split. Qed.

Lemma dry_run_writes_nothing_witness :
  (ex_run true ex_fresh).2.2 = [] ∨ ∃ s, (ex_run true ex_fresh).2.2 = [AObserve s].
Proof.
  apply (@dry_run_writes_nothing ascii_tables Snapshot ex_forge ex_reviewer (ex_driver true) ex_fresh).
  reflexivity.
Defined.
