(* ===== verification/ReviewSweep.v ===== *)
(** * ReviewSweep: the controller and its sweep

    Models [internal/reviewctl/controller.go]: [New], [Reconcile], and [Sweep] with
    the queue of candidates it carries from one pass to the next. *)

From S2P Require Import Prelude GoStd GoStdFacts Review ReviewMarker ReviewMilestone.
From S2P Require Import ReviewReduce ReviewVerdict ReviewDriver.

(** ** Definitions *)

(** What [ctx.Err()] may answer. *)
Inductive ctx_error := Canceled | DeadlineExceeded.

Definition ctx_ferror (e : ctx_error) : ferror :=
  plain (errors_New (match e with
                     | Canceled => "context canceled"
                     | DeadlineExceeded => "context deadline exceeded"
                     end)).

Class Ctx (W : Type) := ctx_Err : W → option ctx_error.

Record Options (W : Type) := MkOptions {
  op_Policy : Config;
  op_Forge : option (Forge W);
  op_Reviewer : option (Reviewer W);
  op_Repository : string;
  op_MaxDiffBytes : Z;
  op_DryRun : bool;
}.
Arguments MkOptions {_}.
Arguments op_Policy {_}.
Arguments op_Forge {_}.
Arguments op_Reviewer {_}.
Arguments op_Repository {_}.
Arguments op_MaxDiffBytes {_}.
Arguments op_DryRun {_}.

Record Controller (W : Type) := MkController {
  ct_Policy : Config;
  ct_Forge : Forge W;
  ct_Reviewer : Reviewer W;
  ct_Repository : string;
  ct_MaxDiffBytes : Z;
  ct_DryRun : bool;
}.
Arguments MkController {_}.
Arguments ct_Policy {_}.
Arguments ct_Forge {_}.
Arguments ct_Reviewer {_}.
Arguments ct_Repository {_}.
Arguments ct_MaxDiffBytes {_}.
Arguments ct_DryRun {_}.

Definition noReviewer {W} : Reviewer W := {|
  reviewer_Review sub w :=
    (inr (plain (errorf "this controller was built with no reviewer; it reconciles only")), w);
  reviewer_Retire sub w := (inl tt, w) |}.

Definition DefaultMaxDiffBytes : Z := 400000.

Definition set_Issue (c : Config) (issue : Z) : Config :=
  MkConfig (cfg_Owner c) (cfg_Repo c) issue (cfg_Principal c) (cfg_TrackerAuthor c)
    (cfg_Controller c) (cfg_AllowSharedTrackerController c) (cfg_RequiredLabels c)
    (cfg_QueueLabel c) (cfg_AddHumanReviewLabel c) (cfg_RoundCap c) (cfg_ReviewerProfiles c)
    (cfg_DefaultReviewerProfile c).

(** The queue a controller keeps between sweeps. *)
Record Queue := MkQueue { q_pending : list Z; q_retryBudgetAt : Z }.

Fixpoint append_loop (discovered : list Z) (seen : gset Z) (pending : list Z) : list Z :=
  match discovered with
  | [] => pending
  | n :: rest =>
      if (0 <? n) && negb (bool_decide (n ∈ seen))
      then append_loop rest ({[n]} ∪ seen) (pending ++ [n])
      else append_loop rest seen pending
  end.

Definition appendPending (pending discovered : list Z) : list Z :=
  append_loop discovered (list_to_set pending) pending.

(** A refusal to spend: nothing behind the candidate can reach the network. *)
Definition refusal (r : fres unit) : bool :=
  match r with
  | inl _ => false
  | inr e => ferror_Is e ErrRateLimited || ferror_Is e ErrSweepBudget
  end.

Section sweep.
Context {W : Type} {C : Ctx W}.
Context (reconcile : Z → M W unit).

Definition sweep_stopped (n unvisited len : Z) (e : ferror) : ferror :=
  MkFerror (errorf_wrap ("sweep stopped at issue #" +:+ itoa n +:+ " with " +:+ itoa unvisited
              +:+ " of " +:+ itoa len +:+ " candidate(s) unvisited: ") (fe_err e) "")
    (fe_status e) (fe_refusal e).

Definition sweep_failed (failures : list string) (total : Z) : ferror :=
  plain (errorf (itoa (Z.of_nat (length failures)) +:+ " of " +:+ itoa total
           +:+ " issue(s) did not settle: " +:+ join "; " failures)).

(** The loop over the queue: an error or none, the queue it leaves, and the world. *)
Fixpoint sweep_loop (total : Z) (pending : list Z) (retryBudgetAt : Z) (dedicatedRetry : bool)
    (failures : list string) (st : St W) : option ferror * Queue * St W :=
  match pending with
  | [] =>
      (if bool_decide (failures = []) then None else Some (sweep_failed failures total),
       MkQueue [] 0, st)
  | n :: rest =>
      let '(r, st) := reconcile n st in
      let stopped e := sweep_stopped n (Z.of_nat (length rest)) (Z.of_nat (length pending)) e in
      let go (failures : list string) :=
        match ctx_Err st.1 with
        | Some ce => (Some (ctx_ferror ce), MkQueue pending retryBudgetAt, st)
        | None =>
            if n =? retryBudgetAt then sweep_loop total rest 0 false failures st
            else sweep_loop total rest retryBudgetAt dedicatedRetry failures st
        end in
      match r with
      | inl _ => go failures
      | inr e =>
          if refusal r then
            if ferror_Is e ErrSweepBudget then
              if dedicatedRetry && (n =? retryBudgetAt)
              then (Some (stopped e),
                    MkQueue (if (0 <? Z.of_nat (length rest)) then rest ++ [n] else pending) 0, st)
              else (Some (stopped e), MkQueue pending n, st)
            else (Some (stopped e), MkQueue pending retryBudgetAt, st)
          else go (failures ++ ["#" +:+ itoa n +:+ ": " +:+ err_text (fe_err e)])
      end
  end.

Definition Sweep_with (F : Forge W) (label : string) (q : Queue) (st : St W)
    : option ferror * Queue * St W :=
  if negb (q_retryBudgetAt q =? 0) then
    let st := (forge_resetSweepBudget st.1, st.2) in
    sweep_loop (Z.of_nat (length (q_pending q))) (q_pending q) (q_retryBudgetAt q) true [] st
  else
    let '(targets, err, w) := forge_Candidates label st.1 in
    let st := (w, st.2) in
    let pending := appendPending (q_pending q) targets in
    match err with
    | Some e =>
        (Some e,
         MkQueue pending (if ferror_Is e ErrSweepBudget then default 0 (head pending)
                          else q_retryBudgetAt q), st)
    | None =>
        sweep_loop (Z.of_nat (length pending)) pending (q_retryBudgetAt q) false [] st
    end.
End sweep.

Section controller.
Context {T : GoTables} {W : Type}.

Definition New (opts : Options W) : result (Controller W) :=
  match op_Forge opts with
  | None => Err (errorf "reviewctl: a controller needs a forge client")
  | Some forge =>
      let probe := if cfg_Issue (op_Policy opts) =? 0 then set_Issue (op_Policy opts) 1
                   else op_Policy opts in
      match Validate probe with
      | Some e => Err e
      | None =>
          let maxDiff := if op_MaxDiffBytes opts =? 0 then DefaultMaxDiffBytes
                         else op_MaxDiffBytes opts in
          if maxDiff <? 0 then Err (errorf "reviewctl: max diff bytes must be positive")
          else Ok (MkController (op_Policy opts) forge (default noReviewer (op_Reviewer opts))
                 (if bool_decide (op_Repository opts = "")
                  then cfg_Owner (op_Policy opts) +:+ "/" +:+ cfg_Repo (op_Policy opts)
                  else op_Repository opts)
                 maxDiff (op_DryRun opts))
      end
  end.

(** [Controller.Reconcile] *)
Definition Reconcile (c : Controller W) (issue : Z) : M W unit :=
  if issue <=? 0
  then fail (plain (errorf ("reviewctl: " +:+ itoa issue +:+ " is not an issue number")))
  else @Run T W (ct_Forge c) (ct_Reviewer c)
         (MkDriver (set_Issue (ct_Policy c) issue) (ct_Repository c) (ct_MaxDiffBytes c)
            (ct_DryRun c)).

(** [Controller.Sweep] *)
Definition Sweep `{Ctx W} (c : Controller W) : Queue → St W → option ferror * Queue * St W :=
  Sweep_with (Reconcile c) (ct_Forge c) (cfg_QueueLabel (ct_Policy c)).
End controller.
