(* ===== verification/ReviewSweepFacts.v ===== *)
(** * ReviewSweepFacts: a sweep loses nobody and starves nobody *)

From S2P Require Import Prelude GoStd GoStdFacts Review ReviewMarker ReviewMilestone.
From S2P Require Import ReviewReduce ReviewVerdict ReviewExamples ReviewDriver.
From S2P Require Import ReviewDriverFacts ReviewSweep.

(** ** Discovery *)

Lemma append_loop_spec discovered seen pending :
  (∀ n, n ∈ seen ↔ n ∈ pending) → NoDup pending →
  NoDup (append_loop discovered seen pending)
  ∧ (∃ new, append_loop discovered seen pending = pending ++ new ∧ Forall (λ n, 0 < n) new)
  ∧ (∀ n, n ∈ append_loop discovered seen pending ↔ n ∈ pending ∨ 0 < n ∧ n ∈ discovered).
Proof.
  revert seen pending. induction discovered as [|n rest IH]; intros seen pending Hs Hnd; simpl.
  - split_and!; [done|exists []; by rewrite app_nil_r|set_solver].
  - destruct (Z.ltb_spec 0 n); simpl; [case_bool_decide as Hin; simpl|].
    + destruct (IH seen pending Hs Hnd) as (? & ? & Hm). split_and!; [done..|]. intros x.
      rewrite Hm, elem_of_cons. rewrite Hs in Hin. naive_solver.
    + rewrite Hs in Hin. destruct (IH ({[n]} ∪ seen) (pending ++ [n])) as (? & (new & Heq & ?) & Hm).
      { intros x. rewrite elem_of_union, elem_of_singleton, elem_of_app, list_elem_of_singleton, Hs.
        tauto. }
      { apply NoDup_app. split_and!; [done| |apply NoDup_singleton]. intros x Hx Hx'%list_elem_of_singleton.
        subst. by apply Hin. }
      split_and!; [done| |].
      * exists (n :: new). rewrite Heq, <-app_assoc. split; [done|]. by constructor.
      * intros x. rewrite Hm, elem_of_app, list_elem_of_singleton, elem_of_cons. naive_solver.
    + destruct (IH seen pending Hs Hnd) as (? & ? & Hm). split_and!; [done..|]. intros x.
      rewrite Hm, elem_of_cons. naive_solver lia.
Qed.

Lemma appendPending_spec pending discovered :
  NoDup pending →
  NoDup (appendPending pending discovered)
  ∧ (∃ new, appendPending pending discovered = pending ++ new ∧ Forall (λ n, 0 < n) new)
  ∧ (∀ n, n ∈ appendPending pending discovered ↔ n ∈ pending ∨ 0 < n ∧ n ∈ discovered).
Proof. intros. apply append_loop_spec; [|done]. intros n. by rewrite elem_of_list_to_set. Qed.

(** What a discovery adds, behind the queue: each new candidate once. *)
Lemma append_loop_new discovered seen pending :
  ∃ new, append_loop discovered seen pending = pending ++ new ∧ NoDup new
    ∧ ∀ n, n ∈ new ↔ n ∉ seen ∧ 0 < n ∧ n ∈ discovered.
Proof.
  revert seen pending. induction discovered as [|n rest IH]; intros seen pending; simpl.
  { exists []. rewrite app_nil_r. split_and!; [done|constructor|set_solver]. }
  destruct (Z.ltb_spec 0 n); simpl; [case_bool_decide as Hin; simpl|].
  - destruct (IH seen pending) as (new & -> & Hnd & Hm). exists new. split_and!; [done..|]. set_solver.
  - destruct (IH ({[n]} ∪ seen) (pending ++ [n])) as (new & -> & Hnd & Hm). exists (n :: new).
    rewrite <-app_assoc. split_and!; [done|apply NoDup_cons; set_solver|]. intros x.
    destruct (decide (x = n)); set_solver.
  - destruct (IH seen pending) as (new & -> & Hnd & Hm). exists new. split_and!; [done..|].
    intros x. rewrite Hm, elem_of_cons. naive_solver lia.
Qed.

(** ** The loop *)

(** Candidates are distinct issue numbers, and a dedicated retry is first in line. *)
Definition queue_ok (q : Queue) : Prop :=
  NoDup (q_pending q) ∧ Forall (λ n, 0 < n) (q_pending q)
  ∧ (q_retryBudgetAt q = 0 ∨ head (q_pending q) = Some (q_retryBudgetAt q)).

Section loop.
Context {W : Type} {C : Ctx W} (reconcile : Z → M W unit).

(** The candidates of a list reconciled in order, none refused, none cut short. *)
Inductive settled : list Z → St W → St W → Prop :=
  | settled_nil st : settled [] st st
  | settled_cons n ns st r st1 st2 :
      reconcile n st = (r, st1) → refusal r = false → ctx_Err st1.1 = None →
      settled ns st1 st2 → settled (n :: ns) st st2.

(** Where a pass over [pending] ends: a settled prefix; then either the end of
    the queue, or a candidate that was refused or cut short, which stays first
    or moves behind the rest. *)
Definition pass (pending : list Z) (st : St W) (q : Queue) (st' : St W) : Prop :=
  ∃ ns rest st1, pending = ns ++ rest ∧ settled ns st st1 ∧
    match rest with
    | [] => q = MkQueue [] 0 ∧ st' = st1
    | n :: rest' =>
        ∃ r, reconcile n st1 = (r, st') ∧ (refusal r = true ∨ ctx_Err st'.1 ≠ None)
          ∧ (q_pending q = rest ∨ q_pending q = rest' ++ [n])
    end.

Lemma pass_cons n rest st r st1 q st' :
  reconcile n st = (r, st1) → refusal r = false → ctx_Err st1.1 = None →
  pass rest st1 q st' → pass (n :: rest) st q st'.
Proof.
  intros H1 H2 H3 (ns & rs & st2 & -> & Hs & Hr). exists (n :: ns), rs, st2.
  split; [done|]. split; [by econstructor|done].
Qed.

Lemma pass_stop n rest st r st' q :
  reconcile n st = (r, st') → (refusal r = true ∨ ctx_Err st'.1 ≠ None) →
  (q_pending q = n :: rest ∨ q_pending q = rest ++ [n]) → pass (n :: rest) st q st'.
Proof.
  intros H1 H2 H3. exists [], (n :: rest), st. split_and!; [done|constructor|]. by exists r.
Qed.

Lemma sweep_loop_pass total pending retry ded fails st :
  let '(_, q, st') := sweep_loop reconcile total pending retry ded fails st in
  pass pending st q st'.
Proof.
  revert retry ded fails st. induction pending as [|n rest IH]; intros retry ded fails st; simpl.
  { exists [], [], st. split_and!; [done|constructor|done..]. }
  destruct (reconcile n st) as [r st1] eqn:Hr.
  assert (∀ fails', refusal r = false →
    let '(_, q, st') :=
      match ctx_Err st1.1 with
      | Some ce => (Some (ctx_ferror ce), MkQueue (n :: rest) retry, st1)
      | None => if n =? retry then sweep_loop reconcile total rest 0 false fails' st1
                else sweep_loop reconcile total rest retry ded fails' st1
      end in pass (n :: rest) st q st') as Hgo.
  { intros fails' Hno. destruct (ctx_Err st1.1) as [ce|] eqn:Hctx.
    - eapply pass_stop; [done|right; congruence|by left].
    - destruct (n =? retry).
      + specialize (IH 0 false fails' st1). destruct (sweep_loop _ _ _ _ _ _ _) as [[e q] st'].
        by eapply pass_cons.
      + specialize (IH retry ded fails' st1). destruct (sweep_loop _ _ _ _ _ _ _) as [[e q] st'].
        by eapply pass_cons. }
  destruct r as [u|e]; [by apply Hgo|].
  destruct (refusal (inr e)) eqn:Hf; [|by apply Hgo].
  destruct (ferror_Is e ErrSweepBudget); [destruct (ded && _)|];
    (eapply pass_stop; [done|by left|]); simpl; auto.
  destruct rest; simpl; auto.
Qed.

Lemma pass_left pending st q st' :
  pass pending st q st' →
  ∃ ns rest st1, pending = ns ++ rest ∧ settled ns st st1 ∧ q_pending q ≡ₚ rest
    ∧ (rest = [] ∧ st' = st1
       ∨ ∃ n rest' r, rest = n :: rest' ∧ reconcile n st1 = (r, st') ∧ (refusal r = true ∨ ctx_Err st'.1 ≠ None)).
Proof.
  intros (ns & [|n rest] & st1 & -> & Hs & Hr); [destruct Hr as [-> ->]; exists ns, [], st1; by split_and!; [..|left]|].
  destruct Hr as (r & Hr & Hstop & Hq). exists ns, (n :: rest), st1. split_and!; [done..| |right; by exists n, rest, r].
  destruct Hq as [->| ->]; [done|]. by rewrite Permutation_app_comm.
Qed.

Lemma sweep_loop_queue total pending retry ded fails st :
  queue_ok (MkQueue pending retry) → (ded = true → retry ≠ 0) →
  queue_ok (sweep_loop reconcile total pending retry ded fails st).1.2.
Proof.
  revert retry ded fails st. induction pending as [|n rest IH]; intros retry ded fails st Hq Hd; simpl.
  { repeat split; [constructor|constructor|by left]. }
  destruct Hq as (Hnd & Hpos & Hh). simpl in *.
  pose proof Hnd as [Hni Hnd']%NoDup_cons. pose proof Hpos as [Hn Hpos']%Forall_cons.
  destruct (reconcile n st) as [r st1].
  assert (∀ fails',
    queue_ok (match ctx_Err st1.1 with
      | Some ce => (Some (ctx_ferror ce), MkQueue (n :: rest) retry, st1)
      | None => if n =? retry then sweep_loop reconcile total rest 0 false fails' st1
                else sweep_loop reconcile total rest retry ded fails' st1
      end).1.2) as Hgo.
  { intros fails'. destruct (ctx_Err st1.1) as [ce|]; [by split_and!|].
    destruct (Z.eqb_spec n retry) as [->|Hne].
    - apply IH; [|done]. split_and!; [done..|by left].
    - destruct Hh as [->|?]; [|congruence]. apply IH; [|done]. split_and!; [done..|by left]. }
  destruct r as [u|e]; [by apply Hgo|].
  destruct (refusal (inr e)); [|by apply Hgo].
  destruct (ferror_Is e ErrSweepBudget); [|by split_and!].
  destruct (ded && (n =? retry)); [|split_and!; [done..|by right]].
  destruct rest as [|x rest]; [split_and!; [done..|by left]|].
  simpl. unfold queue_ok. cbn [q_pending q_retryBudgetAt fst snd]. rewrite app_comm_cons.
  split_and!; [|apply Forall_app; split; [done|by apply Forall_singleton]|by left].
  apply NoDup_app. split_and!; [done| |apply NoDup_singleton].
  intros y Hy Hy'%list_elem_of_singleton. subst. by apply Hni.
Qed.
End loop.

(** ** A sweep *)

Section sweep.
Context {T : GoTables} {W : Type} {C : Ctx W}.
Implicit Types (c : Controller W) (q : Queue) (st : St W).

(** The queue a sweep works off: in a dedicated retry the queue as it stands,
    otherwise the queue with the forge's discoveries behind it. *)
Definition sweep_queue c q st : list Z :=
  if negb (q_retryBudgetAt q =? 0) then q_pending q
  else appendPending (q_pending q) (forge_Candidates (Forge := ct_Forge c)
         (cfg_QueueLabel (ct_Policy c)) st.1).1.1.

Lemma sweep_queue_ok c q st :
  queue_ok q → queue_ok (MkQueue (sweep_queue c q st) (q_retryBudgetAt q)).
Proof.
  intros (Hnd & Hpos & Hh). unfold sweep_queue. destruct (negb _) eqn:Hr; [by split_and!|].
  split_bools. destruct (appendPending_spec (q_pending q) (forge_Candidates (Forge := ct_Forge c)
    (cfg_QueueLabel (ct_Policy c)) st.1).1.1 Hnd) as (Hnd' & (new & Heq & Hnew) & _).
  split_and!; [done| |left; simpl; lia]. simpl. rewrite Heq. by apply Forall_app.
Qed.

(** The queue the controller carries from sweep to sweep stays well formed:
    every sweep, however it ends, leaves a queue of distinct positive issue
    numbers in which a candidate owed a dedicated retry is first. *)
Theorem sweep_queue_invariant (c : Controller W) (q : Queue) (st : St W) :
  queue_ok q → queue_ok (Sweep c q st).1.2.
Proof.
  intros Hq. pose proof (sweep_queue_ok c q st Hq) as Hq'. unfold sweep_queue in Hq'.
  unfold Sweep, Sweep_with. destruct (Z.eqb_spec (q_retryBudgetAt q) 0) as [H0|H0]; simpl in *.
  - destruct (forge_Candidates _ _) as [[targets err] w]. simpl in *. rewrite H0 in *.
    destruct err as [e|]; simpl; [|by apply sweep_loop_queue].
    destruct Hq' as (Hnd & Hpos & _). split_and!; [done..|]. simpl.
    destruct (ferror_Is e ErrSweepBudget); [|by left].
    destruct (appendPending _ _); simpl; [by left|by right].
  - by apply sweep_loop_queue.
Qed.

(** What a sweep starts from: the forge's discoveries and the error that came with them, or
    in a dedicated retry nothing but a fresh budget; and the world after that. *)
Definition sweep_start c q st : list Z * option ferror * W :=
  if q_retryBudgetAt q =? 0
  then forge_Candidates (Forge := ct_Forge c) (cfg_QueueLabel (ct_Policy c)) st.1
  else ([], None, forge_resetSweepBudget (Forge := ct_Forge c) st.1).

(** C37: no candidate is lost. The queue of a sweep is the queue it was given with the new
    positive discoveries behind it, each once. The sweep reconciles a prefix of that queue,
    in order, each run starting where the one before it ended and none of them refused or
    cut short; what is behind that prefix is what is pending afterwards. It stops before
    the end of the queue only when discovery failed, having reconciled nothing, or when the
    next run was refused or cut short. *)
Theorem sweep_loses_nobody (c : Controller W) (q : Queue) (st : St W) :
  let '(discovered, failed, w) := sweep_start c q st in
  let '(err, q', st') := Sweep c q st in
  ∃ new worked behind st1,
    q_pending q ++ new = worked ++ behind
    ∧ (NoDup new ∧ ∀ n, n ∈ new ↔ n ∉ q_pending q ∧ 0 < n ∧ n ∈ discovered)
    ∧ settled (Reconcile c) worked (w, st.2) st1
    ∧ q_pending q' ≡ₚ behind
    ∧ match failed with
      | Some e => worked = [] ∧ st' = st1 ∧ err = Some e
      | None =>
          behind = [] ∧ st' = st1
          ∨ ∃ n rest r, behind = n :: rest ∧ Reconcile c n st1 = (r, st')
              ∧ (refusal r = true ∨ ctx_Err st'.1 ≠ None)
      end.
Proof.
  destruct (append_loop_new (sweep_start c q st).1.1 (list_to_set (q_pending q)) (q_pending q))
    as (new & Hq & Hnd & Hnew). setoid_rewrite elem_of_list_to_set in Hnew.
  unfold sweep_start, Sweep, Sweep_with in *. destruct (q_retryBudgetAt q =? 0) eqn:H0; simpl in *.
  - destruct (forge_Candidates _ _) as [[discovered failed] w]. simpl in *.
    fold (appendPending (q_pending q) discovered) in Hq. rewrite Hq.
    destruct failed as [e|].
    + exists new, [], (q_pending q ++ new), (w, st.2). split_and!; [done|done|done|constructor|done|done|done|done].
    + pose proof (sweep_loop_pass (Reconcile c) (Z.of_nat (length (q_pending q ++ new)))
        (q_pending q ++ new) (q_retryBudgetAt q) false [] (w, st.2)) as Hp.
      destruct (sweep_loop _ _ _ _ _ _ _) as [[err q'] st'].
      apply pass_left in Hp as (ns & rest & st1 & ? & ? & ? & ?). by exists new, ns, rest, st1.
  - assert (new = []) as -> by (apply (app_inv_head (q_pending q)); by rewrite app_nil_r).
    pose proof (sweep_loop_pass (Reconcile c) (Z.of_nat (length (q_pending q)))
      (q_pending q) (q_retryBudgetAt q) true [] (forge_resetSweepBudget (Forge := ct_Forge c) st.1, st.2)) as Hp.
    destruct (sweep_loop _ _ _ _ _ _ _) as [[err q'] st'].
    apply pass_left in Hp as (ns & rest & st1 & ? & ? & ? & ?). exists [], ns, rest, st1. by rewrite app_nil_r.
Qed.

(** The errors a sweep wraps keep their sentinels. *)
Lemma sweep_stopped_Is n u l e s : ferror_Is (sweep_stopped n u l e) s = ferror_Is e s.
Proof. done. Qed.

(** An oversized candidate cannot starve its peers. When the candidate owed
    a dedicated retry exhausts a whole sweep's budget again, it goes to the back
    of the queue and every peer moves up one place; when the budget ran out on
    another candidate instead, the retried one had been reconciled and left the
    queue. *)
Theorem dedicated_retry_rotates (c : Controller W) (q : Queue) (st : St W) (n : Z)
    (rest : list Z) (e : ferror) :
  queue_ok q → q_pending q = n :: rest → q_retryBudgetAt q = n →
  (Sweep c q st).1.1 = Some e → ferror_Is e ErrSweepBudget = true →
  (Sweep c q st).1.2 = MkQueue (rest ++ [n]) 0 ∨ n ∉ q_pending (Sweep c q st).1.2.
Proof.
  intros (Hnd & Hpos & _) Hp Hr. rewrite Hp in Hnd, Hpos.
  apply NoDup_cons in Hnd as [Hni Hnd]. apply Forall_cons in Hpos as [Hn _].
  unfold Sweep, Sweep_with. rewrite Hp, Hr. destruct (Z.eqb_spec n 0); [lia|]. simpl.
  destruct (Reconcile c n _) as [r st1] eqn:Hrec.
  assert (∀ fails,
    let '(err, q', st') := match ctx_Err st1.1 with
      | Some ce => (Some (ctx_ferror ce), MkQueue (n :: rest) n, st1)
      | None => if n =? n then sweep_loop (Reconcile c) (Z.of_nat (S (length rest))) rest 0 false fails st1
                else sweep_loop (Reconcile c) (Z.of_nat (S (length rest))) rest n true fails st1
      end in
    err = Some e → ferror_Is e ErrSweepBudget = true → n ∉ q_pending q') as Hgo.
  { intros fails. rewrite Z.eqb_refl. destruct (ctx_Err st1.1) as [[]|].
    - intros [= <-] Hf. by vm_compute in Hf.
    - intros [= <-] Hf. by vm_compute in Hf.
    - pose proof (sweep_loop_pass (Reconcile c) (Z.of_nat (S (length rest))) rest 0 false fails st1)
        as Hpass.
      destruct (sweep_loop _ _ _ _ _ _ _) as [[err q'] st'].
      intros _ _ Hin. apply Hni. destruct Hpass as (ns & rs & st2 & -> & _ & Hrs).
      destruct rs as [|m rs]; [destruct Hrs as [-> _]; set_solver|].
      destruct Hrs as (r' & _ & _ & [Hq|Hq]); rewrite Hq in Hin; set_solver. }
  destruct r as [u|e'].
  { specialize (Hgo []). destruct (match ctx_Err st1.1 with Some _ => _ | None => _ end) as [[err q'] st'].
    intros; right; by apply Hgo. }
  destruct (refusal (inr e')) eqn:Href.
  - rewrite Z.eqb_refl. simpl.
    destruct (ferror_Is e' ErrSweepBudget) eqn:Hb; simpl; intros [= <-] Hf.
    + left. by destruct rest.
    + rewrite sweep_stopped_Is in Hf. congruence.
  - specialize (Hgo (["#" +:+ itoa n +:+ ": " +:+ err_text (fe_err e')])).
    destruct (match ctx_Err st1.1 with Some _ => _ | None => _ end) as [[err q'] st'].
    intros; right; by apply Hgo.
Qed.
End sweep.

(** ** Instances *)

Definition ex_ctx : Ctx Snapshot := λ _, None.

Definition ex_controller (F : Forge Snapshot) : Controller Snapshot :=
  MkController ex_cfg F ex_reviewer "acme/app" 400000 false.

(** A forge whose budget is spent at the first read. *)
Definition ex_spent : Forge Snapshot := {|
  forge_Issue n w := (inr (plain ErrSweepBudget), w);
  forge_Comments := @forge_Comments _ ex_forge; forge_Events := @forge_Events _ ex_forge;
  forge_PullRequest := @forge_PullRequest _ ex_forge; forge_Reviews := @forge_Reviews _ ex_forge;
  forge_Diff := @forge_Diff _ ex_forge; forge_PublishReview := @forge_PublishReview _ ex_forge;
  forge_Unassign := @forge_Unassign _ ex_forge; forge_RemoveLabel := @forge_RemoveLabel _ ex_forge;
  forge_AddLabel := @forge_AddLabel _ ex_forge; forge_PostComment := @forge_PostComment _ ex_forge;
  forge_Candidates := @forge_Candidates _ ex_forge;
  forge_resetSweepBudget := @forge_resetSweepBudget _ ex_forge |}.

Definition ex_sweep (F : Forge Snapshot) (q : Queue) : option ferror * Queue * St Snapshot :=
  @Sweep ascii_tables Snapshot ex_ctx (ex_controller F) q (ex_fresh, []).

(** A candidate that always exhausts the budget: retried alone, then rotated. *)
Example ex_rotation :
  (ex_sweep ex_spent (MkQueue [9] 0)).1.2 = MkQueue [9; 7] 9 ∧
  (ex_sweep ex_spent (MkQueue [9; 7] 9)).1.2 = MkQueue [7; 9] 0.
Proof. vm_compute. by split. Qed.

Lemma ex_queue_ok : queue_ok (MkQueue [9; 7] 9).
Proof. split_and!; [solve_decided|by repeat constructor|by right]. Defined.

Lemma sweep_queue_invariant_witness : queue_ok (ex_sweep ex_forge (MkQueue [9; 7] 9)).1.2.
Proof.
  apply (@sweep_queue_invariant ascii_tables Snapshot ex_ctx (ex_controller ex_forge)
           (MkQueue [9; 7] 9) (ex_fresh, [])), ex_queue_ok.
Defined.

Lemma dedicated_retry_rotates_witness :
  (ex_sweep ex_spent (MkQueue [9; 7] 9)).1.2 = MkQueue [7; 9] 0 ∨
  9 ∉ q_pending (ex_sweep ex_spent (MkQueue [9; 7] 9)).1.2.
Proof.
  eapply (@dedicated_retry_rotates ascii_tables Snapshot ex_ctx (ex_controller ex_spent)
           (MkQueue [9; 7] 9) (ex_fresh, []) 9 [7]);
    [apply ex_queue_ok|reflexivity|reflexivity|vm_compute; reflexivity|vm_compute; reflexivity].
Defined.
