(* ===== verification/ReviewGate.v ===== *)
(** * ReviewGate: the forge client's rate discipline

    Models [internal/reviewctl/gate.go]. Instants are nanoseconds since the zero
    [time.Time]; each method is one critical section of the gate's mutex, and
    [acquire] is a loop of such sections with the mutex released while it sleeps. *)

From S2P Require Import Prelude GoStd GoStdFacts Review ReviewMarker ReviewReduce.
From S2P Require Import ReviewVerdict ReviewDriver.
From Stdlib Require Import Ascii.

(** ** Constants and time *)

Definition second : Z := 1000000000.
Definition minute : Z := 60 * second.
Definition paceRequests : Z := 40.
Definition paceWindow : Z := 30 * second.
Definition sweepRequestBudget : Z := 500.
Definition minimumBackoff : Z := minute.
Definition max_uint64 : Z := 2 ^ 64 - 1.

(** Seconds from the zero instant to the Unix epoch. *)
Definition unix_offset : Z := 62135596800.
Definition Unix (t : Z) : Z := t / second - unix_offset.
Definition Nanosecond (t : Z) : Z := t mod second.
(** [time.Unix(sec, nsec)] *)
Definition time_Unix (sec nsec : Z) : Z := (sec + unix_offset) * second + nsec.

(** [time.Date(9999, 12, 31, 23, 59, 59, int(time.Second-1), time.UTC)] *)
Definition latestBackoff : Z := time_Unix 253402300799 (second - 1).

(** [t.Sub(u)], a saturating [time.Duration]. *)
Definition time_Sub (t u : Z) : Z := Z.max min_int64 (Z.min max_int64 (t - u)).

(** ** The classes of request *)

Inductive requestClass :=
  | requestCandidates | requestIssue | requestComments | requestEvents | requestPullRequest
  | requestReviews | requestDiff | requestPublishReview | requestUnassign | requestRemoveLabel
  | requestAddLabel | requestPostComment.

#[export] Instance requestClass_eq_dec : EqDecision requestClass.
Proof. solve_decision. Defined.

Definition class_code (c : requestClass) : Z :=
  match c with
  | requestCandidates => 1 | requestIssue => 2 | requestComments => 3 | requestEvents => 4
  | requestPullRequest => 5 | requestReviews => 6 | requestDiff => 7 | requestPublishReview => 8
  | requestUnassign => 9 | requestRemoveLabel => 10 | requestAddLabel => 11
  | requestPostComment => 12
  end.

(** The response headers the gate reads; an absent header is [""]. *)
Record headers := MkHeaders {
  h_RetryAfter : string;
  h_RateRemaining : string;
  h_RateReset : string;
}.

Record gate := MkGate {
  g_windowStart : Z;
  g_usedInWindow : Z;
  g_blockedUntil : Z;
  g_sweepUsed : Z;
  g_sweepBudget : Z;
  (** by [class_code]; an absent class reads 0 *)
  g_secondaryFailures : gmap Z Z;
}.

Definition newGate : gate := MkGate zero_time 0 zero_time 0 sweepRequestBudget ∅.

Definition beginSweep (g : gate) : gate :=
  MkGate (g_windowStart g) (g_usedInWindow g) (g_blockedUntil g) 0 (g_sweepBudget g)
    (g_secondaryFailures g).

Definition sweepUsage (g : gate) : Z * Z := (g_sweepUsed g, g_sweepBudget g).

(** ** Reserving a request *)

Inductive reservation :=
  | Granted
  | Refused (e : error)
  | MustWait (d : Z).

(** [Format(time.RFC3339)] of the backoff is a diagnostic; [format] stands for it. *)
Class TimeFormat := rfc3339 : Z → string.

(** One pass of [acquire]'s loop, up to the sleep. *)
Definition acquire_step `{TimeFormat} (now : Z) (g : gate) : reservation * gate :=
  if time_before now (g_blockedUntil g)
  then (Refused (errorf_w ErrRateLimited (" (until " +:+ rfc3339 (g_blockedUntil g) +:+ ")")), g)
  else if g_sweepBudget g <=? g_sweepUsed g
  then (Refused (errorf_w ErrSweepBudget (" (" +:+ itoa (g_sweepBudget g) +:+ " requests)")), g)
  else
    let '(start, used) :=
      if paceWindow <=? time_Sub now (g_windowStart g) then (now, 0)
      else (g_windowStart g, g_usedInWindow g) in
    if used <? paceRequests
    then (Granted, MkGate start (used + 1) (g_blockedUntil g) (g_sweepUsed g + 1) (g_sweepBudget g)
                     (g_secondaryFailures g))
    else (MustWait (time_Sub (start + paceWindow) now),
          MkGate start used (g_blockedUntil g) (g_sweepUsed g) (g_sweepBudget g)
            (g_secondaryFailures g)).

(** The clock and the cancellable sleep; a sleep may end in the context's error. *)
Class Clock (W : Type) := {
  clock_now : W → Z;
  clock_sleep : Z → W → option error * W;
}.

(** The loop, for at most [fuel] passes; [None] when they do not suffice. *)
Fixpoint acquire `{TimeFormat} {W} `{Clock W} (fuel : nat) (g : gate) (w : W)
    : option (option error * gate * W) :=
  match fuel with
  | O => None
  | S fuel =>
      match acquire_step (clock_now w) g with
      | (Granted, g) => Some (None, g, w)
      | (Refused e, g) => Some (Some e, g, w)
      | (MustWait d, g) =>
          match clock_sleep d w with
          | (Some e, w) => Some (Some e, g, w)
          | (None, w) => acquire fuel g w
          end
      end
  end.

(** ** Reading the forge's signals *)

(** The loop of [decimalSeconds] over a [uint64] accumulator. *)
Fixpoint decimal_loop (out : Z) (v : string) : option Z :=
  match v with
  | EmptyString => Some out
  | String c v' =>
      if (byte_val c <? 48) || (57 <? byte_val c) then None
      else
        let digit := byte_val c - 48 in
        if (max_uint64 - digit) / 10 <? out then Some max_uint64
        else decimal_loop (out * 10 + digit) v'
  end.

Definition decimalSeconds (v : string) : option Z :=
  match v with EmptyString => None | _ => decimal_loop 0 v end.

Definition maxDurationSeconds : Z := max_int64 / second.

Definition addRetryAfter (now seconds : Z) : Z :=
  if seconds <=? maxDurationSeconds then
    let until := now + seconds * second in
    if time_after until latestBackoff then latestBackoff else until
  else
    let unix := Unix now in
    let latest := Unix latestBackoff in
    if (latest <? seconds) || (latest <=? unix) || (0 <=? unix) && (latest - unix <? seconds)
    then latestBackoff
    else time_Unix (unix + seconds) (Nanosecond now).

Definition secondaryBackoffUntil (now failures : Z) : Z :=
  let seconds := minimumBackoff / second in
  if failures <=? 1 then addRetryAfter now seconds
  else
    let shift := failures - 1 in
    if (64 <=? shift) || (Z.shiftr max_uint64 shift <? seconds) then latestBackoff
    else addRetryAfter now (Z.shiftl seconds shift).

Definition rateRemainingExhausted (h : headers) : bool :=
  let v := trim_space (h_RateRemaining h) in
  negb (bool_decide (v = "")) && bool_decide (parse_int v = Some 0).

(** [http.ParseTime], of the standard library's date formats. *)
Class HTTPTime := http_ParseTime : string → option Z.

Definition retryAfterUntil `{HTTPTime} (h : headers) (now : Z) : option Z :=
  let v := trim_space (h_RetryAfter h) in
  if bool_decide (v = "") then None
  else match decimalSeconds v with
       | Some secs => Some (addRetryAfter now secs)
       | None => http_ParseTime v
       end.

Definition rateResetUntil (h : headers) : option Z :=
  match decimalSeconds (trim_space (h_RateReset h)) with
  | None => None
  | Some epoch =>
      if epoch =? 0 then None
      else if Unix latestBackoff <=? epoch then Some latestBackoff
      else Some (time_Unix epoch 0)
  end.

Section observe.
Context {T : GoTables} {P : HTTPTime}.

Definition responseNamesSecondaryLimit (body : string) : bool :=
  existsb (λ phrase, contains phrase (ToLower body))
    ["secondary rate limit"; "secondary-rate-limits"; "abuse-rate-limits"; "abuse detection"].

Definition failures_of (g : gate) (c : requestClass) : Z :=
  default 0 (g_secondaryFailures g !! class_code c).

(** [gate.observe], named [observe_response] here: whether the response itself
    is a rate-limit refusal, and the gate after it. *)
Definition observe_response (now : Z) (class : requestClass) (status : Z) (h : headers)
    (body : string) (g : gate) : bool * gate :=
  let retryAfter := negb (bool_decide (trim_space (h_RetryAfter h) = "")) in
  let exhausted := rateRemainingExhausted h in
  let secondaryNamed := responseNamesSecondaryLimit body in
  let secondaryLimited := (status =? 429) || (status =? 403) && (retryAfter || secondaryNamed) in
  let responseLimited :=
    (status =? 429) || (status =? 403) && (retryAfter || exhausted || secondaryNamed) in
  let until :=
    match retryAfterUntil h now with
    | Some until => Some until
    | None => if exhausted then rateResetUntil h else None
    end in
  if negb responseLimited && negb exhausted then (false, g)
  else
    let failures :=
      if secondaryLimited && (failures_of g class <? max_uint64)
      then <[class_code class := failures_of g class + 1]> (g_secondaryFailures g)
      else g_secondaryFailures g in
    let fallback :=
      if secondaryLimited
      then secondaryBackoffUntil now (default 0 (failures !! class_code class))
      else now + minimumBackoff in
    let until :=
      match until with
      | Some until => if time_after until now then until else fallback
      | None => fallback
      end in
    (responseLimited,
     MkGate (g_windowStart g) (g_usedInWindow g)
       (if time_after until (g_blockedUntil g) then until else g_blockedUntil g)
       (g_sweepUsed g) (g_sweepBudget g) failures).

Definition succeed (class : requestClass) (g : gate) : gate :=
  MkGate (g_windowStart g) (g_usedInWindow g) (g_blockedUntil g) (g_sweepUsed g) (g_sweepBudget g)
    (delete (class_code class) (g_secondaryFailures g)).
End observe.
