(* ===== verification/ReviewGateFacts.v ===== *)
(** * ReviewGateFacts: bounds on what the controller spends

    Seconds fields saturate, backoffs double up to the last representable instant,
    a refusal closes the gate, the budget and the pace window hold across every
    sequence of operations, and [acquire] ends after one wait. *)

From S2P Require Import Prelude GoStd GoStdFacts Review ReviewDriver ReviewGate.
From Stdlib Require Import Ascii.

(** ** Seconds fields *)

Lemma dec_value_digits acc v :
  all_bytes is_digit v = true → 0 ≤ acc → ∃ n, dec_value acc v = Some n ∧ acc ≤ n.
Proof.
  revert acc. induction v as [|c v IH]; intros acc; simpl; [eauto with lia|].
  intros [Hc Hv]%andb_true_iff Hacc. rewrite Hc. unfold is_digit, in_range in Hc.
  destruct (IH (acc * 10 + (byte_val c - 48)) Hv) as (n & Hn & Hle); [lia|]. exists n. split; [done|lia].
Qed.

Lemma decimal_loop_value out v n :
  all_bytes is_digit v = true → 0 ≤ out ≤ max_uint64 → dec_value out v = Some n →
  decimal_loop out v = Some (Z.min n max_uint64).
Proof.
  revert out. induction v as [|c v IH]; intros out; simpl.
  { intros _ ? [= <-]. f_equal. lia. }
  intros [Hc Hv]%andb_true_iff Hout. rewrite Hc. pose proof Hc as Hc'.
  unfold is_digit, in_range in Hc'. intros Hn.
  destruct (_ || _) eqn:Hd; [lia|].
  destruct (Z.ltb_spec ((max_uint64 - (byte_val c - 48)) / 10) out) as [Ho|Ho].
  - destruct (dec_value_digits (out * 10 + (byte_val c - 48)) v Hv) as (n' & Hn' & Hle); [lia|].
    rewrite Hn in Hn'. injection Hn' as <-. f_equal.
    assert (max_uint64 < out * 10 + (byte_val c - 48)); [|lia].
    pose proof (Z.div_mod (max_uint64 - (byte_val c - 48)) 10).
    pose proof (Z.mod_pos_bound (max_uint64 - (byte_val c - 48)) 10). lia.
  - apply IH; [done| |done]. pose proof (Z.div_mod (max_uint64 - (byte_val c - 48)) 10).
    pose proof (Z.mod_pos_bound (max_uint64 - (byte_val c - 48)) 10). lia.
Qed.

(** An HTTP seconds field never wraps: for every non-empty run of decimal
    digits, however long, [decimalSeconds] answers its value, or the largest
    [uint64] when the value is larger. *)
Theorem decimalSeconds_saturates (v : string) :
  v ≠ "" → all_bytes is_digit v = true →
  ∃ n, dec_value 0 v = Some n ∧ decimalSeconds v = Some (Z.min n max_uint64).
Proof.
  intros Hne Hv. destruct (dec_value_digits 0 v Hv) as (n & Hn & _); [done|].
  exists n. split; [done|]. destruct v; [done|]. apply decimal_loop_value; [done| |done].
  unfold max_uint64. lia.
Qed.

Lemma decimalSeconds_saturates_witness :
  ∃ n, dec_value 0 "99999999999999999999" = Some n
    ∧ decimalSeconds "99999999999999999999" = Some (Z.min n max_uint64).
Proof. apply decimalSeconds_saturates; [discriminate|vm_compute; reflexivity]. Defined.

(** ** Backoff instants *)

Lemma Unix_latest : Unix latestBackoff = 253402300799.
Proof. reflexivity. Qed.

(** After the Unix epoch a delay is the instant [seconds] later, capped at the last
    instant the diagnostic can print, on the duration path and on the calendar path. *)
Lemma addRetryAfter_min now seconds :
  time_Unix 0 0 ≤ now → 0 ≤ seconds ≤ max_uint64 →
  addRetryAfter now seconds = Z.min (now + seconds * second) latestBackoff.
Proof.
  intros Hnow Hs. unfold addRetryAfter, time_after.
  destruct (Z.leb_spec seconds maxDurationSeconds) as [Hd|Hd].
  { destruct (Z.ltb_spec latestBackoff (now + seconds * second)); lia. }
  rewrite Unix_latest. unfold Unix, time_Unix, Nanosecond, latestBackoff, time_Unix, unix_offset, second in *.
  change maxDurationSeconds with 9223372036 in Hd.
  pose proof (Z.div_mod now 1000000000 ltac:(lia)) as Hdm.
  pose proof (Z.mod_pos_bound now 1000000000 ltac:(lia)) as Hm.
  set (q := now / 1000000000) in *. set (r := now mod 1000000000) in *.
  destruct (_ || _ || _) eqn:Hc.
  - apply orb_true_iff in Hc as [[Hc|Hc]%orb_true_iff|Hc%andb_true_iff]; lia.
  - apply orb_false_iff in Hc as [[Hc1 Hc2]%orb_false_iff Hc3%andb_false_iff]. lia.
Qed.

(** Unexplained secondary limits back off exponentially: the [k]-th failure in
    a row waits [60 * 2^(k-1)] seconds, capped at the last representable instant,
    for every count a [uint64] can hold; the shift never loses a bit. *)
Theorem secondary_backoff_doubles (now failures : Z) :
  time_Unix 0 0 ≤ now ≤ latestBackoff → 1 ≤ failures ≤ max_uint64 →
  secondaryBackoffUntil now failures
  = Z.min (now + 60 * 2 ^ (failures - 1) * second) latestBackoff.
Proof.
  intros Hnow Hf. unfold secondaryBackoffUntil.
  change (minimumBackoff / second) with 60.
  destruct (Z.leb_spec failures 1).
  { assert (failures = 1) as -> by lia. rewrite addRetryAfter_min; [done|lia|].
    unfold max_uint64. lia. }
  assert (0 < 2 ^ (failures - 1)) as Hpow by (apply Z.pow_pos_nonneg; lia).
  assert (max_uint64 < 60 * 2 ^ (failures - 1) →
          latestBackoff = Z.min (now + 60 * 2 ^ (failures - 1) * second) latestBackoff) as Hbig.
  { intros Hb. unfold latestBackoff, time_Unix, unix_offset, second, max_uint64 in *. lia. }
  destruct (Z.leb_spec 64 (failures - 1)); simpl.
  { apply Hbig. assert (2 ^ 64 ≤ 2 ^ (failures - 1)) by (apply Z.pow_le_mono_r; lia).
    unfold max_uint64. lia. }
  rewrite Z.shiftr_div_pow2 by lia.
  destruct (Z.ltb_spec (max_uint64 / 2 ^ (failures - 1)) 60) as [Hl|Hl].
  { apply Hbig. pose proof (Z.div_mod max_uint64 (2 ^ (failures - 1))).
    pose proof (Z.mod_pos_bound max_uint64 (2 ^ (failures - 1)) Hpow). nia. }
  rewrite Z.shiftl_mul_pow2 by lia. apply addRetryAfter_min; [lia|].
  pose proof (Z.div_mod max_uint64 (2 ^ (failures - 1))).
  pose proof (Z.mod_pos_bound max_uint64 (2 ^ (failures - 1)) Hpow). nia.
Qed.

Lemma secondary_backoff_doubles_witness :
  secondaryBackoffUntil (time_Unix 1700000000 0) 4
  = Z.min (time_Unix 1700000000 0 + 60 * 2 ^ (4 - 1) * second) latestBackoff.
Proof.
  apply secondary_backoff_doubles; vm_compute; split; discriminate.
Defined.

(** ** Responses *)

Section responses.
Context {T : GoTables} {P : HTTPTime} {TF : TimeFormat}.
Implicit Types (g : gate) (h : headers).

Lemma secondaryBackoffUntil_after now failures :
  time_Unix 0 0 ≤ now < latestBackoff → 0 ≤ failures ≤ max_uint64 →
  now < secondaryBackoffUntil now failures.
Proof.
  intros Hnow Hf. unfold secondaryBackoffUntil. change (minimumBackoff / second) with 60.
  assert (∀ s, 0 < s ≤ max_uint64 → now < addRetryAfter now s) as Hadd.
  { intros s Hs. rewrite addRetryAfter_min by lia. unfold second. lia. }
  destruct (Z.leb_spec failures 1); [apply Hadd; unfold max_uint64; lia|].
  destruct (_ || _) eqn:Hc; [lia|]. apply orb_false_iff in Hc as [H1 H2].
  rewrite Z.shiftr_div_pow2 in H2 by lia. rewrite Z.shiftl_mul_pow2 by lia. apply Hadd.
  assert (0 < 2 ^ (failures - 1)) as Hpow by (apply Z.pow_pos_nonneg; lia).
  pose proof (Z.div_mod max_uint64 (2 ^ (failures - 1))).
  pose proof (Z.mod_pos_bound max_uint64 (2 ^ (failures - 1)) Hpow). nia.
Qed.

(** The counters are [uint64]s. *)
Definition counters_ok g : Prop :=
  map_Forall (λ _ n, 0 ≤ n ≤ max_uint64) (g_secondaryFailures g).

Lemma failures_of_ok g c : counters_ok g → 0 ≤ failures_of g c ≤ max_uint64.
Proof.
  intros Hg. unfold failures_of. destruct (_ !! _) as [n|] eqn:Hn; [by apply (Hg _ _ Hn)|].
  unfold max_uint64. simpl. lia.
Qed.

(** Counting a secondary failure saturates. *)
Lemma count_failure_ok g c b :
  counters_ok g →
  map_Forall (λ _ n, 0 ≤ n ≤ max_uint64)
    (if (b : bool) && (failures_of g c <? max_uint64)
     then <[class_code c := failures_of g c + 1]> (g_secondaryFailures g)
     else g_secondaryFailures g).
Proof.
  intros Hg. pose proof (failures_of_ok g c Hg). destruct b; simpl; [|done].
  destruct (Z.ltb_spec (failures_of g c) max_uint64); [|done].
  apply map_Forall_insert_2; [lia|done].
Qed.

(** A rate-limit response closes the gate. Whatever headers and body come
    with it, a response the gate reports as limited leaves it blocked beyond the
    present instant, so the next [acquire] is refused without touching the
    network; a spent primary window closes it too; and no response ever opens a
    gate or brings a standing backoff forward. *)
Theorem limited_response_closes (now : Z) (class : requestClass) (status : Z) (h : headers)
    (body : string) (g : gate) :
  time_Unix 0 0 ≤ now < latestBackoff → counters_ok g →
  let '(limited, g') := observe_response now class status h body g in
  g_blockedUntil g ≤ g_blockedUntil g' ∧ counters_ok g'
  ∧ (limited || rateRemainingExhausted h = true →
     now < g_blockedUntil g'
     ∧ ∃ e, acquire_step now g' = (Refused e, g') ∧ errors_Is e ErrRateLimited = true)
  ∧ (limited || rateRemainingExhausted h = false → g' = g).
Proof.
  intros Hnow Hg. unfold observe_response.
  set (ra := negb (bool_decide (trim_space (h_RetryAfter h) = ""))).
  set (sl := (status =? 429) || (status =? 403) && (ra || responseNamesSecondaryLimit body)).
  set (rl := (status =? 429) || (status =? 403)
             && (ra || rateRemainingExhausted h || responseNamesSecondaryLimit body)).
  destruct (negb rl && negb (rateRemainingExhausted h)) eqn:Hnone.
  { apply andb_true_iff in Hnone as [Hrl%negb_true_iff Hex%negb_true_iff].
    rewrite Hex. split_and!; [lia|done|done|done]. }
  pose proof (count_failure_ok g class sl Hg) as Hcount.
  set (fs := if sl && _ then _ else _) in *.
  set (fallback := if sl then _ else _).
  assert (now < fallback) as Hfall.
  { unfold fallback. destruct sl; [|unfold minimumBackoff, minute, second; lia].
    apply secondaryBackoffUntil_after; [done|].
    destruct (fs !! class_code class) as [n|] eqn:Hn; simpl; [by apply (Hcount _ _ Hn)|].
    unfold max_uint64. lia. }
  set (until := match retryAfterUntil h now with Some u => Some u | None => _ end).
  set (until' := match until with Some u => if time_after u now then u else fallback
                             | None => fallback end).
  assert (now < until') as Hu.
  { unfold until'. destruct until as [u|]; [|done]. unfold time_after.
    destruct (Z.ltb_spec now u); lia. }
  clearbody until' fallback until fs. cbn [g_blockedUntil g_secondaryFailures].
  unfold time_after. assert (rl || rateRemainingExhausted h = true) as Hany.
  { destruct rl, (rateRemainingExhausted h); done. }
  split_and!; [destruct (Z.ltb_spec (g_blockedUntil g) until'); lia|exact Hcount| |congruence].
  intros _. assert (now < (if g_blockedUntil g <? until' then until' else g_blockedUntil g)) as Hb
    by (destruct (Z.ltb_spec (g_blockedUntil g) until'); lia).
  split; [done|]. eexists. unfold acquire_step, time_before. cbn [g_blockedUntil].
  rewrite (proj2 (Z.ltb_lt _ _) Hb). split; [done|]. by vm_compute.
Qed.
End responses.

#[export] Instance ex_http_time : HTTPTime := λ _, None.
#[export] Instance ex_time_format : TimeFormat := λ _, "".

Lemma limited_response_closes_witness :
  let '(limited, g') := observe_response (time_Unix 1700000000 0) requestIssue 403
                          (MkHeaders "" "0" "1700000100") "" newGate in
  limited || true = true → ∃ e, acquire_step (time_Unix 1700000000 0) g' = (Refused e, g').
Proof.
  pose proof (limited_response_closes (time_Unix 1700000000 0) requestIssue 403
    (MkHeaders "" "0" "1700000100") "" newGate ltac:(vm_compute; split; [discriminate|reflexivity])
    ltac:(intros ? ? [=])) as H.
  destruct (observe_response _ _ _ _ _ _) as [limited g']. destruct H as (_ & _ & H & _).
  intros Hl. destruct H as (_ & e & He & _).
  - destruct limited; vm_compute; reflexivity.
  - by exists e.
Defined.

(** ** Spending *)

Section spending.
Context {T : GoTables} {P : HTTPTime} {TF : TimeFormat}.
Implicit Types (g : gate).

(** What happens to a gate, in the order its mutex grants it. *)
Inductive gate_op :=
  | GAcquire (now : Z)
  | GObserve (now : Z) (class : requestClass) (status : Z) (h : headers) (body : string)
  | GSucceed (class : requestClass)
  | GBeginSweep.

(** The gate after one operation, and whether a request was granted. *)
Definition gate_step (o : gate_op) g : bool * gate :=
  match o with
  | GAcquire now =>
      match acquire_step now g with (Granted, g') => (true, g') | (_, g') => (false, g') end
  | GObserve now class status h body => (false, (observe_response now class status h body g).2)
  | GSucceed class => (false, succeed class g)
  | GBeginSweep => (false, beginSweep g)
  end.

Definition gate_ok g : Prop :=
  0 ≤ g_usedInWindow g ≤ paceRequests ∧ 0 ≤ g_sweepUsed g ≤ g_sweepBudget g.

Lemma observe_response_spend now class status h body g :
  let g' := (observe_response now class status h body g).2 in
  g_windowStart g' = g_windowStart g ∧ g_usedInWindow g' = g_usedInWindow g
  ∧ g_sweepUsed g' = g_sweepUsed g ∧ g_sweepBudget g' = g_sweepBudget g.
Proof. unfold observe_response. by destruct (negb _ && negb _). Qed.

Lemma time_Sub_window now start :
  (paceWindow <=? time_Sub now start) = (paceWindow <=? now - start).
Proof. unfold time_Sub, paceWindow, second, min_int64, max_int64. lia. Qed.

(** The pace window of a granted request. *)
Lemma acquire_granted now g g' :
  acquire_step now g = (Granted, g') →
  g_sweepUsed g < g_sweepBudget g ∧ g_blockedUntil g ≤ now
  ∧ g_sweepUsed g' = g_sweepUsed g + 1 ∧ g_sweepBudget g' = g_sweepBudget g
  ∧ (g_windowStart g + paceWindow ≤ now ∧ g_windowStart g' = now ∧ g_usedInWindow g' = 1
     ∨ now < g_windowStart g + paceWindow ∧ g_windowStart g' = g_windowStart g
       ∧ g_usedInWindow g < paceRequests ∧ g_usedInWindow g' = g_usedInWindow g + 1).
Proof.
  unfold acquire_step, time_before. destruct (Z.ltb_spec now (g_blockedUntil g)); [done|].
  destruct (Z.leb_spec (g_sweepBudget g) (g_sweepUsed g)); [done|]. rewrite time_Sub_window.
  destruct (Z.leb_spec paceWindow (now - g_windowStart g)).
  - simpl. intros [= <-]. simpl. lia.
  - destruct (Z.ltb_spec (g_usedInWindow g) paceRequests); [|done]. intros [= <-]. simpl. lia.
Qed.

(** A refusal spends nothing, and at most closes an expired window. *)
Lemma acquire_not_granted now g r g' :
  acquire_step now g = (r, g') → r ≠ Granted → g' = g.
Proof.
  unfold acquire_step. destruct (time_before _ _); [by intros [= <- <-]|].
  destruct (_ <=? g_sweepUsed g); [by intros [= <- <-]|].
  destruct (paceWindow <=? _); [by intros [= <- <-]|].
  destruct (_ <? paceRequests); [by intros [= <- <-]|]. intros [= <- <-] _. by destruct g.
Qed.

Lemma gate_step_ok o g : gate_ok g → gate_ok (gate_step o g).2.
Proof.
  intros [Hw Hs]. destruct o as [now|now class status h body|class|]; simpl.
  - destruct (acquire_step now g) as [r g'] eqn:Ha. destruct r.
    + apply acquire_granted in Ha. unfold gate_ok, paceRequests in *. simpl. lia.
    + by apply acquire_not_granted in Ha as ->.
    + by apply acquire_not_granted in Ha as ->.
  - destruct (observe_response_spend now class status h body g) as (_ & E1 & E2 & E3).
    unfold gate_ok. simpl in *. by rewrite E1, E2, E3.
  - done.
  - unfold gate_ok. simpl. lia.
Qed.

(** *** The pace bound *)

Definition op_time (o : gate_op) : option Z :=
  match o with GAcquire now => Some now | _ => None end.

(** The clock does not run backwards from one reservation to the next. *)
Fixpoint clock_ordered (last : Z) (ops : list gate_op) : Prop :=
  match ops with
  | [] => True
  | GAcquire now :: ops => last ≤ now ∧ clock_ordered now ops
  | _ :: ops => clock_ordered last ops
  end.

(** Requests granted in [a, b). *)
Fixpoint granted (a b : Z) (ops : list gate_op) g : Z :=
  match ops with
  | [] => 0
  | o :: ops =>
      let '(yes, g') := gate_step o g in
      (if yes && match op_time o with Some now => (a <=? now) && (now <? b) | None => false end
       then 1 else 0) + granted a b ops g'
  end.

(** The number of windows that can start in [m, b). *)
Definition starts (b m : Z) : Z := if b <=? m then 0 else (b - 1 - m) / paceWindow + 1.

(** The most that can still be granted in [a, b) from a window begun at [start]
    with [used] of its slots taken. *)
Definition room (a b start used : Z) : Z :=
  if b <=? start then 0
  else if start <=? a - paceWindow then paceRequests * starts b (a - paceWindow + 1)
  else paceRequests - used + paceRequests * starts b (start + paceWindow).

Lemma starts_nonneg b m : 0 ≤ starts b m.
Proof.
  unfold starts. destruct (Z.leb_spec b m); [done|].
  pose proof (Z.div_pos (b - 1 - m) paceWindow). unfold paceWindow, second in *. lia.
Qed.

Lemma starts_antitone b m m' : m ≤ m' → starts b m' ≤ starts b m.
Proof.
  intros Hm. unfold starts. destruct (Z.leb_spec b m').
  { pose proof (starts_nonneg b m). done. }
  destruct (Z.leb_spec b m); [lia|].
  pose proof (Z.div_le_mono (b - 1 - m') (b - 1 - m) paceWindow). unfold paceWindow, second in *. lia.
Qed.

Lemma starts_next b m : m < b → starts b m = starts b (m + paceWindow) + 1.
Proof.
  intros Hm. unfold starts. destruct (Z.leb_spec b m); [lia|].
  replace (b - 1 - (m + paceWindow)) with (b - 1 - m + (-1) * paceWindow) by lia.
  rewrite Z.div_add by done. destruct (Z.leb_spec b (m + paceWindow)); [|lia].
  rewrite Z.div_small; lia.
Qed.

Lemma room_reset a b start used now :
  a < b → start + paceWindow ≤ now → used ≤ paceRequests →
  (if (a <=? now) && (now <? b) then 1 else 0) + room a b now 1 ≤ room a b start used.
Proof.
  intros Hab Hn Hu. unfold room.
  pose proof (starts_nonneg b (start + paceWindow)).
  pose proof (starts_nonneg b (a - paceWindow + 1)).
  assert (0 < paceWindow) by done. assert (paceRequests = 40) as Hp by done.
  destruct (Z.leb_spec b now) as [Hb|Hb].
  { destruct (_ && _) eqn:Hc; [lia|]. destruct (Z.leb_spec b start); [lia|].
    destruct (Z.leb_spec start (a - paceWindow)); lia. }
  destruct (Z.leb_spec b start); [lia|]. pose proof (starts_next b now Hb).
  destruct (Z.leb_spec start (a - paceWindow)).
  - destruct (Z.leb_spec now (a - paceWindow)).
    + destruct (_ && _) eqn:Hc; lia.
    + pose proof (starts_antitone b (a - paceWindow + 1) now ltac:(lia)).
      destruct (_ && _); lia.
  - pose proof (starts_antitone b (start + paceWindow) now Hn).
    destruct (Z.leb_spec now (a - paceWindow)); [lia|]. destruct (_ && _); lia.
Qed.

Lemma room_same a b start used now :
  a < b → start ≤ now → now < start + paceWindow →
  (if (a <=? now) && (now <? b) then 1 else 0) + room a b start (used + 1) ≤ room a b start used.
Proof.
  intros Hab Hs Hn. unfold room. destruct (Z.leb_spec b start).
  { destruct (_ && _) eqn:Hc; lia. }
  destruct (Z.leb_spec start (a - paceWindow)); destruct (_ && _) eqn:Hc; lia.
Qed.

Lemma room_nonneg a b start used : used ≤ paceRequests → 0 ≤ room a b start used.
Proof.
  intros Hu. unfold room. pose proof (starts_nonneg b (start + paceWindow)).
  pose proof (starts_nonneg b (a - paceWindow + 1)). unfold paceRequests in *.
  destruct (_ <=? _); [done|]. destruct (_ <=? _); lia.
Qed.

Lemma granted_room a b ops g last :
  a < b → gate_ok g → g_windowStart g ≤ last → clock_ordered last ops →
  granted a b ops g ≤ room a b (g_windowStart g) (g_usedInWindow g).
Proof.
  intros Hab. revert g last. induction ops as [|o ops IH]; intros g last Hg Hl Ho; simpl.
  { apply room_nonneg, Hg. }
  pose proof (gate_step_ok o g Hg) as Hg'.
  assert (∀ g', (gate_step o g).2 = g' → g_windowStart g' = g_windowStart g →
    g_usedInWindow g' = g_usedInWindow g → clock_ordered last ops →
    granted a b ops g' ≤ room a b (g_windowStart g) (g_usedInWindow g)) as Hsame.
  { intros g' <- Hw Hu Ho'. rewrite <-Hw, <-Hu. apply (IH _ last); [done|lia|done]. }
  destruct o as [now|now class status h body|class|]; simpl in *.
  - destruct Ho as [Hln Ho]. destruct (acquire_step now g) as [r g'] eqn:Ha. destruct r; simpl in *.
    + pose proof (acquire_granted now g g' Ha) as (_ & _ & _ & _ & Hcase).
      destruct Hcase as [(Hw & Hs' & Hu')|(Hw & Hs' & Hlt & Hu')].
      * pose proof (IH g' now Hg' ltac:(lia) Ho) as Hrest. rewrite Hs', Hu' in Hrest.
        pose proof (room_reset a b (g_windowStart g) (g_usedInWindow g) now Hab Hw
          ltac:(destruct Hg; lia)). lia.
      * pose proof (IH g' now Hg' ltac:(lia) Ho) as Hrest. rewrite Hs', Hu' in Hrest.
        pose proof (room_same a b (g_windowStart g) (g_usedInWindow g) now Hab
          ltac:(lia) Hw). lia.
    + apply acquire_not_granted in Ha as ->; [|done]. apply (IH g now); [done|lia|done].
    + apply acquire_not_granted in Ha as ->; [|done]. apply (IH g now); [done|lia|done].
  - destruct (observe_response_spend now class status h body g) as (E1 & E2 & _). by apply Hsame.
  - by apply Hsame.
  - by apply Hsame.
Qed.

(** C38: the spend is paced. Over any stretch of [k] pace windows, wherever it
    begins and however acquisitions, responses, successes and sweeps are
    interleaved, the gate grants at most [40 * (k + 1)] requests — 4,840 in any
    hour, under the forge's 5,000 — and it never holds more than its window's or
    its sweep's allowance. *)
Theorem spend_paced (a k last : Z) (ops : list gate_op) (g : gate) :
  0 < k → gate_ok g → g_windowStart g ≤ last → clock_ordered last ops →
  granted a (a + k * paceWindow) ops g ≤ paceRequests * (k + 1).
Proof.
  intros Hk Hg Hl Ho. assert (0 < paceWindow) as HW by done.
  etransitivity; [apply (granted_room a (a + k * paceWindow) ops g last); [nia|done..]|].
  destruct Hg as [Hu _]. set (b := a + k * paceWindow).
  assert (starts b (a - paceWindow + 1) ≤ k + 1) as H1.
  { unfold starts. destruct (Z.leb_spec b (a - paceWindow + 1)); [lia|].
    pose proof (Z.div_lt_upper_bound (b - 1 - (a - paceWindow + 1)) paceWindow (k + 1)).
    unfold b in *. lia. }
  unfold room. assert (paceRequests = 40) as Hp by done.
  destruct (Z.leb_spec b (g_windowStart g)); [lia|].
  destruct (Z.leb_spec (g_windowStart g) (a - paceWindow)); [lia|].
  pose proof (starts_antitone b (a + 1) (g_windowStart g + paceWindow) ltac:(lia)).
  assert (starts b (a + 1) ≤ k); [|lia].
  unfold starts. destruct (Z.leb_spec b (a + 1)); [lia|].
  pose proof (Z.div_lt_upper_bound (b - 1 - (a + 1)) paceWindow k). unfold b in *. lia.
Qed.

(** *** Waiting *)

(** A completed sleep lasts at least as long as asked. *)
Definition honest_clock {W} (C : Clock W) : Prop :=
  ∀ d (w w' : W), clock_sleep d w = (None, w') → clock_now w + d ≤ clock_now w'.

(** [acquire] returns after at most one sleep: with a clock that honours its
    sleeps, two passes of the loop always suffice, and it answers with a
    reservation, with a standing backoff, with a spent budget, or with the
    error of a cancelled sleep. *)
Theorem acquire_returns {W} (C : Clock W) (g : gate) (w : W) :
  honest_clock C → g_windowStart g ≤ clock_now w →
  ∃ r g' w', acquire 2 g w = Some (r, g', w') ∧
    match r with
    | None => g_sweepUsed g' = g_sweepUsed g + 1
    | Some e => errors_Is e ErrRateLimited = true ∨ errors_Is e ErrSweepBudget = true
                ∨ ∃ d, (clock_sleep d w).1 = Some e
    end.
Proof.
  intros Hc Hs.
  assert (∀ now g0 e g', acquire_step now g0 = (Refused e, g') →
    errors_Is e ErrRateLimited = true ∨ errors_Is e ErrSweepBudget = true) as Href.
  { intros now g0 e g'. unfold acquire_step. destruct (time_before _ _); [intros [= <- _]; left; by vm_compute|].
    destruct (_ <=? g_sweepUsed g0); [intros [= <- _]; right; by vm_compute|].
    destruct (paceWindow <=? _); [done|]. by destruct (_ <? paceRequests). }
  cbn [acquire]. destruct (acquire_step (clock_now w) g) as [[|e|d] g1] eqn:Ha.
  - eexists _, _, _. split; [done|]. simpl. by apply acquire_granted in Ha as (_ & _ & -> & _).
  - eexists _, _, _. split; [done|]. simpl. naive_solver.
  - pose proof (acquire_not_granted _ _ _ _ Ha ltac:(done)) as ->.
    destruct (clock_sleep d w) as [[e|] w'] eqn:Hsl.
    { eexists _, _, _. split; [done|]. simpl. right; right. exists d. by rewrite Hsl. }
    apply Hc in Hsl.
    destruct (acquire_step (clock_now w') g) as [[|e|d'] g2] eqn:Ha'.
    + eexists _, _, _. split; [done|]. simpl. by apply acquire_granted in Ha' as (_ & _ & -> & _).
    + eexists _, _, _. split; [done|]. simpl. naive_solver.
    + exfalso. revert Ha Ha'. unfold acquire_step. destruct (time_before _ _); [done|].
      destruct (_ <=? g_sweepUsed g); [done|]. rewrite !time_Sub_window.
      destruct (Z.leb_spec paceWindow (clock_now w - g_windowStart g)); [done|].
      destruct (_ <? paceRequests) eqn:Hu; [done|]. intros [= Hd].
      destruct (time_before _ _); [done|].
      destruct (Z.leb_spec paceWindow (clock_now w' - g_windowStart g)); [done|].
      unfold time_Sub, paceWindow, second, min_int64, max_int64 in *. lia.
Qed.
End spending.

(** ** Instances *)

(** Forty requests around a window boundary, then forty in each of 120 windows. *)
Definition ex_start : Z := time_Unix 1700000000 0.
Definition ex_hour : list gate_op :=
  GAcquire ex_start :: replicate 39 (GAcquire (ex_start + paceWindow - 1))
  ++ (seq 1 120 ≫= λ i, GBeginSweep :: replicate 40 (GAcquire (ex_start + Z.of_nat i * paceWindow))).

Fixpoint clock_orderedb (last : Z) (ops : list gate_op) : bool :=
  match ops with
  | [] => true
  | GAcquire now :: ops => (last <=? now) && clock_orderedb now ops
  | _ :: ops => clock_orderedb last ops
  end.

Lemma clock_orderedb_ok last ops : clock_orderedb last ops = true → clock_ordered last ops.
Proof.
  revert last. induction ops as [|[] ops IH]; intros last; simpl; auto.
  intros [? ?]%andb_true_iff. split; [lia|auto].
Qed.

Lemma newGate_ok : gate_ok newGate.
Proof. unfold gate_ok, newGate, paceRequests, sweepRequestBudget; simpl. lia. Qed.

Lemma spend_paced_witness :
  granted (ex_start + paceWindow - 1) (ex_start + paceWindow - 1 + 120 * paceWindow) ex_hour newGate
  ≤ paceRequests * (120 + 1).
Proof.
  apply (spend_paced (ex_start + paceWindow - 1) 120 0);
    [lia|apply newGate_ok|done|apply clock_orderedb_ok; vm_compute; reflexivity].
Defined.

(** The bound is not 4,800: an hour that begins at the end of a window admits
    39 requests of that window and forty in each of the next 120, 4,839 in all. *)
Theorem hour_over_4800 :
  granted (ex_start + paceWindow - 1) (ex_start + paceWindow - 1 + 3600 * second) ex_hour newGate
  = 4839.
Proof. vm_compute. reflexivity. Qed.

Definition ex_clock : Clock Z := {| clock_now w := w; clock_sleep d w := (None, w + d) |}.

Lemma acquire_returns_witness :
  ∃ r g' w', @acquire ex_time_format Z ex_clock 2 (MkGate 0 40 0 40 500 ∅) 1 = Some (r, g', w').
Proof.
  destruct (acquire_returns ex_clock (MkGate 0 40 0 40 500 ∅) 1) as (r & g' & w' & H & _).
  - intros d w w' [= <-]. simpl. lia.
  - done.
  - by exists r, g', w'.
Defined.
