(* ===== verification/FaultIO.v ===== *)
(** * FaultIO: operations on durable state that may fail anywhere

    The effect monad of the components that keep durable state. Every system call,
    git command or backend request takes the next entry of a fault stream and may
    fail, before or after it took effect, an append also halfway. The world keeps each
    durable state it went through, so that what a crash can leave behind is one of them. With it, the two
    judgements proofs about such operations are made of: [triple], which holds
    however an operation ends, and [runs], for an operation no call of which fails. *)

From S2P Require Import Prelude.

Section world.
Context {D : Type}.

(** A call that fails does so before or after it took effect; a write also short, with all
    but its last byte and [missing] bytes more on disk. *)
Inductive fault := FailsBefore (e : error) | FailsAfter (e : error) | FailsShort (missing : nat) (e : error).

Record world := MkWorld {
  wd_now : D;
  wd_past : list D;                (* earlier states, newest first *)
  wd_faults : list (option fault); (* what the next calls do; none fails at its end *)
}.

Definition IO (A : Type) : Type := world → result A * world.

#[export] Instance IO_ret : MRet IO := λ A a w, (Ok a, w).
#[export] Instance IO_bind : MBind IO := λ A B k m w,
  match m w with
  | (Ok a, w') => k a w'
  | (Err e, w') => (Err e, w')
  end.

Definition throw {A} (e : error) : IO A := λ w, (Err e, w).
Definition lift {A} (r : result A) : IO A := λ w, (r, w).

(** The call's error through [f]. *)
Definition wrapping {A} (f : error → error) (m : IO A) : IO A := λ w,
  match m w with
  | (Ok a, w') => (Ok a, w')
  | (Err e, w') => (Err (f e), w')
  end.

(** The outcome as a value, for a caller that looks at the error. *)
Definition attempt {A} (m : IO A) : IO (result A) := λ w, let '(r, w') := m w in (Ok r, w').

(** An error the operating system answers with: it wraps none of the program's own. *)
Definition os_error (e : error) : error := errorf (err_text e).

(** One system call or request: it does [f], or fails, for a write that falls short with
    [short] done. *)
Definition write_call {A} (short : nat → D → D) (f : D → result A * D) : IO A := λ w,
  let '(r, d) := f (wd_now w) in
  let past := wd_now w :: wd_past w in
  match wd_faults w with
  | Some (FailsBefore e) :: faults => (Err e, MkWorld (wd_now w) past faults)
  | Some (FailsAfter e) :: faults => (Err e, MkWorld d past faults)
  | Some (FailsShort missing e) :: faults => (Err e, MkWorld (short missing (wd_now w)) past faults)
  | None :: faults => (r, MkWorld d past faults)
  | [] => (r, MkWorld d past [])
  end.

(** A call that does nothing halfway. *)
Definition call {A} (f : D → result A * D) : IO A := write_call (λ _ d, d) f.

(** A call that reads. *)
Definition inspect {A} (f : D → result A) : IO A := call (λ d, (f d, d)).
(** A call without an effect on the state kept here. *)
Definition syscall : IO unit := inspect (λ _, Ok tt).
End world.
Arguments world : clear implicits.
Arguments IO : clear implicits.

(** ** Reasoning about operations that may fail anywhere

    [triple I P m Q]: started in a state with [P], every state [m] goes through and
    the one it ends in have [I], however it ends; and if it succeeds, [Q]. *)

Section logic.
Context {D : Type}.

Definition triple {A} (I P : D → Prop) (m : IO D A) (Q : A → D → Prop) : Prop :=
  ∀ w r w', P (wd_now w) → m w = (r, w') →
  ∃ l, wd_past w' = l ++ wd_past w ∧ Forall I l ∧ I (wd_now w')
       ∧ ∀ a, r = Ok a → Q a (wd_now w').

Section rules.
Context (I : D → Prop).

Lemma triple_ret {A} (a : A) P (Q : A → D → Prop) :
  (∀ d, P d → I d ∧ Q a d) → triple I P (mret a) Q.
Proof.
  intros H w r w' HP [= <- <-]. destruct (H _ HP) as [? ?]. exists []. split; [done|].
  split; [constructor|]. split; [done|]. by intros ? [= <-].
Qed.

Lemma triple_throw {A} e P (Q : A → D → Prop) :
  (∀ d, P d → I d) → triple I P (throw e) Q.
Proof.
  intros H w r w' HP [= <- <-]. exists []. split; [done|]. split; [constructor|]. split; [by apply H|done].
Qed.

Lemma triple_bind {A B} (m : IO D A) (k : A → IO D B) P R Q :
  triple I P m R → (∀ a, triple I (R a) (k a) Q) → triple I P (m ≫= k) Q.
Proof.
  intros Hm Hk w r w' HP. unfold mbind, IO_bind. destruct (m w) as [[a|e] w1] eqn:E.
  - destruct (Hm _ _ _ HP E) as (l1 & H1 & I1 & J1 & Q1). intros H2.
    destruct (Hk a _ _ _ (Q1 a eq_refl) H2) as (l2 & H3 & I2 & J2 & Q2).
    exists (l2 ++ l1). rewrite H3, H1, app_assoc. split; [done|]. split; [by apply Forall_app|]. done.
  - intros [= <- <-]. destruct (Hm _ _ _ HP E) as (l1 & H1 & I1 & J1 & _). exists l1. done.
Qed.

Lemma triple_wrapping {A} f (m : IO D A) P Q : triple I P m Q → triple I P (wrapping f m) Q.
Proof.
  intros Hm w r w' HP. unfold wrapping. destruct (m w) as [[a|e] w1] eqn:E; intros [= <- <-];
    destruct (Hm _ _ _ HP E) as (l & H1 & I1 & J1 & Q1); exists l; [done|].
  split; [done|]. split; [done|]. split; done.
Qed.

Lemma triple_attempt {A} (m : IO D A) P Q :
  triple I P m Q → triple I P (attempt m) (λ r d, match r with Ok a => Q a d | Err _ => I d end).
Proof.
  intros Hm w r w' HP. unfold attempt. destruct (m w) as [r0 w1] eqn:E. intros [= <- <-].
  destruct (Hm _ _ _ HP E) as (l & H1 & I1 & J1 & Q1). exists l. split; [done|]. split; [done|].
  split; [done|]. intros a [= <-]. destruct r0; [by apply Q1|done].
Qed.

Lemma triple_write {A} short (f : D → result A * D) (P : D → Prop) Q :
  (∀ d, P d → I d) → (∀ d missing, P d → I (short missing d)) →
  (∀ d r d', P d → f d = (r, d') → I d' ∧ ∀ a, r = Ok a → Q a d') →
  triple I P (write_call short f) Q.
Proof.
  intros HI Hshort Hf w r w' HP. unfold write_call. destruct (f (wd_now w)) as [r0 d0] eqn:E.
  destruct (Hf _ _ _ HP E) as [Hd0 HQ]. pose proof (HI _ HP).
  destruct (wd_faults w) as [|[[e|e|m e]|] fs]; intros [= <- <-]; exists [wd_now w]; simpl;
    (split; [done|]; split; [by apply Forall_singleton|]; first [done|by split; [apply Hshort|]]).
Qed.

Lemma triple_call {A} (f : D → result A * D) P Q :
  (∀ d, P d → I d) →
  (∀ d r d', P d → f d = (r, d') → I d' ∧ ∀ a, r = Ok a → Q a d') →
  triple I P (call f) Q.
Proof. intros HI. apply triple_write; auto. Qed.

Lemma triple_inspect {A} (f : D → result A) P Q :
  (∀ d, P d → I d) → (∀ d a, P d → f d = Ok a → Q a d) → triple I P (inspect f) Q.
Proof.
  intros HI Hf. apply triple_call; [done|]. intros d r d' HP [= <- <-]. split; [by apply HI|].
  intros a Ha. by apply Hf.
Qed.

Lemma triple_syscall P : (∀ d, P d → I d) → triple I P syscall (λ _, P).
Proof. intros HI. by apply triple_inspect. Qed.

(** A call whose outcome the caller goes on with, either way. *)
Lemma triple_tried {A} (f : D → result A * D) (P : D → Prop) :
  (∀ d, P d → I d) → (∀ d, P d → P (f d).2) → triple I P (attempt (call f)) (λ _, P).
Proof.
  intros HI Hf w r w' HP E. unfold attempt in E. destruct (call f w) as [r0 w0] eqn:Ec. injection E as <- <-.
  assert (P (wd_now w0) ∧ wd_past w0 = [wd_now w] ++ wd_past w) as [HP0 Hpast].
  { unfold call, write_call in Ec. pose proof (Hf _ HP) as Hd. destruct (f (wd_now w)) as [r1 d1].
    destruct (wd_faults w) as [|[[e|e|m e]|] fs]; injection Ec as <- <-; auto. }
  exists [wd_now w]. split; [done|]. split; [apply Forall_singleton; auto|]. split; [auto|]. by intros a [= <-].
Qed.

Lemma triple_post {A} (m : IO D A) P Q Q' :
  triple I P m Q → (∀ a d, Q a d → Q' a d) → triple I P m Q'.
Proof.
  intros Hm HQ w r w' HP E. destruct (Hm _ _ _ HP E) as (l & ? & ? & ? & H).
  exists l. split; [done|]. split; [done|]. split; [done|]. intros a ->. by apply HQ, H.
Qed.

Lemma triple_pre {A} (m : IO D A) P P' Q :
  triple I P m Q → (∀ d, P' d → P d) → triple I P' m Q.
Proof. intros Hm HP w r w' HP' E. eapply Hm; [by apply HP|done]. Qed.

Lemma triple_each {A} (m : IO D A) (P : D → Prop) Q :
  (∀ d, P d → triple I (eq d) m Q) → triple I P m Q.
Proof. intros H w r w' HP E. by eapply H. Qed.

(** A fact the state at hand gives. *)
Lemma triple_pure {A} (m : IO D A) (φ : Prop) d0 Q :
  (φ → triple I (eq d0) m Q) → triple I (λ d, d = d0 ∧ φ) m Q.
Proof. intros H. apply triple_each. intros d [-> Hφ]. by apply H. Qed.
End rules.

Lemma triple_weaken {A} (I I' P : D → Prop) (m : IO D A) Q :
  (∀ d, I d → I' d) → triple I P m Q → triple I' P m Q.
Proof.
  intros HI H w r w' HP E. destruct (H _ _ _ HP E) as (l & ? & Hl & Hw & ?).
  exists l. split; [done|]. split; [by eapply Forall_impl|]. split; [by apply HI|done].
Qed.

(** [stays I m φ]: [m] keeps [I] in every state, and answers with [φ]. *)
Definition stays {A} (I : D → Prop) (m : IO D A) (φ : A → Prop) : Prop := triple I I m (λ a d, I d ∧ φ a).

Section stays.
Context (I : D → Prop).

Lemma stays_ret {A} (a : A) (φ : A → Prop) : φ a → stays I (mret a) φ.
Proof. intros H. apply triple_ret. auto. Qed.
Lemma stays_throw {A} e (φ : A → Prop) : stays I (throw e) φ.
Proof. apply triple_throw. auto. Qed.
Lemma stays_bind {A B} (m : IO D A) (k : A → IO D B) φ ψ :
  stays I m φ → (∀ a, φ a → stays I (k a) ψ) → stays I (m ≫= k) ψ.
Proof.
  intros Hm Hk. eapply triple_bind; [exact Hm|]. intros a. apply triple_each. intros d [Hd Ha].
  eapply triple_pre; [by apply Hk|]. by intros ? <-.
Qed.
Lemma stays_attempt {A} (m : IO D A) φ :
  stays I m φ → stays I (attempt m) (λ r, match r with Ok a => φ a | Err _ => True end).
Proof. intros H. eapply triple_post; [by apply triple_attempt|]. intros [a|e] d; [done|auto]. Qed.
Lemma stays_wrapping {A} f (m : IO D A) φ : stays I m φ → stays I (wrapping f m) φ.
Proof. apply triple_wrapping. Qed.
Lemma stays_call {A} (f : D → result A * D) (φ : A → Prop) :
  (∀ d, I d → I (f d).2 ∧ ∀ a, (f d).1 = Ok a → φ a) → stays I (call f) φ.
Proof.
  intros H. apply triple_call; [auto|]. intros d r d' Hd E. specialize (H d Hd). rewrite E in H.
  destruct H as [? H]. split; [done|]. intros a ->. auto.
Qed.
Lemma stays_inspect {A} (f : D → result A) (φ : A → Prop) :
  (∀ d a, I d → f d = Ok a → φ a) → stays I (inspect f) φ.
Proof. intros H. apply stays_call. intros d Hd. split; [done|]. intros a. by apply H. Qed.
Lemma stays_syscall : stays I syscall (λ _, True).
Proof. by apply stays_inspect. Qed.
Lemma stays_post {A} (m : IO D A) (φ ψ : A → Prop) : stays I m φ → (∀ a, φ a → ψ a) → stays I m ψ.
Proof. intros H Hi. eapply triple_post; [exact H|]. intros a d [? ?]. auto. Qed.
End stays.

(** [answers m r]: [m] is the value [r]; [reads m f E]: [m] looks at the state at most
    once, changes nothing, and answers what [f] makes of it or an error with [E]. *)
Definition answers {A} (m : IO D A) (r : result A) : Prop := ∀ w, m w = (r, w).

Definition reads {A} (m : IO D A) (f : D → result A) (E : error → Prop) : Prop :=
  ∀ w, ∃ r w', m w = (r, w') ∧ wd_now w' = wd_now w ∧ (wd_past w' = wd_past w ∨ wd_past w' = wd_now w :: wd_past w)
    ∧ (r = f (wd_now w) ∨ ∃ e, r = Err e ∧ E e).

Lemma reads_answer {A} (m : IO D A) r f E : answers m r → (∀ d, f d = r) → reads m f E.
Proof. intros Hm Hf w. exists r, w. rewrite Hm, Hf. auto. Qed.

Lemma reads_inspect {A} (f : D → result A) : reads (inspect f) f (λ _, True).
Proof.
  intros w. unfold inspect, call, write_call. destruct (wd_faults w) as [|[[e|e|m e]|] fs];
    eexists _, _; (split; [done|]); (split; [done|]); (split; [by right|]); [by left|right; by eexists..|by left].
Qed.

Lemma reads_wrapping {A} g (m : IO D A) f (E E' : error → Prop) :
  reads m f E → (∀ d e, f d ≠ Err e) → (∀ e, E e → E' (g e)) → reads (wrapping g m) f E'.
Proof.
  intros Hm Hf HE w. destruct (Hm w) as (r & w' & Hw & H1 & H2 & H3). unfold wrapping. rewrite Hw.
  destruct r as [a|e].
  - exists (Ok a), w'. split_and!; try done. destruct H3 as [?|(e & ? & _)]; [by left|done].
  - exists (Err (g e)), w'. split_and!; try done. right. exists (g e). split; [done|]. apply HE.
    destruct H3 as [H3|(e' & [= <-] & ?)]; [|done]. by destruct (Hf (wd_now w) e).
Qed.

Lemma reads_bind {A B} (m : IO D A) (k : A → IO D B) f g E h :
  reads m f E → (∀ a, answers (k a) (g a)) → (∀ d, h d = match f d with Ok a => g a | Err e => Err e end) →
  reads (m ≫= k) h E.
Proof.
  intros Hm Hk Hh w. destruct (Hm w) as (r & w' & Hw & H1 & H2 & H3). unfold mbind, IO_bind. rewrite Hw.
  destruct r as [a|e].
  - rewrite Hk. exists (g a), w'. split_and!; try done. left. rewrite Hh. destruct H3 as [<-|(? & ? & _)]; done.
  - exists (Err e), w'. split_and!; try done. rewrite Hh. destruct H3 as [<-|(e' & [= <-] & He)]; [by left|right; by exists e].
Qed.

Lemma reads_triple {A} (I : D → Prop) (m : IO D A) f E :
  reads m f E → triple I I (attempt m) (λ r d, I d ∧ (r = f d ∨ ∃ e, r = Err e ∧ E e)).
Proof.
  intros Hm w r w' HP. unfold attempt. destruct (Hm w) as (r0 & w0 & -> & H1 & H2 & H3). intros [= <- <-].
  rewrite H1. destruct H2 as [-> | ->]; [exists []|exists [wd_now w]]; (split; [done|]); (split; [by repeat constructor|]);
    (split; [done|]); by intros ? [= <-].
Qed.

(** [runs d m a d']: without faults, [m] takes [d] to [d'] and answers [a]. *)
Definition runs {A} (d : D) (m : IO D A) (a : A) (d' : D) : Prop :=
  ∀ past, ∃ past', m (MkWorld d past []) = (Ok a, MkWorld d' past' []).

Lemma runs_ret {A} d (a : A) : runs d (mret a) a d.
Proof. intros past. by exists past. Qed.

Lemma runs_bind {A B} d d1 d2 (m : IO D A) a (k : A → IO D B) b :
  runs d m a d1 → runs d1 (k a) b d2 → runs d (m ≫= k) b d2.
Proof.
  intros H1 H2 past. destruct (H1 past) as [p1 E1]. destruct (H2 p1) as [p2 E2]. exists p2.
  unfold mbind, IO_bind. by rewrite E1.
Qed.

Lemma runs_then {A B} d d1 (m : IO D A) a (k : A → IO D B) b :
  runs d m a d1 → (∃ d2, runs d1 (k a) b d2) → ∃ d2, runs d (m ≫= k) b d2.
Proof. intros H1 [d2 H2]. exists d2. by eapply runs_bind. Qed.

Lemma runs_wrapping {A} d d' f (m : IO D A) a : runs d m a d' → runs d (wrapping f m) a d'.
Proof. intros H past. destruct (H past) as [p E]. exists p. unfold wrapping. by rewrite E. Qed.

Lemma runs_attempt {A} d d' (m : IO D A) a : runs d m a d' → runs d (attempt m) (Ok a) d'.
Proof. intros H past. destruct (H past) as [p E]. exists p. unfold attempt. by rewrite E. Qed.

Lemma runs_write {A} d d' short (f : D → result A * D) a :
  f d = (Ok a, d') → runs d (write_call short f) a d'.
Proof. intros Hf past. exists (d :: past). unfold write_call. simpl. by rewrite Hf. Qed.

Lemma runs_call {A} d d' (f : D → result A * D) a :
  f d = (Ok a, d') → runs d (call f) a d'.
Proof. apply runs_write. Qed.

Lemma runs_inspect {A} d (f : D → result A) a : f d = Ok a → runs d (inspect f) a d.
Proof. intros Hf. apply runs_call. by rewrite Hf. Qed.

Lemma runs_syscall d : runs d syscall tt d.
Proof. by apply runs_inspect. Qed.

(** ** Successful runs, inverted *)

Lemma io_bind_Ok {A B} (m : IO D A) (k : A → IO D B) w b w' :
  (m ≫= k) w = (Ok b, w') → ∃ a w1, m w = (Ok a, w1) ∧ k a w1 = (Ok b, w').
Proof. unfold mbind, IO_bind. destruct (m w) as [[a|e] w1]; [eauto|done]. Qed.

Lemma io_wrapping_Ok {A} f (m : IO D A) w a w' : wrapping f m w = (Ok a, w') → m w = (Ok a, w').
Proof. unfold wrapping. by destruct (m w) as [[?|?] ?]; intros [= <- <-]. Qed.

Lemma io_inspect_Ok {A} (f : D → result A) w a w' :
  inspect f w = (Ok a, w') → f (wd_now w) = Ok a ∧ wd_now w' = wd_now w.
Proof.
  unfold inspect, call, write_call. destruct (wd_faults w) as [|[[e|e|m e]|] fs]; intros [= <- <-]; done.
Qed.
End logic.
