(* ===== verification/Core.v ===== *)
(** * Core: the types the components exchange

    Models the parts of [internal/core/core.go] and [internal/core/remote.go] that
    cross the seams between the orchestrator, the verifier and the workspace
    provider: issues, workspaces, claim bases, local and remote publication facts. *)

From S2P Require Import Prelude GoStd.

(** ** Issues, workspaces and publication facts *)

Record Blocker := MkBlocker { bl_Identifier : string; bl_State : string; bl_Open : bool }.

Record Issue := MkIssue {
  is_Identifier : string;
  is_Title : string;
  is_Body : string;
  is_Labels : list string;
  is_State : string;
  is_Assignees : list string;
  is_Blockers : list Blocker;
  is_URL : string;
  is_CreatedAt : Z;
  is_UpdatedAt : Z;
  is_Revision : string;
  is_Dispatchable : bool;
}.

Record WorkspacePaths := MkPaths { wp_Path : string; wp_SharedGitDir : string; wp_PrivateDir : string }.

Record Workspace := MkWorkspace {
  ws_Paths : WorkspacePaths;
  ws_Key : string;
  ws_Branch : string;
  ws_ClaimEpoch : Z;
  ws_BaseSHA : string;
  ws_TargetBranch : string;
  ws_PriorWork : bool;
  ws_CreatedNow : bool;
}.

#[global] Instance WorkspacePaths_eq_dec : EqDecision WorkspacePaths.
Proof. solve_decision. Defined.
#[global] Instance Workspace_eq_dec : EqDecision Workspace.
Proof. solve_decision. Defined.

(** The zero [core.Workspace{}]. *)
Definition no_workspace : Workspace := MkWorkspace (MkPaths "" "" "") "" "" 0 "" "" false false.

Record PublishFacts := MkFacts {
  pf_Head : string;
  pf_RemoteHead : string;
  pf_RemoteProbed : bool;
  pf_DescendsBase : bool;
  pf_RemoteHasHead : bool;
}.

Definition advancedPastBase (head : string) (descendsBase : bool) (baseSHA : string) : bool :=
  negb (bool_decide (head = "")) && negb (bool_decide (head = baseSHA)) && descendsBase.

Record LocalBranchFacts := MkLocalFacts {
  lb_BaseSHA : string;
  lb_Head : string;
  lb_DescendsBase : bool;
}.

Definition AdvancedPastBase (f : PublishFacts) (baseSHA : string) : bool :=
  advancedPastBase (pf_Head f) (pf_DescendsBase f) baseSHA.

Record PR := MkPullRequest {
  pr_Number : Z;
  pr_URL : string;
  pr_State : string;
  pr_Branch : string;
  pr_BaseBranch : string;
}.

Record RemoteClaimRef := MkClaimRef { cr_Issue : string; cr_Key : string; cr_Epoch : Z }.

Definition claim_Complete (r : RemoteClaimRef) : bool :=
  negb (bool_decide (cr_Issue r = "")) && negb (bool_decide (cr_Key r = "")) && (0 <? cr_Epoch r).

Record RemoteRunRef := MkRunRef {
  rr_Claim : RemoteClaimRef;
  rr_Run : string;
  rr_Verification : string;
}.

Definition Complete (r : RemoteRunRef) : bool :=
  claim_Complete (rr_Claim r) && negb (bool_decide (rr_Run r = ""))
  && negb (bool_decide (rr_Verification r = "")).

#[global] Instance RemoteClaimRef_eq_dec : EqDecision RemoteClaimRef.
Proof. solve_decision. Defined.
#[global] Instance RemoteRunRef_eq_dec : EqDecision RemoteRunRef.
Proof. solve_decision. Defined.

Record RemoteClaim := MkRemoteClaim {
  rc_Ref : RemoteClaimRef;
  rc_Branch : string;
  rc_BaseSHA : string;
  rc_TargetBranch : string;
  rc_Repository : string;
  rc_RecordedAt : Z;
}.

Record RemotePublishFacts := MkRemoteFacts {
  rf_Run : RemoteRunRef;
  rf_Repository : string;
  rf_Branch : string;
  rf_BaseSHA : string;
  rf_RemoteHead : string;
  rf_Fetched : bool;
  rf_DescendsBase : bool;
  rf_ObservedAt : Z;
}.

(** The zero [core.RemotePublishFacts{}]. *)
Definition no_facts : RemotePublishFacts :=
  MkRemoteFacts (MkRunRef (MkClaimRef "" "" 0) "" "") "" "" "" "" false false zero_time.

Inductive RemoteIssueLinkStatus := RemoteIssueLinkUnknown | RemoteIssueLinkStated.

#[global] Instance RemoteIssueLinkStatus_eq_dec : EqDecision RemoteIssueLinkStatus.
Proof. solve_decision. Defined.

Record RemotePR := MkRemotePR {
  rp_Number : Z;
  rp_URL : string;
  rp_State : string;
  rp_Repository : string;
  rp_HeadRepository : string;
  rp_HeadBranch : string;
  rp_HeadSHA : string;
  rp_BaseBranch : string;
  rp_LinkStatus : RemoteIssueLinkStatus;
  rp_LinkedIssues : list string;
}.

Record RemotePRQuery := MkQuery { q_Issue : Issue; q_Repository : string; q_Branch : string }.

(** ** Claim bases *)

Inductive ClaimBaseState := ClaimBaseUnknown | ClaimBaseAbsent | ClaimBasePending | ClaimBasePinned.

#[export] Instance ClaimBaseState_eq_dec : EqDecision ClaimBaseState.
Proof. solve_decision. Defined.

Record ClaimBase := MkClaimBase {
  cb_State : ClaimBaseState;
  cb_Epoch : Z;
  cb_BaseSHA : string;
  cb_TargetBranch : string;
  cb_OutgoingEpoch : Z;
  cb_OutgoingBaseSHA : string;
  cb_OutgoingTargetBranch : string;
}.
