(* ===== verification/OrchState.v ===== *)
(** * OrchState: the closed state map of a run

    Models [internal/orchestrator/state.go] and the integer part of
    [internal/orchestrator/retry.go]. [State] is a string type in Go, so every
    string is a state value and the map is closed by membership. *)

From S2P Require Import Prelude GoStd GoStdFacts.

(** ** Definitions *)

Definition State : Type := string.

Definition StateQueued : State := "queued".
Definition StateClaimed : State := "claimed".
Definition StatePreparing : State := "preparing".
Definition StateRunning : State := "running".
Definition StateVerifying : State := "verifying".
Definition StateBackoff : State := "backoff".
Definition StateDone : State := "done".
Definition StateNeedsReview : State := "needs-review".
Definition StateFailed : State := "failed".

Definition nonTerminalStates : list State :=
  [StateQueued; StateClaimed; StatePreparing; StateRunning; StateVerifying; StateBackoff;
   StateNeedsReview].

Definition NonTerminal (s : State) : bool := bool_decide (s ∈ nonTerminalStates).

(** The table, with the trigger the transition log records. *)
Definition legalTransitions : list (State * State * string) :=
  [(StateQueued, StateClaimed, "selected by dispatch; claim verified by read-back");
   (StateClaimed, StatePreparing, "claim verified");
   (StatePreparing, StateRunning, "worktree ready, before_run passed, agent started");
   (StatePreparing, StateBackoff, "retryable prep or hook failure, attempts remain");
   (StatePreparing, StateFailed, "non-retryable prep failure or attempts exhausted");
   (StateRunning, StateVerifying, "runner reported succeeded");
   (StateRunning, StateBackoff, "retryable failure, attempts remain");
   (StateRunning, StateFailed, "non-retryable failure or attempts exhausted");
   (StateRunning, StateNeedsReview, "budget exceeded");
   (StateVerifying, StateDone, "publish evidence complete");
   (StateVerifying, StatePreparing, "clean exit without publish evidence; continuation re-dispatch");
   (StateVerifying, StateNeedsReview, "evidence contradicts the claim, or max_turns exhausted");
   (StateBackoff, StatePreparing, "backoff fired; issue active and routable; slot free");
   (StateBackoff, StateBackoff, "backoff fired; no free slot; requeued");
   (StateNeedsReview, StateBackoff, "human removed the state label; re-queued");
   (StateQueued, StateNeedsReview, "content changed after the approving label; parked for reapproval");
   (StateBackoff, StateNeedsReview, "content changed after the approving label; parked for reapproval");
   (StatePreparing, StateNeedsReview,
    "unknown or permanent credential failure preparing the workspace or minting the publish credential")].

Definition Allowed (from to : State) : bool :=
  if bool_decide (to = StateFailed) && NonTerminal from then true
  else bool_decide ((from, to) ∈ legalTransitions.*1).

Inductive StateLabel :=
  | StateLabelNone | StateLabelClaimed | StateLabelRunning | StateLabelNeedsReview
  | StateLabelFailed.

#[export] Instance StateLabel_eq_dec : EqDecision StateLabel.
Proof. solve_decision. Defined.

Definition stateLabel (s : State) : StateLabel :=
  if bool_decide (s ∈ [StateClaimed; StatePreparing; StateVerifying; StateBackoff])
  then StateLabelClaimed
  else if bool_decide (s = StateRunning) then StateLabelRunning
  else if bool_decide (s = StateNeedsReview) then StateLabelNeedsReview
  else if bool_decide (s = StateFailed) then StateLabelFailed
  else StateLabelNone.

(** *** Retry delays *)

(** An [int64] after wrap-around. *)
Definition wrap64 (z : Z) : Z := (z + 2 ^ 63) mod 2 ^ 64 - 2 ^ 63.

Definition baseBackoff : Z := 10 * 1000000000.

(** The doubling loop, for [n] more rounds. *)
Fixpoint doubling (n : nat) (delay max : Z) : Z :=
  match n with
  | O => delay
  | S n =>
      let delay := wrap64 (delay * 2) in
      if max <=? delay then max else doubling n delay max
  end.

(** The delay of [backoffDelay] before the floating-point jitter. *)
Definition backoffBase (attempt max : Z) : Z :=
  let attempt := if attempt <? 1 then 1 else attempt in
  let delay := doubling (Z.to_nat (attempt - 1)) baseBackoff max in
  if max <? delay then max else delay.

(** The part of a run's record the bounds are measured on; a cost is left abstract. *)
Record budgets (Cost : Type) := MkBudgets {
  b_Turns : Z;
  b_Attempt : Z;
  b_attemptBase : Z;
  b_costUSD : Cost;
}.
Arguments MkBudgets {_}.
Arguments b_Turns {_}.
Arguments b_Attempt {_}.
Arguments b_attemptBase {_}.
Arguments b_costUSD {_}.

Definition continuable {C} (maxTurns : Z) (r : budgets C) : bool := b_Turns r <? maxTurns.
Definition attemptsRemain {C} (maxAttempts : Z) (r : budgets C) : bool :=
  b_Attempt r - b_attemptBase r <? maxAttempts.
Definition restoreBudgets {C} (zero : C) (r : budgets C) : budgets C :=
  MkBudgets 0 (b_Attempt r) (b_Attempt r) zero.

(** ** The map is closed *)

Definition knownStates : list State := nonTerminalStates ++ [StateDone; StateFailed].

Lemma Allowed_spec from to :
  Allowed from to = true ↔
  (to = StateFailed ∧ from ∈ nonTerminalStates) ∨ (from, to) ∈ legalTransitions.*1.
Proof.
  unfold Allowed, NonTerminal. repeat case_bool_decide; simpl; naive_solver.
Qed.

(** Case analysis on an edge of the table. *)
Ltac edge_cases H :=
  let Ht := fresh in
  apply Allowed_spec in H as [[Ht H]|H];
  [unfold nonTerminalStates in H|unfold legalTransitions in H; simpl in H];
  repeat (apply elem_of_cons in H as [H|H]); try (by apply elem_of_nil in H);
  try (apply pair_equal_spec in H as [? ?]); subst; try discriminate.

Lemma Allowed_known from to :
  Allowed from to = true → from ∈ nonTerminalStates ∧ to ∈ knownStates.
Proof. intros H. edge_cases H; split; solve_decided. Qed.

(** ** Runs of the machine *)

(** The states of a run so far, newest last; it starts queued. *)
Inductive history : list State → State → Prop :=
  | history_start : history [StateQueued] StateQueued
  | history_step l s s' : history l s → Allowed s s' = true → history (l ++ [s']) s'.

Lemma history_last l s : history l s → s ∈ l.
Proof. destruct 1; set_solver. Qed.

Lemma history_ran l s : history l s → s ∈ [StateVerifying; StateDone] → StateRunning ∈ l.
Proof.
  induction 1 as [|l s s' Hl IH Ha]; [set_solver|]. intros Hs.
  apply elem_of_app. left. edge_cases Ha; try (exfalso; revert Hs; solve_decided).
  - by apply (history_last _ StateRunning).
  - apply IH. set_solver.
Qed.

(** The state map is closed and every run ends where it should. An edge is
    legal only between two of the nine named states and only out of a
    non-terminal one, so no other string ever acquires an edge; a run that is
    [done] was verified, and one that is verifying or done has run; once [done] or
    [failed] a run moves no more; and every unfinished state has the kill edge. *)
Theorem state_map_closed (from to : State) :
  (Allowed from to = true → from ∈ nonTerminalStates ∧ to ∈ knownStates)
  ∧ (from ∈ [StateDone; StateFailed] → Allowed from to = false)
  ∧ (from ∈ nonTerminalStates → Allowed from StateFailed = true)
  ∧ (Allowed from StateDone = true → from = StateVerifying)
  ∧ Allowed from StateQueued = false
  ∧ (∀ l s, history l s → s ∈ [StateVerifying; StateDone] → StateRunning ∈ l)
  ∧ (∀ l, history l StateDone → StateVerifying ∈ l).
Proof.
  split_and!.
  - apply Allowed_known.
  - intros Hf. apply not_true_iff_false. intros H. edge_cases H; revert Hf; solve_decided.
  - intros Hf. apply Allowed_spec. by left.
  - intros H. edge_cases H; done.
  - apply not_true_iff_false. intros H. edge_cases H; done.
  - apply history_ran.
  - intros l Hl. inversion Hl as [|l' s s' Hl' Ha]; subst. apply elem_of_app. left.
    assert (s = StateVerifying) as -> by (edge_cases Ha; done). by apply history_last.
Qed.

(** Every state of the map is reachable from [queued], so no edge is dead. *)
Theorem every_state_reachable (s : State) : s ∈ knownStates → ∃ l, history l s.
Proof.
  assert (∀ a b, (∃ l, history l a) → Allowed a b = true → ∃ l, history l b) as Hstep.
  { intros a b [l Hl] Ha. exists (l ++ [b]). by econstructor. }
  assert (∃ l, history l StateQueued) as Hq by (eexists; constructor).
  assert (∃ l, history l StateClaimed) as Hc by (by apply (Hstep StateQueued)).
  assert (∃ l, history l StatePreparing) as Hp by (by apply (Hstep StateClaimed)).
  assert (∃ l, history l StateRunning) as Hr by (by apply (Hstep StatePreparing)).
  assert (∃ l, history l StateVerifying) as Hv by (by apply (Hstep StateRunning)).
  assert (∃ l, history l StateBackoff) as Hb by (by apply (Hstep StateRunning)).
  assert (∃ l, history l StateDone) as Hd by (by apply (Hstep StateVerifying)).
  assert (∃ l, history l StateNeedsReview) as Hn by (by apply (Hstep StateRunning)).
  assert (∃ l, history l StateFailed) as Hf by (by apply (Hstep StateRunning)).
  unfold knownStates, nonTerminalStates. intros Hs. simpl in Hs.
  repeat (apply elem_of_cons in Hs as [->|Hs]; [done|]). by apply elem_of_nil in Hs.
Qed.

Lemma every_state_reachable_witness : ∃ l, history l StateNeedsReview.
Proof. apply (every_state_reachable StateNeedsReview). solve_decided. Defined.

(** ** Delays *)

Lemma wrap64_id z : min_int64 ≤ z ≤ max_int64 → wrap64 z = z.
Proof. unfold wrap64, min_int64, max_int64. intros. rewrite Z.mod_small; lia. Qed.

Lemma doubling_min n delay max :
  0 < delay ≤ max → delay < 2 ^ 62 → max ≤ 2 ^ 62 →
  doubling n delay max = Z.min (delay * 2 ^ Z.of_nat n) max.
Proof.
  revert delay. induction n as [|n IH]; intros delay Hd Hd' Hm; cbn [doubling].
  { simpl. rewrite Z.mul_1_r. lia. }
  rewrite wrap64_id by (unfold min_int64, max_int64; lia).
  rewrite Nat2Z.inj_succ, Z.pow_succ_r by lia. assert (0 < 2 ^ Z.of_nat n) by (apply Z.pow_pos_nonneg; lia).
  destruct (Z.leb_spec max (delay * 2)); [nia|]. rewrite IH by lia. f_equal. lia.
Qed.

(** The retry delay before jitter is [min(10s * 2^(attempt-1), max)] for every
    attempt and every configured maximum up to 2^62 nanoseconds (146 years): the
    [int64] doubling never wraps, however large the attempt. *)
Theorem backoff_exponential (attempt max : Z) :
  0 < max ≤ 2 ^ 62 →
  backoffBase attempt max = Z.min (baseBackoff * 2 ^ (Z.max attempt 1 - 1)) max.
Proof.
  intros Hm. unfold backoffBase.
  replace (if attempt <? 1 then 1 else attempt) with (Z.max attempt 1)
    by (destruct (Z.ltb_spec attempt 1); lia).
  set (k := Z.max attempt 1 - 1). assert (0 ≤ k) by lia.
  assert (0 < 2 ^ k) by (apply Z.pow_pos_nonneg; lia).
  destruct (Z.leb_spec baseBackoff max) as [Hb|Hb].
  - rewrite doubling_min by (unfold baseBackoff in *; lia). rewrite Z2Nat.id by lia.
    destruct (Z.ltb_spec max (Z.min (baseBackoff * 2 ^ k) max)); lia.
  - assert (Z.min (baseBackoff * 2 ^ k) max = max) as -> by (unfold baseBackoff in *; nia).
    destruct (Z.to_nat k) as [|n]; simpl.
    + destruct (Z.ltb_spec max baseBackoff); lia.
    + rewrite wrap64_id by (unfold baseBackoff, min_int64, max_int64 in *; lia).
      destruct (Z.leb_spec max (baseBackoff * 2)); [|unfold baseBackoff in *; lia].
      by rewrite Z.ltb_irrefl.
Qed.

Lemma backoff_exponential_witness :
  backoffBase 5 300000000000 = Z.min (baseBackoff * 2 ^ (Z.max 5 1 - 1)) 300000000000.
Proof. apply backoff_exponential. lia. Defined.
