(* ===== verification/OrchRecover.v ===== *)
(** * OrchRecover: classifying a claim after a restart

    Models [internal/orchestrator/recover_classify.go], with [claimCycleAnchor] and
    [closedInCycle] of [held.go] and [claimBasePinsEpoch] of [pipeline.go]: from
    tracker facts, publication evidence and the workspace's run marker to the
    action recovery takes. *)

From S2P Require Import Prelude GoStd GoStdFacts OrchState Core.

(** ** Facts *)

Inductive ClaimEventKind :=
  | ClaimEventAssigned | ClaimEventUnassigned | ClaimEventLabeled | ClaimEventUnlabeled
  | ClaimEventClosed | ClaimEventReopened.

#[export] Instance ClaimEventKind_eq_dec : EqDecision ClaimEventKind.
Proof. solve_decision. Defined.

Record ClaimEvent := MkClaimEvent {
  ce_Kind : ClaimEventKind;
  ce_Actor : string;
  ce_Subject : string;
  ce_At : Z;
  ce_ID : Z;
}.

(** The candidate: of the issue only its assignees are read. *)
Record recoveryCandidate := MkCandidate {
  rc_Assignees : list string;
  rc_active : bool;
  rc_inPartition : bool;
}.

Inductive recoveryMarkerState :=
  | recoveryMarkerUnresolved | recoveryMarkerFree | recoveryMarkerPossiblyLive
  | recoveryMarkerUnknownLaunch
  | recoveryMarkerUndeclared (n : Z).  (** any other value of the [uint8] *)

Inductive recoveryAction :=
  | recoveryActionUnknown | recoveryActionBlocked | recoveryActionWait | recoveryActionApprove
  | recoveryActionBackoff | recoveryActionPark | recoveryActionHold | recoveryActionReleaseKeep
  | recoveryActionReleaseDispose | recoveryActionGone.

#[export] Instance recoveryAction_eq_dec : EqDecision recoveryAction.
Proof. solve_decision. Defined.

(** [orchestrator.Verdict], the evidence of publication. *)
Inductive Evidence := VerdictUnknown | VerdictPublished | VerdictIncomplete | VerdictContradicted.

#[export] Instance Evidence_eq_dec : EqDecision Evidence.
Proof. solve_decision. Defined.

Inductive Milestone :=
  | MilestoneNone | MilestoneClaimed | MilestonePublished | MilestoneFailed | MilestoneNeedsReview.

Record recoveryVerdict := MkVerdict {
  v_action : recoveryAction;
  v_project : bool;
  v_stateLabel : StateLabel;
  v_milestone : Milestone;
  v_attemptFloor : Z;
  v_cycleAnchor : Z;
  v_operatorErr : bool;
  v_epochFault : bool;
  v_detail : string;
}.

(** A verdict with only an action and an anchor. *)
Definition plainRecovery (action : recoveryAction) (anchor : Z) : recoveryVerdict :=
  MkVerdict action false StateLabelNone MilestoneNone 0 anchor false false "".

Definition parkRecovery (anchor : Z) (operatorErr : bool) : recoveryVerdict :=
  MkVerdict recoveryActionPark true StateLabelNeedsReview MilestoneNeedsReview 0 anchor operatorErr
    false "".

Definition backoffRecovery (anchor : Z) : recoveryVerdict :=
  MkVerdict recoveryActionBackoff true StateLabelClaimed MilestoneClaimed 2 anchor false false "".

Definition holdRecovery (anchor : Z) : recoveryVerdict :=
  MkVerdict recoveryActionHold true StateLabelNone MilestonePublished 0 anchor false false "".

Definition epochFaultRecovery (anchor : Z) (detail : string) : recoveryVerdict :=
  MkVerdict recoveryActionPark true StateLabelNeedsReview MilestoneNeedsReview 0 anchor true true
    detail.

Definition approveRecovery (anchor : Z) : recoveryVerdict :=
  MkVerdict recoveryActionApprove false StateLabelNone MilestoneNone 1 anchor false false "".

Definition classifyActiveRecoveryProjection (anchor : Z) (evidence : Evidence) : recoveryVerdict :=
  match evidence with
  | VerdictPublished => holdRecovery anchor
  | VerdictIncomplete | VerdictContradicted => backoffRecovery anchor
  | VerdictUnknown => plainRecovery recoveryActionBlocked anchor
  end.

Definition closedInCycle (events : list ClaimEvent) (anchor : Z) : bool :=
  if anchor <=? 0 then false
  else existsb (λ ev, bool_decide (ce_Kind ev = ClaimEventClosed) && (anchor <=? ce_ID ev)) events.

Inductive recoveryArbitration :=
  | recoveryArbitrationUnknown | recoveryArbitrationOurs | recoveryArbitrationOther
  | recoveryArbitrationUnorderable.

(** A standing assignment: when, and its change-log id. *)
Record recoveryAssignment := MkAssignment { ra_at : Z; ra_id : Z }.
Record recoveryContender := MkContender { rn_login : string; rn_assignment : recoveryAssignment }.

#[export] Instance recoveryAssignment_eq_dec : EqDecision recoveryAssignment.
Proof. solve_decision. Defined.

Definition ra_before (a b : recoveryAssignment) : bool :=
  if negb (ra_at a =? ra_at b) then time_before (ra_at a) (ra_at b) else ra_id a <? ra_id b.

Definition sameOrder (a b : recoveryAssignment) : bool :=
  (ra_at a =? ra_at b) && (ra_id a =? ra_id b).

(** Projection labels standing on the issue, replayed from the log. *)
Record standingRecoveryLabel := MkStanding {
  sl_label : StateLabel;
  sl_known : bool;
  sl_order : Z;
}.

Record recoveryProjection := MkProjection {
  rp_standing : bool;
  rp_effective : StateLabel;
  rp_effectiveKnown : bool;
  rp_sawLabeled : bool;
  rp_lastWasRemoval : bool;
  rp_lastRemoved : StateLabel;
  rp_lastRemovedKnown : bool;
}.

Inductive RunMarkerState :=
  | RunMarkerUnreadable | RunMarkerAbsent | RunMarkerIdentified | RunMarkerUnknownLaunch.

Definition claimBasePinsEpoch (state : ClaimBase) (epoch : Z) : bool :=
  (0 <? epoch) && bool_decide (cb_State state = ClaimBasePinned) && (cb_Epoch state =? epoch)
  && negb (bool_decide (cb_BaseSHA state = "")) && negb (bool_decide (cb_TargetBranch state = "")).

(** The order in which a Go [range] visits a map is unspecified: [visit] is any
    listing of it. The newest standing label is effective. *)
Definition newest_standing (visit : list (string * standingRecoveryLabel))
    : Z * (bool * StateLabel * bool) :=
  foldl (λ '(latest, out) p,
    if sl_order p.2 <=? latest then (latest, out)
    else (sl_order p.2, (true, sl_label p.2, sl_known p.2))) (-1, (false, StateLabelNone, false)) visit.

Section recover.
Context {T : GoTables}.

Definition claimCycleAnchor (events : list ClaimEvent) (principal : string) : Z :=
  foldl (λ anchor ev,
    if negb (EqualFold (ce_Subject ev) principal) then anchor
    else match ce_Kind ev with
         | ClaimEventAssigned => ce_ID ev
         | ClaimEventUnassigned => 0
         | _ => anchor
         end) 0 events.

Definition solePrincipal (assignees : list string) (principal : string) : bool :=
  let set : gset string := list_to_set (ToLower <$> assignees) in
  (size set =? 1)%nat && bool_decide (ToLower principal ∈ set).

(** *** Arbitration *)

Definition arbitration_step (st : gmap string recoveryAssignment * gset string) (ev : ClaimEvent)
    : gmap string recoveryAssignment * gset string :=
  let '(held, seen) := st in
  let login := ToLower (ce_Subject ev) in
  if bool_decide (login = "") then st
  else match ce_Kind ev with
       | ClaimEventAssigned =>
           (match held !! login with
            | Some _ => held
            | None => <[login := MkAssignment (ce_At ev) (ce_ID ev)]> held
            end, {[login]} ∪ seen)
       | ClaimEventUnassigned => (delete login held, {[login]} ∪ seen)
       | _ => st
       end.

(** The contenders, in the order of the assignees; [None] is the early return. *)
Fixpoint contenders_loop (held : gmap string recoveryAssignment) (seen : gset string)
    (assignees : list string) (current : gset string) : option (list recoveryContender) :=
  match assignees with
  | [] => Some []
  | a :: rest =>
      let login := ToLower a in
      if bool_decide (login ∈ current) then contenders_loop held seen rest current
      else
        let current := {[login]} ∪ current in
        match held !! login with
        | None =>
            if bool_decide (login ∈ seen) then contenders_loop held seen rest current else None
        | Some assigned => cons (MkContender login assigned) <$> contenders_loop held seen rest current
        end
  end.

Definition earliest (first : recoveryAssignment) (cs : list recoveryContender)
    : recoveryAssignment :=
  foldl (λ best c, if ra_before (rn_assignment c) best then rn_assignment c else best) first cs.

(** The winner at the minimum; [None] when two share it. *)
Fixpoint winner_loop (best : recoveryAssignment) (cs : list recoveryContender) (winner : string)
    : option string :=
  match cs with
  | [] => Some winner
  | c :: rest =>
      if negb (sameOrder (rn_assignment c) best) then winner_loop best rest winner
      else if negb (bool_decide (winner = "")) && negb (bool_decide (rn_login c = winner)) then None
      else winner_loop best rest (rn_login c)
  end.

Definition arbitrateRecovery (events : list ClaimEvent) (assignees : list string)
    (principal : string) : recoveryArbitration :=
  let '(held, seen) := foldl arbitration_step (∅, ∅) events in
  match contenders_loop held seen assignees ∅ with
  | None | Some [] => recoveryArbitrationUnorderable
  | Some ((c :: rest) as cs) =>
      match winner_loop (earliest (rn_assignment c) rest) cs "" with
      | None => recoveryArbitrationUnorderable
      | Some winner =>
          if EqualFold winner principal then recoveryArbitrationOurs else recoveryArbitrationOther
      end
  end.

(** *** Projection *)

Definition isRecoveryStateLabel (subject : string) : bool := has_prefix "ben:" (ToLower subject).

Definition label_name (l : StateLabel) : string :=
  match l with
  | StateLabelNone => ""
  | StateLabelClaimed => "claimed"
  | StateLabelRunning => "running"
  | StateLabelNeedsReview => "needs-review"
  | StateLabelFailed => "failed"
  end.

Definition recoveryStateLabel (subject : string) : StateLabel * bool :=
  match find (λ label, EqualFold subject ("ben:" +:+ label_name label))
          [StateLabelClaimed; StateLabelRunning; StateLabelNeedsReview; StateLabelFailed] with
  | Some label => (label, true)
  | None => (StateLabelNone, false)
  end.

(** One event's effect on the standing labels and on what was last removed. *)
Definition projection_step (anchor : Z)
    (st : gmap string standingRecoveryLabel * (bool * bool * StateLabel * bool))
    (p : Z * ClaimEvent)
    : gmap string standingRecoveryLabel * (bool * bool * StateLabel * bool) :=
  let '(order, ev) := p in
  let '(standing, (sawLabeled, lastWasRemoval, lastRemoved, lastRemovedKnown)) := st in
  if (ce_ID ev <? anchor) || negb (isRecoveryStateLabel (ce_Subject ev)) then st
  else
    let key := ToLower (ce_Subject ev) in
    let '(label, known) := recoveryStateLabel (ce_Subject ev) in
    match ce_Kind ev with
    | ClaimEventLabeled =>
        (<[key := MkStanding label known order]> standing,
         (true, false, lastRemoved, lastRemovedKnown))
    | ClaimEventUnlabeled => (delete key standing, (sawLabeled, true, label, known))
    | _ => st
    end.

Definition projection_replay (events : list ClaimEvent) (anchor : Z)
    : gmap string standingRecoveryLabel * (bool * bool * StateLabel * bool) :=
  foldl (projection_step anchor) (∅, (false, false, StateLabelNone, false))
    (imap (λ i ev, (Z.of_nat i, ev)) events).

(** [replayRecoveryProjection], the standing labels visited in the order [visit]. *)
Definition projection_of (visit : list (string * standingRecoveryLabel))
    (facts : bool * bool * StateLabel * bool) : recoveryProjection :=
  let '(sawLabeled, lastWasRemoval, lastRemoved, lastRemovedKnown) := facts in
  let '(_, (standing, effective, effectiveKnown)) := newest_standing visit in
  MkProjection standing effective effectiveKnown sawLabeled lastWasRemoval lastRemoved
    lastRemovedKnown.

Definition replayRecoveryProjection (events : list ClaimEvent) (anchor : Z) : recoveryProjection :=
  let '(standing, facts) := projection_replay events anchor in
  projection_of (map_to_list standing) facts.

(** *** The classifier *)

(** The gates of [classifyRecoveryFacts]; [None] when all four pass. *)
Definition gate_verdict (candidate : recoveryCandidate) (events : list ClaimEvent)
    (principal : string) : option recoveryVerdict :=
  let anchor := claimCycleAnchor events principal in
  if negb (rc_active candidate) || closedInCycle events anchor
  then Some (plainRecovery recoveryActionReleaseDispose anchor)
  else
    let after_arbitration :=
      if anchor =? 0 then Some (parkRecovery 0 true)
      else if negb (rc_inPartition candidate)
      then Some (plainRecovery recoveryActionReleaseKeep anchor)
      else None in
    if negb (solePrincipal (rc_Assignees candidate) principal) then
      match arbitrateRecovery events (rc_Assignees candidate) principal with
      | recoveryArbitrationOurs => after_arbitration
      | recoveryArbitrationOther => Some (plainRecovery recoveryActionReleaseKeep anchor)
      | recoveryArbitrationUnorderable => Some (parkRecovery anchor true)
      | recoveryArbitrationUnknown => Some (plainRecovery recoveryActionBlocked anchor)
      end
    else after_arbitration.

(** The projection table of [classifyRecoveryFacts]. *)
Definition projection_verdict (anchor : Z) (projection : recoveryProjection) (evidence : Evidence)
    : recoveryVerdict :=
  if rp_standing projection then
    if negb (rp_effectiveKnown projection) then parkRecovery anchor true
    else match rp_effective projection with
         | StateLabelFailed =>
             MkVerdict recoveryActionReleaseKeep true StateLabelFailed MilestoneFailed 0 anchor
               false false ""
         | StateLabelNeedsReview => parkRecovery anchor false
         | StateLabelClaimed | StateLabelRunning =>
             classifyActiveRecoveryProjection anchor evidence
         | StateLabelNone => parkRecovery anchor true
         end
  else if negb (rp_sawLabeled projection) then approveRecovery anchor
  else if negb (rp_lastWasRemoval projection) || negb (rp_lastRemovedKnown projection)
  then parkRecovery anchor true
  else match rp_lastRemoved projection with
       | StateLabelNeedsReview => backoffRecovery anchor
       | StateLabelFailed => plainRecovery recoveryActionReleaseKeep anchor
       | StateLabelClaimed | StateLabelRunning =>
           match evidence with
           | VerdictPublished => holdRecovery anchor
           | VerdictIncomplete | VerdictContradicted => parkRecovery anchor false
           | VerdictUnknown => plainRecovery recoveryActionBlocked anchor
           end
       | StateLabelNone => parkRecovery anchor true
       end.

Definition classifyRecoveryFacts (candidate : recoveryCandidate) (events : list ClaimEvent)
    (evidence : Evidence) (principal : string) : recoveryVerdict :=
  match gate_verdict candidate events principal with
  | Some v => v
  | None =>
      let anchor := claimCycleAnchor events principal in
      projection_verdict anchor (replayRecoveryProjection events anchor) evidence
  end.

Definition classifyRecovery (candidate : recoveryCandidate) (events : list ClaimEvent)
    (evidence : Evidence) (marker : recoveryMarkerState) (principal : string) : recoveryVerdict :=
  let base := classifyRecoveryFacts candidate events evidence principal in
  match marker with
  | recoveryMarkerUnresolved => plainRecovery recoveryActionBlocked 0
  | recoveryMarkerFree => base
  | recoveryMarkerPossiblyLive =>
      if bool_decide (v_action base = recoveryActionBlocked) then base
      else MkVerdict recoveryActionWait (v_project base) (v_stateLabel base) (v_milestone base)
             (v_attemptFloor base) (v_cycleAnchor base) (v_operatorErr base) (v_epochFault base)
             (v_detail base)
  | recoveryMarkerUnknownLaunch => parkRecovery (v_cycleAnchor base) false
  | recoveryMarkerUndeclared _ => plainRecovery recoveryActionBlocked 0
  end.

(** [(verdict, resolved, anchor)]; the zero verdict when unresolved. *)
Definition classifyRecoveryTrackerGates (candidate : recoveryCandidate) (events : list ClaimEvent)
    (principal : string) : recoveryVerdict * bool * Z :=
  let anchor := claimCycleAnchor events principal in
  if negb (rc_active candidate) || closedInCycle events anchor
  then (plainRecovery recoveryActionReleaseDispose anchor, true, anchor)
  else
    let contested :=
      if negb (solePrincipal (rc_Assignees candidate) principal)
      then arbitrateRecovery events (rc_Assignees candidate) principal
      else recoveryArbitrationOurs in
    match contested with
    | recoveryArbitrationOther => (plainRecovery recoveryActionReleaseKeep anchor, true, anchor)
    | recoveryArbitrationUnorderable => (parkRecovery anchor true, true, anchor)
    | recoveryArbitrationUnknown => (plainRecovery recoveryActionBlocked anchor, true, anchor)
    | recoveryArbitrationOurs =>
        if anchor =? 0 then (parkRecovery 0 true, true, 0)
        else if negb (rc_inPartition candidate)
        then (plainRecovery recoveryActionReleaseKeep anchor, true, anchor)
        else (plainRecovery recoveryActionUnknown 0, false, anchor)
    end.

(** [readErr] and [markerErr] say whether the read failed. *)
Definition classifyRecoveryClaimBase (anchor : Z) (state : ClaimBase) (readErr : bool)
    (marker : RunMarkerState) (markerErr runningEvidence : bool) : recoveryVerdict * bool :=
  if readErr then (epochFaultRecovery anchor "claim-base state is unreadable", true)
  else if claimBasePinsEpoch state anchor then (plainRecovery recoveryActionUnknown 0, false)
  else if bool_decide (cb_State state = ClaimBasePending) && (cb_Epoch state =? anchor) then
    if runningEvidence
    then (epochFaultRecovery anchor "pending claim epoch has current-cycle running evidence", true)
    else if markerErr then (plainRecovery recoveryActionBlocked anchor, true)
    else match marker with
         | RunMarkerAbsent => (approveRecovery anchor, true)
         | RunMarkerIdentified | RunMarkerUnknownLaunch =>
             (epochFaultRecovery anchor "pending claim epoch has a run-marker entry", true)
         | RunMarkerUnreadable => (plainRecovery recoveryActionBlocked anchor, true)
         end
  else (epochFaultRecovery anchor "claim-base state is absent, malformed, or belongs to another epoch",
        true).

Fixpoint running_loop (anchor : Z) (events : list ClaimEvent) (anchored : bool) : bool :=
  match events with
  | [] => false
  | ev :: rest =>
      if negb anchored then
        running_loop anchor rest
          (bool_decide (ce_Kind ev = ClaimEventAssigned) && (ce_ID ev =? anchor))
      else if negb (bool_decide (ce_Kind ev = ClaimEventLabeled)) then running_loop anchor rest true
      else
        let '(label, known) := recoveryStateLabel (ce_Subject ev) in
        if (known : bool) && bool_decide (label = StateLabelRunning) then true
        else running_loop anchor rest true
  end.

Definition currentCycleRunningEvidence (events : list ClaimEvent) (anchor : Z) : bool :=
  if anchor <=? 0 then false else running_loop anchor events false.
End recover.
