(* ===== verification/OrchRecoverFacts.v ===== *)
(** * OrchRecoverFacts: recovery decides from evidence

    The two gate functions agree; nothing destructive happens while a run may be
    live or without the evidence that allows it; a contested claim is won by the
    first standing assignment, whatever order assignees are listed in; and the
    effective label does not depend on the order a map is visited in. *)

From S2P Require Import Prelude GoStd GoStdFacts OrchState OrchRecover Core.

(** ** Gates and actions *)

Section gates.
Context {T : GoTables}.
Implicit Types (candidate : recoveryCandidate) (events : list ClaimEvent) (principal : string).

(** The gates recovery asks before it reads any workspace state and the
    gates the classifier repeats are the same gates: when the tracker gates
    resolve, the classifier's facts verdict is theirs whatever the evidence, and
    when they do not, the claim is active, ours, accounted for by the log and in
    the partition, and the verdict is the projection table's. *)
Theorem gates_agree (candidate : recoveryCandidate) (events : list ClaimEvent)
    (evidence : Evidence) (principal : string) :
  let '(v, resolved, anchor) := classifyRecoveryTrackerGates candidate events principal in
  if (resolved : bool) then classifyRecoveryFacts candidate events evidence principal = v
  else
    classifyRecoveryFacts candidate events evidence principal
      = projection_verdict anchor (replayRecoveryProjection events anchor) evidence
    ∧ anchor = claimCycleAnchor events principal ∧ anchor ≠ 0
    ∧ rc_active candidate = true ∧ rc_inPartition candidate = true
    ∧ closedInCycle events anchor = false.
Proof.
  unfold classifyRecoveryTrackerGates, classifyRecoveryFacts, gate_verdict.
  destruct (rc_active candidate); simpl; [|done].
  destruct (closedInCycle _ _) eqn:Hc; simpl; [done|].
  destruct (solePrincipal _ _); simpl; [|destruct (arbitrateRecovery _ _ _); try done];
    (destruct (Z.eqb_spec (claimCycleAnchor events principal) 0); [done|];
     by destruct (rc_inPartition candidate)).
Qed.

(** All four gates passed. *)
Definition claim_accounted candidate events principal : Prop :=
  rc_active candidate = true ∧ rc_inPartition candidate = true
  ∧ closedInCycle events (claimCycleAnchor events principal) = false
  ∧ claimCycleAnchor events principal ≠ 0
  ∧ (solePrincipal (rc_Assignees candidate) principal = true
     ∨ arbitrateRecovery events (rc_Assignees candidate) principal = recoveryArbitrationOurs).

Lemma gate_verdict_None candidate events principal :
  gate_verdict candidate events principal = None → claim_accounted candidate events principal.
Proof.
  unfold gate_verdict, claim_accounted. destruct (rc_active candidate); simpl; [|done].
  destruct (closedInCycle _ _); simpl; [done|].
  destruct (solePrincipal _ _) eqn:Hs; simpl; [|destruct (arbitrateRecovery _ _ _) eqn:Ha; try done];
    (destruct (Z.eqb_spec (claimCycleAnchor events principal) 0); [done|];
     destruct (rc_inPartition candidate); simpl; [|done]; tauto).
Qed.

(** A gate releases, parks or blocks; it disposes only of a finished issue. *)
Lemma gate_verdict_Some candidate events principal v :
  gate_verdict candidate events principal = Some v →
  v_action v ∈ [recoveryActionReleaseKeep; recoveryActionPark; recoveryActionBlocked]
  ∨ v_action v = recoveryActionReleaseDispose
    ∧ (rc_active candidate = false
       ∨ closedInCycle events (claimCycleAnchor events principal) = true).
Proof.
  unfold gate_verdict. destruct (rc_active candidate); simpl; [|intros [= <-]; tauto].
  destruct (closedInCycle _ _); simpl; [intros [= <-]; tauto|]. intros H. left. revert H.
  destruct (solePrincipal _ _); simpl;
    [|destruct (arbitrateRecovery _ _ _); try (intros [= <-]; set_solver)];
    (destruct (_ =? 0); [intros [= <-]; set_solver|];
     destruct (rc_inPartition candidate); [done|intros [= <-]; set_solver]).
Qed.

(** What the projection table does with each kind of evidence. *)
Lemma projection_verdict_actions anchor p evidence :
  let a := v_action (projection_verdict anchor p evidence) in
  a ∈ [recoveryActionPark; recoveryActionReleaseKeep]
  ∨ a = recoveryActionHold ∧ evidence = VerdictPublished
  ∨ a = recoveryActionBlocked ∧ evidence = VerdictUnknown
  ∨ a = recoveryActionBackoff
    ∧ (evidence = VerdictIncomplete ∨ evidence = VerdictContradicted
       ∨ rp_standing p = false ∧ rp_lastRemoved p = StateLabelNeedsReview)
  ∨ a = recoveryActionApprove ∧ rp_standing p = false ∧ rp_sawLabeled p = false.
Proof.
  unfold projection_verdict, classifyActiveRecoveryProjection.
  destruct (rp_standing p).
  - destruct (negb _); [left; set_solver|]. destruct (rp_effective p), evidence; simpl; set_solver.
  - destruct (rp_sawLabeled p); simpl; [|tauto]. destruct (_ || _); [left; set_solver|].
    destruct (rp_lastRemoved p), evidence; simpl; set_solver.
Qed.

(** C16: recovery never destroys or restarts work it cannot account for. A
    workspace is disposed (on hold, and on release-and-dispose) and an agent is
    launched again (on approval, and on backoff) only when the run marker says
    the workspace is free; a claim is held as published only when the evidence
    says published and all four gates passed; work is disposed unpublished only
    when the issue is closed now or was closed in this claim cycle; and a
    verification that gave no answer leads to neither hold nor, for a projected
    run, a restart. *)
Theorem recovery_safety (candidate : recoveryCandidate) (events : list ClaimEvent)
    (evidence : Evidence) (marker : recoveryMarkerState) (principal : string) :
  let v := classifyRecovery candidate events evidence marker principal in
  (marker ≠ recoveryMarkerFree →
     v_action v ∈ [recoveryActionBlocked; recoveryActionWait; recoveryActionPark])
  ∧ (v_action v = recoveryActionHold →
     evidence = VerdictPublished ∧ claim_accounted candidate events principal)
  ∧ (v_action v = recoveryActionReleaseDispose →
     rc_active candidate = false
     ∨ closedInCycle events (claimCycleAnchor events principal) = true)
  ∧ (v_action v = recoveryActionBackoff ∨ v_action v = recoveryActionApprove →
     claim_accounted candidate events principal
     ∧ (evidence = VerdictUnknown →
        rp_standing (replayRecoveryProjection events (claimCycleAnchor events principal)) = false))
  ∧ v_action v ≠ recoveryActionUnknown ∧ v_action v ≠ recoveryActionGone.
Proof.
  simpl. unfold classifyRecovery. destruct marker; simpl;
    try (split_and!; [set_solver|done..| |done|done]; by intros [|]).
  - unfold classifyRecoveryFacts. destruct (gate_verdict candidate events principal) as [v|] eqn:Hg.
    + apply gate_verdict_Some in Hg as [Hv|[Hv ?]].
      * destruct (v_action v); split_and!; (done || (by intros [|]) || set_solver).
      * rewrite Hv. split_and!; (done || by intros [|]).
    + apply gate_verdict_None in Hg.
      pose proof (projection_verdict_actions (claimCycleAnchor events principal)
        (replayRecoveryProjection events (claimCycleAnchor events principal)) evidence) as Ha.
      simpl in Ha.
      destruct (v_action (projection_verdict _ _ _)); split_and!; try done; try set_solver;
        naive_solver.
  - case_bool_decide as Hb; [rewrite Hb|simpl];
      (split_and!; [set_solver|done..| |done|done]; by intros [|]).
Qed.
End gates.

(** ** Arbitration *)

Lemma ra_before_irrefl a : ra_before a a = false.
Proof. unfold ra_before. rewrite Z.eqb_refl. simpl. lia. Qed.

Lemma ra_before_total a b : ra_before a b = false → ra_before b a = false → a = b.
Proof.
  unfold ra_before, time_before. destruct a as [t i], b as [u j]; simpl.
  destruct (Z.eqb_spec t u), (Z.eqb_spec u t); simpl; intros; subst; try lia. f_equal. lia.
Qed.

Lemma ra_before_trans a b c : ra_before a b = true → ra_before b c = true → ra_before a c = true.
Proof.
  unfold ra_before, time_before. destruct (Z.eqb_spec (ra_at a) (ra_at b)),
    (Z.eqb_spec (ra_at b) (ra_at c)), (Z.eqb_spec (ra_at a) (ra_at c)); simpl; lia.
Qed.

Lemma ra_before_asym a b : ra_before a b = true → ra_before b a = false.
Proof.
  unfold ra_before, time_before. destruct (Z.eqb_spec (ra_at a) (ra_at b)),
    (Z.eqb_spec (ra_at b) (ra_at a)); simpl; lia.
Qed.

Lemma sameOrder_eq a b : sameOrder a b = true ↔ a = b.
Proof.
  unfold sameOrder. destruct a as [t i], b as [u j]; simpl. rewrite andb_true_iff, !Z.eqb_eq.
  split; [by intros [-> ->]|by intros [= -> ->]].
Qed.

(** [earliest] is a lower bound and is attained. *)
Lemma earliest_spec first cs :
  (earliest first cs = first ∨ ∃ c, c ∈ cs ∧ rn_assignment c = earliest first cs)
  ∧ ra_before first (earliest first cs) = false
  ∧ ∀ c, c ∈ cs → ra_before (rn_assignment c) (earliest first cs) = false.
Proof.
  unfold earliest. revert first. induction cs as [|c cs IH]; intros first; simpl.
  { split_and!; [by left|apply ra_before_irrefl|set_solver]. }
  destruct (IH (if ra_before (rn_assignment c) first then rn_assignment c else first))
    as (Hat & Hlow & Hall).
  set (m := foldl _ _ cs) in *.
  assert (ra_before (rn_assignment c) m = false ∧ ra_before first m = false) as [Hc Hf].
  { destruct (ra_before (rn_assignment c) first) eqn:Hcf; split; try done.
    - destruct (ra_before first m) eqn:Hfm; [|done].
      by rewrite (ra_before_trans _ _ _ Hcf Hfm) in Hlow.
    - destruct (ra_before (rn_assignment c) m) eqn:Hcm; [|done].
      destruct (ra_before first (rn_assignment c)) eqn:Hfc.
      + by rewrite (ra_before_trans _ _ _ Hfc Hcm) in Hlow.
      + pose proof (ra_before_total _ _ Hcf Hfc). congruence. }
  split_and!; [|done|].
  - destruct Hat as [Hat|(x & Hx & Hat)]; [|right; exists x; split; [by right|done]].
    destruct (ra_before (rn_assignment c) first); [right; exists c; split; [by left|done]|by left].
  - intros x [->|Hx]%elem_of_cons; auto.
Qed.

Lemma winner_loop_spec best cs w0 w :
  Forall (λ c, rn_login c ≠ "") cs →
  winner_loop best cs w0 = Some w ↔
  (∀ c, c ∈ cs → rn_assignment c = best → rn_login c = w)
  ∧ (w0 = "" ∨ w0 = w) ∧ (w = w0 ∨ ∃ c, c ∈ cs ∧ rn_assignment c = best ∧ rn_login c = w).
Proof.
  revert w0. induction cs as [|c cs IH]; intros w0 Hne; simpl.
  { split; [intros [= ->]; set_solver|]. intros (_ & _ & [->|(c & Hc & _)]); [done|set_solver]. }
  apply Forall_cons in Hne as [Hc Hne]. destruct (sameOrder (rn_assignment c) best) eqn:Hs; simpl.
  - apply sameOrder_eq in Hs. case_bool_decide as Hw; simpl.
    + rewrite IH by done. subst w0. split.
      * intros (Hall & Hcase & Hex). assert (rn_login c = w) as Hcw.
        { destruct Hcase; [done|by symmetry]. }
        split_and!; [|by left|right; exists c; split; [by left|done]].
        intros x [->|Hx]%elem_of_cons; auto.
      * intros (Hall & _ & _). assert (rn_login c = w) as Hcw by (apply Hall; [by left|done]).
        split_and!; [|by right|by left]. intros x Hx. apply Hall. by right.
    + case_bool_decide as Hcw0; simpl.
      * rewrite IH by done. rewrite Hcw0. split.
        -- intros (Hall & [?| ->] & _); [done|]. split_and!; [|by right|by left].
           intros x [->|Hx]%elem_of_cons; auto.
        -- intros (Hall & [?| ->] & _); [done|]. split_and!; [|by right|by left].
           intros x Hx. apply Hall. by right.
      * split; [done|]. intros (Hall & [?| ->] & _); [done|].
        destruct Hcw0. apply Hall; [by left|done].
  - assert (rn_assignment c ≠ best) as Hn by (intros He%sameOrder_eq; congruence).
    rewrite IH by done. split; intros (Hall & Hw & Hex); split_and!; try done.
    + intros x [->|Hx]%elem_of_cons; [done|auto].
    + destruct Hex as [?|(x & Hx & ?)]; [by left|right]. exists x. split; [by right|done].
    + intros x Hx. apply Hall. by right.
    + destruct Hex as [?|(x & [->|Hx]%elem_of_cons & ? & ?)]; [by left|done|right]. by exists x.
Qed.

(** The decision over the contenders alone. *)
Definition first_standing (cs : list recoveryContender) : option string :=
  match cs with
  | [] => None
  | c :: rest => winner_loop (earliest (rn_assignment c) rest) cs ""
  end.

Lemma first_standing_spec cs w :
  Forall (λ c, rn_login c ≠ "") cs → NoDup (rn_login <$> cs) →
  first_standing cs = Some w ↔
  ∃ c, c ∈ cs ∧ rn_login c = w
    ∧ ∀ c', c' ∈ cs → rn_login c' ≠ w → ra_before (rn_assignment c) (rn_assignment c') = true.
Proof.
  intros Hne Hnd. unfold first_standing. destruct cs as [|c0 rest]; [split; [done|set_solver]|].
  destruct (earliest_spec (rn_assignment c0) rest) as (Hat & Hlow & Hall).
  set (best := earliest (rn_assignment c0) rest) in *.
  assert (∀ c, c ∈ c0 :: rest → ra_before (rn_assignment c) best = false) as Hmin.
  { intros c [->|Hc]%elem_of_cons; auto. }
  assert (∃ c, c ∈ c0 :: rest ∧ rn_assignment c = best) as (b & Hb & Hbb).
  { destruct Hat as [Hat|(c & Hc & Hat)]; [exists c0|exists c]; split; set_solver. }
  rewrite winner_loop_spec by done. split.
  - intros (Hu & _ & _). exists b. split_and!; [done|by apply Hu|]. intros c' Hc' Hw.
    destruct (ra_before (rn_assignment b) (rn_assignment c')) eqn:Hcmp; [done|].
    destruct Hw. apply Hu; [done|]. rewrite <-Hbb. apply ra_before_total; [|done].
    rewrite Hbb. by apply Hmin.
  - intros (c & Hc & Hcw & Hfirst). assert (rn_assignment c = best) as Hcb.
    { destruct (decide (rn_login b = w)) as [Hbw|Hbw].
      - assert (b = c) as ->; [|done].
        apply list_elem_of_lookup in Hb as [i Hi], Hc as [j Hj].
        assert (i = j) as ->; [|congruence].
        eapply NoDup_lookup; [done|rewrite list_lookup_fmap, Hi; simpl; by rewrite Hbw|].
        by rewrite list_lookup_fmap, Hj, <-Hcw.
      - pose proof (Hfirst b Hb Hbw) as Hf. rewrite Hbb in Hf. by rewrite Hmin in Hf. }
    split_and!; [|by left|right; by exists c]. intros x Hx Hxb.
    destruct (decide (rn_login x = w)) as [?|Hxw]; [done|].
    pose proof (Hfirst x Hx Hxw) as Hf. by rewrite Hxb, Hcb, ra_before_irrefl in Hf.
Qed.

Section arbitration.
Context {T : GoTables}.
Implicit Types (events : list ClaimEvent) (held : gmap string recoveryAssignment) (seen : gset string).

(** Who stands assigned after the log, since when, and who was ever named. *)
Definition standing_assignments events : gmap string recoveryAssignment * gset string :=
  foldl arbitration_step (∅, ∅) events.

Lemma standing_nonempty events : (standing_assignments events).1 !! "" = None.
Proof.
  unfold standing_assignments.
  assert (∀ st, st.1 !! "" = None → (foldl arbitration_step st events).1 !! "" = None) as H;
    [|by apply H].
  induction events as [|ev events IH]; intros [held seen] Hst; simpl; [done|]. apply IH.
  unfold arbitration_step. case_bool_decide as Hl; [done|].
  destruct (ce_Kind ev); simpl; try done.
  - destruct (held !! ToLower (ce_Subject ev)); [done|]. by rewrite lookup_insert_ne.
  - by rewrite lookup_delete_ne.
Qed.

(** Membership of the growing set of logins already looked at. *)
Lemma not_in_current (login x : string) (current : gset string) :
  x ∉ {[login]} ∪ current ↔ x ≠ login ∧ x ∉ current.
Proof. by rewrite not_elem_of_union, not_elem_of_singleton. Qed.

Lemma contenders_loop_spec held seen assignees current :
  match contenders_loop held seen assignees current with
  | None => ∃ a, a ∈ assignees ∧ ToLower a ∉ current ∧ held !! ToLower a = None ∧ ToLower a ∉ seen
  | Some cs =>
      (∀ a, a ∈ assignees → ToLower a ∉ current → is_Some (held !! ToLower a) ∨ ToLower a ∈ seen)
      ∧ NoDup (rn_login <$> cs)
      ∧ ∀ c, c ∈ cs ↔ rn_login c ∈ ToLower <$> assignees ∧ rn_login c ∉ current
                      ∧ held !! rn_login c = Some (rn_assignment c)
  end.
Proof.
  revert current. induction assignees as [|a rest IH]; intros current; simpl.
  { split_and!; [set_solver|constructor|set_solver]. }
  case_bool_decide as Hcur.
  - specialize (IH current). destruct (contenders_loop _ _ _ _) as [cs|].
    + destruct IH as (Hall & Hnd & Hcs). split_and!; [|done|].
      * intros x [->|Hx]%elem_of_cons Hn; [done|auto].
      * intros c. rewrite Hcs, elem_of_cons. split; [tauto|].
        intros ([He|?] & Hn & ?); [|done]. by rewrite He in Hn.
    + destruct IH as (x & Hx & ?). exists x. split; [by right|done].
  - specialize (IH ({[ToLower a]} ∪ current)).
    destruct (held !! ToLower a) as [asg|] eqn:Hh.
    + destruct (contenders_loop _ _ _ _) as [cs|]; simpl; setoid_rewrite not_in_current in IH.
      * destruct IH as (Hall & Hnd & Hcs). split_and!.
        -- intros x [->|Hx]%elem_of_cons Hn; [left; eauto|].
           destruct (decide (ToLower x = ToLower a)) as [He|He]; [rewrite He; left; eauto|]. auto.
        -- apply NoDup_cons. split; [|done]. simpl.
           intros (c & Hc & Hin)%list_elem_of_fmap. apply Hcs in Hin as (_ & [Hin _] & _). by apply Hin.
        -- intros c. rewrite !elem_of_cons, Hcs. split.
           ++ intros [->|(H1 & [H2 H2'] & H3)]; simpl; [split_and!; [by left|done..]|].
              split_and!; [by right|done..].
           ++ intros (Hin & Hn & Hc). destruct (decide (rn_login c = ToLower a)) as [He|He].
              ** left. rewrite He, Hh in Hc. destruct c; simpl in *. congruence.
              ** right. destruct Hin as [?|Hin]; [done|]. by split_and!.
      * destruct IH as (x & Hx & [Hne Hn] & ? & ?). exists x. split_and!; [by right|done..].
    + case_bool_decide as Hseen; [|exists a; split_and!; [by left|done..]].
      destruct (contenders_loop _ _ _ _) as [cs|]; setoid_rewrite not_in_current in IH.
      * destruct IH as (Hall & Hnd & Hcs). split_and!; [|done|].
        -- intros x [->|Hx]%elem_of_cons Hn; [by right|].
           destruct (decide (ToLower x = ToLower a)) as [He|He]; [rewrite He; by right|]. auto.
        -- intros c. rewrite Hcs, elem_of_cons. split.
           ++ intros (? & [? ?] & ?). split_and!; [by right|done..].
           ++ intros ([He|Hin] & Hn & Hc); [congruence|]. split_and!; [done|congruence|done..].
      * destruct IH as (x & Hx & [Hne Hn] & ? & ?). exists x. split_and!; [by right|done..].
Qed.

(** Everyone listed is accounted for by the log. *)
Definition all_accounted events (assignees : list string) : Prop :=
  ∀ a, a ∈ assignees → is_Some ((standing_assignments events).1 !! ToLower a)
                       ∨ ToLower a ∈ (standing_assignments events).2.

(** [w] holds the first standing assignment among those listed. *)
Definition holds_first events (assignees : list string) (w : string) : Prop :=
  w ∈ ToLower <$> assignees ∧ ∃ a, (standing_assignments events).1 !! w = Some a ∧
    ∀ w' a', w' ∈ ToLower <$> assignees → w' ≠ w →
      (standing_assignments events).1 !! w' = Some a' → ra_before a a' = true.

Definition arbitrated (winner : option string) (principal : string) : recoveryArbitration :=
  match winner with
  | None => recoveryArbitrationUnorderable
  | Some w => if EqualFold w principal then recoveryArbitrationOurs else recoveryArbitrationOther
  end.

Lemma arbitrate_cases events assignees principal :
  ∃ winner, arbitrateRecovery events assignees principal = arbitrated winner principal ∧
    ∀ w, winner = Some w ↔ all_accounted events assignees ∧ holds_first events assignees w.
Proof.
  unfold arbitrateRecovery. fold (standing_assignments events).
  pose proof (standing_nonempty events) as Hne. unfold all_accounted, holds_first.
  destruct (standing_assignments events) as [held seen]; simpl in *.
  pose proof (contenders_loop_spec held seen assignees ∅) as Hcs.
  destruct (contenders_loop held seen assignees ∅) as [cs|].
  - destruct Hcs as (Hall & Hnd & Hcs). exists (first_standing cs). split.
    { destruct cs as [|c rest]; reflexivity. }
    intros w. rewrite first_standing_spec; [|rewrite Forall_forall; intros c Hc Hl;
      apply Hcs in Hc as (_ & _ & Hc); rewrite Hl in Hc; congruence|done].
    split.
    + intros (c & Hc & <- & Hfirst). apply Hcs in Hc as (Hin & _ & Hheld).
      split; [intros; apply Hall; set_solver|]. split; [done|]. exists (rn_assignment c).
      split; [done|]. intros w' a' Hw' Hne' Ha'.
      apply (Hfirst (MkContender w' a')); [|done]. apply Hcs. split_and!; [done|set_solver|done].
    + intros (_ & Hin & a & Ha & Hfirst). exists (MkContender w a). split_and!; [|done|].
      * apply Hcs. split_and!; [done|set_solver|done].
      * intros c' (Hc' & _ & Hh)%Hcs Hn. by apply (Hfirst (rn_login c')).
  - exists None. split; [done|]. intros w. split; [done|]. intros (Hall & _).
    destruct Hcs as (a & Ha & _ & Hn & Hs). destruct (Hall a Ha) as [[? ?]|?]; [congruence|done].
Qed.

(** A contested claim goes to the first standing assignment. Recovery decides
    for us exactly when the log accounts for everyone assigned and the listed
    party whose assignment has stood longest — by time and then event id, with
    no tie — is the principal; it depends only on who is assigned, not on the
    order or the repetition in which the tracker lists them. *)
Theorem arbitration_first_standing (events : list ClaimEvent) (assignees : list string)
    (principal : string) :
  (arbitrateRecovery events assignees principal = recoveryArbitrationOurs ↔
     all_accounted events assignees
     ∧ ∃ w, holds_first events assignees w ∧ EqualFold w principal = true)
  ∧ (arbitrateRecovery events assignees principal = recoveryArbitrationOther ↔
     all_accounted events assignees
     ∧ ∃ w, holds_first events assignees w ∧ EqualFold w principal = false)
  ∧ ∀ assignees', (∀ a, a ∈ assignees ↔ a ∈ assignees') →
      arbitrateRecovery events assignees principal = arbitrateRecovery events assignees' principal.
Proof.
  destruct (arbitrate_cases events assignees principal) as (winner & -> & Hw).
  assert (∀ b, arbitrated winner principal
      = (if (b : bool) then recoveryArbitrationOurs else recoveryArbitrationOther) ↔
    all_accounted events assignees
    ∧ ∃ w, holds_first events assignees w ∧ EqualFold w principal = b) as Hb.
  { intros b. split.
    - destruct winner as [w|]; simpl; [|by destruct b].
      destruct (proj1 (Hw w) eq_refl) as [? ?]. intros He. split; [done|]. exists w. split; [done|].
      by destruct (EqualFold w principal), b.
    - intros (Hacc & w & Hfirst & He). rewrite (proj2 (Hw w) (conj Hacc Hfirst)). simpl.
      by rewrite He. }
  split_and!; [apply (Hb true)|apply (Hb false)|]. intros assignees' Hset.
  destruct (arbitrate_cases events assignees' principal) as (winner' & -> & Hw'). f_equal.
  assert (∀ w, winner = Some w ↔ winner' = Some w) as Heq.
  { intros w. rewrite Hw, Hw'. unfold all_accounted, holds_first.
    assert (∀ x, x ∈ ToLower <$> assignees ↔ x ∈ ToLower <$> assignees') as Hl.
    { intros x. rewrite !list_elem_of_fmap. naive_solver. }
    setoid_rewrite Hl. setoid_rewrite Hset. done. }
  destruct winner as [w|]; [by rewrite (proj1 (Heq w) eq_refl)|].
  destruct winner' as [w|]; [by apply Heq|done].
Qed.
End arbitration.

(** ** Projection *)

(** The visited entries have distinct, non-negative orders. *)
Definition distinct_orders (visit : list (string * standingRecoveryLabel)) : Prop :=
  Forall (λ p, 0 ≤ sl_order p.2) visit ∧ NoDup ((λ p, sl_order p.2) <$> visit).

Lemma newest_standing_spec visit :
  Forall (λ p, 0 ≤ sl_order p.2) visit →
  (visit = [] ∧ newest_standing visit = (-1, (false, StateLabelNone, false)))
  ∨ ∃ p, p ∈ visit ∧ newest_standing visit = (sl_order p.2, (true, sl_label p.2, sl_known p.2))
      ∧ ∀ q, q ∈ visit → sl_order q.2 ≤ sl_order p.2.
Proof.
  intros Hpos. unfold newest_standing.
  induction visit as [|p visit IH] using rev_ind; [by left|]. right.
  rewrite Forall_app, Forall_singleton in Hpos. destruct Hpos as [Hpos Hp].
  rewrite foldl_snoc. destruct (IH Hpos) as [[-> ->]|(q & Hq & -> & Hmax)]; simpl.
  - destruct (Z.leb_spec (sl_order p.2) (-1)); [lia|]. exists p. split_and!; [set_solver|done|].
    intros q Hq%list_elem_of_singleton. subst. done.
  - destruct (Z.leb_spec (sl_order p.2) (sl_order q.2)).
    + exists q. split_and!; [set_solver|done|]. intros x [Hx|Hx]%elem_of_app; [auto|].
      apply list_elem_of_singleton in Hx. by subst.
    + exists p. split_and!; [set_solver|done|]. intros x [Hx|Hx]%elem_of_app.
      * specialize (Hmax x Hx). lia.
      * apply list_elem_of_singleton in Hx. by subst.
Qed.

Lemma newest_standing_perm visit visit' :
  distinct_orders visit → visit ≡ₚ visit' → newest_standing visit = newest_standing visit'.
Proof.
  intros [Hpos Hnd] Hp. assert (Forall (λ p, 0 ≤ sl_order p.2) visit') as Hpos' by (by rewrite <-Hp).
  destruct (newest_standing_spec visit Hpos) as [[-> ->]|(p & Hin & -> & Hmax)].
  { apply Permutation_nil_l in Hp. by subst. }
  destruct (newest_standing_spec visit' Hpos') as [[-> _]|(q & Hin' & -> & Hmax')].
  { apply Permutation_nil_r in Hp. subst. by apply elem_of_nil in Hin. }
  assert (p = q) as ->; [|done].
  assert (sl_order p.2 = sl_order q.2) as Heq.
  { rewrite <-Hp in Hin'. specialize (Hmax q Hin'). rewrite Hp in Hin. specialize (Hmax' p Hin). lia. }
  rewrite <-Hp in Hin'. apply list_elem_of_lookup in Hin as [i Hi], Hin' as [j Hj].
  assert (i = j) as ->; [|congruence]. eapply NoDup_lookup; [done|by rewrite list_lookup_fmap, Hi|].
  rewrite list_lookup_fmap, Hj. simpl. by rewrite Heq.
Qed.

Section projection.
Context {T : GoTables}.
Implicit Types (events : list ClaimEvent) (standing : gmap string standingRecoveryLabel).

(** Orders of standing labels are indices below [n], one label each. *)
Definition indexed standing (n : Z) : Prop :=
  (∀ k s, standing !! k = Some s → 0 ≤ sl_order s < n)
  ∧ ∀ k k' s s', standing !! k = Some s → standing !! k' = Some s' →
      sl_order s = sl_order s' → k = k'.

Lemma indexed_insert standing n key label known :
  0 ≤ n → indexed standing n →
  indexed (<[key := MkStanding label known n]> standing) (n + 1).
Proof.
  intros Hn [Hb Hi]. split.
  - intros k s [[<- <-]|[? Hk]]%lookup_insert_Some; simpl; [lia|]. specialize (Hb k s Hk). lia.
  - intros k k' s s' [[<- <-]|[? Hk]]%lookup_insert_Some [[<- <-]|[? Hk']]%lookup_insert_Some;
      simpl; intros He; [done| | |by eapply Hi].
    + specialize (Hb _ _ Hk'). lia.
    + specialize (Hb _ _ Hk). lia.
Qed.

Lemma indexed_weaken standing n n' : n ≤ n' → indexed standing n → indexed standing n'.
Proof. intros Hn [Hb Hi]. split; [|done]. intros k s Hk. specialize (Hb k s Hk). lia. Qed.

Lemma indexed_delete standing n key : indexed standing n → indexed (delete key standing) n.
Proof.
  intros [Hb Hi]. split.
  - intros k s [_ Hk]%lookup_delete_Some. by eapply Hb.
  - intros k k' s s' [_ Hk]%lookup_delete_Some [_ Hk']%lookup_delete_Some. by apply Hi.
Qed.

Lemma projection_step_indexed anchor standing facts n ev :
  0 ≤ n → indexed standing n →
  indexed (projection_step anchor (standing, facts) (n, ev)).1 (n + 1).
Proof.
  intros Hn Hi. unfold projection_step. destruct facts as [[[saw rem] last] known].
  destruct (_ || _); [eapply indexed_weaken, Hi; lia|].
  destruct (recoveryStateLabel _) as [label k].
  destruct (ce_Kind ev); simpl; try (eapply indexed_weaken, Hi; lia).
  - by apply indexed_insert.
  - eapply indexed_weaken, indexed_delete, Hi. lia.
Qed.

Lemma projection_replay_indexed events anchor :
  indexed (projection_replay events anchor).1 (Z.of_nat (length events)).
Proof.
  unfold projection_replay. induction events as [|ev events IH] using rev_ind.
  { split; [by intros k s ?|by intros k k' s s' ?]. }
  rewrite imap_app, foldl_app, length_app. simpl.
  destruct (foldl _ _ _) as [standing facts]. simpl in IH.
  replace (Z.of_nat (length events + 1)) with (Z.of_nat (length events) + 1) by lia.
  rewrite Nat.add_0_r. apply projection_step_indexed; [lia|done].
Qed.

Lemma indexed_distinct standing n : indexed standing n → distinct_orders (map_to_list standing).
Proof.
  intros [Hb Hi]. split.
  - apply Forall_forall. intros [k s] Hk%elem_of_map_to_list. apply (Hb k s Hk).
  - apply NoDup_fmap_2_strong; [|apply NoDup_map_to_list].
    intros [k s] [k' s'] Hk%elem_of_map_to_list Hk'%elem_of_map_to_list He. simpl in He.
    assert (k = k') as -> by (by eapply Hi). congruence.
Qed.

(** The effective projection does not depend on Go's map order. In whatever
    order the standing labels are visited, [replayRecoveryProjection] finds the
    same answer, because each standing label carries the position of the one
    event that last applied it. *)
Theorem projection_order_free (events : list ClaimEvent) (anchor : Z)
    (visit : list (string * standingRecoveryLabel)) :
  visit ≡ₚ map_to_list (projection_replay events anchor).1 →
  projection_of visit (projection_replay events anchor).2 = replayRecoveryProjection events anchor.
Proof.
  intros Hp. unfold replayRecoveryProjection.
  pose proof (projection_replay_indexed events anchor) as Hi.
  destruct (projection_replay events anchor) as [standing [[[saw rem] last] known]]. simpl in *.
  unfold projection_of. rewrite (newest_standing_perm (map_to_list standing) visit);
    [done|by eapply indexed_distinct|by symmetry].
Qed.

(** No state label of the cycle was ever applied. *)
Lemma projection_saw events anchor :
  rp_sawLabeled (replayRecoveryProjection events anchor) = false →
  ∀ ev, ev ∈ events → anchor ≤ ce_ID ev → isRecoveryStateLabel (ce_Subject ev) = true →
    ce_Kind ev ≠ ClaimEventLabeled.
Proof.
  assert (rp_sawLabeled (replayRecoveryProjection events anchor)
          = (projection_replay events anchor).2.1.1.1) as ->.
  { unfold replayRecoveryProjection, projection_of.
    destruct (projection_replay events anchor) as [standing [[[saw rem] last] known]]. simpl.
    by destruct (newest_standing _) as [? [[? ?] ?]]. }
  unfold projection_replay. induction events as [|ev events IH] using rev_ind; [set_solver|].
  rewrite imap_app, foldl_app. simpl. destruct (foldl _ _ _) as [standing facts]. simpl in IH.
  intros Hsaw x Hx Hid Hlab Hk.
  destruct facts as [[[saw rem] last] known]. simpl in *.
  assert (saw = false ∧ (x = ev → False)) as [-> Hne].
  { unfold projection_step in Hsaw. destruct ((ce_ID ev <? anchor) || _) eqn:Hskip; simpl in Hsaw.
    - split; [done|]. intros ->. apply orb_true_iff in Hskip as [?|Hs]; [lia|].
      by rewrite Hlab in Hs.
    - destruct (recoveryStateLabel _) as [lb kn].
      destruct (ce_Kind ev) eqn:Hkev; simpl in Hsaw; try done; (split; [done|intros ->; congruence]). }
  apply elem_of_app in Hx as [Hx|Hx%list_elem_of_singleton]; [by eapply IH|by apply Hne].
Qed.

(** An unannounced claim stays unannounced. Recovery hands a claim back for
    approval only when no state label was ever applied in its cycle, and then
    it projects no label and posts no milestone: the content check comes first. *)
Theorem approval_is_silent (candidate : recoveryCandidate) (events : list ClaimEvent)
    (evidence : Evidence) (marker : recoveryMarkerState) (principal : string) :
  let v := classifyRecovery candidate events evidence marker principal in
  v_action v = recoveryActionApprove →
  v = approveRecovery (claimCycleAnchor events principal)
  ∧ ∀ ev, ev ∈ events → claimCycleAnchor events principal ≤ ce_ID ev →
      isRecoveryStateLabel (ce_Subject ev) = true → ce_Kind ev ≠ ClaimEventLabeled.
Proof.
  unfold classifyRecovery. destruct marker; simpl; try done.
  - unfold classifyRecoveryFacts. destruct (gate_verdict candidate events principal) as [v|] eqn:Hg.
    { apply gate_verdict_Some in Hg as [Hv|[Hv _]]; intros He; rewrite He in Hv; [|done].
      revert Hv. set_solver. }
    intros Ha. assert (rp_sawLabeled (replayRecoveryProjection events
      (claimCycleAnchor events principal)) = false) as Hsaw.
    { pose proof (projection_verdict_actions (claimCycleAnchor events principal)
        (replayRecoveryProjection events (claimCycleAnchor events principal)) evidence) as H.
      simpl in H. rewrite Ha in H. destruct H as [H|[[? ?]|[[? ?]|[[? ?]|(_ & _ & ?)]]]]; try done.
      revert H. set_solver. }
    split; [|by apply projection_saw]. revert Ha. unfold projection_verdict. rewrite Hsaw. simpl.
    destruct (rp_standing _); [|done]. destruct (negb _); [done|].
    destruct (rp_effective _), evidence; done.
  - case_bool_decide as Hb; [by rewrite Hb|done].
Qed.
End projection.

(** ** The claim base *)

(** Only a matching pin authorizes verification. [classifyRecoveryClaimBase]
    lets recovery go on exactly when the read succeeded and returned a pinned
    tuple, complete, for this positive epoch; otherwise it parks, blocks, or — for
    a pending record of this very epoch, with no trace of a run — asks for
    approval again. *)
Theorem claim_base_authorizes (anchor : Z) (state : ClaimBase) (readErr : bool)
    (marker : RunMarkerState) (markerErr runningEvidence : bool) :
  let '(v, resolved) :=
    classifyRecoveryClaimBase anchor state readErr marker markerErr runningEvidence in
  (resolved = false ↔
     readErr = false ∧ 0 < anchor ∧ cb_State state = ClaimBasePinned ∧ cb_Epoch state = anchor
     ∧ cb_BaseSHA state ≠ "" ∧ cb_TargetBranch state ≠ "")
  ∧ (resolved = true →
     v_action v ∈ [recoveryActionPark; recoveryActionBlocked]
     ∨ v = approveRecovery anchor ∧ cb_State state = ClaimBasePending ∧ cb_Epoch state = anchor
       ∧ runningEvidence = false ∧ markerErr = false ∧ marker = RunMarkerAbsent).
Proof.
  unfold classifyRecoveryClaimBase. destruct readErr; [split; [naive_solver|set_solver]|].
  destruct (claimBasePinsEpoch state anchor) eqn:Hp.
  { unfold claimBasePinsEpoch in Hp. split_bools. split; [|done]. split; [|done].
    intros _. split_and!; (done || lia). }
  assert (¬ (0 < anchor ∧ cb_State state = ClaimBasePinned ∧ cb_Epoch state = anchor
             ∧ cb_BaseSHA state ≠ "" ∧ cb_TargetBranch state ≠ "")) as Hno.
  { intros (H1 & H2 & H3 & H4 & H5). apply not_true_iff_false in Hp. apply Hp.
    unfold claimBasePinsEpoch. rewrite !andb_true_iff, !negb_true_iff, !bool_decide_eq_false,
      bool_decide_eq_true, Z.ltb_lt, Z.eqb_eq. tauto. }
  destruct (bool_decide _ && _) eqn:Hpend.
  - apply andb_true_iff in Hpend as [Hs He]. apply bool_decide_eq_true in Hs.
    destruct runningEvidence; [split; [naive_solver|set_solver]|].
    destruct markerErr; [split; [naive_solver|set_solver]|].
    destruct marker; (split; [naive_solver|]); intros _; try (left; set_solver).
    right. split_and!; try done. lia.
  - split; [naive_solver|set_solver].
Qed.

(** ** Instances *)

Definition ex_claim_log : list ClaimEvent :=
  [MkClaimEvent ClaimEventAssigned "alice" "Alice" 5 9;
   MkClaimEvent ClaimEventUnassigned "alice" "alice" 6 10;
   MkClaimEvent ClaimEventAssigned "ben" "Ben-Bot" 7 11].

Definition ex_candidate : recoveryCandidate := MkCandidate ["ben-bot"] true true.

(** Assigned, never projected: the claim is approved first. Projected and published:
    it is held. Two labels left standing: the newer one counts. *)
Example ex_recovery :
  v_action (classifyRecovery ex_candidate ex_claim_log VerdictPublished recoveryMarkerFree "ben-bot")
    = recoveryActionApprove ∧
  v_action (classifyRecovery ex_candidate
      (ex_claim_log ++ [MkClaimEvent ClaimEventLabeled "ben" "ben:claimed" 8 12;
                        MkClaimEvent ClaimEventLabeled "ben" "ben:running" 8 13])
      VerdictPublished recoveryMarkerFree "ben-bot") = recoveryActionHold ∧
  rp_effective (replayRecoveryProjection
      (ex_claim_log ++ [MkClaimEvent ClaimEventLabeled "ben" "ben:claimed" 8 12;
                        MkClaimEvent ClaimEventLabeled "ben" "ben:failed" 8 13]) 11)
    = StateLabelFailed.
Proof. vm_compute. by split_and!. Qed.

Lemma projection_order_free_witness :
  projection_of (reverse (map_to_list (projection_replay ex_claim_log 11).1))
    (projection_replay ex_claim_log 11).2 = replayRecoveryProjection ex_claim_log 11.
Proof. apply projection_order_free. apply reverse_Permutation. Defined.

Lemma approval_is_silent_witness :
  classifyRecovery ex_candidate ex_claim_log VerdictPublished recoveryMarkerFree "ben-bot"
  = approveRecovery (claimCycleAnchor ex_claim_log "ben-bot").
Proof.
  apply (approval_is_silent ex_candidate ex_claim_log VerdictPublished recoveryMarkerFree "ben-bot").
  vm_compute. reflexivity.
Defined.
