(* ===== verification/Verify.v ===== *)
(** * Verify: the publish-evidence check

    Models [internal/verify]: [verify.go] (the checker of a run the daemon hosted),
    [remote.go] (the checker of a run it did not host) and [select.go] (which of
    the two may judge an attempt), over the types of [Core]. The seams [Workspaces],
    [Tracker], [RemoteClaimSource], [RemoteFactSource] and [RemotePRs] are type
    classes over an arbitrary world: their answers may depend on it and change it. *)

From S2P Require Import Prelude GoStd Core.

(** ** Seams *)

Class Workspaces (W : Type) := {
  publishFacts : Workspace → W → result PublishFacts * W;
}.
Class Tracker (W : Type) := {
  FindPR : Issue → string → W → result (option PR) * W;
}.
Class RemoteClaimSource (W : Type) := {
  Claim : RemoteClaimRef → W → result RemoteClaim * W;
}.
Class RemoteFactSource (W : Type) := {
  RemoteFacts : RemoteRunRef → W → result RemotePublishFacts * W;
}.
Class RemotePRs (W : Type) := {
  findRemotePR : RemotePRQuery → W → result (option RemotePR) * W;
}.

(** ** Verdicts and refusals *)

Inductive Verdict := VerdictUnknown | VerdictPublished | VerdictIncomplete | VerdictContradicted.

#[global] Instance Verdict_eq_dec : EqDecision Verdict.
Proof. solve_decision. Defined.

Definition Verdict_String (v : Verdict) : string :=
  match v with
  | VerdictUnknown => "unknown"
  | VerdictPublished => "published"
  | VerdictIncomplete => "incomplete"
  | VerdictContradicted => "contradicted"
  end.

Record Result := MkResult { res_Verdict : Verdict; res_PRURL : string; res_Detail : string }.

Definition ErrPRNotOpen : error :=
  errors_New "verify: tracker returned a pull request that is not open".
Definition ErrPRBranchMismatch : error :=
  errors_New "verify: tracker returned a pull request for a different branch".
Definition ErrPRTargetMissing : error :=
  errors_New "verify: tracker returned a pull request without its target branch".
Definition ErrTargetBranchMissing : error :=
  errors_New "verify: workspace carries no claim-scoped target branch".
Definition ErrRemoteUnprobed : error := errors_New "verify: git facts carry no remote observation".

Definition ErrRemoteFactsUnbound : error :=
  errors_New "verify: remote facts are bound to a different claim, run or verification".
Definition ErrRemoteMirrorStale : error :=
  errors_New "verify: remote facts were not observed during this verification".
Definition ErrRemoteRepositoryMismatch : error :=
  errors_New "verify: remote facts were read from a different repository".
Definition ErrRemoteBranchUnexpected : error :=
  errors_New "verify: remote facts are about a different branch".
Definition ErrRemoteClaimUnpinned : error :=
  errors_New "verify: remote facts carry no claim-time base".
Definition ErrRemotePRContract : error :=
  errors_New "verify: the forge returned a pull request that does not answer the query".
Definition ErrNoRemoteVerifier : error :=
  errors_New "verify: a remote attempt has no remote verifier configured".
Definition ErrNoLocalVerifier : error :=
  errors_New "verify: a local attempt has no local verifier configured".
Definition ErrAmbiguousSubstrate : error :=
  errors_New "verify: an attempt names both a local workspace and a remote run".

Definition contradicted (detail : string) : Result := MkResult VerdictContradicted "" detail.
Definition incomplete (detail : string) : Result := MkResult VerdictIncomplete "" detail.

Definition short (sha : string) : string :=
  if str_len sha <=? 12 then sha else str_take 12 sha.

(** ** The verbs [%+v] of the references and [%v] of a list of strings *)

Definition show_claim_ref (r : RemoteClaimRef) : string :=
  "{Issue:" +:+ cr_Issue r +:+ " Key:" +:+ cr_Key r +:+ " Epoch:" +:+ itoa (cr_Epoch r) +:+ "}".
Definition show_run_ref (r : RemoteRunRef) : string :=
  "{Claim:" +:+ show_claim_ref (rr_Claim r) +:+ " Run:" +:+ rr_Run r
  +:+ " Verification:" +:+ rr_Verification r +:+ "}".
Definition show_list (l : list string) : string := "[" +:+ join " " l +:+ "]".

(** ** The local checker *)

Section local.
Context {T : GoTables} {W : Type} `{!Workspaces W} `{!Tracker W}.

(** Leg 1: the verdict it settles, if it fails. *)
Definition leg1 (ws : Workspace) (facts : PublishFacts) : option Result :=
  if bool_decide (pf_Head facts = "") then
    Some (contradicted ("branch " +:+ ws_Branch ws +:+ " does not exist: the run left no commits"))
  else if bool_decide (pf_Head facts = ws_BaseSHA ws) then
    Some (contradicted ("branch " +:+ ws_Branch ws +:+ " is still at its claim-time base "
      +:+ short (ws_BaseSHA ws) +:+ ": the run added no commits"))
  else if negb (pf_DescendsBase facts) then
    Some (contradicted ("branch " +:+ ws_Branch ws +:+ " at " +:+ short (pf_Head facts)
      +:+ " does not descend from its claim-time base " +:+ short (ws_BaseSHA ws)
      +:+ ": history was rewritten"))
  else None.

(** Leg 2. *)
Definition leg2 (ws : Workspace) (facts : PublishFacts) : option Result :=
  if bool_decide (pf_RemoteHead facts = "") then
    Some (incomplete ("branch " +:+ ws_Branch ws +:+ " has commits at " +:+ short (pf_Head facts)
      +:+ " but is not on origin"))
  else if negb (pf_RemoteHasHead facts) then
    Some (incomplete ("origin's " +:+ ws_Branch ws +:+ " is at " +:+ short (pf_RemoteHead facts)
      +:+ " and does not carry the local head " +:+ short (pf_Head facts)
      +:+ ": the push was partial"))
  else None.

(** Leg 3, on what the tracker answered. *)
Definition leg3 (ws : Workspace) (found : option PR) : result Result :=
  match found with
  | None =>
      Ok (incomplete ("branch " +:+ ws_Branch ws +:+ " is pushed to origin but has no open pull request"))
  | Some pr =>
      if negb (bool_decide (pr_State pr = "open")) then
        Err (errorf_w ErrPRNotOpen (": #" +:+ itoa (pr_Number pr) +:+ " on " +:+ ws_Branch ws
          +:+ " is " +:+ quote (pr_State pr)))
      else if negb (bool_decide (pr_Branch pr = ws_Branch ws)) then
        Err (errorf_w ErrPRBranchMismatch (": #" +:+ itoa (pr_Number pr) +:+ " is on "
          +:+ quote (pr_Branch pr) +:+ ", asked for " +:+ quote (ws_Branch ws)))
      else if bool_decide (pr_BaseBranch pr = "") then
        Err (errorf_w ErrPRTargetMissing (": #" +:+ itoa (pr_Number pr) +:+ " on " +:+ ws_Branch ws))
      else if negb (bool_decide (pr_BaseBranch pr = ws_TargetBranch ws)) then
        Ok (contradicted ("pull request #" +:+ itoa (pr_Number pr) +:+ " targets "
          +:+ pr_BaseBranch pr +:+ ", not " +:+ ws_TargetBranch ws))
      else Ok (MkResult VerdictPublished (pr_URL pr) "")
  end.

(** [Checker.Verify] *)
Definition Verify (issue : Issue) (ws : Workspace) (w : W) : result Result * W :=
  if bool_decide (ws_TargetBranch ws = "") then (Err ErrTargetBranchMissing, w)
  else
    match publishFacts ws w with
    | (Err err, w) =>
        (Err (errorf_wrap ("verify: reading git evidence for " +:+ is_Identifier issue +:+ ": ") err ""), w)
    | (Ok facts, w) =>
        match leg1 ws facts with
        | Some r => (Ok r, w)
        | None =>
            if negb (pf_RemoteProbed facts) then
              (Err (errorf_w ErrRemoteUnprobed (": branch " +:+ ws_Branch ws
                 +:+ " advanced past its base but origin was never asked")), w)
            else
              match leg2 ws facts with
              | Some r => (Ok r, w)
              | None =>
                  match FindPR issue (ws_Branch ws) w with
                  | (Err err, w) =>
                      (Err (errorf_wrap ("verify: finding the pull request for " +:+ ws_Branch ws +:+ ": ")
                         err ""), w)
                  | (Ok found, w) => (leg3 ws found, w)
                  end
              end
        end
    end.
End local.

(** ** The remote checker *)

Definition remoteBranch (key : string) : string := "ben/" +:+ key.

Record RemoteExpectation := MkExpectation { ex_Repository : string }.

Record RemoteResult := MkRemoteResult {
  rres_Verdict : Verdict;
  rres_PRURL : string;
  rres_Detail : string;
  rres_Facts : RemotePublishFacts;
}.

Definition RemoteResult_Result (r : RemoteResult) : Result :=
  MkResult (rres_Verdict r) (rres_PRURL r) (rres_Detail r).

Definition contradictedRemote (facts : RemotePublishFacts) (detail : string) : RemoteResult :=
  MkRemoteResult VerdictContradicted "" detail facts.
Definition incompleteRemote (facts : RemotePublishFacts) (detail : string) : RemoteResult :=
  MkRemoteResult VerdictIncomplete "" detail facts.

(** The constructors: a seam is [nil] or present. [NewRemote] yields the
    expectation the checker holds beside its seams. *)
Definition New (workspaces tracker : bool) : result unit :=
  if negb workspaces || negb tracker
  then Err (errors_New "verify: both the workspace and tracker seams are required")
  else Ok tt.

Definition NewRemote (claims facts prs : bool) (expect : RemoteExpectation) : result RemoteExpectation :=
  if negb claims || negb facts || negb prs
  then Err (errors_New "verify: the remote claim, fact, and forge seams are required")
  else if bool_decide (ex_Repository expect = "")
  then Err (errors_New "verify: a remote verifier must know which repository it verifies")
  else Ok expect.

Section remote.
Context {T : GoTables} (expect : RemoteExpectation).

Definition admitClaim (claim : RemoteClaim) (ref : RemoteClaimRef) (branch : string) : result unit :=
  if negb (bool_decide (rc_Ref claim = ref)) then
    Err (errorf_w ErrRemoteFactsUnbound (": asked for claim " +:+ show_claim_ref ref
      +:+ ", answered for " +:+ show_claim_ref (rc_Ref claim)))
  else if negb (bool_decide (rc_Repository claim = ex_Repository expect)) then
    Err (errorf_w ErrRemoteRepositoryMismatch (": claim reads " +:+ quote (rc_Repository claim)
      +:+ ", this daemon verifies " +:+ quote (ex_Repository expect)))
  else if negb (bool_decide (rc_Branch claim = branch)) then
    Err (errorf_w ErrRemoteBranchUnexpected (": claim records " +:+ quote (rc_Branch claim)
      +:+ ", expected " +:+ quote branch))
  else if bool_decide (rc_BaseSHA claim = "") then
    Err (errorf_w ErrRemoteClaimUnpinned (": claim " +:+ itoa (cr_Epoch ref) +:+ " of issue "
      +:+ cr_Issue ref))
  else if bool_decide (rc_TargetBranch claim = "") then
    Err (errorf ("verify: claim " +:+ itoa (cr_Epoch ref) +:+ " of issue " +:+ cr_Issue ref
      +:+ " carries no target branch"))
  else Ok tt.

Definition admitFacts (facts : RemotePublishFacts) (run : RemoteRunRef) (branch : string)
    (claim : RemoteClaim) : result unit :=
  if negb (bool_decide (rf_Run facts = run)) then
    Err (errorf_w ErrRemoteFactsUnbound (": asked for " +:+ show_run_ref run
      +:+ ", answered for " +:+ show_run_ref (rf_Run facts)))
  else if negb (bool_decide (rf_Repository facts = ex_Repository expect)) then
    Err (errorf_w ErrRemoteRepositoryMismatch (": read " +:+ quote (rf_Repository facts)
      +:+ ", this daemon verifies " +:+ quote (ex_Repository expect)))
  else if negb (bool_decide (rf_Branch facts = branch)) then
    Err (errorf_w ErrRemoteBranchUnexpected (": read " +:+ quote (rf_Branch facts)
      +:+ ", this claim's branch is " +:+ quote branch))
  else if bool_decide (rf_BaseSHA facts = "") then
    Err (errorf_w ErrRemoteClaimUnpinned (": claim " +:+ itoa (cr_Epoch (rr_Claim run))
      +:+ " of issue " +:+ cr_Issue (rr_Claim run)))
  else if negb (bool_decide (rf_BaseSHA facts = rc_BaseSHA claim)) then
    Err (errorf_w ErrRemoteFactsUnbound (": facts use base " +:+ rf_BaseSHA facts
      +:+ ", claim records " +:+ rc_BaseSHA claim))
  else if negb (rf_Fetched facts) then
    Err (errorf_w ErrRemoteMirrorStale (": branch " +:+ branch +:+ " of " +:+ rf_Repository facts))
  else Ok tt.

Definition admitPR (pr : RemotePR) (branch : string) : result unit :=
  let n := itoa (rp_Number pr) in
  if (rp_Number pr <=? 0) || bool_decide (rp_URL pr = "") || bool_decide (rp_HeadRepository pr = "")
     || bool_decide (rp_HeadSHA pr = "") || bool_decide (rp_BaseBranch pr = "") then
    Err (errorf_w ErrRemotePRContract (": the forge returned incomplete facts for pull request #" +:+ n))
  else if negb (bool_decide (rp_State pr = "open")) then
    Err (errorf_w ErrRemotePRContract (": #" +:+ n +:+ " on " +:+ branch +:+ " is "
      +:+ quote (rp_State pr) +:+ ", and the query is for open pull requests"))
  else if negb (bool_decide (rp_HeadBranch pr = branch)) then
    Err (errorf_w ErrRemotePRContract (": #" +:+ n +:+ " is on " +:+ quote (rp_HeadBranch pr)
      +:+ ", asked for " +:+ quote branch))
  else if negb (bool_decide (rp_Repository pr = ex_Repository expect)) then
    Err (errorf_w ErrRemotePRContract (": #" +:+ n +:+ " belongs to " +:+ quote (rp_Repository pr)
      +:+ ", asked about " +:+ quote (ex_Repository expect)))
  else if negb (bool_decide (rp_LinkStatus pr = RemoteIssueLinkStated)) then
    Err (errorf_w ErrRemotePRContract (": #" +:+ n +:+ " did not positively enumerate its closing issues"))
  else if existsb (λ i, bool_decide (i = "")) (rp_LinkedIssues pr) then
    Err (errorf_w ErrRemotePRContract (": #" +:+ n +:+ " returned an empty closing-issue identifier"))
  else Ok tt.

(** The verdict [joins] returns with [false]; [None] is its [true]. *)
Definition joins (pr : RemotePR) (facts : RemotePublishFacts) (issue : Issue)
    (branch targetBranch : string) : option RemoteResult :=
  let n := itoa (rp_Number pr) in
  if negb (bool_decide (rp_HeadRepository pr = ex_Repository expect)) then
    Some (contradictedRemote facts ("pull request #" +:+ n +:+ " publishes " +:+ branch +:+ " from "
      +:+ rp_HeadRepository pr +:+ ", not from " +:+ ex_Repository expect))
  else if negb (bool_decide (rp_BaseBranch pr = targetBranch)) then
    Some (contradictedRemote facts ("pull request #" +:+ n +:+ " targets " +:+ rp_BaseBranch pr
      +:+ ", not " +:+ targetBranch))
  else if negb (bool_decide (rp_HeadSHA pr = rf_RemoteHead facts)) then
    Some (contradictedRemote facts ("pull request #" +:+ n +:+ " proposes " +:+ short (rp_HeadSHA pr)
      +:+ " and " +:+ branch +:+ " is at " +:+ short (rf_RemoteHead facts) +:+ ": the forge and "
      +:+ rf_Repository facts +:+ " disagree"))
  else if negb (bool_decide (is_Identifier issue ∈ rp_LinkedIssues pr)) then
    Some (contradictedRemote facts ("pull request #" +:+ n +:+ " closes "
      +:+ show_list (rp_LinkedIssues pr) +:+ ", not issue " +:+ is_Identifier issue))
  else None.

(** Leg 1 of the remote check. *)
Definition remote_leg1 (facts : RemotePublishFacts) (branch : string) : option RemoteResult :=
  if bool_decide (rf_RemoteHead facts = "") then
    Some (contradictedRemote facts ("branch " +:+ branch +:+ " is not on " +:+ rf_Repository facts
      +:+ ": the run published nothing"))
  else if bool_decide (rf_RemoteHead facts = rf_BaseSHA facts) then
    Some (contradictedRemote facts ("branch " +:+ branch +:+ " is still at its claim-time base "
      +:+ short (rf_BaseSHA facts) +:+ ": the run added no commits"))
  else if negb (rf_DescendsBase facts) then
    Some (contradictedRemote facts ("branch " +:+ branch +:+ " on " +:+ rf_Repository facts
      +:+ " is at " +:+ short (rf_RemoteHead facts)
      +:+ ", which does not descend from the claim-time base " +:+ short (rf_BaseSHA facts)
      +:+ ": history was rewritten"))
  else None.

(** Leg 3 of the remote check, on what the forge answered. *)
Definition remote_leg3 (issue : Issue) (branch : string) (claim : RemoteClaim)
    (facts : RemotePublishFacts) (found : option RemotePR) : result RemoteResult :=
  match found with
  | None =>
      Ok (incompleteRemote facts ("branch " +:+ branch +:+ " is on " +:+ rf_Repository facts
        +:+ " at " +:+ short (rf_RemoteHead facts) +:+ " but has no open pull request"))
  | Some pr =>
      match admitPR pr branch with
      | Err e => Err e
      | Ok _ =>
          match joins pr facts issue branch (rc_TargetBranch claim) with
          | Some verdict => Ok verdict
          | None => Ok (MkRemoteResult VerdictPublished (rp_URL pr) "" facts)
          end
      end
  end.

Context {W : Type} `{!RemoteClaimSource W} `{!RemoteFactSource W} `{!RemotePRs W}.

(** [RemoteChecker.Verify] *)
Definition Remote_Verify (issue : Issue) (run : RemoteRunRef) (w : W) : result RemoteResult * W :=
  if negb (Complete run) then
    (Err (errorf_w ErrRemoteFactsUnbound
       (": a verification names a claim, a run and a verification attempt (got "
        +:+ show_run_ref run +:+ ")")), w)
  else if negb (bool_decide (is_Identifier issue = cr_Issue (rr_Claim run))) then
    (Err (errorf_w ErrRemoteFactsUnbound (": asked about issue " +:+ is_Identifier issue
       +:+ " under a claim for issue " +:+ cr_Issue (rr_Claim run))), w)
  else
    let branch := remoteBranch (cr_Key (rr_Claim run)) in
    match Claim (rr_Claim run) w with
    | (Err err, w) =>
        (Err (errorf_wrap ("verify: reading the claim target for " +:+ is_Identifier issue +:+ ": ")
           err ""), w)
    | (Ok claim, w) =>
        match admitClaim claim (rr_Claim run) branch with
        | Err err => (Err err, w)
        | Ok _ =>
            match RemoteFacts run w with
            | (Err err, w) =>
                (Err (errorf_wrap ("verify: reading daemon-side git evidence for "
                   +:+ is_Identifier issue +:+ ": ") err ""), w)
            | (Ok facts, w) =>
                match admitFacts facts run branch claim with
                | Err err => (Err err, w)
                | Ok _ =>
                    match remote_leg1 facts branch with
                    | Some r => (Ok r, w)
                    | None =>
                        match findRemotePR (MkQuery issue (ex_Repository expect) branch) w with
                        | (Err err, w) =>
                            (Err (errorf_wrap ("verify: reading the pull request for " +:+ branch +:+ ": ")
                               err ""), w)
                        | (Ok found, w) => (remote_leg3 issue branch claim facts found, w)
                        end
                    end
                end
            end
        end
    end.
End remote.

(** ** Selection *)

Record Attempt := MkAttempt {
  at_Issue : Issue;
  at_Workspace : Workspace;
  at_Remote : option RemoteRunRef;
}.

(** The two implementations of [Publication]; the checker each holds is given by
    the seams (local) or by its expectation and the seams (remote). *)
Inductive Publication :=
  | localPublication (issue : Issue) (ws : Workspace)
  | remotePublication (expect : RemoteExpectation) (issue : Issue) (run : RemoteRunRef).

Record PublicationResult := MkPublicationResult {
  pub_Result : Result;
  pub_RemoteFacts : RemotePublishFacts;
}.

(** [local] says that a local checker is configured, [remote] is the configured
    remote checker. *)
Definition SelectPublication (local : bool) (remote : option RemoteExpectation) (a : Attempt)
    : result Publication :=
  let id := is_Identifier (at_Issue a) in
  if bool_decide (id = "") then Err (errors_New "verify: an attempt to verify must name its issue")
  else
    match at_Remote a with
    | None =>
        if local then Ok (localPublication (at_Issue a) (at_Workspace a))
        else Err (errorf_w ErrNoLocalVerifier (": issue " +:+ id))
    | Some run =>
        if negb (bool_decide (at_Workspace a = no_workspace)) then
          Err (errorf_w ErrAmbiguousSubstrate (": issue " +:+ id +:+ " names remote run " +:+ rr_Run run
            +:+ " and local workspace " +:+ ws_Key (at_Workspace a)))
        else
          match remote with
          | None => Err (errorf_w ErrNoRemoteVerifier (": issue " +:+ id +:+ ", run " +:+ rr_Run run))
          | Some expect => Ok (remotePublication expect (at_Issue a) run)
          end
    end.

Section publication.
Context {T : GoTables} {W : Type} `{!Workspaces W} `{!Tracker W}.
Context `{!RemoteClaimSource W} `{!RemoteFactSource W} `{!RemotePRs W}.

(** [Publication.Verify] *)
Definition Publication_Verify (p : Publication) (w : W) : result PublicationResult * W :=
  match p with
  | localPublication issue ws =>
      match Verify issue ws w with
      | (Ok r, w) => (Ok (MkPublicationResult r no_facts), w)
      | (Err e, w) => (Err e, w)
      end
  | remotePublication expect issue run =>
      match Remote_Verify expect issue run w with
      | (Ok r, w) => (Ok (MkPublicationResult (RemoteResult_Result r) (rres_Facts r)), w)
      | (Err e, w) => (Err e, w)
      end
  end.
End publication.
