(* ===== verification/VerifyFacts.v ===== *)
(** * VerifyFacts: what a publication verdict is worth

    For every implementation of the seams: [VerdictPublished] is returned exactly
    on complete evidence, each other verdict says which leg failed, a remote
    verdict is bound to the run it was asked about, and an attempt is only ever
    judged by the checker of its own substrate. *)

From S2P Require Import Prelude GoStd GoStdFacts Verify Core.

(** ** The evidence, stated once *)

(** The git legs of a hosted run. *)
Definition local_git_evidence (ws : Workspace) (f : PublishFacts) : Prop :=
  AdvancedPastBase f (ws_BaseSHA ws) = true ∧ pf_RemoteProbed f = true
  ∧ pf_RemoteHead f ≠ "" ∧ pf_RemoteHasHead f = true.

(** An open pull request on the branch, against the claim's target. *)
Definition local_pr_evidence (ws : Workspace) (pr : PR) : Prop :=
  pr_State pr = "open" ∧ pr_Branch pr = ws_Branch ws ∧ pr_BaseBranch pr = ws_TargetBranch ws.

(** The daemon-side answers that may speak about a remote run at all. *)
Definition remote_bound (expect : RemoteExpectation) (run : RemoteRunRef)
    (claim : RemoteClaim) (f : RemotePublishFacts) : Prop :=
  let branch := remoteBranch (cr_Key (rr_Claim run)) in
  rc_Ref claim = rr_Claim run ∧ rc_Repository claim = ex_Repository expect
  ∧ rc_Branch claim = branch ∧ rc_BaseSHA claim ≠ "" ∧ rc_TargetBranch claim ≠ ""
  ∧ rf_Run f = run ∧ rf_Repository f = ex_Repository expect ∧ rf_Branch f = branch
  ∧ rf_BaseSHA f = rc_BaseSHA claim ∧ rf_Fetched f = true.

Definition remote_advanced (f : RemotePublishFacts) : Prop :=
  rf_RemoteHead f ≠ "" ∧ rf_RemoteHead f ≠ rf_BaseSHA f ∧ rf_DescendsBase f = true.

(** The pull request that publishes exactly the observed head. *)
Definition remote_pr_evidence (expect : RemoteExpectation) (issue : Issue) (run : RemoteRunRef)
    (claim : RemoteClaim) (f : RemotePublishFacts) (pr : RemotePR) : Prop :=
  0 < rp_Number pr ∧ rp_URL pr ≠ "" ∧ rp_State pr = "open"
  ∧ rp_HeadBranch pr = remoteBranch (cr_Key (rr_Claim run))
  ∧ rp_Repository pr = ex_Repository expect ∧ rp_HeadRepository pr = ex_Repository expect
  ∧ rp_HeadRepository pr ≠ "" ∧ rp_BaseBranch pr = rc_TargetBranch claim
  ∧ rp_HeadSHA pr = rf_RemoteHead f ∧ rp_LinkStatus pr = RemoteIssueLinkStated
  ∧ is_Identifier issue ∈ rp_LinkedIssues pr ∧ "" ∉ rp_LinkedIssues pr.

(** ** The legs *)

Lemma advancedPastBase_spec h d b :
  advancedPastBase h d b = true ↔ h ≠ "" ∧ h ≠ b ∧ d = true.
Proof.
  unfold advancedPastBase. rewrite !andb_true_iff, !negb_true_iff, !bool_decide_eq_false. tauto.
Qed.

Lemma leg1_None ws f : leg1 ws f = None ↔ AdvancedPastBase f (ws_BaseSHA ws) = true.
Proof.
  unfold leg1, AdvancedPastBase, advancedPastBase.
  destruct (bool_decide (pf_Head f = "")), (bool_decide (pf_Head f = ws_BaseSHA ws)),
    (pf_DescendsBase f); simpl; split; congruence.
Qed.

Lemma leg1_Some ws f r : leg1 ws f = Some r → res_Verdict r = VerdictContradicted.
Proof. unfold leg1. intros H. repeat split_match_in H; by simplify_eq. Qed.

Lemma leg2_None ws f : leg2 ws f = None ↔ pf_RemoteHead f ≠ "" ∧ pf_RemoteHasHead f = true.
Proof.
  unfold leg2. destruct (bool_decide (pf_RemoteHead f = "")) eqn:E, (pf_RemoteHasHead f);
    split_bools; simpl; split; intuition congruence.
Qed.

Lemma leg2_Some ws f r : leg2 ws f = Some r → res_Verdict r = VerdictIncomplete.
Proof. unfold leg2. intros H. repeat split_match_in H; by simplify_eq. Qed.

Section leg3.
Context {T : GoTables}.

Lemma leg3_published ws found r :
  leg3 ws found = Ok r ∧ res_Verdict r = VerdictPublished ↔
  ∃ pr, found = Some pr ∧ pr_BaseBranch pr ≠ "" ∧ local_pr_evidence ws pr
        ∧ r = MkResult VerdictPublished (pr_URL pr) "".
Proof.
  unfold leg3, local_pr_evidence. split.
  - intros [H Hv]. destruct found as [pr|]; simplify_eq/=. exists pr.
    repeat split_match_in H; split_bools; by simplify_eq/=.
  - intros (pr & -> & Hne & (Hs & Hb & Ht) & ->).
    by rewrite (bool_decide_false (pr_BaseBranch pr = "")), !bool_decide_true.
Qed.

Lemma leg3_other ws found r :
  leg3 ws found = Ok r → res_Verdict r ≠ VerdictPublished →
  (found = None ∧ res_Verdict r = VerdictIncomplete)
  ∨ (∃ pr, found = Some pr ∧ pr_State pr = "open" ∧ pr_Branch pr = ws_Branch ws
           ∧ pr_BaseBranch pr ≠ ws_TargetBranch ws ∧ res_Verdict r = VerdictContradicted).
Proof.
  unfold leg3. intros H Hv. destruct found as [pr|]; [right|left]; simplify_eq/=; [|done].
  exists pr. repeat split_match_in H; split_bools; by simplify_eq/=.
Qed.
End leg3.

(** ** The local checker *)

Section local.
Context {T : GoTables} {W : Type} `{!Workspaces W} `{!Tracker W}.

(** Every way [Verify] returns a verdict. *)
Lemma Verify_Ok issue ws w r w' :
  Verify issue ws w = (Ok r, w') ↔
  ws_TargetBranch ws ≠ "" ∧ ∃ f w1, publishFacts ws w = (Ok f, w1) ∧
    ((leg1 ws f = Some r ∧ w' = w1)
     ∨ (leg1 ws f = None ∧ pf_RemoteProbed f = true ∧
        ((leg2 ws f = Some r ∧ w' = w1)
         ∨ (leg2 ws f = None ∧ ∃ found,
              FindPR issue (ws_Branch ws) w1 = (Ok found, w') ∧ leg3 ws found = Ok r)))).
Proof.
  unfold Verify. split.
  - intros H. repeat split_match_in H; split_bools; simplify_eq; naive_solver.
  - intros (Ht & f & w1 & Hf & Hcase). rewrite bool_decide_false by done. rewrite Hf.
    destruct Hcase as [[-> ->]|(-> & -> & [[-> ->]|(-> & found & -> & ->)])]; done.
Qed.

(** What the checker relies on of the facts it is given: a branch that advanced was
    looked up on origin. *)
Class WorkspacesLaws : Prop :=
  facts_probed ws w f w' :
    publishFacts ws w = (Ok f, w') → AdvancedPastBase f (ws_BaseSHA ws) = true → pf_RemoteProbed f = true.

(** Every way [Verify] fails, against that promise. *)
Lemma Verify_Err `{!WorkspacesLaws} issue ws w e w' :
  Verify issue ws w = (Err e, w') →
  (ws_TargetBranch ws = "" ∧ e = ErrTargetBranchMissing)
  ∨ (∃ e0, publishFacts ws w = (Err e0, w'))
  ∨ ∃ f w1, publishFacts ws w = (Ok f, w1)
      ∧ ((∃ e0, FindPR issue (ws_Branch ws) w1 = (Err e0, w'))
         ∨ ∃ pr, FindPR issue (ws_Branch ws) w1 = (Ok (Some pr), w') ∧ leg3 ws (Some pr) = Err e).
Proof.
  unfold Verify. destruct (bool_decide_reflect (ws_TargetBranch ws = "")); [intros [= <- <-]; by left|].
  destruct (publishFacts ws w) as [[f|e0] w1] eqn:Ef; [|intros [= <- <-]; right; left; by exists e0].
  destruct (leg1 ws f) eqn:E1; [done|]. apply leg1_None in E1. rewrite (facts_probed _ _ _ _ Ef E1).
  destruct (leg2 ws f); [done|]. destruct (FindPR issue (ws_Branch ws) w1) as [[[pr|]|e0] w2] eqn:Ep;
    intros [= He <-]; right; right; exists f, w1; (split; [done|]); eauto.
Qed.

(** The evidence of a published verdict. *)
Lemma Verify_published issue ws w r w' :
  Verify issue ws w = (Ok r, w') → res_Verdict r = VerdictPublished →
  ∃ f w1 pr, publishFacts ws w = (Ok f, w1) ∧ local_git_evidence ws f
    ∧ FindPR issue (ws_Branch ws) w1 = (Ok (Some pr), w') ∧ local_pr_evidence ws pr
    ∧ r = MkResult VerdictPublished (pr_URL pr) "".
Proof.
  unfold local_git_evidence. rewrite Verify_Ok.
  intros (Ht & f & w1 & Hf & [[H1 ->]|(H1 & Hp & [[H2 ->]|(H2 & found & Hpr & H3)])]) Hv.
  - apply leg1_Some in H1. congruence.
  - apply leg2_Some in H2. congruence.
  - destruct (proj1 (leg3_published ws found r) (conj H3 Hv)) as (pr & -> & _ & He & Hr).
    apply leg1_None in H1. apply leg2_None in H2. exists f, w1, pr. tauto.
Qed.

(** C12: the local verifier answers "published" exactly on the complete evidence:
    the claim records a target, the branch has a head past its claim-time base that
    descends from it, origin was asked and carries that head, and the tracker,
    asked afterwards for this branch, returned an open pull request on this branch
    against the claim's target; the answer is then that pull request's URL. An
    error of any seam, or a missing or foreign fact, never yields it. *)
Theorem published_iff issue ws w r w' :
  Verify issue ws w = (Ok r, w') ∧ res_Verdict r = VerdictPublished ↔
  ws_TargetBranch ws ≠ "" ∧
  ∃ f w1 pr, publishFacts ws w = (Ok f, w1) ∧ local_git_evidence ws f
    ∧ FindPR issue (ws_Branch ws) w1 = (Ok (Some pr), w') ∧ local_pr_evidence ws pr
    ∧ r = MkResult VerdictPublished (pr_URL pr) "".
Proof.
  split.
  - intros [H Hv]. split; [by apply Verify_Ok in H as [? _]|]. by apply Verify_published.
  - unfold local_git_evidence. rewrite Verify_Ok. intros (Ht & f & w1 & pr & Hf & (H1 & Hp & H2) & Hpr & He & Hr).
    assert (Hb : pr_BaseBranch pr ≠ "") by (destruct He as (_ & _ & ->); done).
    destruct (proj2 (leg3_published ws (Some pr) r)) as [H3 Hv]; [eauto 6|].
    split; [|done]. split; [done|]. exists f, w1. split; [done|]. right.
    rewrite leg1_None, leg2_None. eauto 8.
Qed.

(** Every other verdict of the local verifier names the leg that failed and
    no later one. "Contradicted" means that the branch did not advance past its
    base - and then the tracker was not consulted - or that
    an open pull request of this branch targets another branch. "Incomplete", the
    verdict that sends a run back to finish publishing, means that there is work
    to publish: the branch advanced, and origin lacks it or no pull request is
    open. The zero verdict is never returned. *)
Theorem local_verdict_names_leg issue ws w r w' :
  Verify issue ws w = (Ok r, w') →
  ∃ f w1, publishFacts ws w = (Ok f, w1) ∧
  match res_Verdict r with
  | VerdictUnknown => False
  | VerdictPublished => local_git_evidence ws f
  | VerdictIncomplete =>
      AdvancedPastBase f (ws_BaseSHA ws) = true ∧ pf_RemoteProbed f = true ∧
      ((w' = w1 ∧ (pf_RemoteHead f = "" ∨ pf_RemoteHasHead f = false))
       ∨ (local_git_evidence ws f ∧ FindPR issue (ws_Branch ws) w1 = (Ok None, w')))
  | VerdictContradicted =>
      (w' = w1 ∧ AdvancedPastBase f (ws_BaseSHA ws) = false)
      ∨ (local_git_evidence ws f ∧
         ∃ pr, FindPR issue (ws_Branch ws) w1 = (Ok (Some pr), w') ∧ pr_State pr = "open"
               ∧ pr_Branch pr = ws_Branch ws ∧ pr_BaseBranch pr ≠ ws_TargetBranch ws)
  end.
Proof.
  unfold local_git_evidence. rewrite Verify_Ok.
  intros (Ht & f & w1 & Hf & [[H1 ->]|(H1 & Hp & [[H2 ->]|(H2 & found & Hpr & H3)])]);
    exists f, w1; (split; [done|]).
  - rewrite (leg1_Some _ _ _ H1). left. split; [done|].
    destruct (AdvancedPastBase f (ws_BaseSHA ws)) eqn:E; [|done].
    apply leg1_None in E. congruence.
  - rewrite (leg2_Some _ _ _ H2). apply leg1_None in H1. split; [done|]. split; [done|]. left.
    split; [done|]. destruct (decide (pf_RemoteHead f = "")); [by left|].
    destruct (pf_RemoteHasHead f) eqn:E; [|by right].
    rewrite (proj2 (leg2_None ws f)) in H2 by done. done.
  - apply leg1_None in H1. pose proof (proj1 (leg2_None ws f) H2) as [??].
    destruct (decide (res_Verdict r = VerdictPublished)) as [Hv|Hv].
    { by rewrite Hv. }
    destruct (leg3_other _ _ _ H3 Hv) as [[-> Hr]|(pr & -> & ? & ? & ? & Hr)]; rewrite Hr.
    + tauto.
    + right. split; [tauto|]. exists pr. tauto.
Qed.
End local.

(** ** The remote checker *)

Section remote.
Context {T : GoTables} (expect : RemoteExpectation).

Lemma admitClaim_ok claim ref branch :
  admitClaim expect claim ref branch = Ok tt ↔
  rc_Ref claim = ref ∧ rc_Repository claim = ex_Repository expect ∧ rc_Branch claim = branch
  ∧ rc_BaseSHA claim ≠ "" ∧ rc_TargetBranch claim ≠ "".
Proof.
  unfold admitClaim. split.
  - intros H. repeat split_match_in H; by split_bools.
  - intros (? & ? & ? & ? & ?).
    by rewrite (bool_decide_true (rc_Ref _ = _)), (bool_decide_true (rc_Repository _ = _)),
      (bool_decide_true (rc_Branch _ = _)), !bool_decide_false.
Qed.

Lemma admitFacts_ok f run branch claim :
  admitFacts expect f run branch claim = Ok tt ↔
  rf_Run f = run ∧ rf_Repository f = ex_Repository expect ∧ rf_Branch f = branch
  ∧ rf_BaseSHA f ≠ "" ∧ rf_BaseSHA f = rc_BaseSHA claim ∧ rf_Fetched f = true.
Proof.
  unfold admitFacts. split.
  - intros H. repeat split_match_in H; by split_bools.
  - intros (? & ? & ? & ? & ? & ->).
    by rewrite (bool_decide_true (rf_Run _ = _)), (bool_decide_true (rf_Repository _ = _)),
      (bool_decide_true (rf_Branch _ = _)), (bool_decide_true (rf_BaseSHA f = rc_BaseSHA claim)),
      !bool_decide_false.
Qed.

Lemma remote_leg1_None f branch : remote_leg1 f branch = None ↔ remote_advanced f.
Proof.
  unfold remote_leg1, remote_advanced. split.
  - intros H. repeat split_match_in H; by split_bools.
  - intros (? & ? & ->). by rewrite !bool_decide_false.
Qed.

Lemma remote_leg1_Some f branch r :
  remote_leg1 f branch = Some r → rres_Verdict r = VerdictContradicted ∧ rres_Facts r = f.
Proof. unfold remote_leg1. intros H. repeat split_match_in H; by simplify_eq. Qed.

Lemma no_empty_link l : existsb (λ i, bool_decide (i = "")) l = false ↔ "" ∉ l.
Proof.
  rewrite <- not_true_iff_false, existsb_exists. setoid_rewrite bool_decide_eq_true.
  rewrite list_elem_of_In. naive_solver.
Qed.

Lemma admitPR_ok pr branch :
  admitPR expect pr branch = Ok tt ↔
  (0 < rp_Number pr ∧ rp_URL pr ≠ "" ∧ rp_HeadRepository pr ≠ "" ∧ rp_HeadSHA pr ≠ ""
   ∧ rp_BaseBranch pr ≠ "")
  ∧ rp_State pr = "open" ∧ rp_HeadBranch pr = branch ∧ rp_Repository pr = ex_Repository expect
  ∧ rp_LinkStatus pr = RemoteIssueLinkStated ∧ "" ∉ rp_LinkedIssues pr.
Proof.
  unfold admitPR. rewrite <- no_empty_link. split.
  - intros H. repeat split_match_in H; split_bools; try done. repeat split; try done; lia.
  - intros ((Hn & ? & ? & ? & ?) & ? & ? & ? & ? & ->).
    by rewrite (proj2 (Z.leb_gt _ _) Hn), (bool_decide_true (rp_State _ = _)),
      (bool_decide_true (rp_HeadBranch _ = _)), (bool_decide_true (rp_Repository _ = _)),
      (bool_decide_true (rp_LinkStatus _ = _)), !bool_decide_false.
Qed.

Lemma joins_None pr f issue branch target :
  joins expect pr f issue branch target = None ↔
  rp_HeadRepository pr = ex_Repository expect ∧ rp_BaseBranch pr = target
  ∧ rp_HeadSHA pr = rf_RemoteHead f ∧ is_Identifier issue ∈ rp_LinkedIssues pr.
Proof.
  unfold joins. split.
  - intros H. repeat split_match_in H; by split_bools.
  - intros (? & ? & ? & ?). by rewrite !bool_decide_true.
Qed.

Lemma joins_Some pr f issue branch target r :
  joins expect pr f issue branch target = Some r →
  rres_Verdict r = VerdictContradicted ∧ rres_Facts r = f.
Proof. unfold joins. intros H. repeat split_match_in H; by simplify_eq. Qed.

Lemma remote_leg3_facts issue branch claim f found r :
  remote_leg3 expect issue branch claim f found = Ok r →
  rres_Facts r = f ∧ rres_Verdict r ≠ VerdictUnknown.
Proof.
  unfold remote_leg3. intros H. repeat split_match_in H; simplify_eq/=; try done.
  apply joins_Some in Heqo0 as [-> ->]. done.
Qed.

Lemma remote_leg3_published issue run claim f found r :
  rf_RemoteHead f ≠ "" → rc_TargetBranch claim ≠ "" →
  remote_leg3 expect issue (remoteBranch (cr_Key (rr_Claim run))) claim f found = Ok r
    ∧ rres_Verdict r = VerdictPublished ↔
  ∃ pr, found = Some pr ∧ remote_pr_evidence expect issue run claim f pr
        ∧ r = MkRemoteResult VerdictPublished (rp_URL pr) "" f.
Proof.
  intros Hh Ht. unfold remote_leg3, remote_pr_evidence. split.
  - intros [H Hv]. destruct found as [pr|]; simplify_eq/=. exists pr.
    destruct (admitPR expect pr _) as [[]|] eqn:Ha; [|done].
    destruct (joins expect pr f issue _ _) eqn:Hj; simplify_eq/=.
    { apply joins_Some in Hj as [? _]. congruence. }
    apply admitPR_ok in Ha. apply joins_None in Hj. tauto.
  - intros (pr & -> & He & ->).
    rewrite (proj2 (admitPR_ok pr _)) by (intuition congruence).
    rewrite (proj2 (joins_None pr f issue _ _)) by tauto. done.
Qed.

Context {W : Type} `{!RemoteClaimSource W} `{!RemoteFactSource W} `{!RemotePRs W}.

(** Every way the remote checker returns a verdict. *)
Lemma Remote_Verify_Ok issue run w r w' :
  Remote_Verify expect issue run w = (Ok r, w') ↔
  Complete run = true ∧ is_Identifier issue = cr_Issue (rr_Claim run) ∧
  ∃ claim w1 f w2, Claim (rr_Claim run) w = (Ok claim, w1) ∧ RemoteFacts run w1 = (Ok f, w2)
    ∧ remote_bound expect run claim f ∧
    let branch := remoteBranch (cr_Key (rr_Claim run)) in
    ((remote_leg1 f branch = Some r ∧ w' = w2)
     ∨ (remote_leg1 f branch = None ∧ ∃ found,
          findRemotePR (MkQuery issue (ex_Repository expect) branch) w2 = (Ok found, w')
          ∧ remote_leg3 expect issue branch claim f found = Ok r)).
Proof.
  unfold Remote_Verify, remote_bound. split.
  - intros H. repeat split_match_in H; split_bools; simplify_eq;
      repeat match goal with u : unit |- _ => destruct u end;
      repeat match goal with
      | Ha : admitClaim _ _ _ _ = Ok _ |- _ => apply admitClaim_ok in Ha
      | Ha : admitFacts _ _ _ _ _ = Ok _ |- _ => apply admitFacts_ok in Ha
      end; naive_solver.
  - intros (Hc & Hi & claim & w1 & f & w2 & Hcl & Hf & Hb & Hcase).
    rewrite Hc, bool_decide_true by done. simpl. rewrite Hcl.
    rewrite (proj2 (admitClaim_ok claim _ _)) by tauto. rewrite Hf.
    rewrite (proj2 (admitFacts_ok f _ _ _)) by (intuition congruence).
    destruct Hcase as [[-> ->]|(-> & found & -> & ->)]; done.
Qed.

(** C13: the remote verifier answers "published" exactly when every identity of
    the question is named, the trusted claim record and the facts read during this
    very verification are bound to that claim, run and verification, repository,
    branch and claim-time base, the canonical head moved past the base and descends
    from it, and the one open pull request proposes exactly that head, from and into
    this repository, against the claim's target, and enumerates this issue among the
    issues it closes. *)
Theorem remote_published_iff issue run w r w' :
  Remote_Verify expect issue run w = (Ok r, w') ∧ rres_Verdict r = VerdictPublished ↔
  Complete run = true ∧ is_Identifier issue = cr_Issue (rr_Claim run) ∧
  ∃ claim w1 f w2 pr,
    Claim (rr_Claim run) w = (Ok claim, w1) ∧ RemoteFacts run w1 = (Ok f, w2)
    ∧ remote_bound expect run claim f ∧ remote_advanced f
    ∧ findRemotePR (MkQuery issue (ex_Repository expect) (remoteBranch (cr_Key (rr_Claim run)))) w2
      = (Ok (Some pr), w')
    ∧ remote_pr_evidence expect issue run claim f pr
    ∧ r = MkRemoteResult VerdictPublished (rp_URL pr) "" f.
Proof.
  rewrite Remote_Verify_Ok. split.
  - intros [(Hc & Hi & claim & w1 & f & w2 & Hcl & Hf & Hb & [[H1 ->]|(H1 & found & Hpr & H3)]) Hv].
    { apply remote_leg1_Some in H1 as [? _]. congruence. }
    apply remote_leg1_None in H1. pose proof Hb as (_ & _ & _ & _ & Ht & _).
    destruct (proj1 (remote_leg3_published issue run claim f found r (proj1 H1) Ht) (conj H3 Hv))
      as (pr & -> & He & Hr). split; [done|]. split; [done|]. exists claim, w1, f, w2, pr. tauto.
  - intros (Hc & Hi & claim & w1 & f & w2 & pr & Hcl & Hf & Hb & Ha & Hpr & He & Hr).
    pose proof Hb as (_ & _ & _ & _ & Ht & _).
    destruct (proj2 (remote_leg3_published issue run claim f (Some pr) r (proj1 Ha) Ht))
      as [H3 Hv]; [eauto|].
    split; [|done]. split; [done|]. split; [done|]. exists claim, w1, f, w2.
    split; [done|]. split; [done|]. split; [done|]. right.
    rewrite remote_leg1_None. eauto.
Qed.
End remote.

(** ** Selection *)

Section selection.
Context {T : GoTables} {W : Type} `{!Workspaces W} `{!Tracker W}.
Context `{!RemoteClaimSource W} `{!RemoteFactSource W} `{!RemotePRs W}.

(** An attempt is judged by the verifier of its own substrate or by none. A
    publication selected for an attempt that names a remote run asks the remote
    checker about that run and never the local one, whatever checkers are
    configured; one selected for a local attempt asks the local checker about its
    workspace; a verdict it returns is never the zero verdict, and carries the facts
    of exactly the run it judged, or none for a local attempt. *)
Theorem selection_never_crosses local remote a p w :
  SelectPublication local remote a = Ok p →
  match at_Remote a with
  | Some run => ∃ expect, remote = Some expect ∧ p = remotePublication expect (at_Issue a) run
      ∧ at_Workspace a = no_workspace
  | None => local = true ∧ p = localPublication (at_Issue a) (at_Workspace a)
  end
  ∧ ∀ r w', Publication_Verify p w = (Ok r, w') →
      res_Verdict (pub_Result r) ≠ VerdictUnknown ∧
      match at_Remote a with
      | Some run => rf_Run (pub_RemoteFacts r) = run ∧ rf_Fetched (pub_RemoteFacts r) = true
      | None => pub_RemoteFacts r = no_facts
      end.
Proof.
  unfold SelectPublication. destruct (bool_decide (_ = "")); [done|].
  destruct (at_Remote a) as [run|].
  - destruct (negb _) eqn:?; [done|]. destruct remote as [expect|]; [|done].
    intros ?; split_bools; simplify_eq. split; [eauto|].
    intros r w'. unfold Publication_Verify.
    destruct (Remote_Verify _ _ _ w) as [[r0|] w0] eqn:E; [|done]. intros ?; simplify_eq/=.
    apply Remote_Verify_Ok in E as (_ & _ & claim & w1 & f & w2 & _ & _ & Hb & Hcase).
    assert (Hf : rres_Facts r0 = f ∧ rres_Verdict r0 ≠ VerdictUnknown).
    { destruct Hcase as [[[Hv Hf]%remote_leg1_Some _]|(_ & found & _ & H3)].
      - rewrite Hv. done.
      - eapply remote_leg3_facts, H3. }
    destruct Hf as [-> ?]. split; [done|]. red in Hb. tauto.
  - destruct local; intros; simplify_eq. split; [done|]. intros r w'. unfold Publication_Verify.
    destruct (Verify _ _ w) as [[r0|] w0] eqn:E; [|done]. intros ?; simplify_eq/=. split; [|done].
    apply Verify_Ok in E as (_ & f & w1 & _ & [[H _]|(_ & _ & [[H _]|(_ & found & _ & H)])]).
    + by rewrite (leg1_Some _ _ _ H).
    + by rewrite (leg2_Some _ _ _ H).
    + unfold leg3 in H. repeat split_match_in H; by simplify_eq.
Qed.
End selection.

(** ** A concrete deployment *)

Definition ex_issue : Issue := MkIssue "42" "t" "b" [] "open" [] [] "" 0 0 "" false.
Definition ex_ws : Workspace :=
  MkWorkspace (MkPaths "/w/42" "/w/base.git" "/w/p42") "42" "ben/42" 7 "base0" "main" false false.
Definition ex_facts : PublishFacts := MkFacts "head1" "head1" true true true.
Definition ex_pr : PR := MkPullRequest 9 "https://f/9" "open" "ben/42" "main".
Definition ex_run : RemoteRunRef := MkRunRef (MkClaimRef "42" "42" 7) "run-1" "v-1".
Definition ex_claim : RemoteClaim := MkRemoteClaim (rr_Claim ex_run) "ben/42" "base0" "main" "o/r" 0.
Definition ex_remote_facts : RemotePublishFacts :=
  MkRemoteFacts ex_run "o/r" "ben/42" "base0" "head1" true true 0.
Definition ex_remote_pr : RemotePR :=
  MkRemotePR 9 "https://f/9" "open" "o/r" "o/r" "ben/42" "head1" "main" RemoteIssueLinkStated ["42"].

(** The world records the seams that were consulted, most recent first. *)
Definition ex_workspaces (f : PublishFacts) : Workspaces (list string) :=
  {| publishFacts _ w := (Ok f, "facts" :: w) |}.
Definition ex_tracker (pr : option PR) : Tracker (list string) :=
  {| FindPR _ _ w := (Ok pr, "pr" :: w) |}.
Definition ex_claims : RemoteClaimSource (list string) := {| Claim _ w := (Ok ex_claim, "claim" :: w) |}.
Definition ex_mirror : RemoteFactSource (list string) :=
  {| RemoteFacts _ w := (Ok ex_remote_facts, "mirror" :: w) |}.
Definition ex_prs : RemotePRs (list string) :=
  {| findRemotePR _ w := (Ok (Some ex_remote_pr), "forge" :: w) |}.

Definition ex_local_verify (f : PublishFacts) (pr : option PR) :=
  Verify (T := ascii_tables) (Workspaces0 := ex_workspaces f) (Tracker0 := ex_tracker pr) ex_issue ex_ws [].
Definition ex_remote_verify (run : RemoteRunRef) :=
  Remote_Verify (T := ascii_tables) (RemoteClaimSource0 := ex_claims) (RemoteFactSource0 := ex_mirror)
    (RemotePRs0 := ex_prs) (MkExpectation "o/r") ex_issue run [].

Example local_publishes :
  ex_local_verify ex_facts (Some ex_pr)
  = (Ok (MkResult VerdictPublished "https://f/9" ""), ["pr"; "facts"]).
Proof. vm_compute. reflexivity. Qed.

Example local_unpushed :
  ex_local_verify (MkFacts "head1" "" true true false) (Some ex_pr)
  = (Ok (incomplete "branch ben/42 has commits at head1 but is not on origin"), ["facts"]).
Proof. vm_compute. reflexivity. Qed.

Example remote_publishes :
  ex_remote_verify ex_run
  = (Ok (MkRemoteResult VerdictPublished "https://f/9" "" ex_remote_facts), ["forge"; "mirror"; "claim"]).
Proof. vm_compute. reflexivity. Qed.

(** Facts observed for one verification do not answer the next. *)
Example remote_replay_refused :
  match ex_remote_verify (MkRunRef (rr_Claim ex_run) "run-1" "v-2") with
  | (Err e, w) => errors_Is e ErrRemoteFactsUnbound = true ∧ w = ["mirror"; "claim"]
  | _ => False
  end.
Proof. vm_compute. done. Qed.

Lemma local_verdict_names_leg_witness :
  Verify (T := ascii_tables) (Workspaces0 := ex_workspaces (MkFacts "base0" "" false true false))
    (Tracker0 := ex_tracker (Some ex_pr)) ex_issue ex_ws []
    = (Ok (contradicted "branch ben/42 is still at its claim-time base base0: the run added no commits"),
       ["facts"])
  ∧ AdvancedPastBase (MkFacts "base0" "" false true false) "base0" = false.
Proof.
  split; [vm_compute; reflexivity|].
  destruct (local_verdict_names_leg (T := ascii_tables)
    (Workspaces0 := ex_workspaces (MkFacts "base0" "" false true false))
    (Tracker0 := ex_tracker (Some ex_pr)) ex_issue ex_ws [] _ _ ltac:(vm_compute; reflexivity))
    as (f & w1 & Hf & [[_ H]|[[H _] _]]).
  - injection Hf as <- _. exact H.
  - injection Hf as <- _. vm_compute in H. discriminate.
Defined.

Lemma selection_never_crosses_witness :
  at_Workspace (MkAttempt ex_issue no_workspace (Some ex_run)) = no_workspace
  ∧ ∃ expect, Some (MkExpectation "o/r") = Some expect
      ∧ remotePublication (MkExpectation "o/r") ex_issue ex_run = remotePublication expect ex_issue ex_run.
Proof.
  destruct (selection_never_crosses (T := ascii_tables) (Workspaces0 := ex_workspaces ex_facts)
    (Tracker0 := ex_tracker None) (RemoteClaimSource0 := ex_claims) (RemoteFactSource0 := ex_mirror)
    (RemotePRs0 := ex_prs) true (Some (MkExpectation "o/r"))
    (MkAttempt ex_issue no_workspace (Some ex_run)) (remotePublication (MkExpectation "o/r") ex_issue ex_run)
    [] eq_refl) as [(expect & He & Hp & Hw) _].
  split; [exact Hw|]. exists expect. split; [exact He|exact Hp].
Defined.
