(* ===== verification/StateLog.v ===== *)
(** * StateLog: the append-only logs of the state directory

    Models [internal/state/jsonl.go] and [internal/state/transitions.go]: opening a
    log with the repair of a torn tail, the all-or-nothing append with its rollback
    and its latch, and the readers. The file behind a log is its bytes, or [None]
    when it does not exist; every system call may fail, as the fault records say,
    and a failing write may have written any prefix of its bytes. The mutex of an
    open log makes its operations a sequence. [encoding/json] is a type class with
    the two properties of its documentation that the format relies on. *)

From Stdlib Require Import Ascii.
From S2P Require Import Prelude GoStd GoStdFacts.

Definition maxRecordBytes : Z := Z.shiftl 64 10.

Definition ErrLogUnwritable : error := errors_New "state: the log can no longer be appended to".
Definition ErrNoState : error := errors_New "state: no state file".

Notation disk := (option string).

(** ** Bytes *)

Definition newline : ascii := byte_of 10.

(** [bytes.LastIndexByte(buf, '\n')]; [None] is [-1]. *)
Fixpoint last_newline (s : string) : option nat :=
  match s with
  | EmptyString => None
  | String c s' =>
      match last_newline s' with
      | Some i => Some (S i)
      | None => if bool_decide (c = newline) then Some 0%nat else None
      end
  end.

(** [buf[len(buf)-1] == '\n'] *)
Definition ends_newline (s : string) : bool :=
  bool_decide (String.get (String.length s - 1) s = Some newline).

Fixpoint zero_bytes (n : nat) : string :=
  match n with O => EmptyString | S n' => String (byte_of 0) (zero_bytes n') end.

(** [f.Truncate(n)]: cuts the file, or extends it with zero bytes. *)
Definition truncate_bytes (n : Z) (s : string) : string :=
  str_take (Z.to_nat n) s +:+ zero_bytes (Z.to_nat n - String.length s).

(** ** Opening *)

Record appendLog := MkLog {
  al_open : bool;               (* [f != nil] *)
  al_path : string;
  al_what : string;
  al_offset : Z;
  al_broken : option error;
  al_Repaired : Z;
}.

(** Which system calls of an open fail. *)
Record open_faults := MkOpenFaults {
  of_open : option error;
  of_stat : option error;
  of_read : option error;
  of_truncate : option error;
  of_sync : option error;
  of_reopen : option error;
  of_restat : option error;
}.

Definition no_open_faults : open_faults := MkOpenFaults None None None None None None None.

(** The last bytes of the file that [repairTail] reads. *)
Definition tail_window (s : string) : string :=
  let size := str_len s in
  let window := if maxRecordBytes >? size then size else maxRecordBytes in
  str_drop (Z.to_nat (size - window)) s.

(** Where the last complete record of the file ends; [None] is [keep < 0]. *)
Definition repair_keep (s : string) : option Z :=
  let size := str_len s in
  let window := str_len (tail_window s) in
  match last_newline (tail_window s) with
  | Some i => Some (size - window + Z.of_nat i + 1)
  | None => if window =? size then Some 0 else None
  end.

Definition repairTail (path what : string) (fl : open_faults) (d : disk) : result Z * disk :=
  match of_open fl with
  | Some e => (Err (errorf_wrap ("state: opening the " +:+ what +:+ " log: ") e ""), d)
  | None =>
      let s := default "" d in
      let d := Some s in
      match of_stat fl with
      | Some e => (Err (errorf_wrap ("state: sizing the " +:+ what +:+ " log: ") e ""), d)
      | None =>
          let size := str_len s in
          if size =? 0 then (Ok 0, d)
          else
            match of_read fl with
            | Some e => (Err (errorf_wrap ("state: reading the tail of the " +:+ what +:+ " log: ") e ""), d)
            | None =>
                if ends_newline (tail_window s) then (Ok 0, d)
                else
                  match repair_keep s with
                  | None =>
                      (Err (errorf ("state: " +:+ path +:+ " ends with " +:+ itoa (str_len (tail_window s))
                         +:+ " bytes containing no record boundary; refusing to append to it")), d)
                  | Some keep =>
                      match of_truncate fl with
                      | Some e => (Err (errorf_wrap ("state: repairing the " +:+ what +:+ " log: ") e ""), d)
                      | None =>
                          let d := Some (truncate_bytes keep s) in
                          match of_sync fl with
                          | Some e =>
                              (Err (errorf_wrap ("state: syncing the repaired " +:+ what +:+ " log: ") e ""), d)
                          | None => (Ok (size - keep), d)
                          end
                      end
                  end
            end
      end
  end.

Definition openAppendLog (path what : string) (fl : open_faults) (d : disk) : result appendLog * disk :=
  match repairTail path what fl d with
  | (Err e, d) => (Err e, d)
  | (Ok repaired, d) =>
      match of_reopen fl with
      | Some e => (Err (errorf_wrap ("state: opening the " +:+ what +:+ " log: ") e ""), d)
      | None =>
          let s := default "" d in
          match of_restat fl with
          | Some e => (Err (errorf_wrap ("state: sizing the " +:+ what +:+ " log: ") e ""), Some s)
          | None => (Ok (MkLog true path what (str_len s) None repaired), Some s)
          end
      end
  end.

(** ** Appending *)

(** A failing write wrote the first [n] bytes (all of them, if [n] is larger). *)
Record append_faults := MkAppendFaults {
  af_write : option (nat * error);
  af_injected : option error;
  af_sync : option error;
  af_truncate : option error;
}.

Definition no_append_faults : append_faults := MkAppendFaults None None None None.

Definition set_offset (w : appendLog) (o : Z) : appendLog :=
  MkLog (al_open w) (al_path w) (al_what w) o (al_broken w) (al_Repaired w).
Definition set_broken (w : appendLog) (e : error) : appendLog :=
  MkLog (al_open w) (al_path w) (al_what w) (al_offset w) (Some e) (al_Repaired w).

Definition rollback (w : appendLog) (to : Z) (cause : error) (fault : option error) (s : string)
    : error * appendLog * string :=
  match fault with
  | Some err =>
      let broken := errorf_w ErrLogUnwritable (": " +:+ err_text cause +:+ " left an incomplete record in "
        +:+ al_path w +:+ " that could not be removed (" +:+ err_text err +:+ ")") in
      (broken, set_broken w broken, s)
  | None =>
      (errorf_wrap ("state: appending to the " +:+ al_what w +:+ " log: ") cause "",
       set_offset w to, truncate_bytes to s)
  end.

(** The first error of the write, the injected failure and the sync. *)
Definition append_outcome (fl : append_faults) : option error :=
  match af_write fl with
  | Some (_, e) => Some e
  | None => match af_injected fl with Some e => Some e | None => af_sync fl end
  end.

(** [None] is Go's [nil] error. The handle outlives the directory entry, so the
    bytes are those of the open file. *)
Definition appendRecord (w : appendLog) (body subject : string) (fl : append_faults) (s : string)
    : option error * appendLog * string :=
  if str_len body + 1 >? maxRecordBytes then
    (Some (errorf ("state: " +:+ al_what w +:+ " record for " +:+ subject +:+ " is "
       +:+ itoa (str_len body + 1) +:+ " bytes, over the " +:+ itoa maxRecordBytes +:+ "-byte limit")), w, s)
  else
    let body := body +:+ nl in
    if negb (al_open w) then (Some (errorf ("state: the " +:+ al_what w +:+ " log is closed")), w, s)
    else
      match al_broken w with
      | Some e => (Some e, w, s)
      | None =>
          let before := al_offset w in
          let written := match af_write fl with Some (n, _) => str_take n body | None => body end in
          let s := s +:+ written in
          let w := set_offset w (al_offset w + str_len written) in
          match append_outcome fl with
          | Some err => let '(e, w, s) := rollback w before err (af_truncate fl) s in (Some e, w, s)
          | None => (None, w, s)
          end
      end.

(** [Close]; [fault] is the error of closing the descriptor. *)
Definition Close (w : appendLog) (fault : option error) : option error * appendLog :=
  if negb (al_open w) then (None, w)
  else
    let w' := MkLog false (al_path w) (al_what w) (al_offset w) (al_broken w) (al_Repaired w) in
    match fault with
    | Some e => (Some (errorf_wrap ("state: closing the " +:+ al_what w +:+ " log: ") e ""), w')
    | None => (None, w')
    end.

(** ** Reading *)

(** The lines of a file, each with its newline, and what follows the last one. *)
Fixpoint read_lines (cur : string) (s : string) : list string * string :=
  match s with
  | EmptyString => ([], cur)
  | String c s' =>
      if bool_decide (c = newline)
      then let '(ls, r) := read_lines EmptyString s' in ((cur +:+ nl) :: ls, r)
      else read_lines (cur +:+ String c EmptyString) s'
  end.

(** [encoding/json] for the records of a log. A marshalled value is one line that is
    not blank, since control characters are escaped; and it reads back for the values
    JSON represents: strings in UTF-8, instants it can print. *)
Class Codec (A : Type) := {
  Marshal : A → result string;
  Unmarshal : string → result A;
  representable : A → Prop;
  Marshal_line : ∀ a b, Marshal a = Ok b → avoids newline b = true ∧ trim_space (b +:+ nl) ≠ "";
  Marshal_total : ∀ a, representable a → ∃ b, Marshal a = Ok b;
  Unmarshal_Marshal : ∀ a b, representable a → Marshal a = Ok b → Unmarshal (b +:+ nl) = Ok a;
}.

(** Which system calls of a read fail; a failing read delivered the first [n] bytes. *)
Record read_faults := MkReadFaults { rd_open : option error; rd_read : option (nat * error) }.
Definition no_read_faults : read_faults := MkReadFaults None None.

Section walk.
Context {A St : Type} `{!Codec A} (path what : string) (visit : A → St → St).

(** The loop of [walkLog] over the lines. *)
Fixpoint walk_lines (line : Z) (ls : list string) (st : St) : result St :=
  match ls with
  | [] => Ok st
  | raw :: ls =>
      if str_len raw >? maxRecordBytes then
        Err (errorf ("state: " +:+ path +:+ " line " +:+ itoa line +:+ " exceeds the "
          +:+ itoa maxRecordBytes +:+ "-byte record limit"))
      else if bool_decide (trim_space raw = "") then walk_lines (line + 1) ls st
      else
        match Unmarshal raw with
        | Err e => Err (errorf_wrap ("state: " +:+ path +:+ " line " +:+ itoa line +:+ " is not a "
            +:+ what +:+ " record: ") e "")
        | Ok rec => walk_lines (line + 1) ls (visit rec st)
        end
  end.

(** The buffer holds [maxRecordBytes]: a longer stretch without a newline fills it
    before the end of the file is seen. *)
Definition walkLog (fl : read_faults) (d : disk) (st : St) : result St :=
  match rd_open fl, d with
  | Some e, _ => Err (errorf_wrap ("state: reading the " +:+ what +:+ " log: ") e "")
  | None, None => Err (errorf_w ErrNoState (" at " +:+ path))
  | None, Some s =>
      let s := match rd_read fl with Some (n, _) => str_take n s | None => s end in
      let '(ls, rest) := read_lines EmptyString s in
      match walk_lines 1 ls st with
      | Err e => Err e
      | Ok st =>
          if str_len rest >=? maxRecordBytes then
            Err (errorf ("state: " +:+ path +:+ " line " +:+ itoa (Z.of_nat (length ls) + 1)
              +:+ " exceeds the " +:+ itoa maxRecordBytes +:+ "-byte record limit"))
          else
            match rd_read fl with
            | Some (_, e) => Err (errorf_wrap ("state: reading the " +:+ what +:+ " log: ") e "")
            | None => Ok st
            end
      end
  end.
End walk.

(** ** The transition log *)

Definition transitionNoun : string := "transition".
Definition failedState : string := "failed".

Record Transition := MkTransition {
  t_TS : Z;
  t_Issue : string;
  t_From : string;
  t_To : string;
  t_Actor : string;
  t_Reason : string;
  t_RunID : string;
  t_FailureReason : string;
}.

Record RunFailure := MkRunFailure { rf_At : Z; rf_Reason : string; rf_Detail : string }.

#[global] Instance Transition_eq_dec : EqDecision Transition.
Proof. solve_decision. Defined.

(** [Dir.Prepare], by the error of its [MkdirAll]. *)
Definition Prepare (root : string) (mkdir : option error) : option error :=
  match mkdir with
  | Some e => Some (errorf_wrap ("state: preparing " +:+ root +:+ ": ") e "")
  | None => None
  end.

(** [path] is the directory's [TransitionsPath]; the writer is the log itself. *)
Definition AppendTransitions (root path : string) (mkdir : option error) (fl : open_faults) (d : disk)
    : result appendLog * disk :=
  match Prepare root mkdir with
  | Some e => (Err e, d)
  | None => openAppendLog path transitionNoun fl d
  end.

Section transitions.
Context `{!Codec Transition} (path : string).

Definition Append (w : appendLog) (t : Transition) (fl : append_faults) (s : string)
    : option error * appendLog * string :=
  match Marshal t with
  | Err e => (Some (errorf_wrap "state: encoding a transition: " e ""), w, s)
  | Ok body => appendRecord w body (t_Issue t) fl s
  end.

(** The closure [Tail] passes to [walkLog], on the ring and the total. *)
Definition tail_visit (n : Z) (t : Transition) (st : list Transition * Z) : list Transition * Z :=
  let '(ring, total) := st in
  let ring := ring ++ [t] in
  (if (0 <? n) && (n <? Z.of_nat (length ring)) then drop 1 ring else ring, total + 1).

Definition Tail (n : Z) (fl : read_faults) (d : disk) : result (list Transition * Z) :=
  walkLog path transitionNoun (tail_visit n) fl d ([], 0).

Definition failure_visit (issue : string) (t : Transition) (st : RunFailure * bool) : RunFailure * bool :=
  if negb (bool_decide (t_Issue t = issue)) || negb (bool_decide (t_To t = failedState))
     || bool_decide (t_FailureReason t = "")
  then st
  else (MkRunFailure (t_TS t) (t_FailureReason t) (t_Reason t), true).

Definition LastFailure (issue : string) (fl : read_faults) (d : disk) : result (RunFailure * bool) :=
  walkLog path transitionNoun (failure_visit issue) fl d (MkRunFailure zero_time "" "", false).
End transitions.
