(* ===== verification/StateLogFacts.v ===== *)
(** * StateLogFacts: what the logs of the state directory guarantee

    A log is a list of records; its file is their lines, and after a failure at most
    one torn line. An append either happens or leaves nothing behind; whatever
    prefix of a record a crash leaves, reopening recovers the log; and the readers
    return the records that were acknowledged, in order, and at most one more. *)

From Stdlib Require Import Ascii.
From S2P Require Import Prelude GoStd GoStdFacts StateLog.

(** ** Bytes *)

Lemma to_nat_str_len s : Z.to_nat (str_len s) = String.length s.
Proof. apply Nat2Z.id. Qed.

Lemma str_take_app s t : str_take (String.length s) (s +:+ t) = s.
Proof.
  induction s as [|c s IH]; [by destruct t|]. rewrite sapp_cons. simpl. by rewrite IH.
Qed.

Lemma str_drop_app_le n s t : (n ≤ String.length s)%nat → str_drop n (s +:+ t) = str_drop n s +:+ t.
Proof.
  revert n. induction s as [|c s IH]; intros [|n] H.
  - by destruct t.
  - simpl in H. lia.
  - done.
  - rewrite sapp_cons. simpl in *. apply IH. lia.
Qed.

Lemma str_len_take n s : str_len (str_take n s) ≤ str_len s.
Proof.
  unfold str_len. revert n. induction s as [|c s IH]; intros [|n]; simpl; [lia..|].
  specialize (IH n). lia.
Qed.

Lemma avoids_take c n s : avoids c s = true → avoids c (str_take n s) = true.
Proof.
  intros H. rewrite (str_take_drop n s), avoids_app in H. by apply andb_true_iff in H as [??].
Qed.

Lemma nl_newline : nl = String newline EmptyString.
Proof. reflexivity. Qed.

Lemma str_len_nl : str_len nl = 1.
Proof. reflexivity. Qed.

Lemma truncate_app s t : truncate_bytes (str_len s) (s +:+ t) = s.
Proof.
  unfold truncate_bytes. rewrite to_nat_str_len, str_take_app.
  replace (String.length s - String.length (s +:+ t))%nat with 0%nat.
  - simpl. apply sapp_nil_r.
  - pose proof (str_len_app s t) as H. unfold str_len in H. lia.
Qed.

Lemma last_newline_absent s : avoids newline s = true → last_newline s = None.
Proof.
  induction s as [|c s IH]; [done|]. intros [Hc Hs]%avoids_cons. simpl.
  by rewrite IH, bool_decide_eq_false_2.
Qed.

Lemma last_newline_app s t :
  avoids newline t = true → last_newline (s +:+ nl +:+ t) = Some (String.length s).
Proof.
  intros Ht. induction s as [|c s IH].
  - rewrite sapp_nil_l, nl_newline, sapp_cons, sapp_nil_l. simpl.
    by rewrite last_newline_absent.
  - rewrite sapp_cons. simpl. by rewrite IH.
Qed.

Lemma get_app_r s c : String.get (String.length s) (s +:+ String c EmptyString) = Some c.
Proof. induction s as [|a s IH]; [done|]. rewrite sapp_cons. simpl. exact IH. Qed.

Lemma str_snoc s : s ≠ EmptyString → ∃ p c, s = p +:+ String c EmptyString.
Proof.
  induction s as [|a s IH]; [done|]. intros _. destruct (decide (s = EmptyString)) as [->|Hs].
  - exists EmptyString, a. done.
  - destruct (IH Hs) as (p & c & ->). exists (String a p), c. by rewrite sapp_cons.
Qed.

Lemma ends_newline_snoc s c : ends_newline (s +:+ String c EmptyString) = bool_decide (c = newline).
Proof.
  unfold ends_newline. assert (Hl : String.length (s +:+ String c EmptyString) = S (String.length s)).
  { pose proof (str_len_app s (String c EmptyString)) as H. unfold str_len in H. simpl in H. lia. }
  rewrite Hl. replace (S (String.length s) - 1)%nat with (String.length s) by lia. rewrite get_app_r.
  apply bool_decide_ext. split; [by intros [= ?]|by intros ->].
Qed.

Lemma ends_newline_nl s : ends_newline (s +:+ nl) = true.
Proof. rewrite nl_newline, ends_newline_snoc. by apply bool_decide_eq_true_2. Qed.

Lemma ends_newline_frag s t : t ≠ EmptyString → avoids newline t = true → ends_newline (s +:+ t) = false.
Proof.
  intros Ht Ha. destruct (str_snoc t Ht) as (p & c & ->). rewrite <- sapp_assoc, ends_newline_snoc.
  rewrite avoids_app, andb_true_iff in Ha. destruct Ha as [_ [Hc _]%avoids_cons].
  by apply bool_decide_eq_false_2.
Qed.

(** ** Logs as lists of records *)

Definition log_bytes (recs : list string) : string :=
  foldr (λ b acc, (b +:+ nl) +:+ acc) EmptyString recs.

(** A record of a log: one line within the limit, with a property of the caller's. *)
Definition record_ok (ok : string → Prop) (b : string) : Prop :=
  avoids newline b = true ∧ str_len b + 1 ≤ maxRecordBytes ∧ ok b.

Lemma maxRecordBytes_val : maxRecordBytes = 65536.
Proof. reflexivity. Qed.

Lemma log_bytes_app l1 l2 : log_bytes (l1 ++ l2) = log_bytes l1 +:+ log_bytes l2.
Proof.
  induction l1 as [|b l1 IH]; simpl; [by rewrite sapp_nil_l|]. by rewrite IH, !sapp_assoc.
Qed.

Lemma log_bytes_snoc l b : log_bytes (l ++ [b]) = log_bytes l +:+ b +:+ nl.
Proof. rewrite log_bytes_app. simpl. by rewrite sapp_nil_r. Qed.

(** A non-empty log ends with a newline. *)
Lemma log_bytes_end l : l ≠ [] → ∃ p, log_bytes l = p +:+ nl.
Proof.
  destruct l as [|b l] using rev_ind; [done|]. intros _. rewrite log_bytes_snoc.
  exists (log_bytes l +:+ b). by rewrite sapp_assoc.
Qed.

Lemma read_lines_record b s cur :
  avoids newline b = true →
  read_lines cur (b +:+ nl +:+ s)
  = let '(ls, r) := read_lines EmptyString s in ((cur +:+ b +:+ nl) :: ls, r).
Proof.
  revert cur. induction b as [|c b IH]; intros cur.
  - intros _. rewrite nl_newline, !sapp_nil_l, sapp_cons, sapp_nil_l. done.
  - intros [Hc Hb]%avoids_cons. rewrite !sapp_cons. simpl.
    rewrite bool_decide_eq_false_2 by done. rewrite IH by done.
    destruct (read_lines EmptyString s). by rewrite !sapp_assoc, !sapp_cons, !sapp_nil_l.
Qed.

Lemma read_lines_frag cur s : avoids newline s = true → read_lines cur s = ([], cur +:+ s).
Proof.
  revert cur. induction s as [|c s IH]; intros cur; [by rewrite sapp_nil_r|].
  intros [Hc Hs]%avoids_cons. simpl. rewrite bool_decide_eq_false_2 by done.
  by rewrite IH, sapp_assoc, sapp_cons, sapp_nil_l.
Qed.

Lemma read_lines_log ok recs frag :
  Forall (record_ok ok) recs → avoids newline frag = true →
  read_lines EmptyString (log_bytes recs +:+ frag) = ((λ b, b +:+ nl) <$> recs, frag).
Proof.
  intros Hr Hf. induction Hr as [|b recs (Hb & _) _ IH]; simpl.
  - by rewrite sapp_nil_l, read_lines_frag, sapp_nil_l.
  - rewrite !sapp_assoc, read_lines_record by done. rewrite IH. by rewrite sapp_nil_l.
Qed.

Lemma records_snoc ok recs b :
  Forall (record_ok ok) recs → record_ok ok b → Forall (record_ok ok) (recs ++ [b]).
Proof. intros. apply Forall_app. split; [done|]. by apply Forall_singleton. Qed.

(** ** The state of an open log *)

(** [torn ok recs s]: the lines of [recs], then a prefix of at most one more record. *)
Definition torn (ok : string → Prop) (recs : list string) (s : string) : Prop :=
  ∃ b n, record_ok ok b ∧ s = log_bytes recs +:+ str_take n (b +:+ nl).

(** [holds ok recs w s]: the open log [w] over the bytes [s] holds the records [recs],
    each with the property [ok] of the records that are written to it. *)
Definition holds (ok : string → Prop) (recs : list string) (w : appendLog) (s : string) : Prop :=
  al_open w = true ∧ Forall (record_ok ok) recs ∧
  match al_broken w with
  | None => s = log_bytes recs ∧ al_offset w = str_len s
  | Some e => errors_Is e ErrLogUnwritable = true ∧ torn ok recs s
  end.

(** A torn log is a log and a fragment of a record. *)
Lemma torn_fragment ok recs s :
  Forall (record_ok ok) recs → torn ok recs s →
  ∃ recs' frag, Forall (record_ok ok) recs' ∧ (recs' = recs ∨ ∃ b, recs' = recs ++ [b])
    ∧ s = log_bytes recs' +:+ frag ∧ avoids newline frag = true ∧ str_len frag < maxRecordBytes.
Proof.
  intros Hr (b & n & (Hb & Hl & Hp) & ->). destruct (decide (n ≤ String.length b)%nat) as [Hn|Hn].
  - exists recs, (str_take n b). rewrite str_take_app_le by done. split; [done|]. split; [by left|].
    split; [done|]. split; [by apply avoids_take|]. pose proof (str_len_take n b). lia.
  - exists (recs ++ [b]), EmptyString. split; [by apply records_snoc|].
    split; [by right; exists b|]. split; [|done]. rewrite log_bytes_snoc, sapp_nil_r.
    rewrite str_take_all; [done|]. pose proof (str_len_app b nl) as H. rewrite str_len_nl in H.
    unfold str_len in H. lia.
Qed.

(** A latched log refuses every append and touches nothing. *)
Lemma append_latched w b body subject fl s :
  al_open w = true → al_broken w = Some b →
  ∃ e, appendRecord w body subject fl s = (Some e, w, s)
       ∧ (str_len body + 1 ≤ maxRecordBytes → e = b).
Proof.
  intros Ho Hb. unfold appendRecord. rewrite Ho, Hb.
  destruct (str_len body + 1 >? maxRecordBytes) eqn:E; eexists; (split; [done|]); [lia|done].
Qed.

Lemma holds_snoc ok recs w body :
  al_open w = true → al_broken w = None → Forall (record_ok ok) recs → record_ok ok body →
  holds ok (recs ++ [body]) (set_offset w (str_len (log_bytes recs) + str_len (body +:+ nl)))
    (log_bytes recs +:+ body +:+ nl).
Proof.
  intros Ho Hb Hr Hok. split; [done|]. split; [by apply records_snoc|].
  simpl. rewrite Hb, log_bytes_snoc. split; [done|]. symmetry. apply str_len_app.
Qed.

Lemma holds_rollback ok recs w cause fault body n o e w' s' :
  al_open w = true → al_broken w = None → Forall (record_ok ok) recs → record_ok ok body →
  rollback (set_offset w o) (str_len (log_bytes recs)) cause fault
    (log_bytes recs +:+ str_take n (body +:+ nl)) = (e, w', s') →
  holds ok recs w' s' ∧ (al_broken w' = None → s' = log_bytes recs)
  ∧ (∀ b, al_broken w' = Some b → e = b).
Proof.
  intros Ho Hb Hr Hok. unfold rollback, holds. destruct fault as [er|]; intros [= <- <- <-]; simpl.
  - split; [|split; [done|by intros b [= <-]]]. split; [done|]. split; [done|].
    split; [reflexivity|]. by exists body, n.
  - rewrite truncate_app, Hb. done.
Qed.

(** One append over a log that holds some records. *)
Lemma appendRecord_holds ok recs w s body subject fl r w' s' :
  holds ok recs w s → ok body → avoids newline body = true →
  appendRecord w body subject fl s = (r, w', s') →
  match r with
  | None => holds ok (recs ++ [body]) w' s' ∧ al_broken w' = None ∧ s' = s +:+ body +:+ nl
  | Some e =>
      holds ok recs w' s' ∧ (al_broken w' = None → s' = s)
      ∧ (∀ b, al_broken w' = Some b → al_broken w = None → e = b)
  end.
Proof.
  intros Hh Hp Ha H. pose proof Hh as (Ho & Hr & Hb). unfold appendRecord in H. rewrite Ho in H.
  simpl in H.
  destruct (str_len body + 1 >? maxRecordBytes) eqn:Hsize; [|destruct (al_broken w) as [b0|] eqn:Hw].
  - injection H as <- <- <-. split; [done|]. split; [done|]. congruence.
  - injection H as <- <- <-. split; [done|]. split; [done|]. congruence.
  - assert (Hok : record_ok ok body) by (split; [done|split; [lia|done]]). destruct Hb as [-> Hoff].
    rewrite Hoff in H. destruct (append_outcome fl) as [err|] eqn:Hout.
    + set (n := match af_write fl with Some (k, _) => k | None => String.length (body +:+ nl) end).
      assert (Hn : match af_write fl with Some (k, _) => str_take k (body +:+ nl) | None => body +:+ nl end
                   = str_take n (body +:+ nl)).
      { unfold n. destruct (af_write fl) as [[??]|]; [done|]. by rewrite str_take_all. }
      rewrite Hn in H. destruct (rollback _ _ _ _ _) as [[e w1] s1] eqn:Hroll. injection H as <- <- <-.
      apply (holds_rollback ok) in Hroll as (H1 & H2 & H3); try done.
      split; [done|]. split; [done|]. intros b Hb' _. by apply H3.
    + unfold append_outcome in Hout. destruct (af_write fl) as [[??]|]; [done|].
      injection H as <- <- <-. split; [by apply holds_snoc|]. split; [exact Hw|done].
Qed.

(** An append that latches the log left a prefix of its line. *)
Lemma appendRecord_latches ok recs w s body subject fl r w' s' :
  holds ok recs w s → al_broken w = None → appendRecord w body subject fl s = (r, w', s') →
  al_broken w' ≠ None →
  str_len body + 1 ≤ maxRecordBytes ∧ ∃ n, s' = s +:+ str_take n (body +:+ nl).
Proof.
  intros (Ho & _ & Hb) Hw H Hw'. unfold appendRecord in H. rewrite Ho, Hw in *. simpl in H.
  destruct (str_len body + 1 >? maxRecordBytes) eqn:Hsize; [by injection H as <- <- <-|].
  split; [lia|]. destruct (append_outcome fl) as [err|]; [|by injection H as <- <- <-].
  unfold rollback in H. destruct (af_truncate fl) as [er|]; injection H as <- <- <-; [|done].
  destruct (af_write fl) as [[n ?]|]; [by exists n|].
  exists (String.length (body +:+ nl)). by rewrite str_take_all.
Qed.

(** Appending is all or nothing. Over an open log that holds some records, an
    append that reports success leaves exactly one more line in the file; an append
    that reports an error - too large a record, a write cut short anywhere, a failed
    sync - leaves the file as it was; and only when the rollback itself failed is
    anything of the record left: the error is then ErrLogUnwritable and the log is
    latched, every later append being refused without touching the file. *)
Theorem append_all_or_nothing ok recs w s body subject fl r w' s' :
  holds ok recs w s → ok body → avoids newline body = true →
  appendRecord w body subject fl s = (r, w', s') →
  match r with
  | None => holds ok (recs ++ [body]) w' s' ∧ al_broken w' = None ∧ s' = s +:+ body +:+ nl
  | Some e =>
      holds ok recs w' s' ∧ (al_broken w' = None → s' = s)
      ∧ (∀ b, al_broken w' = Some b →
           (al_broken w = None → e = b) ∧ errors_Is b ErrLogUnwritable = true
           ∧ ∀ body' subject' fl', ∃ e', appendRecord w' body' subject' fl' s' = (Some e', w', s')
               ∧ (str_len body' + 1 ≤ maxRecordBytes → e' = b))
  end.
Proof.
  intros Hh Hp Ha H. pose proof (appendRecord_holds _ _ _ _ _ _ _ _ _ _ Hh Hp Ha H) as Hs.
  destruct r as [e|]; [|done]. destruct Hs as (H1 & H2 & H3). split; [done|]. split; [done|].
  intros b Hb. split; [by apply H3|]. destruct H1 as (Ho & _ & Hc). rewrite Hb in Hc.
  split; [tauto|]. intros. by apply append_latched.
Qed.

(** ** Repair *)

(** The window holds the end of the last complete record. *)
Lemma tail_window_record p frag :
  str_len frag < maxRecordBytes →
  ∃ k q, p = k +:+ q ∧ tail_window (p +:+ nl +:+ frag) = q +:+ nl +:+ frag.
Proof.
  intros Hf. unfold tail_window. rewrite !str_len_app, str_len_nl.
  set (k := Z.to_nat _).
  assert (Hk : (k ≤ String.length p)%nat).
  { unfold k, str_len in *. destruct (_ >? _) eqn:E; lia. }
  exists (str_take k p), (str_drop k p). split; [apply str_take_drop|]. by apply str_drop_app_le.
Qed.

Lemma tail_window_short s : str_len s ≤ maxRecordBytes → tail_window s = s.
Proof.
  intros Hs. unfold tail_window. destruct (_ >? _) eqn:E.
  - by rewrite Z.sub_diag.
  - replace (str_len s - maxRecordBytes) with 0 by lia. done.
Qed.

Lemma repair_keep_log recs frag :
  avoids newline frag = true → str_len frag < maxRecordBytes →
  repair_keep (log_bytes recs +:+ frag) = Some (str_len (log_bytes recs)).
Proof.
  intros Ha Hl. unfold repair_keep. destruct (decide (recs = [])) as [->|Hne].
  - simpl. rewrite sapp_nil_l, tail_window_short by lia.
    by rewrite last_newline_absent, Z.eqb_refl.
  - destruct (log_bytes_end recs Hne) as [p ->]. rewrite sapp_assoc.
    destruct (tail_window_record p frag Hl) as (k & q & -> & ->).
    rewrite last_newline_app by done. f_equal. rewrite !str_len_app, str_len_nl. unfold str_len. lia.
Qed.

Lemma ends_newline_window recs frag :
  avoids newline frag = true → str_len frag < maxRecordBytes → log_bytes recs +:+ frag ≠ "" →
  ends_newline (tail_window (log_bytes recs +:+ frag)) = bool_decide (frag = "").
Proof.
  intros Ha Hl Hne. destruct (decide (recs = [])) as [->|Hr].
  - simpl in *. rewrite sapp_nil_l in *. rewrite tail_window_short by lia.
    rewrite bool_decide_eq_false_2 by done. rewrite <- (sapp_nil_l frag). by apply ends_newline_frag.
  - destruct (log_bytes_end recs Hr) as [p ->]. rewrite sapp_assoc.
    destruct (tail_window_record p frag Hl) as (k & q & -> & ->).
    destruct (decide (frag = "")) as [->|Hf].
    + rewrite sapp_nil_r, ends_newline_nl. done.
    + rewrite bool_decide_eq_false_2 by done. rewrite <- sapp_assoc. by apply ends_newline_frag.
Qed.

(** What repairing a log with a torn tail does, whatever fails. *)
Lemma repairTail_log path what fl recs frag r d :
  avoids newline frag = true → str_len frag < maxRecordBytes →
  repairTail path what fl (Some (log_bytes recs +:+ frag)) = (r, d) →
  match r with
  | Ok n => d = Some (log_bytes recs) ∧ n = str_len frag
  | Err _ => fl ≠ no_open_faults ∧ (d = Some (log_bytes recs +:+ frag) ∨ d = Some (log_bytes recs))
  end.
Proof.
  intros Ha Hl. unfold repairTail. simpl default.
  destruct fl as [[|] [|] [|] [|] [|] x y]; simpl;
    destruct (str_len (log_bytes recs +:+ frag) =? 0) eqn:Hz;
    try (intros [= <- <-]; split; [discriminate|by left]);
    try (apply Z.eqb_eq, str_len_empty, sapp_empty in Hz as [E1 E2]; rewrite E1, E2;
         intros [= <- <-]; done);
    apply Z.eqb_neq in Hz;
    (rewrite ends_newline_window by (try done; intros Hn; by rewrite Hn in Hz));
    (destruct (bool_decide (frag = "")) eqn:Hf; split_bools;
     [rewrite Hf, sapp_nil_r; intros [= <- <-]; done|]);
    rewrite repair_keep_log by done;
    try (intros [= <- <-]; split; [discriminate|by left]);
    rewrite truncate_app; intros [= <- <-];
    try (split; [discriminate|by right]);
    rewrite str_len_app; split; [done|lia].
Qed.

Lemma openAppendLog_log path what fl recs frag r d :
  avoids newline frag = true → str_len frag < maxRecordBytes →
  openAppendLog path what fl (Some (log_bytes recs +:+ frag)) = (r, d) →
  match r with
  | Ok w => d = Some (log_bytes recs)
            ∧ w = MkLog true path what (str_len (log_bytes recs)) None (str_len frag)
  | Err _ => fl ≠ no_open_faults ∧ (d = Some (log_bytes recs +:+ frag) ∨ d = Some (log_bytes recs))
  end.
Proof.
  intros Ha Hl. unfold openAppendLog.
  destruct (repairTail _ _ _ _) as [[n|e] d1] eqn:Hrep; apply repairTail_log in Hrep; try done.
  - destruct Hrep as [-> ->]. destruct fl as [x1 x2 x3 x4 x5 [|] [|]]; simpl; intros [= <- <-]; auto;
      (split; [discriminate|by right]).
  - by intros [= <- <-].
Qed.

(** A crash never costs more than the record it interrupted. Whatever prefix of
    whatever record a failed append or a crash left behind the records of a log, there
    is one list of records - those, or those and the interrupted one, when its line is
    complete - such that reopening yields a log that holds exactly it, ready for
    appending, and reports the bytes it dropped. Reopening succeeds unless a system
    call fails, and then the file still is that torn log or already repaired, so that
    reopening again recovers the same records. *)
Theorem reopen_recovers ok recs s :
  Forall (record_ok ok) recs → torn ok recs s →
  ∃ recs', (recs' = recs ∨ ∃ b, ok b ∧ recs' = recs ++ [b])
    ∧ ∀ path what fl r d, openAppendLog path what fl (Some s) = (r, d) →
        match r with
        | Ok w => d = Some (log_bytes recs') ∧ holds ok recs' w (log_bytes recs') ∧ al_broken w = None
                  ∧ al_Repaired w = str_len s - str_len (log_bytes recs')
        | Err _ => fl ≠ no_open_faults ∧ (d = Some s ∨ d = Some (log_bytes recs'))
        end.
Proof.
  intros Hr Ht. destruct (torn_fragment ok recs s Hr Ht) as (recs' & frag & Hr' & Hc & -> & Ha & Hl).
  exists recs'. split.
  { destruct Hc as [->|[b ->]]; [by left|]. right. exists b. split; [|done].
    apply Forall_app in Hr' as [_ [(_ & _ & ?) _]%Forall_cons]. done. }
  intros path what fl r d Ho. apply openAppendLog_log in Ho; [|done..]. destruct r as [w|e]; [|done].
  destruct Ho as [-> ->]. split; [done|]. simpl. split; [done|]. split; [done|].
  rewrite str_len_app. lia.
Qed.

(** ** Reading *)

Section reading.
Context {A : Type} `{!Codec A}.

(** The lines of a log of representable values. *)
Definition encodes (b : string) : Prop := ∃ a, representable a ∧ Marshal a = Ok b.
Definition encoding : list A → list string → Prop :=
  Forall2 (λ a b, representable a ∧ Marshal a = Ok b).

Lemma records_encoding recs : Forall (record_ok encodes) recs → ∃ l, encoding l recs.
Proof.
  induction 1 as [|b recs (_ & _ & a & ?) _ [l IH]].
  - exists []. constructor.
  - exists (a :: l). by constructor.
Qed.

Context {St : Type} (path what : string) (visit : A → St → St).

Lemma walk_lines_encoding l recs line st :
  encoding l recs → Forall (λ b, str_len b + 1 ≤ maxRecordBytes) recs →
  walk_lines path what visit line ((λ b, b +:+ nl) <$> recs) st
  = Ok (foldl (λ st a, visit a st) st l).
Proof.
  intros He. revert line st. induction He as [|a b l recs [Ha Hm] _ IH]; intros line st; [done|].
  intros [Hb Hr]%Forall_cons. simpl. rewrite str_len_app, str_len_nl.
  destruct (_ >? _) eqn:E; [lia|]. destruct (Marshal_line a b Hm) as [_ Hs].
  rewrite bool_decide_eq_false_2 by done. rewrite (Unmarshal_Marshal a b) by done. by apply IH.
Qed.

(** A reader visits the records of a log in order, and a trailing fragment never. *)
Lemma walkLog_encoding ok l recs frag st :
  encoding l recs → Forall (record_ok ok) recs → avoids newline frag = true →
  str_len frag < maxRecordBytes →
  walkLog path what visit no_read_faults (Some (log_bytes recs +:+ frag)) st
  = Ok (foldl (λ st a, visit a st) st l).
Proof.
  intros He Hr Ha Hl. unfold walkLog. simpl. rewrite (read_lines_log ok) by done.
  rewrite (walk_lines_encoding l); [|done|apply (Forall_impl (record_ok ok)); [done|by intros ? (_ & ? & _)]].
  destruct (_ >=? _) eqn:E; [lia|done].
Qed.
End reading.

Section transitions.
Context `{!Codec Transition}.

(** The last [n] entries, all of them for [n <= 0]. *)
Definition lastn (n : Z) (l : list Transition) : list Transition :=
  if 0 <? n then drop (length l - Z.to_nat n) l else l.

Lemma foldl_tail n l :
  foldl (λ st t, tail_visit n t st) ([], 0) l = (lastn n l, Z.of_nat (length l)).
Proof.
  induction l as [|t l IH] using rev_ind.
  { unfold lastn. simpl. destruct (0 <? n); by rewrite ?drop_nil. }
  rewrite foldl_app, IH. simpl foldl. unfold tail_visit. apply (f_equal2 pair);
    [|rewrite length_app; simpl; lia].
  clear IH. unfold lastn. destruct (0 <? n) eqn:Hn; [|done]. simpl andb. rewrite !length_app, length_drop. simpl.
  destruct (decide (length l < Z.to_nat n)%nat) as [Hs|Hs].
  - replace (length l - Z.to_nat n)%nat with 0%nat by lia.
    replace (length l + 1 - Z.to_nat n)%nat with 0%nat by lia. rewrite !drop_0.
    destruct (n <? _) eqn:E; [|done]. apply Z.ltb_lt in Hn, E. lia.
  - destruct (n <? _) eqn:E; [|apply Z.ltb_lt in Hn; apply Z.ltb_ge in E; lia]. apply Z.ltb_lt in Hn.
    rewrite <- drop_app_le by lia. rewrite drop_drop. f_equal. lia.
Qed.

(** The transitions [LastFailure] looks for. *)
Definition is_failure (issue : string) (t : Transition) : Prop :=
  t_Issue t = issue ∧ t_To t = failedState ∧ t_FailureReason t ≠ "".

#[export] Instance is_failure_dec issue t : Decision (is_failure issue t).
Proof. unfold is_failure. apply _. Defined.

Definition last_failure (issue : string) (l : list Transition) : RunFailure * bool :=
  match last (filter (is_failure issue) l) with
  | Some t => (MkRunFailure (t_TS t) (t_FailureReason t) (t_Reason t), true)
  | None => (MkRunFailure zero_time "" "", false)
  end.

Lemma foldl_failure issue l :
  foldl (λ st t, failure_visit issue t st) (MkRunFailure zero_time "" "", false) l
  = last_failure issue l.
Proof.
  unfold last_failure. induction l as [|t l IH] using rev_ind; [done|].
  rewrite foldl_app, IH, filter_app. simpl. unfold failure_visit.
  rewrite filter_cons. destruct (decide (is_failure issue t)) as [(H1 & H2 & H3)|Hn].
  - rewrite filter_nil, last_snoc. 
    by rewrite (bool_decide_eq_false_2 (t_FailureReason t = "")), !bool_decide_eq_true_2.
  - rewrite filter_nil, app_nil_r. destruct (_ || _) eqn:E; [done|]. exfalso. apply Hn.
    split_bools. done.
Qed.

(** Appends in sequence, each with its own faults; the acknowledged ones. *)
Fixpoint append_all (w : appendLog) (s : string) (l : list (Transition * append_faults))
    : list Transition * appendLog * string :=
  match l with
  | [] => ([], w, s)
  | (t, fl) :: l =>
      let '(r, w, s) := Append w t fl s in
      let '(acked, w, s) := append_all w s l in
      (match r with None => t :: acked | Some _ => acked end, w, s)
  end.

Lemma append_all_holds ts recs w s l acked w' s' :
  holds encodes recs w s → encoding ts recs → Forall representable l.*1 →
  append_all w s l = (acked, w', s') →
  ∃ recs', holds encodes recs' w' s' ∧ encoding (ts ++ acked) recs'.
Proof.
  revert ts recs w s acked. induction l as [|[t fl] l IH]; intros ts recs w s acked Hh He Hl.
  { intros [= <- <- <-]. exists recs. by rewrite app_nil_r. }
  apply Forall_cons in Hl as [Ht Hl]. simpl. unfold Append.
  destruct (Marshal_total t Ht) as [b Hm]. rewrite Hm. destruct (Marshal_line t b Hm) as [Ha _].
  destruct (appendRecord w b (t_Issue t) fl s) as [[r w1] s1] eqn:Happ.
  apply (appendRecord_holds encodes recs) in Happ; [|done|by exists t|done].
  destruct (append_all w1 s1 l) as [[ack w2] s2] eqn:Hall. intros [= <- <- <-].
  destruct r as [e|].
  - destruct Happ as (H1 & _). eapply IH; eauto.
  - destruct Happ as (H1 & _).
    replace (ts ++ t :: ack) with ((ts ++ [t]) ++ ack) by (by rewrite <- app_assoc).
    eapply IH; [exact H1| |done|exact Hall]. by apply Forall2_app; [|repeat constructor].
Qed.

(** The bytes a crash in the middle of appending [t] leaves behind the file: any prefix of
    the record's line, the whole line before its sync included; a latched log and a record
    that is too long write nothing. *)
Definition interrupted (w : appendLog) (t : Transition) (k : nat) : string :=
  match al_broken w, Marshal t with
  | None, Ok b => if str_len b + 1 >? maxRecordBytes then "" else str_take k (b +:+ nl)
  | _, _ => ""
  end.

Definition whole_line (t : Transition) (u : string) : bool :=
  match Marshal t with Ok b => bool_decide (u = b +:+ nl) | Err _ => false end.

(** The append of [x] is the one that failed, and could not remove what it had written. *)
Definition latched_by (w : appendLog) (s : string) (l : list (Transition * append_faults))
    (w' : appendLog) (s' : string) (x : Transition) : Prop :=
  ∃ l1 fl l2 acked w1 s1 e,
    l = l1 ++ (x, fl) :: l2 ∧ append_all w s l1 = (acked, w1, s1) ∧ al_broken w1 = None
    ∧ Append w1 x fl s1 = (Some e, w', s').

Lemma append_all_stuck w s l : al_open w = true → al_broken w ≠ None →
  Forall representable l.*1 → append_all w s l = ([], w, s).
Proof.
  intros Ho Hb. destruct (al_broken w) as [e|] eqn:He; [clear Hb|done].
  induction l as [|[t fl] l IH]; intros Hl; [done|]. apply Forall_cons in Hl as [Ht Hl].
  simpl. unfold Append. destruct (Marshal_total t Ht) as [b ->].
  destruct (append_latched w e b (t_Issue t) fl s Ho He) as (e' & -> & _). by rewrite (IH Hl).
Qed.

(** A log that an append latches was latched by one of the appends. *)
Lemma append_all_latched ts recs w s l acked w' s' :
  holds encodes recs w s → encoding ts recs → Forall representable l.*1 → al_broken w = None →
  append_all w s l = (acked, w', s') → al_broken w' ≠ None →
  ∃ x recs1 n b,
    latched_by w s l w' s' x ∧ encoding (ts ++ acked) recs1 ∧ Forall (record_ok encodes) recs1
    ∧ representable x ∧ Marshal x = Ok b ∧ str_len b + 1 ≤ maxRecordBytes
    ∧ s' = log_bytes recs1 +:+ str_take n (b +:+ nl).
Proof.
  revert ts recs w s acked. induction l as [|[t fl] l IH]; intros ts recs w s acked Hh He Hl Hw.
  { by intros [= <- <- <-]. }
  apply Forall_cons in Hl as [Ht Hl]. cbn [append_all]. destruct (Append w t fl s) as [[r w1] s1] eqn:HA.
  pose proof HA as HA'. unfold Append in HA. destruct (Marshal_total t Ht) as [b Hm]. rewrite Hm in HA.
  destruct (Marshal_line t b Hm) as [Ha _].
  pose proof (appendRecord_holds encodes recs _ _ _ _ _ _ _ _ Hh ltac:(by exists t) Ha HA) as Hs.
  destruct (al_broken w1) as [e1|] eqn:Hw1.
  - assert (holds encodes recs w1 s1) as Hh1 by (destruct r; [apply Hs|by destruct Hs as (_ & ? & _)]).
    rewrite (append_all_stuck w1) by solve [apply Hh1|by rewrite Hw1|done]. intros Hres _.
    destruct r as [e|]; [|by destruct Hs as (_ & ? & _)]. injection Hres as <- <- <-.
    destruct (appendRecord_latches _ _ _ _ _ _ _ _ _ _ Hh Hw HA) as (Hsize & n & ->); [congruence|].
    destruct Hh as (_ & Hr & Hs0). rewrite Hw in Hs0. destruct Hs0 as [-> _].
    exists t, recs, n, b. rewrite app_nil_r. split_and!; [|done..].
    by exists [], fl, l, [], w, (log_bytes recs), e.
  - destruct (append_all w1 s1 l) as [[ack w2] s2] eqn:Hall. intros [= <- <- <-] Hb.
    assert (∃ recs1', holds encodes recs1' w1 s1
      ∧ encoding (ts ++ match r with None => [t] | Some _ => [] end) recs1') as (recs' & Hh1 & He1).
    { destruct r as [e|]; [exists recs; rewrite app_nil_r; by split; [apply Hs|]|].
      exists (recs ++ [b]). split; [apply Hs|]. by apply Forall2_app; [|repeat constructor]. }
    destruct (IH _ _ _ _ _ Hh1 He1 Hl Hw1 Hall Hb) as (x & recs1 & n & bx & Hx & Hex & Hrest).
    exists x, recs1, n, bx. split_and!; [|by destruct r; rewrite <-?app_assoc, ?app_nil_r in Hex|apply Hrest..].
    destruct Hx as (l1 & fl' & l2 & ack1 & w3 & s3 & e & -> & H1 & H2 & H3).
    exists ((t, fl) :: l1), fl', l2, (match r with None => t :: ack1 | Some _ => ack1 end), w3, s3, e.
    split_and!; [done| |done..]. cbn [append_all]. by rewrite HA', H1.
Qed.

(** A log and the beginning of a line, as a log and a fragment. *)
Lemma line_prefix recs x b n :
  Forall (record_ok encodes) recs → representable x → Marshal x = Ok b → str_len b + 1 ≤ maxRecordBytes →
  let extra := if whole_line x (str_take n (b +:+ nl)) then [x] else [] in
  ∃ more frag, encoding extra more ∧ Forall (record_ok encodes) (recs ++ more)
    ∧ log_bytes recs +:+ str_take n (b +:+ nl) = log_bytes (recs ++ more) +:+ frag
    ∧ avoids newline frag = true ∧ str_len frag < maxRecordBytes.
Proof.
  intros Hr Hx Hm Hl. destruct (Marshal_line x b Hm) as [Ha _]. unfold whole_line. rewrite Hm.
  pose proof (str_len_take n b) as Hlt. pose proof (str_len_app b nl) as Happ. rewrite str_len_nl in Happ.
  destruct (decide (n ≤ String.length b)%nat) as [Hn|Hn].
  - rewrite str_take_app_le by done. rewrite bool_decide_eq_false_2.
    + exists [], (str_take n b). rewrite app_nil_r. split_and!; [constructor|done|done|by apply avoids_take|lia].
    + intros Heq. apply (f_equal str_len) in Heq. lia.
  - rewrite str_take_all by (unfold str_len in Happ; lia). rewrite bool_decide_eq_true_2 by done.
    exists [b], EmptyString. split_and!; [by repeat constructor| |by rewrite log_bytes_snoc, sapp_nil_r|done|done].
    apply records_snoc; [done|]. split_and!; [done..|]. by exists x.
Qed.

(** What a reader finds in a log of some transitions and a fragment. *)
Lemma read_back all recs frag path n issue :
  encoding all recs → Forall (record_ok encodes) recs → avoids newline frag = true →
  str_len frag < maxRecordBytes →
  Tail path n no_read_faults (Some (log_bytes recs +:+ frag)) = Ok (lastn n all, Z.of_nat (length all))
  ∧ LastFailure path issue no_read_faults (Some (log_bytes recs +:+ frag)) = Ok (last_failure issue all).
Proof.
  intros. unfold Tail, LastFailure. rewrite !(walkLog_encoding _ _ _ encodes all) by done.
  by rewrite foldl_tail, foldl_failure.
Qed.

(** What the file holds after the appends and the crash. *)
Lemma crashed_log ts recs w s l acked w' s' t k :
  holds encodes recs w s → encoding ts recs → Forall representable (t :: l.*1) →
  append_all w s l = (acked, w', s') →
  ∃ extra recs' frag,
    (al_broken w' = None → extra = if whole_line t (interrupted w' t k) then [t] else [])
    ∧ (al_broken w' ≠ None → (length extra ≤ 1)%nat
         ∧ (al_broken w = None → ∀ x, x ∈ extra → latched_by w s l w' s' x))
    ∧ encoding (ts ++ acked ++ extra) recs' ∧ Forall (record_ok encodes) recs'
    ∧ s' +:+ interrupted w' t k = log_bytes recs' +:+ frag
    ∧ avoids newline frag = true ∧ str_len frag < maxRecordBytes.
Proof.
  intros Hh He [Ht Hl]%Forall_cons Hall.
  destruct (append_all_holds ts recs w s l acked w' s' Hh He Hl Hall) as (recs' & (_ & Hr & Hs) & He').
  destruct (al_broken w') as [e|] eqn:Hw'.
  - assert (interrupted w' t k = "") as -> by (unfold interrupted; by rewrite Hw'). rewrite sapp_nil_r.
    destruct (al_broken w) as [e0|] eqn:Hw.
    + destruct (torn_fragment _ _ _ Hr (proj2 Hs)) as (recs2 & frag & Hr2 & Hc & -> & Ha & Hlen).
      assert (∃ more, recs2 = recs' ++ more ∧ (length more ≤ 1)%nat) as (more & -> & Hmore).
      { destruct Hc as [->|[b ->]]; [exists []|exists [b]]; rewrite ?app_nil_r; simpl; auto. }
      destruct (records_encoding more) as [extra Hx]; [by apply Forall_app in Hr2 as [_ ?]|].
      exists extra, (recs' ++ more), frag. split_and!; try done.
      * intros _. split; [by rewrite (Forall2_length _ _ _ Hx)|done].
      * rewrite app_assoc. by apply Forall2_app.
    + destruct (append_all_latched _ _ _ _ _ _ _ _ Hh He Hl Hw Hall)
        as (x & recs1 & n & b & Hx & He1 & Hr1 & Hrx & Hm & Hsize & ->); [congruence|].
      destruct (line_prefix recs1 x b n Hr1 Hrx Hm Hsize) as (more & frag & Hex & Hr2 & Heq & Ha & Hlen).
      exists (if whole_line x (str_take n (b +:+ nl)) then [x] else []), (recs1 ++ more), frag.
      split_and!; [done| |rewrite app_assoc; by apply Forall2_app|done..].
      intros _. destruct (whole_line _ _); (split; [simpl; lia|]); intros _ y Hy; [|by apply elem_of_nil in Hy].
      by apply list_elem_of_singleton in Hy as ->.
  - destruct Hs as [-> _]. unfold interrupted. rewrite Hw'.
    destruct (Marshal_total t Ht) as [b Hm]. rewrite Hm. destruct (str_len b + 1 >? maxRecordBytes) eqn:Hsize.
    + exists [], recs', "". rewrite app_nil_r. unfold whole_line. rewrite Hm, bool_decide_eq_false_2.
      * by split_and!.
      * intros Heq. apply (f_equal str_len) in Heq. rewrite str_len_app, str_len_nl in Heq.
        pose proof (str_len_nonneg b). change (str_len "") with 0 in Heq. lia.
    + destruct (line_prefix recs' t b k Hr Ht Hm ltac:(lia)) as (more & frag & Hex & Hr2 & -> & Ha & Hlen).
      exists (if whole_line t (str_take k (b +:+ nl)) then [t] else []), (recs' ++ more), frag.
      split_and!; [done|done|rewrite app_assoc; by apply Forall2_app|done..].
Qed.

(** C17: the transition log reads back what was acknowledged, and at most one record more.
    Take a log that holds some transitions and any sequence of appends, each with any write,
    sync or truncation failing anywhere, and then a crash that leaves any prefix of the line
    of a further record [t], the complete line included. A reader then finds the earlier
    transitions and the acknowledged ones, in order, and behind them: where no rollback
    failed, [t] if its line was complete and nothing otherwise; where one did, and the log
    has refused every append since, at most the record of the append that failed. [Tail]
    returns the last [n] of these with their total number, and [LastFailure] the failure of
    the issue's last failed transition among them. *)
Theorem transitions_read_back ts recs w s l acked w' s' t k :
  holds encodes recs w s → encoding ts recs → Forall representable (t :: l.*1) →
  append_all w s l = (acked, w', s') →
  ∃ extra,
    (al_broken w' = None → extra = if whole_line t (interrupted w' t k) then [t] else [])
    ∧ (al_broken w' ≠ None → (length extra ≤ 1)%nat
         ∧ (al_broken w = None → ∀ x, x ∈ extra → latched_by w s l w' s' x))
    ∧ let all := ts ++ acked ++ extra in
      ∀ path n issue,
        Tail path n no_read_faults (Some (s' +:+ interrupted w' t k))
          = Ok (lastn n all, Z.of_nat (length all))
        ∧ LastFailure path issue no_read_faults (Some (s' +:+ interrupted w' t k))
          = Ok (last_failure issue all).
Proof.
  intros Hh He Hl Hall.
  destruct (crashed_log ts recs w s l acked w' s' t k Hh He Hl Hall)
    as (extra & recs' & frag & H1 & H2 & He' & Hr & -> & Ha & Hlen).
  exists extra. split; [done|]. split; [done|]. intros all path n issue. by apply read_back.
Qed.
End transitions.

(** ** A concrete log *)

Definition json_field (k v : string) : string :=
  str1 34 +:+ k +:+ str1 34 +:+ ":" +:+ str1 34 +:+ v +:+ str1 34.

Definition ex_claimed : Transition := MkTransition 1 "42" "queued" "claimed" "ben" "claim" "" "".
Definition ex_failed : Transition := MkTransition 2 "42" "running" "failed" "ben" "exit 1" "" "agent-error".

Definition ex_line (t : Transition) : string :=
  "{" +:+ json_field "issue" (t_Issue t) +:+ "," +:+ json_field "to" (t_To t) +:+ "}".

(** A codec of the two transitions above. *)
#[local] Instance ex_codec : Codec Transition.
Proof.
  refine {|
    Marshal t := if bool_decide (t = ex_claimed ∨ t = ex_failed) then Ok (ex_line t)
                 else Err (errorf "json: unsupported value");
    Unmarshal s := if bool_decide (s = ex_line ex_claimed +:+ nl) then Ok ex_claimed
                   else if bool_decide (s = ex_line ex_failed +:+ nl) then Ok ex_failed
                   else Err (errorf "invalid character");
    representable t := t = ex_claimed ∨ t = ex_failed |}.
  - intros t b. destruct (bool_decide _) eqn:E; [|done]. apply bool_decide_eq_true in E.
    intros [= <-]. destruct E as [-> | ->]; split; try reflexivity; by vm_compute.
  - intros t Ht. rewrite bool_decide_eq_true_2 by done. eauto.
  - intros t b Ht. rewrite bool_decide_eq_true_2 by done. intros [= <-].
    destruct Ht as [-> | ->]; vm_compute; reflexivity.
Defined.

Definition ex_log : appendLog :=
  MkLog true "transitions.jsonl" "transition" (str_len (log_bytes [ex_line ex_claimed])) None 0.
Definition ex_error : error := errorf "disk full".

Lemma ex_holds : holds encodes [ex_line ex_claimed] ex_log (log_bytes [ex_line ex_claimed]).
Proof.
  split; [done|]. split; [|done]. apply Forall_singleton.
  split; [vm_compute; reflexivity|]. split; [by vm_compute|].
  exists ex_claimed. split; [by left|]. vm_compute. reflexivity.
Qed.

Lemma ex_encoding : encoding [ex_claimed] [ex_line ex_claimed].
Proof. repeat constructor. Qed.

(** A write cut after three bytes, and rolled back. *)
Definition ex_short_write : append_faults := MkAppendFaults (Some (3%nat, ex_error)) None None None.
(** The same, and the rollback fails too. *)
Definition ex_stuck_write : append_faults :=
  MkAppendFaults (Some (3%nat, ex_error)) None None (Some ex_error).

Lemma append_all_or_nothing_witness :
  let '(r, w', s') := appendRecord ex_log "x" "42" ex_short_write (log_bytes [ex_line ex_claimed]) in
  is_Some r ∧ al_broken w' = None ∧ s' = log_bytes [ex_line ex_claimed].
Proof.
  destruct (appendRecord ex_log "x" "42" ex_short_write (log_bytes [ex_line ex_claimed]))
    as [[r w'] s'] eqn:E.
  assert (Hh : holds (λ _, True) [ex_line ex_claimed] ex_log (log_bytes [ex_line ex_claimed])).
  { split; [done|]. split; [|done]. apply Forall_singleton. split; [vm_compute; reflexivity|].
    split; [by vm_compute|done]. }
  pose proof (append_all_or_nothing (λ _, True) _ _ _ "x" "42" ex_short_write r w' s' Hh I
    ltac:(vm_compute; reflexivity) E) as H.
  assert (Hr : is_Some r ∧ al_broken w' = None).
  { vm_compute in E. injection E as <- <- <-. split; [eexists; reflexivity|reflexivity]. }
  destruct Hr as [[e ->] Hb]. destruct H as (_ & H & _). split; [eexists; reflexivity|].
  split; [exact Hb|exact (H Hb)].
Defined.

Lemma reopen_recovers_witness :
  torn (λ _, True) [ex_line ex_claimed] (log_bytes [ex_line ex_claimed] +:+ str_take 3 ("{}" +:+ nl))
  ∧ ∃ recs' : list string, recs' = [ex_line ex_claimed] ∨ ∃ b, True ∧ recs' = [ex_line ex_claimed] ++ [b].
Proof.
  assert (Ht : torn (λ _, True) [ex_line ex_claimed]
                 (log_bytes [ex_line ex_claimed] +:+ str_take 3 ("{}" +:+ nl))).
  { exists "{}", 3%nat. split; [|reflexivity]. split; [vm_compute; reflexivity|]. split; [by vm_compute|done]. }
  assert (Hr : Forall (record_ok (λ _, True)) [ex_line ex_claimed]).
  { apply Forall_singleton. split; [vm_compute; reflexivity|]. split; [by vm_compute|done]. }
  destruct (reopen_recovers (λ _, True) _ _ Hr Ht) as (recs' & Hc & _).
  split; [exact Ht|]. exists recs'. exact Hc.
Defined.

(** The failing transition is appended after a short write was rolled back, a crash
    tears a third record, and recovery still reads the reason. *)
Lemma transitions_read_back_witness :
  let '(acked, w', s') := append_all ex_log (log_bytes [ex_line ex_claimed])
    [(ex_failed, ex_short_write); (ex_failed, no_append_faults)] in
  acked = [ex_failed] ∧ interrupted w' ex_claimed 5 ≠ ""
  ∧ LastFailure "p" "42" no_read_faults (Some (s' +:+ interrupted w' ex_claimed 5))
    = Ok (MkRunFailure 2 "agent-error" "exit 1", true).
Proof.
  destruct (append_all ex_log (log_bytes [ex_line ex_claimed])
    [(ex_failed, ex_short_write); (ex_failed, no_append_faults)]) as [[acked w'] s'] eqn:E.
  assert (Hw : acked = [ex_failed] ∧ al_broken w' = None
    ∧ whole_line ex_claimed (interrupted w' ex_claimed 5) = false ∧ interrupted w' ex_claimed 5 ≠ "").
  { vm_compute in E. injection E as <- <- <-. split_and!; [reflexivity..|by vm_compute]. }
  destruct Hw as (-> & Hb & Hn & Hne).
  assert (Hl : Forall representable
    (ex_claimed :: [(ex_failed, ex_short_write); (ex_failed, no_append_faults)].*1)).
  { constructor; [left; reflexivity|]. constructor; [right; reflexivity|]. constructor; [right; reflexivity|].
    constructor. }
  destruct (transitions_read_back [ex_claimed] _ _ _ _ _ _ _ ex_claimed 5 ex_holds ex_encoding Hl E)
    as (extra & Hx & _ & H).
  rewrite (Hx Hb), Hn in H. split; [reflexivity|]. split; [exact Hne|]. destruct (H "p" 1 "42") as [_ Hf].
  rewrite Hf. vm_compute. reflexivity.
Defined.

(** A failed rollback latches the log: the next append is refused and changes nothing. *)
Example stuck_write_latches :
  let '(_, w', s') := appendRecord ex_log "x" "42" ex_stuck_write (log_bytes [ex_line ex_claimed]) in
  let '(r, w'', s'') := appendRecord w' "y" "42" no_append_faults s' in
  is_Some r ∧ w'' = w' ∧ s'' = s' ∧ s' = log_bytes [ex_line ex_claimed] +:+ "x" +:+ nl.
Proof. vm_compute. split; [eexists; reflexivity|done]. Qed.
