(* ===== verification/Workspace.v ===== *)
(** * Workspace: workspace keys, claim bases and branch facts

    Models [internal/workspace/key.go], [claimbase.go] and the publication facts of
    [facts.go]. The provider's durable state for one issue is the entry at the
    claim-base record's path, the refs of the base repository, and whether the two
    directories exist, under the fault model of [FaultIO]. The issue lock makes the
    operations of one issue a sequence. *)

From Stdlib Require Import Ascii.
From S2P Require Import Prelude GoStd GoStdFacts FaultIO Core Verify.

(** ** Keys *)

Definition key_rune (r : Z) : bool :=
  is_lower r || is_upper r || is_digit r || (r =? 46) || (r =? 95) || (r =? 45).

(** [keyUnsafeRe.ReplaceAllString(identifier, "_")]: every other rune, and every
    byte that is no rune, becomes an underscore. *)
Definition sanitize (identifier : string) : string :=
  foldr (λ p acc, (if key_rune p.1 then p.2 else "_") +:+ acc) "" (decode identifier).

Definition has_suffix (suffix s : string) : bool :=
  has_prefix (String.rev suffix) (String.rev s).

Definition refComponentSafe (s : string) : bool :=
  if bool_decide (s = "") then false
  else if has_prefix "." s || has_suffix "." s then false
  else if contains ".." s || has_suffix ".lock" s then false
  else true.

(** [hash/fnv]'s 64-bit FNV-1a. *)
Fixpoint fnv1a (h : Z) (s : string) : Z :=
  match s with
  | EmptyString => h
  | String c s' => fnv1a (Z.lxor h (byte_val c) * 1099511628211 mod 2 ^ 64) s'
  end.

Definition Key (identifier : string) : string :=
  let s := sanitize identifier in
  if bool_decide (s = identifier) && refComponentSafe s then s
  else
    let suffix := hex 16 (fnv1a 14695981039346656037 identifier) in
    let prefix := replace_all s "." "_" in
    let prefix := if bool_decide (prefix = "") then "issue" else prefix in
    prefix +:+ "-" +:+ suffix.

(** ** The durable world *)

(** An entry at a path: nothing, a link to nothing, or a file. *)
Inductive file_entry := NoFile | DanglingLink | File (bytes : string).
(** An entry where a directory is expected. *)
Inductive dir_entry := NoDir | NotADir | Dir.

Record durable := MkDurable {
  du_record : file_entry;          (* claims/<key>.json *)
  du_claims : dir_entry;           (* claims/ *)
  du_base : dir_entry;             (* base.git *)
  du_refs : gmap string string;    (* its refs, by the commit they peel to *)
}.

Local Notation IO := (FaultIO.IO durable).
Local Notation world := (FaultIO.world durable).

Definition set_record (r : file_entry) (d : durable) : durable :=
  MkDurable r (du_claims d) (du_base d) (du_refs d).
Definition set_refs (refs : gmap string string) (d : durable) : durable :=
  MkDurable (du_record d) (du_claims d) (du_base d) refs.

(** ** Sentinels and names *)

Definition ErrBaseRepoState : error := errors_New "workspace: base repository in unexpected state".
Definition ErrWorkspaceState : error := errors_New "workspace: workspace in unexpected state".
Definition ErrClaimEpoch : error := errors_New "workspace: invalid claim epoch".
Definition ErrClaimBaseState : error := errors_New "workspace: claim base in unexpected state".
Definition ErrClaimTargetUnrecorded : error := errors_New "claim target is not recorded".
Definition ErrPathEscape : error := errors_New "workspace: path escapes workspace root".

Definition branchPrefix : string := "ben/".
Definition baseRefPrefix : string := "refs/ben/base/".
Definition remoteRefPrefix : string := "refs/ben/remote/".
Definition claimBaseRefPrefix : string := "refs/ben/claim-base/".
Definition claimBaseVersion : Z := 2.
Definition legacyClaimVersion : Z := 1.
Definition claimBasePending : string := "pending".
Definition claimBasePinned : string := "pinned".

Definition claimBaseRef (key : string) (epoch : Z) : string :=
  claimBaseRefPrefix +:+ key +:+ "/" +:+ itoa epoch.

(** [fmt.Errorf("%w: <text>", sentinel)] and [fmt.Errorf("%w: <text>: %v", sentinel, err)] *)
Definition refused (sentinel : error) (text : string) : error := errorf_w sentinel (": " +:+ text).
Definition because (sentinel : error) (text : string) (e : error) : error :=
  refused sentinel (text +:+ ": " +:+ err_text e).

Definition ClaimBaseState_String (s : ClaimBaseState) : string :=
  match s with
  | ClaimBaseUnknown => "unknown"
  | ClaimBaseAbsent => "absent"
  | ClaimBasePending => "pending"
  | ClaimBasePinned => "pinned"
  end.

(** ** The record *)

Record claimBaseFile := MkFile {
  cf_Version : Z;
  cf_State : string;
  cf_Epoch : Z;
  cf_BaseSHA : string;
  cf_TargetBranch : string;
  cf_OutgoingEpoch : Z;
  cf_OutgoingBaseSHA : string;
  cf_OutgoingTargetBranch : string;
}.

#[export] Instance claimBaseFile_eq_dec : EqDecision claimBaseFile.
Proof. solve_decision. Defined.

(** [encoding/json] for the record: decoding is strict, of exactly one document, and
    undoes marshalling for the records JSON represents (strings in UTF-8). *)
Class RecordCodec := {
  record_Marshal : claimBaseFile → result string;
  record_Decode : string → result claimBaseFile;
  record_representable : claimBaseFile → Prop;
  record_Marshal_total : ∀ f, record_representable f → ∃ b, record_Marshal f = Ok b;
  record_roundtrip : ∀ f b, record_representable f → record_Marshal f = Ok b → record_Decode b = Ok f;
}.

Definition no_claim (state : ClaimBaseState) : ClaimBase := MkClaimBase state 0 "" "" 0 "" "".

Definition projectClaimBase `{GoTables} (disk : claimBaseFile) : result (ClaimBase * bool) :=
  let legacy := cf_Version disk =? legacyClaimVersion in
  if negb (cf_Version disk =? claimBaseVersion) && negb legacy
  then Err (errorf ("unsupported version " +:+ itoa (cf_Version disk)))
  else if cf_Epoch disk <=? 0 then Err (errors_New "epoch is not positive")
  else if legacy && (negb (bool_decide (cf_TargetBranch disk = ""))
                     || negb (bool_decide (cf_OutgoingTargetBranch disk = "")))
  then Err (errors_New "legacy record carries target-branch fields")
  else if bool_decide (cf_State disk = claimBasePending) then
    if negb (bool_decide (cf_BaseSHA disk = ""))
    then Err (errors_New "pending record carries a pinned base")
    else if bool_decide (cf_OutgoingBaseSHA disk = "") && negb (cf_OutgoingEpoch disk =? 0)
    then Err (errors_New "pending record carries an outgoing epoch without a base")
    else if cf_OutgoingEpoch disk <? 0
    then Err (errors_New "pending record carries a negative outgoing epoch")
    else if negb (bool_decide (cf_OutgoingTargetBranch disk = "")) && bool_decide (cf_OutgoingBaseSHA disk = "")
    then Err (errors_New "pending record carries an outgoing target without a base")
    else Ok (MkClaimBase ClaimBasePending (cf_Epoch disk) "" (cf_TargetBranch disk) (cf_OutgoingEpoch disk)
               (cf_OutgoingBaseSHA disk) (cf_OutgoingTargetBranch disk), legacy)
  else if bool_decide (cf_State disk = claimBasePinned) then
    if bool_decide (cf_BaseSHA disk = "") then Err (errors_New "pinned record carries no base")
    else if negb legacy && bool_decide (cf_TargetBranch disk = "")
    then Err (errors_New "pinned record carries no target branch")
    else if negb (cf_OutgoingEpoch disk =? 0) || negb (bool_decide (cf_OutgoingBaseSHA disk = ""))
            || negb (bool_decide (cf_OutgoingTargetBranch disk = ""))
    then Err (errors_New "pinned record carries transitional outgoing state")
    else Ok (MkClaimBase ClaimBasePinned (cf_Epoch disk) (cf_BaseSHA disk) (cf_TargetBranch disk) 0 "" "",
             legacy)
  else Err (errorf ("unknown state " +:+ quote (cf_State disk))).

Section provider.
Context `{T : GoTables} `{RC : RecordCodec}.
(** The paths the provider owns, as its messages name them, for the issue with this key. *)
Context (claimBaseDir baseDir : string).

Definition claimBasePath (key : string) : string := claimBaseDir +:+ "/" +:+ key +:+ ".json".

(** Resolving a ref fails, or answers whether and to which commit it resolves; a
    repository that is not there resolves nothing. *)
Definition revParse (ref : string) : IO (option string) :=
  wrapping (because ErrBaseRepoState ("cannot resolve ref " +:+ ref))
    (inspect (λ d, match du_base d with
                   | Dir => Ok (du_refs d !! ref)
                   | _ => Err (errorf "not a git repository")
                   end)).

(** [git update-ref], setting ([Some]) or deleting ([None]) a ref. *)
Definition update_ref (ref : string) (sha : option string) : IO unit :=
  call (λ d, match du_base d with
             | Dir => (Ok tt, set_refs (partial_alter (λ _, sha) ref (du_refs d)) d)
             | _ => (Err (errorf "not a git repository"), d)
             end).

Definition validateClaimBaseRefLocked (key : string) (state : ClaimBase) : IO unit :=
  let check ref want :=
    got ← wrapping (because ErrClaimBaseState ("reading reachability ref " +:+ ref)) (revParse ref);
    if bool_decide (got = Some want) then mret tt
    else throw (refused ErrClaimBaseState ("reachability ref " +:+ ref +:+ " is "
           +:+ quote (default "" got) +:+ ", want " +:+ quote want)) in
  match cb_State state with
  | ClaimBasePinned => check (claimBaseRef key (cb_Epoch state)) (cb_BaseSHA state)
  | ClaimBasePending =>
      if bool_decide (cb_OutgoingBaseSHA state = "") then mret tt
      else if 0 <? cb_OutgoingEpoch state
      then check (claimBaseRef key (cb_OutgoingEpoch state)) (cb_OutgoingBaseSHA state)
      else check (baseRefPrefix +:+ key) (cb_OutgoingBaseSHA state)
  | _ => mret tt
  end.

Definition validateClaimBaseDirForAbsence : IO unit :=
  e ← wrapping (because ErrClaimBaseState ("inspecting claim-base store " +:+ claimBaseDir))
        (inspect (λ d, Ok (du_claims d)));
  match e with
  | NotADir => throw (refused ErrClaimBaseState ("claim-base store " +:+ claimBaseDir +:+ " is not a directory"))
  | _ => mret tt
  end.

(** The tolerant read: the state and whether the record is a legacy one. *)
Definition readClaimBaseForTransitionLocked (key : string) : IO (ClaimBase * bool) :=
  let path := claimBasePath key in
  raw ← wrapping (because ErrClaimBaseState ("reading claim-base record " +:+ path))
          (inspect (λ d, Ok (match du_record d with File b => Some b | _ => None end)));
  match raw with
  | None =>
      l ← wrapping (because ErrClaimBaseState ("inspecting claim-base record " +:+ path))
            (inspect (λ d, Ok (match du_record d with NoFile => false | _ => true end)));
      if (l : bool)
      then throw (refused ErrClaimBaseState ("claim-base record " +:+ path +:+ " exists but cannot be read"))
      else validateClaimBaseDirForAbsence ;; mret (no_claim ClaimBaseAbsent, false)
  | Some raw =>
      match record_Decode raw with
      | Err e => throw (because ErrClaimBaseState ("decoding claim-base record " +:+ path) e)
      | Ok disk =>
          match projectClaimBase disk with
          | Err e => throw (because ErrClaimBaseState ("claim-base record " +:+ path) e)
          | Ok (state, legacy) => validateClaimBaseRefLocked key state ;; mret (state, legacy)
          end
      end
  end.

(** The strict read; a legacy record is an error, and the state Go returns beside that
    error authorizes nothing. *)
Definition readClaimBaseLocked (key : string) : IO ClaimBase :=
  '(state, legacy) ← readClaimBaseForTransitionLocked key;
  if (legacy : bool) then throw (refused ErrClaimTargetUnrecorded ("workspace " +:+ key)) else mret state.

(** [mkdirAllSynced] of the claims directory: its calls are one step here. *)
Definition mkdir_claims : IO unit :=
  call (λ d, match du_claims d with
             | NotADir => (Err (errorf (claimBaseDir +:+ " is not a directory")), d)
             | _ => (Ok tt, MkDurable (du_record d) Dir (du_base d) (du_refs d))
             end).

Definition writeClaimBaseLocked (key : string) (state : claimBaseFile) : IO unit :=
  let step text m := wrapping (because ErrClaimBaseState text) m in
  if bool_decide (key = "") then throw (refused ErrPathEscape "empty workspace key")
  else
    step "creating workflow directory for claim-base store" syscall ;;
    step "creating claim-base store" mkdir_claims ;;
    match record_Marshal state with
    | Err e => throw (because ErrClaimBaseState "encoding claim-base record" e)
    | Ok body =>
        step "creating claim-base record" syscall ;;
        step "writing claim-base record" syscall ;;
        step "syncing claim-base record" syscall ;;
        step "closing claim-base record" syscall ;;
        step "publishing claim-base record" (call (λ d, (Ok tt, set_record (File body) d))) ;;
        step "syncing claim-base store" syscall
    end.

(** Removing a record that is not there is not an error. *)
Definition removeClaimBaseLocked (key : string) : IO unit :=
  wrapping (because ErrClaimBaseState ("removing claim-base record " +:+ claimBasePath key))
    (call (λ d, (Ok tt, set_record NoFile d))) ;;
  wrapping (because ErrClaimBaseState "syncing claim-base store after removal") syscall.

Definition legacyOutgoingBaseLocked (key : string) : IO string :=
  e ← wrapping (because ErrClaimBaseState "inspecting base repository for a legacy pin")
        (inspect (λ d, Ok (du_base d)));
  match e with
  | NoDir => mret ""
  | NotADir => throw (refused ErrBaseRepoState "base repository is not a directory")
  | Dir => sha ← revParse (baseRefPrefix +:+ key); mret (default "" sha)
  end.

(** Any entry at the base repository's path is present. *)
Definition baseRepoPresent : IO bool :=
  wrapping (because ErrBaseRepoState ("cannot tell whether base repository " +:+ baseDir +:+ " exists"))
    (inspect (λ d, Ok (match du_base d with NoDir => false | _ => true end))).

Definition claimBaseKey (issue : Issue) : result string :=
  if bool_decide (is_Identifier issue = "") then Err (refused ErrPathEscape "issue identifier is empty")
  else Ok (Key (is_Identifier issue)).

Definition pending_file (epoch outgoingEpoch : Z) (outgoingBase outgoingTarget : string) : claimBaseFile :=
  MkFile claimBaseVersion claimBasePending epoch "" "" outgoingEpoch outgoingBase outgoingTarget.
Definition pinned_file (version epoch : Z) (base target : string) : claimBaseFile :=
  MkFile version claimBasePinned epoch base target 0 "" "".

Definition BeginClaimBase (issue : Issue) (epoch : Z) : IO unit :=
  if epoch <=? 0 then throw (refused ErrClaimEpoch "claim epoch must be positive")
  else
    match claimBaseKey issue with
    | Err e => throw e
    | Ok key =>
        '(current, legacy) ← readClaimBaseForTransitionLocked key;
        match cb_State current with
        | ClaimBasePending =>
            if negb (cb_Epoch current =? epoch)
            then throw (refused ErrClaimBaseState ("workspace " +:+ key +:+ " is pending for epoch "
                   +:+ itoa (cb_Epoch current) +:+ ", not " +:+ itoa epoch))
            else if (legacy : bool)
            then throw (refused ErrClaimTargetUnrecorded ("workspace " +:+ key +:+ " is pending for epoch "
                   +:+ itoa epoch))
            else mret tt
        | ClaimBasePinned =>
            if cb_Epoch current =? epoch then
              if (legacy : bool)
              then throw (refused ErrClaimTargetUnrecorded ("workspace " +:+ key +:+ " is pinned for epoch "
                     +:+ itoa epoch))
              else mret tt
            else writeClaimBaseLocked key (pending_file epoch (cb_Epoch current) (cb_BaseSHA current)
                   (cb_TargetBranch current))
        | ClaimBaseAbsent =>
            outgoing ← legacyOutgoingBaseLocked key;
            writeClaimBaseLocked key (pending_file epoch 0 outgoing "")
        | ClaimBaseUnknown =>
            throw (refused ErrClaimBaseState ("workspace " +:+ key +:+ " has non-authorizing claim-base state "
              +:+ ClaimBaseState_String (cb_State current)))
        end
    end.

(** The provider's public read, [Provider.ClaimBase]. *)
Definition Provider_ClaimBase (issue : Issue) : IO ClaimBase :=
  match claimBaseKey issue with
  | Err e => throw e
  | Ok key => readClaimBaseLocked key
  end.

Definition AbandonPendingClaimBase (issue : Issue) : IO unit :=
  match claimBaseKey issue with
  | Err e => throw e
  | Ok key =>
      current ← readClaimBaseLocked key;
      if negb (bool_decide (cb_State current = ClaimBasePending)) then mret tt
      else
        present ← baseRepoPresent;
        (if (present : bool)
         then wrapping (because ErrClaimBaseState "removing abandoned claim-base ref")
                (update_ref (claimBaseRef key (cb_Epoch current)) None)
         else mret tt) ;;
        if 0 <? cb_OutgoingEpoch current then
          let version := if bool_decide (cb_OutgoingTargetBranch current = "") then legacyClaimVersion
                         else claimBaseVersion in
          writeClaimBaseLocked key (pinned_file version (cb_OutgoingEpoch current)
            (cb_OutgoingBaseSHA current) (cb_OutgoingTargetBranch current))
        else removeClaimBaseLocked key
  end.

Definition pinClaimBaseLocked (key : string) (pending : ClaimBase) (baseSHA targetBranch : string) : IO unit :=
  if negb (bool_decide (cb_State pending = ClaimBasePending)) || (cb_Epoch pending <=? 0)
     || bool_decide (baseSHA = "") || bool_decide (targetBranch = "")
  then throw (refused ErrClaimBaseState ("invalid pending-to-pinned transition for workspace " +:+ key))
  else
    let ref := claimBaseRef key (cb_Epoch pending) in
    wrapping (because ErrClaimBaseState ("retaining claim base at " +:+ ref)) (update_ref ref (Some baseSHA)) ;;
    writeClaimBaseLocked key (pinned_file claimBaseVersion (cb_Epoch pending) baseSHA targetBranch).

(** ** Branch facts *)

(** What git answers from the object store and from origin: ancestry of commits, the
    text of [git ls-remote] for a ref, and the fetch of a ref of origin into a cache
    ref. *)
Context (is_ancestor : string → string → bool) (ls_remote : string → string).
Context (fetchRemoteRef : string → string → IO string).
Context (pathsFor : string → WorkspacePaths).

Definition isAncestor (ancestor descendant : string) : IO bool :=
  wrapping (because ErrBaseRepoState ("cannot order " +:+ ancestor +:+ " against " +:+ descendant))
    (inspect (λ d, match du_base d with
                   | Dir => Ok (is_ancestor ancestor descendant)
                   | _ => Err (errorf "not a git repository")
                   end)).

Definition validateFactsWorkspace (ws : Workspace) : result unit :=
  if bool_decide (ws_Key ws = "") || bool_decide (ws_Branch ws = "")
  then Err (errors_New "workspace: branch facts require a prepared workspace's key and branch")
  else if bool_decide (ws_BaseSHA ws = "")
  then Err (refused ErrWorkspaceState ("workspace " +:+ ws_Key ws +:+ " carries no claim-time base SHA"))
  else if ws_ClaimEpoch ws <=? 0
  then Err (refused ErrClaimEpoch ("workspace " +:+ ws_Key ws +:+ " carries no positive claim epoch"))
  else Ok tt.

Definition validateWorkspaceClaimBaseLocked (ws : Workspace) : IO unit :=
  state ← readClaimBaseLocked (ws_Key ws);
  if negb (bool_decide (cb_State state = ClaimBasePinned)) || negb (cb_Epoch state =? ws_ClaimEpoch ws)
     || negb (bool_decide (cb_BaseSHA state = ws_BaseSHA ws))
     || negb (bool_decide (cb_TargetBranch state = ws_TargetBranch ws))
  then throw (refused ErrClaimBaseState ("workspace " +:+ ws_Key ws +:+ " carries epoch/base/target "
         +:+ itoa (ws_ClaimEpoch ws) +:+ "/" +:+ ws_BaseSHA ws +:+ "/" +:+ ws_TargetBranch ws
         +:+ ", provider has " +:+ ClaimBaseState_String (cb_State state) +:+ " " +:+ itoa (cb_Epoch state)
         +:+ "/" +:+ cb_BaseSHA state +:+ "/" +:+ cb_TargetBranch state))
  else mret tt.

Definition localBranchFactsAgainstLocked (branch baseSHA : string) : IO LocalBranchFacts :=
  if bool_decide (branch = "") || bool_decide (baseSHA = "")
  then throw (refused ErrWorkspaceState "local branch facts require a branch and base")
  else
    head ← revParse ("refs/heads/" +:+ branch);
    match head with
    | None => mret (MkLocalFacts baseSHA "" false)
    | Some head => descends ← isAncestor baseSHA head; mret (MkLocalFacts baseSHA head descends)
    end.

Definition localBranchFactsLocked (ws : Workspace) : IO LocalBranchFacts :=
  lift (validateFactsWorkspace ws) ;;
  localBranchFactsAgainstLocked (ws_Branch ws) (ws_BaseSHA ws).

Definition fetchRemoteIssueBranch (key branch : string) : IO string :=
  let ref := "refs/heads/" +:+ branch in
  out ← wrapping (λ e, errorf_wrap ("workspace: probe origin for " +:+ branch +:+ ": ") e "")
          (inspect (λ _, Ok (ls_remote ref)));
  let found := existsb (λ line, match cut (str1 9) line with
                                | Some (_, r) => bool_decide (r = ref)
                                | None => false
                                end) (split out nl) in
  let cacheRef := remoteRefPrefix +:+ key in
  if negb found then
    cached ← revParse cacheRef;
    match cached with
    | Some _ => update_ref cacheRef None ;; mret ""
    | None => mret ""
    end
  else wrapping (λ e, errorf_wrap ("workspace: fetch origin " +:+ branch +:+ ": ") e "")
         (fetchRemoteRef ref cacheRef).

(** [Provider.PublishFacts] *)
Definition Provider_PublishFacts (ws : Workspace) : IO PublishFacts :=
  lift (validateFactsWorkspace ws) ;;
  validateWorkspaceClaimBaseLocked ws ;;
  local ← localBranchFactsLocked ws;
  let facts := MkFacts (lb_Head local) "" false (lb_DescendsBase local) false in
  if negb (AdvancedPastBase facts (ws_BaseSHA ws)) then mret facts
  else
    remote ← fetchRemoteIssueBranch (ws_Key ws) (ws_Branch ws);
    if bool_decide (remote = "") then mret (MkFacts (lb_Head local) remote true (lb_DescendsBase local) false)
    else
      has ← isAncestor (lb_Head local) remote;
      mret (MkFacts (lb_Head local) remote true (lb_DescendsBase local) has).

(** [Provider.ResolveWorkspace]; [None] is its [false]. *)
Definition ResolveWorkspace (issue : Issue) : IO (option Workspace) :=
  if bool_decide (is_Identifier issue = "") then throw (refused ErrPathEscape "issue identifier is empty")
  else
    let key := Key (is_Identifier issue) in
    claimBase ← readClaimBaseLocked key;
    if negb (bool_decide (cb_State claimBase = ClaimBasePinned)) then
      present ← baseRepoPresent;
      (if (present : bool) then revParse (baseRefPrefix +:+ key) ;; mret tt else mret tt) ;;
      mret None
    else mret (Some (MkWorkspace (pathsFor key) key (branchPrefix +:+ key) (cb_Epoch claimBase)
                       (cb_BaseSHA claimBase) (cb_TargetBranch claimBase) false false)).

(** The provider as the verifier's seam. *)
Definition provider_workspaces : Workspaces world := {| publishFacts := Provider_PublishFacts |}.
End provider.
