(* ===== verification/WorkspaceFacts.v ===== *)
(** * WorkspaceFacts: keys are safe, claim bases are crash safe, facts are facts

    A workspace key is a usable directory and ref component whatever the tracker
    calls the issue. The claim-base operations refine a small abstract machine, at
    every point a failure or a crash can leave behind. The provider's publication
    facts discharge the contract the verifier relies on. *)

From Stdlib Require Import Ascii.
From S2P Require Import Prelude GoStd GoStdFacts FaultIO Core Verify VerifyFacts Workspace.

Local Notation IO := (FaultIO.IO durable).
Local Notation world := (FaultIO.world durable).

(** ** Keys *)

(** A rune below 128 was read from the one byte it is. *)
Lemma decode_ascii s : Forall (λ p, key_rune p.1 = true → ∃ c, p = (byte_val c, String c "")) (decode s).
Proof.
  remember (String.length s) as n eqn:Hn. assert (Hle : (String.length s ≤ n)%nat) by lia. clear Hn.
  revert s Hle. induction n as [|n IH]; intros [|c0 s1] Hle; try constructor; simpl in Hle; [lia|].
  assert (Herr : key_rune rune_error = false) by reflexivity.
  assert (Hbig : ∀ r, 128 ≤ r → key_rune r = false).
  { intros r Hr. unfold key_rune, is_lower, is_upper, is_digit, in_range. lia. }
  assert (Hfail : ∀ x t, (String.length t ≤ n)%nat →
    Forall (λ p, key_rune p.1 = true → ∃ c, p = (byte_val c, String c "")) ((rune_error, x) :: decode t)).
  { intros x t Ht. constructor; [simpl; rewrite Herr; done|by apply IH]. }
  simpl. destruct (byte_val c0 <? 128) eqn:E0.
  { constructor; [simpl; eauto|]. apply IH. lia. }
  destruct s1 as [|c1 s2]; [apply (Hfail _ ""); simpl; lia|]. simpl in Hle.
  destruct (in_range 194 223 (byte_val c0) && is_cont (byte_val c1)) eqn:E1.
  { apply andb_true_iff in E1 as [E1 E2]. unfold in_range, is_cont in *.
    constructor; [|apply IH; lia]. simpl. rewrite Hbig; [done|]. unfold in_range in E2. lia. }
  destruct (in_range 224 244 (byte_val c0) && accept2 (byte_val c0) (byte_val c1)) eqn:E2;
    [|apply Hfail; simpl; lia].
  destruct s2 as [|c2 s3]; [apply Hfail; simpl; lia|]. simpl in Hle.
  destruct (negb (is_cont (byte_val c2))) eqn:E3; [apply Hfail; simpl; lia|].
  apply negb_false_iff in E3. apply andb_true_iff in E2 as [E2 E4].
  assert (Hb : 128 ≤ byte_val c1 ∧ (byte_val c0 = 224 → 160 ≤ byte_val c1)
               ∧ (byte_val c0 = 240 → 144 ≤ byte_val c1) ∧ 128 ≤ byte_val c2).
  { unfold accept2, is_cont, in_range in *. repeat split_match_in E4; lia. }
  unfold in_range in E2.
  destruct (byte_val c0 <=? 239) eqn:E5.
  { constructor; [|apply IH; lia]. simpl. rewrite Hbig; [done|]. lia. }
  destruct s3 as [|c3 s4]; [apply Hfail; simpl; lia|]. simpl in Hle.
  destruct (is_cont (byte_val c3)) eqn:E6; [|apply Hfail; simpl; lia].
  unfold is_cont, in_range in E6.
  constructor; [|apply IH; lia]. simpl. rewrite Hbig; [done|]. lia.
Qed.

Lemma sanitize_bytes s : all_bytes key_rune (sanitize s) = true.
Proof.
  unfold sanitize. induction (decode_ascii s) as [|p l Hp _ IH]; [done|]. simpl.
  rewrite all_bytes_app, IH, andb_true_r. destruct (key_rune p.1) eqn:E; [|done].
  destruct (Hp eq_refl) as [c ->]. simpl in *. by rewrite E.
Qed.

Lemma replace_dots_bytes s :
  all_bytes key_rune s = true →
  all_bytes key_rune (replace_all s "." "_") = true ∧ avoids "." (replace_all s "." "_") = true.
Proof.
  unfold replace_all. induction s as [|c s IH]; [done|].
  intros [Hc Hs]%andb_true_iff. destruct (IH Hs) as [I1 I2]. simpl.
  unfold has_prefix. simpl cut_prefix. destruct (bool_decide ("."%char = c)) eqn:E.
  - simpl. rewrite sapp_cons, sapp_nil_l. simpl. rewrite I1. split; [done|].
    apply avoids_cons. by split.
  - apply bool_decide_eq_false in E. simpl. rewrite Hc, I1. split; [done|].
    apply avoids_cons. split; [congruence|done].
Qed.

Lemma hex_bytes w z : all_bytes key_rune (hex w z) = true ∧ avoids "." (hex w z) = true.
Proof.
  revert z. induction w as [|w IH]; intros z; [done|]. simpl.
  destruct (IH (z / 16)) as [I1 I2]. rewrite all_bytes_app, avoids_app, I1, I2. simpl.
  assert (0 ≤ z mod 16 < 16) as H by (apply Z.mod_pos_bound; lia).
  unfold hex_digit, str1, avoids. simpl.
  destruct (z mod 16 <? 10) eqn:E; rewrite byte_val_of by lia;
    change (byte_val ".") with 46; unfold key_rune, is_lower, is_upper, is_digit, in_range; lia.
Qed.

Lemma avoids_rev c s : avoids c (String.rev s) = avoids c s.
Proof.
  induction s as [|d s IH]; [done|]. rewrite srev_cons, avoids_app, IH. unfold avoids. simpl.
  rewrite andb_true_r. apply andb_comm.
Qed.

(** A prefix has only bytes of the string. *)
Lemma avoids_has_prefix c p s : avoids c s = true → avoids c p = false → has_prefix p s = false.
Proof.
  intros Hs Hp. apply not_true_iff_false. intros [r ->]%has_prefix_spec.
  rewrite avoids_app, Hp in Hs. done.
Qed.

Lemma no_dot_safe s : s ≠ "" → avoids "." s = true → refComponentSafe s = true.
Proof.
  intros Hne Hd. unfold refComponentSafe, has_suffix. rewrite bool_decide_eq_false_2 by done.
  rewrite !(avoids_has_prefix ".") by (rewrite ?avoids_rev; done).
  by rewrite contains_first_absent.
Qed.

(** What may name a directory below a root and a component of a git ref, whatever the code
    checks: letters, digits, dots, underscores and hyphens only, so no separator; not a
    hidden name, [.] or [..]; and none of the shapes git refuses. *)
Definition name_byte (c : ascii) : Prop :=
  (48 ≤ byte_val c ≤ 57) ∨ (65 ≤ byte_val c ≤ 90) ∨ (97 ≤ byte_val c ≤ 122)
  ∨ c = "."%char ∨ c = "_"%char ∨ c = "-"%char.

Record safe_component (s : string) : Prop := MkSafe {
  safe_nonempty : s ≠ "";
  safe_bytes : ∀ a c b, s = a +:+ String c b → name_byte c;
  safe_start : ∀ t, s ≠ "." +:+ t;
  safe_end : ∀ t, s ≠ t +:+ ".";
  safe_dots : ∀ a b, s ≠ a +:+ ".." +:+ b;
  safe_lock : ∀ t, s ≠ t +:+ ".lock";
}.

Lemma key_rune_byte c : key_rune (byte_val c) = true ↔ name_byte c.
Proof.
  unfold key_rune, name_byte, is_lower, is_upper, is_digit, in_range.
  assert (∀ d, c = d ↔ byte_val c = byte_val d) as Heq.
  { intros d. split; [by intros ->|]. apply byte_val_inj. }
  rewrite !Heq. change (byte_val ".") with 46. change (byte_val "_") with 95. change (byte_val "-") with 45. lia.
Qed.

Lemma key_bytes s : all_bytes key_rune s = true ↔ ∀ a c b, s = a +:+ String c b → name_byte c.
Proof.
  split.
  - intros H a c b ->. rewrite all_bytes_app in H. simpl in H. split_bools. by apply key_rune_byte.
  - induction s as [|c s IH]; intros H; [done|]. simpl. apply andb_true_iff. split.
    + apply key_rune_byte, (H "" c s). by rewrite sapp_nil_l.
    + apply IH. intros a c' b ->. apply (H (String c a) c' b). by rewrite sapp_cons.
Qed.

Lemma has_suffix_spec p s : has_suffix p s = true ↔ ∃ t, s = t +:+ p.
Proof.
  unfold has_suffix. rewrite has_prefix_spec. split.
  - intros [r Hr]. exists (String.rev r). by rewrite (srev_eq _ _ Hr), srev_app, srev_involutive.
  - intros [t ->]. exists (String.rev t). by rewrite srev_app.
Qed.

(** The code's check, on a string of the right bytes, is the specification. *)
Lemma refComponentSafe_spec s :
  all_bytes key_rune s = true ∧ refComponentSafe s = true ↔ safe_component s.
Proof.
  unfold refComponentSafe. rewrite key_bytes. split.
  - intros [Hb H]. case_bool_decide as Hne; [done|].
    destruct (has_prefix "." s) eqn:H1; [done|]. destruct (has_suffix "." s) eqn:H2; [done|].
    destruct (contains ".." s) eqn:H3; [done|]. destruct (has_suffix ".lock" s) eqn:H4; [done|].
    split; [done..| | | |].
    + intros t Ht. apply not_true_iff_false in H1. apply H1, has_prefix_spec. eauto.
    + intros t Ht. apply not_true_iff_false in H2. apply H2, has_suffix_spec. eauto.
    + intros a b Hab. apply not_true_iff_false in H3. apply H3, contains_spec. eauto.
    + intros t Ht. apply not_true_iff_false in H4. apply H4, has_suffix_spec. eauto.
  - intros [Hne Hb H1 H2 H3 H4]. split; [done|]. rewrite bool_decide_eq_false_2 by done.
    destruct (has_prefix "." s) eqn:E1; [by apply has_prefix_spec in E1 as [? ?%H1]|].
    destruct (has_suffix "." s) eqn:E2; [by apply has_suffix_spec in E2 as [? ?%H2]|].
    destruct (contains ".." s) eqn:E3; [by apply contains_spec in E3 as (? & ? & ?%H3)|].
    by destruct (has_suffix ".lock" s) eqn:E4; [apply has_suffix_spec in E4 as [? ?%H4]|].
Qed.

Lemma sanitize_id s : all_bytes key_rune s = true → sanitize s = s.
Proof.
  unfold sanitize. induction s as [|c s IH]; [done|]. simpl. intros [Hc Hs]%andb_true_iff.
  assert (byte_val c <? 128 = true) as ->.
  { unfold key_rune, is_lower, is_upper, is_digit, in_range in Hc. lia. }
  simpl. rewrite Hc, (IH Hs). by rewrite sapp_cons, sapp_nil_l.
Qed.

Lemma Key_checked identifier :
  all_bytes key_rune (Key identifier) = true ∧ refComponentSafe (Key identifier) = true.
Proof.
  pose proof (sanitize_bytes identifier) as Hs.
  unfold Key. destruct (bool_decide (sanitize identifier = identifier)
    && refComponentSafe (sanitize identifier)) eqn:E; [by apply andb_true_iff in E as [_ ?]|].
  destruct (replace_dots_bytes _ Hs) as [R1 R2].
  destruct (hex_bytes 16 (fnv1a 14695981039346656037 identifier)) as [H1 H2].
  set (p := if bool_decide (replace_all (sanitize identifier) "." "_" = "") then "issue"
            else replace_all (sanitize identifier) "." "_").
  assert (all_bytes key_rune p = true ∧ avoids "." p = true) as [P1 P2].
  { unfold p. destruct (bool_decide (replace_all _ _ _ = "")); [split; reflexivity|done]. }
  split; [by rewrite !all_bytes_app, P1, H1|]. apply no_dot_safe.
  - intros [_ H]%sapp_empty. by apply sapp_empty in H as [? _].
  - by rewrite !avoids_app, P2, H2.
Qed.

(** C39: a workspace key can always be used. For every identifier a tracker can name an
    issue by, valid UTF-8 or not, the key is a [safe_component]: a non-empty string of
    letters, digits, dots, underscores and hyphens that does not start or end with a dot,
    has no two dots in a row and no lock suffix, so that no path escapes through it and git
    accepts it in a ref. An identifier that is already such a string is its own key. *)
Theorem key_safe (identifier : string) :
  safe_component (Key identifier) ∧ (safe_component identifier → Key identifier = identifier).
Proof.
  split; [apply refComponentSafe_spec, Key_checked|].
  intros [Hb Hr]%refComponentSafe_spec. unfold Key. by rewrite (sanitize_id _ Hb), Hr, bool_decide_eq_true_2.
Qed.

Lemma Key_nonempty identifier : Key identifier ≠ "".
Proof.
  unfold Key. destruct (bool_decide (sanitize identifier = identifier)
    && refComponentSafe (sanitize identifier)) eqn:E.
  - apply andb_true_iff in E as [_ E]. by intros H; rewrite H in E.
  - intros [_ H]%sapp_empty. by apply sapp_empty in H as [? _].
Qed.

Example key_examples :
  Key "42" = "42" ∧ Key "a/../b" = "a____b-bc47fcdb83d5e458" ∧ Key "" = "issue-cbf29ce484222325".
Proof. vm_compute. done. Qed.

(** ** What a durable state says *)

Section claims.
Context `{T : GoTables} `{RC : RecordCodec} (claimBaseDir baseDir : string).

Notation value := (ClaimBase * bool)%type (only parsing).

(** The reachability ref a reading rests on, and the commit it must name. *)
Definition root_of (key : string) (st : ClaimBase) : option (string * string) :=
  match cb_State st with
  | ClaimBasePinned => Some (claimBaseRef key (cb_Epoch st), cb_BaseSHA st)
  | ClaimBasePending =>
      if bool_decide (cb_OutgoingBaseSHA st = "") then None
      else if 0 <? cb_OutgoingEpoch st
      then Some (claimBaseRef key (cb_OutgoingEpoch st), cb_OutgoingBaseSHA st)
      else Some (baseRefPrefix +:+ key, cb_OutgoingBaseSHA st)
  | _ => None
  end.

Definition rooted (key : string) (st : ClaimBase) (d : durable) : Prop :=
  match root_of key st with
  | Some (ref, sha) => du_base d = Dir ∧ du_refs d !! ref = Some sha
  | None => True
  end.

(** The claim base a durable state holds for a key, and whether it is legacy. *)
Definition reads_as (key : string) (v : value) (d : durable) : Prop :=
  match du_record d with
  | NoFile => du_claims d ≠ NotADir ∧ v = (no_claim ClaimBaseAbsent, false)
  | DanglingLink => False
  | File b => ∃ f, record_Decode b = Ok f ∧ projectClaimBase f = Ok v ∧ rooted key v.1 d
  end.

Lemma reads_as_fun key v v' d : reads_as key v d → reads_as key v' d → v = v'.
Proof.
  unfold reads_as. destruct (du_record d); [|done|]; [intros [_ ->] [_ ->]; done|].
  intros (f & H1 & H2 & _) (f' & H1' & H2' & _). congruence.
Qed.

Lemma validateRef_triple (I : durable → Prop) key st d0 :
  I d0 →
  triple I (eq d0) (validateClaimBaseRefLocked key st) (λ _ d, d = d0 ∧ rooted key st d0).
Proof.
  intros HI. unfold validateClaimBaseRefLocked, rooted, root_of.
  assert (Hcheck : ∀ ref want, triple I (eq d0)
    (got ← wrapping (because ErrClaimBaseState ("reading reachability ref " +:+ ref)) (revParse ref);
     if bool_decide (got = Some want) then mret tt
     else throw (refused ErrClaimBaseState ("reachability ref " +:+ ref +:+ " is "
            +:+ quote (default "" got) +:+ ", want " +:+ quote want)))
    (λ _ d, d = d0 ∧ du_base d0 = Dir ∧ du_refs d0 !! ref = Some want)).
  { intros ref want. eapply (triple_bind _ _ _ _ (λ got d, d0 = d ∧ du_base d0 = Dir ∧ du_refs d0 !! ref = got)).
    - apply triple_wrapping. unfold revParse. apply triple_wrapping.
      apply triple_inspect; [by intros ? <-|]. intros d a <-. destruct (du_base d0); try done.
      by intros [= <-].
    - intros got. destruct (bool_decide (got = Some want)) eqn:E.
      + apply bool_decide_eq_true in E. apply triple_ret. intros d (<- & Hb & Hr).
        split; [done|]. split; [done|]. split; [done|]. congruence.
      + apply triple_throw. by intros d (<- & _). }
  assert (Hnone : triple I (eq d0) (mret tt) (λ _ d, d = d0 ∧ True)).
  { apply triple_ret. by intros d <-. }
  destruct (cb_State st); try exact Hnone; [|apply Hcheck].
  destruct (bool_decide (cb_OutgoingBaseSHA st = "")); [exact Hnone|].
  destruct (0 <? cb_OutgoingEpoch st); apply Hcheck.
Qed.

(** Reading changes nothing and answers what the state holds. *)
Lemma read_triple (I : durable → Prop) key d0 :
  I d0 →
  triple I (eq d0) (readClaimBaseForTransitionLocked claimBaseDir key)
    (λ v d, d = d0 ∧ reads_as key v d0).
Proof.
  intros HI. unfold readClaimBaseForTransitionLocked.
  eapply (triple_bind _ _ _ _ (λ raw d, d0 = d ∧ raw = match du_record d0 with File b => Some b | _ => None end)).
  { apply triple_wrapping, triple_inspect; [by intros ? <-|]. intros d a <-. by intros [= <-]. }
  intros [raw|].
  - assert (Hre : ∀ d, (d0 = d ∧ Some raw = match du_record d0 with File b => Some b | _ => None end) →
              d0 = d ∧ du_record d0 = File raw).
    { intros d [<- H]. destruct (du_record d0); by simplify_eq. }
    destruct (record_Decode raw) as [f|e] eqn:Hd; [|by apply triple_throw; intros d [<- _]].
    destruct (projectClaimBase f) as [[st legacy]|e] eqn:Hp; [|by apply triple_throw; intros d [<- _]].
    intros w r w' HP E. destruct (Hre _ HP) as [Hw Hrec].
    pose proof (triple_bind I _ (λ _, mret (st, legacy)) _ _
      (λ v d, d = d0 ∧ reads_as key v d0) (validateRef_triple I key st d0 HI)) as Ht.
    eapply Ht; [|exact Hw|exact E]. intros u. apply triple_ret. intros d [-> Hroot].
    split; [done|]. split; [done|]. unfold reads_as. rewrite Hrec. eauto.
  - eapply (triple_bind _ _ _ _ (λ (l : bool) d, d0 = d ∧ l = match du_record d0 with NoFile => false | _ => true end
      ∧ ∀ b, du_record d0 ≠ File b)).
    { apply triple_wrapping, triple_inspect; [by intros ? [<- _]|]. intros d a [<- Hn] [= <-].
      split; [done|]. split; [done|]. intros b Hb. by rewrite Hb in Hn. }
    intros [|]; [by apply triple_throw; intros d [<- _]|].
    unfold validateClaimBaseDirForAbsence.
    eapply (triple_bind _ _ _ _ (λ _ d, d0 = d ∧ du_claims d0 ≠ NotADir ∧ du_record d0 = NoFile)).
    + eapply (triple_bind _ _ _ _ (λ e d, d0 = d ∧ e = du_claims d0 ∧ du_record d0 = NoFile)).
      * apply triple_wrapping, triple_inspect; [by intros ? [<- _]|].
        intros d a (<- & Hl & Hnb) [= <-]. split; [done|]. split; [done|].
        destruct (du_record d0); [done..|]. by destruct (Hnb bytes).
      * intros e. destruct e; [|by apply triple_throw; intros d [<- _]|];
          apply triple_ret; intros d (<- & He & Hf); rewrite <- He; done.
    + intros _. apply triple_ret. intros d (<- & Hc & Hf). split; [done|]. split; [done|].
      unfold reads_as. by rewrite Hf.
Qed.

(** ** The abstract machine

    A claim base is what a reader of the store sees: a state, and whether it was read
    from a record without a target branch. *)

Definition file_of (v : value) : claimBaseFile :=
  let '(st, legacy) := v in
  MkFile (if (legacy : bool) then legacyClaimVersion else claimBaseVersion)
    (match cb_State st with ClaimBasePinned => claimBasePinned | _ => claimBasePending end)
    (cb_Epoch st) (cb_BaseSHA st) (cb_TargetBranch st)
    (cb_OutgoingEpoch st) (cb_OutgoingBaseSHA st) (cb_OutgoingTargetBranch st).

(** The values a record can project to. *)
Definition valid (v : value) : Prop :=
  let '(st, legacy) := v in
  0 < cb_Epoch st ∧ (legacy = true → cb_TargetBranch st = "" ∧ cb_OutgoingTargetBranch st = "")
  ∧ match cb_State st with
    | ClaimBasePending =>
        cb_BaseSHA st = "" ∧ 0 ≤ cb_OutgoingEpoch st
        ∧ (cb_OutgoingBaseSHA st = "" → cb_OutgoingEpoch st = 0 ∧ cb_OutgoingTargetBranch st = "")
    | ClaimBasePinned =>
        cb_BaseSHA st ≠ "" ∧ (legacy = false → cb_TargetBranch st ≠ "") ∧ cb_OutgoingEpoch st = 0
        ∧ cb_OutgoingBaseSHA st = "" ∧ cb_OutgoingTargetBranch st = ""
    | _ => False
    end.

(** What a claim base keeps while operations act on it: its epochs are 64-bit, and a
    pending claim is never its own predecessor. *)
Definition claim_wf (v : value) : Prop :=
  v = (no_claim ClaimBaseAbsent, false)
  ∨ valid v ∧ cb_Epoch v.1 ≤ max_int64 ∧ cb_OutgoingEpoch v.1 ≤ max_int64
    ∧ (cb_State v.1 = ClaimBasePending → cb_OutgoingEpoch v.1 ≠ cb_Epoch v.1).

(** Case analysis on the comparisons a goal tests, in the order it tests them. *)
Ltac split_tests :=
  repeat (match goal with
    | |- context [Z.eqb ?a ?b] => destruct (Z.eqb_spec a b)
    | |- context [Z.leb ?a ?b] => destruct (Z.leb_spec a b)
    | |- context [Z.ltb ?a ?b] => destruct (Z.ltb_spec a b)
    | |- context [bool_decide ?P] => destruct (bool_decide_reflect P)
    end; subst; simpl; try done).

Lemma project_valid f v : projectClaimBase f = Ok v → valid v.
Proof.
  unfold projectClaimBase, valid, legacyClaimVersion, claimBaseVersion.
  destruct f as [ver sta ep ba ta oe ob ot]; simpl.
  split_tests; intros [= <-]; simpl; naive_solver lia.
Qed.

Lemma project_file_of v : valid v → projectClaimBase (file_of v) = Ok v.
Proof.
  destruct v as [[sta ep ba ta oe ob ot] legacy]. unfold projectClaimBase, valid. simpl.
  intros (He & Hl & Hv). destruct sta, legacy; try done; simpl; split_tests; naive_solver lia.
Qed.

(** ** Writing the record *)

(** A state reads as a claim base, and the store is a directory or not there yet. *)
Definition holds (key : string) (v : value) (d : durable) : Prop :=
  reads_as key v d ∧ du_claims d ≠ NotADir.

Lemma rooted_same key st d d' :
  du_base d' = du_base d → du_refs d' = du_refs d → rooted key st d → rooted key st d'.
Proof. unfold rooted. intros -> ->. done. Qed.

(** A state that differs in other refs, or in having the store, holds the same. *)
Lemma holds_frame key v d d' :
  holds key v d → du_record d' = du_record d → du_claims d' ≠ NotADir →
  (rooted key v.1 d → rooted key v.1 d') → holds key v d'.
Proof.
  intros [Hr Hc] He Hc' Hroot. split; [|done]. unfold reads_as in *. rewrite He.
  destruct (du_record d); [|done|]; [naive_solver|]. destruct Hr as (f & ? & ? & ?). eauto 10.
Qed.

Lemma record_holds key v b d :
  valid v → record_representable (file_of v) → record_Marshal (file_of v) = Ok b →
  du_record d = File b → du_claims d ≠ NotADir → rooted key v.1 d → holds key v d.
Proof.
  intros Hv Hrep Hm Hf Hc Hroot. split; [|done]. unfold reads_as. rewrite Hf. exists (file_of v).
  split; [by eapply record_roundtrip|]. split; [by apply project_file_of|done].
Qed.

(** Publishing a record is atomic: until the rename the store holds what it held, from
    it on the new value. *)
Lemma write_triple (I : durable → Prop) key old new d0 :
  key ≠ "" → valid new → record_representable (file_of new) →
  (∀ d, holds key old d → I d) → (∀ d, holds key new d → I d) →
  holds key old d0 → rooted key new.1 d0 →
  triple I (eq d0) (writeClaimBaseLocked claimBaseDir key (file_of new)) (λ _ d, holds key new d).
Proof.
  intros Hkey Hv Hrep HIo HIn Hold Hroot. unfold writeClaimBaseLocked.
  rewrite bool_decide_eq_false_2 by done.
  set (d1 := MkDurable (du_record d0) Dir (du_base d0) (du_refs d0)).
  assert (Hold1 : holds key old d1).
  { apply (holds_frame _ _ _ _ Hold); [done|done|]. by apply rooted_same. }
  destruct (record_Marshal_total _ Hrep) as [b Hb].
  set (d2 := set_record (File b) d1).
  assert (Hnew : holds key new d2).
  { by apply (record_holds _ _ b). }
  assert (Hsync : ∀ text d, I d → triple I (eq d) (wrapping (because ErrClaimBaseState text) syscall) (λ _, eq d)).
  { intros text d Hd. apply triple_wrapping, triple_syscall. by intros ? <-. }
  apply (triple_bind _ _ _ _ (λ _, eq d0)); [by auto|]. intros _.
  apply (triple_bind _ _ _ _ (λ _, eq d1)).
  { apply triple_wrapping, triple_call; [intros ? <-; auto|]. intros d r d' <-. destruct Hold as [_ Hc].
    destruct (du_claims d0); intros [= <- <-]; auto; done. }
  intros _. rewrite Hb.
  do 4 (apply (triple_bind _ _ _ _ (λ _, eq d1)); [by auto|]; intros _).
  apply (triple_bind _ _ _ _ (λ _, eq d2)).
  { apply triple_wrapping, triple_call; [intros ? <-; auto|]. intros d r d' <- [= <- <-]. auto. }
  intros _. eapply triple_post; [by auto|]. by intros _ d <-.
Qed.

(** ** Operations and their abstract effect *)

(** The operations on one issue's claim base. Preparing a workspace reads the claim
    base under the lock and pins the base it settled on. *)
Inductive claim_op :=
| OpBegin (epoch : Z)
| OpPin (baseSHA targetBranch : string)
| OpAbandon.

Definition run_op (issue : Issue) (op : claim_op) : IO unit :=
  match op with
  | OpBegin epoch => BeginClaimBase claimBaseDir issue epoch
  | OpPin baseSHA targetBranch =>
      key ← lift (claimBaseKey issue);
      pending ← readClaimBaseLocked claimBaseDir key;
      pinClaimBaseLocked claimBaseDir key pending baseSHA targetBranch
  | OpAbandon => AbandonPendingClaimBase claimBaseDir baseDir issue
  end.

(** The base a workspace from before claim bases existed was created from. *)
Definition legacy_base (key : string) (d : durable) : string :=
  match du_base d with Dir => default "" (du_refs d !! (baseRefPrefix +:+ key)) | _ => "" end.

(** What each operation promises of the value; [None] is a refusal. *)
Definition abs_step (base : string) (op : claim_op) (v : value) : option value :=
  let '(st, legacy) := v in
  match op, cb_State st with
  | OpBegin e, ClaimBaseAbsent =>
      if 0 <? e then Some (MkClaimBase ClaimBasePending e "" "" 0 base "", false) else None
  | OpBegin e, ClaimBasePinned =>
      if negb (0 <? e) then None
      else if cb_Epoch st =? e then (if (legacy : bool) then None else Some v)
      else Some (MkClaimBase ClaimBasePending e "" "" (cb_Epoch st) (cb_BaseSHA st) (cb_TargetBranch st), false)
  | OpBegin e, ClaimBasePending =>
      if (0 <? e) && (cb_Epoch st =? e) && negb legacy then Some v else None
  | OpPin sha target, ClaimBasePending =>
      if legacy || bool_decide (sha = "") || bool_decide (target = "") then None
      else Some (MkClaimBase ClaimBasePinned (cb_Epoch st) sha target 0 "" "", false)
  | OpAbandon, ClaimBasePending =>
      if (legacy : bool) then None
      else if 0 <? cb_OutgoingEpoch st
      then Some (MkClaimBase ClaimBasePinned (cb_OutgoingEpoch st) (cb_OutgoingBaseSHA st)
                   (cb_OutgoingTargetBranch st) 0 "" "", bool_decide (cb_OutgoingTargetBranch st = ""))
      else Some (no_claim ClaimBaseAbsent, false)
  | OpAbandon, (ClaimBasePinned | ClaimBaseAbsent) => if (legacy : bool) then None else Some v
  | _, _ => None
  end.

Definition op_in_range (op : claim_op) : Prop :=
  match op with OpBegin e => e ≤ max_int64 | _ => True end.

(** The machine keeps its values well formed, whatever it is asked to do. *)
Lemma abs_step_wf base op v v' :
  op_in_range op → claim_wf v → abs_step base op v = Some v' → claim_wf v'.
Proof.
  intros Hop [->|(Hv & He & Ho & Hp)].
  - destruct op as [e| |]; simpl; [|done|by intros [= <-]; left].
    destruct (Z.ltb_spec 0 e); [|done]. intros [= <-]. right. simpl in *.
    unfold max_int64 in *. naive_solver lia.
  - destruct v as [[sta ep ba ta oe ob ot] legacy]. simpl in *. destruct Hv as (Hpos & Hl & Hs).
    destruct op as [e|sha target|], sta; try done; simpl; split_tests;
      destruct legacy; simpl; try done; intros [= <-];
      (left; reflexivity) || (right; unfold max_int64 in *; simpl; naive_solver lia).
Qed.

(** ** The operations refine the machine *)

Lemma claimBaseRef_inj key a b :
  0 ≤ a → 0 ≤ b → claimBaseRef key a = claimBaseRef key b → a = b.
Proof.
  intros Ha Hb Heq. unfold claimBaseRef in Heq. do 3 apply sapp_inj_l in Heq. by apply itoa_inj in Heq.
Qed.

(** A pending claim's own ref is not the one its predecessor's base rests on, so that
    setting or deleting it keeps the predecessor reachable. *)
Lemma own_ref_free key v d (sha : option string) :
  claim_wf v → cb_State v.1 = ClaimBasePending → rooted key v.1 d →
  rooted key v.1 (set_refs (partial_alter (λ _, sha) (claimBaseRef key (cb_Epoch v.1)) (du_refs d)) d).
Proof.
  intros [->|(Hv & He & Ho & Hp)]; [done|]. destruct v as [st legacy]. simpl in *.
  intros Hst. specialize (Hp Hst). destruct Hv as (Hpos & _ & Hs). rewrite Hst in Hs.
  unfold rooted, root_of. rewrite Hst. destruct (bool_decide (cb_OutgoingBaseSHA st = "")); [done|].
  destruct (0 <? cb_OutgoingEpoch st); intros [Hb Hr]; (split; [done|]); simpl;
    rewrite lookup_partial_alter_ne; try done. intros Heq%claimBaseRef_inj; lia.
Qed.

Lemma readLocked_triple (I : durable → Prop) key d0 :
  I d0 →
  triple I (eq d0) (readClaimBaseLocked claimBaseDir key)
    (λ st d, d = d0 ∧ reads_as key (st, false) d0).
Proof.
  intros HI. eapply triple_bind; [by apply read_triple|]. intros [st [|]]; apply triple_pure; intros Hr.
  - apply triple_throw. by intros d <-.
  - apply triple_ret. by intros d <-.
Qed.

Lemma legacy_triple (I : durable → Prop) key d0 :
  I d0 →
  triple I (eq d0) (legacyOutgoingBaseLocked key) (λ b d, d = d0 ∧ b = legacy_base key d0).
Proof.
  intros HI. unfold legacyOutgoingBaseLocked, legacy_base.
  eapply (triple_bind _ _ _ _ (λ e d, d = d0 ∧ e = du_base d0)).
  { apply triple_wrapping, triple_inspect; [by intros ? <-|]. intros d a <-. by intros [= <-]. }
  intros e. apply triple_pure. intros ->. destruct (du_base d0) eqn:E.
  - apply triple_ret. by intros d <-.
  - apply triple_throw. by intros d <-.
  - eapply (triple_bind _ _ _ _ (λ s d, d = d0 ∧ s = du_refs d0 !! (baseRefPrefix +:+ key))).
    + apply triple_wrapping, triple_inspect; [by intros ? <-|]. intros d a <-. rewrite E. by intros [= <-].
    + intros s. apply triple_pure. intros ->. apply triple_ret. by intros d <-.
Qed.

(** ** Without faults, reads and writes succeed *)

Lemma read_runs key v d :
  reads_as key v d → runs d (readClaimBaseForTransitionLocked claimBaseDir key) v d.
Proof.
  unfold reads_as, readClaimBaseForTransitionLocked. intros H.
  eapply runs_bind; [by apply runs_wrapping, runs_inspect|]. destruct (du_record d) eqn:Er; [|done|].
  - destruct H as [Hc ->]. eapply runs_bind; [by apply runs_wrapping, runs_inspect|]. rewrite Er.
    eapply (runs_bind _ _ _ _ tt); [|apply runs_ret].
    eapply runs_bind; [by apply runs_wrapping, runs_inspect|]. destruct (du_claims d); try done; apply runs_ret.
  - destruct H as (f & -> & Hp & Hr). rewrite Hp. destruct v as [st legacy].
    eapply (runs_bind _ _ _ _ tt); [|apply runs_ret]. simpl in Hr.
    unfold validateClaimBaseRefLocked, rooted, root_of in *.
    destruct (cb_State st); try apply runs_ret;
      [destruct (bool_decide (cb_OutgoingBaseSHA st = "")); [apply runs_ret|];
       destruct (0 <? cb_OutgoingEpoch st)|];
      destruct Hr as [Hb Hr];
      (eapply runs_bind; [apply runs_wrapping, runs_wrapping, runs_inspect; by rewrite Hb|]);
      rewrite Hr, bool_decide_eq_true_2 by done; apply runs_ret.
Qed.

Lemma write_runs key f d :
  key ≠ "" → record_representable f → du_claims d ≠ NotADir →
  ∃ d', runs d (writeClaimBaseLocked claimBaseDir key f) tt d'.
Proof.
  intros Hk Hrep Hc. destruct (record_Marshal_total _ Hrep) as [b Hb].
  exists (MkDurable (File b) Dir (du_base d) (du_refs d)). unfold writeClaimBaseLocked.
  rewrite bool_decide_eq_false_2 by done.
  eapply runs_bind; [by apply runs_wrapping, runs_syscall|].
  eapply runs_bind. { apply runs_wrapping, runs_call. by destruct (du_claims d). }
  rewrite Hb. do 4 (eapply runs_bind; [by apply runs_wrapping, runs_syscall|]).
  eapply runs_bind; [by apply runs_wrapping, runs_call|]. by apply runs_wrapping, runs_syscall.
Qed.

Section operation.
Context (issue : Issue) (old : value) (d0 : durable) (op : claim_op).
Let key := Key (is_Identifier issue).
Let after := abs_step (legacy_base key d0) op old.
Context (Hid : is_Identifier issue ≠ "") (Hwf : claim_wf old) (Hold : holds key old d0).
Context (Hrep : ∀ v, after = Some v → valid v → record_representable (file_of v)).

(** The states the operation may go through, and the ones it may succeed in. *)
Definition reached (d : durable) : Prop := ∃ v, after = Some v ∧ holds key v d.
Definition passes (d : durable) : Prop := holds key old d ∨ reached d.

Lemma passes_old d : holds key old d → passes d.
Proof. by left. Qed.

Lemma key_ok : claimBaseKey issue = Ok key.
Proof. unfold claimBaseKey. by rewrite bool_decide_eq_false_2. Qed.

Lemma old_valid : old = (no_claim ClaimBaseAbsent, false) ∨ valid old.
Proof. destruct Hwf as [?|[? _]]; auto. Qed.

(** Success without a write. *)
Lemma keep_triple : after = Some old → triple passes (eq d0) (mret tt) (λ _, reached).
Proof. intros Ha. apply triple_ret. intros d <-. split; [by left|by exists old]. Qed.

Lemma refuse_triple {A} e : triple passes (eq d0) (throw e : IO A) (λ _, reached).
Proof. apply triple_throw. intros d <-. by left. Qed.

Lemma update_triple new d1 :
  after = Some new → valid new → holds key old d1 → rooted key new.1 d1 →
  triple passes (eq d1) (writeClaimBaseLocked claimBaseDir key (file_of new)) (λ _, reached).
Proof.
  intros Ha Hv Ho Hr. eapply triple_post; [apply (write_triple _ _ old new); try done|].
  - apply Key_nonempty.
  - by apply Hrep.
  - apply passes_old.
  - intros d Hd. right. by exists new.
  - intros u d Hd. by exists new.
Qed.

(** The value a read answers is the one the store holds. *)
Lemma read_is_old v : reads_as key v d0 → v = old.
Proof. intros Hv. by eapply reads_as_fun; [|apply Hold]. Qed.

Lemma old_rooted : valid old → rooted key old.1 d0.
Proof.
  intros Hv. destruct Hold as [Hr _]. unfold reads_as in Hr. destruct (du_record d0); [|done|].
  - by destruct Hr as [_ ->].
  - by destruct Hr as (f & _ & _ & ?).
Qed.

Lemma begin_triple epoch :
  op = OpBegin epoch → triple passes (eq d0) (BeginClaimBase claimBaseDir issue epoch) (λ _, reached).
Proof.
  intros Hop. unfold BeginClaimBase. rewrite key_ok.
  destruct (Z.leb_spec epoch 0); [apply refuse_triple|].
  eapply triple_bind; [by apply read_triple, passes_old|]. intros [st legacy]. apply triple_pure.
  intros Eold%read_is_old. pose proof old_valid as Hval. pose proof old_rooted as Hroot.
  assert (Ha : after = abs_step (legacy_base key d0) (OpBegin epoch) (st, legacy)).
  { unfold after. by rewrite Hop, Eold. }
  rewrite <- Eold in Hval, Hroot. simpl in Ha.
  destruct (cb_State st) eqn:Est; try apply refuse_triple.
  - destruct Hval as [[= -> ->]|(_ & _ & Hf)]; [|by rewrite Est in Hf].
    eapply triple_bind; [by apply legacy_triple, passes_old|]. intros b. apply triple_pure. intros ->.
    rewrite (proj2 (Z.ltb_lt 0 epoch)) in Ha by done.
    apply (update_triple _ _ Ha); [naive_solver|done|].
    unfold rooted, root_of, legacy_base. simpl. destruct (bool_decide _) eqn:Eb; [done|].
    apply bool_decide_eq_false in Eb. destruct (du_base d0); try done. split; [done|].
    by destruct (du_refs d0 !! (baseRefPrefix +:+ key)).
  - rewrite (proj2 (Z.ltb_lt 0 epoch)) in Ha by done.
    destruct (cb_Epoch st =? epoch); [|apply refuse_triple].
    destruct legacy; [apply refuse_triple|]. apply keep_triple. by rewrite <- Eold.
  - rewrite (proj2 (Z.ltb_lt 0 epoch)) in Ha by done.
    destruct (cb_Epoch st =? epoch) eqn:Ee.
    { destruct legacy; [apply refuse_triple|]. apply keep_triple. by rewrite <- Eold. }
    destruct Hval as [[= -> ->]|Hval]; [done|]. specialize (Hroot Hval).
    destruct Hval as (Hpos & Hl & Hv). rewrite Est in Hv. destruct Hv as (Hb & Ht & _).
    apply (update_triple _ _ Ha); [simpl; naive_solver lia|done|].
    unfold rooted, root_of in *. simpl in *. rewrite Est in Hroot.
    by rewrite bool_decide_eq_false_2, (proj2 (Z.ltb_lt _ _) Hpos) by done.
Qed.

Lemma pin_triple sha target :
  op = OpPin sha target → triple passes (eq d0) (run_op issue op) (λ _, reached).
Proof.
  intros Hop. rewrite Hop. simpl. rewrite key_ok.
  apply (triple_bind _ _ _ _ (λ k d, d = d0 ∧ k = key)).
  { apply (triple_ret _ key). intros d <-. by split; [apply passes_old|]. }
  intros k. apply triple_pure. intros ->.
  eapply triple_bind; [by apply readLocked_triple, passes_old|]. intros st. apply triple_pure.
  intros Eold%read_is_old. pose proof old_valid as Hval. pose proof old_rooted as Hroot.
  assert (Ha : after = abs_step (legacy_base key d0) (OpPin sha target) (st, false)).
  { unfold after. by rewrite Hop, Eold. }
  rewrite <- Eold in Hval, Hroot. unfold pinClaimBaseLocked. simpl in Ha.
  destruct (bool_decide_reflect (cb_State st = ClaimBasePending)) as [Est|]; [|apply refuse_triple].
  destruct Hval as [[= ->]|Hval]; [done|]. specialize (Hroot Hval). simpl.
  destruct (Z.leb_spec (cb_Epoch st) 0); [apply refuse_triple|]. simpl. rewrite Est in Ha.
  destruct (bool_decide_reflect (sha = "")); [apply refuse_triple|]. simpl.
  destruct (bool_decide_reflect (target = "")); [apply refuse_triple|]. simpl in Ha.
  set (d1 := set_refs (partial_alter (λ _, Some sha) (claimBaseRef key (cb_Epoch st)) (du_refs d0)) d0).
  assert (Hold1 : holds key old d1).
  { apply (holds_frame _ _ _ _ Hold); [done|by apply Hold|]. rewrite <- Eold. intros Hr.
    apply (own_ref_free key (st, false)); try done. by rewrite Eold. }
  apply (triple_bind _ _ _ _ (λ _ d, d = d1 ∧ du_base d0 = Dir)).
  { apply triple_wrapping, triple_call; [intros d <-; by apply passes_old|]. intros d r d' <-.
    destruct (du_base d0) eqn:Eb; intros [= <- <-]; (split; [by apply passes_old|]); done. }
  intros _. apply triple_pure. intros Eb. apply (update_triple _ _ Ha); [simpl; naive_solver|done|].
  unfold rooted, root_of. simpl. split; [done|]. by rewrite lookup_partial_alter_eq.
Qed.

(** Removing the record leaves no claim. *)
Lemma remove_triple d1 :
  after = Some (no_claim ClaimBaseAbsent, false) → holds key old d1 →
  triple passes (eq d1) (removeClaimBaseLocked claimBaseDir key) (λ _, reached).
Proof.
  intros Ha Hd1. unfold removeClaimBaseLocked.
  set (d2 := set_record NoFile d1).
  assert (Hd2 : reached d2).
  { exists (no_claim ClaimBaseAbsent, false). split; [done|]. by split; [split; [apply Hd1|]|apply Hd1]. }
  apply (triple_bind _ _ _ _ (λ _, eq d2)).
  { apply triple_wrapping, triple_call; [intros d <-; by left|]. intros d r d' <- [= <- <-].
    split; [by right|done]. }
  intros _. eapply triple_post; [apply triple_wrapping, triple_syscall; intros d <-; by right|].
  by intros u d <-.
Qed.

(** The predecessor of a pending claim comes back as it was. *)
Lemma restore_triple st d1 :
  after = abs_step (legacy_base key d0) OpAbandon (st, false) → cb_State st = ClaimBasePending →
  valid (st, false) → holds key old d1 → rooted key st d1 →
  triple passes (eq d1)
    (if 0 <? cb_OutgoingEpoch st then
       let version := if bool_decide (cb_OutgoingTargetBranch st = "") then legacyClaimVersion
                      else claimBaseVersion in
       writeClaimBaseLocked claimBaseDir key (pinned_file version (cb_OutgoingEpoch st)
         (cb_OutgoingBaseSHA st) (cb_OutgoingTargetBranch st))
     else removeClaimBaseLocked claimBaseDir key) (λ _, reached).
Proof.
  intros Ha Est (Hpos & _ & Hv) Hd1 Hroot. simpl in Ha. rewrite Est in Ha, Hv.
  destruct Hv as (_ & Hge & Hb). unfold rooted, root_of in Hroot. rewrite Est in Hroot.
  destruct (Z.ltb_spec 0 (cb_OutgoingEpoch st)) as [Ho|Ho]; [|by apply remove_triple].
  assert (Hne : cb_OutgoingBaseSHA st ≠ "") by (intros H; apply Hb in H; lia).
  rewrite bool_decide_eq_false_2 in Hroot by done.
  apply (update_triple _ _ Ha); [|done|done].
  simpl. split; [done|]. destruct (bool_decide_reflect (cb_OutgoingTargetBranch st = "")); naive_solver.
Qed.

Lemma abandon_triple :
  op = OpAbandon → triple passes (eq d0) (run_op issue op) (λ _, reached).
Proof.
  intros Hop. rewrite Hop. simpl. unfold AbandonPendingClaimBase. rewrite key_ok.
  eapply triple_bind; [by apply readLocked_triple, passes_old|]. intros st. apply triple_pure.
  intros Eold%read_is_old. pose proof old_valid as Hval. pose proof old_rooted as Hroot.
  assert (Ha : after = abs_step (legacy_base key d0) OpAbandon (st, false)).
  { unfold after. by rewrite Hop, Eold. }
  rewrite <- Eold in Hval, Hroot.
  destruct (bool_decide_reflect (cb_State st = ClaimBasePending)) as [Est|Est]; simpl.
  2:{ apply keep_triple. rewrite Ha, <- Eold. simpl. destruct (cb_State st) eqn:E; try done.
      destruct Hval as [[= ->]|(_ & _ & Hf)]; [done|]. by rewrite E in Hf. }
  destruct Hval as [[= ->]|Hval]; [done|]. specialize (Hroot Hval).
  apply (triple_bind _ _ _ _ (λ _ d, d = d0 ∧ True)).
  { apply triple_wrapping, triple_inspect; [intros d <-; by apply passes_old|]. done. }
  intros present. apply triple_pure. intros _.
  apply (triple_bind _ _ _ _ (λ _ d, holds key old d ∧ rooted key st d)).
  { destruct present; [|apply triple_ret; intros d <-; split; [by apply passes_old|done]].
    apply triple_wrapping, triple_call; [intros d <-; by apply passes_old|]. intros d r d' <-.
    destruct (du_base d0) eqn:Eb; intros [= <- <-]; [by split; [apply passes_old|]..|].
    assert (Hroot1 : rooted key st (set_refs (partial_alter (λ _, None)
      (claimBaseRef key (cb_Epoch st)) (du_refs d0)) d0)).
    { apply (own_ref_free key (st, false)); try done. by rewrite Eold. }
    assert (Hold1 : holds key old (set_refs (partial_alter (λ _, None)
      (claimBaseRef key (cb_Epoch st)) (du_refs d0)) d0)).
    { apply (holds_frame _ _ _ _ Hold); [done|by apply Hold|]. by rewrite <- Eold. }
    by split; [apply passes_old|]. }
  intros _. apply triple_each. intros d [Hd Hrd]. by apply restore_triple.
Qed.

Lemma op_triple : triple passes (eq d0) (run_op issue op) (λ _, reached).
Proof.
  assert (∃ o, op = o) as [[e|sha target|] E] by eauto.
  - rewrite E. by apply begin_triple.
  - by eapply pin_triple.
  - by apply abandon_triple.
Qed.

(** The directories are what the provider made them: a base repository may not be
    there yet, but pinning needs it. *)
Definition healthy (d : durable) : Prop :=
  du_base d ≠ NotADir ∧ match op with OpPin _ _ => du_base d = Dir | _ => True end.

Lemma update_runs new d1 (f : claimBaseFile) :
  after = Some new → valid new → f = file_of new → du_claims d1 ≠ NotADir →
  ∃ d', runs d1 (writeClaimBaseLocked claimBaseDir key f) tt d'.
Proof. intros Ha Hv -> Hc. apply write_runs; [apply Key_nonempty|by apply Hrep|done]. Qed.

Lemma legacy_runs d : du_base d ≠ NotADir → runs d (legacyOutgoingBaseLocked key) (legacy_base key d) d.
Proof.
  intros Hb. unfold legacyOutgoingBaseLocked, legacy_base.
  eapply runs_bind; [by apply runs_wrapping, runs_inspect|]. destruct (du_base d) eqn:E; try done.
  - apply runs_ret.
  - eapply runs_bind; [apply runs_wrapping, runs_inspect; by rewrite E|]. apply runs_ret.
Qed.

Lemma begin_runs epoch v :
  op = OpBegin epoch → after = Some v → claim_wf v → healthy d0 →
  ∃ d', runs d0 (BeginClaimBase claimBaseDir issue epoch) tt d'.
Proof.
  intros Hop Ha Hv [Hb _]. unfold BeginClaimBase. rewrite key_ok.
  pose proof (read_runs key old d0 (proj1 Hold)) as Hread. pose proof (proj2 Hold) as Hc.
  assert (Habs : abs_step (legacy_base key d0) (OpBegin epoch) old = Some v).
  { rewrite <- Ha. unfold after. by rewrite Hop. }
  assert (Hup : ∀ f, v ≠ (no_claim ClaimBaseAbsent, false) → f = file_of v →
    ∃ d', runs d0 (writeClaimBaseLocked claimBaseDir key f) tt d').
  { intros f Hne Hf. destruct Hv as [?|[Hv _]]; [done|]. by apply (update_runs v). }
  destruct (Z.leb_spec epoch 0) as [He|He].
  { exfalso. destruct old as [st legacy]. simpl in Habs.
    rewrite (proj2 (Z.ltb_ge 0 epoch)) in Habs by done. by destruct (cb_State st). }
  eapply runs_then; [exact Hread|]. revert Habs. generalize old. intros [st legacy]. simpl.
  rewrite (proj2 (Z.ltb_lt 0 epoch)) by done.
  destruct (cb_State st) eqn:Est; try done; simpl.
  - intros [= <-]. eapply runs_then; [by apply legacy_runs|]. by apply Hup.
  - destruct (cb_Epoch st =? epoch); [|done]. destruct legacy; [done|]. intros _. eexists. apply runs_ret.
  - destruct (cb_Epoch st =? epoch).
    + destruct legacy; [done|]. intros _. eexists. apply runs_ret.
    + intros [= <-]. by apply Hup.
Qed.

Lemma readLocked_runs st d :
  reads_as key (st, false) d → runs d (readClaimBaseLocked claimBaseDir key) st d.
Proof. intros H. eapply runs_bind; [by apply read_runs|]. apply runs_ret. Qed.

Lemma pin_runs sha target v :
  op = OpPin sha target → after = Some v → claim_wf v → healthy d0 →
  ∃ d', runs d0 (run_op issue op) tt d'.
Proof.
  intros Hop Ha Hv [_ Hb]. rewrite Hop in Hb |- *. simpl. rewrite key_ok.
  assert (Habs : abs_step (legacy_base key d0) (OpPin sha target) old = Some v).
  { rewrite <- Ha. unfold after. by rewrite Hop. }
  eapply runs_then; [apply (runs_ret _ key)|]. pose proof old_valid as Hval. pose proof (proj1 Hold) as Hread.
  revert Habs Hval Hread. generalize old. intros [st legacy]. simpl.
  destruct (cb_State st) eqn:Est; try done. destruct legacy; [done|]. simpl.
  destruct (bool_decide_reflect (sha = "")); [done|]. destruct (bool_decide_reflect (target = "")); [done|].
  simpl. intros [= <-] [[= ->]|(Hpos & _)] Hread; [done|].
  eapply runs_then; [by apply readLocked_runs|]. unfold pinClaimBaseLocked.
  rewrite Est, (bool_decide_eq_false_2 (sha = "")), (bool_decide_eq_false_2 (target = "")),
    (proj2 (Z.leb_gt _ _) Hpos) by done. simpl.
  eapply runs_then; [apply runs_wrapping, runs_call; by rewrite Hb|].
  eapply update_runs; [exact Ha| |done|by apply Hold]. by destruct Hv as [?|[? _]].
Qed.

Lemma abandon_runs v :
  op = OpAbandon → after = Some v → claim_wf v → healthy d0 →
  ∃ d', runs d0 (run_op issue op) tt d'.
Proof.
  intros Hop Ha Hv [Hb _]. rewrite Hop. simpl. unfold AbandonPendingClaimBase. rewrite key_ok.
  assert (Habs : abs_step (legacy_base key d0) OpAbandon old = Some v).
  { rewrite <- Ha. unfold after. by rewrite Hop. }
  pose proof (proj1 Hold) as Hread. revert Habs Hread. generalize old. intros [st legacy]. simpl.
  destruct legacy; [by destruct (cb_State st)|]. intros Habs Hread.
  eapply runs_then; [by apply readLocked_runs|].
  destruct (bool_decide_reflect (cb_State st = ClaimBasePending)) as [Est|Est]; simpl;
    [|eexists; apply runs_ret].
  rewrite Est in Habs. eapply runs_then; [by apply runs_wrapping, runs_inspect|].
  assert (Hfin : ∀ d, du_claims d = du_claims d0 → ∃ d', runs d
    (if 0 <? cb_OutgoingEpoch st then
       let version := if bool_decide (cb_OutgoingTargetBranch st = "") then legacyClaimVersion
                      else claimBaseVersion in
       writeClaimBaseLocked claimBaseDir key (pinned_file version (cb_OutgoingEpoch st)
         (cb_OutgoingBaseSHA st) (cb_OutgoingTargetBranch st))
     else removeClaimBaseLocked claimBaseDir key) tt d').
  { intros d Hd. destruct (0 <? cb_OutgoingEpoch st).
    - eapply update_runs; [exact Ha| | |rewrite Hd; apply Hold].
      + destruct Hv as [->|[? _]]; done.
      + by injection Habs as <-.
    - eexists. eapply runs_bind; [by apply runs_wrapping, runs_call|]. by apply runs_wrapping, runs_syscall. }
  destruct (du_base d0) eqn:E; try done.
  - eapply runs_then; [apply runs_ret|]. by apply Hfin.
  - eapply runs_then; [apply runs_wrapping, runs_call; by rewrite E|]. by apply Hfin.
Qed.

Lemma op_runs v :
  after = Some v → claim_wf v → healthy d0 → ∃ d', runs d0 (run_op issue op) tt d'.
Proof.
  assert (∃ o, op = o) as [[e|sha target|] E] by eauto; intros.
  - rewrite E. by eapply begin_runs.
  - by eapply pin_runs.
  - by eapply abandon_runs.
Qed.
End operation.

(** C18: the claim-base operations of an issue are atomic and crash safe. Begin, pin and
    abandon refine a machine whose whole state is the claim base a reader sees.
    Whichever calls fail, before or after taking effect, and so wherever a crash
    falls, every durable state the operation goes through reads either as the claim
    base before it or as the machine's result, never as a mixture, an unreadable
    record or a base whose reachability ref is gone. An operation that reports success
    reached the result; one the machine refuses never reports success; and one the
    machine allows does succeed when no call fails. Results are again well formed. *)
Theorem claim_base_refines issue op old w r w' :
  let key := Key (is_Identifier issue) in
  let after := abs_step (legacy_base key (wd_now w)) op old in
  is_Identifier issue ≠ "" → op_in_range op → claim_wf old → holds key old (wd_now w) →
  (∀ v, after = Some v → valid v → record_representable (file_of v)) →
  run_op issue op w = (r, w') →
  (∃ l, wd_past w' = l ++ wd_past w
        ∧ Forall (λ d, holds key old d ∨ ∃ v, after = Some v ∧ claim_wf v ∧ holds key v d) (wd_now w' :: l))
  ∧ (r = Ok tt → ∃ v, after = Some v ∧ holds key v (wd_now w'))
  ∧ (wd_faults w = [] → healthy op (wd_now w) → after ≠ None → r = Ok tt).
Proof.
  intros key after Hid Hop Hwf Hold Hrep Hrun.
  assert (Hw : ∀ v, after = Some v → claim_wf v) by (intros v; by apply abs_step_wf).
  destruct (op_triple issue old (wd_now w) op Hid Hwf Hold Hrep w r w' eq_refl Hrun)
    as (l & Hl & Hall & Hnow & Hok).
  assert (Hin : ∀ d, passes issue old (wd_now w) op d →
    holds key old d ∨ ∃ v, after = Some v ∧ claim_wf v ∧ holds key v d).
  { intros d [?|(v & Hv & ?)]; [by left|]. right. exists v. auto. }
  split; [|split].
  - exists l. split; [done|]. constructor; [by apply Hin|]. eapply Forall_impl; [exact Hall|]. exact Hin.
  - intros Hr. by apply (Hok tt).
  - intros Hf Hh Ha. assert (∃ v, after = Some v) as [v E] by (clear -Ha; destruct after; [eauto|done]).
    destruct (op_runs issue old (wd_now w) op Hid Hwf Hold Hrep v E (Hw v E) Hh) as [d' Hd].
    destruct w as [d past faults]. simpl in *. subst faults. destruct (Hd past) as [past' Hd'].
    rewrite Hd' in Hrun. by injection Hrun as <- _.
Qed.

(** ** Publication facts *)

Section facts.
Context (is_ancestor : string → string → bool) (ls_remote : string → string).
Context (fetchRemoteRef : string → string → IO string).

Let publish_facts := Provider_PublishFacts claimBaseDir is_ancestor ls_remote fetchRemoteRef.

Definition pinned_for (ws : Workspace) : ClaimBase :=
  MkClaimBase ClaimBasePinned (ws_ClaimEpoch ws) (ws_BaseSHA ws) (ws_TargetBranch ws) 0 "" "".

Lemma validateClaim_Ok ws w u w1 :
  validateWorkspaceClaimBaseLocked claimBaseDir ws w = (Ok u, w1) →
  wd_now w1 = wd_now w ∧ reads_as (ws_Key ws) (pinned_for ws, false) (wd_now w).
Proof.
  intros H. apply io_bind_Ok in H as (st & w2 & H1 & H2).
  destruct (readLocked_triple (λ _, True) (ws_Key ws) (wd_now w) Logic.I w _ w2 eq_refl H1) as (l & _ & _ & _ & Hq).
  destruct (Hq st eq_refl) as [Hn Hr]. split_match_in H2; [done|]. injection H2 as _ <-. split; [done|].
  destruct (decide (cb_State st = ClaimBasePinned)) as [Es|];
    [|by rewrite (bool_decide_eq_false_2 (cb_State st = _)) in Heqb by done].
  split_bools. assert (Hep : cb_Epoch st = ws_ClaimEpoch ws) by (by apply Z.eqb_eq).
  assert (Hv : valid (st, false)).
  { unfold reads_as in Hr. destruct (du_record (wd_now w)); [|done|].
    - destruct Hr as [_ [= ->]]. done.
    - destruct Hr as (f & _ & Hp & _). by apply project_valid in Hp. }
  assert (st = pinned_for ws) as <-; [|done]. destruct st as [sta ep ba ta oe ob ot]. simpl in *. subst.
  destruct Hv as (_ & _ & _ & _ & -> & -> & ->). done.
Qed.

Lemma localFacts_Ok ws w lf w1 :
  localBranchFactsLocked is_ancestor ws w = (Ok lf, w1) →
  ws_BaseSHA ws ≠ "" ∧ lb_BaseSHA lf = ws_BaseSHA ws
  ∧ match du_refs (wd_now w) !! ("refs/heads/" +:+ ws_Branch ws) with
    | Some head => lb_Head lf = head ∧ lb_DescendsBase lf = is_ancestor (ws_BaseSHA ws) head
    | None => lb_Head lf = ""
    end.
Proof.
  unfold localBranchFactsLocked, localBranchFactsAgainstLocked. intros H.
  apply io_bind_Ok in H as (u & w0 & Hv & H). injection Hv as _ <-.
  split_match_in H; [done|]. apply orb_false_iff in Heqb as [_ Hb]. split_bools.
  apply io_bind_Ok in H as (head & w2 & H1 & H2).
  apply io_wrapping_Ok, io_inspect_Ok in H1 as [H1 Hn]. split; [done|].
  destruct (du_base (wd_now w)); try done. injection H1 as ->.
  destruct head as [head|]; [|by injection H2 as <- <-].
  apply io_bind_Ok in H2 as (b & w3 & H2 & H3). injection H3 as <- <-.
  apply io_wrapping_Ok, io_inspect_Ok in H2 as [H2 _]. destruct (du_base (wd_now w2)); try done.
  by injection H2 as <-.
Qed.

(** What the provider's facts say of the store and of the object graph. *)
Lemma provider_facts ws w f w1 :
  publish_facts ws w = (Ok f, w1) →
  reads_as (ws_Key ws) (pinned_for ws, false) (wd_now w)
  ∧ (AdvancedPastBase f (ws_BaseSHA ws) = true →
     du_refs (wd_now w) !! ("refs/heads/" +:+ ws_Branch ws) = Some (pf_Head f)
     ∧ is_ancestor (ws_BaseSHA ws) (pf_Head f) = true)
  ∧ pf_RemoteProbed f = AdvancedPastBase f (ws_BaseSHA ws)
  ∧ (pf_RemoteHasHead f = true → is_ancestor (pf_Head f) (pf_RemoteHead f) = true).
Proof.
  unfold publish_facts, Provider_PublishFacts. intros H.
  apply io_bind_Ok in H as (u & w0 & Hv & H). injection Hv as _ <-.
  apply io_bind_Ok in H as (u' & w2 & [Hn Hr]%validateClaim_Ok & H).
  apply io_bind_Ok in H as (lf & w3 & (Hb & Hbase & Hl)%localFacts_Ok & H). rewrite Hn in Hl.
  split; [done|]. set (fl := MkFacts (lb_Head lf) "" false (lb_DescendsBase lf) false) in *.
  assert (Hadv : AdvancedPastBase fl (ws_BaseSHA ws) = true →
    du_refs (wd_now w) !! ("refs/heads/" +:+ ws_Branch ws) = Some (lb_Head lf)
    ∧ is_ancestor (ws_BaseSHA ws) (lb_Head lf) = true).
  { intros (Hne & _ & Hd)%advancedPastBase_spec. simpl in *.
    destruct (du_refs (wd_now w) !! _); [|done]. destruct Hl as [<- <-]. done. }
  destruct (AdvancedPastBase fl (ws_BaseSHA ws)) eqn:E; simpl in H.
  2:{ injection H as <- _. rewrite E. done. }
  assert (Hf : ∀ r p h, AdvancedPastBase (MkFacts (lb_Head lf) r p (lb_DescendsBase lf) h) (ws_BaseSHA ws) = true)
    by (intros; exact E).
  apply io_bind_Ok in H as (remote & w4 & _ & H).
  split_match_in H; [injection H as <- _; by rewrite Hf|].
  apply io_bind_Ok in H as (has & w5 & H1 & H). injection H as <- _. simpl.
  apply io_wrapping_Ok, io_inspect_Ok in H1 as [H1 _]. destruct (du_base (wd_now w4)); try done.
  injection H1 as <-. by rewrite Hf.
Qed.

#[local] Instance provider : Workspaces world :=
  provider_workspaces claimBaseDir is_ancestor ls_remote fetchRemoteRef.

(** The provider keeps the promise the verifier relies on. *)
#[local] Instance provider_laws : WorkspacesLaws.
Proof. intros ws w f w' H Ha. apply provider_facts in H as (_ & _ & -> & _). done. Qed.

Context `{!Tracker world}.

(** C19: a publication verdict rests on durable and reachable facts. When the verifier
    runs on this provider, "published" means that at the time of asking the store
    pinned exactly the workspace's epoch, base and target with the base still
    reachable through its ref, the local branch's head is a commit other than the
    base that descends from it, the head fetched from origin contains it, and the
    tracker then returned an open pull request of that branch against that target.
    The verifier's errors are then only a missing target, a failed read of the
    evidence, a failed tracker lookup, or a pull request it refuses: the guard
    against facts that never looked at origin is never hit. *)
Theorem publication_grounded issue ws w r w' :
  Verify issue ws w = (r, w') →
  match r with
  | Ok res =>
      res_Verdict res = VerdictPublished →
      reads_as (ws_Key ws) (pinned_for ws, false) (wd_now w)
      ∧ ∃ head remote pr w1,
          du_refs (wd_now w) !! ("refs/heads/" +:+ ws_Branch ws) = Some head
          ∧ head ≠ ws_BaseSHA ws ∧ is_ancestor (ws_BaseSHA ws) head = true
          ∧ remote ≠ "" ∧ is_ancestor head remote = true
          ∧ FindPR issue (ws_Branch ws) w1 = (Ok (Some pr), w') ∧ local_pr_evidence ws pr
          ∧ res_PRURL res = pr_URL pr
  | Err e =>
      (ws_TargetBranch ws = "" ∧ e = ErrTargetBranchMissing)
      ∨ (∃ e0, publish_facts ws w = (Err e0, w'))
      ∨ ∃ f w1, publish_facts ws w = (Ok f, w1)
          ∧ ((∃ e0, FindPR issue (ws_Branch ws) w1 = (Err e0, w'))
             ∨ ∃ pr, FindPR issue (ws_Branch ws) w1 = (Ok (Some pr), w') ∧ leg3 ws (Some pr) = Err e)
  end.
Proof.
  destruct r as [res|e]; intros H; [|by apply Verify_Err in H].
  intros Hp. destruct (Verify_published _ _ _ _ _ H Hp)
    as (f & w1 & pr & Hf & (Hadv & _ & Hrem & Hhas) & Hpr & Hev & ->).
  destruct (provider_facts _ _ _ _ Hf) as (Hr & Hl & _ & Hanc). destruct (Hl Hadv) as [Hhead Hb].
  split; [done|]. apply advancedPastBase_spec in Hadv as (_ & Hne & _).
  exists (pf_Head f), (pf_RemoteHead f), pr, w1. auto 10.
Qed.
End facts.
End claims.

(** ** Concrete runs *)

Module Examples.

Definition pinned7 : ClaimBase * bool := (MkClaimBase ClaimBasePinned 7 "base0" "main" 0 "" "", false).
Definition pending9 : ClaimBase * bool := (MkClaimBase ClaimBasePending 9 "" "" 7 "base0" "main", false).

(** A codec of these two records. *)
#[local] Instance two_records : RecordCodec.
Proof.
  refine {|
    record_Marshal f := Ok (if bool_decide (f = file_of pinned7) then "pinned7" else "pending9");
    record_Decode s := if bool_decide (s = "pinned7") then Ok (file_of pinned7)
                       else if bool_decide (s = "pending9") then Ok (file_of pending9)
                       else Err (errorf "invalid character");
    record_representable f := f = file_of pinned7 ∨ f = file_of pending9 |}.
  - eauto.
  - intros f b [-> | ->]; intros [= <-]; vm_compute; reflexivity.
Defined.

Definition issue42 : Issue := MkIssue "42" "" "" [] "open" [] [] "" 0 0 "" true.
Definition ws42 : Workspace := MkWorkspace (MkPaths "" "" "") "42" "ben/42" 7 "base0" "main" true false.

Definition store : durable :=
  MkDurable (File "pinned7") Dir Dir
    (<["refs/ben/claim-base/42/7" := "base0"]> (<["refs/heads/ben/42" := "head1"]> ∅)).

Lemma store_holds : holds (T := ascii_tables) "42" pinned7 store.
Proof.
  split; [|done]. exists (file_of pinned7).
  split; [vm_compute; reflexivity|]. split; [vm_compute; reflexivity|].
  split; vm_compute; reflexivity.
Qed.

(** A new claim whose last call, the sync after the rename, fails. *)
Definition failing : world := MkWorld store [] (repeat None 9 ++ [Some (FailsBefore (errorf "disk"))]).

Lemma claim_base_refines_witness :
  fst (run_op (T := ascii_tables) "claims" "base.git" issue42 (OpBegin 9) failing)
    = Err (because ErrClaimBaseState "syncing claim-base store" (errorf "disk"))
  ∧ Forall (λ d, holds (T := ascii_tables) "42" pinned7 d ∨ ∃ v, claim_wf v ∧ holds (T := ascii_tables) "42" v d)
      [wd_now (snd (run_op (T := ascii_tables) "claims" "base.git" issue42 (OpBegin 9) failing))].
Proof.
  split; [vm_compute; reflexivity|].
  destruct (claim_base_refines (T := ascii_tables) "claims" "base.git" issue42 (OpBegin 9) pinned7 failing
    _ _ ltac:(done) ltac:(vm_compute; discriminate)
    ltac:(right; repeat split; simpl; try done; try lia; vm_compute; discriminate)
    store_holds
    ltac:(intros v [= <-] _; right; vm_compute; reflexivity)
    (surjective_pairing _)) as [(l & _ & Hall) _].
  apply Forall_singleton. apply Forall_inv in Hall as [Hall|(v & _ & Hv & Hd)]; [by left|right].
  exists v. split; [exact Hv|exact Hd].
Defined.

(** Origin carries the branch one commit further. *)
Definition ancestry (a b : string) : bool :=
  bool_decide (a = b) || bool_decide ((a, b) = ("base0", "head1")) || bool_decide ((a, b) = ("head1", "head2")).
Definition origin (ref : string) : string := "head2" +:+ str1 9 +:+ ref +:+ nl.
Definition fetch (ref cache : string) : IO string := mret "head2".
Definition pr9 : PR := MkPullRequest 9 "https://f/9" "open" "ben/42" "main".
#[local] Instance forge : Tracker world := {| FindPR _ _ := λ w, (Ok (Some pr9), w) |}.

Definition asked : result Result * world :=
  Verify (T := ascii_tables) (Workspaces0 := provider (T := ascii_tables) "claims" ancestry origin fetch)
    issue42 ws42 (MkWorld store [] []).

Lemma publication_grounded_witness :
  fst asked = Ok (MkResult VerdictPublished "https://f/9" "")
  ∧ ∃ head, du_refs store !! "refs/heads/ben/42" = Some head ∧ ancestry "base0" head = true.
Proof.
  assert (H : fst asked = Ok (MkResult VerdictPublished "https://f/9" "")) by (vm_compute; reflexivity).
  split; [exact H|].
  pose proof (publication_grounded (T := ascii_tables) "claims" ancestry origin fetch
    issue42 ws42 (MkWorld store [] []) (fst asked) (snd asked) (surjective_pairing asked)) as G.
  rewrite H in G. destruct (G eq_refl) as (_ & head & remote & pr & w1 & Hh & _ & Ha & _).
  exists head. split; [exact Hh|exact Ha].
Defined.
End Examples.
