(* ===== verification/Sha256.v ===== *)
(** * Sha256: the [crypto/sha256] the program fingerprints with

    The standard's compression function on 32-bit words held in [Z], over whole
    messages as [sha256.Sum256] and a hash written to in pieces compute it. *)

From Stdlib Require Import Ascii.
From S2P Require Import Prelude GoStd.

Definition word (z : Z) : Z := z mod 2 ^ 32.
Definition rotr (n x : Z) : Z := Z.lor (Z.shiftr x n) (word (Z.shiftl x (32 - n))).

(** The greatest number of at most [n] bits above [r] whose [k]th power is at most [z]. *)
Fixpoint root_from (k : Z) (n : nat) (r z : Z) : Z :=
  match n with
  | O => r
  | S n' => let r' := r + 2 ^ Z.of_nat n' in root_from k n' (if r' ^ k <=? z then r' else r) z
  end.

Definition primes : list Z :=
  filter (λ n, forallb (λ d, negb (n mod d =? 0)) (seqZ 2 (n - 2)) = true) (seqZ 2 310).

(** The first 32 fractional bits of the cube roots of the first 64 primes, and of the
    square roots of the first eight. *)
Definition round_constants : list Z := Eval vm_compute in (λ p, word (root_from 3 36 0 (p * 2 ^ 96))) <$> primes.
Definition initial_state : list Z := Eval vm_compute in (λ p, word (root_from 2 36 0 (p * 2 ^ 64))) <$> firstn 8 primes.

Fixpoint bytes_of (s : string) : list Z :=
  match s with EmptyString => [] | String c s' => byte_val c :: bytes_of s' end.

(** [n] bytes of a number, most significant first. *)
Fixpoint big_endian (n : nat) (z : Z) : list Z :=
  match n with O => [] | S n' => big_endian n' (z / 256) ++ [z mod 256] end.

(** The message, a one bit, zeroes and the length in bits, in whole blocks. *)
Definition padded (m : list Z) : list Z :=
  let len := Z.of_nat (length m) in
  m ++ 128 :: repeat 0 (Z.to_nat ((55 - len) mod 64)) ++ big_endian 8 (8 * len).

Fixpoint words (m : list Z) : list Z :=
  match m with
  | a :: b :: c :: d :: m' => a * 2 ^ 24 + b * 2 ^ 16 + c * 2 ^ 8 + d :: words m'
  | _ => []
  end.

(** The message schedule, newest word first. *)
Fixpoint schedule (n : nat) (w : list Z) : list Z :=
  match n with
  | O => w
  | S n' =>
      let w := schedule n' w in
      let at_ i := nth i w 0 in
      let s0 := Z.lxor (Z.lxor (rotr 7 (at_ 14%nat)) (rotr 18 (at_ 14%nat))) (Z.shiftr (at_ 14%nat) 3) in
      let s1 := Z.lxor (Z.lxor (rotr 17 (at_ 1%nat)) (rotr 19 (at_ 1%nat))) (Z.shiftr (at_ 1%nat) 10) in
      word (at_ 15%nat + s0 + at_ 6%nat + s1) :: w
  end.

Definition round (st : list Z) (kw : Z * Z) : list Z :=
  match st with
  | [a; b; c; d; e; f; g; h] =>
      let s1 := Z.lxor (Z.lxor (rotr 6 e) (rotr 11 e)) (rotr 25 e) in
      let ch := Z.lxor (Z.land e f) (Z.land (word (Z.lnot e)) g) in
      let t1 := h + s1 + ch + kw.1 + kw.2 in
      let s0 := Z.lxor (Z.lxor (rotr 2 a) (rotr 13 a)) (rotr 22 a) in
      let maj := Z.lxor (Z.lxor (Z.land a b) (Z.land a c)) (Z.land b c) in
      [word (t1 + s0 + maj); a; b; c; word (d + t1); e; f; g]
  | _ => st
  end.

Definition compress (st : list Z) (block : list Z) : list Z :=
  let w := rev (schedule 48 (rev block)) in
  zip_with (λ x y, word (x + y)) st (foldl round st (zip round_constants w)).

Fixpoint blocks (fuel : nat) (w : list Z) : list (list Z) :=
  match fuel, w with
  | O, _ | _, [] => []
  | S fuel', _ => firstn 16 w :: blocks fuel' (skipn 16 w)
  end.

(** The eight words of the digest. *)
Definition sha256_words (m : string) : list Z :=
  let w := words (padded (bytes_of m)) in
  foldl compress initial_state (blocks (length w) w).

(** The 32 bytes of [sha256.Sum256]. *)
Definition sha256 (m : string) : list Z := sha256_words m ≫= big_endian 4.

(** [hex.EncodeToString] of bytes. *)
Definition hex_encode (l : list Z) : string := foldr (λ b acc, hex 2 b +:+ acc) "" l.

Example sha256_abc :
  hex_encode (sha256 "abc") = "ba7816bf8f01cfea414140de5dae2223b00361a396177a9cb410ff61f20015ad"
  ∧ hex_encode (sha256 "") = "e3b0c44298fc1c149afbf4c8996fb92427ae41e4649b934ca495991b7852b855"
  ∧ hex_encode (sha256 "abcdbcdecdefdefgefghfghighijhijkijkljklmklmnlmnomnopnopq")
    = "248d6a61d20638b8e5c026930c3e6039a33ce45964ff2167f6ecedd419db06c1".
Proof. vm_compute. done. Qed.
