(* ===== verification/Remote.v ===== *)
(** * Remote: identities, statuses and the event stream of a remote run

    Models the pure parts of [internal/remote]: claim cycles and process references
    ([workspace.go], [process.go]), leases ([lease.go]), the reconnect policy
    ([reconnect.go]), retention gaps ([retention.go]), the replay filter
    ([cursor.go]), the framing of provider output and the reconciliation of a
    recovered inbox ([attempt.go]). *)

From S2P Require Import Prelude GoStd Sha256 Core.

(** ** Refusals *)

Definition ErrNoWorkspace : error := errors_New "remote: no workspace for this claim cycle".
Definition ErrNotQuiet : error :=
  errors_New "remote: run termination is unconfirmed; the workspace may not be touched".
Definition ErrClaimMismatch : error :=
  errors_New "remote: operation names a different claim cycle than the durable record".
Definition ErrNoRunID : error :=
  errors_New "remote: run identity must be persisted before a start is attempted".
Definition ErrNoProcess : error := errors_New "remote: backend has no process for this reference".
Definition ErrProcessUnresolved : error := errors_New "remote: process start outcome is unresolved".
Definition ErrReplayUnavailable : error := errors_New "remote: process start replay input is unavailable".
Definition ErrProcessRefused : error :=
  errors_New "remote: backend refused to admit the process; nothing was started".
Definition ErrProcessMismatch : error :=
  errors_New "remote: process reference does not match the durable request".
Definition ErrAlreadyStarted : error :=
  errors_New "remote: this run identity has already been dispatched".
Definition ErrEventGap : error := errors_New "remote: backend event sequence has a gap".
Definition ErrRetentionGap : error :=
  errors_New "remote: backend event retention expired under the cursor".
Definition ErrEventConflict : error :=
  errors_New "remote: backend replayed a sequence with a different payload".
Definition ErrFrameTooLarge : error :=
  errors_New "remote: provider stream line exceeds the framing limit".
Definition ErrIdentityMissing : error :=
  errors_New "remote: durable record has an incomplete workspace identity".
Definition ErrHookFailed : error := errors_New "remote: lifecycle hook failed".
Definition ErrHookMismatch : error :=
  errors_New "remote: hook reference does not match the durable request".
Definition ErrNoRecord : error := errors_New "remote: no durable record for this claim cycle".

(** ** Claim cycles and process references *)

Record Claim := MkClaim { cl_Repository : string; cl_Issue : string; cl_Epoch : Z }.

Definition Claim_Valid (c : Claim) : bool :=
  negb (bool_decide (cl_Repository c = "")) && negb (bool_decide (cl_Issue c = "")) && (0 <? cl_Epoch c).

Definition Claim_String (c : Claim) : string :=
  cl_Repository c +:+ "#" +:+ cl_Issue c +:+ "@" +:+ itoa (cl_Epoch c).

Record Identity := MkIdentity {
  id_Claim : Claim;
  id_Branch : string;
  id_BaseSHA : string;
  id_SandboxID : string;
  id_ProfileRevision : string;
}.

Definition Identity_Complete (i : Identity) : bool :=
  Claim_Valid (id_Claim i) && negb (bool_decide (id_Branch i = "")) && negb (bool_decide (id_BaseSHA i = ""))
  && negb (bool_decide (id_SandboxID i = "")) && negb (bool_decide (id_ProfileRevision i = "")).

Record ProcessRef := MkRef { pr_Identity : Identity; pr_RunID : string; pr_RequestDigest : string }.

Definition Ref_Complete (r : ProcessRef) : bool :=
  Identity_Complete (pr_Identity r) && negb (bool_decide (pr_RunID r = ""))
  && negb (bool_decide (pr_RequestDigest r = "")).

Definition Ref_String (r : ProcessRef) : string :=
  id_SandboxID (pr_Identity r) +:+ "/" +:+ pr_RunID r +:+ "@" +:+ pr_RequestDigest r.

#[export] Instance Claim_eq_dec : EqDecision Claim.
Proof. solve_decision. Defined.
#[export] Instance Identity_eq_dec : EqDecision Identity.
Proof. solve_decision. Defined.
#[export] Instance ProcessRef_eq_dec : EqDecision ProcessRef.
Proof. solve_decision. Defined.

(** [fullSHA]: forty lower-case hexadecimal digits. *)
Definition fullSHA (value : string) : bool :=
  (str_len value =? 40) && forallb (λ r, in_range 48 57 r || in_range 97 102 r) (runes value).

Definition GitPhasePrepare : string := "prepare".
Definition GitPhaseCoding : string := "coding".
Definition GitPhasePublish : string := "publish".
Definition GitPhaseReview : string := "review".

Record GitScope := MkScope {
  gs_Phase : string;
  gs_Repository : string;
  gs_Branch : string;
  gs_BaseCommit : string;
  gs_BaseBranch : string;
  gs_CheckoutCommit : string;
  gs_Operation : string;
}.

#[export] Instance GitScope_eq_dec : EqDecision GitScope.
Proof. solve_decision. Defined.

Definition no_scope : GitScope := MkScope "" "" "" "" "" "" "".
Definition Scope_Empty (s : GitScope) : bool := bool_decide (s = no_scope).

Definition Scope_Validate `{GoTables} (s : GitScope) : result unit :=
  if Scope_Empty s then Ok tt
  else if bool_decide (gs_Repository s = "") || bool_decide (gs_Branch s = "")
          || bool_decide (gs_BaseBranch s = "") || negb (fullSHA (gs_BaseCommit s))
  then Err (errorf "remote: incomplete Git scope")
  else if bool_decide (gs_Phase s = GitPhasePrepare) then
    if negb (fullSHA (gs_CheckoutCommit s)) || negb (bool_decide (gs_Operation s = ""))
    then Err (errorf "remote: invalid prepare Git scope") else Ok tt
  else if bool_decide (gs_Phase s = GitPhasePublish) then
    if negb (bool_decide (gs_CheckoutCommit s = "")) || bool_decide (gs_Operation s = "")
    then Err (errorf "remote: invalid publish Git scope") else Ok tt
  else if bool_decide (gs_Phase s = GitPhaseCoding) || bool_decide (gs_Phase s = GitPhaseReview) then
    if negb (bool_decide (gs_CheckoutCommit s = "")) || negb (bool_decide (gs_Operation s = ""))
    then Err (errorf ("remote: invalid " +:+ gs_Phase s +:+ " Git scope")) else Ok tt
  else Err (errorf ("remote: invalid Git phase " +:+ quote (gs_Phase s))).

(** ** Statuses

    The one-byte enumerations of a backend's answer are numbers here, as a value the
    code has no name for reaches it too. *)

Definition PhaseSignaled : Z := 3.
Definition StreamStateSealed : Z := 2.
Definition ProcessStateReaped : Z := 2.
Definition DomainStateUnknown : Z := 0.
Definition DomainStateQuiet : Z := 2.

Record Status := MkStatus {
  ps_Phase : Z;
  ps_Stream : Z;
  ps_Process : Z;
  ps_Domain : Z;
  ps_BackendRunID : string;
  ps_Reachable : bool;
}.

Inductive Termination := TerminationUnconfirmed | TerminationConfirmed.

#[export] Instance Termination_eq_dec : EqDecision Termination.
Proof. solve_decision. Defined.

Definition Status_Termination (s : Status) : Termination :=
  if ps_Reachable s && (ps_Domain s =? DomainStateQuiet) then TerminationConfirmed
  else TerminationUnconfirmed.

Definition Reaped (s : Status) : bool := ps_Reachable s && (ps_Process s =? ProcessStateReaped).

Definition MayReuse (s : Status) : bool := bool_decide (Status_Termination s = TerminationConfirmed).

(** ** The reconnect policy, in nanoseconds *)

Definition DefaultReconnectInitial : Z := 500 * 10 ^ 6.
Definition DefaultReconnectMax : Z := 15 * 10 ^ 9.
Definition DefaultReconnectBudget : Z := 5 * 60 * 10 ^ 9.

Record ReconnectPolicy := MkPolicy { rp_Initial : Z; rp_Max : Z; rp_Budget : Z }.

Definition withDefaults (p : ReconnectPolicy) : ReconnectPolicy :=
  let initial := if rp_Initial p <=? 0 then DefaultReconnectInitial else rp_Initial p in
  let max := if rp_Max p <=? 0 then DefaultReconnectMax else rp_Max p in
  let max := if max <? initial then initial else max in
  let budget := if rp_Budget p <=? 0 then DefaultReconnectBudget else rp_Budget p in
  MkPolicy initial max budget.

(** [time.Duration] arithmetic, at its 64 bits. *)
Definition wrap_duration (z : Z) : Z := (z + 2 ^ 63) mod 2 ^ 64 - 2 ^ 63.

Fixpoint delay_loop (max : Z) (n : nat) (d : Z) : Z :=
  match n with
  | O => d
  | S n' => if d <? max then delay_loop max n' (wrap_duration (d * 2)) else d
  end.

Definition delay (p : ReconnectPolicy) (n : Z) : Z :=
  let d := delay_loop (rp_Max p) (Z.to_nat (n - 1)) (rp_Initial p) in
  if rp_Max p <? d then rp_Max p else d.

Record reconnectState := MkOutage { rs_attempts : Z; rs_spent : Z }.
Definition outage_reset : reconnectState := MkOutage 0 0.

(** ** Retention gaps *)

Record EventGap := MkGap { gap_From : Z; gap_To : Z }.

#[export] Instance EventGap_eq_dec : EqDecision EventGap.
Proof. solve_decision. Defined.

Definition Gap_String (g : EventGap) : string :=
  "[" +:+ itoa (gap_From g) +:+ ", " +:+ itoa (gap_To g) +:+ "]".
Definition Gap_Valid (g : EventGap) : bool := (1 <=? gap_From g) && (gap_From g <=? gap_To g).
Definition Gap_Contains (g : EventGap) (seq : Z) : bool := (gap_From g <=? seq) && (seq <=? gap_To g).

Record RetentionGap := MkRetention { rg_RequestedAfter : Z; rg_OldestAvailable : Z; rg_Cause : option error }.

(** [RetentionGap.Range] of a non-nil gap. *)
Definition Range (g : RetentionGap) : option EventGap :=
  if (rg_RequestedAfter g <? 0) || (rg_RequestedAfter g =? max_int64) || (rg_OldestAvailable g <=? 0) then None
  else
    let from := rg_RequestedAfter g + 1 in
    if rg_OldestAvailable g <=? from then None
    else
      let gap := MkGap from (rg_OldestAvailable g - 1) in
      if negb (Gap_Valid gap) then None else Some gap.

Definition Retention_Error (g : RetentionGap) : string :=
  err_text ErrRetentionGap +:+ ": requested events after " +:+ itoa (rg_RequestedAfter g)
  +:+ ", oldest retained is " +:+ itoa (rg_OldestAvailable g)
  +:+ match rg_Cause g with Some c => ": " +:+ err_text c | None => "" end.

(** ** The replay filter *)

Definition StreamControl : Z := 0.
Definition StreamStdout : Z := 1.
Definition StreamStderr : Z := 2.

Record Envelope := MkEnvelope { ev_Seq : Z; ev_Stream : Z; ev_Payload : string; ev_Truncated : bool }.

#[export] Instance Envelope_eq_dec : EqDecision Envelope.
Proof. solve_decision. Defined.

Definition envelopeDigest (env : Envelope) : list Z :=
  sha256 (str1 (ev_Stream env) +:+ (if ev_Truncated env then str1 1 else str1 0) +:+ ev_Payload env).

Record Sequencer := MkSequencer {
  sq_admitted : Z;
  sq_committed : Z;
  sq_digests : gmap Z (list Z);
  sq_gaps : list EventGap;
}.

Definition NewSequencer (cursor : Z) : Sequencer := MkSequencer cursor cursor ∅ [].

(** The ranges are usable, ascending and within the cursor. *)
Fixpoint check_gaps (committed : Z) (prev : option EventGap) (gaps : list EventGap) : result unit :=
  match gaps with
  | [] => Ok tt
  | gap :: rest =>
      if negb (Gap_Valid gap)
      then Err (errorf_w ErrEventGap (": accepted retention range " +:+ Gap_String gap +:+ " is unusable"))
      else
        let overlaps := match prev with Some p => gap_From gap <=? gap_To p | None => false end in
        if overlaps
        then Err (errorf_w ErrEventGap (": accepted retention ranges "
               +:+ match prev with Some p => Gap_String p | None => "" end +:+ " and "
               +:+ Gap_String gap +:+ " overlap or are out of order"))
        else if committed <? gap_To gap
        then Err (errorf_w ErrEventGap (": accepted retention range " +:+ Gap_String gap
               +:+ " reaches past cursor " +:+ itoa committed))
        else check_gaps committed (Some gap) rest
  end.

(** Past every range that starts exactly where the envelopes stopped. *)
Fixpoint skipAccepted (expected : Z) (gaps : list EventGap) : Z * list EventGap :=
  match gaps with
  | gap :: rest => if gap_From gap =? expected then skipAccepted (gap_To gap + 1) rest else (expected, gaps)
  | [] => (expected, [])
  end.

Fixpoint restore_history (committed expected : Z) (gaps : list EventGap) (restored : gmap Z (list Z))
    (history : list Envelope) : result (Z * list EventGap * gmap Z (list Z)) :=
  match history with
  | [] => Ok (expected, gaps, restored)
  | env :: rest =>
      if negb (ev_Seq env =? expected)
      then Err (errorf_w ErrEventGap (": durable replay history expected sequence " +:+ itoa expected
             +:+ ", got " +:+ itoa (ev_Seq env)))
      else if committed <? ev_Seq env
      then Err (errorf_w ErrEventGap (": durable replay history reaches sequence " +:+ itoa (ev_Seq env)
             +:+ " past cursor " +:+ itoa committed))
      else
        let '(expected, gaps) := skipAccepted (expected + 1) gaps in
        restore_history committed expected gaps (<[ev_Seq env := envelopeDigest env]> restored) rest
  end.

Definition Restore (s : Sequencer) (history : list Envelope) (gaps : list EventGap) : result Sequencer :=
  try _u := check_gaps (sq_committed s) None gaps in
  let '(expected, rest) := skipAccepted 1 gaps in
  try end_ := restore_history (sq_committed s) expected rest ∅ history in
  let '(expected, rest, restored) := end_ in
  match rest with
  | gap :: _ => Err (errorf_w ErrEventGap (": accepted retention range " +:+ Gap_String gap
                  +:+ " does not begin at sequence " +:+ itoa expected))
  | [] =>
      if negb (expected - 1 =? sq_committed s)
      then Err (errorf_w ErrEventGap (": durable cursor is " +:+ itoa (sq_committed s)
             +:+ " but replay history ends at " +:+ itoa (expected - 1)))
      else Ok (MkSequencer (sq_admitted s) (sq_committed s) restored gaps)
  end.

Definition AcceptGap (s : Sequencer) (gap : EventGap) : result Sequencer :=
  if negb (Gap_Valid gap)
  then Err (errorf_w ErrEventGap (": retention range " +:+ Gap_String gap +:+ " is unusable"))
  else if negb (gap_From gap =? sq_admitted s + 1)
  then Err (errorf_w ErrEventGap (": retention range " +:+ Gap_String gap
         +:+ " does not begin at sequence " +:+ itoa (sq_admitted s + 1)))
  else Ok (MkSequencer (gap_To gap) (sq_committed s) (sq_digests s) (sq_gaps s ++ [gap])).

Definition expired (s : Sequencer) (seq : Z) : bool := existsb (λ g, Gap_Contains g seq) (sq_gaps s).

(** One batch: what is fresh, the position after it and the digests it adds. *)
Fixpoint admit_loop (s : Sequencer) (admitted : Z) (pending : gmap Z (list Z)) (fresh : list Envelope)
    (batch : list Envelope) : result (Z * gmap Z (list Z) * list Envelope) :=
  match batch with
  | [] => Ok (admitted, pending, fresh)
  | env :: rest =>
      if ev_Seq env <=? 0
      then Err (errorf_w ErrEventGap (": sequence " +:+ itoa (ev_Seq env)
             +:+ " is not positive (a backend log starts at 1)"))
      else if ev_Seq env <=? admitted then
        let seen := match pending !! ev_Seq env with Some d => Some d | None => sq_digests s !! ev_Seq env end in
        match seen with
        | None =>
            if expired s (ev_Seq env)
            then Err (errorf_w ErrEventConflict (": sequence " +:+ itoa (ev_Seq env)
                   +:+ " was accepted as expired and cannot be served again"))
            else Err (errorf_w ErrEventConflict (": sequence " +:+ itoa (ev_Seq env)
                   +:+ " has no durable replay digest"))
        | Some d =>
            if negb (bool_decide (d = envelopeDigest env))
            then Err (errorf_w ErrEventConflict (": sequence " +:+ itoa (ev_Seq env)))
            else admit_loop s admitted pending fresh rest
        end
      else if ev_Seq env =? admitted + 1
      then admit_loop s (ev_Seq env) (<[ev_Seq env := envelopeDigest env]> pending) (fresh ++ [env]) rest
      else Err (errorf_w ErrEventGap (": expected sequence " +:+ itoa (admitted + 1)
             +:+ ", got " +:+ itoa (ev_Seq env)))
  end.

Definition Admit (s : Sequencer) (batch : list Envelope) : result (list Envelope * Sequencer) :=
  try end_ := admit_loop s (sq_admitted s) ∅ [] batch in
  let '(admitted, pending, fresh) := end_ in
  Ok (fresh, MkSequencer admitted (sq_committed s) (pending ∪ sq_digests s) (sq_gaps s)).

Definition Commit (s : Sequencer) (seq : Z) : Sequencer :=
  let seq := if sq_admitted s <? seq then sq_admitted s else seq in
  let committed := if sq_committed s <? seq then seq else sq_committed s in
  MkSequencer (sq_admitted s) committed (sq_digests s) (sq_gaps s).

(** ** Framing *)

Definition MaxProviderLine : Z := 10 * 2 ^ 20.

Definition strip_cr (line : string) : string :=
  if has_prefix (str1 13) (String.rev line) then str_take (String.length line - 1) line else line.

(** The lines of the buffer and its unterminated rest; a line or rest over the
    ceiling is refused. *)
Fixpoint frame_loop (fuel : nat) (buf : string) : result (list string * string) :=
  match cut nl buf with
  | Some (line, rest) =>
      if MaxProviderLine <? str_len line then Err ErrFrameTooLarge
      else
        match fuel with
        | O => Ok ([], buf)
        | S fuel' =>
            try r := frame_loop fuel' rest in
            Ok (strip_cr line :: r.1, r.2)
        end
  | None => if MaxProviderLine <? str_len buf then Err ErrFrameTooLarge else Ok ([], buf)
  end.

Definition frameProvider (tail chunk : string) (sealed : bool) : result (list string * string) :=
  let buf := tail +:+ chunk in
  try r := frame_loop (String.length buf) buf in
  let '(lines, rest) := r in
  if sealed && negb (bool_decide (rest = "")) then Ok (lines ++ [strip_cr rest], "")
  else Ok (lines, rest).

(** ** Normalized events and consumptions *)

(** A [float64] is its bits. *)
Record Usage := MkUsage { us_InputTokens : Z; us_OutputTokens : Z; us_CostUSD : Z }.

Record Event := MkEvent {
  e_Type : string;
  e_Time : Z;
  e_SessionID : string;
  e_Continuation : string;
  e_Text : string;
  e_Usage : option Usage;
  e_Reason : string;
}.

#[export] Instance Usage_eq_dec : EqDecision Usage.
Proof. solve_decision. Defined.
#[export] Instance Event_eq_dec : EqDecision Event.
Proof. solve_decision. Defined.

Definition EventSucceeded : string := "succeeded".
Definition EventFailed : string := "failed".
Definition FailureCrashed : string := "crashed".

(** [core.Event{Type: core.EventFailed, Reason: core.FailureCrashed}] *)
Definition failed_crashed : Event := MkEvent EventFailed zero_time "" "" "" None FailureCrashed.

Definition isTerminal (ev : Event) : bool :=
  bool_decide (e_Type ev = EventSucceeded) || bool_decide (e_Type ev = EventFailed).

Fixpoint terminalType (events : list Event) : string :=
  match events with
  | [] => ""
  | ev :: rest => if isTerminal ev then e_Type ev else terminalType rest
  end.

Definition hasTerminal (events : list Event) : bool := negb (bool_decide (terminalType events = "")).

Record Checkpoint := MkCheckpoint { cp_Cursor : Z; cp_Tail : string; cp_Terminal : bool }.
Definition no_checkpoint : Checkpoint := MkCheckpoint 0 "" false.

Record Consumption := MkConsumption {
  cn_ID : string;
  cn_Checkpoint : Checkpoint;
  cn_Envelope : option Envelope;
  cn_Events : list Event;
  cn_Gap : option EventGap;
}.

#[export] Instance Checkpoint_eq_dec : EqDecision Checkpoint.
Proof. solve_decision. Defined.
#[export] Instance Consumption_eq_dec : EqDecision Consumption.
Proof. solve_decision. Defined.

(** ** Recovery *)

(** A recorded range against the cursors around it and the outcome before it. *)
Definition check_gap_item (latest : Checkpoint) (previousTerminal : string) (item : Consumption) (gap : EventGap)
    : result unit :=
  let cp := cn_Checkpoint item in
  let range := "accepted retention range " +:+ Gap_String gap in
  if negb (Gap_Valid gap) || negb (gap_From gap =? cp_Cursor latest + 1) || negb (gap_To gap =? cp_Cursor cp)
  then Err (errorf_w ErrEventGap (": " +:+ range +:+ " does not span cursor " +:+ itoa (cp_Cursor latest)
         +:+ " to " +:+ itoa (cp_Cursor cp)))
  else match cn_Envelope item with
  | Some env => Err (errorf_w ErrEventConflict (": " +:+ range +:+ " also carries envelope " +:+ itoa (ev_Seq env)))
  | None =>
      if negb (bool_decide (cp_Tail cp = ""))
      then Err (errorf_w ErrEventConflict (": " +:+ range +:+ " retained a partial provider line"))
      else if bool_decide (previousTerminal = EventSucceeded)
      then Err (errorf_w ErrEventConflict (": " +:+ range +:+ " follows a succeeded outcome"))
      else if bool_decide (previousTerminal = "")
              && (match cn_Events item with
                  | [ev] => negb (bool_decide (e_Type ev = EventFailed))
                            || negb (bool_decide (e_Reason ev = FailureCrashed))
                  | _ => true
                  end || negb (cp_Terminal cp))
      then Err (errorf_w ErrEventConflict (": " +:+ range +:+ " has no failed(crashed) outcome"))
      else if bool_decide (previousTerminal = EventFailed) && negb (bool_decide (cn_Events item = []))
      then Err (errorf_w ErrEventConflict (": " +:+ range +:+ " adds an outcome after failure"))
      else Ok tt
  end.

(** What the items so far establish. *)
Record recovery := MkRecovery {
  rc_first : bool;
  rc_latest : Checkpoint;
  rc_history : list Envelope;
  rc_gaps : list EventGap;
  rc_terminal : string;
}.

Definition reconcile_item (r : recovery) (item : Consumption) : result recovery :=
  let cp := cn_Checkpoint item in
  let latest := rc_latest r in
  if negb (rc_first r) && (cp_Cursor cp <? cp_Cursor latest)
  then Err (errorf_w ErrEventGap (": durable consumer cursor moved from " +:+ itoa (cp_Cursor latest)
         +:+ " back to " +:+ itoa (cp_Cursor cp)))
  else if cp_Terminal latest && negb (cp_Terminal cp)
  then Err (errorf_w ErrEventConflict ": durable consumer cleared a terminal checkpoint")
  else
    let previousTerminal := rc_terminal r in
    let itemTerminal := terminalType (cn_Events item) in
    try terminalEvent :=
      (if negb (bool_decide (itemTerminal = "")) then
         if negb (bool_decide (previousTerminal = "")) || negb (cp_Terminal cp)
         then Err (errorf_w ErrEventConflict ": durable consumer has an inconsistent terminal consequence")
         else Ok itemTerminal
       else if negb (bool_decide (previousTerminal = "")) && negb (bool_decide (cn_Events item = []))
       then Err (errorf_w ErrEventConflict ": durable consumer has normalized events after terminal")
       else Ok previousTerminal) in
    try gaps :=
      (match cn_Gap item with
       | Some gap => try _u := check_gap_item latest previousTerminal item gap in Ok (rc_gaps r ++ [gap])
       | None => Ok (rc_gaps r)
       end) in
    try history :=
      (match cn_Envelope item with
       | Some env =>
           if (ev_Seq env <=? 0) || (cp_Cursor cp <? ev_Seq env)
           then Err (errorf_w ErrEventGap (": envelope " +:+ itoa (ev_Seq env)
                  +:+ " is not covered by checkpoint " +:+ itoa (cp_Cursor cp)))
           else Ok (rc_history r ++ [env])
       | None => Ok (rc_history r)
       end) in
    Ok (MkRecovery false cp history gaps terminalEvent).

Fixpoint reconcile_items (r : recovery) (items : list Consumption) : result recovery :=
  match items with
  | [] => Ok r
  | item :: rest => try r' := reconcile_item r item in reconcile_items r' rest
  end.

Definition reconcileRecovery (local : Checkpoint) (items : list Consumption)
    : result (Checkpoint * list Envelope * list EventGap) :=
  match items with
  | [] =>
      if negb (cp_Cursor local =? 0) || negb (bool_decide (cp_Tail local = "")) || cp_Terminal local
      then Err (errorf_w ErrEventGap (": attach checkpoint " +:+ itoa (cp_Cursor local)
             +:+ " has no durable consumer history"))
      else Ok (local, [], [])
  | _ =>
      try r := reconcile_items (MkRecovery true no_checkpoint [] [] "") items in
      let latest := rc_latest r in
      if cp_Cursor latest <? cp_Cursor local
      then Err (errorf_w ErrEventGap (": attach cursor " +:+ itoa (cp_Cursor local)
             +:+ " leads durable consumer cursor " +:+ itoa (cp_Cursor latest)))
      else if cp_Terminal local && negb (cp_Terminal latest)
      then Err (errorf_w ErrEventConflict ": attach journal is terminal but durable consumer is not")
      else if cp_Terminal latest && bool_decide (rc_terminal r = "")
      then Err (errorf_w ErrEventConflict ": terminal checkpoint has no durable terminal event")
      else Ok (latest, rc_history r, rc_gaps r)
  end.
