(* ===== verification/RemoteJournal.v ===== *)
(** * RemoteJournal: the durable record of a remote run and the event inbox

    Models [internal/remote/record.go], [store.go], [journal.go], [digest.go],
    [request_digest.go] and [consumer_store.go]: the record a later process attaches
    by, replaced by rename; the journal, which owns the order of its writes; and the
    inbox, one appended line per consumption. The store's files, the inbox's lines,
    the requests that reached the backend and the events delivered live are the state
    of [FaultIO]. A write of one inbox line is one call: it appends the line, nothing, or
    the line without its last bytes, which then are behind the last line break. *)

From S2P Require Import Prelude GoStd Sha256 FaultIO Core Remote.

(** ** What a run is asked to do *)

Record RunLimits := MkLimits {
  rl_StallTimeout : Z;
  rl_AttemptTimeout : Z;
  rl_MaxTurns : Z;
  rl_MaxCostUSD : Z; (* the bits of a float64 *)
}.

Record RunSpec := MkSpec {
  rs_Workspace : WorkspacePaths;
  rs_Prompt : string;
  rs_Continuation : string;
  rs_Env : gmap string string;
  rs_Limits : RunLimits;
}.

Record ReplaySpec := MkReplay {
  rep_Workspace : WorkspacePaths;
  rep_Prompt : string;
  rep_Continuation : string;
  rep_Env : gmap string string;
  rep_Limits : RunLimits;
}.

Definition replaySpecOf (spec : RunSpec) : ReplaySpec :=
  MkReplay (rs_Workspace spec) (rs_Prompt spec) (rs_Continuation spec) (rs_Env spec) (rs_Limits spec).
Definition runSpec (r : ReplaySpec) : RunSpec :=
  MkSpec (rep_Workspace r) (rep_Prompt r) (rep_Continuation r) (rep_Env r) (rep_Limits r).

(** [==] on the bits of two float64: no NaN equals anything, both zeroes are equal. *)
Definition float_eqb (a b : Z) : bool :=
  let magnitude z := z mod 2 ^ 63 in
  if (0x7ff0000000000000 <? magnitude a) || (0x7ff0000000000000 <? magnitude b) then false
  else (a =? b) || ((magnitude a =? 0) && (magnitude b =? 0)).

(** [reflect.DeepEqual] of two replay inputs. *)
Definition replay_equal (a b : ReplaySpec) : bool :=
  bool_decide (rep_Workspace a = rep_Workspace b) && bool_decide (rep_Prompt a = rep_Prompt b)
  && bool_decide (rep_Continuation a = rep_Continuation b) && bool_decide (rep_Env a = rep_Env b)
  && (rl_StallTimeout (rep_Limits a) =? rl_StallTimeout (rep_Limits b))
  && (rl_AttemptTimeout (rep_Limits a) =? rl_AttemptTimeout (rep_Limits b))
  && (rl_MaxTurns (rep_Limits a) =? rl_MaxTurns (rep_Limits b))
  && float_eqb (rl_MaxCostUSD (rep_Limits a)) (rl_MaxCostUSD (rep_Limits b)).

Record ProcessSpec := MkProcess {
  sp_Identity : Identity;
  sp_Argv : list string;
  sp_Env : gmap string string;
  sp_Stdin : string;
  sp_Limits : RunLimits;
  sp_Git : GitScope;
}.

(** The preimages of a request digest: the shape from before Git scopes, and the
    versioned one. *)
Inductive digest_payload :=
| processRequestDigestV1 (identity : Identity) (argv : list string) (env : gmap string string)
    (stdin : string) (limits : RunLimits)
| processRequestDigestV2 (version : Z) (identity : Identity) (argv : list string) (env : gmap string string)
    (stdin : string) (limits : RunLimits) (git : GitScope)
| hookRequestDigestV1 (identity : Identity) (phase : string) (attempt : Z) (script : string) (timeout : Z)
| hookRequestDigestV2 (version : Z) (identity : Identity) (phase : string) (attempt : Z) (script : string)
    (argv : list string) (git : GitScope) (timeout : Z).

Definition processRequestDigestPayload (spec : ProcessSpec) : digest_payload :=
  if Scope_Empty (sp_Git spec)
  then processRequestDigestV1 (sp_Identity spec) (sp_Argv spec) (sp_Env spec) (sp_Stdin spec) (sp_Limits spec)
  else processRequestDigestV2 2 (sp_Identity spec) (sp_Argv spec) (sp_Env spec) (sp_Stdin spec)
         (sp_Limits spec) (sp_Git spec).

(** ** Hooks *)

Record HookRef := MkHookRef {
  hr_Identity : Identity;
  hr_ID : string;
  hr_Phase : string;
  hr_Attempt : Z;
  hr_RequestDigest : string;
}.

Record HookSpec := MkHookSpec {
  hs_Identity : Identity;
  hs_Phase : string;
  hs_Attempt : Z;
  hs_Script : string;
  hs_Argv : list string;
  hs_Git : GitScope;
  hs_Timeout : Z;
}.

#[export] Instance HookRef_eq_dec : EqDecision HookRef.
Proof. solve_decision. Defined.

Definition hookRequestDigestPayload (spec : HookSpec) : digest_payload :=
  if bool_decide (hs_Argv spec = []) && Scope_Empty (hs_Git spec)
  then hookRequestDigestV1 (hs_Identity spec) (hs_Phase spec) (hs_Attempt spec) (hs_Script spec) (hs_Timeout spec)
  else hookRequestDigestV2 2 (hs_Identity spec) (hs_Phase spec) (hs_Attempt spec) (hs_Script spec) (hs_Argv spec)
         (hs_Git spec) (hs_Timeout spec).

(** ** The record *)

Record RunRecord := MkRecord {
  rr_Version : Z;
  rr_Identity : Identity;
  rr_RunID : string;
  rr_RequestDigest : string;
  rr_Dispatched : bool;
  rr_BackendRunID : string;
  rr_Replay : option ReplaySpec;
  rr_Cursor : Z;
  rr_DecoderTail : string;
  rr_Terminal : bool;
  rr_TemplateRevision : string;
  rr_PromptDigest : string;
  rr_Provider : string;
  rr_Model : string;
  rr_Transcript : string;
}.

Definition RecordVersion : Z := 3.

Definition Record_ProcessRef (r : RunRecord) : ProcessRef :=
  MkRef (rr_Identity r) (rr_RunID r) (rr_RequestDigest r).
Definition Record_Checkpoint (r : RunRecord) : Checkpoint :=
  MkCheckpoint (rr_Cursor r) (rr_DecoderTail r) (rr_Terminal r).

Definition set_version (v : Z) (r : RunRecord) : RunRecord :=
  MkRecord v (rr_Identity r) (rr_RunID r) (rr_RequestDigest r) (rr_Dispatched r) (rr_BackendRunID r) (rr_Replay r)
    (rr_Cursor r) (rr_DecoderTail r) (rr_Terminal r) (rr_TemplateRevision r) (rr_PromptDigest r)
    (rr_Provider r) (rr_Model r) (rr_Transcript r).
Definition set_replay (p : option ReplaySpec) (r : RunRecord) : RunRecord :=
  MkRecord (rr_Version r) (rr_Identity r) (rr_RunID r) (rr_RequestDigest r) (rr_Dispatched r) (rr_BackendRunID r) p
    (rr_Cursor r) (rr_DecoderTail r) (rr_Terminal r) (rr_TemplateRevision r) (rr_PromptDigest r)
    (rr_Provider r) (rr_Model r) (rr_Transcript r).
Definition set_dispatched (r : RunRecord) : RunRecord :=
  MkRecord (rr_Version r) (rr_Identity r) (rr_RunID r) (rr_RequestDigest r) true (rr_BackendRunID r) (rr_Replay r)
    (rr_Cursor r) (rr_DecoderTail r) (rr_Terminal r) (rr_TemplateRevision r) (rr_PromptDigest r)
    (rr_Provider r) (rr_Model r) (rr_Transcript r).
(** The backend's id, and with it no replay input any more. *)
Definition set_backend (id : string) (r : RunRecord) : RunRecord :=
  MkRecord (rr_Version r) (rr_Identity r) (rr_RunID r) (rr_RequestDigest r) (rr_Dispatched r) id None
    (rr_Cursor r) (rr_DecoderTail r) (rr_Terminal r) (rr_TemplateRevision r) (rr_PromptDigest r)
    (rr_Provider r) (rr_Model r) (rr_Transcript r).
Definition set_checkpoint (cp : Checkpoint) (r : RunRecord) : RunRecord :=
  MkRecord (rr_Version r) (rr_Identity r) (rr_RunID r) (rr_RequestDigest r) (rr_Dispatched r) (rr_BackendRunID r)
    (rr_Replay r) (cp_Cursor cp) (cp_Tail cp) (cp_Terminal cp) (rr_TemplateRevision r) (rr_PromptDigest r)
    (rr_Provider r) (rr_Model r) (rr_Transcript r).

(** [encoding/json] for what this package keeps: decoding what was encoded gives it
    back, for the values JSON represents (strings in UTF-8, finite floats), a line
    break or no more around it; what is cut short does not decode. *)
Class RemoteJSON := {
  record_Marshal : RunRecord → result string;
  record_Unmarshal : string → result RunRecord;
  record_representable : RunRecord → Prop;
  record_total r : record_representable r → ∃ b, record_Marshal r = Ok b;
  record_roundtrip r b : record_representable r → record_Marshal r = Ok b → record_Unmarshal (b +:+ nl) = Ok r;
  consumption_Marshal : Consumption → result string;
  consumption_Unmarshal : string → result Consumption;
  consumption_representable : Consumption → Prop;
  consumption_total c : consumption_representable c → ∃ b, consumption_Marshal c = Ok b;
  consumption_roundtrip c b :
    consumption_representable c → consumption_Marshal c = Ok b →
    trim_space b = b ∧ b ≠ "" ∧ consumption_Unmarshal b = Ok c;
  (** the text of an object ends with its last byte *)
  consumption_cut c b n :
    consumption_representable c → consumption_Marshal c = Ok b → (0 < n < String.length b)%nat →
    trim_space (str_take n b) ≠ "" ∧ ∃ e, consumption_Unmarshal (trim_space (str_take n b)) = Err e;
  request_Marshal : digest_payload → result string;
}.

Section codec.
Context `{J : RemoteJSON}.

Definition EncodeRecord (r : RunRecord) : result string :=
  let r := if rr_Version r =? 0 then set_version RecordVersion r else r in
  match record_Marshal r with
  | Err e => Err (errorf_wrap ("remote: encoding record for " +:+ Claim_String (id_Claim (rr_Identity r)) +:+ ": ") e "")
  | Ok body => Ok (body +:+ nl)
  end.

Definition DecodeRecord (body : string) : result RunRecord :=
  match record_Unmarshal body with
  | Err e => Err (errorf_wrap "remote: decoding record: " e "")
  | Ok r =>
      if RecordVersion <? rr_Version r
      then Err (errorf ("remote: record is version " +:+ itoa (rr_Version r) +:+ " and this binary understands "
             +:+ itoa RecordVersion +:+ ": refusing to attach to a run it may address wrongly"))
      else Ok r
  end.

Definition marshalRequestDigest (p : digest_payload) : result string :=
  try body := request_Marshal p in Ok ("sha256:" +:+ hex_encode (sha256 body)).

Definition ProcessRequestDigest (spec : ProcessSpec) : result string :=
  match marshalRequestDigest (processRequestDigestPayload spec) with
  | Err e => Err (errorf_wrap "remote: encoding process request: " e "")
  | Ok d => Ok d
  end.
End codec.

(** ** The durable state *)

Record rdurable := MkRemote {
  rd_files : gmap string string;                 (* record files, by path *)
  rd_inbox : gmap string (list string);          (* consumption logs, by path: their lines *)
  rd_tail : gmap string string;                  (* what a short write left behind a log's last line *)
  rd_started : list (ProcessRef * ProcessSpec);  (* start requests that reached the backend, newest first *)
  rd_hooks : list (HookRef * HookSpec);          (* the same of hooks *)
  rd_delivered : list Event;                     (* events received live, newest first *)
}.

Definition put_file (path : string) (body : option string) (d : rdurable) : rdurable :=
  MkRemote (partial_alter (λ _, body) path (rd_files d)) (rd_inbox d) (rd_tail d) (rd_started d) (rd_hooks d) (rd_delivered d).
(** What a log holds behind its last line break. *)
Definition log_tail (path : string) (d : rdurable) : string := default "" (rd_tail d !! path).
(** A line is written right behind what is there. *)
Definition put_line (path body : string) (d : rdurable) : rdurable :=
  MkRemote (rd_files d) (<[path := default [] (rd_inbox d !! path) ++ [log_tail path d +:+ body]]> (rd_inbox d))
    (delete path (rd_tail d)) (rd_started d) (rd_hooks d) (rd_delivered d).
(** The line falls short of its line break and of the last [missing] bytes of [body]. *)
Definition put_short (path body : string) (missing : nat) (d : rdurable) : rdurable :=
  MkRemote (rd_files d) (rd_inbox d)
    (<[path := log_tail path d +:+ str_take (String.length body - missing) body]> (rd_tail d))
    (rd_started d) (rd_hooks d) (rd_delivered d).
(** The lines a scanner finds in a log, the last one with or without a line break; [None]
    where there is no file. *)
Definition scan_log (path : string) (d : rdurable) : option (list string) :=
  match rd_inbox d !! path, log_tail path d with
  | lines, EmptyString => lines
  | lines, rest => Some (default [] lines ++ [rest])
  end.
Definition put_start (ref : ProcessRef) (spec : ProcessSpec) (d : rdurable) : rdurable :=
  MkRemote (rd_files d) (rd_inbox d) (rd_tail d) ((ref, spec) :: rd_started d) (rd_hooks d) (rd_delivered d).
Definition put_hook (ref : HookRef) (spec : HookSpec) (d : rdurable) : rdurable :=
  MkRemote (rd_files d) (rd_inbox d) (rd_tail d) (rd_started d) ((ref, spec) :: rd_hooks d) (rd_delivered d).
Definition put_event (ev : Event) (d : rdurable) : rdurable :=
  MkRemote (rd_files d) (rd_inbox d) (rd_tail d) (rd_started d) (rd_hooks d) (ev :: rd_delivered d).

Local Notation IO := (FaultIO.IO rdurable).

(** ** The store *)

Definition shortDigest (s : string) : string := hex_encode (firstn 6 (sha256 s)).
Definition PromptDigest (prompt : string) : string := "sha256:" +:+ hex_encode (sha256 prompt).

Definition filename_rune (r : Z) : bool := is_lower r || is_upper r || is_digit r || (r =? 45) || (r =? 95).
Definition claimFilename (claim : Claim) : string :=
  let readable := foldr (λ p acc, (if filename_rune p.1 then p.2 else "-") +:+ acc) ""
                    (decode (Claim_String claim)) in
  let readable := if 64 <? str_len readable then str_take 64 readable else readable in
  readable +:+ "-" +:+ shortDigest (Claim_String claim).

(** The calls of [replaceFile]: the directory, the temporary file, its contents, its
    sync and close, the rename, and the directory's sync. *)
Definition replaceFile (path body : string) : IO unit :=
  syscall ;; syscall ;; syscall ;; syscall ;; syscall ;;
  call (λ d, (Ok tt, put_file path (Some body) d)) ;;
  syscall ;; syscall.

Section store.
Context `{J : RemoteJSON} (root : string).

Definition Store_Path (claim : Claim) : string := root +:+ "/" +:+ claimFilename claim +:+ ".json".

Definition Load (claim : Claim) : IO RunRecord :=
  raw ← wrapping (λ e, errorf_wrap ("remote: reading record for " +:+ Claim_String claim +:+ ": ") (os_error e) "")
          (inspect (λ d, Ok (rd_files d !! Store_Path claim)));
  match raw with
  | None => throw (errorf_w ErrNoRecord (": " +:+ Claim_String claim))
  | Some raw =>
      match DecodeRecord raw with
      | Err e => throw e
      | Ok rec =>
          if negb (bool_decide (id_Claim (rr_Identity rec) = claim))
          then throw (errorf_w ErrClaimMismatch (": " +:+ Store_Path claim +:+ " names "
                 +:+ Claim_String (id_Claim (rr_Identity rec))))
          else mret rec
      end
  end.

Definition Save (r : RunRecord) : IO unit :=
  match EncodeRecord r with
  | Err e => throw e
  | Ok body => replaceFile (Store_Path (id_Claim (rr_Identity r))) body
  end.

Definition Delete (claim : Claim) : IO unit :=
  wrapping (λ e, errorf_wrap ("remote: removing record for " +:+ Claim_String claim +:+ ": ") e "")
    (call (λ d, (Ok tt, put_file (Store_Path claim) None d))).

(** ** The journal *)

Record Journal := MkJournal { j_claim : Claim; j_rec : RunRecord; j_loaded : bool }.
Definition set_rec (r : RunRecord) (j : Journal) : Journal := MkJournal (j_claim j) r (j_loaded j).

(** The context is asked before a write begins, unless it cannot be cancelled. *)
Definition save (cancellable : bool) (r : RunRecord) : IO unit :=
  (if cancellable then syscall else mret tt) ;; Save r.

Definition OpenJournal (claim : Claim) : IO Journal :=
  if negb (Claim_Valid claim)
  then throw (errorf_w ErrClaimMismatch (": " +:+ Claim_String claim +:+ " is not a complete claim cycle"))
  else
    rec ← Load claim;
    if negb (Ref_Complete (Record_ProcessRef rec))
    then throw (errorf_w ErrProcessMismatch (": record for " +:+ Claim_String claim
           +:+ " has an incomplete process reference"))
    else mret (MkJournal claim rec true).

Record Meta := MkMeta {
  mt_TemplateRevision : string;
  mt_PromptDigest : string;
  mt_Provider : string;
  mt_Model : string;
  mt_Transcript : string;
  mt_replay : option ReplaySpec;
}.

Definition fresh_record (ref : ProcessRef) (meta : Meta) : RunRecord :=
  MkRecord RecordVersion (pr_Identity ref) (pr_RunID ref) (pr_RequestDigest ref) false "" (mt_replay meta) 0 "" false
    (mt_TemplateRevision meta) (mt_PromptDigest meta) (mt_Provider meta) (mt_Model meta) (mt_Transcript meta).

Definition Reserve (ref : ProcessRef) (meta : Meta) : IO Journal :=
  if negb (Identity_Complete (pr_Identity ref))
  then throw (errorf_w ErrIdentityMissing (": " +:+ Claim_String (id_Claim (pr_Identity ref))))
  else if bool_decide (pr_RunID ref = "") then throw ErrNoRunID
  else if bool_decide (pr_RequestDigest ref = "")
  then throw (errorf_w ErrProcessMismatch ": process request has no digest")
  else
    let rec := fresh_record ref meta in
    save true rec ;; mret (MkJournal (id_Claim (pr_Identity ref)) rec true).

(** The journal after a call, and the call's outcome: a write that failed leaves the
    journal's view as it was. *)
Definition keeping {A} (j j' : Journal) (a : A) (m : IO unit) : IO (Journal * result A) :=
  r ← attempt m;
  match r with Ok _ => mret (j', Ok a) | Err e => mret (j, Err e) end.

Definition RecordReplay (j : Journal) (spec : RunSpec) : IO (Journal * result unit) :=
  if negb (j_loaded j) then mret (j, Err ErrNoRecord)
  else
    let replay := replaySpecOf spec in
    let next := set_rec (set_version RecordVersion (set_replay (Some replay) (j_rec j))) j in
    match rr_Replay (j_rec j) with
    | Some old =>
        if negb (replay_equal old replay)
        then mret (j, Err (errorf_w ErrProcessMismatch (": claim " +:+ Claim_String (j_claim j)
               +:+ " has different replay input")))
        else if rr_Version (j_rec j) =? RecordVersion then mret (j, Ok tt)
        else keeping j next tt (save true (j_rec next))
    | None => keeping j next tt (save true (j_rec next))
    end.

Definition Dispatch (j : Journal) (start : ProcessRef → IO Status) : IO (Journal * result Status) :=
  if negb (j_loaded j) then mret (j, Err ErrNoRecord)
  else
    let ref := Record_ProcessRef (j_rec j) in
    if negb (Ref_Complete ref) then mret (j, Err ErrNoRunID)
    else if rr_Dispatched (j_rec j)
    then mret (j, Err (errorf_w ErrAlreadyStarted (": " +:+ Claim_String (j_claim j)
           +:+ " (run " +:+ rr_RunID (j_rec j) +:+ ")")))
    else
      let marked := set_rec (set_dispatched (j_rec j)) j in
      r ← attempt (save true (j_rec marked));
      match r with
      | Err e => mret (j, Err e)
      | Ok _ =>
          st ← attempt (start ref);
          match st with
          | Ok s =>
              if negb (bool_decide (ps_BackendRunID s = ""))
                 && negb (bool_decide (ps_BackendRunID s = rr_BackendRunID (j_rec marked)))
              then
                let named := set_rec (set_backend (ps_BackendRunID s) (j_rec marked)) j in
                saved ← attempt (save true (j_rec named));
                mret (match saved with Ok _ => named | Err _ => marked end, Ok s)
              else mret (marked, Ok s)
          | Err e => mret (marked, Err e)
          end
      end.

Definition Resume (j : Journal) : result (ProcessRef * bool) :=
  if negb (j_loaded j) then Err ErrNoRecord
  else
    let ref := Record_ProcessRef (j_rec j) in
    if negb (Ref_Complete ref) then Err ErrNoRunID else Ok (ref, rr_Dispatched (j_rec j)).

Definition CommitCheckpoint (cancellable : bool) (j : Journal) (cp : Checkpoint) : IO (Journal * result unit) :=
  if negb (j_loaded j) then mret (j, Err ErrNoRecord)
  else if cp_Cursor cp <? rr_Cursor (j_rec j) then mret (j, Ok tt)
  else if bool_decide (cp = Record_Checkpoint (j_rec j)) then mret (j, Ok tt)
  else
    let next := set_rec (set_checkpoint cp (j_rec j)) j in
    keeping j next tt (save cancellable (j_rec next)).

(** [Observe], always called with a context that cannot be cancelled. *)
Definition Observe (j : Journal) (st : Status) : IO (Journal * result unit) :=
  if bool_decide (ps_BackendRunID st = "")
     || (bool_decide (ps_BackendRunID st = rr_BackendRunID (j_rec j))
         && match rr_Replay (j_rec j) with None => true | Some _ => false end)
  then mret (j, Ok tt)
  else
    let next := set_rec (set_backend (ps_BackendRunID st) (j_rec j)) j in
    keeping j next tt (save false (j_rec next)).

Definition Journal_Close (j : Journal) : IO unit :=
  if negb (j_loaded j) then throw ErrNoRecord else Delete (j_claim j).
End store.
