(* ===== verification/RemoteAttempt.v ===== *)
(** * RemoteAttempt: consuming a remote run's event stream

    Models [DirConsumer] of [internal/remote/consumer_store.go] and [Attempt] of
    [attempt.go]: attachment with recovery of the durable inbox, and the pump, which
    commits every envelope to the inbox before the journal's cursor moves and
    publishes only what is committed. One daemon process attached to one run is one
    [lifetime]; the backend's answers to its successive reads are its input, in which
    the process ends when they do. Cancellation can be observed at any of the points
    where the code looks for it. *)

From S2P Require Import Prelude GoStd FaultIO Core Remote RemoteJournal.

Local Notation IO := (FaultIO.IO rdurable).

Section attempt.
Context `{J : RemoteJSON} (root : string).
(** The provider's parser of one complete line of its output. *)
Context (translate : string → list Event).

(** ** The inbox *)

Definition consumerLineLimit : Z := 8 * 2 ^ 20.

Record consumerLog := MkLog {
  cl_seen : gmap string string;
  cl_order : list Consumption;
  cl_terminal : bool;
}.
Definition empty_log : consumerLog := MkLog ∅ [] false.

Definition Consumer_Path (ref : ProcessRef) : string :=
  root +:+ "/events/" +:+ claimFilename (id_Claim (pr_Identity ref)) +:+ "-events-"
  +:+ shortDigest (Ref_String ref) +:+ ".jsonl".

Definition log_add (item : Consumption) (body : string) (log : consumerLog) : consumerLog :=
  MkLog (<[cn_ID item := body]> (cl_seen log)) (cl_order log ++ [item])
    (cl_terminal log || cp_Terminal (cn_Checkpoint item)).

(** The index over the lines of a log; a line the scanner cannot hold ends it. *)
Fixpoint load_lines (ref : ProcessRef) (line : Z) (log : consumerLog) (lines : list string) : result consumerLog :=
  match lines with
  | [] => Ok log
  | l :: rest =>
      if consumerLineLimit <=? str_len l
      then Err (errorf ("remote: reading the consumption log for " +:+ Ref_String ref
             +:+ ": bufio.Scanner: token too long"))
      else
        let raw := trim_space l in
        if bool_decide (raw = "") then load_lines ref (line + 1) log rest
        else
          match consumption_Unmarshal raw with
          | Err e => Err (errorf_wrap ("remote: consumption log " +:+ Consumer_Path ref +:+ " line "
                       +:+ itoa line +:+ ": ") e "")
          | Ok item =>
              match consumption_Marshal item with
              | Err e => Err (errorf_wrap ("remote: re-encoding consumption " +:+ cn_ID item +:+ ": ") e "")
              | Ok body => load_lines ref (line + 1) (log_add item body log) rest
              end
          end
  end.

Definition logFor (ref : ProcessRef) (c : option consumerLog) : IO consumerLog :=
  match c with
  | Some log => mret log
  | None =>
      lines ← wrapping (λ e, errorf_wrap ("remote: reading the consumption log for " +:+ Ref_String ref +:+ ": ") e "")
                (inspect (λ d, Ok (scan_log (Consumer_Path ref) d)));
      match lines with
      | None => mret empty_log
      | Some lines => lift (load_lines ref 1 empty_log lines)
      end
  end.

Definition appendLine (path body : string) : IO unit :=
  syscall ;; syscall ;; write_call (put_short path body) (λ d, (Ok tt, put_line path body d)) ;; syscall ;; syscall.

(** [DirConsumer.Commit], always called with a context that cannot be cancelled; the
    index it leaves, and its answer. *)
Definition Consumer_Commit (ref : ProcessRef) (c : option consumerLog) (item : Consumption)
    : IO (option consumerLog * result bool) :=
  if negb (Ref_Complete ref)
  then mret (c, Err (errorf_w ErrProcessMismatch ": consumption for an incomplete process reference"))
  else if bool_decide (cn_ID item = "")
  then mret (c, Err (errorf_w ErrEventConflict ": consumption has no idempotency key"))
  else
    match consumption_Marshal item with
    | Err e => mret (c, Err (errorf_wrap ("remote: encoding consumption " +:+ cn_ID item +:+ ": ") e ""))
    | Ok body =>
        r ← attempt (logFor ref c);
        match r with
        | Err e => mret (c, Err e)
        | Ok log =>
            match cl_seen log !! cn_ID item with
            | Some previous =>
                if negb (bool_decide (previous = body))
                then mret (Some log, Err (errorf_w ErrEventConflict (": consumption " +:+ cn_ID item)))
                else mret (Some log, Ok false)
            | None =>
                if cl_terminal log && (negb (cp_Terminal (cn_Checkpoint item))
                                       || negb (bool_decide (cn_Events item = [])))
                then mret (Some log, Err (errorf_w ErrEventConflict (": consumption " +:+ cn_ID item
                       +:+ " follows a terminal outcome")))
                else
                  w ← attempt (appendLine (Consumer_Path ref) body);
                  match w with
                  | Err e => mret (Some log, Err e)
                  | Ok _ => mret (Some (log_add item body log), Ok true)
                  end
            end
        end
    end.

Definition Consumer_Recover (ref : ProcessRef) (c : option consumerLog) : IO consumerLog :=
  syscall ;; logFor ref c.

(** ** The attempt *)

Record Attempt := MkAttempt {
  at_ref : ProcessRef;
  at_journal : Journal;
  at_consumer : option consumerLog;
  at_seq : Sequencer;
  at_tail : string;
  at_commitErr : option error;
}.

Definition set_seq (s : Sequencer) (a : Attempt) : Attempt :=
  MkAttempt (at_ref a) (at_journal a) (at_consumer a) s (at_tail a) (at_commitErr a).
Definition set_tail (t : string) (a : Attempt) : Attempt :=
  MkAttempt (at_ref a) (at_journal a) (at_consumer a) (at_seq a) t (at_commitErr a).
Definition set_stores (j : Journal) (c : option consumerLog) (a : Attempt) : Attempt :=
  MkAttempt (at_ref a) j c (at_seq a) (at_tail a) (at_commitErr a).
Definition setCommitErr (e : error) (a : Attempt) : Attempt :=
  MkAttempt (at_ref a) (at_journal a) (at_consumer a) (at_seq a) (at_tail a)
    (match at_commitErr a with None => Some e | Some old => Some old end).

(** Whether the attempt is being discarded or its context is done, as observed. *)
Definition detached : IO bool :=
  r ← attempt syscall; mret (match r with Ok _ => false | Err _ => true end).

Definition send (ev : Event) : IO bool :=
  r ← attempt (call (λ d, (Ok tt, put_event ev d))); mret (match r with Ok _ => true | Err _ => false end).

(** Whether all were published, and whether an outcome has been. *)
Fixpoint publish (terminal : bool) (events : list Event) : IO (bool * bool) :=
  match events with
  | [] => mret (true, terminal)
  | ev :: rest =>
      if (terminal : bool) then mret (false, terminal)
      else
        ok ← send ev;
        if negb ok then mret (false, terminal)
        else if isTerminal ev then mret (true, true)
        else publish terminal rest
  end.

(** [accept]: first, checkpointed. *)
Definition accept (a : Attempt) (c : Consumption) : IO (Attempt * bool * bool) :=
  '(consumer, r) ← Consumer_Commit (at_ref a) (at_consumer a) c;
  let a := set_stores (at_journal a) consumer a in
  match r with
  | Err e => mret (setCommitErr e a, false, false)
  | Ok first =>
      '(j, r) ← CommitCheckpoint root false (at_journal a) (cn_Checkpoint c);
      let a := set_stores j consumer a in
      match r with
      | Err e => mret (setCommitErr e a, first, false)
      | Ok _ => mret (set_seq (Commit (at_seq a) (cp_Cursor (cn_Checkpoint c))) a, first, true)
      end
  end.

(** The live send of what a first commit made durable; the flag is the pump's. *)
Definition publish_first (first terminal : bool) (events : list Event) : IO bool :=
  if first then '(_, terminal) ← publish terminal events; mret terminal else mret terminal.

Fixpoint translateLines (lines : list string) : list Event :=
  match lines with
  | [] => []
  | line :: rest =>
      let translated := translate line in
      if hasTerminal translated then translated else translated ++ translateLines rest
  end.

Definition commitLocal (a : Attempt) (id : string) (events : list Event) (terminal : bool) : IO Attempt :=
  let cp := MkCheckpoint (sq_committed (at_seq a)) (at_tail a) true in
  '(a, first, _) ← accept a (MkConsumption id cp None events None);
  publish_first first terminal events ;; mret a.

Definition refuseStream (a : Attempt) (terminal : bool) : IO Attempt :=
  gone ← detached;
  if gone || terminal then mret a
  else commitLocal a ("stream-refused:" +:+ itoa (sq_committed (at_seq a))) [failed_crashed] terminal.

Definition endOnSeal (a : Attempt) (terminal : bool) : IO Attempt :=
  let '(a, lines) :=
    if (terminal : bool) then (a, [])
    else match frameProvider (at_tail a) "" true with
         | Ok (lines, _) => (a, lines)
         | Err e => (setCommitErr e a, [])
         end in
  let events :=
    if (terminal : bool) then []
    else
      let events := translateLines lines in
      if negb (hasTerminal events) then events ++ [failed_crashed] else events in
  let cp := MkCheckpoint (sq_committed (at_seq a)) "" true in
  '(a, first, checkpointed) ← accept a (MkConsumption ("stream-sealed:" +:+ itoa (cp_Cursor cp)) cp None events None);
  let a := if (checkpointed : bool) then set_tail "" a else a in
  publish_first first terminal events ;; mret a.

(** How the pump goes on: with the flags of an outcome and of a success, or not. *)
Inductive flow := Goes (a : Attempt) (terminal succeeded : bool) | Ends (a : Attempt).

Definition acceptRetentionGap (a : Attempt) (expiry : RetentionGap) (terminal succeeded : bool) : IO flow :=
  let refuse e := a ← refuseStream (setCommitErr e a) terminal; mret (Ends a) in
  match Range expiry with
  | None => refuse (errorf_w ErrEventGap (": " +:+ Retention_Error expiry))
  | Some gap =>
      if negb (rg_RequestedAfter expiry =? sq_admitted (at_seq a))
      then refuse (errorf_w ErrEventGap (": " +:+ Retention_Error expiry))
      else if (succeeded : bool)
      then mret (Ends (setCommitErr (errorf_w ErrEventGap (": retention expired after a succeeded outcome: "
             +:+ Retention_Error expiry)) a))
      else
        match AcceptGap (at_seq a) gap with
        | Err e => refuse e
        | Ok seq =>
            let events := if (terminal : bool) then [] else [failed_crashed] in
            '(a, first, checkpointed) ← accept (set_seq seq a)
              (MkConsumption ("event-gap:" +:+ itoa (gap_From gap) +:+ "-" +:+ itoa (gap_To gap))
                 (MkCheckpoint (gap_To gap) "" true) None events (Some gap));
            publish_first first terminal events ;;
            if (checkpointed : bool) then mret (Goes (set_tail "" a) true succeeded) else mret (Ends a)
        end
  end.

(** One admitted envelope. *)
Definition consume (a : Attempt) (env : Envelope) (terminal succeeded : bool) : IO flow :=
  let id := "event:" +:+ itoa (ev_Seq env) in
  let decoded :=
    if (ev_Stream env =? StreamStdout) && negb terminal then
      match frameProvider (at_tail a) (ev_Payload env) false with
      | Err e => Err e
      | Ok (lines, tail) => Ok (translateLines lines, tail)
      end
    else Ok ([], at_tail a) in
  match decoded with
  | Err e =>
      let a := setCommitErr e a in
      '(a, first, _) ← accept a (MkConsumption id (MkCheckpoint (ev_Seq env) "" true) (Some env)
                                   [failed_crashed] None);
      publish_first first terminal [failed_crashed] ;; mret (Ends a)
  | Ok (events, nextTail) =>
      let nextTerminal := terminal || hasTerminal events in
      let nextTail := if nextTerminal then "" else nextTail in
      '(a, first, checkpointed) ← accept a (MkConsumption id (MkCheckpoint (ev_Seq env) nextTail nextTerminal)
                                             (Some env) events None);
      publish_first first terminal events ;;
      if negb checkpointed then mret (Ends a)
      else mret (Goes (set_tail nextTail a) nextTerminal
                   (succeeded || bool_decide (terminalType events = EventSucceeded)))
  end.

Fixpoint consume_all (a : Attempt) (terminal succeeded : bool) (fresh : list Envelope) : IO flow :=
  match fresh with
  | [] => mret (Goes a terminal succeeded)
  | env :: rest =>
      f ← consume a env terminal succeeded;
      match f with
      | Goes a terminal succeeded => consume_all a terminal succeeded rest
      | Ends a => mret (Ends a)
      end
  end.

(** A backend's answer to one read of its events. *)
Inductive events_answer :=
| EvBatch (batch : list Envelope)
| EvExpired (gap : RetentionGap)
| EvError (e : error)
| EvDone. (* the pump's context ended during the read *)

Definition read_batch (a : Attempt) (batch : list Envelope) (terminal succeeded : bool) : IO flow :=
  match batch with
  | [] => a ← endOnSeal a terminal; mret (Ends a)
  | _ =>
      match Admit (at_seq a) batch with
      | Err e =>
          let a := setCommitErr e a in
          '(a, first, _) ← accept a
            (MkConsumption ("sequence-error:" +:+ itoa (sq_admitted (at_seq a) + 1))
               (MkCheckpoint (sq_committed (at_seq a)) (at_tail a) true) None [failed_crashed] None);
          publish_first first terminal [failed_crashed] ;; mret (Ends a)
      | Ok (fresh, seq) => consume_all (set_seq seq a) terminal succeeded fresh
      end
  end.

(** Whether the pump may read again, and the outage so far. *)
Definition awaitReconnect (policy : ReconnectPolicy) (outage : reconnectState) : IO (option reconnectState) :=
  gone ← detached;
  if (gone : bool) then mret None
  else
    let attempts := rs_attempts outage + 1 in
    let spent := rs_spent outage + delay policy attempts in
    gone ← detached;
    mret (if (gone : bool) then None else Some (MkOutage attempts spent)).

Definition read_answer (policy : ReconnectPolicy) (a : Attempt) (outage : reconnectState) (terminal succeeded : bool)
    (answer : events_answer) : IO (flow * reconnectState) :=
  match answer with
  | EvBatch batch => f ← read_batch a batch terminal succeeded; mret (f, outage_reset)
  | EvExpired gap => f ← acceptRetentionGap a gap terminal succeeded; mret (f, outage_reset)
  | EvError e =>
      if errors_Is e ErrEventGap || errors_Is e ErrProcessMismatch
      then a ← refuseStream (setCommitErr e a) terminal; mret (Ends a, outage)
      else
        o ← awaitReconnect policy outage;
        mret (match o with Some o => (Goes a terminal succeeded, o) | None => (Ends a, outage) end)
  | EvDone => mret (Ends a, outage)
  end.

Fixpoint pump_loop (policy : ReconnectPolicy) (a : Attempt) (outage : reconnectState) (terminal succeeded : bool)
    (answers : list events_answer) : IO Attempt :=
  match answers with
  | [] => mret a
  | answer :: rest =>
      '(f, outage) ← read_answer policy a outage terminal succeeded answer;
      match f with
      | Goes a terminal succeeded => pump_loop policy a outage terminal succeeded rest
      | Ends a => mret a
      end
  end.

(** Every durable consequence again, before anything new is read. *)
Fixpoint republish (terminal succeeded : bool) (items : list Consumption) : IO (option (bool * bool)) :=
  match items with
  | [] => mret (Some (terminal, succeeded))
  | item :: rest =>
      '(ok, terminal) ← publish terminal (cn_Events item);
      if negb ok then mret None
      else republish terminal (succeeded || bool_decide (terminalType (cn_Events item) = EventSucceeded)) rest
  end.

Definition pump (policy : ReconnectPolicy) (a : Attempt) (recovered : list Consumption) (durableTerminal : bool)
    (answers : list events_answer) : IO Attempt :=
  r ← republish false false recovered;
  match r with
  | None => mret a
  | Some (terminal, succeeded) =>
      if durableTerminal && negb terminal
      then mret (setCommitErr (errorf_w ErrEventConflict
             ": durable terminal checkpoint has no recoverable terminal event") a)
      else pump_loop policy a outage_reset terminal succeeded answers
  end.

(** [Attach]: the attempt, and what its pump starts from unless it is degraded. *)
Definition Attach (j : Journal) (c : option consumerLog) : IO (Attempt * option (list Consumption * bool)) :=
  match Resume j with
  | Err e => throw e
  | Ok (ref, dispatched) =>
      if negb dispatched
      then throw (errorf_w ErrNoRunID (": " +:+ Claim_String (j_claim j)
             +:+ " has a reserved process reference but no dispatch to attach to"))
      else
        let cp := Record_Checkpoint (j_rec j) in
        let a := MkAttempt ref j c (NewSequencer (cp_Cursor cp)) (cp_Tail cp) None in
        let degraded e a := mret (setCommitErr e a, None) in
        r ← attempt (Consumer_Recover ref c);
        match r with
        | Err e => degraded (errorf_wrap ("remote: recovering durable consumptions for " +:+ Ref_String ref
                     +:+ ": ") e "") a
        | Ok log =>
            let a := set_stores j (Some log) a in
            let recovered := cl_order log in
            match reconcileRecovery cp recovered with
            | Err e => degraded e a
            | Ok (cp, history, gaps) =>
                '(j, r) ← (if bool_decide (recovered = []) then mret (j, Ok tt) else CommitCheckpoint root true j cp);
                let a := set_stores j (Some log) a in
                match r with
                | Err e => degraded (errorf_wrap ("remote: reconciling the attach checkpoint for " +:+ Ref_String ref
                             +:+ ": ") e "") a
                | Ok _ =>
                    match Restore (NewSequencer (cp_Cursor cp)) history gaps with
                    | Err e => degraded (errorf_wrap ("remote: restoring the replay proof for " +:+ Ref_String ref
                                 +:+ ": ") e "") a
                    | Ok seq =>
                        mret (MkAttempt ref j (Some log) seq (cp_Tail cp) None, Some (recovered, cp_Terminal cp))
                    end
                end
            end
        end
  end.

(** One process attached to the run. *)
Definition lifetime (policy : ReconnectPolicy) (claim : Claim) (answers : list events_answer) : IO Attempt :=
  j ← OpenJournal root claim;
  '(a, start) ← Attach j None;
  match start with
  | None => mret a
  | Some (recovered, terminal) => pump policy a recovered terminal answers
  end.
End attempt.
