(* ===== verification/RemoteRunner.v ===== *)
(** * RemoteRunner: starting a remote run, at most once

    Models [Runner] of [internal/remote/runner.go]: the request composed from a run
    spec, the reservation, the dispatch and the replay of one whose answer was lost,
    up to the attached attempt. The binder and the invoker are the assembly's, and
    arguments here; the backend answers a request it was sent through two more, and a
    request that fails does so like any other call, before or after it was received. *)

From S2P Require Import Prelude GoStd Sha256 FaultIO Core Remote RemoteJournal RemoteAttempt.

Local Notation IO := (FaultIO.IO rdurable).

Record Binding := MkBinding { bd_Identity : Identity; bd_Run : string; bd_Meta : Meta; bd_Git : GitScope }.
Record Invocation := MkInvocation { in_Argv : list string; in_Env : gmap string string; in_Stdin : string }.

(** [meta.replay = replaySpecOf(spec)] *)
Definition with_replay (spec : RunSpec) (m : Meta) : Meta :=
  MkMeta (mt_TemplateRevision m) (mt_PromptDigest m) (mt_Provider m) (mt_Model m) (mt_Transcript m)
    (Some (replaySpecOf spec)).

Section runner.
Context `{T : GoTables} `{J : RemoteJSON} (root : string).
Context (bind : RunSpec → result Binding) (invoke : RunSpec → result Invocation).
(** The backend's answers: to a start, after those it received before; to an attach. *)
Context (start_status : list (ProcessRef * ProcessSpec) → ProcessRef → ProcessSpec → Status).
Context (attach_status : ProcessRef → string → Status).

Definition backend_Start (ref : ProcessRef) (spec : ProcessSpec) : IO Status :=
  call (λ d, (Ok (start_status (rd_started d) ref spec), put_start ref spec d)).
Definition backend_Attach (ref : ProcessRef) (id : string) : IO Status :=
  inspect (λ _, Ok (attach_status ref id)).

Definition compose (spec : RunSpec) : result (Binding * ProcessSpec * ProcessRef) :=
  match bind spec with
  | Err e => Err (errorf_wrap "remote: binding the run to a workspace: " e "")
  | Ok binding =>
      if negb (Identity_Complete (bd_Identity binding))
      then Err (errorf_w ErrIdentityMissing (": " +:+ Claim_String (id_Claim (bd_Identity binding))))
      else
        match invoke spec with
        | Err e => Err (errorf_wrap "remote: composing the harness invocation: " e "")
        | Ok inv =>
            let processSpec := MkProcess (bd_Identity binding) (in_Argv inv) (in_Env inv) (in_Stdin inv)
                                 (rs_Limits spec) (bd_Git binding) in
            try _u := Scope_Validate (sp_Git processSpec) in
            try digest := ProcessRequestDigest processSpec in
            Ok (binding, processSpec, MkRef (bd_Identity binding) (bd_Run binding) digest)
        end
  end.

(** The handle: the attempt, and what its pump starts from; [c] is the process's index
    of the run's inbox. *)
Definition handle : Type := Attempt * option (list Consumption * bool).
Definition attachHandle (c : option consumerLog) (j : Journal) : IO handle := Attach root j c.

Definition observed (j : Journal) (st : Status) : IO Journal := '(j, _) ← Observe root j st; mret j.

Definition dispatch (c : option consumerLog) (j : Journal) (spec : ProcessSpec) : IO handle :=
  '(j, r) ← Dispatch root j (λ ref, backend_Start ref spec);
  match r with
  | Ok st => j ← observed j st; attachHandle c j
  | Err e =>
      if errors_Is e ErrProcessRefused then throw e
      else
        match Resume j with
        | Err e => throw e
        | Ok (ref, _) =>
            r ← attempt (backend_Start ref spec);
            match r with
            | Ok st => j ← observed j st; attachHandle c j
            | Err e => if errors_Is e ErrProcessRefused then throw e else attachHandle c j
            end
        end
  end.

Definition resolveExisting (c : option consumerLog) (j : Journal) (spec : ProcessSpec) : IO handle :=
  match Resume j with
  | Err e => throw e
  | Ok (ref, _) =>
      let backendRunID := rr_BackendRunID (j_rec j) in
      if negb (bool_decide (backendRunID = "")) then
        r ← attempt (backend_Attach ref backendRunID);
        j ← match r with Ok st => observed j st | Err _ => mret j end;
        attachHandle c j
      else
        r ← attempt (backend_Start ref spec);
        match r with
        | Ok st => j ← observed j st; attachHandle c j
        | Err e => if errors_Is e ErrProcessRefused then throw e else attachHandle c j
        end
  end.

Definition Runner_Start (c : option consumerLog) (spec : RunSpec) : IO handle :=
  match compose spec with
  | Err e => throw e
  | Ok (binding, processSpec, ref) =>
      let claim := id_Claim (bd_Identity binding) in
      r ← attempt (OpenJournal root claim);
      j ← match r with
          | Ok j =>
              if negb (bool_decide (Record_ProcessRef (j_rec j) = ref))
              then throw (errorf_w ErrProcessMismatch (": claim " +:+ Claim_String claim +:+ " already names "
                     +:+ Ref_String (Record_ProcessRef (j_rec j))))
              else mret j
          | Err e => if errors_Is e ErrNoRecord then Reserve root ref (with_replay spec (bd_Meta binding)) else throw e
          end;
      '(j, r) ← (if bool_decide (rr_BackendRunID (j_rec j) = "") then RecordReplay root j spec else mret (j, Ok tt));
      match r with
      | Err e => throw e
      | Ok _ =>
          match Resume j with
          | Err e => throw e
          | Ok (_, dispatched) =>
              if (dispatched : bool) then resolveExisting c j processSpec else dispatch c j processSpec
          end
      end
  end.

Definition ResolveStart (ref : ProcessRef) : IO Status :=
  j ← OpenJournal root (id_Claim (pr_Identity ref));
  let rec := j_rec j in
  if negb (bool_decide (Record_ProcessRef rec = ref))
  then throw (errorf_w ErrProcessMismatch (": claim " +:+ Claim_String (id_Claim (pr_Identity ref)) +:+ " names "
         +:+ Ref_String (Record_ProcessRef rec) +:+ ", not " +:+ Ref_String ref))
  else
    match rr_Replay rec with
    | None => throw (errorf_w ErrReplayUnavailable (": " +:+ Ref_String ref))
    | Some replay =>
        if negb (rr_Dispatched rec) then throw (errorf_w ErrReplayUnavailable (": " +:+ Ref_String ref))
        else
          match compose (runSpec replay) with
          | Err e => throw e
          | Ok (_, processSpec, rebuilt) =>
              if negb (bool_decide (rebuilt = ref))
              then throw (errorf_w ErrProcessMismatch (": reconstructed " +:+ Ref_String rebuilt +:+ ", want "
                     +:+ Ref_String ref))
              else
                st ← backend_Start ref processSpec;
                if bool_decide (ps_BackendRunID st = "")
                then throw (errorf_w ErrProcessUnresolved (": exact replay of " +:+ Ref_String ref
                       +:+ " returned no permanent run id"))
                else
                  '(_, r) ← Observe root j st;
                  match r with
                  | Err e => throw (errorf_wrap "remote: recording the resolved backend run id: " e "")
                  | Ok _ => mret st
                  end
          end
    end.
End runner.
