(* ===== verification/RemoteHooks.v ===== *)
(** * RemoteHooks: lifecycle hooks on a remote substrate

    Models [internal/remote/hooks.go] and [hook_store.go]: the phases and what their
    failure costs, the record of one hook firing and its journal, and the firing
    itself: reserved, marked as dispatched, started, followed until its domain is quiet
    and completed. What the executor answers to the reads after a start is the list
    [answers], with which the firing's context ends; its answer to a start is an
    argument, and a start that fails does so before or after it was received. *)

From S2P Require Import Prelude GoStd Sha256 FaultIO Core Remote RemoteJournal.

Local Notation IO := (FaultIO.IO rdurable).

(** ** Phases *)

Definition HookAfterCreate : string := "after_create".
Definition HookBeforeRun : string := "before_run".
Definition HookAfterRun : string := "after_run".
Definition HookBeforeRemove : string := "before_remove".
Definition HookRestore : string := "ben_restore".
Definition HookGitPrepare : string := "ben_git_prepare".
Definition HookGitPublish : string := "ben_git_publish".

Inductive Containment := ContainmentAbort | ContainmentIgnore.

#[export] Instance Containment_eq_dec : EqDecision Containment.
Proof. solve_decision. Defined.

Definition hookOrder : list (string * Containment) :=
  [(HookAfterCreate, ContainmentAbort); (HookBeforeRun, ContainmentAbort);
   (HookAfterRun, ContainmentIgnore); (HookBeforeRemove, ContainmentIgnore)].

Definition HookPhases : list string := fst <$> hookOrder.

Fixpoint containment_in (order : list (string * Containment)) (phase : string) : Containment :=
  match order with
  | [] => ContainmentAbort
  | (p, c) :: rest => if bool_decide (p = phase) then c else containment_in rest phase
  end.
Definition ContainmentOf (phase : string) : Containment := containment_in hookOrder phase.

Definition validHookPhase (phase : string) : bool :=
  bool_decide (phase = HookRestore) || bool_decide (phase = HookGitPrepare) || bool_decide (phase = HookGitPublish)
  || existsb (λ h, bool_decide (h.1 = phase)) hookOrder.

Record Hooks := MkHooks {
  hk_AfterCreate : string;
  hk_BeforeRun : string;
  hk_AfterRun : string;
  hk_BeforeRemove : string;
  hk_Timeout : Z;
}.

Definition Hooks_Script (h : Hooks) (phase : string) : option string :=
  let s :=
    if bool_decide (phase = HookAfterCreate) then hk_AfterCreate h
    else if bool_decide (phase = HookBeforeRun) then hk_BeforeRun h
    else if bool_decide (phase = HookAfterRun) then hk_AfterRun h
    else if bool_decide (phase = HookBeforeRemove) then hk_BeforeRemove h
    else "" in
  let s := trim_space s in
  if bool_decide (s = "") then None else Some s.

(** ** The record of a firing *)

Record HookResult := MkHookResult { hres_ExitCode : Z; hres_Output : string; hres_TimedOut : bool }.
Definition no_result : HookResult := MkHookResult 0 "" false.

Record HookKey := MkHookKey { hkey_Claim : Claim; hkey_ID : string }.

#[export] Instance HookResult_eq_dec : EqDecision HookResult.
Proof. solve_decision. Defined.
#[export] Instance HookKey_eq_dec : EqDecision HookKey.
Proof. solve_decision. Defined.

Definition Key_Valid (k : HookKey) : bool := Claim_Valid (hkey_Claim k) && negb (bool_decide (hkey_ID k = "")).
Definition Key_String (k : HookKey) : string := Claim_String (hkey_Claim k) +:+ "/hook/" +:+ hkey_ID k.

Definition HookRef_Key (r : HookRef) : HookKey := MkHookKey (id_Claim (hr_Identity r)) (hr_ID r).
Definition HookRef_Complete (r : HookRef) : bool :=
  Identity_Complete (hr_Identity r) && negb (bool_decide (hr_ID r = "")) && validHookPhase (hr_Phase r)
  && (0 <=? hr_Attempt r) && negb (bool_decide (hr_RequestDigest r = "")).

Record HookRecord := MkHookRecord {
  hrec_Version : Z;
  hrec_Ref : HookRef;
  hrec_Dispatched : bool;
  hrec_Result : option HookResult;
}.
Definition HookRecordVersion : Z := 1.

Definition hrec_dispatched (r : HookRecord) : HookRecord :=
  MkHookRecord (hrec_Version r) (hrec_Ref r) true (hrec_Result r).
Definition hrec_completed (res : HookResult) (r : HookRecord) : HookRecord :=
  MkHookRecord (hrec_Version r) (hrec_Ref r) (hrec_Dispatched r) (Some res).

Definition HookStateUnknown : Z := 0.
Definition HookStateRunning : Z := 1.
Definition HookStateFinished : Z := 2.

Record HookStatus := MkHookStatus { hst_State : Z; hst_Result : HookResult; hst_Domain : Z }.

(** [encoding/json] for hook records. *)
Class HookJSON := {
  hook_Marshal : HookRecord → result string;
  hook_Unmarshal : string → result HookRecord;
  hook_representable : HookRecord → Prop;
  hook_total r : hook_representable r → ∃ b, hook_Marshal r = Ok b;
  hook_roundtrip r b : hook_representable r → hook_Marshal r = Ok b → hook_Unmarshal (b +:+ nl) = Ok r;
}.

(** [fmt.Errorf("%w<middle>%w", e1, e2)] *)
Definition errorf_both (e1 : error) (middle : string) (e2 : error) : error :=
  MkError (err_chain e1 ++ err_chain e2) (err_text e1 +:+ middle +:+ err_text e2).

Section store.
Context `{J : RemoteJSON} `{H : HookJSON} (root : string).

Definition HookRequestDigest (spec : HookSpec) : result string :=
  match marshalRequestDigest (hookRequestDigestPayload spec) with
  | Err e => Err (errorf_wrap "remote: encoding hook request: " e "")
  | Ok d => Ok d
  end.

Definition EncodeHookRecord (r : HookRecord) : result string :=
  let r := if hrec_Version r =? 0 then MkHookRecord HookRecordVersion (hrec_Ref r) (hrec_Dispatched r) (hrec_Result r) else r in
  match hook_Marshal r with
  | Err e => Err (errorf_wrap ("remote: encoding hook record " +:+ Key_String (HookRef_Key (hrec_Ref r)) +:+ ": ") e "")
  | Ok body => Ok (body +:+ nl)
  end.

Definition DecodeHookRecord (body : string) : result HookRecord :=
  match hook_Unmarshal body with
  | Err e => Err (errorf_wrap "remote: decoding hook record: " e "")
  | Ok r =>
      if HookRecordVersion <? hrec_Version r
      then Err (errorf ("remote: hook record is version " +:+ itoa (hrec_Version r) +:+ " and this binary understands "
             +:+ itoa HookRecordVersion))
      else Ok r
  end.

Definition Hook_Path (key : HookKey) : string :=
  root +:+ "/hooks/" +:+ claimFilename (hkey_Claim key) +:+ "-hook-" +:+ shortDigest (Key_String key) +:+ ".json".

Definition LoadHook (key : HookKey) : IO HookRecord :=
  raw ← wrapping (λ e, errorf_wrap ("remote: reading hook record " +:+ Key_String key +:+ ": ") (os_error e) "")
          (inspect (λ d, Ok (rd_files d !! Hook_Path key)));
  match raw with
  | None => throw (errorf_w ErrNoRecord (": " +:+ Key_String key))
  | Some raw =>
      match DecodeHookRecord raw with
      | Err e => throw e
      | Ok r =>
          if negb (bool_decide (HookRef_Key (hrec_Ref r) = key))
          then throw (errorf_w ErrHookMismatch (": hook file " +:+ Hook_Path key +:+ " names "
                 +:+ Key_String (HookRef_Key (hrec_Ref r))))
          else mret r
      end
  end.

Definition SaveHook (r : HookRecord) : IO unit :=
  match EncodeHookRecord r with
  | Err e => throw e
  | Ok body => replaceFile (Hook_Path (HookRef_Key (hrec_Ref r))) body
  end.

Definition DeleteHook (key : HookKey) : IO unit :=
  wrapping (λ e, errorf_wrap ("remote: removing hook record " +:+ Key_String key +:+ ": ") (os_error e) "")
    (call (λ d, (Ok tt, put_file (Hook_Path key) None d))).

(** ** The journal; its state is the record *)

Definition hook_save (cancellable : bool) (r : HookRecord) : IO unit :=
  (if cancellable then syscall else mret tt) ;; SaveHook r.

Definition OpenHookJournal (key : HookKey) : IO HookRecord :=
  if negb (Key_Valid key) then throw (errorf_w ErrHookMismatch ": incomplete hook key")
  else
    r ← LoadHook key;
    if negb (HookRef_Complete (hrec_Ref r))
    then throw (errorf_w ErrHookMismatch (": incomplete hook reference " +:+ Key_String key))
    else mret r.

Definition ReserveHook (ref : HookRef) : IO HookRecord :=
  if negb (HookRef_Complete ref) then throw (errorf_w ErrHookMismatch ": incomplete hook reference")
  else
    let rec := MkHookRecord HookRecordVersion ref false None in
    hook_save true rec ;; mret rec.

(** The record after it, and the outcome. *)
Definition HookDispatch (rec : HookRecord) (start : HookRef → IO HookStatus) : IO (HookRecord * result HookStatus) :=
  if hrec_Dispatched rec
  then mret (rec, Err (errorf_w ErrAlreadyStarted (": hook " +:+ Key_String (HookRef_Key (hrec_Ref rec)))))
  else
    r ← attempt (hook_save true (hrec_dispatched rec));
    match r with
    | Err e => mret (rec, Err e)
    | Ok _ => st ← attempt (start (hrec_Ref rec)); mret (hrec_dispatched rec, st)
    end.

(** [Complete], always called with a context that cannot be cancelled. *)
Definition HookComplete (rec : HookRecord) (res : HookResult) : IO unit := hook_save false (hrec_completed res rec).

(** ** Firing *)

Record ScriptInvocation := MkScript {
  si_Identity : Identity;
  si_ID : string;
  si_Phase : string;
  si_Attempt : Z;
  si_Script : string;
  si_Argv : list string;
  si_Git : GitScope;
  si_Timeout : Z;
}.

Record HookInvocation := MkHookInvocation {
  hi_Identity : Identity;
  hi_ID : string;
  hi_Phase : string;
  hi_Attempt : Z;
  hi_Hooks : Hooks;
}.

Context `{T : GoTables}.
Context (start_status : list (HookRef * HookSpec) → HookRef → HookSpec → HookStatus).

Definition StartScript (ref : HookRef) (spec : HookSpec) : IO HookStatus :=
  call (λ d, (Ok (start_status (rd_hooks d) ref spec), put_hook ref spec d)).

Definition context_done : error := errors_New "context canceled".

(** The reads after a start; each may fail, and there are as many as there are answers. *)
Fixpoint waitHookQuiet (answers : list HookStatus) (status : HookStatus) : IO HookStatus :=
  let read :=
    match answers with
    | [] => throw context_done
    | next :: rest => syscall ;; waitHookQuiet rest next
    end in
  if (hst_State status =? HookStateUnknown) || (hst_State status =? HookStateRunning) then read
  else if hst_State status =? HookStateFinished then
    if hst_Domain status =? DomainStateQuiet then mret status
    else syscall ;; read
  else throw (errorf ("backend returned invalid hook state " +:+ itoa (hst_State status))).

Definition hookResultError (phase : string) (timeout : Z) (res : HookResult) : option error :=
  if hres_TimedOut res
  then Some (errorf_w ErrHookFailed (": " +:+ phase +:+ " timed out after " +:+ duration_string timeout +:+ ": "
         +:+ trim_space (hres_Output res)))
  else if negb (hres_ExitCode res =? 0)
  then Some (errorf_w ErrHookFailed (": " +:+ phase +:+ " exited " +:+ itoa (hres_ExitCode res) +:+ ": "
         +:+ trim_space (hres_Output res)))
  else None.

(** Start, follow and complete; [exec] and [store] say that there is an executor and a
    store at all. The result, and the error the script's own failure is. *)
Definition runScript (exec store : bool) (answers : list HookStatus) (si : ScriptInvocation)
    : IO (HookResult * option error) :=
  let phase := si_Phase si in
  let failed middle e := errorf_both ErrHookFailed middle e in
  let script := trim_space (si_Script si) in
  if bool_decide (script = "") && bool_decide (si_Argv si = []) then mret (no_result, None)
  else if negb (bool_decide (script = "")) && negb (bool_decide (si_Argv si = []))
  then throw (errorf_w ErrHookFailed (": " +:+ phase +:+ " supplies both script and argv"))
  else if match si_Argv si with a :: _ => bool_decide (trim_space a = "") | [] => false end
  then throw (errorf_w ErrHookFailed (": " +:+ phase +:+ " has an empty executable"))
  else
    match Scope_Validate (si_Git si) with
    | Err e => throw (errorf_w ErrHookFailed (": " +:+ phase +:+ ": " +:+ err_text e))
    | Ok _ =>
        if si_Timeout si <=? 0
        then throw (errorf_w ErrHookFailed (": " +:+ phase +:+ " has no timeout, and an unbounded hook on a backend BEN cannot signal holds the claim forever"))
        else if negb exec
        then throw (errorf_w ErrHookFailed (": " +:+ phase +:+ " cannot run — this substrate has no hook executor"))
        else if negb store
        then throw (errorf_w ErrHookFailed (": " +:+ phase +:+ " cannot run — this substrate has no durable hook store"))
        else
          let spec := MkHookSpec (si_Identity si) phase (si_Attempt si) script (si_Argv si) (si_Git si) (si_Timeout si) in
          match HookRequestDigest spec with
          | Err e => throw (failed (": " +:+ phase +:+ ": ") e)
          | Ok digest =>
              let ref := MkHookRef (si_Identity si) (si_ID si) phase (si_Attempt si) digest in
              if negb (HookRef_Complete ref)
              then throw (failed (": " +:+ phase +:+ " has an incomplete durable identity: ") ErrHookMismatch)
              else
                r ← attempt (OpenHookJournal (HookRef_Key ref));
                rec ← match r with
                      | Ok rec =>
                          if negb (bool_decide (hrec_Ref rec = ref))
                          then throw (failed (": " +:+ phase +:+ ": ") ErrHookMismatch) else mret rec
                      | Err e =>
                          if errors_Is e ErrNoRecord
                          then wrapping (failed (": reserving " +:+ phase +:+ ": ")) (ReserveHook ref)
                          else throw (failed (": opening " +:+ phase +:+ ": ") e)
                      end;
                match hrec_Result rec with
                | Some res => mret (res, hookResultError phase (si_Timeout si) res)
                | None =>
                    '(rec, status) ←
                      (if hrec_Dispatched rec then
                         st ← wrapping (failed (": " +:+ phase +:+ " start replay remains ambiguous: "))
                                (StartScript ref spec);
                         mret (rec, st)
                       else
                         '(rec, r) ← HookDispatch rec (λ ref, StartScript ref spec);
                         match r with
                         | Ok st => mret (rec, st)
                         | Err startErr =>
                             st ← wrapping (failed (": " +:+ phase +:+ " start was ambiguous (" +:+ err_text startErr
                                               +:+ ") and exact replay could not resolve it: ")) (StartScript ref spec);
                             mret (rec, st)
                         end);
                    status ← wrapping (failed (": reconciling " +:+ phase +:+ " to domain quiet: "))
                               (waitHookQuiet answers status);
                    wrapping (failed (": recording " +:+ phase +:+ " result: ")) (HookComplete rec (hst_Result status)) ;;
                    mret (hst_Result status, hookResultError phase (si_Timeout si) (hst_Result status))
                end
          end
    end.

(** What the two entry points return: the error, whichever it is. *)
Definition RunScript (exec store : bool) (answers : list HookStatus) (si : ScriptInvocation) : IO unit :=
  '(_, e) ← runScript exec store answers si;
  match e with Some e => throw e | None => mret tt end.

Definition RunHook (exec store : bool) (answers : list HookStatus) (hi : HookInvocation) : IO unit :=
  match Hooks_Script (hi_Hooks hi) (hi_Phase hi) with
  | None => mret tt
  | Some script =>
      RunScript exec store answers (MkScript (hi_Identity hi) (hi_ID hi) (hi_Phase hi) (hi_Attempt hi) script []
                                      no_scope (hk_Timeout (hi_Hooks hi)))
  end.

Record CommandInvocation := MkCommand {
  ci_Identity : Identity;
  ci_ID : string;
  ci_Phase : string;
  ci_Attempt : Z;
  ci_Argv : list string;
  ci_Git : GitScope;
  ci_Timeout : Z;
}.

Definition RunCommand (exec store : bool) (answers : list HookStatus) (ci : CommandInvocation)
    : IO (HookResult * option error) :=
  runScript exec store answers (MkScript (ci_Identity ci) (ci_ID ci) (ci_Phase ci) (ci_Attempt ci) "" (ci_Argv ci)
                                  (ci_Git ci) (ci_Timeout ci)).

Definition Aborts (phase : string) (err : option error) : bool :=
  match err with
  | None => false
  | Some e => errors_Is e ErrHookFailed && bool_decide (ContainmentOf phase = ContainmentAbort)
  end.
End store.

(** ** Leases *)

Inductive LeaseState := LeaseNone | LeaseHeld | LeaseRunning.

Definition Cost (s : LeaseState) : Z := match s with LeaseNone => 0 | _ => 1 end.

Definition LeaseStateOf (rec : RunRecord) (st : Status) : LeaseState :=
  if bool_decide (id_SandboxID (rr_Identity rec) = "") then LeaseNone
  else if rr_Dispatched rec && negb (MayReuse st) then LeaseRunning
  else LeaseHeld.

Definition Active (states : list LeaseState) : Z := foldl (λ n s, n + Cost s) 0 states.

(** ** The gate between a run and its workspace *)

Record AcquireRequest := MkAcquire { aq_Claim : Claim; aq_Branch : string; aq_BaseSHA : string; aq_ProfileRevision : string }.

Definition Phase_String (p : Z) : string :=
  if p =? 0 then "unknown" else if p =? 1 then "starting" else if p =? 2 then "running"
  else if p =? PhaseSignaled then "signaled" else if p =? 4 then "quiet"
  else "Phase(" +:+ itoa p +:+ ")".

Section gate.
Context {D : Type} (acquire : AcquireRequest → FaultIO.IO D Identity) (delete : Claim → FaultIO.IO D unit).

Definition Reacquire (req : AcquireRequest) (prev : Status) : FaultIO.IO D Identity :=
  if negb (MayReuse prev)
  then throw (errorf_w ErrNotQuiet (": " +:+ Claim_String (aq_Claim req) +:+ " is " +:+ Phase_String (ps_Phase prev)))
  else acquire req.

Definition Dispose (claim : Claim) (prev : Status) : FaultIO.IO D unit :=
  if negb (MayReuse prev)
  then throw (errorf_w ErrNotQuiet (": " +:+ Claim_String claim +:+ " is " +:+ Phase_String (ps_Phase prev)))
  else delete claim.
End gate.
