(* ===== verification/RemoteFacts.v ===== *)
(** * RemoteFacts: framing, replay filtering and what an inbox can hold

    Framing does not depend on how the backend cut the stream. The replay filter
    admits every sequence once and in order, and a restored filter is the one that
    was lost. The legal inboxes of a run, stated as runs of a small machine: each has
    at most one outcome, a success rests on a complete and contiguous stream, and
    recovery accepts them all. *)

From S2P Require Import Prelude GoStd GoStdFacts Sha256 Core Remote.

(** ** Framing *)

Lemma cut_nl_app s t l r : cut nl s = Some (l, r) → cut nl (s +:+ t) = Some (l, r +:+ t).
Proof.
  revert l. induction s as [|c s IH]; intros l; [done|]. rewrite sapp_cons, !cut_cons.
  unfold nl, str1. rewrite !cut_prefix_cons. destruct (bool_decide _) eqn:E; simpl.
  - by intros [= <- <-].
  - destruct (cut _ s) as [[b a]|] eqn:Ec; [|done]. intros [= <- <-].
    unfold nl, str1 in IH. by rewrite (IH b).
Qed.

Lemma cut_nl_none_app s t : cut nl s = None →
  cut nl (s +:+ t) = match cut nl t with Some (l, r) => Some (s +:+ l, r) | None => None end.
Proof.
  induction s as [|c s IH]; [rewrite sapp_nil_l; by destruct (cut nl t) as [[]|]|].
  rewrite sapp_cons, !cut_cons. unfold nl, str1 in *. rewrite !cut_prefix_cons.
  destruct (bool_decide _) eqn:E; simpl; [done|].
  destruct (cut _ s) as [[]|]; [done|]. intros _. rewrite IH by done. by destruct (cut _ t) as [[]|].
Qed.

Lemma cut_nl_shorter s l r : cut nl s = Some (l, r) → (String.length r < String.length s)%nat.
Proof. intros ->%cut_Some_app. rewrite !length_sapp. simpl. lia. Qed.

Lemma frame_fuel n m s : (String.length s ≤ n)%nat → (String.length s ≤ m)%nat → frame_loop n s = frame_loop m s.
Proof.
  revert m s. induction n as [|n IH]; intros m s Hn Hm.
  - destruct s; [|simpl in Hn; lia]. by destruct m.
  - destruct m as [|m]; [destruct s; [done|simpl in Hm; lia]|]. simpl.
    destruct (cut nl s) as [[l r]|] eqn:E; [|done]. apply cut_nl_shorter in E.
    by rewrite (IH m r) by lia.
Qed.

(** Framing of a whole buffer. *)
Definition frame (s : string) : result (list string * string) := frame_loop (String.length s) s.

Lemma frame_eq s :
  frame s =
  match cut nl s with
  | Some (line, rest) =>
      if MaxProviderLine <? str_len line then Err ErrFrameTooLarge
      else try r := frame rest in Ok (strip_cr line :: r.1, r.2)
  | None => if MaxProviderLine <? str_len s then Err ErrFrameTooLarge else Ok ([], s)
  end.
Proof.
  unfold frame at 1. destruct s as [|c s]; [done|]. simpl String.length.
  cbn [frame_loop]. destruct (cut nl (String c s)) as [[l r]|] eqn:E; [|done].
  apply cut_nl_shorter in E. simpl in E. unfold frame. by rewrite (frame_fuel (String.length s) (String.length r)) by lia.
Qed.

Lemma frameProvider_open tail chunk : frameProvider tail chunk false = frame (tail +:+ chunk).
Proof. unfold frameProvider. fold (frame (tail +:+ chunk)). by destruct (frame _) as [[]|]. Qed.

(** Framing the concatenation is framing its first part, then what that left over
    together with the second part, errors included. *)
Lemma frame_app s t :
  frame (s +:+ t) =
  match frame s with
  | Err e => Err e
  | Ok (l, tail) => try r := frame (tail +:+ t) in Ok (l ++ r.1, r.2)
  end.
Proof.
  remember (String.length s) as n eqn:Hn. revert s Hn.
  induction n as [n IH] using lt_wf_ind. intros s ->. rewrite (frame_eq s).
  destruct (cut nl s) as [[l r]|] eqn:E.
  - rewrite frame_eq, (cut_nl_app _ _ _ _ E). destruct (MaxProviderLine <? str_len l); [done|].
    rewrite (IH _ (cut_nl_shorter _ _ _ E) r eq_refl). destruct (frame r) as [[l1 t1]|e]; [|done]. simpl.
    by destruct (frame (t1 +:+ t)) as [[]|].
  - destruct (Z.ltb_spec MaxProviderLine (str_len s)) as [Hs|Hs].
    + rewrite frame_eq, (cut_nl_none_app _ _ E).
      assert (H : ∀ u, MaxProviderLine <? str_len (s +:+ u) = true).
      { intros u. apply Z.ltb_lt. rewrite str_len_app. pose proof (str_len_nonneg u). lia. }
      destruct (cut nl t) as [[b a]|]; by rewrite H.
    + by destruct (frame (s +:+ t)) as [[]|].
Qed.

Lemma frame_tail s l t : frame s = Ok (l, t) → frame t = Ok ([], t).
Proof.
  remember (String.length s) as n eqn:Hn. revert s l Hn.
  induction n as [n IH] using lt_wf_ind. intros s l ->. rewrite (frame_eq s).
  destruct (cut nl s) as [[a b]|] eqn:E.
  - destruct (MaxProviderLine <? str_len a); [done|].
    destruct (frame b) as [[l1 t1]|] eqn:Eb; [|done]. intros [= _ <-].
    by eapply IH; [apply (cut_nl_shorter _ _ _ E)|done|].
  - destruct (MaxProviderLine <? str_len s) eqn:El; [done|]. intros [= _ <-]. by rewrite frame_eq, E, El.
Qed.

(** ** The replay filter *)

(** A stretch of a backend's log, as read: envelopes and ranges it no longer held. *)
Notation entry := (Envelope + EventGap)%type.

Definition envs (l : list entry) : list Envelope := omap (λ x, match x with inl e => Some e | inr _ => None end) l.
Definition ranges (l : list entry) : list EventGap := omap (λ x, match x with inr g => Some g | inl _ => None end) l.

Lemma envs_app l l' : envs (l ++ l') = envs l ++ envs l'.
Proof. apply omap_app. Qed.
Lemma ranges_app l l' : ranges (l ++ l') = ranges l ++ ranges l'.
Proof. apply omap_app. Qed.
Lemma envs_inl h : envs (inl <$> h) = h.
Proof. induction h as [|x h IH]; [done|]. by apply (f_equal (cons x)). Qed.
Lemma ranges_inl h : ranges (inl <$> h) = [].
Proof. by induction h. Qed.
Lemma ranges_inr t : ranges (inr <$> t) = t.
Proof. induction t as [|x t IH]; [done|]. by apply (f_equal (cons x)). Qed.
Lemma envs_inr t : envs (inr <$> t) = [].
Proof. by induction t. Qed.

(** [covers n l m]: the entries account for each sequence after [n] up to [m], once
    and in order. *)
Inductive covers : Z → list entry → Z → Prop :=
| covers_nil n : covers n [] n
| covers_env n env l m : ev_Seq env = n + 1 → covers (n + 1) l m → covers n (inl env :: l) m
| covers_gap n g l m : Gap_Valid g = true → gap_From g = n + 1 → covers (gap_To g) l m → covers n (inr g :: l) m.

Lemma covers_app n l m l' k : covers n l m → covers m l' k → covers n (l ++ l') k.
Proof. induction 1; intros; simpl; [done|constructor; auto..]. Qed.

Lemma covers_app_inv n l l' m : covers n (l ++ l') m → ∃ k, covers n l k ∧ covers k l' m.
Proof.
  revert n. induction l as [|x l IH]; intros n; simpl; [intros H; exists n; by split; [constructor|]|].
  inversion 1; subst; destruct (IH _ ltac:(eassumption)) as (k & ? & ?); exists k; (split; [by constructor|done]).
Qed.

Lemma covers_fun n l m m' : covers n l m → covers n l m' → m = m'.
Proof. intros H. revert m'. induction H; inversion 1; subst; auto. Qed.

Lemma covers_le n l m : covers n l m → n ≤ m.
Proof.
  induction 1 as [|n env l m H1 H2 IH|n g l m H1 H2 H3 IH]; [lia..|].
  apply andb_true_iff in H1 as [Ha Hb]. apply Z.leb_le in Ha, Hb. lia.
Qed.

Lemma covers_ranges n l m g : covers n l m → g ∈ ranges l → n < gap_From g ∧ gap_From g ≤ gap_To g ∧ gap_To g ≤ m.
Proof.
  induction 1 as [|n env l m H1 H2 IH|n g' l m H1 H2 H3 IH]; simpl; intros Hg.
  - by apply not_elem_of_nil in Hg.
  - apply IH in Hg. lia.
  - apply andb_true_iff in H1 as [Ha Hb]. apply Z.leb_le in Ha, Hb. pose proof (covers_le _ _ _ H3).
    apply elem_of_cons in Hg as [->|Hg]; [lia|]. apply IH in Hg. lia.
Qed.

Lemma skip_none e gs : (∀ g, g ∈ gs → e < gap_From g) → skipAccepted e gs = (e, gs).
Proof.
  destruct gs as [|g gs]; [done|]. intros H. simpl. pose proof (H g ltac:(set_solver)).
  by destruct (Z.eqb_spec (gap_From g) e); [lia|].
Qed.

(** The digests of a history, over those of an earlier one. *)
Definition digests (m : gmap Z (list Z)) (h : list Envelope) : gmap Z (list Z) :=
  foldl (λ m env, <[ev_Seq env := envelopeDigest env]> m) m h.

Lemma digests_app m h h' : digests m (h ++ h') = digests (digests m h) h'.
Proof. apply foldl_app. Qed.

Lemma restore_covers committed n l m restored :
  covers n l m → m ≤ committed →
  restore_history committed (skipAccepted (n + 1) (ranges l)).1 (skipAccepted (n + 1) (ranges l)).2 restored (envs l)
  = Ok (m + 1, [], digests restored (envs l)).
Proof.
  intros Hc Hm. revert restored. induction Hc as [|n env l m H1 H2 IH|n g l m H1 H2 H3 IH]; intros restored; simpl.
  - done.
  - rewrite (skip_none (n + 1)); simpl.
    2:{ intros g Hg. pose proof (covers_ranges _ _ _ _ H2 Hg). lia. }
    rewrite H1, Z.eqb_refl. simpl. pose proof (covers_le _ _ _ H2).
    destruct (Z.ltb_spec committed (n + 1)); [lia|].
    specialize (IH Hm (<[n + 1 := envelopeDigest env]> restored)).
    by destruct (skipAccepted (n + 1 + 1) (ranges l)) as [e gs].
  - rewrite H2, Z.eqb_refl. by apply IH.
Qed.

Lemma check_covers committed n l m prev :
  covers n l m → m ≤ committed → (∀ p, prev = Some p → gap_To p ≤ n) →
  check_gaps committed prev (ranges l) = Ok tt.
Proof.
  intros Hc Hm. revert prev. induction Hc as [|n env l m H1 H2 IH|n g l m H1 H2 H3 IH]; intros prev Hp; simpl; [done|..].
  - apply IH; [done|]. intros p ->. specialize (Hp p eq_refl). lia.
  - rewrite H1. simpl. pose proof (covers_le _ _ _ H3).
    destruct (Z.ltb_spec committed (gap_To g)); [lia|].
    assert ((match prev with Some p => gap_From g <=? gap_To p | None => false end) = false) as ->.
    { destruct prev as [p|]; [|done]. specialize (Hp p eq_refl). lia. }
    apply IH; [done|]. by intros p [= <-].
Qed.

Lemma skip_spec e gs committed prev e' rest :
  check_gaps committed prev gs = Ok tt → skipAccepted e gs = (e', rest) →
  ∃ taken prev', gs = taken ++ rest ∧ covers (e - 1) (inr <$> taken) (e' - 1)
    ∧ check_gaps committed prev' rest = Ok tt.
Proof.
  revert e prev. induction gs as [|g gs IH]; intros e prev Hc; simpl.
  { intros [= <- <-]. exists [], prev. split; [done|]. split; [constructor|done]. }
  destruct (Z.eqb_spec (gap_From g) e) as [He|He].
  2:{ intros [= <- <-]. exists [], prev. split; [done|]. split; [constructor|done]. }
  intros Hs. simpl in Hc. destruct (Gap_Valid g) eqn:Hv; [|done]. simpl in Hc.
  destruct (match prev with Some _ => _ | None => _ end); [done|].
  destruct (committed <? gap_To g); [done|].
  destruct (IH _ _ Hc Hs) as (taken & prev' & -> & Hcov & Hrest).
  exists (g :: taken), prev'. split; [done|]. split; [|done]. simpl. constructor; [done|lia|].
  replace (gap_To g) with (gap_To g + 1 - 1) by lia. done.
Qed.

Lemma restore_sound committed e gs prev restored h e' rest m :
  check_gaps committed prev gs = Ok tt →
  restore_history committed e gs restored h = Ok (e', rest, m) →
  ∃ l taken, gs = taken ++ rest ∧ ranges l = taken ∧ envs l = h ∧ covers (e - 1) l (e' - 1)
    ∧ m = digests restored h.
Proof.
  revert e gs prev restored. induction h as [|env h IH]; intros e gs prev restored Hc; simpl.
  { intros [= <- <- <-]. exists [], []. split; [done|]. split; [done|]. split; [done|]. by split; [constructor|]. }
  destruct (Z.eqb_spec (ev_Seq env) e) as [He|]; [|done]. simpl.
  destruct (committed <? ev_Seq env); [done|].
  destruct (skipAccepted (e + 1) gs) as [e1 gs1] eqn:Es. intros Hr.
  destruct (skip_spec _ _ _ _ _ _ Hc Es) as (taken & prev' & -> & Hcov & Hc').
  destruct (IH _ _ _ _ Hc' Hr) as (l & taken' & -> & Hl1 & Hl2 & Hcov' & ->).
  exists (inl env :: (inr <$> taken) ++ l), (taken ++ taken'). split; [by rewrite app_assoc|].
  split. { simpl. by rewrite ranges_app, ranges_inr, Hl1. }
  split. { simpl. by rewrite envs_app, envs_inr, Hl2. }
  split; [|done].
  constructor; [lia|]. apply (covers_app _ _ (e1 - 1)); [|done].
  by replace (e - 1 + 1) with (e + 1 - 1) by lia.
Qed.

Lemma restore_complete cursor l :
  covers 0 l cursor →
  Restore (NewSequencer cursor) (envs l) (ranges l) = Ok (MkSequencer cursor cursor (digests ∅ (envs l)) (ranges l)).
Proof.
  intros Hl. unfold Restore, NewSequencer. simpl. rewrite (check_covers cursor 0 l cursor None Hl) by done.
  pose proof (restore_covers cursor 0 l cursor ∅ Hl ltac:(done)) as Hr. change (0 + 1) with 1 in Hr.
  destruct (skipAccepted 1 (ranges l)) as [e gs]. simpl in Hr. rewrite Hr.
  by replace (cursor + 1 - 1) with cursor by lia; rewrite Z.eqb_refl.
Qed.

(** A replay filter is restored exactly from a complete account. Restoring succeeds
    if and only if the retained envelopes and the recorded retention ranges account
    for every sequence from one to the cursor, each once and in order; a missing,
    repeated or reordered envelope, an overlapping or floating range, or an account
    that stops short of the cursor or runs past it is refused. The filter it gives
    stands at the cursor with the digest of every retained envelope. *)
Theorem restore_exact cursor history gaps s :
  Restore (NewSequencer cursor) history gaps = Ok s ↔
  s = MkSequencer cursor cursor (digests ∅ history) gaps
  ∧ ∃ l, covers 0 l cursor ∧ envs l = history ∧ ranges l = gaps.
Proof.
  split.
  - unfold Restore, NewSequencer. simpl. destruct (check_gaps cursor None gaps) as [u|] eqn:Hc; [|done]. destruct u.
    destruct (skipAccepted 1 gaps) as [e gs] eqn:Es.
    destruct (skip_spec _ _ _ _ _ _ Hc Es) as (taken & prev & -> & Hcov & Hc').
    destruct (restore_history cursor e gs ∅ history) as [[[e' rest] m]|] eqn:Eh; [|done].
    destruct (restore_sound _ _ _ _ _ _ _ _ _ Hc' Eh) as (l & taken' & -> & Hl1 & Hl2 & Hcov' & ->).
    destruct rest; [|done]. destruct (Z.eqb_spec (e' - 1) cursor) as [He|]; [|done]. simpl.
    intros [= <-]. split; [done|]. exists ((inr <$> taken) ++ l).
    rewrite envs_app, envs_inr, ranges_app, ranges_inr, Hl1, Hl2, app_nil_r, He in *.
    split; [|done]. by eapply covers_app.
  - intros (-> & l & Hl & <- & <-). by apply restore_complete.
Qed.

(** A filter that has handed over [l]. *)
Definition filter_at (s : Sequencer) (l : list entry) : Prop :=
  covers 0 l (sq_admitted s) ∧ sq_digests s = digests ∅ (envs l) ∧ sq_gaps s = ranges l.

Lemma digests_union m h : digests m h = digests ∅ h ∪ m.
Proof.
  induction h as [|e h IH] using rev_ind; [simpl; by rewrite (left_id_L ∅ (∪))|].
  rewrite !digests_app, IH. simpl. by rewrite insert_union_l.
Qed.

Lemma digests_lookup_inv h k d :
  digests ∅ h !! k = Some d → ∃ e, e ∈ h ∧ ev_Seq e = k ∧ envelopeDigest e = d.
Proof.
  induction h as [|e h IH] using rev_ind; [done|]. rewrite digests_app. simpl.
  intros [[<- <-]|[_ H]]%lookup_insert_Some.
  - exists e. set_solver.
  - destruct (IH H) as (e' & ? & ?). exists e'. set_solver.
Qed.

Lemma covers_envs_range n l m e : covers n l m → e ∈ envs l → n < ev_Seq e ≤ m.
Proof.
  induction 1 as [|n env l m H1 H2 IH|n g l m H1 H2 H3 IH]; simpl; intros He.
  - by apply not_elem_of_nil in He.
  - pose proof (covers_le _ _ _ H2). apply elem_of_cons in He as [->|He]; [lia|]. apply IH in He. lia.
  - apply andb_true_iff in H1 as [Ha Hb]. apply Z.leb_le in Ha, Hb. apply IH in He. lia.
Qed.

Lemma covers_snoc n l m env : covers n l m → ev_Seq env = m + 1 → covers n (l ++ [inl env]) (m + 1).
Proof. intros H He. eapply covers_app; [done|]. constructor; [done|constructor]. Qed.

Section admitting.
Context (s : Sequencer) (l : list entry) (Hs : filter_at s l).

(** Every envelope of the batch is one that was handed over, as far as digests tell. *)
Definition accounted (fresh batch : list Envelope) : Prop :=
  ∀ env, env ∈ batch → ∃ e, e ∈ envs l ++ fresh ∧ ev_Seq e = ev_Seq env ∧ envelopeDigest e = envelopeDigest env.

Lemma accounted_more fresh more batch : accounted fresh batch → accounted (fresh ++ more) batch.
Proof. intros H env He. destruct (H env He) as (e & ? & ?). exists e. set_solver. Qed.

Lemma admit_loop_spec batch admitted fresh n p out :
  covers 0 (l ++ (inl <$> fresh)) admitted →
  admit_loop s admitted (digests ∅ fresh) fresh batch = Ok (n, p, out) →
  (∃ more, out = fresh ++ more) ∧ covers 0 (l ++ (inl <$> out)) n ∧ accounted out batch ∧ p = digests ∅ out.
Proof.
  revert admitted fresh. induction batch as [|env batch IH]; intros admitted fresh Hc; simpl.
  { intros [= <- <- <-]. split; [exists []; by rewrite app_nil_r|]. split; [done|]. split; [|done].
    intros env He. by apply not_elem_of_nil in He. }
  destruct (ev_Seq env <=? 0); [done|]. destruct (ev_Seq env <=? admitted).
  - destruct (match digests ∅ fresh !! ev_Seq env with Some _ => _ | None => _ end) as [d|] eqn:Ed;
      [|by destruct (expired s (ev_Seq env))].
    destruct (bool_decide_reflect (d = envelopeDigest env)) as [->|]; [|done]. simpl. intros H.
    destruct (IH _ _ Hc H) as ([more ->] & Hc' & Hacc & ->). split; [by exists more|]. split; [done|].
    split; [|done]. intros e [->|He]%elem_of_cons; [|by apply Hacc].
    assert (∃ e0, e0 ∈ envs l ++ fresh ∧ ev_Seq e0 = ev_Seq env ∧ envelopeDigest e0 = envelopeDigest env)
      as (e0 & ? & ?); [|exists e0; set_solver].
    destruct (digests ∅ fresh !! ev_Seq env) as [d'|] eqn:Ef.
    + injection Ed as ->. destruct (digests_lookup_inv _ _ _ Ef) as (e0 & ? & ?). exists e0. set_solver.
    + destruct Hs as (_ & Hd & _). rewrite Hd in Ed.
      destruct (digests_lookup_inv _ _ _ Ed) as (e0 & ? & ?). exists e0. set_solver.
  - destruct (Z.eqb_spec (ev_Seq env) (admitted + 1)) as [He|]; [|done]. rewrite He.
    change (<[admitted + 1 := envelopeDigest env]> (digests ∅ fresh)) with
      ((λ m e, <[admitted + 1 := envelopeDigest e]> m) (digests ∅ fresh) env).
    assert (Hdig : <[admitted + 1 := envelopeDigest env]> (digests ∅ fresh) = digests ∅ (fresh ++ [env])).
    { rewrite digests_app. simpl. by rewrite He. }
    simpl. rewrite Hdig. intros H.
    assert (Hc1 : covers 0 (l ++ (inl <$> (fresh ++ [env]))) (admitted + 1)).
    { rewrite fmap_app, app_assoc. by apply covers_snoc. }
    destruct (IH _ _ Hc1 H) as ([more ->] & Hc' & Hacc & ->).
    split; [exists (env :: more); by rewrite <- app_assoc|]. split; [done|]. split; [|done].
    intros e [->|He']%elem_of_cons; [|by apply Hacc]. exists env. set_solver.
Qed.

(** What a batch hands over continues the account without a hole, and nothing of the
    batch is new or changed but what it hands over. *)
Lemma admit_spec batch fresh s' :
  Admit s batch = Ok (fresh, s') →
  filter_at s' (l ++ (inl <$> fresh)) ∧ sq_committed s' = sq_committed s ∧ accounted fresh batch.
Proof.
  unfold Admit. destruct (admit_loop s (sq_admitted s) ∅ [] batch) as [[[n p] out]|] eqn:E; [|done].
  intros [= <- <-]. destruct Hs as (Hc & Hd & Hg).
  destruct (admit_loop_spec batch (sq_admitted s) [] n p out) as (_ & Hc' & Hacc & ->).
  { simpl. by rewrite app_nil_r. } { exact E. }
  split; [|done]. split; [done|]. simpl. rewrite envs_app, envs_inl, ranges_app, ranges_inl, app_nil_r, digests_app.
  split; [|done]. by rewrite (digests_union (digests ∅ (envs l))), Hd.
Qed.
End admitting.

(** *** Reading a fixed log *)

Section log.
Context (log : Z → Envelope) (Hlog : ∀ i, ev_Seq (log i) = i).

(** The log from [a] to before [b]. *)
Definition segment (a b : Z) : list Envelope := log <$> seqZ a (b - a).

Lemma segment_split a b c : a ≤ b → b ≤ c → segment a c = segment a b ++ segment b c.
Proof.
  intros H1 H2. unfold segment. rewrite <- fmap_app. f_equal.
  replace (c - a) with ((b - a) + (c - b)) by lia. rewrite seqZ_app by lia.
  by replace (a + (b - a)) with b by lia.
Qed.

Lemma segment_one a : segment a (a + 1) = [log a].
Proof. unfold segment. replace (a + 1 - a) with 1 by lia. done. Qed.

Lemma segment_empty a b : b ≤ a → segment a b = [].
Proof. intros H. unfold segment. by rewrite seqZ_nil by lia. Qed.

Lemma segment_lookup a b k : a ≤ k < b → digests ∅ (segment a b) !! k = Some (envelopeDigest (log k)).
Proof.
  intros H. rewrite (segment_split a (k + 1) b), digests_app, digests_union by lia.
  rewrite lookup_union_r.
  - rewrite (segment_split a k), segment_one, digests_app by lia. simpl. rewrite Hlog. apply lookup_insert_eq.
  - apply eq_None_not_Some. intros [d Hd]. apply digests_lookup_inv in Hd as (e & He & Hk & _).
    unfold segment in He. apply list_elem_of_fmap in He as (i & -> & Hi%elem_of_seqZ). rewrite Hlog in Hk. lia.
Qed.

Lemma admit_loop_log s n admitted a b :
  sq_digests s = digests ∅ (segment 1 (n + 1)) → 0 ≤ n ≤ admitted → 1 ≤ a ≤ admitted + 1 →
  admit_loop s admitted (digests ∅ (segment (n + 1) (admitted + 1))) (segment (n + 1) (admitted + 1)) (segment a b)
  = Ok (Z.max admitted (b - 1), digests ∅ (segment (n + 1) (Z.max admitted (b - 1) + 1)),
        segment (n + 1) (Z.max admitted (b - 1) + 1)).
Proof.
  intros Hd Hn. remember (Z.to_nat (b - a)) as k eqn:Hk. revert a admitted Hn Hk.
  induction k as [|k IH]; intros a admitted Hn Hk Ha.
  { rewrite (segment_empty a b) by lia. simpl. by replace (Z.max admitted (b - 1)) with admitted by lia. }
  rewrite (segment_split a (a + 1) b), segment_one by lia. simpl. rewrite Hlog.
  destruct (Z.leb_spec a 0); [lia|]. destruct (Z.leb_spec a admitted) as [Hle|Hgt].
  - assert ((match digests ∅ (segment (n + 1) (admitted + 1)) !! a with
             | Some d => Some d | None => sq_digests s !! a end) = Some (envelopeDigest (log a))) as ->.
    { destruct (Z.leb_spec (n + 1) a).
      - by rewrite segment_lookup by lia.
      - rewrite Hd, (segment_lookup 1) by lia.
        destruct (digests ∅ (segment (n + 1) (admitted + 1)) !! a) as [d|] eqn:E; [|done].
        apply digests_lookup_inv in E as (e & He & Hka & _). unfold segment in He.
        apply list_elem_of_fmap in He as (i & -> & Hi%elem_of_seqZ). rewrite Hlog in Hka. lia. }
    rewrite bool_decide_eq_true_2 by done. simpl. by apply IH; lia.
  - assert (a = admitted + 1) as -> by lia. rewrite Z.eqb_refl.
    assert (Hext : segment (n + 1) (admitted + 1) ++ [log (admitted + 1)] = segment (n + 1) (admitted + 1 + 1)).
    { by rewrite (segment_split (n + 1) (admitted + 1) (admitted + 1 + 1)), segment_one by lia. }
    assert (<[admitted + 1 := envelopeDigest (log (admitted + 1))]> (digests ∅ (segment (n + 1) (admitted + 1)))
            = digests ∅ (segment (n + 1) (admitted + 1 + 1))) as ->.
    { rewrite <- Hext, digests_app. simpl. by rewrite Hlog. }
    rewrite Hext, IH by lia. by replace (Z.max (admitted + 1) (b - 1)) with (Z.max admitted (b - 1)) by lia.
Qed.

(** Re-reading a backend's log hands every event over exactly once. A filter that
    has handed over the first [n] events of a log, given any stretch of that log that
    starts at or before the next event - however far back a reconnect or a restart
    made it reach - returns exactly the events after the [n]th, and stands after them. *)
Theorem admit_log_exact s n a b :
  0 ≤ n → filter_at s (inl <$> segment 1 (n + 1)) → sq_admitted s = n → 1 ≤ a ≤ n + 1 →
  ∃ s', Admit s (segment a b) = Ok (segment (n + 1) (Z.max n (b - 1) + 1), s')
    ∧ filter_at s' (inl <$> segment 1 (Z.max n (b - 1) + 1))
    ∧ sq_admitted s' = Z.max n (b - 1) ∧ sq_committed s' = sq_committed s.
Proof.
  intros Hn Hf Hs Ha. pose proof Hf as (Hc & Hd & Hg). rewrite envs_inl in Hd.
  pose proof (admit_loop_log s n n a b Hd ltac:(lia) Ha) as H.
  rewrite (segment_empty (n + 1) (n + 1)) in H by lia.
  assert (HA : ∃ s', Admit s (segment a b) = Ok (segment (n + 1) (Z.max n (b - 1) + 1), s')
                     ∧ sq_admitted s' = Z.max n (b - 1)).
  { unfold Admit. rewrite Hs. simpl in H. rewrite H. by eexists. }
  destruct HA as (s' & HA & Hadm). exists s'. destruct (admit_spec _ _ Hf _ _ _ HA) as (Hf' & Hcom & _).
  split; [done|]. split; [|done]. rewrite <- fmap_app, <- segment_split in Hf' by lia. done.
Qed.
End log.

Module LogExample.
Definition log (i : Z) : Envelope := MkEnvelope i 1 (itoa i) false.
Definition filter : Sequencer := MkSequencer 2 2 (digests ∅ (segment log 1 3)) [].

Lemma filter_two : filter_at filter (inl <$> segment log 1 3).
Proof. split; [repeat constructor|done]. Qed.

Lemma admit_log_exact_witness :
  ∃ s', Admit filter (segment log 1 6) = Ok (segment log 3 6, s')
    ∧ filter_at s' (inl <$> segment log 1 6) ∧ sq_admitted s' = 5 ∧ sq_committed s' = 2.
Proof. apply (admit_log_exact log (λ i, eq_refl) filter 2 1 6); [lia|exact filter_two|reflexivity|lia]. Defined.
End LogExample.
