(* ===== verification/RemoteRun.v ===== *)
(** * RemoteRun: the legal inboxes of a remote run

    An abstract machine whose steps are the consumptions an attempt may commit and
    whose state is the decoder's position. Its runs decode the provider's output as if
    it had been read in one piece, have at most one outcome, succeed only on a
    complete stream, and are accepted by recovery. *)

From Stdlib Require Import Ascii.
From S2P Require Import Prelude GoStd GoStdFacts Sha256 FaultIO Core Remote RemoteJournal.
From S2P Require Import RemoteAttempt RemoteFacts.

Section machine.
Context (translate : string → list Event).

Notation translateLines := (translateLines translate).

(** ** Events *)

Lemma terminalType_app a b :
  terminalType (a ++ b) = if bool_decide (terminalType a = "") then terminalType b else terminalType a.
Proof.
  induction a as [|e a IH]; [done|]. simpl. destruct (isTerminal e) eqn:E; [|done].
  rewrite bool_decide_eq_false_2; [done|]. intros H. unfold isTerminal in E. rewrite H in E. done.
Qed.

Lemma terminalType_values evs : terminalType evs = "" ∨ terminalType evs = EventSucceeded ∨ terminalType evs = EventFailed.
Proof.
  induction evs as [|e evs IH]; [by left|]. simpl. destruct (isTerminal e) eqn:E; [|done].
  unfold isTerminal in E. apply orb_true_iff in E as [E|E]; apply bool_decide_eq_true in E; auto.
Qed.

Lemma translateLines_app l1 l2 :
  translateLines (l1 ++ l2) =
  if hasTerminal (translateLines l1) then translateLines l1 else translateLines l1 ++ translateLines l2.
Proof.
  unfold hasTerminal. induction l1 as [|x l1 IH]; [done|]. simpl.
  destruct (hasTerminal (translate x)) eqn:E; unfold hasTerminal in E.
  - by rewrite E.
  - rewrite terminalType_app. apply negb_false_iff in E. rewrite E, IH.
    destruct (negb (bool_decide (terminalType (translateLines l1) = ""))); [done|by rewrite app_assoc].
Qed.

(** ** The machine *)

(** The position of the decoder: cursor, unterminated line, outcome (empty for none). *)
Record pos := MkPos { p_cursor : Z; p_tail : string; p_out : string }.
Definition start : pos := MkPos 0 "" "".
Definition p_terminal (p : pos) : bool := negb (bool_decide (p_out p = "")).
Definition p_checkpoint (p : pos) : Checkpoint := MkCheckpoint (p_cursor p) (p_tail p) (p_terminal p).

(** The outcome after more events. *)
Definition outcome (p : pos) (events : list Event) : string :=
  if p_terminal p then p_out p else terminalType events.

Definition event_step (p : pos) (env : Envelope) : Consumption * pos :=
  let id := "event:" +:+ itoa (ev_Seq env) in
  let decoded :=
    if (ev_Stream env =? StreamStdout) && negb (p_terminal p) then
      match frameProvider (p_tail p) (ev_Payload env) false with
      | Err e => Err e
      | Ok (lines, tail) => Ok (translateLines lines, tail)
      end
    else Ok ([], p_tail p) in
  match decoded with
  | Err _ => (MkConsumption id (MkCheckpoint (ev_Seq env) "" true) (Some env) [failed_crashed] None,
              MkPos (ev_Seq env) "" EventFailed)
  | Ok (events, tail) =>
      let p' := MkPos (ev_Seq env) (if p_terminal p || hasTerminal events then "" else tail) (outcome p events) in
      (MkConsumption id (MkCheckpoint (ev_Seq env) (p_tail p') (p_terminal p || hasTerminal events))
         (Some env) events None, p')
  end.

(** A verdict of the attempt's own, where it stands. *)
Definition local_step (p : pos) (id : string) : Consumption * pos :=
  (MkConsumption id (MkCheckpoint (p_cursor p) (p_tail p) true) None [failed_crashed] None,
   MkPos (p_cursor p) (p_tail p) EventFailed).

Definition seal_events (p : pos) : list Event :=
  if p_terminal p then []
  else
    let events := translateLines (match frameProvider (p_tail p) "" true with Ok (lines, _) => lines | Err _ => [] end) in
    if negb (hasTerminal events) then events ++ [failed_crashed] else events.

Definition seal_step (p : pos) : Consumption * pos :=
  (MkConsumption ("stream-sealed:" +:+ itoa (p_cursor p)) (MkCheckpoint (p_cursor p) "" true) None (seal_events p) None,
   MkPos (p_cursor p) "" (outcome p (seal_events p))).

Definition gap_step (p : pos) (g : EventGap) : Consumption * pos :=
  (MkConsumption ("event-gap:" +:+ itoa (gap_From g) +:+ "-" +:+ itoa (gap_To g)) (MkCheckpoint (gap_To g) "" true)
     None (if p_terminal p then [] else [failed_crashed]) (Some g),
   MkPos (gap_To g) "" (if p_terminal p then p_out p else EventFailed)).

(** The names of the attempt's own verdicts. *)
Definition local_id (id : string) : Prop :=
  ∃ n, id = "stream-refused:" +:+ itoa n ∨ id = "sequence-error:" +:+ itoa n.

Inductive step (p : pos) : Consumption → pos → Prop :=
| step_event env : ev_Seq env = p_cursor p + 1 → step p (event_step p env).1 (event_step p env).2
| step_local id : p_out p = "" → local_id id → step p (local_step p id).1 (local_step p id).2
| step_seal : step p (seal_step p).1 (seal_step p).2
| step_gap g : Gap_Valid g = true → gap_From g = p_cursor p + 1 → p_out p ≠ EventSucceeded →
    step p (gap_step p g).1 (gap_step p g).2.

Inductive run : list Consumption → pos → Prop :=
| run_nil : run [] start
| run_snoc items p item p' : run items p → step p item p' → run (items ++ [item]) p'.

(** ** What the items of a run say *)

Definition item_entries (c : Consumption) : list entry :=
  match cn_Envelope c with Some e => [inl e] | None => [] end ++ match cn_Gap c with Some g => [inr g] | None => [] end.
Definition entries (items : list Consumption) : list entry := items ≫= item_entries.
Definition all_events (items : list Consumption) : list Event := items ≫= cn_Events.

Lemma entries_app a b : entries (a ++ b) = entries a ++ entries b.
Proof. apply bind_app. Qed.
Lemma all_events_app a b : all_events (a ++ b) = all_events a ++ all_events b.
Proof. apply bind_app. Qed.

Lemma event_step_env p env : cn_Envelope (event_step p env).1 = Some env ∧ cn_Gap (event_step p env).1 = None
  ∧ cn_ID (event_step p env).1 = "event:" +:+ itoa (ev_Seq env) ∧ p_cursor (event_step p env).2 = ev_Seq env.
Proof. unfold event_step. by destruct (if _ && _ then _ else _) as [[events tail]|e]. Qed.

Lemma step_entries p item p' :
  step p item p' → covers (p_cursor p) (item_entries item) (p_cursor p').
Proof.
  destruct 1 as [env H|id _ _|  |g H1 H2 _].
  - destruct (event_step_env p env) as (E1 & E2 & _ & E4). unfold item_entries. rewrite E1, E2, E4.
    simpl. rewrite H. constructor; [done|constructor].
  - constructor.
  - constructor.
  - simpl. constructor; [done..|constructor].
Qed.

(** The items of a run account for every sequence up to its cursor. *)
Lemma run_covers items p : run items p → covers 0 (entries items) (p_cursor p).
Proof.
  induction 1 as [|items p item p' H IH Hs]; [constructor|].
  rewrite entries_app. eapply covers_app; [exact IH|]. unfold entries. simpl. rewrite app_nil_r. by apply step_entries.
Qed.

Lemma step_checkpoint p item p' : step p item p' →
  cn_Checkpoint item = p_checkpoint p' ∧ p_out p' = outcome p (cn_Events item)
  ∧ (p_terminal p = true → p_terminal p' = true ∧ cn_Events item = []).
Proof.
  destruct 1 as [env H|id H1 _|  |g H1 H2 H3].
  - unfold event_step, p_checkpoint, outcome.
    destruct ((ev_Stream env =? StreamStdout) && negb (p_terminal p)) eqn:E.
    + apply andb_true_iff in E as [_ E]. apply negb_true_iff in E. rewrite E.
      destruct (frameProvider (p_tail p) (ev_Payload env) false) as [[lines t]|]; done.
    + simpl. unfold p_terminal, outcome. simpl. destruct (bool_decide (p_out p = "")) eqn:Eo; simpl.
      * done.
      * by rewrite Eo.
  - unfold p_checkpoint, outcome, p_terminal. simpl. rewrite H1. done.
  - unfold p_checkpoint, seal_step, outcome. simpl. destruct (p_terminal p) eqn:Et.
    + assert (seal_events p = []) as -> by (unfold seal_events; by rewrite Et).
      unfold p_terminal in *. simpl. rewrite Et. split; [done|]. split; [done|]. by intros _.
    + assert (p_terminal (MkPos (p_cursor p) "" (terminalType (seal_events p))) = true) as ->; [|done].
      unfold seal_events. rewrite Et. destruct (hasTerminal _) eqn:Eh; simpl.
      * exact Eh.
      * unfold p_terminal, hasTerminal in *. simpl. rewrite terminalType_app.
        apply negb_false_iff in Eh. by rewrite Eh.
  - unfold p_checkpoint, gap_step, outcome, p_terminal. simpl.
    destruct (bool_decide (p_out p = "")) eqn:E; simpl.
    + by split; [reflexivity|]; split; [reflexivity|].
    + by rewrite E.
Qed.

Lemma run_cursor items p : run items p → 0 ≤ p_cursor p.
Proof. intros H. by apply run_covers, covers_le in H. Qed.

Lemma run_out items p : run items p → p_out p = "" ∨ p_out p = EventSucceeded ∨ p_out p = EventFailed.
Proof.
  induction 1 as [|items p item p' H IH Hs]; [by left|].
  apply step_checkpoint in Hs as (_ & -> & _). unfold outcome.
  destruct (p_terminal p); [done|apply terminalType_values].
Qed.

Lemma p_terminal_true p : p_terminal p = true ↔ p_out p ≠ "".
Proof. unfold p_terminal. by rewrite negb_true_iff, bool_decide_eq_false. Qed.
Lemma p_terminal_false p : p_terminal p = false ↔ p_out p = "".
Proof. unfold p_terminal. by rewrite negb_false_iff, bool_decide_eq_true. Qed.

(** An outcome is never taken back, and nothing normalized follows it. *)
Lemma step_closed p item p' : step p item p' → p_out p ≠ "" → p_out p' = p_out p ∧ cn_Events item = [].
Proof.
  intros Hs Ho. apply p_terminal_true in Ho. apply step_checkpoint in Hs as (_ & -> & H).
  destruct (H Ho) as [_ ->]. unfold outcome. by rewrite Ho.
Qed.

Lemma run_outcome items p : run items p → p_out p = terminalType (all_events items).
Proof.
  induction 1 as [|items p item p' H IH Hs]; [done|].
  rewrite all_events_app, terminalType_app, <- IH. unfold all_events. simpl. rewrite app_nil_r.
  destruct (bool_decide_reflect (p_out p = "")) as [E|E].
  - apply step_checkpoint in Hs as (_ & -> & _). unfold outcome. apply p_terminal_false in E. by rewrite E.
  - by apply step_closed in Hs as [-> _].
Qed.

(** A run's position is a function of its items, and runs are closed under prefixes. *)
Lemma step_fun p c p1 p2 : step p c p1 → step p c p2 → p1 = p2.
Proof.
  intros (Hc1 & Ho1 & _)%step_checkpoint (Hc2 & Ho2 & _)%step_checkpoint.
  rewrite Hc1 in Hc2. destruct p1, p2. simpl in *. injection Hc2 as -> -> _. by rewrite Ho1, Ho2.
Qed.

Lemma run_snoc_inv items c p' : run (items ++ [c]) p' → ∃ p, run items p ∧ step p c p'.
Proof.
  intros H. remember (items ++ [c]) as l eqn:E. destruct H as [|items' p item p' H Hs]; [by destruct items|].
  apply app_inj_tail in E as [-> ->]. by exists p.
Qed.

Lemma run_fun items p1 p2 : run items p1 → run items p2 → p1 = p2.
Proof.
  intros H. revert p2. induction H as [|items p item p' H IH Hs]; intros p2 H2.
  - by inversion H2 as [|i q it q' _ _ E]; [|destruct i].
  - apply run_snoc_inv in H2 as (q & Hq & Hs2). rewrite <- (IH _ Hq) in Hs2. by eapply step_fun.
Qed.

Lemma run_prefix a b p : run (a ++ b) p → ∃ q, run a q.
Proof.
  revert p. induction b as [|c b IH] using rev_ind; intros p H; [rewrite app_nil_r in H; by exists p|].
  rewrite app_assoc in H. apply run_snoc_inv in H as (q & Hq & _). by eapply IH.
Qed.

Lemma run_cursor_le a b p q : run a p → run (a ++ b) q → p_cursor p ≤ p_cursor q.
Proof.
  intros Hp Hq. pose proof (run_covers _ _ Hq) as Hc. rewrite entries_app in Hc.
  apply covers_app_inv in Hc as (k & Hk & Hc). rewrite (covers_fun _ _ _ _ (run_covers _ _ Hp) Hk). by eapply covers_le.
Qed.

(** ** Recovery accepts every run *)

Lemma reconcile_app r a b :
  reconcile_items r (a ++ b) = try r' := reconcile_items r a in reconcile_items r' b.
Proof.
  revert r. induction a as [|x a IH]; intros r; [done|]. simpl.
  destruct (reconcile_item r x); [apply IH|done].
Qed.

Lemma check_gap_step items p g :
  run items p → Gap_Valid g = true → gap_From g = p_cursor p + 1 → p_out p ≠ EventSucceeded →
  check_gap_item (p_checkpoint p) (p_out p) (gap_step p g).1 g = Ok tt.
Proof.
  intros Hr H1 H2 H3. unfold check_gap_item. simpl. rewrite H1, H2, !Z.eqb_refl. simpl.
  rewrite (bool_decide_eq_false_2 (p_out p = EventSucceeded)) by done. unfold p_terminal.
  destruct (run_out _ _ Hr) as [->|[?| ->]]; [vm_compute; reflexivity|done|vm_compute; reflexivity].
Qed.

Lemma reconcile_step first h gs items p item p' :
  run items p → step p item p' →
  reconcile_item (MkRecovery first (p_checkpoint p) h gs (p_out p)) item
  = Ok (MkRecovery false (p_checkpoint p') (h ++ envs (item_entries item)) (gs ++ ranges (item_entries item)) (p_out p')).
Proof.
  intros Hr Hs. pose proof (step_checkpoint _ _ _ Hs) as (Hcp & Ho & Ht).
  pose proof (covers_le _ _ _ (step_entries _ _ _ Hs)) as Hle. pose proof (run_cursor _ _ Hr) as Hpos.
  unfold reconcile_item. rewrite Hcp. cbn [rc_first rc_latest rc_history rc_gaps rc_terminal].
  change (cp_Cursor (p_checkpoint p')) with (p_cursor p'). change (cp_Cursor (p_checkpoint p)) with (p_cursor p).
  destruct (Z.ltb_spec (p_cursor p') (p_cursor p)); [lia|]. rewrite andb_false_r.
  change (cp_Terminal (p_checkpoint p)) with (p_terminal p). change (cp_Terminal (p_checkpoint p')) with (p_terminal p').
  assert (p_terminal p && negb (p_terminal p') = false) as ->.
  { destruct (p_terminal p) eqn:E; [|done]. by destruct (Ht eq_refl) as [-> _]. }
  assert ((if negb (bool_decide (terminalType (cn_Events item) = "")) then
             if negb (bool_decide (p_out p = "")) || negb (p_terminal p')
             then Err (errorf_w ErrEventConflict ": durable consumer has an inconsistent terminal consequence")
             else Ok (terminalType (cn_Events item))
           else if negb (bool_decide (p_out p = "")) && negb (bool_decide (cn_Events item = []))
           then Err (errorf_w ErrEventConflict ": durable consumer has normalized events after terminal")
           else Ok (p_out p)) = Ok (p_out p')) as ->.
  { rewrite Ho. unfold outcome. fold (p_terminal p). destruct (p_terminal p) eqn:E.
    - destruct (Ht eq_refl) as [_ ->]. done.
    - destruct (bool_decide_reflect (terminalType (cn_Events item) = "")) as [Ei|Ei]; simpl.
      + apply p_terminal_false in E. congruence.
      + unfold p_terminal. rewrite Ho. unfold outcome. rewrite E. by rewrite bool_decide_eq_false_2. }
  destruct Hs as [env Hseq|id H1 _|  |g H1 H2 H3].
  - destruct (event_step_env p env) as (E1 & E2 & _ & E4). unfold item_entries. rewrite E1, E2, E4. simpl.
    destruct (Z.leb_spec (ev_Seq env) 0); [lia|]. destruct (Z.ltb_spec (ev_Seq env) (ev_Seq env)); [lia|]. simpl.
    by rewrite app_nil_r.
  - unfold item_entries. simpl. by rewrite !app_nil_r.
  - unfold item_entries. simpl. by rewrite !app_nil_r.
  - change (cn_Gap (gap_step p g).1) with (Some g). change (cn_Envelope (gap_step p g).1) with (@None Envelope).
    cbv beta iota. rewrite (check_gap_step items p g) by done. unfold item_entries. simpl. by rewrite app_nil_r.
Qed.

Lemma reconcile_run items p :
  run items p →
  reconcile_items (MkRecovery true no_checkpoint [] [] "") items
  = Ok (MkRecovery (bool_decide (items = [])) (p_checkpoint p) (envs (entries items)) (ranges (entries items)) (p_out p)).
Proof.
  induction 1 as [|items p item p' H IH Hs]; [done|]. rewrite reconcile_app, IH. simpl.
  rewrite (reconcile_step _ _ _ items p item p') by done.
  rewrite entries_app, envs_app, ranges_app. unfold entries at 5 6. simpl. rewrite app_nil_r.
  by rewrite (bool_decide_eq_false_2 (items ++ [item] = [])) by (by destruct items).
Qed.

(** The journal's view of a run, which may lag behind it. *)
Definition lags (local : Checkpoint) (items : list Consumption) (p : pos) : Prop :=
  (items = [] → local = no_checkpoint) ∧ cp_Cursor local ≤ p_cursor p
  ∧ (cp_Terminal local = true → p_terminal p = true).

Lemma recovery_accepts local items p :
  run items p → lags local items p →
  reconcileRecovery local items = Ok (p_checkpoint p, envs (entries items), ranges (entries items)).
Proof.
  intros Hr (H0 & Hc & Ht). unfold reconcileRecovery. destruct items as [|x items].
  - rewrite H0 by done. inversion Hr as [|i q it q' _ _ E]; [done|]. by destruct i.
  - rewrite (reconcile_run _ _ Hr). cbn [rc_latest rc_terminal rc_history rc_gaps].
    change (cp_Cursor (p_checkpoint p)) with (p_cursor p). change (cp_Terminal (p_checkpoint p)) with (p_terminal p).
    destruct (Z.ltb_spec (p_cursor p) (cp_Cursor local)); [lia|].
    destruct (cp_Terminal local); [rewrite Ht by done|]; simpl.
    + specialize (Ht eq_refl). apply p_terminal_true in Ht. by rewrite bool_decide_eq_false_2.
    + unfold p_terminal. by destruct (bool_decide (p_out p = "")).
Qed.

(** ** Idempotency keys *)

Definition event_id (n : Z) : string := "event:" +:+ itoa n.

(** A prefix that is not an envelope's. *)
Lemma event_id_ne n x : event_id n ≠ "event-gap:" +:+ x ∧ event_id n ≠ "stream-sealed:" +:+ x
  ∧ event_id n ≠ "stream-refused:" +:+ x ∧ event_id n ≠ "sequence-error:" +:+ x.
Proof. unfold event_id. generalize (itoa n). intros t. by split_and!. Qed.

Lemma step_ids p item p' : step p item p' →
  (∃ n, n = p_cursor p' ∧ n = p_cursor p + 1 ∧ cn_ID item = event_id n)
  ∨ (p_out p' ≠ "" ∧ ((∃ g, Gap_Valid g = true ∧ gap_From g = p_cursor p + 1 ∧ gap_To g = p_cursor p'
                          ∧ cn_ID item = "event-gap:" +:+ itoa (gap_From g) +:+ "-" +:+ itoa (gap_To g))
                     ∨ (∃ x, cn_ID item = "stream-sealed:" +:+ x ∨ cn_ID item = "stream-refused:" +:+ x
                             ∨ cn_ID item = "sequence-error:" +:+ x))).
Proof.
  intros Hs. pose proof (step_checkpoint _ _ _ Hs) as (Hcp & Ho & Ht).
  destruct Hs as [env Hseq|id H1 H2|  |g H1 H2 H3].
  - left. destruct (event_step_env p env) as (_ & _ & E3 & E4). exists (ev_Seq env). by rewrite E4, E3.
  - right. split; [done|]. right. destruct H2 as [n [-> | ->]]; exists (itoa n); auto.
  - right. split; [|right; exists (itoa (p_cursor p)); by left].
    apply p_terminal_true. by apply (f_equal cp_Terminal) in Hcp.
  - right. split; [|left; by exists g]. apply p_terminal_true. by apply (f_equal cp_Terminal) in Hcp.
Qed.

(** An envelope beyond the cursor has not been committed under its key. *)
Lemma event_id_fresh items p c n : run items p → c ∈ items → p_cursor p < n → cn_ID c ≠ event_id n.
Proof.
  intros H. revert c n. induction H as [|items p item p' H IH Hs]; intros c n Hc Hn; [by apply not_elem_of_nil in Hc|].
  pose proof (covers_le _ _ _ (step_entries _ _ _ Hs)). pose proof (run_cursor _ _ H).
  apply elem_of_app in Hc as [Hc| ->%list_elem_of_singleton]; [by apply IH; [|lia]|].
  destruct (step_ids _ _ _ Hs) as [(m & -> & Hm & ->)|(_ & [(g & _ & _ & _ & ->)|(x & [-> | [-> | ->]])])];
    try (intros E; symmetry in E; revert E; apply event_id_ne).
  intros E. unfold event_id in E. apply sapp_inj_l, itoa_inj in E; lia.
Qed.

(** Nor has a gap that starts beyond it. *)
Lemma gap_id_fresh items p c g :
  run items p → c ∈ items → p_cursor p < gap_From g →
  cn_ID c ≠ "event-gap:" +:+ itoa (gap_From g) +:+ "-" +:+ itoa (gap_To g).
Proof.
  intros H. revert c. induction H as [|items p item p' H IH Hs]; intros c Hc Hn; [by apply not_elem_of_nil in Hc|].
  pose proof (covers_le _ _ _ (step_entries _ _ _ Hs)). pose proof (run_cursor _ _ H).
  apply elem_of_app in Hc as [Hc| ->%list_elem_of_singleton]; [by apply IH; [|lia]|].
  destruct (step_ids _ _ _ Hs) as [(m & -> & Hm & ->)|(_ & [(g' & Hv & Hf & Ht & ->)|(x & [-> | [-> | ->]])])];
    try apply event_id_ne; [|by generalize (itoa (gap_From g)), (itoa (gap_To g)); intros ? ? ..].
  intros E. apply sapp_inj_l in E. apply andb_true_iff in Hv as [Hv1 Hv2]. apply Z.leb_le in Hv1, Hv2.
  assert (Hcut : ∀ a b, 0 ≤ a → cut "-" (itoa a +:+ "-" +:+ b) = Some (itoa a, b)).
  { intros a b Ha. change ("-" +:+ b) with (String "-"%char b). apply (cut_at_first_byte "-"%char).
    by apply (all_bytes_avoids is_digit); [apply itoa_pos_spec|]. }
  apply (f_equal (cut "-")) in E. rewrite !Hcut in E by lia. injection E as E _.
  apply itoa_inj in E; lia.
Qed.

(** While there is no outcome, every item is an envelope's. *)
Lemma open_ids items p c : run items p → p_out p = "" → c ∈ items → ∃ n, cn_ID c = event_id n.
Proof.
  intros H. revert c. induction H as [|items p item p' H IH Hs]; intros c Ho Hc; [by apply not_elem_of_nil in Hc|].
  apply elem_of_app in Hc as [Hc| ->%list_elem_of_singleton].
  - apply IH; [|done]. destruct (decide (p_out p = "")) as [|E]; [done|]. by apply step_closed in Hs as [? _]; [congruence|].
  - destruct (step_ids _ _ _ Hs) as [(m & _ & _ & ->)|(E & _)]; [by exists m|done].
Qed.

(** ** Decoding *)

(** The provider's output in a stretch of the log, in one piece. *)
Fixpoint stdout (h : list Envelope) : string :=
  match h with
  | [] => ""
  | env :: rest => (if ev_Stream env =? StreamStdout then ev_Payload env else "") +:+ stdout rest
  end.

Lemma stdout_app a b : stdout (a ++ b) = stdout a +:+ stdout b.
Proof. induction a as [|e a IH]; [done|]. simpl. by rewrite IH, sapp_assoc. Qed.

(** What was read of the log, decoded as one piece, is what was committed. *)
Definition decodes (items : list Consumption) (sealed : bool) (h : list Envelope) (tail : string) : Prop :=
  entries items = inl <$> h ∧
  ∃ lines, frameProvider "" (stdout h) sealed = Ok (lines, tail) ∧ all_events items = translateLines lines.

(** One more envelope while there is no outcome. *)
Lemma decodes_event items p env h :
  decodes items false h (p_tail p) → p_out p = "" → terminalType (all_events items) = "" →
  p_out (event_step p env).2 = EventFailed ∧ cn_Events (event_step p env).1 = [failed_crashed]
  ∨ ∃ tail, decodes (items ++ [(event_step p env).1]) false (h ++ [env]) tail
            ∧ (p_out (event_step p env).2 = "" → p_tail (event_step p env).2 = tail).
Proof.
  intros (He & lines & Hf & Hev) Ho Hno. pose proof (proj2 (p_terminal_false p) Ho) as Ht.
  rewrite frameProvider_open, sapp_nil_l in Hf.
  unfold decodes. rewrite entries_app, He, fmap_app, all_events_app, Hev.
  destruct (event_step_env p env) as (E1 & E2 & _ & _).
  assert (entries [(event_step p env).1] = inl <$> [env]) as ->.
  { unfold entries, item_entries. simpl. by rewrite E1, E2. }
  unfold all_events. simpl. rewrite app_nil_r.
  assert (Hst : stdout (h ++ [env]) = stdout h +:+ (if ev_Stream env =? StreamStdout then ev_Payload env else "")).
  { rewrite stdout_app. simpl. by rewrite sapp_nil_r. }
  unfold event_step. rewrite Ht, andb_true_r. destruct (ev_Stream env =? StreamStdout); simpl.
  - rewrite frameProvider_open. destruct (frame (p_tail p +:+ ev_Payload env)) as [[l2 t2]|] eqn:E; [right|by left].
    simpl. exists t2. split; [split; [done|]|].
    + exists (lines ++ l2). rewrite frameProvider_open, sapp_nil_l, Hst, frame_app, Hf, E.
      split; [done|]. rewrite translateLines_app. unfold hasTerminal. rewrite <- Hev, Hno. simpl. by rewrite Hev.
    + unfold outcome, hasTerminal. rewrite Ht. by intros ->.
  - right. exists (p_tail p). split; [|by unfold outcome; rewrite Ht]. split; [done|]. exists lines.
    by rewrite frameProvider_open, sapp_nil_l, Hst, sapp_nil_r, app_nil_r.
Qed.

Lemma run_open_decodes items p : run items p → p_out p = "" → ∃ h, decodes items false h (p_tail p).
Proof.
  induction 1 as [|items p item p' H IH Hs]; intros Ho.
  { exists []. split; [done|]. by exists []. }
  assert (Hop : p_out p = "").
  { destruct (decide (p_out p = "")) as [|E]; [done|]. by apply step_closed in Hs as [? _]; [congruence|]. }
  destruct (IH Hop) as [h Hd]. pose proof (run_outcome _ _ H) as Hno. rewrite Hop in Hno.
  pose proof (step_ids _ _ _ Hs) as [_|(? & _)]; [|done].
  destruct Hs as [env Hseq|id H1 H2|  |g H1 H2 H3].
  - destruct (decodes_event items p env h Hd Hop (eq_sym Hno)) as [[E _]|(tail & Hd' & Ht)]; [by rewrite E in Ho|].
    exists (h ++ [env]). by rewrite (Ht Ho).
  - done.
  - exfalso. pose proof (step_checkpoint _ _ _ (step_seal p)) as (Hcp & _). apply (f_equal cp_Terminal) in Hcp.
    symmetry in Hcp. by apply p_terminal_true in Hcp.
  - exfalso. simpl in Ho. unfold p_terminal in Ho. by rewrite Hop in Ho.
Qed.

(** A seal completes the last line. *)
Lemma seal_decodes items p h lines :
  p_out p = "" → frameProvider "" (stdout h) false = Ok (lines, p_tail p) → all_events items = translateLines lines →
  terminalType (all_events items) = "" →
  terminalType (all_events (items ++ [(seal_step p).1])) = EventSucceeded →
  ∃ lines', frameProvider "" (stdout h) true = Ok (lines', "")
    ∧ all_events (items ++ [(seal_step p).1]) = translateLines lines'.
Proof.
  intros Hop Hf Hev Hno. rewrite frameProvider_open, sapp_nil_l in Hf. pose proof (frame_tail _ _ _ Hf) as Hft.
  apply p_terminal_false in Hop. rewrite all_events_app. unfold all_events at 2 4. simpl. rewrite app_nil_r.
  unfold seal_events. rewrite Hop. unfold frameProvider. rewrite sapp_nil_l, sapp_nil_r.
  fold (frame (stdout h)). fold (frame (p_tail p)). rewrite Hf, Hft. simpl.
  set (last := if bool_decide (p_tail p = "") then [] else [strip_cr (p_tail p)]).
  assert ((match (if negb (bool_decide (p_tail p = "")) then Ok ([strip_cr (p_tail p)], "") else Ok ([], p_tail p))
           with Ok (lines, _) => lines | Err _ => [] end) = last) as ->.
  { unfold last. by destruct (bool_decide (p_tail p = "")). }
  destruct (hasTerminal (translateLines last)) eqn:Eh; simpl.
  - intros _. exists (lines ++ last). split.
    { unfold last. destruct (bool_decide_reflect (p_tail p = "")) as [->|]; simpl; [by rewrite app_nil_r|done]. }
    rewrite translateLines_app. unfold hasTerminal at 1. rewrite <- Hev, Hno. simpl. by rewrite Hev.
  - unfold hasTerminal in Eh. apply negb_false_iff, bool_decide_eq_true in Eh.
    rewrite !terminalType_app, Hno, Eh. simpl. done.
Qed.

(** A success is the translation of the output up to it, sealed or not. *)
Lemma run_success items p :
  run items p → p_out p = EventSucceeded →
  ∃ read later sealed h tail,
    items = read ++ later ∧ decodes read sealed h tail ∧ terminalType (all_events read) = EventSucceeded
    ∧ Forall (λ c, cn_Events c = [] ∧ cn_Gap c = None) later.
Proof.
  induction 1 as [|items p item p' H IH Hs]; intros Ho; [done|].
  destruct (decide (p_out p = "")) as [Hop|Hop].
  - destruct (run_open_decodes _ _ H Hop) as [h Hd]. pose proof (run_outcome _ _ H) as Hno. rewrite Hop in Hno.
    assert (Hout : terminalType (all_events (items ++ [item])) = EventSucceeded).
    { rewrite <- Ho. symmetry. apply run_outcome. by econstructor. }
    destruct Hs as [env Hseq|id H1 H2|  |g H1 H2 H3].
    + destruct (decodes_event items p env h Hd Hop (eq_sym Hno)) as [[E _]|(tail & Hd' & _)].
      { rewrite E in Ho. done. }
      exists (items ++ [(event_step p env).1]), [], false, (h ++ [env]), tail. by rewrite app_nil_r.
    + done.
    + exists (items ++ [(seal_step p).1]), [], true, h, "". rewrite app_nil_r. split; [done|]. split; [|done].
      destruct Hd as (He & lines & Hf & Hev). split. { by rewrite entries_app, He, app_nil_r. }
      exact (seal_decodes items p h lines Hop Hf Hev (eq_sym Hno) Hout).
    + exfalso. simpl in Ho. unfold p_terminal in Ho. by rewrite Hop in Ho.
  - pose proof (step_closed _ _ _ Hs Hop) as [Heq Hev]. rewrite Heq in Ho.
    destruct (IH Ho) as (read & later & sealed & h & tail & -> & Hd & Ht & Hl).
    exists read, (later ++ [item]), sealed, h, tail. rewrite app_assoc. split; [done|]. split; [done|]. split; [done|].
    apply Forall_app. split; [done|]. apply Forall_singleton. split; [done|].
    destruct Hs as [env _|id E _|  |g _ _ E]; [|done..].
    by destruct (event_step_env p env) as (_ & -> & _).
Qed.
End machine.
