(* ===== verification/RemoteAttemptFacts.v ===== *)
(** * RemoteAttemptFacts: what a daemon leaves behind of a remote run

    Whatever the backend answers, wherever a call fails or a write falls short and
    wherever a daemon is stopped, the lines of the durable inbox are a legal inbox of the
    run, only ever extended, and the attach journal does not lead it; so the next daemon
    attaches again, unless the last record was cut short. Such a record
    stays the last thing in the inbox. *)

From S2P Require Import Prelude GoStd GoStdFacts Sha256 FaultIO Core Remote RemoteJournal.
From S2P Require Import RemoteAttempt RemoteFacts.
From S2P Require Import RemoteRun.

Local Notation IO := (FaultIO.IO rdurable).

Section durable.
Context `{J : RemoteJSON} (root : string) (translate : string → list Event).
(** The record the run was dispatched under; only its checkpoint moves from here on. *)
Context (claim : Claim) (rec0 : RunRecord).

Let ref := Record_ProcessRef rec0.
Let record_path := Store_Path root claim.
Let inbox_path := Consumer_Path root ref.

Definition dispatched_record : Prop :=
  Claim_Valid claim = true ∧ id_Claim (rr_Identity rec0) = claim ∧ Ref_Complete ref = true
  ∧ rr_Dispatched rec0 = true ∧ 0 < rr_Version rec0 ≤ RecordVersion
  ∧ ∀ cp, record_representable (set_checkpoint cp rec0).

Definition items_representable : Prop :=
  ∀ items p item p', run translate items p → step translate p item p' → consumption_representable item.

Context (Hrec : dispatched_record) (Hitems : items_representable).

Definition record_at (cp : Checkpoint) (d : rdurable) : Prop :=
  ∃ b, rd_files d !! record_path = Some b ∧ DecodeRecord b = Ok (set_checkpoint cp rec0).

(** The lines of the inbox are these items. *)
Definition lines_hold (items : list Consumption) (d : rdurable) : Prop :=
  Forall2 (λ c b, consumption_Marshal c = Ok b) items (default [] (rd_inbox d !! inbox_path)).

(** The store holds the record at a checkpoint, and the inbox, with nothing behind its last
    line, the items of a run that the checkpoint does not lead. *)
Definition stored (cp : Checkpoint) (items : list Consumption) (p : pos) (d : rdurable) : Prop :=
  record_at cp d ∧ (lines_hold items d ∧ log_tail inbox_path d = "")
  ∧ run translate items p ∧ lags cp items p.

(** The same, with the beginning of a next legal item behind the last line or not; of the
    whole of it, the line break is missing. *)
Definition begun (p : pos) (rest : string) (whole : bool) : Prop :=
  ∃ c p' body n, step translate p c p' ∧ consumption_Marshal c = Ok body ∧ rest = str_take n body
    ∧ (0 < n ≤ String.length body)%nat ∧ (whole = true ↔ n = String.length body).
Definition kept (cp : Checkpoint) (items : list Consumption) (p : pos) (d : rdurable) : Prop :=
  record_at cp d ∧ lines_hold items d ∧ run translate items p ∧ lags cp items p
  ∧ (log_tail inbox_path d = "" ∨ ∃ whole, begun p (log_tail inbox_path d) whole).

(** A state that extends the inbox [items0]. *)
Definition legal (items0 : list Consumption) (d : rdurable) : Prop :=
  ∃ cp more p, kept cp (items0 ++ more) p d.

Lemma stored_kept cp items p d : stored cp items p d → kept cp items p d.
Proof. intros (H1 & [H2 H3] & H4 & H5). by split_and!; [..|left]. Qed.

Lemma begun_whole p rest : begun p rest true →
  ∃ c p', step translate p c p' ∧ consumption_Marshal c = Ok rest.
Proof.
  intros (c & p' & body & n & Hs & Hm & -> & _ & Hw). exists c, p'. split; [done|].
  rewrite (proj1 Hw eq_refl), str_take_all; [done|lia].
Qed.

Lemma run_representable items p c : run translate items p → c ∈ items → consumption_representable c.
Proof.
  induction 1 as [|items p item p' H IH Hs]; intros Hc; [by apply not_elem_of_nil in Hc|].
  apply elem_of_app in Hc as [Hc| ->%list_elem_of_singleton]; [by apply IH|by eapply Hitems].
Qed.

Lemma stored_event cp items p ev d : stored cp items p d → stored cp items p (put_event ev d).
Proof. done. Qed.

Lemma lags_step cp items p item p' : lags cp items p → step translate p item p' → lags cp (items ++ [item]) p'.
Proof.
  intros (_ & Hc & Ht) Hs. split; [by destruct items|].
  pose proof (covers_le _ _ _ (step_entries _ _ _ _ Hs)) as Hle. split; [lia|]. intros Hl%Ht.
  by apply (step_checkpoint _ _ _ _ Hs).
Qed.

Lemma lags_self items p : items ≠ [] → lags (p_checkpoint p) items p.
Proof. intros H. split; [done|]. by split. Qed.

Section process.
Context (items0 : list Consumption).

Notation I := (legal items0).

Lemma stored_legal cp items p d : (∃ more, items = items0 ++ more) → stored cp items p d → I d.
Proof. intros [more ->] H%stored_kept. by exists cp, more, p. Qed.

(** ** Writing *)

Lemma encode_record cp : ∃ b, EncodeRecord (set_checkpoint cp rec0) = Ok b ∧ DecodeRecord b = Ok (set_checkpoint cp rec0).
Proof.
  destruct Hrec as (_ & _ & _ & _ & Hv & Hrep). destruct (record_total _ (Hrep cp)) as [b Hb].
  exists (b +:+ nl). unfold EncodeRecord, DecodeRecord. simpl.
  destruct (Z.eqb_spec (rr_Version rec0) 0); [lia|]. rewrite Hb, (record_roundtrip _ _ (Hrep cp) Hb). simpl.
  split; [done|]. destruct (Z.ltb_spec RecordVersion (rr_Version rec0)); [lia|done].
Qed.

Lemma syscall_triple (P : rdurable → Prop) : (∀ d, P d → I d) → triple I P syscall (λ _, P).
Proof. apply triple_syscall. Qed.

Lemma save_triple c cp cp' items p :
  (∃ more, items = items0 ++ more) → lags cp' items p →
  triple I (stored cp items p) (save root c (set_checkpoint cp' rec0)) (λ _, stored cp' items p).
Proof.
  intros Hext Hlag. unfold save, Save. destruct (encode_record cp') as (b & -> & Hb).
  assert (HI : ∀ cp d, stored cp items p d → I d) by (intros; by eapply stored_legal).
  assert (Hsys : ∀ cp, triple I (stored cp items p) syscall (λ _, stored cp items p)) by (intros; by apply triple_syscall, HI).
  apply (triple_bind _ _ _ _ (λ _, stored cp items p)).
  { destruct c; [done|]. apply triple_ret. intros d Hd. split; [by eapply HI|done]. }
  intros _. unfold replaceFile. do 5 (eapply triple_bind; [apply Hsys|]; intros ?).
  apply (triple_bind _ _ _ _ (λ _, stored cp' items p)).
  - apply triple_call; [by apply HI|]. intros d r d' Hd [= <- <-].
    assert (Hd' : stored cp' items p
      (put_file (Store_Path root (id_Claim (rr_Identity (set_checkpoint cp' rec0)))) (Some b) d)).
    { destruct Hd as (_ & H2 & H3 & _). split; [|done]. exists b. split; [|done].
      simpl. destruct Hrec as (_ & -> & _). unfold record_path. apply lookup_partial_alter_eq. }
    split; [by eapply HI|by intros ? _].
  - intros ?. eapply triple_bind; [apply Hsys|]. intros ?. apply Hsys.
Qed.

Lemma append_triple cp items p c p' body :
  (∃ more, items = items0 ++ more) → step translate p c p' → consumption_Marshal c = Ok body →
  triple I (stored cp items p) (appendLine inbox_path body) (λ _, stored cp (items ++ [c]) p').
Proof.
  intros [more ->] Hs Hm.
  assert (HI : ∀ d, stored cp (items0 ++ more) p d → I d) by (intros; eapply stored_legal; eauto).
  assert (HI' : ∀ d, stored cp ((items0 ++ more) ++ [c]) p' d → I d).
  { intros d. apply stored_legal. exists (more ++ [c]). by rewrite app_assoc. }
  unfold appendLine. do 2 (eapply triple_bind; [by apply triple_syscall, HI|]; intros ?).
  apply (triple_bind _ _ _ _ (λ _, stored cp ((items0 ++ more) ++ [c]) p')).
  - apply triple_write; [done|..].
    + intros d missing (H1 & [H2 H3] & H4 & H5). exists cp, more, p. split_and!; [done..|].
      unfold log_tail, put_short. simpl. rewrite lookup_insert_eq. simpl. rewrite H3, sapp_nil_l.
      destruct (String.length body - missing)%nat as [|n] eqn:Hn; [by left|]. right.
      exists (bool_decide (S n = String.length body)), c, p', body, (S n).
      split_and!; [done..|lia|lia|]. by rewrite bool_decide_eq_true.
    + intros d r d' (H1 & [H2 Ht] & H3 & H4) [= <- <-].
      assert (Hd : stored cp ((items0 ++ more) ++ [c]) p' (put_line inbox_path body d)).
      { split; [done|]. split.
        { unfold lines_hold, log_tail, put_line. simpl. rewrite lookup_insert_eq, lookup_delete_eq. simpl. split; [|done].
          apply Forall2_app; [done|]. constructor; [|done]. by rewrite Ht, sapp_nil_l. }
        split; [by econstructor|by eapply lags_step]. }
      split; [by apply HI'|by intros ? _].
  - intros ?. eapply triple_bind; [by apply triple_syscall, HI'|]. intros ?. by apply triple_syscall, HI'.
Qed.

(** ** The attempt's view *)

Definition indexes (log : consumerLog) (items : list Consumption) (p : pos) : Prop :=
  cl_order log = items ∧ cl_terminal log = p_terminal p
  ∧ ∀ id b, cl_seen log !! id = Some b → ∃ c, c ∈ items ∧ cn_ID c = id.

(** The attempt agrees with the store, and its filter has handed over [pending] more. *)
Definition in_sync (a : Attempt) (cp : Checkpoint) (items : list Consumption) (p : pos) (pending : list entry) : Prop :=
  at_ref a = ref ∧ at_journal a = MkJournal claim (set_checkpoint cp rec0) true
  ∧ (∃ log, at_consumer a = Some log ∧ indexes log items p)
  ∧ filter_at (at_seq a) (entries items ++ pending) ∧ sq_committed (at_seq a) = p_cursor p.

Definition rejects (log : consumerLog) (c : Consumption) : bool :=
  cl_terminal log && (negb (cp_Terminal (cn_Checkpoint c)) || negb (bool_decide (cn_Events c = []))).

Lemma step_accepted log items p c p' : indexes log items p → step translate p c p' → rejects log c = false.
Proof.
  intros (_ & Hi & _) Hs. unfold rejects. rewrite Hi. destruct (p_terminal p) eqn:E; [|done].
  destruct (step_checkpoint _ _ _ _ Hs) as (Hcp & _ & Ht). destruct (Ht E) as [Hp ->]. rewrite Hcp. simpl. by rewrite Hp.
Qed.

Lemma step_id_nonempty p c p' : step translate p c p' → cn_ID c ≠ "".
Proof.
  intros Hs. destruct (step_ids _ _ _ _ Hs) as [(n & _ & _ & ->)|(_ & [(g & _ & _ & _ & ->)|(x & [-> | [-> | ->]])])]; done.
Qed.

Lemma indexes_add log items p c p' body :
  indexes log items p → step translate p c p' → indexes (log_add c body log) (items ++ [c]) p'.
Proof.
  intros (H1 & H2 & H3) Hs. split; [simpl; by rewrite H1|]. split.
  - simpl. rewrite H2. destruct (step_checkpoint _ _ _ _ Hs) as (-> & _ & Ht). simpl.
    destruct (p_terminal p); [|done]. by destruct (Ht eq_refl) as [-> _].
  - intros id b. simpl. intros [[<- <-]|[_ H]]%lookup_insert_Some; [exists c; set_solver|].
    destruct (H3 _ _ H) as (x & ? & ?). exists x. set_solver.
Qed.

(** ** Committing *)

(** What the consumer's answer means. *)
Definition answered (cp : Checkpoint) (items : list Consumption) (p : pos) (c : Consumption) (p' : pos)
    (cr : option consumerLog * result bool) (d : rdurable) : Prop :=
  match cr with
  | (consumer, Ok true) =>
      step translate p c p' ∧ stored cp (items ++ [c]) p' d
      ∧ ∃ log', consumer = Some log' ∧ indexes log' (items ++ [c]) p'
  | (_, Ok false) => stored cp items p d ∧ ∃ x, x ∈ items ∧ cn_ID x = cn_ID c
  | (_, Err _) => I d
  end.

Lemma consumer_triple cp items p c p' log :
  (∃ more, items = items0 ++ more) → indexes log items p → (rejects log c = false → step translate p c p') →
  triple I (stored cp items p) (Consumer_Commit root ref (Some log) c) (answered cp items p c p').
Proof.
  intros Hext Hi Hstep. pose proof (λ d, stored_legal cp items p d Hext) as HI. unfold Consumer_Commit.
  assert (Herr : ∀ l e, triple I (stored cp items p) (mret (l, Err e)) (answered cp items p c p')).
  { intros l e. apply triple_ret. intros d Hd. by split; apply HI. }
  destruct (negb (Ref_Complete ref)); [apply Herr|]. destruct (bool_decide (cn_ID c = "")); [apply Herr|].
  destruct (consumption_Marshal c) as [body|e] eqn:Hm; [|apply Herr].
  apply (triple_bind _ _ _ _ (λ r d, r = Ok log ∧ stored cp items p d)).
  { apply (triple_post _ _ _ (λ r d, match r with Ok l => l = log ∧ stored cp items p d | Err _ => False end)).
    - intros w r w' HP E. injection E as <- <-. exists []. split; [done|]. split; [constructor|].
      split; [by apply HI|]. by intros ? [= <-].
    - intros [l|e] d; [by intros [-> ?]|done]. }
  intros r. apply triple_each. intros d [-> Hd]. apply (triple_pre _ _ (stored cp items p)); [|by intros ? <-].
  clear d Hd. destruct (cl_seen log !! cn_ID c) as [previous|] eqn:Es.
  - destruct (negb (bool_decide (previous = body))); [apply Herr|]. apply triple_ret. intros d Hd.
    split; [by apply HI|]. split; [done|]. destruct Hi as (_ & _ & Hs). by eapply Hs.
  - fold (rejects log c). destruct (rejects log c) eqn:Er; [apply Herr|]. specialize (Hstep eq_refl).
    eapply triple_bind; [by apply triple_attempt, (append_triple cp items p c p')|].
    intros [u|e]; apply triple_ret.
    + intros d Hd. split.
      { eapply stored_legal; [|exact Hd]. destruct Hext as [more ->]. exists (more ++ [c]). by rewrite app_assoc. }
      split; [done|]. split; [done|]. eexists. split; [done|]. by apply (indexes_add _ _ p).
    + done.
Qed.

Lemma checkpoint_triple b cp items p cp' j :
  (∃ more, items = items0 ++ more) → j = MkJournal claim (set_checkpoint cp rec0) true → lags cp' items p →
  triple I (stored cp items p) (CommitCheckpoint root b j cp')
    (λ jr d, match jr with
             | (j', Ok _) => ∃ cp1, stored cp1 items p d ∧ j' = MkJournal claim (set_checkpoint cp1 rec0) true
                 ∧ (cp_Cursor cp ≤ cp_Cursor cp' → cp1 = cp')
             | (_, Err _) => I d
             end).
Proof.
  intros Hext -> Hlag. pose proof (λ c d, stored_legal c items p d Hext) as HI. unfold CommitCheckpoint. simpl.
  destruct (Z.ltb_spec (cp_Cursor cp') (cp_Cursor cp)) as [Hc|Hc].
  { apply triple_ret. intros d Hd. split; [by eapply HI|]. exists cp. split; [done|]. split; [done|]. lia. }
  destruct (bool_decide_reflect (cp' = Record_Checkpoint (set_checkpoint cp rec0))) as [Heq|_].
  { apply triple_ret. intros d Hd. split; [by eapply HI|]. exists cp. split; [done|]. split; [done|].
    intros _. rewrite Heq. by destruct cp. }
  unfold keeping. eapply triple_bind.
  { apply triple_attempt. exact (save_triple b cp cp' items p Hext Hlag). }
  intros [u|e]; apply triple_ret; [|done]. intros d Hd. split; [by eapply HI|]. by exists cp'.
Qed.

Lemma in_sync_commit a cp items p pending c p' j consumer log' cp' :
  in_sync a cp items p (item_entries c ++ pending) → step translate p c p' → run translate items p →
  j = MkJournal claim (set_checkpoint cp' rec0) true → consumer = Some log' → indexes log' (items ++ [c]) p' →
  in_sync (set_seq (Commit (at_seq a) (p_cursor p')) (set_stores j consumer a)) cp' (items ++ [c]) p' pending.
Proof.
  intros (H1 & _ & _ & (Hc & Hd & Hg) & Hcom) Hs Hr -> -> Hi.
  assert (Hadm : p_cursor p' ≤ sq_admitted (at_seq a)).
  { apply covers_app_inv in Hc as (k & Hk & Hc). pose proof (covers_fun _ _ _ _ Hk (run_covers _ _ _ Hr)) as ->.
    apply covers_app_inv in Hc as (k & Hk' & Hc). rewrite (covers_fun _ _ _ _ Hk' (step_entries _ _ _ _ Hs)) in Hc.
    by apply covers_le in Hc. }
  pose proof (covers_le _ _ _ (step_entries _ _ _ _ Hs)) as Hle.
  split; [done|]. split; [done|]. split; [by exists log'|].
  assert (Hent : entries (items ++ [c]) ++ pending = entries items ++ item_entries c ++ pending).
  { rewrite entries_app. unfold entries at 2. simpl. by rewrite app_nil_r, app_assoc. }
  split.
  - unfold filter_at. rewrite Hent. by split.
  - simpl. rewrite Hcom. destruct (Z.ltb_spec (sq_admitted (at_seq a)) (p_cursor p')); [lia|].
    destruct (Z.ltb_spec (p_cursor p) (p_cursor p')); lia.
Qed.

(** The only way the cursor moves: the inbox first, then the journal, then the filter. *)
Lemma accept_triple a cp items p pending c p' :
  (∃ more, items = items0 ++ more) → run translate items p → in_sync a cp items p pending →
  (step translate p c p' ∨ p_terminal p = true ∧ cn_Events c ≠ []) →
  ((∃ x, x ∈ items ∧ cn_ID x = cn_ID c) → lags (cn_Checkpoint c) items p) →
  triple I (stored cp items p) (accept root a c)
    (λ r d, I d ∧ (r.2 = true → (∀ x, x ∈ items → cn_ID x ≠ cn_ID c) → ∀ pending', pending = item_entries c ++ pending' →
               ∃ cp', stored cp' (items ++ [c]) p' d ∧ in_sync r.1.1 cp' (items ++ [c]) p' pending')).
Proof.
  intros Hext Hrun Hsync Hc Hseen. pose proof Hsync as (Href & Hj & (log & Hlog & Hi) & _).
  unfold accept. rewrite Href, Hlog.
  eapply triple_bind.
  { apply (consumer_triple cp items p c p' log Hext Hi). intros Hr. destruct Hc as [?|[Ht He]]; [done|].
    unfold rejects in Hr. destruct Hi as (_ & Hi & _). rewrite Hi, Ht in Hr. simpl in Hr.
    apply orb_false_iff in Hr as [_ Hr]. by apply negb_false_iff, bool_decide_eq_true in Hr. }
  intros [consumer [first|e]].
  2:{ apply triple_ret. by intros d Hd. }
  destruct first; apply triple_each.
  - intros d (Hs & Hd & log' & -> & Hi'). destruct (step_checkpoint _ _ _ _ Hs) as (Hcp & _ & _).
    assert (Hext' : ∃ more, items ++ [c] = items0 ++ more).
    { destruct Hext as [more ->]. exists (more ++ [c]). by rewrite app_assoc. }
    apply (triple_pre _ _ (stored cp (items ++ [c]) p')); [|by intros ? <-].
    eapply triple_bind.
    { apply (checkpoint_triple false cp (items ++ [c]) p' (cn_Checkpoint c)); [done|exact Hj|].
      rewrite Hcp. apply lags_self. by destruct items. }
    intros [j [u|e]]; apply triple_ret; [|by intros d1 Hd1].
    intros d1 (cp1 & Hd1 & -> & Heq). pose proof (stored_legal _ _ _ _ Hext' Hd1). split; [done|]. split; [done|].
    intros _ _ pending' ->. exists cp1. split; [done|]. rewrite Hcp.
    exact (in_sync_commit a cp items p pending' c p' _ _ log' cp1 Hsync Hs Hrun eq_refl eq_refl Hi').
  - intros d (Hd & x & Hx & Hid). apply (triple_pre _ _ (stored cp items p)); [|by intros ? <-].
    eapply triple_bind; [apply (checkpoint_triple false cp items p (cn_Checkpoint c)); [done|exact Hj|apply Hseen; by exists x]|].
    intros [j [u|e]]; apply triple_ret; [|by intros d1 Hd1].
    intros d1 (cp1 & Hd1 & -> & _). pose proof (stored_legal _ _ _ _ Hext Hd1). split; [done|]. split; [done|].
    intros _ Hno. by destruct (Hno x Hx).
Qed.

(** ** Publishing *)

(** What does not look at the events delivered live. *)
Definition silent (P : rdurable → Prop) : Prop := ∀ ev d, P d → P (put_event ev d).

Lemma legal_silent : silent I.
Proof. intros ev d (cp & more & p & H). by exists cp, more, p. Qed.

Lemma publish_triple P terminal events :
  silent P → (∀ d, P d → I d) → triple I P (publish terminal events) (λ _, P).
Proof.
  intros Hs HI. revert terminal. induction events as [|ev rest IH]; intros terminal; simpl.
  { apply triple_ret. auto. }
  destruct terminal; [apply triple_ret; auto|].
  apply (triple_bind _ _ _ _ (λ ok d, P d)).
  - unfold send. eapply triple_bind; [apply triple_tried; [done|]; simpl; auto|]. intros r. apply triple_ret. auto.
  - intros ok. destruct ok; simpl; [|apply triple_ret; auto].
    destruct (isTerminal ev); [apply triple_ret; auto|apply IH].
Qed.

Lemma publish_first_triple P first terminal events :
  silent P → (∀ d, P d → I d) → triple I P (publish_first first terminal events) (λ _, P).
Proof.
  intros Hs HI. unfold publish_first. destruct first; [|apply triple_ret; auto].
  eapply triple_bind; [by apply publish_triple|]. intros [ok t]. apply triple_ret. auto.
Qed.

Lemma detached_triple P : (∀ d, P d → I d) → triple I P detached (λ _, P).
Proof.
  intros HI. unfold detached. eapply triple_bind; [by apply triple_tried|]. intros r. apply triple_ret. auto.
Qed.

(** ** The pump *)

(** The attempt stands where the run does, with [pending] admitted and not consumed. *)
Definition attached (a : Attempt) (pending : list entry) (terminal succeeded : bool) (d : rdurable) : Prop :=
  ∃ cp items p, stored cp items p d ∧ (∃ more, items = items0 ++ more) ∧ in_sync a cp items p pending
    ∧ at_tail a = p_tail p ∧ terminal = p_terminal p ∧ succeeded = bool_decide (p_out p = EventSucceeded).

Definition flow_at (pending : list entry) (f : flow) (d : rdurable) : Prop :=
  match f with Goes a terminal succeeded => attached a pending terminal succeeded d | Ends _ => I d end.

Lemma attached_legal a pending t s d : attached a pending t s d → I d.
Proof. intros (cp & items & p & Hd & Hext & _). by eapply stored_legal. Qed.

Lemma attached_err a pending t s e d : attached a pending t s d → attached (setCommitErr e a) pending t s d.
Proof. done. Qed.

(** Work from one state the attempt stands at. *)
Lemma attached_triple {A} a pending t s (m : IO A) Q :
  (∀ cp items p, (∃ more, items = items0 ++ more) → run translate items p → in_sync a cp items p pending →
     at_tail a = p_tail p → t = p_terminal p → s = bool_decide (p_out p = EventSucceeded) →
     triple I (stored cp items p) m Q) →
  triple I (attached a pending t s) m Q.
Proof.
  intros H. apply triple_each. intros d (cp & items & p & Hd & Hext & Hs & H1 & H2 & H3).
  pose proof Hd as (_ & _ & Hr & _). eapply triple_pre; [by apply (H cp items p)|]. by intros ? <-.
Qed.

(** The verdicts an attempt commits under a name of its own, where it stands. *)
Lemma verdict_triple a cp items p pending c :
  (∃ more, items = items0 ++ more) → run translate items p → in_sync a cp items p pending →
  cn_Checkpoint c = MkCheckpoint (p_cursor p) (cp_Tail (cn_Checkpoint c)) true →
  (∀ n, cn_ID c ≠ event_id n) →
  (∃ p', step translate p c p' ∨ p_terminal p = true ∧ cn_Events c ≠ []) →
  triple I (stored cp items p) (accept root a c) (λ _, I).
Proof.
  intros Hext Hr Hs Hcp Hid (p' & Hstep). eapply triple_post.
  { apply (accept_triple a cp items p pending c p'); [done..|]. intros (x & Hx & Hxid). rewrite Hcp.
    split; [intros ->; by apply not_elem_of_nil in Hx|]. split; [simpl; lia|]. intros _.
    destruct (p_terminal p) eqn:Et; [done|]. apply p_terminal_false in Et.
    destruct (open_ids _ _ _ _ Hr Et Hx) as [n Hn]. by destruct (Hid n); congruence. }
  by intros r d [? _].
Qed.

(** A verdict of failure, whether or not the run has its outcome. *)
Lemma failure_triple a pending t s c :
  cn_Checkpoint c = MkCheckpoint (sq_committed (at_seq a)) (at_tail a) true → local_id (cn_ID c) →
  cn_Envelope c = None → cn_Events c = [failed_crashed] → cn_Gap c = None →
  triple I (attached a pending t s) (accept root a c) (λ _, I).
Proof.
  intros Hcp Hid He Hev Hg. apply attached_triple. intros cp items p Hext Hr Hs Htail _ _.
  pose proof Hs as (_ & _ & _ & _ & Hcom). rewrite Hcom, Htail in Hcp.
  eapply verdict_triple; [done..|by rewrite Hcp| |].
  - intros n E. destruct Hid as [k [Hk|Hk]]; rewrite E in Hk; revert Hk; apply event_id_ne.
  - destruct (p_terminal p) eqn:Et; [exists p; right; by rewrite Hev|]. apply p_terminal_false in Et.
    exists (local_step p (cn_ID c)).2. left.
    assert (c = (local_step p (cn_ID c)).1) as Hc.
    { destruct c. simpl in *. by subst. }
    rewrite Hc at 1. by apply step_local.
Qed.

(** What follows an attempt that ends: no more commits. *)
Lemma ending_triple {A} first terminal events (a : A) :
  triple I I (publish_first first terminal events ;; mret a) (λ r d, r = a ∧ I d).
Proof.
  eapply triple_bind; [by apply publish_first_triple; [apply legal_silent|]|]. intros ?. apply triple_ret. auto.
Qed.

Lemma refuseStream_triple a pending t s : triple I (attached a pending t s) (refuseStream root a t) (λ _, I).
Proof.
  unfold refuseStream. eapply triple_bind; [apply detached_triple, attached_legal|]. intros gone.
  destruct (gone || t); [apply triple_ret; intros d Hd; by split; eapply attached_legal|].
  unfold commitLocal. eapply triple_bind.
  { eapply failure_triple; [done| |done..]. eexists. by left. }
  intros [[a' first] ck]. eapply triple_post; [apply ending_triple|]. by intros ? d [_ ?].
Qed.

Lemma endOnSeal_triple a t s : triple I (attached a [] t s) (endOnSeal root translate a t) (λ _, I).
Proof.
  apply attached_triple. intros cp items p Hext Hr Hs Htail Ht _. pose proof Hs as (_ & _ & _ & _ & Hcom).
  unfold endOnSeal.
  assert (∃ a', (if t then (a, []) else match frameProvider (at_tail a) "" true with
           | Ok (lines, _) => (a, lines) | Err e => (setCommitErr e a, []) end)
         = (a', if t then [] else match frameProvider (p_tail p) "" true with Ok (lines, _) => lines | Err _ => [] end)
         ∧ in_sync a' cp items p [] ∧ sq_committed (at_seq a') = p_cursor p) as (a' & -> & Hs' & Hcom').
  { rewrite Htail. destruct t; [by exists a|]. destruct (frameProvider (p_tail p) "" true) as [[lines t']|]; by eexists. }
  eapply triple_bind.
  { eapply (verdict_triple a' cp items p); [done..|by rewrite Hcom'| |].
    - intros n E. symmetry in E. revert E. simpl. apply event_id_ne.
    - exists (seal_step translate p).2. left. rewrite Hcom'.
      match goal with |- step _ _ ?c _ => assert (c = (seal_step translate p).1) as ->; [|constructor] end.
      unfold seal_step, seal_events. simpl. rewrite <- Ht. by destruct t. }
  intros [[a1 first] ck]. eapply triple_post; [apply ending_triple|]. by intros ? d [_ ?].
Qed.

(** A step under a key that is new: the attempt goes on from it. *)
Lemma advance_triple a cp items p pending c p' :
  (∃ more, items = items0 ++ more) → run translate items p → in_sync a cp items p (item_entries c ++ pending) →
  step translate p c p' → (∀ x, x ∈ items → cn_ID x ≠ cn_ID c) →
  triple I (stored cp items p) (accept root a c)
    (λ r d, if r.2 : bool then attached (set_tail (p_tail p') r.1.1) pending (p_terminal p')
                                 (bool_decide (p_out p' = EventSucceeded)) d else I d).
Proof.
  intros Hext Hr Hs Hstep Hnew. eapply triple_post.
  { apply (accept_triple a cp items p (item_entries c ++ pending) c p'); [done..|by left|].
    intros (x & Hx & Hid). by destruct (Hnew x Hx). }
  intros [[a' first] ck] d [HI H]. simpl in *. destruct ck; [|done].
  destruct (H eq_refl Hnew _ eq_refl) as (cp' & Hd & Hs'). exists cp', (items ++ [c]), p'.
  split; [done|]. split; [|done]. destruct Hext as [more ->]. exists (more ++ [c]). by rewrite app_assoc.
Qed.

Lemma attached_silent a pending t s : silent (attached a pending t s).
Proof. intros ev d (cp & items & p & H). by exists cp, items, p. Qed.

(** After an accept: the live send, and on from there if the checkpoint was kept. *)
Lemma continue_triple a pending t s (ck first : bool) t0 events (f g : flow) :
  f = Goes a t s → (∀ d, I d → flow_at pending g d) →
  triple I (λ d, if ck then attached a pending t s d else I d)
    (publish_first first t0 events ;; if ck then mret f else mret g) (flow_at pending).
Proof.
  intros -> Hg. destruct ck.
  - eapply triple_bind; [apply publish_first_triple; [apply attached_silent|apply attached_legal]|]. intros ?.
    apply triple_ret. intros d Hd. split; [by eapply attached_legal|done].
  - eapply triple_bind; [by apply publish_first_triple; [apply legal_silent|]|]. intros ?. apply triple_ret. auto.
Qed.

Lemma ends_triple {A} (m : IO A) P (f : A → Attempt) pending :
  triple I P m (λ _, I) → triple I P (a ← m; mret (Ends (f a))) (flow_at pending).
Proof. intros H. eapply triple_bind; [exact H|]. intros a. apply triple_ret. auto. Qed.

Lemma acceptRetentionGap_triple a gap t s :
  triple I (attached a [] t s) (acceptRetentionGap root a gap t s) (flow_at []).
Proof.
  assert (Href : ∀ e, triple I (attached a [] t s)
    (a' ← refuseStream root (setCommitErr e a) t; mret (Ends a')) (flow_at [])).
  { intros e. apply ends_triple. eapply triple_pre; [apply refuseStream_triple|]. intros d. apply attached_err. }
  unfold acceptRetentionGap. destruct (Range gap) as [g|]; [|apply Href].
  destruct (negb (rg_RequestedAfter gap =? sq_admitted (at_seq a))); [apply Href|].
  destruct s; [apply triple_ret; intros d Hd; by split; eapply attached_legal|].
  destruct (AcceptGap (at_seq a) g) as [seq|e] eqn:Ea; [|apply Href]. clear Href.
  apply attached_triple. intros cp items p Hext Hr Hs _ Ht Hsu. pose proof Hs as (H1 & H2 & H3 & (Hc & Hd & Hg) & Hcom).
  pose proof (run_covers _ _ _ Hr) as Hrc. rewrite app_nil_r in Hc, Hd, Hg.
  pose proof (covers_fun _ _ _ _ Hc Hrc) as Hadm. unfold AcceptGap in Ea. rewrite Hadm in Ea.
  destruct (Gap_Valid g) eqn:Ev; simpl in Ea; [|done].
  destruct (Z.eqb_spec (gap_From g) (p_cursor p + 1)) as [Ef|]; simpl in Ea; [|done]. injection Ea as <-.
  symmetry in Hsu. apply bool_decide_eq_false in Hsu.
  eapply triple_bind.
  { match goal with |- triple _ _ (accept _ _ ?c) _ => assert (c = (gap_step p g).1) as -> end.
    { unfold gap_step. by rewrite Ht. }
    apply (advance_triple _ cp items p [] _ (gap_step p g).2); [done..| |by constructor|].
    - split; [done|]. split; [done|]. split; [done|]. split; [|done]. unfold filter_at. simpl.
      rewrite envs_app, ranges_app, Hd, Hg. simpl. rewrite app_nil_r. split; [|done].
      eapply covers_app; [exact Hrc|]. constructor; [done..|constructor].
    - intros x Hx. apply (gap_id_fresh _ _ _ _ _ Hr Hx). lia. }
  intros [[a' first] ck]. simpl. eapply continue_triple; [|done].
  f_equal.
  - symmetry. apply p_terminal_true. simpl. destruct (p_terminal p) eqn:Et; [by apply p_terminal_true|done].
  - destruct (p_terminal p); by rewrite bool_decide_eq_false_2.
Qed.

(** *** Envelopes *)

Lemma pending_next items p env pending m :
  run translate items p → covers 0 (entries items ++ inl env :: pending) m → ev_Seq env = p_cursor p + 1.
Proof.
  intros Hr Hc. apply covers_app_inv in Hc as (k & Hk & Hc).
  rewrite (covers_fun _ _ _ _ Hk (run_covers _ _ _ Hr)) in Hc. by inversion Hc.
Qed.

Lemma consume_triple a env pending t s :
  triple I (attached a (inl env :: pending) t s) (consume root translate a env t s) (flow_at pending).
Proof.
  apply attached_triple. intros cp items p Hext Hr Hs Htail Ht Hsu. pose proof Hs as (_ & _ & _ & (Hc & _ & _) & _).
  pose proof (pending_next _ _ _ _ _ Hr Hc) as Hseq.
  assert (Hadv : ∀ a' c, a' = a ∨ (∃ e, a' = setCommitErr e a) → c = (event_step translate p env).1 →
    triple I (stored cp items p) (accept root a' c)
     (λ r d, if r.2 : bool then attached (set_tail (p_tail (event_step translate p env).2) r.1.1) pending
        (p_terminal (event_step translate p env).2)
        (bool_decide (p_out (event_step translate p env).2 = EventSucceeded)) d else I d)).
  { intros a' c Ha' ->. destruct (event_step_env translate p env) as (E1 & E2 & E3 & _).
    apply (advance_triple _ cp items p); [done..| |by constructor|].
    - unfold item_entries. rewrite E1, E2. by destruct Ha' as [-> |[e ->]].
    - intros x Hx. rewrite E3. apply (event_id_fresh _ _ _ _ _ Hr Hx). lia. }
  unfold consume. unfold event_step in Hadv. rewrite Htail, Ht.
  destruct (if (ev_Stream env =? StreamStdout) && negb (p_terminal p) then _ else _) as [[events tail]|e] eqn:Ed.
  - eapply triple_bind; [by apply Hadv; [left|]|]. intros [[a' first] ck]. simpl.
    rewrite if_negb. eapply continue_triple; [|done]. f_equal.
    + unfold outcome. destruct (p_terminal p) eqn:Et; [|done]. symmetry. by apply p_terminal_true, p_terminal_true.
    + unfold outcome. rewrite Hsu. destruct (p_terminal p) eqn:Et.
      * rewrite andb_false_r in Ed. injection Ed as <- <-. by rewrite orb_false_r.
      * apply p_terminal_false in Et. rewrite Et. done.
  - eapply triple_bind; [by apply Hadv; [right; eexists|]|]. intros [[a' first] ck]. simpl.
    apply (triple_pre _ _ I); [|intros d; destruct ck; [apply attached_legal|done]].
    eapply triple_post; [apply ending_triple|]. intros f d [-> Hd]. exact Hd.
Qed.

Lemma consume_all_triple fresh a t s :
  triple I (attached a (inl <$> fresh) t s) (consume_all root translate a t s fresh) (flow_at []).
Proof.
  revert a t s. induction fresh as [|env fresh IH]; intros a t s; simpl.
  { apply triple_ret. intros d Hd. split; [by eapply attached_legal|done]. }
  eapply triple_bind; [apply consume_triple|]. intros [a' t' s'|a']; [apply IH|apply triple_ret; auto].
Qed.

Lemma read_batch_triple a batch t s :
  triple I (attached a [] t s) (read_batch root translate a batch t s) (flow_at []).
Proof.
  unfold read_batch. destruct batch as [|env batch]; [apply ends_triple, endOnSeal_triple|].
  destruct (Admit (at_seq a) (env :: batch)) as [[fresh seq]|e] eqn:Ea.
  - eapply triple_pre; [apply consume_all_triple|]. intros d (cp & items & p & Hd & Hext & Hs & H1 & H2 & H3).
    exists cp, items, p. split; [done|]. split; [done|]. split; [|done]. destruct Hs as (K1 & K2 & K3 & Hf & Hcom).
    destruct (admit_spec _ _ Hf _ _ _ Ea) as (Hf' & Hcom' & _). rewrite app_nil_r in Hf'.
    split; [done|]. split; [done|]. split; [done|]. split; [done|]. simpl. congruence.
  - eapply triple_bind.
    { eapply triple_pre; [|intros d; apply (attached_err a [] t s e)].
      eapply failure_triple; [done| |done..]. eexists. by right. }
    intros [[a' first] ck]. eapply triple_post; [apply ending_triple|]. intros f d [-> Hd]. exact Hd.
Qed.

Lemma read_answer_triple policy a o t s answer :
  triple I (attached a [] t s) (read_answer root translate policy a o t s answer) (λ r, flow_at [] r.1).
Proof.
  destruct answer as [batch|gap|e|]; simpl.
  - eapply triple_bind; [apply read_batch_triple|]. intros f. apply triple_ret. intros d Hd.
    split; [|done]. destruct f; [by eapply attached_legal|done].
  - eapply triple_bind; [apply acceptRetentionGap_triple|]. intros f. apply triple_ret. intros d Hd.
    split; [|done]. destruct f; [by eapply attached_legal|done].
  - destruct (errors_Is e ErrEventGap || errors_Is e ErrProcessMismatch).
    + eapply triple_bind; [eapply triple_pre; [apply refuseStream_triple|intros d; apply attached_err]|].
      intros a'. apply triple_ret. auto.
    + apply (triple_bind _ _ _ _ (λ _, attached a [] t s)).
      * unfold awaitReconnect. eapply triple_bind; [apply detached_triple, attached_legal|]. intros gone.
        destruct gone; [apply triple_ret; intros d Hd; split; [by eapply attached_legal|done]|].
        eapply triple_bind; [apply detached_triple, attached_legal|]. intros gone.
        apply triple_ret. intros d Hd; split; [by eapply attached_legal|done].
      * intros [o'|]; apply triple_ret; intros d Hd; pose proof (attached_legal _ _ _ _ _ Hd); by split.
  - apply triple_ret. intros d Hd. by split; eapply attached_legal.
Qed.

Lemma pump_loop_triple policy answers a o t s :
  triple I (attached a [] t s) (pump_loop root translate policy a o t s answers) (λ _, I).
Proof.
  revert a o t s. induction answers as [|answer rest IH]; intros a o t s; simpl.
  { apply triple_ret. intros d Hd. by split; eapply attached_legal. }
  eapply triple_bind; [apply read_answer_triple|]. intros [[a' t' s'|a'] o']; [apply IH|apply triple_ret; auto].
Qed.

(** ** Republishing *)

(** The flags after the durable events were sent again, unless the send stopped. *)
Lemma publish_flag terminal events w b t w' :
  publish terminal events w = (Ok (b, t), w') → b = true →
  t = terminal || hasTerminal events ∧ (terminal = true → events = []).
Proof.
  revert w. induction events as [|ev rest IH]; intros w; simpl.
  { intros [= <- <- <-] _. by rewrite orb_false_r. }
  destruct terminal; [by intros [= <- <- <-]|]. intros E Hb.
  apply io_bind_Ok in E as (ok & w1 & _ & E). destruct ok; simpl in E; [|injection E as <- <- <-; done].
  unfold hasTerminal. simpl. destruct (isTerminal ev) eqn:Ei.
  - injection E as <- <- <-. split; [|done]. simpl. unfold isTerminal in Ei.
    destruct (bool_decide_reflect (e_Type ev = "")) as [Hev|]; [by rewrite Hev in Ei|done].
  - by destruct (IH _ E Hb).
Qed.

Definition closed (out : string) : bool := negb (bool_decide (out = "")).
Definition won (out : string) : bool := bool_decide (out = EventSucceeded).

Lemma republish_flags items out w t s w' :
  republish (closed out) (won out) items w = (Ok (Some (t, s)), w') →
  let out' := if closed out then out else terminalType (all_events items) in t = closed out' ∧ s = won out'.
Proof.
  revert out w. induction items as [|item rest IH]; intros out w; simpl.
  { intros [= <- <- <-]. unfold closed. destruct (bool_decide_reflect (out = "")) as [->|]; [done|].
    by rewrite bool_decide_eq_false_2. }
  intros E. apply io_bind_Ok in E as ([ok t1] & w1 & E1 & E). destruct ok; simpl in E; [|done].
  destruct (publish_flag _ _ _ _ _ _ E1 eq_refl) as [-> Hnil].
  unfold all_events. simpl. rewrite terminalType_app. fold (all_events rest).
  set (out1 := if closed out then out else terminalType (cn_Events item)).
  assert (closed out || hasTerminal (cn_Events item) = closed out1) as Ht.
  { unfold out1. destruct (closed out) eqn:Ec; [by rewrite Ec|done]. }
  assert (won out || bool_decide (terminalType (cn_Events item) = EventSucceeded) = won out1) as Hw.
  { unfold out1. destruct (closed out) eqn:Ec; [rewrite (Hnil eq_refl); by rewrite orb_false_r|].
    unfold closed in Ec. apply negb_false_iff, bool_decide_eq_true in Ec. by rewrite Ec. }
  rewrite Ht, Hw in E. destruct (IH _ _ E) as [-> ->]. unfold out1, closed.
  destruct (bool_decide (out = "")) eqn:Eo; simpl; [|by rewrite Eo; simpl; rewrite Eo].
  by destruct (bool_decide (terminalType (cn_Events item) = "")).
Qed.

Lemma republish_triple P items terminal succeeded :
  silent P → (∀ d, P d → I d) → triple I P (republish terminal succeeded items) (λ _, P).
Proof.
  intros Hs HI. revert terminal succeeded. induction items as [|item rest IH]; intros t s; simpl.
  { apply triple_ret. auto. }
  eapply triple_bind; [by apply publish_triple|]. intros [ok t']. destruct ok; simpl; [apply IH|apply triple_ret; auto].
Qed.

Lemma pump_triple policy a recovered durable answers cp p :
  (∃ more, recovered = items0 ++ more) → in_sync a cp recovered p [] → at_tail a = p_tail p →
  triple I (stored cp recovered p) (pump root translate policy a recovered durable answers) (λ _, I).
Proof.
  intros Hext Hs Ht. unfold pump.
  assert (HI : ∀ d, stored cp recovered p d → I d) by (intros; by eapply stored_legal).
  apply (triple_bind _ _ _ _ (λ r d, stored cp recovered p d
     ∧ ∀ t s, r = Some (t, s) → t = p_terminal p ∧ s = bool_decide (p_out p = EventSucceeded))).
  - intros w r w' HP E.
    destruct (republish_triple (stored cp recovered p) recovered false false (λ ev d H, H) HI w r w' HP E)
      as (l & H1 & H2 & H3 & H4).
    exists l. split; [done|]. split; [done|]. split; [done|]. intros x ->. split; [by eapply H4|].
    intros t s ->. destruct (republish_flags recovered "" w t s w' E) as [-> ->]. simpl.
    destruct HP as (_ & _ & Hr & _). by rewrite <- (run_outcome _ _ _ Hr).
  - intros [[t s]|]; [|apply triple_ret; intros d [Hd _]; by split; apply HI].
    destruct (durable && negb t); [apply triple_ret; intros d [Hd _]; by split; apply HI|].
    eapply triple_pre; [apply pump_loop_triple|]. intros d [Hd Hts]. destruct (Hts _ _ eq_refl) as [-> ->].
    by exists cp, recovered, p.
Qed.

(** ** Attaching *)

(** What the scanner of the log holds at once. *)
Definition readable (d : rdurable) : Prop :=
  Forall (λ l, str_len l < consumerLineLimit) (default [] (rd_inbox d !! inbox_path)).

Lemma load_run items lines n log0 items1 p1 p :
  run translate items1 p1 → indexes log0 items1 p1 →
  run translate (items1 ++ items) p → Forall2 (λ c b, consumption_Marshal c = Ok b) items lines →
  match load_lines root ref n log0 lines with
  | Ok log => indexes log (items1 ++ items) p
  | Err _ => ¬ Forall (λ l, str_len l < consumerLineLimit) lines
  end.
Proof.
  intros Hr1 Hi Hr Hf. revert n log0 items1 p1 Hr1 Hi Hr.
  induction Hf as [|c b items lines Hm Hf IH]; intros n log0 items1 p1 Hr1 Hi Hr; simpl.
  { rewrite app_nil_r in *. by rewrite (run_fun _ _ _ _ Hr Hr1). }
  destruct (Z.leb_spec consumerLineLimit (str_len b)); [rewrite Forall_cons; lia|].
  assert (Hc : consumption_representable c) by (eapply run_representable; [exact Hr|set_solver]).
  destruct (consumption_roundtrip _ _ Hc Hm) as (Htrim & Hne & Hun).
  rewrite Htrim, bool_decide_eq_false_2 by done. rewrite Hun, Hm.
  replace (items1 ++ c :: items) with ((items1 ++ [c]) ++ items) in * by (by rewrite <- app_assoc).
  destruct (run_prefix _ _ _ _ Hr) as (q & Hq). pose proof (run_snoc_inv _ _ _ _ Hq) as (p1' & Hp1 & Hs).
  rewrite (run_fun _ _ _ _ Hp1 Hr1) in Hs.
  specialize (IH (n + 1) (log_add c b log0) _ q Hq (indexes_add _ _ _ _ _ _ Hi Hs) Hr).
  destruct (load_lines root ref (n + 1) (log_add c b log0) lines); [done|]. rewrite Forall_cons. tauto.
Qed.

Lemma indexes_empty : indexes empty_log [] start.
Proof. split; [done|]. split; [done|]. intros id b H. simpl in H. by rewrite lookup_empty in H. Qed.

(** Reading the inbox of a run gives the run back, unless a line is beyond the scanner. *)
Lemma recover_lines items p d cp :
  stored cp items p d →
  match scan_log inbox_path d with
  | None => items = [] ∧ p = start
  | Some lines => match load_lines root ref 1 empty_log lines with
                  | Ok log => indexes log items p
                  | Err _ => ¬ readable d
                  end
  end.
Proof.
  intros (_ & [Hf Ht] & Hr & _). unfold readable, scan_log, lines_hold in *. rewrite Ht.
  destruct (rd_inbox d !! inbox_path) as [lines|]; simpl in *.
  - exact (load_run items lines 1 empty_log [] start p (run_nil _) indexes_empty Hr Hf).
  - apply Forall2_nil_inv_r in Hf as ->. split; [done|]. by apply (run_fun _ _ _ _ Hr (run_nil _)).
Qed.

Lemma recover_triple cp items p :
  (∃ more, items = items0 ++ more) →
  triple I (stored cp items p) (Consumer_Recover root ref None) (λ log d, stored cp items p d ∧ indexes log items p).
Proof.
  intros Hext. assert (HI : ∀ d, stored cp items p d → I d) by (intros; by eapply stored_legal).
  unfold Consumer_Recover, logFor. eapply triple_bind; [by apply triple_syscall|]. intros ?.
  apply (triple_bind _ _ _ _ (λ lines d, stored cp items p d ∧ lines = scan_log inbox_path d)).
  { apply triple_wrapping, triple_inspect; [done|]. by intros d ? Hd [= <-]. }
  intros lines. apply triple_each. intros d [Hd ->]. pose proof (recover_lines _ _ _ _ Hd) as Hl.
  apply (triple_pre _ _ (stored cp items p)); [|by intros ? <-].
  destruct (scan_log inbox_path d) as [lines|].
  - destruct (load_lines root ref 1 empty_log lines) as [log|e]; [by apply triple_ret; auto|by apply triple_throw].
  - destruct Hl as [-> ->]. apply triple_ret. intros d' Hd'. split; [by apply HI|]. split; [done|apply indexes_empty].
Qed.

Lemma attach_triple j cp items p :
  (∃ more, items = items0 ++ more) → j = MkJournal claim (set_checkpoint cp rec0) true →
  triple I (stored cp items p) (Attach root j None)
    (λ r d, match r with
            | (a, Some (recovered, _)) => recovered = items ∧ ∃ cp', stored cp' items p d ∧ in_sync a cp' items p []
                ∧ at_tail a = p_tail p
            | (_, None) => I d
            end).
Proof.
  intros Hext ->. assert (HI : ∀ cp d, stored cp items p d → I d) by (intros; by eapply stored_legal).
  destruct Hrec as (_ & _ & Hcomp & Hdis & _). unfold Attach, Resume.
  change (Record_ProcessRef (j_rec (MkJournal claim (set_checkpoint cp rec0) true))) with ref.
  cbn [j_loaded negb]. rewrite Hcomp. cbn [negb]. simpl rr_Dispatched. rewrite Hdis. cbn [negb].
  eapply triple_bind; [by apply triple_attempt, (recover_triple cp items p)|].
  intros [log|e]; [|apply triple_ret; auto]. apply triple_each. intros d [Hd Hi].
  apply (triple_pre _ _ (stored cp items p)); [|by intros ? <-].
  pose proof Hd as (_ & _ & Hr & Hlag). pose proof Hi as (Horder & _).
  change (Record_Checkpoint (j_rec (MkJournal claim (set_checkpoint cp rec0) true))) with
    (MkCheckpoint (cp_Cursor cp) (cp_Tail cp) (cp_Terminal cp)).
  assert (MkCheckpoint (cp_Cursor cp) (cp_Tail cp) (cp_Terminal cp) = cp) as -> by (by destruct cp).
  rewrite Horder, (recovery_accepts _ _ _ _ Hr Hlag).
  apply (triple_bind _ _ _ _ (λ jr d, match jr with
     | (j', Ok _) => ∃ cp1, stored cp1 items p d ∧ j' = MkJournal claim (set_checkpoint cp1 rec0) true
     | (_, Err _) => I d end)).
  { destruct (bool_decide_reflect (items = [])) as [Hnil|Hne].
    - apply triple_ret. intros d' Hd'. split; [by eapply HI|by exists cp].
    - eapply triple_post; [apply (checkpoint_triple true cp items p (p_checkpoint p)); [done..|by apply lags_self]|].
      intros [j' [u|e]] d'; [|done]. intros (cp1 & ? & ? & _). by exists cp1. }
  intros [j' [u|e]]; [|apply triple_ret; auto].
  change (cp_Cursor (p_checkpoint p)) with (p_cursor p).
  rewrite (restore_complete _ _ (run_covers _ _ _ Hr)). apply triple_ret.
  intros d1 (cp1 & Hd1 & ->). split; [by eapply HI|]. split; [done|]. exists cp1. split; [done|]. split; [|done].
  split; [done|]. split; [done|]. split; [by exists log|]. rewrite app_nil_r. split; [|done].
  split; [by eapply run_covers|done].
Qed.

Lemma open_triple cp items p :
  (∃ more, items = items0 ++ more) →
  triple I (stored cp items p) (OpenJournal root claim)
    (λ j d, stored cp items p d ∧ j = MkJournal claim (set_checkpoint cp rec0) true).
Proof.
  intros Hext. assert (HI : ∀ d, stored cp items p d → I d) by (intros; by eapply stored_legal).
  destruct Hrec as (Hv & Hid & Hcomp & _). unfold OpenJournal. rewrite Hv. cbn [negb].
  apply (triple_bind _ _ _ _ (λ rec d, stored cp items p d ∧ rec = set_checkpoint cp rec0)).
  - unfold Load. apply (triple_bind _ _ _ _ (λ raw d, stored cp items p d ∧ raw = rd_files d !! record_path)).
    { apply triple_wrapping, triple_inspect; [done|]. by intros d ? Hd [= <-]. }
    intros raw. apply triple_each. intros d [Hd ->]. pose proof Hd as ((b & -> & Hb) & _). rewrite Hb.
    apply (triple_pre _ _ (stored cp items p)); [|by intros ? <-]. simpl. rewrite Hid, bool_decide_eq_true_2 by done.
    apply triple_ret. intros d' Hd'. split; [by apply HI|done].
  - intros rec. apply triple_each. intros d [Hd ->]. apply (triple_pre _ _ (stored cp items p)); [|by intros ? <-].
    change (Record_ProcessRef (set_checkpoint cp rec0)) with ref. rewrite Hcomp.
    apply triple_ret. intros d' Hd'. split; [by apply HI|done].
Qed.

Lemma lifetime_triple policy answers cp items p :
  (∃ more, items = items0 ++ more) →
  triple I (stored cp items p) (lifetime root translate policy claim answers) (λ _, I).
Proof.
  intros Hext. unfold lifetime. eapply triple_bind; [by apply (open_triple cp items p)|]. intros j.
  apply triple_each. intros d [Hd ->]. apply (triple_pre _ _ (stored cp items p)); [|by intros ? <-].
  eapply triple_bind; [by apply (attach_triple _ cp items p)|]. intros [a [[recovered t]|]]; [|apply triple_ret; auto].
  apply triple_each. intros d1 (-> & cp1 & Hd1 & Hs & Ht).
  apply (triple_pre _ _ (stored cp1 items p)); [|by intros ? <-]. by apply (pump_triple policy a items t answers cp1 p).
Qed.
End process.

(** ** Daemons *)

(** The states a daemon goes through: what it leaves when it is stopped anywhere. *)
Definition leaves {A} (m : IO A) (d : rdurable) (faults : list (option fault)) (d' : rdurable) : Prop :=
  let w := (m (MkWorld d [] faults)).2 in d' ∈ wd_now w :: wd_past w.

(** A write that fell short of nothing but the line break: the record reads as complete,
    and the next one would be written on the same line. *)
Definition newline_lost (d : rdurable) : Prop :=
  log_tail inbox_path d ≠ "" ∧ ∃ c, consumption_Unmarshal (trim_space (log_tail inbox_path d)) = Ok c.

(** Daemons one after the other, each with whatever answers it gets; none is started where a
    record lost its line break and nothing else. *)
Inductive visited (d : rdurable) : rdurable → Prop :=
| visited_start : visited d d
| visited_daemon d1 policy answers faults d2 :
    visited d d1 → ¬ newline_lost d1 → leaves (lifetime root translate policy claim answers) d1 faults d2 →
    visited d d2.

Lemma triple_leaves {A} I (m : IO A) (P : rdurable → Prop) Q d faults d' :
  triple I P m Q → P d → leaves m d faults d' → I d'.
Proof.
  intros H HP. unfold leaves. destruct (m (MkWorld d [] faults)) as [r w'] eqn:E. cbn [snd].
  destruct (H (MkWorld d [] faults) r w' HP E) as (l & Hp & Hl & Hn & _). simpl in Hp. rewrite app_nil_r in Hp. rewrite Hp.
  intros [->|Hd]%elem_of_cons; [done|]. rewrite Forall_forall in Hl. by apply Hl.
Qed.

(** *** A record that was cut short *)

Section cut.
Context (cp : Checkpoint) (items : list Consumption) (p : pos) (rest : string).
Context (Hrun : run translate items p) (Hcut : begun p rest false).
Context (lines : gmap string (list string)) (tails : gmap string string).
Context (Htail : default "" (tails !! inbox_path) = rest).

(** The record and the inbox are as they were. *)
Definition frozen (d : rdurable) : Prop := record_at cp d ∧ rd_inbox d = lines ∧ rd_tail d = tails.

Lemma load_lines_app n log a b :
  load_lines root ref n log (a ++ b) =
    match load_lines root ref n log a with
    | Ok log' => load_lines root ref (n + Z.of_nat (length a)) log' b
    | Err e => Err e
    end.
Proof.
  revert n log. induction a as [|l a IH]; intros n log; cbn [app load_lines length]; [by rewrite Z.add_0_r|].
  replace (n + Z.of_nat (S (length a))) with (n + 1 + Z.of_nat (length a)) by lia.
  destruct (_ <=? _); [done|]. case_bool_decide; [apply IH|].
  destruct (consumption_Unmarshal _) as [c|]; [|done]. destruct (consumption_Marshal c); [apply IH|done].
Qed.

Lemma cut_refused d : frozen d → ∃ ls e, scan_log inbox_path d = Some ls ∧ load_lines root ref 1 empty_log ls = Err e.
Proof.
  intros (_ & Hl & Ht). destruct Hcut as (c & p' & body & n & Hs & Hm & Hrest & Hn & Hw).
  assert (n ≠ String.length body) as Hne by (intros ?; by apply Hw in H).
  destruct (consumption_cut c body n) as (Hb & e & He); [by eapply Hitems|done|lia|].
  unfold scan_log, log_tail. rewrite Hl, Ht, Htail. rewrite <-Hrest in Hb, He.
  destruct rest as [|ch s]; [done|]. eexists. rewrite load_lines_app.
  destruct (load_lines root ref 1 empty_log _) as [log|e1]; [|by exists e1]. cbn [load_lines].
  destruct (_ <=? _); [by eexists|]. rewrite bool_decide_eq_false_2, He by done. by eexists.
Qed.

Lemma recover_frozen : stays frozen (Consumer_Recover root ref None) (λ _, False).
Proof.
  unfold Consumer_Recover, logFor. eapply stays_bind; [apply stays_syscall|]. intros _ _.
  eapply (stays_bind _ _ _ (λ r, ∃ ls e, r = Some ls ∧ load_lines root ref 1 empty_log ls = Err e)).
  { apply stays_wrapping, stays_inspect. intros d r Hd [= <-]. by apply cut_refused. }
  intros r (ls & e & -> & He). unfold lift. rewrite He. apply stays_throw.
Qed.

Lemma open_frozen : stays frozen (OpenJournal root claim) (λ j, j = MkJournal claim (set_checkpoint cp rec0) true).
Proof.
  destruct Hrec as (Hv & Hid & Hcomp & _). unfold OpenJournal. rewrite Hv. cbn [negb].
  eapply (stays_bind _ _ _ (λ rec, rec = set_checkpoint cp rec0)).
  - unfold Load. eapply (stays_bind _ _ _ (λ raw, ∃ b, raw = Some b ∧ DecodeRecord b = Ok (set_checkpoint cp rec0))).
    { apply stays_wrapping, stays_inspect. intros d r ((b & Hb & Hd) & _) [= <-]. by exists b. }
    intros raw (b & -> & Hb). rewrite Hb. simpl. rewrite Hid, bool_decide_eq_true_2 by done. by apply stays_ret.
  - intros rec ->. change (Record_ProcessRef (set_checkpoint cp rec0)) with ref. rewrite Hcomp. by apply stays_ret.
Qed.

Lemma lifetime_frozen policy answers :
  stays frozen (lifetime root translate policy claim answers) (λ _, True).
Proof.
  unfold lifetime. eapply stays_bind; [apply open_frozen|]. intros j ->.
  eapply (stays_bind _ _ _ (λ r, r.2 = None)); [|intros [a o] Ho; simpl in Ho; subst o; by apply stays_ret].
  destruct Hrec as (_ & _ & Hcomp & Hdis & _). unfold Attach, Resume.
  change (Record_ProcessRef (j_rec (MkJournal claim (set_checkpoint cp rec0) true))) with ref.
  cbn [j_loaded negb]. rewrite Hcomp. cbn [negb]. simpl rr_Dispatched. rewrite Hdis. cbn [negb].
  eapply stays_bind; [apply stays_attempt, recover_frozen|]. intros [log|e]; [done|]. intros _. by apply stays_ret.
Qed.

Lemma visited_frozen d d' : frozen d → visited d d' → frozen d'.
Proof.
  intros Hd. induction 1 as [|d1 policy answers faults d2 H IH _ Hl]; [done|].
  eapply triple_leaves; [apply lifetime_frozen|exact IH|exact Hl].
Qed.
End cut.

Lemma visited_legal d d' cp items p : stored cp items p d → visited d d' → legal items d'.
Proof.
  intros Hd. induction 1 as [|d1 policy answers faults d2 H IH Hlost Hl].
  { exists cp, [], p. rewrite app_nil_r. by apply stored_kept. }
  destruct IH as (cp1 & more & p1 & Hd1). pose proof Hd1 as (H1 & H2 & H3 & H4 & H5).
  destruct H5 as [H5|[[|] H5]].
  - assert (stored cp1 (items ++ more) p1 d1) as Hs by (by split_and!).
    eapply triple_leaves; [|exact Hs|exact Hl].
    apply (lifetime_triple items policy answers cp1 (items ++ more) p1). by exists more.
  - destruct Hlost. apply begun_whole in H5 as (c & p' & Hs & Hm).
    destruct (consumption_roundtrip c _ ltac:(by eapply Hitems) Hm) as (Htrim & Hne & Hun). split; [done|].
    rewrite Htrim. eauto.
  - pose proof (lifetime_frozen cp1 (items ++ more) p1 _ H3 H5 (rd_inbox d1) (rd_tail d1) eq_refl policy answers) as Hf.
    assert (frozen cp1 (rd_inbox d1) (rd_tail d1) d2) as (F1 & F2 & F3) by (by eapply triple_leaves; [exact Hf| |exact Hl]).
    exists cp1, more, p1. unfold kept, lines_hold, log_tail in *. rewrite F2, F3. split_and!; try done. right. by exists false.
Qed.
End durable.
