(* ===== verification/RemoteCodec.v ===== *)
(** * RemoteCodec: an encoding with the laws of [RemoteJSON]

    The remote package's theorems are stated against the classes [RemoteJSON] and
    [HookJSON]; these instances show that their laws can be had together, for every value: a value is the
    bits of its number, between braces. The witnesses of the remote package run on it. *)

From Stdlib Require Import Ascii.
From S2P Require Import Prelude GoStd GoStdFacts Core Remote RemoteJournal RemoteHooks.
From stdpp Require Import countable.

(** ** Values as numbers *)

Definition pack : list positive → positive := positives_flatten.
Definition unpack : positive → option (list positive) := positives_unflatten.

Ltac packed :=
  intros []; cbv beta; unfold unpack, pack; rewrite positives_unflatten_flatten; cbv beta iota;
  repeat (rewrite decode_encode; cbn [mbind option_bind]); done.

#[export] Instance RunLimits_eq_dec : EqDecision RunLimits.
Proof. solve_decision. Defined.
#[export] Instance ReplaySpec_eq_dec : EqDecision ReplaySpec.
Proof. solve_decision. Defined.
#[export] Instance RunRecord_eq_dec : EqDecision RunRecord.
Proof. solve_decision. Defined.

#[export] Instance Claim_countable : Countable Claim.
Proof.
  refine {|
  encode c := pack [encode (cl_Repository c); encode (cl_Issue c); encode (cl_Epoch c)];
  decode p := match unpack p with
    | Some [a; b; c] => a ← decode a; b ← decode b; c ← decode c; Some (MkClaim a b c)
    | _ => None
    end |}.
  packed.
Defined.

#[export] Instance Identity_countable : Countable Identity.
Proof.
  refine {|
  encode i := pack [encode (id_Claim i); encode (id_Branch i); encode (id_BaseSHA i); encode (id_SandboxID i);
                    encode (id_ProfileRevision i)];
  decode p := match unpack p with
    | Some [a; b; c; d; e] =>
        a ← decode a; b ← decode b; c ← decode c; d ← decode d; e ← decode e; Some (MkIdentity a b c d e)
    | _ => None
    end |}.
  packed.
Defined.

#[export] Instance WorkspacePaths_countable : Countable WorkspacePaths.
Proof.
  refine {|
  encode w := pack [encode (wp_Path w); encode (wp_SharedGitDir w); encode (wp_PrivateDir w)];
  decode p := match unpack p with
    | Some [a; b; c] => a ← decode a; b ← decode b; c ← decode c; Some (MkPaths a b c)
    | _ => None
    end |}.
  packed.
Defined.

#[export] Instance RunLimits_countable : Countable RunLimits.
Proof.
  refine {|
  encode l := pack [encode (rl_StallTimeout l); encode (rl_AttemptTimeout l); encode (rl_MaxTurns l); encode (rl_MaxCostUSD l)];
  decode p := match unpack p with
    | Some [a; b; c; d] => a ← decode a; b ← decode b; c ← decode c; d ← decode d; Some (MkLimits a b c d)
    | _ => None
    end |}.
  packed.
Defined.

#[export] Instance ReplaySpec_countable : Countable ReplaySpec.
Proof.
  refine {|
  encode r := pack [encode (rep_Workspace r); encode (rep_Prompt r); encode (rep_Continuation r); encode (rep_Env r);
                    encode (rep_Limits r)];
  decode p := match unpack p with
    | Some [a; b; c; d; e] =>
        a ← decode a; b ← decode b; c ← decode c; d ← decode d; e ← decode e; Some (MkReplay a b c d e)
    | _ => None
    end |}.
  packed.
Defined.

#[export] Instance RunRecord_countable : Countable RunRecord.
Proof.
  refine {|
  encode r := pack [encode (rr_Version r); encode (rr_Identity r); encode (rr_RunID r); encode (rr_RequestDigest r);
                    encode (rr_Dispatched r); encode (rr_BackendRunID r); encode (rr_Replay r); encode (rr_Cursor r);
                    encode (rr_DecoderTail r); encode (rr_Terminal r); encode (rr_TemplateRevision r);
                    encode (rr_PromptDigest r); encode (rr_Provider r); encode (rr_Model r); encode (rr_Transcript r)];
  decode p := match unpack p with
    | Some [a; b; c; d; e; f; g; h; i; j; k; l; m; n; o] =>
        a ← decode a; b ← decode b; c ← decode c; d ← decode d; e ← decode e; f ← decode f; g ← decode g;
        h ← decode h; i ← decode i; j ← decode j; k ← decode k; l ← decode l; m ← decode m; n ← decode n; o ← decode o;
        Some (MkRecord a b c d e f g h i j k l m n o)
    | _ => None
    end |}.
  packed.
Defined.

#[export] Instance Usage_countable : Countable Usage.
Proof.
  refine {|
  encode u := pack [encode (us_InputTokens u); encode (us_OutputTokens u); encode (us_CostUSD u)];
  decode p := match unpack p with
    | Some [a; b; c] => a ← decode a; b ← decode b; c ← decode c; Some (MkUsage a b c)
    | _ => None
    end |}.
  packed.
Defined.

#[export] Instance Event_countable : Countable Event.
Proof.
  refine {|
  encode e := pack [encode (e_Type e); encode (e_Time e); encode (e_SessionID e); encode (e_Continuation e);
                    encode (e_Text e); encode (e_Usage e); encode (e_Reason e)];
  decode p := match unpack p with
    | Some [a; b; c; d; e; f; g] =>
        a ← decode a; b ← decode b; c ← decode c; d ← decode d; e ← decode e; f ← decode f; g ← decode g;
        Some (MkEvent a b c d e f g)
    | _ => None
    end |}.
  packed.
Defined.

#[export] Instance Envelope_countable : Countable Envelope.
Proof.
  refine {|
  encode e := pack [encode (ev_Seq e); encode (ev_Stream e); encode (ev_Payload e); encode (ev_Truncated e)];
  decode p := match unpack p with
    | Some [a; b; c; d] => a ← decode a; b ← decode b; c ← decode c; d ← decode d; Some (MkEnvelope a b c d)
    | _ => None
    end |}.
  packed.
Defined.

#[export] Instance EventGap_countable : Countable EventGap.
Proof.
  refine {|
  encode g := pack [encode (gap_From g); encode (gap_To g)];
  decode p := match unpack p with
    | Some [a; b] => a ← decode a; b ← decode b; Some (MkGap a b)
    | _ => None
    end |}.
  packed.
Defined.

#[export] Instance Checkpoint_countable : Countable Checkpoint.
Proof.
  refine {|
  encode c := pack [encode (cp_Cursor c); encode (cp_Tail c); encode (cp_Terminal c)];
  decode p := match unpack p with
    | Some [a; b; c] => a ← decode a; b ← decode b; c ← decode c; Some (MkCheckpoint a b c)
    | _ => None
    end |}.
  packed.
Defined.

#[export] Instance Consumption_countable : Countable Consumption.
Proof.
  refine {|
  encode c := pack [encode (cn_ID c); encode (cn_Checkpoint c); encode (cn_Envelope c); encode (cn_Events c); encode (cn_Gap c)];
  decode p := match unpack p with
    | Some [a; b; c; d; e] =>
        a ← decode a; b ← decode b; c ← decode c; d ← decode d; e ← decode e; Some (MkConsumption a b c d e)
    | _ => None
    end |}.
  packed.
Defined.

#[export] Instance HookRecord_eq_dec : EqDecision HookRecord.
Proof. solve_decision. Defined.

#[export] Instance HookRef_countable : Countable HookRef.
Proof.
  refine {|
  encode r := pack [encode (hr_Identity r); encode (hr_ID r); encode (hr_Phase r); encode (hr_Attempt r);
                    encode (hr_RequestDigest r)];
  decode p := match unpack p with
    | Some [a; b; c; d; e] =>
        a ← decode a; b ← decode b; c ← decode c; d ← decode d; e ← decode e; Some (MkHookRef a b c d e)
    | _ => None
    end |}.
  packed.
Defined.

#[export] Instance HookResult_countable : Countable HookResult.
Proof.
  refine {|
  encode r := pack [encode (hres_ExitCode r); encode (hres_Output r); encode (hres_TimedOut r)];
  decode p := match unpack p with
    | Some [a; b; c] => a ← decode a; b ← decode b; c ← decode c; Some (MkHookResult a b c)
    | _ => None
    end |}.
  packed.
Defined.

#[export] Instance HookRecord_countable : Countable HookRecord.
Proof.
  refine {|
  encode r := pack [encode (hrec_Version r); encode (hrec_Ref r); encode (hrec_Dispatched r); encode (hrec_Result r)];
  decode p := match unpack p with
    | Some [a; b; c; d] => a ← decode a; b ← decode b; c ← decode c; d ← decode d; Some (MkHookRecord a b c d)
    | _ => None
    end |}.
  packed.
Defined.

(** ** Numbers as text *)

Fixpoint bits (p : positive) : string :=
  match p with
  | xH => "}"
  | xO p => String "0" (bits p)
  | xI p => String "1" (bits p)
  end.

Fixpoint unbits (s : string) : option positive :=
  match s with
  | String c rest =>
      if Ascii.eqb c "}" then Some xH
      else if Ascii.eqb c "0" then xO <$> unbits rest
      else xI <$> unbits rest
  | EmptyString => None
  end.

Lemma unbits_bits p t : unbits (bits p +:+ t) = Some p.
Proof. induction p as [p IH|p IH|]; [cbn [bits]; rewrite sapp_cons; cbn [unbits]; simpl; by rewrite IH..|done]. Qed.

Lemma bits_close p : ∃ s, bits p = s +:+ "}".
Proof.
  induction p as [p [s Hs]|p [s Hs]|]; [exists (String "1" s)|exists (String "0" s)|by exists ""];
    cbn [bits]; by rewrite Hs, sapp_cons.
Qed.

Lemma unbits_cut p n : (n < String.length (bits p))%nat → unbits (str_take n (bits p)) = None.
Proof.
  revert n. induction p as [p IH|p IH|]; intros [|n] Hn; try done; cbn [bits str_take unbits String.length] in *.
  - change (xI <$> unbits (str_take n (bits p)) = None). rewrite IH by lia. done.
  - change (xO <$> unbits (str_take n (bits p)) = None). rewrite IH by lia. done.
  - lia.
Qed.

Definition text (p : positive) : string := String "{" (bits p).
Definition untext (s : string) : option positive :=
  match s with String c rest => unbits rest | EmptyString => None end.

Lemma untext_text p : untext (text p) = Some p.
Proof. unfold text, untext. by rewrite <- (sapp_nil_r (bits p)), unbits_bits. Qed.

(** Nothing to trim in front of a brace. *)
Lemma trim_brace q2 q3 c s :
  space1 (byte_val c) = false → (∀ y, q2 (byte_val c) y = false) → (∀ y z, q3 (byte_val c) y z = false) →
  trim_with q2 q3 (String c s) = String c s.
Proof.
  intros H1 H2 H3. simpl. rewrite H1. destruct s as [|c1 s]; [done|]. rewrite H2. destruct s as [|c2 s]; [done|].
  by rewrite H3.
Qed.

Lemma trim_text p : trim_space (text p) = text p.
Proof.
  unfold trim_space, trim_left, text. rewrite trim_brace by done. unfold trim_right.
  destruct (bits_close p) as [s ->]. change (String "{" (s +:+ "}")) with (String "{" s +:+ "}") .
  rewrite srev_app. change (String.rev "}") with "}". change ("}" +:+ String.rev (String "{" s)) with (String "}" (String.rev (String "{" s))).
  rewrite trim_brace; [|done|..].
  - change (String "}" (String.rev (String "{" s))) with (String.rev "}" +:+ String.rev (String "{" s)).
    by rewrite <- srev_app, srev_involutive.
  - intros y. unfold space2. simpl. by rewrite andb_false_r.
  - intros y z. unfold space3. simpl. by rewrite !andb_false_r.
Qed.

(** What is cut off a number's text has nothing to trim either. *)
Definition brace_or_bit (c : ascii) : Prop := c = "{"%char ∨ c = "0"%char ∨ c = "1"%char.

Lemma cut_last n p : (0 < n < String.length (text p))%nat → ∃ s c, str_take n (text p) = s +:+ String c "" ∧ brace_or_bit c.
Proof.
  destruct n as [|n]; [lia|]. intros [_ Hn]. unfold text in *. cbn [str_take String.length] in *.
  assert (n < String.length (bits p))%nat as Hb by lia. clear Hn. revert n Hb.
  induction p as [p IH|p IH|]; intros [|n] Hn; cbn [bits String.length] in Hn; try (by exists "", "{"%char; split; [|left]); [| |lia].
  - cbn [bits str_take]. destruct (IH n ltac:(lia)) as (s & c & Heq & Hc). destruct s as [|c0 s].
    + simpl in Heq. injection Heq as <- Heq. exists "{", "1"%char. rewrite Heq. split; [done|]. right; by right.
    + injection Heq as <- Heq. exists (String "{" (String "1" s)), c. rewrite Heq. by rewrite !sapp_cons.
  - cbn [bits str_take]. destruct (IH n ltac:(lia)) as (s & c & Heq & Hc). destruct s as [|c0 s].
    + simpl in Heq. injection Heq as <- Heq. exists "{", "0"%char. rewrite Heq. split; [done|]. right; by left.
    + injection Heq as <- Heq. exists (String "{" (String "0" s)), c. rewrite Heq. by rewrite !sapp_cons.
Qed.

Lemma trim_cut n p : (0 < n < String.length (text p))%nat → trim_space (str_take n (text p)) = str_take n (text p).
Proof.
  intros Hn. destruct (cut_last n p Hn) as (s & c & Heq & Hc). unfold trim_space, trim_left.
  assert (∃ t, str_take n (text p) = String "{" t) as [t Ht] by (unfold text; destruct n; [lia|by eexists]).
  rewrite Ht, trim_brace by done. rewrite <-Ht, Heq. unfold trim_right. rewrite srev_app.
  change (String.rev (String c "") +:+ String.rev s) with (String c (String.rev s)).
  rewrite trim_brace.
  - change (String c (String.rev s)) with (String.rev (String c "") +:+ String.rev s). by rewrite <-srev_app, srev_involutive.
  - by destruct Hc as [->|[->| ->]].
  - intros y. destruct Hc as [->|[->| ->]]; unfold space2; simpl; by rewrite ?andb_false_r.
  - intros y z. destruct Hc as [->|[->| ->]]; unfold space3; simpl; by rewrite ?andb_false_r.
Qed.

(** ** The encoding *)

Definition decoded {A} (o : option A) : result A :=
  match o with Some a => Ok a | None => Err (errorf "invalid encoding") end.

Definition request_text (p : digest_payload) : string :=
  match p with
  | processRequestDigestV1 _ _ _ stdin _ => "1" +:+ stdin
  | processRequestDigestV2 _ _ _ _ stdin _ _ => "2" +:+ stdin
  | hookRequestDigestV1 _ phase _ script _ => "3" +:+ phase +:+ script
  | hookRequestDigestV2 _ _ phase _ script _ _ _ => "4" +:+ phase +:+ script
  end.

#[export] Program Instance bits_json : RemoteJSON := {|
  record_Marshal r := Ok (text (encode r));
  record_Unmarshal s := decoded (untext s ≫= decode);
  record_representable _ := True;
  consumption_Marshal c := Ok (text (encode c));
  consumption_Unmarshal s := decoded (p ← untext s; if bool_decide (text p = s) then decode p else None);
  consumption_representable _ := True;
  request_Marshal p := Ok (request_text p) |}.
Next Obligation. intros r _. by eexists. Qed.
Next Obligation. intros r b _ [= <-]. unfold text, untext. rewrite sapp_cons, unbits_bits. simpl. by rewrite decode_encode. Qed.
Next Obligation. intros c _. by eexists. Qed.
Next Obligation.
  intros c b _ [= <-]. split; [apply trim_text|]. split; [done|].
  rewrite untext_text. cbn [mbind option_bind]. rewrite bool_decide_eq_true_2 by done. by rewrite decode_encode.
Qed.
Next Obligation.
  intros c b n _ [= <-] Hn. rewrite trim_cut by done. unfold text in *. destruct n as [|n]; [lia|].
  cbn [str_take String.length] in *. split; [done|]. cbn [untext]. rewrite unbits_cut by lia. by eexists.
Qed.

#[export] Program Instance bits_hook_json : HookJSON := {|
  hook_Marshal r := Ok (text (encode r));
  hook_Unmarshal s := decoded (untext s ≫= decode);
  hook_representable _ := True |}.
Next Obligation. intros r _. by eexists. Qed.
Next Obligation. intros r b _ [= <-]. unfold text, untext. rewrite sapp_cons, unbits_bits. simpl. by rewrite decode_encode. Qed.
