(* ===== verification/RemoteDaemon.v ===== *)
(** * RemoteDaemon: what the daemons of a remote run promise together

    The run is dispatched once and then followed by one daemon after another. These
    are the guarantees about the inbox they leave, and about what the next of them
    makes of it. *)

From S2P Require Import Prelude GoStd GoStdFacts Sha256 FaultIO Core Remote RemoteJournal.
From S2P Require Import RemoteAttempt RemoteFacts.
From S2P Require Import RemoteRun RemoteAttemptFacts RemoteCodec.

Local Notation IO := (FaultIO.IO rdurable).

(** ** Republishing without faults *)

(** What a live consumer is sent: nothing after the outcome. *)
Fixpoint upto_terminal (events : list Event) : list Event :=
  match events with
  | [] => []
  | ev :: rest => if isTerminal ev then [ev] else ev :: upto_terminal rest
  end.

Definition deliver (events : list Event) (d : rdurable) : rdurable :=
  MkRemote (rd_files d) (rd_inbox d) (rd_tail d) (rd_started d) (rd_hooks d) (rev events ++ rd_delivered d).

Lemma deliver_nil d : deliver [] d = d.
Proof. by destruct d. Qed.
Lemma deliver_app a b d : deliver b (deliver a d) = deliver (a ++ b) d.
Proof. unfold deliver. simpl. by rewrite rev_app_distr, app_assoc. Qed.

Lemma publish_runs events d : runs d (publish false events) (true, hasTerminal events) (deliver (upto_terminal events) d).
Proof.
  revert d. induction events as [|ev rest IH]; intros d; simpl; [rewrite deliver_nil; apply runs_ret|].
  eapply runs_bind. { unfold send. eapply runs_bind; [by apply runs_attempt, runs_call|apply runs_ret]. }
  unfold hasTerminal. simpl. destruct (isTerminal ev) eqn:E.
  - rewrite bool_decide_eq_false_2; [apply runs_ret|]. intros Ht. unfold isTerminal in E. by rewrite Ht in E.
  - change (put_event ev d) with (deliver [ev] d).
    replace (deliver (ev :: upto_terminal rest) d) with (deliver (upto_terminal rest) (deliver [ev] d)) by (apply deliver_app).
    apply IH.
Qed.

Lemma upto_app a b : upto_terminal (a ++ b) = if hasTerminal a then upto_terminal a else a ++ upto_terminal b.
Proof.
  unfold hasTerminal. induction a as [|e a IH]; [done|]. simpl. destruct (isTerminal e) eqn:E.
  - rewrite bool_decide_eq_false_2; [done|]. intros Ht. unfold isTerminal in E. by rewrite Ht in E.
  - rewrite IH. by destruct (negb _).
Qed.

Lemma upto_open a : hasTerminal a = false → upto_terminal a = a.
Proof. intros H. pose proof (upto_app a []) as E. rewrite H, app_nil_r in E. by rewrite E, app_nil_r. Qed.

Section daemon.
Context `{J : RemoteJSON} (root : string) (translate : string → list Event) (claim : Claim) (rec0 : RunRecord).

Notation stored := (stored root translate claim rec0).
Notation visited := (visited root translate claim rec0).
Notation kept := (kept root translate claim rec0).
Notation inbox_path := (Consumer_Path root (Record_ProcessRef rec0)).
Notation readable := (readable root rec0).

(** C21: the inbox of a remote run is legal whatever happens to it but one thing. Start from
    a dispatched record and a legal inbox and let any number of daemons follow the run, one
    after the other, with any answers from the backend, any call of theirs failing before or
    after its effect or, for an append, anywhere in the line, and each stopped at any point;
    only none is started where a record is on disk in full and its line break is not
    ([newline_lost]). The lines on disk are still the old ones extended by legal steps
    (envelopes in sequence, a valid retention gap, a seal, or at most one verdict of
    failure), none was removed or changed, and the journal's checkpoint never leads them.
    Behind the last line there is nothing, or the beginning of one next legal record; and
    where that is cut short, no daemon ever writes behind it or removes it. *)
Theorem inbox_legal d d' cp items p :
  dispatched_record claim rec0 → items_representable translate →
  stored cp items p d → visited d d' →
  ∃ cp' more p', kept cp' (items ++ more) p' d' ∧ run translate (items ++ more) p' ∧ p_cursor p ≤ p_cursor p'
    ∧ (begun translate p' (log_tail inbox_path d') false →
       ∀ d2, visited d' d2 → rd_inbox d2 = rd_inbox d' ∧ rd_tail d2 = rd_tail d').
Proof.
  intros Hrec Hitems Hd Hv.
  destruct (visited_legal root translate claim rec0 Hrec Hitems _ _ _ _ _ Hd Hv) as (cp' & more & p' & Hd').
  exists cp', more, p'. split; [done|]. pose proof Hd' as (Hrec' & _ & Hr' & _). destruct Hd as (_ & _ & Hr & _).
  split; [done|]. split; [by apply (run_cursor_le translate items more)|]. intros Hcut d2 Hv2.
  by destruct (visited_frozen root translate claim rec0 Hrec Hitems cp' _ p' _ Hr' Hcut (rd_inbox d') (rd_tail d')
    eq_refl d' d2) as (_ & ? & ?).
Qed.


(** Nothing is normalized after an outcome. *)
Definition orderly (out : string) (items : list Consumption) : Prop :=
  ∀ a c b, items = a ++ c :: b → closed (if closed out then out else terminalType (all_events a)) = true → cn_Events c = [].

Lemma run_orderly items p : run translate items p → orderly "" items.
Proof.
  intros Hr a c b -> Hc. replace (a ++ c :: b) with ((a ++ [c]) ++ b) in Hr by (by rewrite <- app_assoc).
  destruct (run_prefix _ _ _ _ Hr) as [q Hq]. apply run_snoc_inv in Hq as (q' & Hq' & Hs). simpl in Hc.
  rewrite <- (run_outcome _ _ _ Hq') in Hc. apply negb_true_iff, bool_decide_eq_false in Hc.
  by apply (step_closed _ _ _ _ Hs Hc).
Qed.

Lemma orderly_cons out item rest :
  orderly out (item :: rest) →
  (closed out = true → cn_Events item = []) ∧ orderly (if closed out then out else terminalType (cn_Events item)) rest.
Proof.
  intros H. split; [intros Hc; apply (H [] item rest); [done|]; by rewrite Hc|].
  intros a c b -> Hc. apply (H (item :: a) c b); [done|]. destruct (closed out) eqn:Eo; [by rewrite Eo in Hc|].
  unfold all_events. simpl. rewrite terminalType_app. fold (all_events a). unfold closed in Hc at 2.
  by destruct (bool_decide (terminalType (cn_Events item) = "")).
Qed.

Lemma republish_orderly items out d :
  orderly out items →
  let out' := if closed out then out else terminalType (all_events items) in
  runs d (republish (closed out) (won out) items) (Some (closed out', won out'))
    (deliver (if closed out then [] else upto_terminal (all_events items)) d).
Proof.
  revert out d. induction items as [|item rest IH]; intros out d Ho; simpl.
  { destruct (closed out) eqn:Ec; rewrite deliver_nil, ?Ec; [apply runs_ret|].
    unfold closed in Ec. apply negb_false_iff, bool_decide_eq_true in Ec as ->. apply runs_ret. }
  apply orderly_cons in Ho as [Hnil Ho]. destruct (closed out) eqn:Ec.
  - rewrite (Hnil eq_refl). eapply runs_bind; [apply runs_ret|]. simpl.
    rewrite orb_false_r. specialize (IH out d Ho). by rewrite Ec in IH.
  - eapply runs_bind; [apply publish_runs|]. simpl.
    assert (won out = false) as ->.
    { unfold closed in Ec. apply negb_false_iff, bool_decide_eq_true in Ec as ->. reflexivity. }
    specialize (IH _ (deliver (upto_terminal (cn_Events item)) d) Ho).
    unfold all_events. simpl. fold (all_events rest). rewrite terminalType_app, upto_app.
    unfold hasTerminal, closed, won in *. simpl.
    destruct (bool_decide (terminalType (cn_Events item) = "")) eqn:Et; simpl in *.
    + assert (upto_terminal (cn_Events item) = cn_Events item) as Hu by (apply upto_open; unfold hasTerminal; by rewrite Et).
      rewrite deliver_app, Hu in IH. rewrite Hu. exact IH.
    + rewrite deliver_nil, Et in IH. by rewrite Et.
Qed.

(** The events of a run, sent in one go, are its events up to the outcome. *)
Lemma republish_runs items p d :
  run translate items p →
  runs d (republish false false items) (Some (p_terminal p, bool_decide (p_out p = EventSucceeded)))
    (deliver (upto_terminal (all_events items)) d).
Proof.
  intros Hr. unfold p_terminal. rewrite (run_outcome _ _ _ Hr). apply (republish_orderly items ""). by eapply run_orderly.
Qed.

(** ** Attaching without faults *)

Notation ref := (Record_ProcessRef rec0).

Lemma replaceFile_runs path body d : runs d (replaceFile path body) tt (put_file path (Some body) d).
Proof.
  unfold replaceFile. do 5 (eapply runs_bind; [apply runs_syscall|]).
  eapply runs_bind; [by apply runs_call|]. eapply runs_bind; apply runs_syscall.
Qed.

Lemma save_runs b cp d :
  dispatched_record claim rec0 →
  ∃ body, DecodeRecord body = Ok (set_checkpoint cp rec0)
    ∧ runs d (save root b (set_checkpoint cp rec0)) tt (put_file (Store_Path root claim) (Some body) d).
Proof.
  intros Hrec. destruct (encode_record claim rec0 Hrec cp) as (body & He & Hd). exists body. split; [done|].
  unfold save, Save. rewrite He. eapply runs_bind.
  { destruct b; [apply runs_syscall|apply runs_ret]. }
  simpl. destruct Hrec as (_ & -> & _). apply replaceFile_runs.
Qed.

Lemma open_runs cp items p d :
  dispatched_record claim rec0 → stored cp items p d →
  runs d (OpenJournal root claim) (MkJournal claim (set_checkpoint cp rec0) true) d.
Proof.
  intros (Hv & Hid & Hcomp & _) ((b & Hb & Hdec) & _). unfold OpenJournal. rewrite Hv. cbn [negb]. eapply runs_bind.
  - unfold Load. eapply runs_bind; [by apply runs_wrapping, runs_inspect|]. rewrite Hb, Hdec. simpl.
    rewrite Hid, bool_decide_eq_true_2 by done. apply runs_ret.
  - change (Record_ProcessRef (set_checkpoint cp rec0)) with ref. rewrite Hcomp. apply runs_ret.
Qed.

Lemma recover_runs cp items p d :
  dispatched_record claim rec0 → items_representable translate → stored cp items p d → readable d →
  ∃ log, runs d (Consumer_Recover root ref None) log d ∧ indexes log items p.
Proof.
  intros Hrec Hitems Hd Hread. pose proof (recover_lines root translate claim rec0 Hrec Hitems _ _ _ _ Hd) as Hl.
  unfold Consumer_Recover, logFor.
  assert (∃ log, runs d (match scan_log (Consumer_Path root ref) d with
      | Some lines => lift (load_lines root ref 1 empty_log lines) | None => mret empty_log end) log d
      ∧ indexes log items p) as (log & Hlog & Hi).
  { destruct (scan_log (Consumer_Path root ref) d) as [lines|].
    - destruct (load_lines root ref 1 empty_log lines) as [log|]; [|done]. exists log. split; [apply runs_ret|done].
    - destruct Hl as [-> ->]. exists empty_log. split; [apply runs_ret|apply indexes_empty]. }
  exists log. split; [|done]. eapply runs_bind; [apply runs_syscall|].
  eapply runs_bind; [by apply runs_wrapping, runs_inspect|]. exact Hlog.
Qed.

(** The state with the journal brought up to the inbox. *)
Lemma reconcile_runs cp items p d j :
  dispatched_record claim rec0 → stored cp items p d → j = MkJournal claim (set_checkpoint cp rec0) true →
  ∃ j' d', runs d (if bool_decide (items = []) then mret (j, Ok tt) else CommitCheckpoint root true j (p_checkpoint p))
             (j', Ok tt) d' ∧ stored (p_checkpoint p) items p d' ∧ rd_inbox d' = rd_inbox d
             ∧ rd_delivered d' = rd_delivered d.
Proof.
  intros Hrec Hd ->. pose proof Hd as (Hfile & Hinbox & Hr & Hlag). destruct (bool_decide_reflect (items = [])) as [->|Hne].
  { eexists _, d. split; [apply runs_ret|]. split; [|done]. destruct Hlag as (Hl & _). rewrite (Hl eq_refl) in Hd.
    by rewrite (run_fun _ _ _ _ Hr (run_nil _)) in Hd |- *. }
  assert (Hself : lags (p_checkpoint p) items p) by (by apply lags_self).
  unfold CommitCheckpoint. simpl. destruct Hlag as (_ & Hc & _). destruct (Z.ltb_spec (p_cursor p) (cp_Cursor cp)); [lia|].
  destruct (bool_decide_reflect (p_checkpoint p = Record_Checkpoint (set_checkpoint cp rec0))) as [Heq|_].
  { eexists _, d. split; [apply runs_ret|]. split; [|done]. rewrite Heq. by destruct cp. }
  destruct (save_runs true (p_checkpoint p) d Hrec) as (body & Hdec & Hsave).
  eexists _, _. split.
  { unfold keeping. eapply runs_bind; [apply runs_attempt, Hsave|apply runs_ret]. }
  split; [|done]. split; [|done]. exists body. split; [|done]. apply lookup_partial_alter_eq.
Qed.

(** C23: a restart resumes the run. From a stored state whose inbox lines the scanner can
    hold, a daemon none of whose calls fails attaches without degrading: it brings the
    journal's checkpoint up to the inbox, stands at the inbox's cursor with the
    unterminated line that was kept, and delivers every durable event again, in order,
    up to and including the outcome. *)
Theorem restart_resumes policy d cp items p :
  dispatched_record claim rec0 → items_representable translate →
  stored cp items p d → readable d →
  ∃ a d', runs d (lifetime root translate policy claim []) a d'
    ∧ at_commitErr a = None ∧ sq_committed (at_seq a) = p_cursor p ∧ at_tail a = p_tail p
    ∧ stored (p_checkpoint p) items p d'
    ∧ rd_delivered d' = rev (upto_terminal (all_events items)) ++ rd_delivered d.
Proof.
  intros Hrec Hitems Hd Hread. pose proof Hd as (_ & _ & Hr & Hlag).
  destruct (recover_runs cp items p d Hrec Hitems Hd Hread) as (log & Hlog & Horder & _).
  destruct (reconcile_runs cp items p d _ Hrec Hd eq_refl) as (j' & d1 & Hrec1 & Hd1 & Hin1 & Hdel1).
  pose proof Hrec as (_ & _ & Hcomp & Hdis & _).
  eexists _, (deliver (upto_terminal (all_events items)) d1). split.
  - unfold lifetime. eapply runs_bind; [by apply (open_runs cp items p)|]. eapply runs_bind.
    + unfold Attach, Resume. change (Record_ProcessRef (j_rec (MkJournal claim (set_checkpoint cp rec0) true))) with ref.
      cbn [j_loaded negb]. rewrite Hcomp. cbn [negb]. simpl rr_Dispatched. rewrite Hdis. cbn [negb].
      eapply runs_bind; [by apply runs_attempt|]. cbn beta iota.
      change (Record_Checkpoint (j_rec (MkJournal claim (set_checkpoint cp rec0) true))) with
        (MkCheckpoint (cp_Cursor cp) (cp_Tail cp) (cp_Terminal cp)).
      assert (MkCheckpoint (cp_Cursor cp) (cp_Tail cp) (cp_Terminal cp) = cp) as -> by (by destruct cp).
      rewrite Horder, (recovery_accepts _ _ _ _ Hr Hlag). eapply runs_bind; [exact Hrec1|]. cbn beta iota.
      change (cp_Cursor (p_checkpoint p)) with (p_cursor p). rewrite (restore_complete _ _ (run_covers _ _ _ Hr)). apply runs_ret.
    + cbn beta iota. unfold pump. eapply runs_bind; [by apply (republish_runs items p)|]. cbn beta iota.
      change (cp_Terminal (p_checkpoint p)) with (p_terminal p). rewrite andb_negb_r. apply runs_ret.
  - split; [done|]. split; [done|]. split; [done|]. split; [done|]. simpl. by rewrite Hdel1.
Qed.
End daemon.

(** ** A run followed by two daemons *)

Module Examples.
Definition claim : Claim := MkClaim "o/r" "7" 1.
Definition identity : Identity := MkIdentity claim "ben/7" "0123456789012345678901234567890123456789" "box" "rev".
Definition rec0 : RunRecord :=
  MkRecord RecordVersion identity "run-1" "sha256:00" true "backend-1" None 0 "" false "t1" "sha256:01" "claude" "" "".
Definition root : string := "/state/remote".
Definition event (type text : string) : Event := MkEvent type 0 "" "" text None "".
Definition translate (line : string) : list Event :=
  if bool_decide (line = "done") then [event EventSucceeded ""] else [event "message" line].

Definition d0 : rdurable :=
  MkRemote {[ Store_Path root claim := match EncodeRecord rec0 with Ok b => b | Err _ => "" end ]} ∅ ∅ [] [] [].

Definition stdout_env (n : Z) (payload : string) : Envelope := MkEnvelope n StreamStdout payload false.
Definition answers : list events_answer :=
  [EvBatch [stdout_env 1 "he"; stdout_env 2 ("llo" +:+ nl)]; EvBatch [stdout_env 2 ("llo" +:+ nl); stdout_env 3 ("done" +:+ nl)];
   EvBatch []].

Definition policy : ReconnectPolicy := withDefaults (MkPolicy 0 0 0).
Definition short (missing : nat) : option fault := Some (FailsShort missing (errorf "no space left on device")).
Definition disk_full : option fault := Some (FailsBefore (errorf "no space left on device")).

(** The first daemon fails to write the journal after its first envelope; the second
    goes on from the inbox. *)
Definition d1 : rdurable :=
  wd_now (lifetime root translate policy claim answers (MkWorld d0 [] (repeat None 10 ++ [disk_full]))).2.
Definition d2 : rdurable := wd_now (lifetime root translate policy claim answers (MkWorld d1 [] [])).2.

Definition inbox (d : rdurable) : list string := default [] (rd_inbox d !! Consumer_Path root (Record_ProcessRef rec0)).

Example two_daemons :
  (length (inbox d1), length (inbox d2)) = (1%nat, 4%nat) ∧ rd_delivered d1 = []
  ∧ rd_delivered d2 = [event EventSucceeded ""; event "message" "hello"].
Proof. vm_compute. done. Qed.

Lemma rec0_dispatched : dispatched_record claim rec0.
Proof. by split_and!. Qed.

Lemma all_representable : items_representable translate.
Proof. done. Qed.

Lemma d0_stored : stored root translate claim rec0 no_checkpoint [] start d0.
Proof.
  split.
  - exists (match EncodeRecord rec0 with Ok b => b | Err _ => "" end). split; [apply lookup_singleton_eq|vm_compute; reflexivity].
  - split; [by split; [constructor|]|]. split; [constructor|]. by split_and!.
Qed.

Lemma not_lost d : log_tail (Consumer_Path root (Record_ProcessRef rec0)) d = "" → ¬ newline_lost root rec0 d.
Proof. by intros H [? _]. Qed.

Lemma d2_visited : visited root translate claim rec0 d0 d2.
Proof.
  apply (visited_daemon _ _ _ _ _ d1 policy answers []); [|apply not_lost; vm_compute; reflexivity|apply elem_of_cons; by left].
  apply (visited_daemon _ _ _ _ _ d0 policy answers (repeat None 10 ++ [disk_full]));
    [apply visited_start|apply not_lost; vm_compute; reflexivity|].
  apply elem_of_cons. by left.
Qed.

(** What is left when the first append falls short of its line break and of [missing] bytes
    more, what a second daemon makes of that, and whether a third still can attach. *)
Definition after_short (missing : nat) : rdurable :=
  wd_now (lifetime root translate policy claim answers (MkWorld d0 [] (repeat None 5 ++ [short missing]))).2.
Definition second (d : rdurable) := lifetime root translate policy claim answers (MkWorld d [] []).
Definition tail_length (d : rdurable) : Z := str_len (log_tail (Consumer_Path root (Record_ProcessRef rec0)) d).
Definition attaches (r : result Attempt * FaultIO.world rdurable) : bool :=
  match r.1 with Ok a => bool_decide (at_commitErr a = None) | Err _ => false end.

(** A record cut short is refused, and nothing is written behind it. *)
Example cut_record_kept :
  let d := after_short 3 in
  (inbox d, tail_length d) = ([], 297) ∧ attaches (second d) = false
  ∧ (inbox (wd_now (second d).2), tail_length (wd_now (second d).2)) = ([], 297).
Proof. vm_compute. done. Qed.

(** A record that lost its line break alone is taken for a complete one, and the second
    daemon goes on from it: its records are on the same line, and no daemon after it can
    attach again. *)
Example lost_newline_glues :
  let d := after_short 0 in
  (inbox d, tail_length d) = ([], 300)
  ∧ attaches (second d) = true ∧ length (inbox (wd_now (second d).2)) = 3%nat
  ∧ attaches (second (wd_now (second d).2)) = false.
Proof. vm_compute. done. Qed.

Lemma inbox_legal_witness :
  ∃ cp' more p', kept root translate claim rec0 cp' more p' d2 ∧ run translate more p' ∧ 0 ≤ p_cursor p'.
Proof.
  destruct (inbox_legal root translate claim rec0 d0 d2 no_checkpoint [] start rec0_dispatched all_representable d0_stored d2_visited)
    as (cp' & more & p' & H1 & H2 & H3 & _).
  exists cp', more, p'. split; [exact H1|]. split; [exact H2|exact H3].
Defined.


Lemma d2_items : ∃ cp items p, stored root translate claim rec0 cp items p d2.
Proof.
  destruct (visited_legal root translate claim rec0 rec0_dispatched all_representable _ _ _ _ _ d0_stored d2_visited)
    as (cp & items & p & H1 & H2 & H3 & H4 & _).
  exists cp, items, p. split; [exact H1|]. split; [split; [exact H2|]|by split].
  vm_compute. reflexivity.
Qed.

Lemma short_lines (l : list string) :
  forallb (λ l, str_len l <? consumerLineLimit) l = true → Forall (λ l, str_len l < consumerLineLimit) l.
Proof. rewrite forallb_forall, Forall_forall. intros H x Hx. by apply Z.ltb_lt, H, list_elem_of_In. Qed.

Lemma d2_readable : readable root rec0 d2.
Proof. refine (short_lines (inbox d2) _). vm_compute. reflexivity. Qed.

Lemma restart_resumes_witness :
  ∃ a d' items, runs d2 (lifetime root translate policy claim []) a d'
    ∧ at_commitErr a = None ∧ rd_delivered d' = rev (upto_terminal (all_events items)) ++ rd_delivered d2.
Proof.
  destruct d2_items as (cp & items & p & Hd).
  destruct (restart_resumes root translate claim rec0 policy d2 cp items p rec0_dispatched all_representable Hd d2_readable)
    as (a & d' & H1 & H2 & _ & _ & _ & H3).
  by exists a, d', items.
Defined.

(** ** Where the idempotency key does not hold *)

Definition ref0 : ProcessRef := Record_ProcessRef rec0.
Definition first_item : Consumption :=
  MkConsumption "event:1" (MkCheckpoint 1 "he" false) (Some (stdout_env 1 "he")) [] None.

Definition commit (c : option consumerLog) (d : rdurable) (faults : list (option fault)) :=
  Consumer_Commit root ref0 c first_item (MkWorld d [] faults).
Definition after_sync_failure := commit (Some empty_log) d0 [None; None; None; disk_full].
Definition retried :=
  match after_sync_failure with
  | (Ok (c, _), w) => commit c (wd_now w) []
  | (Err e, w) => (Err e, w)
  end.

(** A commit whose line was written and whose sync failed is an error, and leaves the
    index without it; trying again in the same process writes the line a second time,
    and no later daemon can restore the run. *)
Example retried_commit_duplicates :
  length (inbox (wd_now after_sync_failure.2)) = 1%nat ∧ length (inbox (wd_now retried.2)) = 2%nat
  ∧ match (lifetime root translate policy claim [] (MkWorld (wd_now retried.2) [] [])).1 with
    | Ok a => match at_commitErr a with Some e => errors_Is e ErrEventGap = true | None => False end
    | Err _ => False
    end.
Proof. vm_compute. done. Qed.

(** A run whose output ends without an outcome is sealed with a failure. The next daemon
    finds the stream sealed again, and commits the same key without events: a conflict,
    though nothing has changed. *)
Definition sealed : rdurable :=
  wd_now (lifetime root translate policy claim [EvBatch [stdout_env 1 ("hello" +:+ nl)]; EvBatch []] (MkWorld d0 [] [])).2.
Example reseal_conflicts :
  match (lifetime root translate policy claim [EvBatch []] (MkWorld sealed [] [])).1 with
  | Ok a => match at_commitErr a with Some e => errors_Is e ErrEventConflict = true | None => False end
  | Err _ => False
  end.
Proof. vm_compute. done. Qed.
End Examples.
