(* ===== verification/RemoteReserve.v ===== *)
(** * RemoteReserve: requests grounded in a store of records

    What the journals of runs and of hooks share: a record is reserved under its key
    before anything is requested, is only ever replaced by a record of the same
    reference, and every request that was sent is the one the record names. *)

From S2P Require Import Prelude GoStd FaultIO Core Remote RemoteJournal.

Section reserve.
Context {K F S R : Type}.
Context (path : K → string) (dec : string → result R) (ok : R → Prop).
Context (name : R → F) (key : F → K) (sent : rdurable → list (F * S)) (made_of : F → S → Prop).
Hypothesis sent_put : ∀ p b d, sent (put_file p b d) = sent d.

(** The record a key's file holds. *)
Definition held (k : K) (d : rdurable) : option R :=
  match rd_files d !! path k with
  | Some b => match dec b with Ok r => Some r | Err _ => None end
  | None => None
  end.

(** Every request that was sent is the one its key's record names, and is what its
    reference was made of; and every record can be written again. *)
Definition rooted (d : rdurable) : Prop :=
  (∀ p b r, rd_files d !! p = Some b → dec b = Ok r → ok r)
  ∧ ∀ f s, (f, s) ∈ sent d → made_of f s ∧ ∃ r, held (key f) d = Some r ∧ name r = f.

(** The file of [f]'s key names [f]. *)
Definition holds (f : F) (d : rdurable) : Prop := rooted d ∧ ∃ r, held (key f) d = Some r ∧ name r = f.

Lemma holds_rooted f d : holds f d → rooted d.
Proof. by intros [? _]. Qed.

(** Replacing the file of a key by a record of the same reference, or writing one where
    there is none. *)
Lemma put_holds f b r d :
  rooted d → (held (key f) d = None ∨ holds f d) → dec b = Ok r → name r = f → ok r →
  holds f (put_file (path (key f)) (Some b) d).
Proof.
  intros [Hfiles Hsent] Hold Hb Hn Hr.
  assert (Hnew : ∀ k, path k = path (key f) → held k (put_file (path (key f)) (Some b) d) = Some r).
  { intros k Hk. unfold held. simpl. rewrite Hk, lookup_partial_alter_eq. by rewrite Hb. }
  split; [|exists r; by rewrite Hnew]. split.
  - intros p b' r'. simpl. destruct (decide (p = path (key f))) as [->|Hne].
    + rewrite lookup_partial_alter_eq. intros [= <-]. rewrite Hb. by intros [= <-].
    + rewrite lookup_partial_alter_ne by done. apply Hfiles.
  - intros f' s. rewrite sent_put. intros Hin. destruct (Hsent f' s Hin) as (Hm & r0 & Hr0 & Hn0). split; [done|].
    destruct (decide (path (key f') = path (key f))) as [Hp|Hp].
    + exists r. split; [by apply Hnew|]. unfold held in Hr0. rewrite Hp in Hr0.
      destruct Hold as [Hnone|(_ & r1 & Hr1 & Hn1)]; unfold held in *; congruence.
    + exists r0. split; [|done]. unfold held in *. simpl. by rewrite lookup_partial_alter_ne.
Qed.

Lemma replace_triple f b r P :
  dec b = Ok r → name r = f → ok r → (∀ d, P d → rooted d ∧ (held (key f) d = None ∨ holds f d)) →
  triple rooted P (replaceFile (path (key f)) b) (λ _, holds f).
Proof.
  intros Hb Hn Hr HP. assert (HI : ∀ d, P d → rooted d) by (intros d Hd; by apply HP).
  unfold replaceFile. do 5 (eapply triple_bind; [by apply triple_syscall|]; intros ?).
  apply (triple_bind _ _ _ _ (λ _, holds f)).
  - apply triple_call; [done|]. intros d r0 d' Hd [= <- <-]. destruct (HP d Hd) as [Hg Ho].
    assert (holds f (put_file (path (key f)) (Some b) d)) as Hh by (by eapply put_holds).
    split; [by eapply holds_rooted|]. by intros ? _.
  - intros ?. eapply triple_bind; [apply triple_syscall, holds_rooted|]. intros ?. apply triple_syscall, holds_rooted.
Qed.

Lemma replace_stays f b r :
  dec b = Ok r → name r = f → ok r → stays (holds f) (replaceFile (path (key f)) b) (λ _, True).
Proof.
  intros Hb Hn Hr. unfold replaceFile. do 5 (eapply stays_bind; [apply stays_syscall|]; intros ? _).
  apply (stays_bind _ _ _ (λ _, True)); [apply stays_call; intros d Hd; split; [|done]|].
  - simpl. eapply put_holds; [by apply holds_rooted in Hd|by right|done..].
  - intros ? _. eapply stays_bind; [apply stays_syscall|]. intros ? _. apply stays_syscall.
Qed.

(** One more request for a reference that is held. *)
Lemma send_holds f s d d' :
  holds f d → rd_files d' = rd_files d → sent d' = (f, s) :: sent d → made_of f s → holds f d'.
Proof.
  intros [[Hf Hs] Hr] Hfiles Hsent Hm.
  assert (Hheld : ∀ k, held k d' = held k d) by (intros k; unfold held; by rewrite Hfiles).
  split; [|by rewrite Hheld]. split; [by rewrite Hfiles|]. intros f' s'. rewrite Hsent, Hheld.
  intros [[= -> ->]|Hin]%elem_of_cons; [done|by apply Hs].
Qed.

(** Requests of one key are one request. *)
Lemma rooted_agree d f1 s1 f2 s2 :
  rooted d → (f1, s1) ∈ sent d → (f2, s2) ∈ sent d → key f1 = key f2 →
  f1 = f2 ∧ made_of f1 s1 ∧ made_of f1 s2 ∧ ∃ r, held (key f1) d = Some r ∧ name r = f1.
Proof.
  intros [_ Hs] H1 H2 Hk. destruct (Hs _ _ H1) as (Hd1 & r1 & Hr1 & Hn1), (Hs _ _ H2) as (Hd2 & r2 & Hr2 & Hn2).
  assert (f1 = f2) as -> by (rewrite Hk in Hr1; congruence). split_and!; try done. by exists r2.
Qed.

Lemma holds_triple {A} f (m : FaultIO.IO rdurable A) φ : stays (holds f) m φ → triple rooted (holds f) m (λ _, rooted).
Proof.
  intros H. apply (triple_weaken (holds f)); [apply holds_rooted|].
  eapply triple_post; [exact H|]. intros a d [Hd _]. by eapply holds_rooted.
Qed.
End reserve.
