(* ===== verification/RemoteRunnerFacts.v ===== *)
(** * RemoteRunnerFacts: one request per claim cycle

    However often a run of a claim cycle is started or resolved, by however many
    daemons, every request the backend receives for it is the one its record names. *)

From S2P Require Import Prelude GoStd GoStdFacts Sha256 FaultIO Core Remote RemoteJournal.
From S2P Require Import RemoteAttempt RemoteRunner.
From S2P Require Import RemoteReserve RemoteAttemptFacts RemoteCodec.

Local Notation IO := (FaultIO.IO rdurable).

Section runner.
Context `{T : GoTables} `{J : RemoteJSON} (root : string).
Context (bind : RunSpec → result Binding) (invoke : RunSpec → result Invocation).
Context (start_status : list (ProcessRef * ProcessSpec) → ProcessRef → ProcessSpec → Status).
Context (attach_status : ProcessRef → string → Status).
(** The specs runs are started with. *)
Context (allowed : RunSpec → Prop).

(** What the runner puts into a record is what JSON represents. *)
Record inputs_representable : Prop := {
  rep_version r : record_representable r → record_representable (set_version RecordVersion r);
  rep_dispatched r : record_representable r → record_representable (set_dispatched r);
  rep_checkpoint r cp : record_representable r → record_representable (set_checkpoint cp r);
  rep_replay r spec : allowed spec → record_representable r →
    record_representable (set_replay (Some (replaySpecOf spec)) r);
  rep_started r l ref spec : record_representable r →
    record_representable (set_backend (ps_BackendRunID (start_status l ref spec)) r);
  rep_attached r ref id : record_representable r →
    record_representable (set_backend (ps_BackendRunID (attach_status ref id)) r);
  rep_fresh spec binding ps ref : allowed spec → compose bind invoke spec = Ok (binding, ps, ref) →
    record_representable (fresh_record ref (with_replay spec (bd_Meta binding)));
}.
Context (Hrep : inputs_representable).

(** The record a claim cycle's file holds; the requests grounded in it; a reference that
    is reserved. *)
Definition recorded : Claim → rdurable → option RunRecord := held (Store_Path root) DecodeRecord.
Definition made_of (ref : ProcessRef) (spec : ProcessSpec) : Prop := ProcessRequestDigest spec = Ok (pr_RequestDigest ref).
Definition claim_of (ref : ProcessRef) : Claim := id_Claim (pr_Identity ref).
Definition grounded : rdurable → Prop :=
  rooted (Store_Path root) DecodeRecord record_representable Record_ProcessRef claim_of rd_started made_of.
Definition reserved : ProcessRef → rdurable → Prop :=
  holds (Store_Path root) DecodeRecord record_representable Record_ProcessRef claim_of rd_started made_of.

Notation I := grounded.

(** A journal of [ref]. *)
Definition journal_of (ref : ProcessRef) (j : Journal) : Prop :=
  j_loaded j = true ∧ j_claim j = claim_of ref ∧ Record_ProcessRef (j_rec j) = ref
  ∧ record_representable (j_rec j) ∧ rr_Version (j_rec j) ≤ RecordVersion.

Lemma reserved_grounded ref d : reserved ref d → I d.
Proof. apply holds_rooted. Qed.

(** ** Writing *)

Lemma encode_decode r :
  record_representable r → rr_Version r ≤ RecordVersion →
  ∃ b r', EncodeRecord r = Ok b ∧ DecodeRecord b = Ok r' ∧ Record_ProcessRef r' = Record_ProcessRef r ∧ record_representable r'.
Proof.
  intros Hr Hv. unfold EncodeRecord.
  set (r' := if rr_Version r =? 0 then set_version RecordVersion r else r).
  assert (Hr' : record_representable r') by (unfold r'; destruct (rr_Version r =? 0); [by apply rep_version|done]).
  destruct (record_total _ Hr') as [b Hb]. exists (b +:+ nl), r'. rewrite Hb. split; [done|].
  unfold DecodeRecord. rewrite (record_roundtrip _ _ Hr' Hb). split.
  - unfold r'. destruct (Z.eqb_spec (rr_Version r) 0); simpl; [done|].
    destruct (Z.ltb_spec RecordVersion (rr_Version r)); [lia|done].
  - split; [|done]. unfold r'. by destruct (rr_Version r =? 0).
Qed.

Lemma Save_triple ref r P :
  Record_ProcessRef r = ref → record_representable r → rr_Version r ≤ RecordVersion →
  (∀ d, P d → grounded d ∧ (recorded (claim_of ref) d = None ∨ reserved ref d)) →
  triple I P (Save root r) (λ _, reserved ref).
Proof.
  intros Href Hr Hv HP. unfold Save. destruct (encode_decode r Hr Hv) as (b & r' & -> & Hb & Href' & Hr').
  assert (id_Claim (rr_Identity r) = claim_of ref) as -> by (by rewrite <- Href).
  eapply replace_triple; [done|done|congruence|done|exact HP].
Qed.

(** ** The journal of one reference *)

Section reference.
Context (ref : ProcessRef).
Notation R := (reserved ref).
Notation stays := (stays R).

Lemma save_stays b r :
  Record_ProcessRef r = ref → record_representable r → rr_Version r ≤ RecordVersion → stays (save root b r) (λ _, True).
Proof.
  intros Href Hr Hv. unfold save. eapply stays_bind; [destruct b; [apply stays_syscall|by apply stays_ret]|]. intros _ _.
  unfold Save. destruct (encode_decode r Hr Hv) as (body & r' & -> & Hb & Href' & Hr').
  assert (id_Claim (rr_Identity r) = claim_of ref) as -> by (by rewrite <- Href).
  eapply replace_stays; [done|done|congruence|done].
Qed.

Lemma keeping_stays {A} b j j' (a : A) (φ : A → Prop) :
  journal_of ref j → journal_of ref j' → φ a →
  stays (keeping j j' a (save root b (j_rec j'))) (λ jr, journal_of ref jr.1).
Proof.
  intros Hj Hj' Ha. unfold keeping. pose proof Hj' as (_ & _ & H1 & H2 & H3).
  eapply stays_bind; [by apply stays_attempt, save_stays|]. intros [u|e] _; by apply stays_ret.
Qed.

Definition status_ok (st : Status) : Prop :=
  ∀ r, record_representable r → record_representable (set_backend (ps_BackendRunID st) r).

Lemma Observe_stays j st : journal_of ref j → status_ok st → stays (Observe root j st) (λ jr, journal_of ref jr.1).
Proof.
  intros Hj Hst. unfold Observe. destruct (_ || _); [by apply stays_ret|].
  eapply (keeping_stays _ _ _ _ (λ _, True)); [done| |done].
  destruct Hj as (H1 & H2 & H3 & H4 & H5). split_and!; try done. by apply Hst.
Qed.

Lemma observed_stays j st : journal_of ref j → status_ok st → stays (observed root j st) (journal_of ref).
Proof. intros Hj Hst. eapply stays_bind; [by apply Observe_stays|]. intros [j' r] Hj'. by apply stays_ret. Qed.

Lemma RecordReplay_stays j spec :
  journal_of ref j → allowed spec → stays (RecordReplay root j spec) (λ jr, journal_of ref jr.1).
Proof.
  intros Hj Ha. unfold RecordReplay. destruct (negb (j_loaded j)); [by apply stays_ret|].
  assert (Hk : stays (keeping j (set_rec (set_version RecordVersion (set_replay (Some (replaySpecOf spec)) (j_rec j))) j) tt
    (save root true (set_version RecordVersion (set_replay (Some (replaySpecOf spec)) (j_rec j))))) (λ jr, journal_of ref jr.1)).
  { eapply (keeping_stays _ _ (set_rec _ j) _ (λ _, True)); [done| |done]. destruct Hj as (H1 & H2 & H3 & H4 & H5).
    split_and!; try done. by apply rep_version, rep_replay. }
  destruct (rr_Replay (j_rec j)) as [old|]; [|exact Hk].
  destruct (negb (replay_equal old (replaySpecOf spec))); [by apply stays_ret|].
  destruct (rr_Version (j_rec j) =? RecordVersion); [by apply stays_ret|exact Hk].
Qed.

Lemma CommitCheckpoint_stays b j cp : journal_of ref j → stays (CommitCheckpoint root b j cp) (λ jr, journal_of ref jr.1).
Proof.
  intros Hj. unfold CommitCheckpoint. destruct (negb (j_loaded j)); [by apply stays_ret|].
  destruct (cp_Cursor cp <? rr_Cursor (j_rec j)); [by apply stays_ret|].
  destruct (bool_decide _); [by apply stays_ret|].
  eapply (keeping_stays _ _ _ _ (λ _, True)); [done| |done].
  destruct Hj as (H1 & H2 & H3 & H4 & H5). split_and!; try done. by apply rep_checkpoint.
Qed.

(** ** Requests *)

Lemma Start_stays spec :
  ProcessRequestDigest spec = Ok (pr_RequestDigest ref) → stays (backend_Start start_status ref spec) status_ok.
Proof.
  intros Hdig. apply stays_call. intros d Hd. split; [by apply (send_holds _ _ _ _ _ _ _ _ spec d)|].
  intros st [= <-] r Hrr. by apply rep_started.
Qed.

Lemma Attach_status_stays id : stays (backend_Attach attach_status ref id) status_ok.
Proof. apply stays_inspect. intros d st _ [= <-] r Hr. by apply rep_attached. Qed.

Lemma attachHandle_stays c j : journal_of ref j → stays (attachHandle root c j) (λ _, True).
Proof.
  intros Hj. unfold attachHandle, Attach. destruct (Resume j) as [[r dis]|e]; [|apply stays_throw].
  destruct (negb dis); [apply stays_throw|]. eapply stays_bind.
  { apply stays_attempt. instantiate (1 := λ _, True). unfold Consumer_Recover. eapply stays_bind; [apply stays_syscall|].
    intros _ _. unfold logFor. destruct c as [log|]; [by apply stays_ret|].
    eapply stays_bind; [by apply stays_wrapping, (stays_inspect _ _ (λ _, True))|]. intros [lines|] _; [|by apply stays_ret].
    unfold lift. destruct (load_lines root r 1 empty_log lines); [by apply stays_ret|by apply stays_throw]. }
  intros [log|e] _; [|by apply stays_ret].
  destruct (reconcileRecovery _ _) as [[[cp h] gaps]|e]; [|by apply stays_ret].
  eapply (stays_bind _ _ _ (λ jr, journal_of ref jr.1)).
  { destruct (bool_decide _); [by apply stays_ret|by apply CommitCheckpoint_stays]. }
  intros [j' [u|e]] _; [|by apply stays_ret]. destruct (Restore _ _ _); by apply stays_ret.
Qed.

Lemma Resume_of j r b : journal_of ref j → Resume j = Ok (r, b) → r = ref.
Proof.
  intros (H1 & _ & H3 & _). unfold Resume. rewrite H1. cbn [negb]. rewrite H3.
  destruct (negb (Ref_Complete ref)); [done|]. by intros [= <- _].
Qed.

Lemma Dispatch_stays j spec :
  journal_of ref j → ProcessRequestDigest spec = Ok (pr_RequestDigest ref) →
  stays (Dispatch root j (λ ref, backend_Start start_status ref spec))
    (λ jr, journal_of ref jr.1 ∧ ∀ st, jr.2 = Ok st → status_ok st).
Proof.
  intros Hj Hdig. unfold Dispatch. pose proof Hj as (H1 & H2 & H3 & H4 & H5). rewrite H1, H3. cbn [negb].
  destruct (negb (Ref_Complete ref)); [by apply stays_ret|]. destruct (rr_Dispatched (j_rec j)); [by apply stays_ret|].
  assert (Hm : journal_of ref (set_rec (set_dispatched (j_rec j)) j)) by (split_and!; try done; by apply rep_dispatched).
  eapply stays_bind; [apply stays_attempt, save_stays; [done| |done]; by apply rep_dispatched|].
  intros [u|e] _; [|by apply stays_ret]. eapply stays_bind; [by apply stays_attempt, Start_stays|].
  intros [st|e] Hst; [|by apply stays_ret].
  destruct (_ && _); [|apply stays_ret; split; [done|]; by intros ? [= <-]].
  assert (Hn : journal_of ref (set_rec (set_backend (ps_BackendRunID st) (set_dispatched (j_rec j))) j)).
  { split_and!; try done. by apply Hst, rep_dispatched. }
  pose proof Hn as (_ & _ & N3 & N4 & N5). eapply stays_bind; [by apply stays_attempt, save_stays|].
  intros [u'|e] _; apply stays_ret; (split; [done|]; by intros ? [= <-]).
Qed.

(** What follows a start whose answer is looked at. *)
Lemma answered_stays c j (r : result Status) :
  journal_of ref j → (∀ st, r = Ok st → status_ok st) →
  stays (match r with
         | Ok st => j ← observed root j st; attachHandle root c j
         | Err e => if errors_Is e ErrProcessRefused then throw e else attachHandle root c j
         end) (λ _, True).
Proof.
  intros Hj Hr. destruct r as [st|e].
  - eapply stays_bind; [apply observed_stays; [done|by apply Hr]|]. intros j' Hj'. by apply attachHandle_stays.
  - destruct (errors_Is e ErrProcessRefused); [apply stays_throw|by apply attachHandle_stays].
Qed.

Lemma replay_stays c j spec :
  journal_of ref j → ProcessRequestDigest spec = Ok (pr_RequestDigest ref) →
  stays (r ← attempt (backend_Start start_status ref spec);
         match r with
         | Ok st => j ← observed root j st; attachHandle root c j
         | Err e => if errors_Is e ErrProcessRefused then throw e else attachHandle root c j
         end) (λ _, True).
Proof.
  intros Hj Hdig. eapply stays_bind; [by apply stays_attempt, Start_stays|]. intros r Hr.
  apply answered_stays; [done|]. by intros st ->.
Qed.

Lemma dispatch_stays c j spec :
  journal_of ref j → ProcessRequestDigest spec = Ok (pr_RequestDigest ref) →
  stays (dispatch root start_status c j spec) (λ _, True).
Proof.
  intros Hj Hdig. unfold dispatch. eapply stays_bind; [by apply Dispatch_stays|]. intros [j' r] [Hj' Hr]. simpl in *.
  destruct r as [st|e]; [by apply (answered_stays c j' (Ok st))|].
  destruct (errors_Is e ErrProcessRefused); [apply stays_throw|].
  destruct (Resume j') as [[r b]|e'] eqn:Er; [|apply stays_throw]. rewrite (Resume_of _ _ _ Hj' Er). by apply replay_stays.
Qed.

Lemma resolveExisting_stays c j spec :
  journal_of ref j → ProcessRequestDigest spec = Ok (pr_RequestDigest ref) →
  stays (resolveExisting root start_status attach_status c j spec) (λ _, True).
Proof.
  intros Hj Hdig. unfold resolveExisting. destruct (Resume j) as [[r b]|e'] eqn:Er; [|apply stays_throw].
  rewrite (Resume_of _ _ _ Hj Er). destruct (negb _); [|by apply replay_stays].
  eapply stays_bind; [apply stays_attempt, Attach_status_stays|]. intros [st|e] Hst.
  - eapply stays_bind; [by apply observed_stays|]. intros j' Hj'. by apply attachHandle_stays.
  - eapply stays_bind; [by apply (stays_ret _ _ (journal_of ref))|]. intros j' Hj'. by apply attachHandle_stays.
Qed.
End reference.

(** ** Opening *)

(** What the outcome of opening a journal says about the claim cycle's file. *)
Definition opened (claim : Claim) (r : result Journal) (d : rdurable) : Prop :=
  match r with
  | Ok j => j_loaded j = true ∧ j_claim j = claim ∧ recorded claim d = Some (j_rec j)
            ∧ id_Claim (rr_Identity (j_rec j)) = claim ∧ rr_Version (j_rec j) ≤ RecordVersion
  | Err e => errors_Is e ErrNoRecord = true → recorded claim d = None
  end.

Lemma DecodeRecord_version b r : DecodeRecord b = Ok r → rr_Version r ≤ RecordVersion.
Proof.
  unfold DecodeRecord. destruct (record_Unmarshal b) as [r'|]; [|done].
  destruct (Z.ltb_spec RecordVersion (rr_Version r')); [done|]. by intros [= <-].
Qed.

(** What a journal is opened from. *)
Definition open_result (claim : Claim) (raw : option string) : result RunRecord :=
  match raw with
  | None => Err (errorf_w ErrNoRecord (": " +:+ Claim_String claim))
  | Some raw =>
      match DecodeRecord raw with
      | Err e => Err e
      | Ok rec =>
          if negb (bool_decide (id_Claim (rr_Identity rec) = claim))
          then Err (errorf_w ErrClaimMismatch (": " +:+ Store_Path root claim +:+ " names "
                 +:+ Claim_String (id_Claim (rr_Identity rec))))
          else Ok rec
      end
  end.

Lemma Load_reads claim :
  reads (Load root claim) (λ d, open_result claim (rd_files d !! Store_Path root claim)) (λ e, errors_Is e ErrNoRecord = false).
Proof.
  unfold Load. eapply (reads_bind _ _ _ (open_result claim)); [by eapply reads_wrapping; [apply reads_inspect|..]| |].
  - intros [raw|] w; [|done]. simpl. destruct (DecodeRecord raw) as [rec|]; [|done]. by destruct (negb _).
  - done.
Qed.

Lemma OpenJournal_triple claim : triple I I (attempt (OpenJournal root claim)) (λ r d, I d ∧ opened claim r d).
Proof.
  unfold OpenJournal. destruct (Claim_Valid claim); simpl; [|apply triple_ret; intros d Hd; by split_and!].
  eapply triple_post.
  { apply reads_triple. eapply (reads_bind _ _ _ (λ rec, if negb (Ref_Complete (Record_ProcessRef rec))
      then Err (errorf_w ErrProcessMismatch (": record for " +:+ Claim_String claim +:+ " has an incomplete process reference"))
      else Ok (MkJournal claim rec true))); [apply Load_reads| |done].
    intros rec w. by destruct (negb _). }
  intros r d [Hd Hr]. split; [done|]. destruct Hr as [-> |(e & -> & He)]; [|simpl; by rewrite He].
  unfold opened, open_result, recorded, held. destruct (rd_files d !! Store_Path root claim) as [raw|]; [|done].
  destruct (DecodeRecord raw) as [rec|] eqn:Ed; [|done]. pose proof (DecodeRecord_version _ _ Ed) as Hv.
  destruct (bool_decide_reflect (id_Claim (rr_Identity rec) = claim)) as [Hc|Hc]; simpl; [|done].
  by destruct (Ref_Complete (Record_ProcessRef rec)).
Qed.

Lemma opened_journal claim j d :
  grounded d → opened claim (Ok j) d → journal_of (Record_ProcessRef (j_rec j)) j ∧ reserved (Record_ProcessRef (j_rec j)) d.
Proof.
  intros Hg (H1 & H2 & H3 & H4 & H5).
  assert (claim_of (Record_ProcessRef (j_rec j)) = claim) as Hc by done.
  split; [|split; [done|]; exists (j_rec j); by rewrite Hc]. split_and!; try done; [by rewrite Hc|].
  unfold recorded, held in H3. destruct (rd_files d !! Store_Path root claim) as [b|] eqn:Ef; [|done].
  destruct (DecodeRecord b) as [r|] eqn:Ed; [|done]. injection H3 as <-. destruct Hg as [Hf _]. by eapply Hf.
Qed.

(** Reserving where there is no record. *)
Lemma Reserve_triple ref meta :
  record_representable (fresh_record ref meta) →
  triple I (λ d, I d ∧ recorded (claim_of ref) d = None) (Reserve root ref meta)
    (λ j d, reserved ref d ∧ journal_of ref j).
Proof.
  intros Hr. unfold Reserve. destruct (negb (Identity_Complete (pr_Identity ref))); [by apply triple_throw; intros d [? _]|].
  destruct (bool_decide (pr_RunID ref = "")); [by apply triple_throw; intros d [? _]|].
  destruct (bool_decide (pr_RequestDigest ref = "")); [by apply triple_throw; intros d [? _]|].
  assert (Record_ProcessRef (fresh_record ref meta) = ref) as Href by (by destruct ref).
  eapply triple_bind; [unfold save; eapply triple_bind; [apply triple_syscall; by intros d [? _]|]; intros ?;
    apply (Save_triple ref); [done..|]; intros d [? ?]; auto|].
  intros ?. apply triple_ret. intros d Hd. split; [by eapply reserved_grounded|]. split; [done|].
  split_and!; try done.
Qed.

Lemma compose_spec spec binding ps ref :
  compose bind invoke spec = Ok (binding, ps, ref) →
  pr_Identity ref = bd_Identity binding ∧ ProcessRequestDigest ps = Ok (pr_RequestDigest ref).
Proof.
  unfold compose. destruct (bind spec) as [b|]; [|done]. destruct (negb _); [done|]. destruct (invoke spec) as [inv|]; [|done].
  destruct (Scope_Validate _); [|done]. destruct (ProcessRequestDigest _) as [digest|] eqn:E; [|done].
  intros [= <- <- <-]. done.
Qed.

Lemma Runner_Start_triple c spec :
  allowed spec → triple I I (Runner_Start root bind invoke start_status attach_status c spec) (λ _, I).
Proof.
  intros Ha. unfold Runner_Start. destruct (compose bind invoke spec) as [[[binding ps] ref]|e] eqn:Ec; [|by apply triple_throw].
  pose proof (compose_spec _ _ _ _ Ec) as [Hid Hdig]. rewrite <- Hid.
  eapply triple_bind; [apply OpenJournal_triple|]. intros r.
  apply (triple_bind _ _ _ _ (λ j d, reserved ref d ∧ journal_of ref j)).
  { destruct r as [j|e].
    - destruct (bool_decide_reflect (Record_ProcessRef (j_rec j) = ref)) as [Href|]; simpl.
      + apply triple_ret. intros d [Hg Ho]. split; [done|]. destruct (opened_journal _ _ _ Hg Ho) as [? ?].
        rewrite Href in *. done.
      + apply triple_throw. by intros d [? _].
    - destruct (errors_Is e ErrNoRecord) eqn:Ee; [|by apply triple_throw; intros d [? _]].
      eapply triple_pre; [apply Reserve_triple; by eapply rep_fresh|]. intros d [Hg Ho]. split; [done|by apply Ho]. }
  intros j. apply triple_each. intros d [Hd Hj].
  apply (triple_pre _ _ (reserved ref)); [|by intros ? <-]. apply (holds_triple _ _ _ _ _ _ _ ref _ (λ _, True)).
  eapply (stays_bind _ _ _ (λ jr, journal_of ref jr.1)).
  { destruct (bool_decide _); [by apply RecordReplay_stays|by apply stays_ret]. }
  intros [j' [u|e]] Hj'; simpl in Hj'; [|apply stays_throw].
  destruct (Resume j') as [[r' dis]|e]; [|apply stays_throw].
  destruct dis; [by apply resolveExisting_stays|by apply dispatch_stays].
Qed.

Lemma triple_unattempt {A} (m : IO A) Q : triple I I (attempt m) Q → triple I I m (λ a, Q (Ok a)).
Proof.
  intros H w r w' HP E. destruct (H w (Ok r) w' HP) as (l & ? & ? & ? & HQ); [unfold attempt; by rewrite E|].
  exists l. split_and!; try done. intros a ->. by apply HQ.
Qed.

Lemma ResolveStart_triple ref : triple I I (ResolveStart root bind invoke start_status ref) (λ _, I).
Proof.
  unfold ResolveStart. eapply triple_bind; [apply (triple_unattempt _ _ (OpenJournal_triple _))|]. intros j.
  apply triple_each. intros d [Hg Ho]. destruct (opened_journal _ _ _ Hg Ho) as [Hj Hd].
  destruct (bool_decide_reflect (Record_ProcessRef (j_rec j) = ref)) as [Href|]; simpl; [|apply triple_throw; by intros ? <-].
  rewrite Href in *.
  apply (triple_pre _ _ (reserved ref)); [|by intros ? <-]. apply (holds_triple _ _ _ _ _ _ _ ref _ (λ _, True)).
  destruct (rr_Replay (j_rec j)) as [replay|]; [|apply stays_throw].
  destruct (negb (rr_Dispatched (j_rec j))); [apply stays_throw|].
  destruct (compose bind invoke (runSpec replay)) as [[[binding ps] rebuilt]|e] eqn:Ec; [|apply stays_throw].
  destruct (bool_decide_reflect (rebuilt = ref)) as [->|]; simpl; [|apply stays_throw].
  pose proof (compose_spec _ _ _ _ Ec) as [_ Hdig]. eapply stays_bind; [by apply Start_stays|]. intros st Hst.
  destruct (bool_decide _); [apply stays_throw|]. eapply stays_bind; [by apply Observe_stays|].
  intros [j' [u|e]] _; [by apply stays_ret|apply stays_throw].
Qed.

(** ** Any number of starts *)

Inductive driven (d : rdurable) : rdurable → Prop :=
| driven_none : driven d d
| driven_start d1 c spec faults d2 : driven d d1 → allowed spec →
    leaves (Runner_Start root bind invoke start_status attach_status c spec) d1 faults d2 → driven d d2
| driven_resolve d1 ref faults d2 : driven d d1 →
    leaves (ResolveStart root bind invoke start_status ref) d1 faults d2 → driven d d2.

Lemma driven_grounded d d' : grounded d → driven d d' → grounded d'.
Proof.
  intros Hd. induction 1 as [|d1 c spec faults d2 _ IH Ha Hl|d1 ref faults d2 _ IH Hl]; [done|..].
  - eapply triple_leaves; [by apply Runner_Start_triple|exact IH|exact Hl].
  - eapply triple_leaves; [apply ResolveStart_triple|exact IH|exact Hl].
Qed.

(** C20: a claim cycle's run is requested once. Let any number of daemons start and
    resolve runs, of any claim cycles, each stopped anywhere and any call of theirs
    failing before or after its effect, so that answers are lost and writes are not
    made: any two requests the backend received for one claim cycle carry the same
    process reference, are the request its digest was taken of, and the record on disk
    names that reference, so the backend's idempotency key makes them one process. *)
Theorem requested_once d d' ref1 spec1 ref2 spec2 :
  grounded d → driven d d' →
  (ref1, spec1) ∈ rd_started d' → (ref2, spec2) ∈ rd_started d' →
  id_Claim (pr_Identity ref1) = id_Claim (pr_Identity ref2) →
  ref1 = ref2 ∧ ProcessRequestDigest spec1 = ProcessRequestDigest spec2
  ∧ ∃ r, recorded (id_Claim (pr_Identity ref1)) d' = Some r ∧ Record_ProcessRef r = ref1.
Proof.
  intros Hg Hd H1 H2 Hc. destruct (rooted_agree _ _ _ _ _ _ _ _ _ _ _ _ (driven_grounded _ _ Hg Hd) H1 H2 Hc)
    as (Heq & Hm1 & Hm2 & Hr).
  split; [done|]. split; [|exact Hr]. unfold made_of in *. congruence.
Qed.
End runner.

Module Examples.
Definition claim : Claim := MkClaim "o/r" "7" 1.
Definition identity : Identity := MkIdentity claim "ben/7" "0123456789012345678901234567890123456789" "box" "rev".
Definition root : string := "/state/remote".
Definition spec : RunSpec := MkSpec (MkPaths "/w" "/g" "/p") "fix it" "" ∅ (MkLimits 1 2 3 0).
Definition bind (s : RunSpec) : result Binding := Ok (MkBinding identity "run-1" (MkMeta "" "" "claude" "" "" None) no_scope).
Definition invoke (s : RunSpec) : result Invocation := Ok (MkInvocation ["claude"; "-p"] ∅ (rs_Prompt s)).
Definition start_status (l : list (ProcessRef * ProcessSpec)) (ref : ProcessRef) (s : ProcessSpec) : Status :=
  MkStatus 0 0 0 0 "backend-1" true.
Definition attach_status (ref : ProcessRef) (id : string) : Status := MkStatus 0 0 0 0 id true.

Definition Start (d : rdurable) (faults : list (option fault)) : result handle * FaultIO.world rdurable :=
  Runner_Start root bind invoke start_status attach_status None spec (MkWorld d [] faults).

Definition d0 : rdurable := MkRemote ∅ ∅ ∅ [] [] [].
Definition lost : option fault := Some (FailsAfter (errorf "connection reset")).
Definition disk_full : option fault := Some (FailsBefore (errorf "no space left on device")).

(** The answer to the start is lost, the request is replayed, and the daemon dies; the
    next one replays it again. *)
Definition d1 : rdurable := wd_now (Start d0 (repeat None 19 ++ [lost; lost])).2.
Definition d2 : rdurable := wd_now (Start d1 []).2.

(** The reference and the request that are composed. *)
Definition composed : ProcessRef * ProcessSpec :=
  match compose bind invoke spec with Ok (_, ps, ref) => (ref, ps) | Err _ => (MkRef identity "" "", MkProcess identity [] ∅ "" (rs_Limits spec) no_scope) end.

Example requests : (length (rd_started d1), length (rd_started d2)) = (2%nat, 3%nat)
  ∧ rr_BackendRunID <$> recorded root claim d2 = Some "backend-1".
Proof. vm_compute. done. Qed.

Lemma inputs : inputs_representable bind invoke start_status attach_status (λ _, True).
Proof. by constructor. Qed.

Lemma d0_grounded : grounded root d0.
Proof. split; [intros path b r H; simpl in H; by rewrite lookup_empty in H|]. intros ref s H. by apply not_elem_of_nil in H. Qed.

Lemma d2_driven : driven root bind invoke start_status attach_status (λ _, True) d0 d2.
Proof.
  apply (driven_start _ _ _ _ _ _ _ d1 None spec []); [|done|apply elem_of_cons; by left].
  apply (driven_start _ _ _ _ _ _ _ d0 None spec (repeat None 19 ++ [lost; lost])); [apply driven_none|done|].
  apply elem_of_cons. by left.
Qed.

Lemma d2_started : rd_started d2 = [composed; composed; composed].
Proof. vm_compute. reflexivity. Qed.

Lemma requested_once_witness :
  ∃ r, recorded root claim d2 = Some r ∧ Record_ProcessRef r = composed.1.
Proof.
  assert (composed ∈ rd_started d2) as Hin by (rewrite d2_started; apply elem_of_cons; by left).
  rewrite (surjective_pairing composed) in Hin.
  destruct (requested_once root bind invoke start_status attach_status (λ _, True) inputs d0 d2
    composed.1 composed.2 composed.1 composed.2 d0_grounded d2_driven Hin Hin eq_refl) as (_ & _ & r & Hr & Href).
  exists r. split; [|exact Href]. exact Hr.
Defined.

(** A start the record does not know about. When the write of the dispatch mark fails,
    [dispatch] takes the failure for an ambiguous start and sends the request anyway:
    the backend has it, the record says nothing was dispatched, and the caller is told
    that there is no run. *)
Example start_without_mark :
  let '(r, w) := Start d0 (repeat None 12 ++ [disk_full]) in
  length (rd_started (wd_now w)) = 1%nat ∧ rr_Dispatched <$> recorded root claim (wd_now w) = Some false
  ∧ match r with Err e => errors_Is e ErrNoRunID = true | Ok _ => False end.
Proof. vm_compute. done. Qed.
End Examples.
