(* ===== verification/RemoteHooksFacts.v ===== *)
(** * RemoteHooksFacts: a hook fires once

    However often a firing is run, by however many daemons, the executor receives one
    request for it; its result is recorded only once its domain is quiet, and is final. *)

From S2P Require Import Prelude GoStd GoStdFacts Sha256 FaultIO Core Remote RemoteJournal.
From S2P Require Import RemoteHooks RemoteReserve.
From S2P Require Import RemoteAttemptFacts RemoteCodec.

Local Notation IO := (FaultIO.IO rdurable).

Section hooks.
Context `{T : GoTables} `{J : RemoteJSON} `{H : HookJSON} (root : string).
Context (start_status : list (HookRef * HookSpec) → HookRef → HookSpec → HookStatus).
(** The firings that are run, and what the executor may answer. *)
Context (allowed : ScriptInvocation → Prop) (answer : HookStatus → Prop).

Definition si_ref (si : ScriptInvocation) (digest : string) : HookRef :=
  MkHookRef (si_Identity si) (si_ID si) (si_Phase si) (si_Attempt si) digest.

Record hooks_representable : Prop := {
  hrep_started l ref spec : answer (start_status l ref spec);
  hrep_version r : hook_representable r →
    hook_representable (MkHookRecord HookRecordVersion (hrec_Ref r) (hrec_Dispatched r) (hrec_Result r));
  hrep_dispatched r : hook_representable r → hook_representable (hrec_dispatched r);
  hrep_completed r st : answer st → hook_representable r → hook_representable (hrec_completed (hst_Result st) r);
  hrep_fresh si digest : allowed si → hook_representable (MkHookRecord HookRecordVersion (si_ref si digest) false None);
}.
Context (Hrep : hooks_representable).

Definition hook_recorded : HookKey → rdurable → option HookRecord := held (Hook_Path root) DecodeHookRecord.
Definition hook_made_of (ref : HookRef) (spec : HookSpec) : Prop := HookRequestDigest spec = Ok (hr_RequestDigest ref).
Definition hook_grounded : rdurable → Prop :=
  rooted (Hook_Path root) DecodeHookRecord hook_representable hrec_Ref HookRef_Key rd_hooks hook_made_of.
Definition hook_reserved : HookRef → rdurable → Prop :=
  holds (Hook_Path root) DecodeHookRecord hook_representable hrec_Ref HookRef_Key rd_hooks hook_made_of.

(** A journal's record of [ref]. *)
Definition journal_hook (ref : HookRef) (r : HookRecord) : Prop :=
  hrec_Ref r = ref ∧ hook_representable r ∧ hrec_Version r ≤ HookRecordVersion.

Lemma hook_encode_decode r :
  hook_representable r → hrec_Version r ≤ HookRecordVersion →
  ∃ b r', EncodeHookRecord r = Ok b ∧ DecodeHookRecord b = Ok r' ∧ hrec_Ref r' = hrec_Ref r
    ∧ hrec_Result r' = hrec_Result r ∧ hook_representable r'.
Proof.
  intros Hr Hv. unfold EncodeHookRecord.
  set (r' := if hrec_Version r =? 0 then MkHookRecord HookRecordVersion (hrec_Ref r) (hrec_Dispatched r) (hrec_Result r) else r).
  assert (Hr' : hook_representable r') by (unfold r'; destruct (hrec_Version r =? 0); [by apply hrep_version|done]).
  destruct (hook_total _ Hr') as [b Hb]. exists (b +:+ nl), r'. rewrite Hb. split; [done|].
  unfold DecodeHookRecord. rewrite (hook_roundtrip _ _ Hr' Hb). split.
  - unfold r'. destruct (Z.eqb_spec (hrec_Version r) 0); simpl; [done|].
    destruct (Z.ltb_spec HookRecordVersion (hrec_Version r)); [lia|done].
  - unfold r'. by destruct (hrec_Version r =? 0).
Qed.

(** ** Opening *)

Definition open_hook_result (key : HookKey) (raw : option string) : result HookRecord :=
  match raw with
  | None => Err (errorf_w ErrNoRecord (": " +:+ Key_String key))
  | Some raw =>
      match DecodeHookRecord raw with
      | Err e => Err e
      | Ok r =>
          if negb (bool_decide (HookRef_Key (hrec_Ref r) = key))
          then Err (errorf_w ErrHookMismatch (": hook file " +:+ Hook_Path root key +:+ " names "
                 +:+ Key_String (HookRef_Key (hrec_Ref r))))
          else Ok r
      end
  end.

Definition hook_opened (key : HookKey) (r : result HookRecord) (d : rdurable) : Prop :=
  match r with
  | Ok rec => hook_recorded key d = Some rec ∧ HookRef_Key (hrec_Ref rec) = key ∧ hrec_Version rec ≤ HookRecordVersion
  | Err e => errors_Is e ErrNoRecord = true → hook_recorded key d = None
  end.

Lemma LoadHook_reads key :
  reads (LoadHook root key) (λ d, open_hook_result key (rd_files d !! Hook_Path root key))
    (λ e, errors_Is e ErrNoRecord = false).
Proof.
  unfold LoadHook. eapply (reads_bind _ _ _ (open_hook_result key)); [by eapply reads_wrapping; [apply reads_inspect|..]| |].
  - intros [raw|] w; [|done]. simpl. destruct (DecodeHookRecord raw) as [rec|]; [|done]. by destruct (negb _).
  - done.
Qed.

Lemma OpenHookJournal_triple (I : rdurable → Prop) key :
  triple I I (attempt (OpenHookJournal root key)) (λ r d, I d ∧ hook_opened key r d).
Proof.
  unfold OpenHookJournal. destruct (Key_Valid key); simpl; [|apply triple_ret; intros d Hd; by split_and!].
  eapply triple_post.
  { apply reads_triple. eapply (reads_bind _ _ _ (λ r, if negb (HookRef_Complete (hrec_Ref r))
      then Err (errorf_w ErrHookMismatch (": incomplete hook reference " +:+ Key_String key)) else Ok r));
      [apply LoadHook_reads| |done].
    intros rec w. by destruct (negb _). }
  intros r d [Hd Hr]. split; [done|]. destruct Hr as [-> |(e & -> & He)]; [|simpl; by rewrite He].
  unfold hook_opened, open_hook_result, hook_recorded, held. destruct (rd_files d !! Hook_Path root key) as [raw|]; [|done].
  destruct (DecodeHookRecord raw) as [rec|] eqn:Ed; [|done].
  assert (hrec_Version rec ≤ HookRecordVersion).
  { unfold DecodeHookRecord in Ed. destruct (hook_Unmarshal raw) as [r'|]; [|done].
    destruct (Z.ltb_spec HookRecordVersion (hrec_Version r')); [done|]. by injection Ed as <-. }
  destruct (bool_decide_reflect (HookRef_Key (hrec_Ref rec) = key)) as [Hc|Hc]; simpl; [|done].
  by destruct (HookRef_Complete (hrec_Ref rec)).
Qed.

(** ** One reference *)

Section reference.
Context (ref : HookRef).
Notation stays := (stays (hook_reserved ref)).

Lemma hook_save_stays b r : journal_hook ref r → stays (hook_save root b r) (λ _, True).
Proof.
  intros (Href & Hr & Hv). unfold hook_save. eapply stays_bind; [destruct b; [apply stays_syscall|by apply stays_ret]|].
  intros _ _. unfold SaveHook. destruct (hook_encode_decode r Hr Hv) as (body & r' & -> & Hb & Href' & _ & Hr').
  rewrite Href. eapply replace_stays; [done|done|congruence|done].
Qed.

Lemma StartScript_stays spec : hook_made_of ref spec → stays (StartScript start_status ref spec) answer.
Proof.
  intros Hm. apply stays_call. intros d Hd. split; [by apply (send_holds _ _ _ _ _ _ _ _ spec d)|].
  intros st [= <-]. by apply hrep_started.
Qed.

Lemma waitHookQuiet_stays (I : rdurable → Prop) answers st :
  Forall answer answers → answer st →
  FaultIO.stays I (waitHookQuiet answers st)
    (λ st, answer st ∧ hst_State st = HookStateFinished ∧ hst_Domain st = DomainStateQuiet).
Proof.
  revert st. induction answers as [|next rest IH]; intros st Ha Hst; simpl;
    (destruct ((hst_State st =? HookStateUnknown) || (hst_State st =? HookStateRunning));
     [|destruct (Z.eqb_spec (hst_State st) HookStateFinished); [|apply stays_throw];
       destruct (Z.eqb_spec (hst_Domain st) DomainStateQuiet); [by apply stays_ret|];
       eapply stays_bind; [apply stays_syscall|]; intros ? _]); try apply stays_throw;
    (eapply stays_bind; [apply stays_syscall|]; intros ? _; apply Forall_cons in Ha as [? ?]; by apply IH).
Qed.

Lemma HookDispatch_stays rec spec :
  journal_hook ref rec → hook_made_of ref spec →
  stays (HookDispatch root rec (λ ref, StartScript start_status ref spec))
    (λ r, journal_hook ref r.1 ∧ ∀ st, r.2 = Ok st → answer st).
Proof.
  intros Hj Hm. pose proof Hj as (H1 & H2 & H3). unfold HookDispatch.
  destruct (hrec_Dispatched rec); [by apply stays_ret|].
  assert (Hd : journal_hook ref (hrec_dispatched rec)) by (split_and!; try done; by apply hrep_dispatched).
  eapply stays_bind; [by apply stays_attempt, hook_save_stays|]. intros [u|e] _; [|by apply stays_ret].
  eapply stays_bind; [rewrite H1; by apply stays_attempt, StartScript_stays|]. intros st Hst. apply stays_ret.
  split; [done|]. simpl. by intros ? ->.
Qed.

(** From the journal on: start or replay, follow, complete. *)
Definition fire (failed : string → error → error) (phase : string) (timeout : Z) (answers : list HookStatus)
    (spec : HookSpec) (rec : HookRecord) : IO (HookResult * option error) :=
  '(rec, status) ←
    (if hrec_Dispatched rec then
       st ← wrapping (failed (": " +:+ phase +:+ " start replay remains ambiguous: ")) (StartScript start_status ref spec);
       mret (rec, st)
     else
       '(rec, r) ← HookDispatch root rec (λ ref, StartScript start_status ref spec);
       match r with
       | Ok st => mret (rec, st)
       | Err startErr =>
           st ← wrapping (failed (": " +:+ phase +:+ " start was ambiguous (" +:+ err_text startErr
                             +:+ ") and exact replay could not resolve it: ")) (StartScript start_status ref spec);
           mret (rec, st)
       end);
  status ← wrapping (failed (": reconciling " +:+ phase +:+ " to domain quiet: ")) (waitHookQuiet answers status);
  wrapping (failed (": recording " +:+ phase +:+ " result: ")) (HookComplete root rec (hst_Result status)) ;;
  mret (hst_Result status, hookResultError phase timeout (hst_Result status)).

Lemma fire_stays failed phase timeout answers spec rec :
  Forall answer answers → journal_hook ref rec → hook_made_of ref spec →
  stays (fire failed phase timeout answers spec rec) (λ _, True).
Proof.
  intros Ha Hj Hm. apply (stays_bind _ _ _ (λ r, journal_hook ref r.1 ∧ answer r.2)).
  - destruct (hrec_Dispatched rec).
    + eapply stays_bind; [by apply stays_wrapping, StartScript_stays|]. intros st Hst. by apply stays_ret.
    + eapply stays_bind; [by apply HookDispatch_stays|]. intros [rec' [st|e]] [Hj' Hst]; [by apply stays_ret; auto|].
      eapply stays_bind; [by apply stays_wrapping, StartScript_stays|]. intros st Hs. by apply stays_ret.
  - intros [rec' st] [Hj' Hst]. eapply stays_bind; [by apply stays_wrapping, waitHookQuiet_stays|].
    intros st' (Hst' & _). eapply stays_bind; [|intros ? _; by apply stays_ret].
    apply stays_wrapping, hook_save_stays. destruct Hj' as (H1 & H2 & H3). split_and!; try done. by apply hrep_completed.
Qed.
End reference.

Lemma ReserveHook_triple ref :
  hook_representable (MkHookRecord HookRecordVersion ref false None) →
  triple hook_grounded (λ d, hook_grounded d ∧ hook_recorded (HookRef_Key ref) d = None) (ReserveHook root ref)
    (λ r d, hook_reserved ref d ∧ journal_hook ref r).
Proof.
  intros Hr. unfold ReserveHook. destruct (negb (HookRef_Complete ref)); [by apply triple_throw; intros d [? _]|].
  unfold hook_save, SaveHook. destruct (hook_encode_decode _ Hr) as (b & r' & Hb & Hd & Href & _ & Hr'); [done|].
  rewrite Hb. eapply triple_bind; [eapply triple_bind; [apply triple_syscall; by intros d [? _]|]; intros ?|].
  - eapply replace_triple; [done|exact Hd|exact Href|done|]. intros d [? ?]; auto.
  - intros ?. apply triple_ret. intros d Hd'. split; [by eapply holds_rooted|by split_and!].
Qed.

Lemma runScript_triple exec store answers si :
  allowed si → Forall answer answers →
  triple hook_grounded hook_grounded (runScript root start_status exec store answers si) (λ _, hook_grounded).
Proof.
  intros Ha Hans. unfold runScript.
  assert (Hthrow : ∀ e, triple hook_grounded hook_grounded (throw e : IO (HookResult * option error)) (λ _, hook_grounded))
    by (intros e; by apply triple_throw).
  destruct (_ && _); [by apply triple_ret|]. destruct (_ && _); [apply Hthrow|].
  destruct (match si_Argv si with a :: _ => _ | [] => _ end); [apply Hthrow|].
  destruct (Scope_Validate (si_Git si)); [|apply Hthrow]. destruct (si_Timeout si <=? 0); [apply Hthrow|].
  destruct (negb exec); [apply Hthrow|]. destruct (negb store); [apply Hthrow|].
  set (spec := MkHookSpec _ _ _ _ _ _ _). destruct (HookRequestDigest spec) as [digest|e] eqn:Ed; [|apply Hthrow].
  fold (si_ref si digest). destruct (negb (HookRef_Complete (si_ref si digest))); [apply Hthrow|].
  eapply triple_bind; [apply OpenHookJournal_triple|]. intros r.
  apply (triple_bind _ _ _ _ (λ rec d, hook_reserved (si_ref si digest) d ∧ journal_hook (si_ref si digest) rec)).
  { destruct r as [rec|e].
    - destruct (bool_decide_reflect (hrec_Ref rec = si_ref si digest)) as [Href|]; simpl; [|by apply triple_throw; intros d [? _]].
      apply triple_ret. intros d [Hg (Hrec & Hkey & Hv)]. split; [done|]. split.
      + split; [done|]. by exists rec.
      + split_and!; try done. unfold hook_recorded, held in Hrec. destruct Hg as [Hf _].
        destruct (rd_files d !! Hook_Path root (HookRef_Key (si_ref si digest))) as [b|] eqn:Eb; [|done].
        destruct (DecodeHookRecord b) as [r'|] eqn:Er; [|done]. injection Hrec as ->. by eapply Hf.
    - destruct (errors_Is e ErrNoRecord) eqn:Ee; [|by apply triple_throw; intros d [? _]].
      apply triple_wrapping. eapply triple_pre; [by apply ReserveHook_triple, hrep_fresh|].
      intros d [Hg Ho]. split; [done|by apply Ho]. }
  intros rec. apply triple_each. intros d [Hd Hj]. apply (triple_pre _ _ (hook_reserved (si_ref si digest))); [|by intros ? <-].
  destruct (hrec_Result rec); [apply triple_ret; intros d' Hd'; by split; eapply holds_rooted|].
  apply (holds_triple _ _ _ _ _ _ _ (si_ref si digest) _ (λ _, True)).
  by apply (fire_stays (si_ref si digest) _ (si_Phase si) (si_Timeout si) answers spec rec).
Qed.

(** ** Any number of firings *)

Inductive fired (d : rdurable) : rdurable → Prop :=
| fired_none : fired d d
| fired_script d1 exec store answers si faults d2 : fired d d1 → allowed si → Forall answer answers →
    leaves (runScript root start_status exec store answers si) d1 faults d2 → fired d d2.

Lemma fired_grounded d d' : hook_grounded d → fired d d' → hook_grounded d'.
Proof.
  intros Hg. induction 1 as [|d1 exec store answers si faults d2 _ IH Ha Hans Hl]; [done|].
  eapply triple_leaves; [by apply runScript_triple|exact IH|exact Hl].
Qed.

(** A hook is requested once. Let any number of daemons fire hooks and commands,
    stopped anywhere and with any call failing before or after its effect: any two
    requests the executor received under one claim cycle and hook id carry the same
    reference and digest, and the record on disk names it. *)
Theorem hook_requested_once d d' ref1 spec1 ref2 spec2 :
  hook_grounded d → fired d d' →
  (ref1, spec1) ∈ rd_hooks d' → (ref2, spec2) ∈ rd_hooks d' → HookRef_Key ref1 = HookRef_Key ref2 →
  ref1 = ref2 ∧ HookRequestDigest spec1 = HookRequestDigest spec2
  ∧ ∃ r, hook_recorded (HookRef_Key ref1) d' = Some r ∧ hrec_Ref r = ref1.
Proof.
  intros Hg Hf H1 H2 Hk. pose proof (fired_grounded _ _ Hg Hf) as Hg'.
  destruct (rooted_agree _ _ _ _ _ _ _ _ _ _ _ _ Hg' H1 H2 Hk) as (Heq & Hm1 & Hm2 & Hr).
  split; [done|]. split; [|exact Hr]. unfold hook_made_of in *. congruence.
Qed.

(** ** Results *)

(** A result some answer of a finished firing with a quiet domain gave. *)
Definition quiet_result (res : HookResult) : Prop :=
  ∃ st, answer st ∧ hst_State st = HookStateFinished ∧ hst_Domain st = DomainStateQuiet ∧ res = hst_Result st.

Definition settled (r : HookRecord) : Prop :=
  hook_representable r ∧ ∀ res, hrec_Result r = Some res → quiet_result res.

Definition tidy (d : rdurable) : Prop :=
  ∀ p b r, rd_files d !! p = Some b → DecodeHookRecord b = Ok r → settled r.

Lemma hook_save_tidy b r :
  settled r → hrec_Version r ≤ HookRecordVersion → stays tidy (hook_save root b r) (λ _, True).
Proof.
  intros [Hr Hres] Hv. unfold hook_save. eapply stays_bind; [destruct b; [apply stays_syscall|by apply stays_ret]|].
  intros _ _. unfold SaveHook. destruct (hook_encode_decode r Hr Hv) as (body & r' & -> & Hb & _ & Hres' & Hr').
  unfold replaceFile. do 5 (eapply stays_bind; [apply stays_syscall|]; intros ? _).
  apply (stays_bind _ _ _ (λ _, True)); [apply stays_call; intros d Hd; split; [|done]|].
  - intros p b' r0. simpl. destruct (decide (p = Hook_Path root (HookRef_Key (hrec_Ref r)))) as [->|Hne].
    + rewrite lookup_partial_alter_eq. intros [= <-]. rewrite Hb. intros [= <-]. split; [done|]. by rewrite Hres'.
    + rewrite lookup_partial_alter_ne by done. apply Hd.
  - intros ? _. eapply stays_bind; [apply stays_syscall|]. intros ? _. apply stays_syscall.
Qed.

Lemma StartScript_tidy ref spec : stays tidy (StartScript start_status ref spec) answer.
Proof. apply stays_call. intros d Hd. split; [exact Hd|]. intros st [= <-]. by apply hrep_started. Qed.

Lemma fire_tidy ref failed phase timeout answers spec rec :
  Forall answer answers → settled rec → hrec_Version rec ≤ HookRecordVersion →
  stays tidy (fire ref failed phase timeout answers spec rec) (λ x, quiet_result x.1).
Proof.
  intros Ha Hs Hv. apply (stays_bind _ _ _ (λ r, settled r.1 ∧ hrec_Version r.1 ≤ HookRecordVersion ∧ answer r.2)).
  - assert (Hd : settled (hrec_dispatched rec)) by (destruct Hs; split; [by apply hrep_dispatched|done]).
    unfold HookDispatch. destruct (hrec_Dispatched rec).
    + eapply stays_bind; [apply stays_wrapping, StartScript_tidy|]. intros st Hst. by apply stays_ret.
    + apply (stays_bind _ _ _ (λ r, settled r.1 ∧ hrec_Version r.1 ≤ HookRecordVersion ∧ ∀ st, r.2 = Ok st → answer st)).
      * eapply stays_bind; [by apply stays_attempt, hook_save_tidy|]. intros [u|e] _; [|by apply stays_ret].
        eapply stays_bind; [apply stays_attempt, StartScript_tidy|]. intros st Hst. apply stays_ret. split_and!; try done.
        simpl. by intros ? ->.
      * intros [rec' [st|e]] (H1 & H2 & H3); [apply stays_ret; auto|].
        eapply stays_bind; [apply stays_wrapping, StartScript_tidy|]. intros st Hst. by apply stays_ret.
  - intros [rec' st] (Hs' & Hv' & Hst). eapply stays_bind; [by apply stays_wrapping, waitHookQuiet_stays|].
    intros st' (Hst' & Hfin & Hq). eapply stays_bind.
    { apply stays_wrapping, hook_save_tidy; [|done]. destruct Hs' as [Hr _].
      split; [by apply hrep_completed|]. intros res [= <-]. by exists st'. }
    intros ? _. apply stays_ret. by exists st'.
Qed.

Lemma runScript_tidy exec store answers si :
  allowed si → Forall answer answers →
  stays tidy (runScript root start_status exec store answers si)
    (λ x, quiet_result x.1 ∨ trim_space (si_Script si) = "" ∧ si_Argv si = []).
Proof.
  intros Ha Hans. unfold runScript. destruct (_ && _) eqn:E0.
  { apply stays_ret. right. apply andb_true_iff in E0 as [E1 E2]. by apply bool_decide_eq_true in E1, E2. }
  clear E0. destruct (_ && _); [apply stays_throw|].
  destruct (match si_Argv si with a :: _ => _ | [] => _ end); [apply stays_throw|].
  destruct (Scope_Validate (si_Git si)); [|apply stays_throw]. destruct (si_Timeout si <=? 0); [apply stays_throw|].
  destruct (negb exec); [apply stays_throw|]. destruct (negb store); [apply stays_throw|].
  set (spec := MkHookSpec _ _ _ _ _ _ _). destruct (HookRequestDigest spec) as [digest|e] eqn:Ed; [|apply stays_throw].
  fold (si_ref si digest). destruct (negb (HookRef_Complete (si_ref si digest))); [apply stays_throw|].
  apply (stays_bind _ _ _ (λ r, ∀ rec, r = Ok rec → settled rec ∧ hrec_Version rec ≤ HookRecordVersion)).
  { eapply triple_post; [apply OpenHookJournal_triple|]. intros r d [Hd Ho]. split; [done|]. intros rec ->.
    destruct Ho as (Hrec & _ & Hv). split; [|done]. unfold hook_recorded, held in Hrec.
    destruct (rd_files d !! _) as [b|] eqn:Eb; [|done]. destruct (DecodeHookRecord b) as [r'|] eqn:Er; [|done].
    injection Hrec as ->. by eapply Hd. }
  intros r Hr. apply (stays_bind _ _ _ (λ rec, settled rec ∧ hrec_Version rec ≤ HookRecordVersion)).
  { destruct r as [rec|e]; [destruct (negb _); [apply stays_throw|apply stays_ret; auto]|].
    destruct (errors_Is e ErrNoRecord); [|apply stays_throw]. apply stays_wrapping. unfold ReserveHook.
    destruct (negb _); [apply stays_throw|].
    assert (Hf : settled (MkHookRecord HookRecordVersion (si_ref si digest) false None)) by (split; [by apply hrep_fresh|done]).
    eapply stays_bind; [by apply hook_save_tidy|]. intros ? _. by apply stays_ret. }
  intros rec [Hs Hv]. destruct (hrec_Result rec) as [res|] eqn:Er.
  { apply stays_ret. left. by apply Hs. }
  eapply stays_post; [by apply (fire_tidy (si_ref si digest) _ (si_Phase si) (si_Timeout si) answers spec rec)|]. auto.
Qed.

(** A hook's result means that nothing of it is left running. Whatever fails and
    wherever daemons stop, a result is on disk, or answered to the caller, only if the
    executor reported it with the hook finished and its domain quiet; a process that was
    reaped while its descendants run is waited for. *)
Theorem hook_result_quiet d d' exec store answers si faults :
  tidy d → fired d d' → allowed si → Forall answer answers → si_Argv si ≠ [] ∨ trim_space (si_Script si) ≠ "" →
  let '(r, w) := runScript root start_status exec store answers si (MkWorld d' [] faults) in
  (∀ res e, r = Ok (res, e) → quiet_result res)
  ∧ ∀ d2 key rec res, d2 ∈ wd_now w :: wd_past w → hook_recorded key d2 = Some rec → hrec_Result rec = Some res → quiet_result res.
Proof.
  intros Hd Hf Ha Hans Hne. assert (tidy d') as Hd'.
  { clear Hne. induction Hf as [|d1 exec' store' answers' si' faults' d2 _ IH Ha' Hans' Hl]; [done|].
    eapply triple_leaves; [|exact IH|exact Hl]. by apply runScript_tidy. }
  pose proof (runScript_tidy exec store answers si Ha Hans) as Ht.
  destruct (runScript root start_status exec store answers si (MkWorld d' [] faults)) as [r w] eqn:E. split.
  - intros res e ->. destruct (Ht (MkWorld d' [] faults) _ _ Hd' E) as (_ & _ & _ & _ & Hx).
    destruct (Hx _ eq_refl) as [_ [?|[? ?]]]; [done|]. by destruct Hne.
  - intros d2 key rec res Hin Hrec. assert (tidy d2) as Hd2.
    { apply (triple_leaves tidy _ tidy _ d' faults d2 Ht Hd'). unfold leaves. by rewrite E. }
    unfold hook_recorded, held in Hrec. destruct (rd_files d2 !! _) as [b|] eqn:Eb; [|done].
    destruct (DecodeHookRecord b) as [r'|] eqn:Er; [|done]. injection Hrec as ->. by apply (Hd2 _ _ _ Eb Er).
Qed.
End hooks.

(** ** Firings on a concrete substrate *)

Module Examples.
Definition claim : Claim := MkClaim "o/r" "7" 1.
Definition identity : Identity := MkIdentity claim "ben/7" "0123456789012345678901234567890123456789" "box" "rev".
Definition root : string := "/state/remote".
Definition si : ScriptInvocation := MkScript identity "h1" HookBeforeRun 0 "make deps" [] no_scope 60000000000.
Definition finished (domain : Z) : HookStatus := MkHookStatus HookStateFinished (MkHookResult 0 "ok" false) domain.
Definition start_status (l : list (HookRef * HookSpec)) (ref : HookRef) (s : HookSpec) : HookStatus :=
  MkHookStatus HookStateRunning no_result 1.
(** Reaped first, quiet later. *)
Definition answers : list HookStatus := [finished 1; finished DomainStateQuiet].

Definition fire_at (d : rdurable) (faults : list (option fault)) : result (HookResult * option error) * FaultIO.world rdurable :=
  runScript root start_status true true answers si (MkWorld d [] faults).

Definition d0 : rdurable := MkRemote ∅ ∅ ∅ [] [] [].
Definition lost : option fault := Some (FailsAfter (errorf "connection reset")).
Definition disk_full : option fault := Some (FailsBefore (errorf "no space left on device")).

(** The answer to the start is lost and so is that to its replay; the next daemon
    replays again, and the one after it has the result from the record. *)
Definition d1 : rdurable := wd_now (fire_at d0 (repeat None 19 ++ [lost; lost])).2.
Definition d2 : rdurable := wd_now (fire_at d1 []).2.
Definition d3 : rdurable := wd_now (fire_at d2 []).2.

Definition the_key : HookKey := MkHookKey claim "h1".

Example firings :
  (length (rd_hooks d1), length (rd_hooks d2), length (rd_hooks d3)) = (2%nat, 3%nat, 3%nat)
  ∧ hrec_Result <$> hook_recorded root the_key d2 = Some (Some (MkHookResult 0 "ok" false)).
Proof. vm_compute. done. Qed.

Lemma hook_inputs : hooks_representable start_status (λ _, True) (λ _, True).
Proof. by constructor. Qed.

Lemma d3_fired : fired root start_status (λ _, True) (λ _, True) d0 d3.
Proof.
  assert (Hall : Forall (λ _ : HookStatus, True) answers) by (by repeat constructor).
  apply (fired_script _ _ _ _ _ d2 true true answers si []); [|done|done|apply elem_of_cons; by left].
  apply (fired_script _ _ _ _ _ d1 true true answers si []); [|done|done|apply elem_of_cons; by left].
  apply (fired_script _ _ _ _ _ d0 true true answers si (repeat None 19 ++ [lost; lost]));
    [apply fired_none|done|done|apply elem_of_cons; by left].
Qed.

Lemma no_hooks_grounded : hook_grounded root d0.
Proof. split; [intros p b r Hb; simpl in Hb; by rewrite lookup_empty in Hb|]. intros ref s Hs. by apply not_elem_of_nil in Hs. Qed.

Definition sent_first : HookRef * HookSpec := default (MkHookRef identity "" "" 0 "", MkHookSpec identity "" 0 "" [] no_scope 0) (head (rd_hooks d3)).

Lemma d3_sent : rd_hooks d3 = [sent_first; sent_first; sent_first].
Proof. vm_compute. reflexivity. Qed.

Lemma hook_requested_once_witness :
  ∃ r, hook_recorded root (HookRef_Key sent_first.1) d3 = Some r ∧ hrec_Ref r = sent_first.1.
Proof.
  assert (sent_first ∈ rd_hooks d3) as Hin by (rewrite d3_sent; apply elem_of_cons; by left).
  rewrite (surjective_pairing sent_first) in Hin.
  destruct (hook_requested_once root start_status (λ _, True) (λ _, True) hook_inputs d0 d3
    sent_first.1 sent_first.2 sent_first.1 sent_first.2 no_hooks_grounded d3_fired Hin Hin eq_refl) as (_ & _ & r & Hr).
  by exists r.
Defined.

Lemma d0_tidy : tidy (λ _, True) d0.
Proof. intros p b r Hb. simpl in Hb. by rewrite lookup_empty in Hb. Qed.

Lemma hook_result_quiet_witness :
  let '(r, w) := runScript root start_status true true answers si (MkWorld d3 [] []) in
  ∀ res e, r = Ok (res, e) → quiet_result (λ _, True) res.
Proof.
  assert (Hall : Forall (λ _ : HookStatus, True) answers) by (by repeat constructor).
  assert (Hne : si_Argv si ≠ [] ∨ trim_space (si_Script si) ≠ "") by (right; by vm_compute).
  pose proof (hook_result_quiet root start_status (λ _, True) (λ _, True) hook_inputs d0 d3 true true answers si []
    d0_tidy d3_fired I Hall Hne) as Hq.
  destruct (runScript root start_status true true answers si (MkWorld d3 [] [])) as [r w]. apply Hq.
Defined.

(** A hook the record does not know about: the write of its dispatch mark fails, and it
    is started all the same. *)
Example hook_without_mark :
  let '(r, w) := runScript root start_status true true [] si (MkWorld d0 [] (repeat None 12 ++ [disk_full])) in
  length (rd_hooks (wd_now w)) = 1%nat ∧ hrec_Dispatched <$> hook_recorded root the_key (wd_now w) = Some false.
Proof. vm_compute. done. Qed.
End Examples.
