(* ===== verification/TemplateLex.v ===== *)
(** * TemplateLex: the expressions of a prompt template

    Models [internal/template/scan.go]: the lexer of an expression, the variable
    references and filters it holds, and the grammar of loop tags. A source is the list
    of its runes with their bytes; the positions the code compares bytes at are ASCII,
    where a byte and a rune are the same thing. *)

From S2P Require Import Prelude GoStd.

(** ** Runes *)

(** [unicode.IsSpace] *)
Definition space_rune (r : Z) : bool :=
  in_range 9 13 r || (r =? 32) || (r =? 0x85) || (r =? 0xA0) || (r =? 0x1680) || in_range 0x2000 0x200A r
  || (r =? 0x2028) || (r =? 0x2029) || (r =? 0x202F) || (r =? 0x205F) || (r =? 0x3000).

(** [unicode.IsLetter], [unicode.IsDigit] and [unicode.IsMark]; no letter is a space. *)
Class LexTables := {
  letter_rune : Z → bool;
  digit_rune : Z → bool;
  mark_rune : Z → bool;
  letter_ascii : ∀ r, 0 ≤ r < 128 → letter_rune r = is_lower r || is_upper r;
  digit_ascii : ∀ r, 0 ≤ r < 128 → digit_rune r = is_digit r;
  mark_ascii : ∀ r, 0 ≤ r < 128 → mark_rune r = false;
  letter_space : ∀ r, letter_rune r = true → space_rune r = false;
}.

#[export, refine] Instance ascii_lex : LexTables := {
  letter_rune r := is_lower r || is_upper r;
  digit_rune := is_digit;
  mark_rune _ := false;
  letter_ascii _ _ := eq_refl;
  digit_ascii _ _ := eq_refl;
  mark_ascii _ _ := eq_refl;
}.
Proof. intros r. unfold is_lower, is_upper, space_rune, in_range. lia. Defined.

(** ** Tokens *)

Inductive token :=
| tokIdent (text : string)
| tokProperty (text : string)
| tokKeyword (text : string)
| tokLiteral (text : string)
| tokPunct (text : string).

#[export] Instance token_eq_dec : EqDecision token.
Proof. solve_decision. Defined.

Definition tok_text (t : token) : string :=
  match t with tokIdent x | tokProperty x | tokKeyword x | tokLiteral x | tokPunct x => x end.

Definition is_punct (p : string) (t : token) : bool := bool_decide (t = tokPunct p).

Definition reserved (s : string) : bool :=
  bool_decide (s ∈ ["and"; "or"; "contains"; "in"; "true"; "false"; "nil"]).

Section lex.
Context {L : LexTables} {T : GoTables}.

Notation chunk := (Z * string)%type.

Definition isIdentStart (r : Z) : bool := (r =? 95) || letter_rune r.
Definition isIdentTail (r : Z) : bool :=
  (r =? 95) || (r =? 45) || letter_rune r || digit_rune r || mark_rune r.

Definition text_of (l : list chunk) : string := foldr (λ p acc, p.2 +:+ acc) "" l.

Fixpoint span (p : Z → bool) (l : list chunk) : list chunk * list chunk :=
  match l with
  | c :: rest => if p c.1 then let '(a, b) := span p rest in (c :: a, b) else ([], l)
  | [] => ([], [])
  end.

Definition head_is (p : Z → bool) (l : list chunk) : bool := match l with c :: _ => p c.1 | [] => false end.

Definition lexIdent (l : list chunk) : string * list chunk :=
  let '(name, rest) := span isIdentTail l in
  match rest with
  | c :: rest' => if c.1 =? 63 then (text_of (name ++ [c]), rest') else (text_of name, rest)
  | [] => (text_of name, rest)
  end.

(** The digits after the first rune of a number, and a fraction. *)
Definition lexNumber (first : chunk) (l : list chunk) : string * list chunk :=
  let '(whole, rest) := span is_digit l in
  match rest with
  | dot :: d :: rest' =>
      if (dot.1 =? 46) && is_digit d.1
      then let '(frac, rest'') := span is_digit rest' in (text_of (first :: whole ++ dot :: d :: frac), rest'')
      else (text_of (first :: whole), rest)
  | _ => (text_of (first :: whole), rest)
  end.

(** [string(r)]: what could not be decoded is the replacement character. *)
Definition rune_text (c : chunk) : string := if c.1 =? rune_error then encode_rune rune_error else c.2.

Definition two_char (a b : Z) : bool :=
  (b =? 61) && ((a =? 61) || (a =? 33) || (a =? 60) || (a =? 62)).

(** One token or none at the head of a source that is not empty, and the rest. *)
Definition lex_step (src : string) (c : chunk) (l : list chunk) : result (list token * list chunk) :=
  let r := c.1 in
  if space_rune r then Ok ([], l)
  else if (r =? 39) || (r =? 34) then
    let '(body, rest) := span (λ x, negb (x =? r)) l in
    match rest with
    | [] => Err (errorf ("unterminated string literal in " +:+ quote src))
    | q :: rest' => Ok ([tokLiteral (text_of (c :: body ++ [q]))], rest')
    end
  else if is_digit r || ((r =? 45) && head_is is_digit l) then
    let '(t, rest) := lexNumber c l in Ok ([tokLiteral t], rest)
  else if isIdentStart r then
    let '(name, rest) := lexIdent (c :: l) in
    match rest with
    | colon :: rest' => if colon.1 =? 58 then Ok ([tokKeyword name], rest') else Ok ([tokIdent name], rest)
    | [] => Ok ([tokIdent name], rest)
    end
  else if r =? 46 then
    if head_is isIdentStart l then let '(name, rest) := lexIdent l in Ok ([tokProperty name], rest)
    else match l with
         | d :: rest => if d.1 =? 46 then Ok ([tokPunct ".."], rest) else Ok ([tokPunct "."], l)
         | [] => Ok ([tokPunct "."], l)
         end
  else
    match l with
    | d :: rest => if two_char r d.1 then Ok ([tokPunct (text_of [c; d])], rest) else Ok ([tokPunct (rune_text c)], l)
    | [] => Ok ([tokPunct (rune_text c)], l)
    end.

(** Every step takes a rune, so the length of the source is enough fuel. *)
Fixpoint lex_loop (src : string) (fuel : nat) (l : list chunk) : result (list token) :=
  match fuel, l with
  | S fuel', c :: rest =>
      try step := lex_step src c rest in
      let '(toks, rest) := step in
      try more := lex_loop src fuel' rest in
      Ok (toks ++ more)
  | _, _ => Ok []
  end.

Definition lex (src : string) : result (list token) := lex_loop src (length (decode src)) (decode src).

(** ** References *)

Inductive pathSeg := segProp (prop : string) | segKey (prop : string) | segIndex (index : Z) | segDynamic.
Record ref := MkRef { rf_root : string; rf_segs : list pathSeg }.

#[export] Instance pathSeg_eq_dec : EqDecision pathSeg.
Proof. solve_decision. Defined.

Definition seg_string (s : pathSeg) : string :=
  match s with
  | segProp p => "." +:+ p
  | segKey p => "[" +:+ quote p +:+ "]"
  | segIndex n => "[" +:+ itoa n +:+ "]"
  | segDynamic => "[…]"
  end.

Definition ref_string (r : ref) : string := rf_root r +:+ foldr (λ s acc, seg_string s +:+ acc) "" (rf_segs r).
(** The path up to and including the first [n] segments. *)
Definition ref_prefix (r : ref) (n : nat) : string := ref_string (MkRef (rf_root r) (firstn n (rf_segs r))).

(** The tokens of a bracket that was opened, and those after it. *)
Fixpoint bracket (depth : nat) (toks : list token) : option (list token * list token) :=
  match toks with
  | [] => None
  | t :: rest =>
      let deeper d := match bracket d rest with Some (inner, after) => Some (t :: inner, after) | None => None end in
      if is_punct "[" t then deeper (S depth)
      else if is_punct "]" t then match depth with S (S d) => deeper (S d) | _ => Some ([], rest) end
      else deeper depth
  end.

(** [strconv.Atoi]; a literal has no sign but a minus. *)
Definition bracketSeg (inner : list token) : pathSeg :=
  match inner with
  | [tokLiteral lit] =>
      match parse_int lit with
      | Some n => segIndex n
      | None =>
          match lit with
          | String c _ =>
              if (2 <=? str_len lit) && ((byte_val c =? 39) || (byte_val c =? 34))
              then segKey (str_take (String.length lit - 2) (str_drop 1 lit)) else segDynamic
          | EmptyString => segDynamic
          end
      end
  | _ => segDynamic
  end.

Definition unbalanced : error := errorf "unbalanced brackets in template expression".

(** The access chain: its segments, the contents of its brackets, and what follows. *)
Fixpoint parse_segs (fuel : nat) (toks : list token) : result (list pathSeg * list (list token) * list token) :=
  match fuel, toks with
  | S fuel', tokProperty p :: rest =>
      try r := parse_segs fuel' rest in
      let '(segs, inners, rest) := r in Ok (segProp p :: segs, inners, rest)
  | S fuel', t :: rest =>
      if is_punct "[" t then
        match bracket 1 rest with
        | None => Err unbalanced
        | Some (inner, rest) =>
            try r := parse_segs fuel' rest in
            let '(segs, inners, rest) := r in Ok (bracketSeg inner :: segs, inner :: inners, rest)
        end
      else Ok ([], [], toks)
  | _, _ => Ok ([], [], toks)
  end.

(** [parseRef]: the reference, its brackets' contents and the tokens after it. *)
Definition parseRef (root : string) (toks : list token) : result (ref * list (list token) * list token) :=
  try r := parse_segs (length toks) toks in
  let '(segs, inners, rest) := r in Ok (MkRef root segs, inners, rest).

Record analysis := MkAnalysis { an_refs : list ref; an_filters : list string }.
Definition no_analysis : analysis := MkAnalysis [] [].
Definition an_app (a b : analysis) : analysis := MkAnalysis (an_refs a ++ an_refs b) (an_filters a ++ an_filters b).

Definition static (inner : list token) : bool := match inner with [tokLiteral _] => true | _ => false end.

(** [analyze] and [analyzeBrackets]; a bracket's contents are fewer tokens than the
    expression that holds it. *)
Fixpoint analyze_loop (fuel : nat) (toks : list token) : result analysis :=
  match fuel, toks with
  | S fuel', t :: rest =>
      if is_punct "|" t then
        match rest with
        | (tokIdent f | tokKeyword f) :: rest' =>
            try a := analyze_loop fuel' rest' in Ok (MkAnalysis (an_refs a) (f :: an_filters a))
        | _ => analyze_loop fuel' rest
        end
      else
        match t with
        | tokIdent x =>
            if reserved x then analyze_loop fuel' rest
            else
              try p := parseRef x rest in
              let '(r, inners, rest) := p in
              try sub := (fix brackets (l : list (list token)) : result analysis :=
                            match l with
                            | [] => Ok no_analysis
                            | inner :: l' =>
                                if static inner then brackets l'
                                else try a := analyze_loop fuel' inner in
                                     try b := brackets l' in Ok (an_app a b)
                            end) inners in
              try a := analyze_loop fuel' rest in
              Ok (MkAnalysis (r :: an_refs sub ++ an_refs a) (an_filters sub ++ an_filters a))
        | _ => analyze_loop fuel' rest
        end
  | _, _ => Ok no_analysis
  end.

Definition analyze (toks : list token) : result analysis := analyze_loop (length toks) toks.

(** ** Loops *)

Record loopModifier := MkModifier { lm_name : string; lm_value : list token }.
Record loopSpec := MkLoop { ls_binder : string; ls_collection : list token; ls_modifiers : list loopModifier }.

Definition bareLoopModifiers (s : string) : bool := bool_decide (s = "reversed").
Definition keywordLoopModifiers (s : string) : bool := bool_decide (s ∈ ["limit"; "offset"; "cols"]).

(** The length of the balanced group a list of tokens begins with; [i] tokens of it are
    read, [depth] groups open. *)
Fixpoint group_loop (open closing : string) (depth i : nat) (toks : list token) : option nat :=
  match toks with
  | [] => None
  | t :: rest =>
      if is_punct open t then group_loop open closing (S depth) (S i) rest
      else if is_punct closing t then
        match depth with
        | 1%nat => Some (S i)
        | S d => group_loop open closing d (S i) rest
        | O => group_loop open closing O (S i) rest
        end
      else group_loop open closing depth (S i) rest
  end.

Definition groupLen (toks : list token) (open closing : string) : result nat :=
  match group_loop open closing 0 0 toks with
  | Some n => Ok n
  | None => Err (errorf ("unbalanced " +:+ quote open +:+ " in template expression"))
  end.

Fixpoint postfix_len (fuel : nat) (i : nat) (toks : list token) : result nat :=
  match fuel, toks with
  | S fuel', tokProperty _ :: rest => postfix_len fuel' (S i) rest
  | S fuel', t :: _ =>
      if is_punct "[" t then
        try n := groupLen toks "[" "]" in postfix_len fuel' (i + n)%nat (skipn n toks)
      else Ok i
  | _, _ => Ok i
  end.

Definition exprLen (toks : list token) : result nat :=
  match toks with
  | [] => Err (errorf "expected an expression")
  | (tokLiteral _ | tokIdent _) :: rest => postfix_len (length rest) 1 rest
  | t :: _ =>
      if is_punct "(" t then
        try n := groupLen toks "(" ")" in postfix_len (length toks) n (skipn n toks)
      else Err (errorf ("expected an expression, got " +:+ quote (tok_text t)))
  end.

(** The arguments of a filter from the [i]th token on. *)
Fixpoint filter_args (fuel : nat) (name : string) (i : nat) (toks : list token) : result nat :=
  match fuel with
  | O => Ok i
  | S fuel' =>
      match exprLen toks with
      | Err e => Err (errorf ("filter " +:+ quote name +:+ ": " +:+ err_text e))
      | Ok n =>
          match skipn n toks with
          | t :: rest => if is_punct "," t then filter_args fuel' name (i + n + 1)%nat rest else Ok (i + n)%nat
          | [] => Ok (i + n)%nat
          end
      end
  end.

Fixpoint filters_len (fuel : nat) (i : nat) (toks : list token) : result nat :=
  match fuel, toks with
  | S fuel', t :: rest =>
      if is_punct "|" t then
        match rest with
        | tokIdent _ :: rest' => filters_len fuel' (i + 2)%nat rest'
        | tokKeyword name :: rest' =>
            try j := filter_args (length rest' + 1) name (i + 2)%nat rest' in
            filters_len fuel' j (skipn (j - i) toks)
        | _ => Err (errorf ("expected a filter name after " +:+ quote "|"))
        end
      else Ok i
  | _, _ => Ok i
  end.

Definition filteredLen (toks : list token) : result nat :=
  try i := exprLen toks in filters_len (length toks) i (skipn i toks).

Fixpoint loop_modifiers (fuel : nat) (toks : list token) : result (list loopModifier) :=
  match fuel, toks with
  | S fuel', t :: rest =>
      match t with
      | tokIdent x =>
          if bareLoopModifiers x then try more := loop_modifiers fuel' rest in Ok (MkModifier x [] :: more)
          else Err (errorf ("unexpected " +:+ quote x +:+ " after the collection expression"))
      | tokKeyword x =>
          if keywordLoopModifiers x then
            match exprLen rest with
            | Err e => Err (errorf ("modifier " +:+ quote x +:+ ": " +:+ err_text e))
            | Ok n => try more := loop_modifiers fuel' (skipn n rest) in Ok (MkModifier x (firstn n rest) :: more)
            end
          else Err (errorf ("unexpected " +:+ quote x +:+ " after the collection expression"))
      | _ => Err (errorf ("unexpected " +:+ quote (tok_text t) +:+ " after the collection expression"))
      end
  | _, _ => Ok []
  end.

Definition parseLoop (toks : list token) : result loopSpec :=
  match toks with
  | tokIdent binder :: tokIdent kw :: ((_ :: _) as rest) =>
      if negb (bool_decide (kw = "in")) then Err (errorf ("expected " +:+ str1 34 +:+ "<name> in <collection>" +:+ str1 34)) else
      try n := filteredLen rest in
      try modifiers := loop_modifiers (length rest) (skipn n rest) in
      Ok (MkLoop binder (firstn n rest) modifiers)
  | _ => Err (errorf ("expected " +:+ str1 34 +:+ "<name> in <collection>" +:+ str1 34))
  end.
End lex.
