(* ===== verification/TemplateGrammar.v ===== *)
(** * TemplateGrammar: the expressions of Liquid, apart from the code that scans them

    What an expression of a template is made of, as relations: how its text divides into
    tokens, which variables the tokens name and by which accesses, and how the arguments of
    a loop divide into its collection and its modifiers. The scanner of [TemplateLex] is
    proved against them: [lex] finds exactly these tokens, [analyze] reports every variable
    that is named, and [parseLoop] leaves nothing of a loop out. *)

From S2P Require Import Prelude GoStd GoStdFacts TemplateLex.

(** ** Tokens *)

Section tokens.
Context {L : LexTables} {T : GoTables}.
Local Notation chunk := (Z * string)%type.
Implicit Types (c : chunk) (w l rest : list chunk).

Definition name_start (r : Z) : bool := (r =? 95) || letter_rune r.
Definition name_tail (r : Z) : bool :=
  (r =? 95) || (r =? 45) || letter_rune r || digit_rune r || mark_rune r.
Definition is_query (r : Z) : bool := r =? 63.
Definition is_colon (r : Z) : bool := r =? 58.
Definition is_dot (r : Z) : bool := r =? 46.

(** [name w rest]: [w] is a name, and [rest] does not go on with it. *)
Inductive name : list chunk → list chunk → Prop :=
| name_plain c w rest :
    name_start c.1 = true → Forall (λ x, name_tail x.1 = true) w →
    head_is name_tail rest = false → head_is is_query rest = false → name (c :: w) rest
| name_query c w q rest :
    name_start c.1 = true → Forall (λ x, name_tail x.1 = true) w → is_query q.1 = true →
    name (c :: w ++ [q]) rest.

Definition fraction_follows rest : bool :=
  match rest with dot :: d :: _ => is_dot dot.1 && is_digit d.1 | _ => false end.

(** The same for numbers: digits, a minus in front of them or not, a fraction or none. *)
Inductive number : list chunk → list chunk → Prop :=
| number_whole c w rest :
    is_digit c.1 = true ∨ c.1 = 45 ∧ head_is is_digit w = true → Forall (λ x, is_digit x.1 = true) w →
    head_is is_digit rest = false → fraction_follows rest = false → number (c :: w) rest
| number_fraction c w dot d f rest :
    is_digit c.1 = true ∨ c.1 = 45 ∧ head_is is_digit w = true → Forall (λ x, is_digit x.1 = true) w →
    is_dot dot.1 = true → Forall (λ x, is_digit x.1 = true) (d :: f) → head_is is_digit rest = false →
    number (c :: w ++ dot :: d :: f) rest.

Definition comparison (a b : Z) : bool :=
  (b =? 61) && ((a =? 61) || (a =? 33) || (a =? 60) || (a =? 62)).

(** Nothing but a mark of its own begins with [c]. *)
Definition bare_mark c l : bool :=
  negb (space_rune c.1 || (c.1 =? 39) || (c.1 =? 34) || is_digit c.1 || is_dot c.1 || name_start c.1
        || (c.1 =? 45) && head_is is_digit l || head_is (comparison c.1) l).

Inductive scans : list chunk → list token → Prop :=
| scans_end : scans [] []
| scans_space c l toks : space_rune c.1 = true → scans l toks → scans (c :: l) toks
| scans_string q w q' l toks :
    q.1 = 39 ∨ q.1 = 34 → Forall (λ x, x.1 ≠ q.1) w → q'.1 = q.1 → scans l toks →
    scans (q :: w ++ q' :: l) (tokLiteral (text_of (q :: w ++ [q'])) :: toks)
| scans_number w l toks :
    number w l → scans l toks → scans (w ++ l) (tokLiteral (text_of w) :: toks)
| scans_keyword w colon l toks :
    name w (colon :: l) → is_colon colon.1 = true → scans l toks →
    scans (w ++ colon :: l) (tokKeyword (text_of w) :: toks)
| scans_name w l toks :
    name w l → head_is is_colon l = false → scans l toks → scans (w ++ l) (tokIdent (text_of w) :: toks)
| scans_property dot w l toks :
    is_dot dot.1 = true → name w l → scans l toks → scans (dot :: w ++ l) (tokProperty (text_of w) :: toks)
| scans_dots dot dot' l toks :
    is_dot dot.1 = true → is_dot dot'.1 = true → scans l toks → scans (dot :: dot' :: l) (tokPunct ".." :: toks)
| scans_dot dot l toks :
    is_dot dot.1 = true → head_is name_start l = false → head_is is_dot l = false → scans l toks →
    scans (dot :: l) (tokPunct "." :: toks)
| scans_comparison a b l toks :
    comparison a.1 b.1 = true → scans l toks → scans (a :: b :: l) (tokPunct (text_of [a; b]) :: toks)
| scans_mark c l toks :
    bare_mark c l = true → scans l toks → scans (c :: l) (tokPunct (rune_text c) :: toks).

(** An expression's tokens. *)
Definition tokens (src : string) (toks : list token) : Prop := scans (decode src) toks.

(** *** The scanner finds them *)

Lemma span_spec p l : let '(a, b) := span p l in
  l = a ++ b ∧ Forall (λ x, p x.1 = true) a ∧ head_is p b = false.
Proof.
  induction l as [|c l IH]; cbn [span]; [by split_and!|]. destruct (p c.1) eqn:Hp; [|by split_and!].
  destruct (span p l) as [a b]. destruct IH as (-> & ? & ?). split_and!; [done|by constructor|done].
Qed.

Lemma span_app p a b : Forall (λ x, p x.1 = true) a → head_is p b = false → span p (a ++ b) = (a, b).
Proof.
  induction 1 as [|c a Hc _ IH]; intros Hb; cbn [app span].
  - destruct b as [|c b]; [done|]. cbn [head_is] in Hb. cbn [span]. by rewrite Hb.
  - by rewrite Hc, (IH Hb).
Qed.

(** Which runes begin what. *)
Lemma digit_begin r : is_digit r = true → space_rune r = false ∧ r ≠ 39 ∧ r ≠ 34.
Proof. unfold is_digit, space_rune, in_range. lia. Qed.

Lemma letter_not r : letter_rune r = true → 0 ≤ r < 128 → is_lower r || is_upper r = true.
Proof. intros H Hr. by rewrite <-(letter_ascii r Hr). Qed.

Lemma name_begin r : name_start r = true →
  space_rune r = false ∧ r ≠ 39 ∧ r ≠ 34 ∧ is_digit r = false ∧ r ≠ 45 ∧ r ≠ 46 ∧ isIdentTail r = true.
Proof.
  unfold name_start, isIdentTail. intros [H|H]%orb_true_iff.
  { apply Z.eqb_eq in H as ->. by split_and!. }
  assert (0 ≤ r < 128 → is_lower r || is_upper r = true) as Hl by exact (letter_not r H).
  pose proof (letter_space r H). rewrite H, !orb_true_r. unfold is_lower, is_upper, in_range in Hl.
  unfold is_digit, in_range. split_and!; try done; lia.
Qed.

Lemma is_query_tail r : is_query r = true → name_tail r = false.
Proof.
  unfold is_query. intros ->%Z.eqb_eq. unfold name_tail.
  by rewrite letter_ascii, digit_ascii, mark_ascii by lia.
Qed.

Lemma lexIdent_name c l : name_start c.1 = true →
  let '(t, rest) := lexIdent (c :: l) in ∃ w, c :: l = w ++ rest ∧ name w rest ∧ t = text_of w.
Proof.
  intros Hc. unfold lexIdent. pose proof (span_spec isIdentTail (c :: l)) as Hs.
  destruct (span isIdentTail (c :: l)) as [a b]. destruct Hs as (Heq & Ha & Hb).
  assert (∃ a', a = c :: a') as [a' ->].
  { destruct a as [|x a]; [|injection Heq as <- _; eauto]. simpl in Heq. subst b. cbn [head_is] in Hb.
    pose proof (name_begin _ Hc) as (_ & _ & _ & _ & _ & _ & ?). congruence. }
  apply Forall_cons in Ha as [_ Ha].
  destruct b as [|q b]; [exists (c :: a'); split_and!; [done|by constructor|done]|].
  destruct (q.1 =? 63) eqn:Hq.
  - exists (c :: a' ++ [q]). split_and!; [|by constructor|done]. rewrite Heq. cbn [app]. by rewrite <-app_assoc.
  - exists (c :: a'). split_and!; [done|by constructor|done].
Qed.

Lemma name_lexIdent w rest : name w rest → lexIdent (w ++ rest) = (text_of w, rest).
Proof.
  intros H. unfold lexIdent. destruct H as [c w rest Hc Hw Ht Hq|c w q rest Hc Hw Hq].
  - rewrite (span_app isIdentTail (c :: w) rest); [|constructor; [by destruct (name_begin _ Hc) as (_ & _ & _ & _ & _ & _ & ?)|done]|done].
    destruct rest as [|x rest]; [done|]. cbn [head_is] in Hq. unfold is_query in Hq. by rewrite Hq.
  - change ((c :: w ++ [q]) ++ rest) with (c :: (w ++ [q]) ++ rest). rewrite <-app_assoc. cbn [app].
    rewrite (span_app isIdentTail (c :: w) (q :: rest)); [|constructor; [by destruct (name_begin _ Hc) as (_ & _ & _ & _ & _ & _ & ?)|done]|].
    + unfold is_query in Hq. by rewrite Hq.
    + by apply is_query_tail.
Qed.

Lemma number_begin c w l : is_digit c.1 = true ∨ c.1 = 45 ∧ head_is is_digit w = true →
  space_rune c.1 = false ∧ c.1 ≠ 39 ∧ c.1 ≠ 34 ∧ is_digit c.1 || (c.1 =? 45) && head_is is_digit (w ++ l) = true.
Proof.
  intros [H|[H1 H2]].
  - destruct (digit_begin _ H) as (? & ? & ?). rewrite H. by split_and!.
  - rewrite H1. split_and!; [done..|]. by destruct w.
Qed.

Lemma lexNumber_number c l :
  is_digit c.1 || (c.1 =? 45) && head_is is_digit l = true →
  let '(t, rest) := lexNumber c l in ∃ w, c :: l = w ++ rest ∧ number w rest ∧ t = text_of w.
Proof.
  intros Hc. unfold lexNumber. pose proof (span_spec is_digit l) as Hs.
  destruct (span is_digit l) as [a b]. destruct Hs as (-> & Ha & Hb).
  assert (is_digit c.1 = true ∨ c.1 = 45 ∧ head_is is_digit a = true) as Hc'.
  { apply orb_true_iff in Hc as [?|[Hm Hd]%andb_true_iff]; [by left|right]. split; [lia|].
    destruct a as [|x a]; [|done]. cbn [app] in Hd. congruence. }
  assert (fraction_follows b = false → ∃ w, c :: a ++ b = w ++ b ∧ number w b ∧ text_of (c :: a) = text_of w) as Hwhole.
  { intros Hf. exists (c :: a). split_and!; [done|by constructor|done]. }
  destruct b as [|dot [|d b]]; [by apply Hwhole..|]. cbn [fraction_follows] in Hwhole. unfold is_dot in Hwhole.
  destruct ((dot.1 =? 46) && is_digit d.1) eqn:Hf; [|by apply Hwhole].
  apply andb_true_iff in Hf as [Hdot Hd]. pose proof (span_spec is_digit b) as Hs.
  destruct (span is_digit b) as [f r]. destruct Hs as (-> & Hf & Hr).
  exists (c :: a ++ dot :: d :: f). split_and!; [|by apply number_fraction; [..|constructor|]|done].
  cbn [app]. by rewrite <-app_assoc.
Qed.

Lemma number_lexNumber w rest : number w rest →
  ∃ c l, w ++ rest = c :: l ∧ lexNumber c l = (text_of w, rest)
    ∧ space_rune c.1 = false ∧ c.1 ≠ 39 ∧ c.1 ≠ 34 ∧ is_digit c.1 || (c.1 =? 45) && head_is is_digit l = true.
Proof.
  intros [c w' r Hc Hw Hr Hf|c w' dot d f r Hc Hw Hdot Hdf Hr].
  - exists c, (w' ++ r). split; [done|]. split; [|by apply number_begin]. unfold lexNumber. rewrite span_app by done.
    destruct r as [|x [|y r]]; [done..|]. cbn [fraction_follows] in Hf. unfold is_dot in Hf. by rewrite Hf.
  - exists c, (w' ++ dot :: d :: f ++ r). cbn [app]. rewrite <-app_assoc. cbn [app]. split; [done|].
    split; [|by apply number_begin]. unfold lexNumber. apply Forall_cons in Hdf as [Hd Hf].
    rewrite span_app; [|done|]. { unfold is_dot in Hdot. rewrite Hdot, Hd. cbn [andb]. by rewrite span_app by done. }
    cbn [head_is]. unfold is_dot in Hdot. apply Z.eqb_eq in Hdot as ->. done.
Qed.

(** A step of the scanner is a rule, whatever follows. *)
Lemma lex_step_scans src c l toks rest :
  lex_step src c l = Ok (toks, rest) →
  (length rest < S (length l))%nat ∧ ∀ more, scans rest more → scans (c :: l) (toks ++ more).
Proof.
  unfold lex_step. destruct (space_rune c.1) eqn:Hsp.
  { intros [= <- <-]. split; [lia|]. intros more. by constructor. }
  destruct ((c.1 =? 39) || (c.1 =? 34)) eqn:Hq.
  { pose proof (span_spec (λ x, negb (x =? c.1)) l) as Hs. destruct (span _ l) as [w b].
    destruct Hs as (-> & Hw & Hb). destruct b as [|q b]; [done|]. intros [= <- <-].
    split; [rewrite length_app; cbn [length]; lia|]. intros more Hm. cbn [app].
    apply scans_string; [lia| |cbn [head_is] in Hb; lia|done].
    eapply Forall_impl; [exact Hw|]. intros x Hx. cbn in Hx. lia. }
  destruct (is_digit c.1 || (c.1 =? 45) && head_is is_digit l) eqn:Hd.
  { pose proof (lexNumber_number c l Hd) as Hn. destruct (lexNumber c l) as [t r].
    destruct Hn as (w & Heq & Hn & ->). intros [= <- <-]. rewrite Heq. split; [|intros; by constructor].
    apply (f_equal length) in Heq. rewrite length_app in Heq. cbn [length] in Heq. destruct Hn; cbn [length] in *; lia. }
  destruct (isIdentStart c.1) eqn:Hi.
  { pose proof (lexIdent_name c l Hi) as Hn. destruct (lexIdent (c :: l)) as [t r].
    destruct Hn as (w & Heq & Hn & ->). apply (f_equal length) in Heq as Hlen. rewrite length_app in Hlen.
    assert (length w ≠ 0)%nat by (by destruct Hn). cbn [length] in Hlen. rewrite Heq.
    destruct r as [|colon r]; [intros [= <- <-]; split; [cbn [length] in *; lia|intros; by apply scans_name]|].
    destruct (colon.1 =? 58) eqn:Hcol; intros [= <- <-]; (split; [cbn [length] in *; lia|]); intros.
    - by apply scans_keyword.
    - by apply scans_name. }
  destruct (c.1 =? 46) eqn:Hdot.
  { destruct l as [|d l]; cbn [head_is].
    { intros [= <- <-]. split; [cbn [length]; lia|]. intros. by apply scans_dot. }
    destruct (isIdentStart d.1) eqn:Hi'.
    - pose proof (lexIdent_name d l Hi') as Hn. destruct (lexIdent (d :: l)) as [t r].
      destruct Hn as (w & Heq & Hn & ->). apply (f_equal length) in Heq as Hlen. rewrite length_app in Hlen.
      rewrite Heq. intros [= <- <-]. cbn [length] in *. split; [rewrite length_app; lia|]. intros. by apply scans_property.
    - destruct (d.1 =? 46) eqn:Hd'; intros [= <- <-]; (split; [cbn [length]; lia|]); intros.
      + by apply scans_dots.
      + by apply scans_dot. }
  assert (head_is (comparison c.1) l = false → bare_mark c l = true) as Hmark.
  { intros Hcmp. unfold bare_mark, is_dot. change (name_start c.1) with (isIdentStart c.1).
    apply orb_false_iff in Hq as [-> ->]. apply orb_false_iff in Hd as [-> ->]. by rewrite Hsp, Hdot, Hi, Hcmp. }
  destruct l as [|d l].
  { intros [= <- <-]. split; [cbn [length]; lia|]. intros. by apply scans_mark; [apply Hmark|]. }
  change (two_char c.1 d.1) with (comparison c.1 d.1). cbn [head_is] in Hmark.
  destruct (comparison c.1 d.1) eqn:Hcmp; intros [= <- <-]; (split; [cbn [length]; lia|]); intros.
  - by apply scans_comparison.
  - by apply scans_mark; [apply Hmark|].
Qed.

Lemma lex_loop_scans src fuel l toks : (length l ≤ fuel)%nat → lex_loop src fuel l = Ok toks → scans l toks.
Proof.
  revert l toks. induction fuel as [|fuel IH]; intros [|c l] toks Hl; cbn [lex_loop length] in *;
    [intros [= <-]; constructor|lia|intros [= <-]; constructor|].
  destruct (lex_step src c l) as [[ts rest]|] eqn:Hs; [|done]. apply lex_step_scans in Hs as [Hlen Hs].
  destruct (lex_loop src fuel rest) as [more|] eqn:Hm; [|done]. intros [= <-]. apply Hs, IH; [lia|done].
Qed.

Lemma lex_step_word src c l w rest : c :: l = w ++ rest → name w rest →
  lex_step src c l = Ok (if head_is is_colon rest then ([tokKeyword (text_of w)], tl rest) else ([tokIdent (text_of w)], rest)).
Proof.
  intros Heq Hn. assert (name_start c.1 = true) as Hc by (destruct Hn; injection Heq as -> _; done).
  destruct (name_begin _ Hc) as (H1 & H2 & H3 & H4 & H5 & H6 & _). unfold lex_step.
  rewrite H1, H4. apply Z.eqb_neq in H2 as ->, H3 as ->, H5 as ->. cbn [orb andb].
  change (isIdentStart c.1) with (name_start c.1). rewrite Hc, Heq, (name_lexIdent _ _ Hn).
  destruct rest as [|colon rest]; [done|]. cbn [head_is tl]. unfold is_colon. by destruct (colon.1 =? 58).
Qed.

(** Each rule is a step of the scanner. *)
Lemma scans_lex_step l toks : scans l toks →
  match l with
  | [] => toks = []
  | c :: l' => ∃ ts rest more, toks = ts ++ more ∧ scans rest more ∧ (length rest ≤ length l')%nat
                 ∧ ∀ src, lex_step src c l' = Ok (ts, rest)
  end.
Proof.
  intros H. destruct H as [|c l toks Hsp H|q w q' l toks Hq Hw Hq' H|w l toks Hn H|w colon l toks Hn Hcol H|w l toks Hn Hcol H
    |dot w l toks Hdot Hn H|dot dot' l toks Hdot Hdot' H|dot l toks Hdot Hi Hdd H|a b l toks Hab H|c l toks Hm H].
  - done.
  - exists [], l, toks. split_and!; [done..|]. intros src. unfold lex_step. by rewrite Hsp.
  - exists [tokLiteral (text_of (q :: w ++ [q']))], l, toks. rewrite length_app. cbn [length]. split_and!; [done|done|lia|].
    intros src. unfold lex_step. assert (space_rune q.1 = false) as -> by (by destruct Hq as [->| ->]).
    assert ((q.1 =? 39) || (q.1 =? 34) = true) as -> by lia.
    rewrite (span_app _ w (q' :: l)); [done| |cbn [head_is]; lia]. eapply Forall_impl; [exact Hw|].
    intros x Hx. by apply negb_true_iff, Z.eqb_neq.
  - destruct (number_lexNumber _ _ Hn) as (c & l' & Heq & Hlex & H1 & H2 & H3 & H4). rewrite Heq.
    exists [tokLiteral (text_of w)], l, toks. apply (f_equal length) in Heq. rewrite length_app in Heq. cbn [length] in Heq.
    split_and!; [done|done|destruct Hn; cbn [length] in Heq; lia|]. intros src. unfold lex_step.
    apply Z.eqb_neq in H2 as ->, H3 as ->. cbn [orb]. by rewrite H1, H4, Hlex.
  - destruct (w ++ colon :: l) as [|c l'] eqn:Heq; [by destruct w|].
    exists [tokKeyword (text_of w)], l, toks. pose proof (f_equal length Heq) as Hlen. rewrite length_app in Hlen.
    cbn [length] in Hlen. split_and!; [done|done|lia|]. intros src.
    rewrite (lex_step_word src c l' w (colon :: l)) by done. cbn [head_is tl]. by rewrite Hcol.
  - destruct (w ++ l) as [|c l'] eqn:Heq; [by destruct Hn|].
    exists [tokIdent (text_of w)], l, toks. pose proof (f_equal length Heq) as Hlen. rewrite length_app in Hlen.
    cbn [length] in Hlen. split_and!; [done|done|destruct Hn; cbn [length] in Hlen; lia|]. intros src.
    rewrite (lex_step_word src c l' w l) by done. by rewrite Hcol.
  - exists [tokProperty (text_of w)], l, toks. rewrite length_app. split_and!; [done|done|lia|]. intros src.
    apply Z.eqb_eq in Hdot. unfold lex_step. rewrite Hdot. change (space_rune 46) with false. cbn [Z.eqb orb andb].
    change (is_digit 46) with false. cbn [orb]. change (isIdentStart 46) with (name_start 46).
    assert (name_start 46 = false) as -> by (unfold name_start; by rewrite letter_ascii by lia).
    assert (head_is isIdentStart (w ++ l) = true) as -> by (by destruct Hn). by rewrite (name_lexIdent _ _ Hn).
  - exists [tokPunct ".."], l, toks. cbn [length]. split_and!; [done|done|lia|]. intros src.
    apply Z.eqb_eq in Hdot, Hdot'. unfold lex_step. cbn [head_is]. rewrite Hdot, Hdot'.
    assert (isIdentStart 46 = false) as -> by (unfold isIdentStart; by rewrite letter_ascii by lia). done.
  - exists [tokPunct "."], l, toks. split_and!; [done..|]. intros src. apply Z.eqb_eq in Hdot. unfold lex_step.
    rewrite Hdot. assert (isIdentStart 46 = false) as -> by (unfold isIdentStart; by rewrite letter_ascii by lia).
    change (head_is isIdentStart l) with (head_is name_start l). rewrite Hi. cbn.
    destruct l as [|d l]; [done|]. cbn [head_is] in Hdd. unfold is_dot in Hdd. by rewrite Hdd.
  - exists [tokPunct (text_of [a; b])], l, toks. cbn [length]. split_and!; [done|done|lia|]. intros src. unfold lex_step.
    change (two_char a.1 b.1) with (comparison a.1 b.1). rewrite Hab. unfold comparison in Hab.
    assert (a.1 = 61 ∨ a.1 = 33 ∨ a.1 = 60 ∨ a.1 = 62) as Ha by lia.
    assert (isIdentStart a.1 = false) as -> by (unfold isIdentStart; rewrite letter_ascii by lia;
      unfold is_lower, is_upper, in_range; lia).
    by destruct Ha as [->|[->|[->| ->]]].
  - exists [tokPunct (rune_text c)], l, toks. split_and!; [done..|]. intros src. unfold bare_mark in Hm.
    apply negb_true_iff in Hm. rewrite !orb_false_iff in Hm. destruct Hm as (((((((H1 & H2) & H3) & H4) & H5) & H6) & H7) & H8).
    unfold lex_step. change (isIdentStart c.1) with (name_start c.1). unfold is_dot in H5.
    rewrite H1, H2, H3, H4, H7, H6, H5. cbn [orb]. destruct l as [|d l]; [done|]. cbn [head_is] in H8.
    change (two_char c.1 d.1) with (comparison c.1 d.1). by rewrite H8.
Qed.

Lemma scans_lex src fuel l toks : scans l toks → (length l ≤ fuel)%nat → lex_loop src fuel l = Ok toks.
Proof.
  revert l toks. induction fuel as [|fuel IH]; intros l toks H%scans_lex_step Hl; destruct l as [|c l]; cbn [length lex_loop] in *;
    [by subst|lia|by subst|].
  destruct H as (ts & rest & more & -> & Hm & Hlen & ->). by rewrite (IH rest more Hm) by lia.
Qed.

(** The scanner finds exactly the tokens of an expression. *)
Lemma lex_exact src toks : lex src = Ok toks ↔ tokens src toks.
Proof. split; [by apply lex_loop_scans|]. intros H. by apply scans_lex. Qed.
End tokens.

Section expressions.
Context {T : GoTables}.

(** ** Variables *)

(** Words of the language, which name no variable. *)
Definition liquid_words : list string := ["and"; "or"; "contains"; "in"; "true"; "false"; "nil"].

(** The marks [m] among some tokens. *)
Definition count (m : string) (toks : list token) : nat := length (filter (λ t, t = tokPunct m) toks).

(** Every opening mark is closed in [toks], and none is closed that was not opened. *)
Definition balanced (opening closing : string) (toks : list token) : Prop :=
  count closing toks = count opening toks
  ∧ ∀ a b, toks = a ++ b → (count closing a ≤ count opening a)%nat.

(** What an index in brackets says: a number, the text between two quotes, or something to be
    computed. *)
Inductive denotes : list token → pathSeg → Prop :=
| denotes_index lit n : parse_int lit = Some n → denotes [tokLiteral lit] (segIndex n)
| denotes_key q k c :
    byte_val q = 39 ∨ byte_val q = 34 → parse_int (String q (k +:+ String c "")) = None →
    denotes [tokLiteral (String q (k +:+ String c ""))] (segKey k)
| denotes_computed inner :
    (∀ lit, inner = [tokLiteral lit] → parse_int lit = None
       ∧ ∀ q k c, byte_val q = 39 ∨ byte_val q = 34 → lit ≠ String q (k +:+ String c "")) →
    denotes inner segDynamic.

(** Nothing that could go on with an access. *)
Definition stops (toks : list token) : Prop :=
  ∀ rest, (∀ p, toks ≠ tokProperty p :: rest) ∧ toks ≠ tokPunct "[" :: rest.

(** [accesses toks segs rest]: [toks] are the accesses [segs], as many as there are, and [rest]. *)
Inductive accesses : list token → list pathSeg → list token → Prop :=
| accesses_property p toks segs rest :
    accesses toks segs rest → accesses (tokProperty p :: toks) (segProp p :: segs) rest
| accesses_index inner seg toks segs rest :
    balanced "[" "]" inner → denotes inner seg → accesses toks segs rest →
    accesses (tokPunct "[" :: inner ++ tokPunct "]" :: toks) (seg :: segs) rest
| accesses_end toks : stops toks → accesses toks [] toks.

(** The tokens name the variable [x] with these accesses: at [x], unless it is the name of a
    filter. *)
Definition names (toks : list token) (r : ref) : Prop :=
  ∃ before after rest,
    toks = before ++ tokIdent (rf_root r) :: after ∧ rf_root r ∉ liquid_words
    ∧ last before ≠ Some (tokPunct "|") ∧ accesses after (rf_segs r) rest.

(** *** Brackets *)

Lemma count_app m a b : count m (a ++ b) = (count m a + count m b)%nat.
Proof. unfold count. by rewrite filter_app, length_app. Qed.

Lemma count_cons m t l : count m (t :: l) = ((if is_punct m t then 1 else 0) + count m l)%nat.
Proof.
  unfold count, is_punct. rewrite filter_cons. case_decide as H; [by rewrite bool_decide_eq_true_2|].
  by rewrite bool_decide_eq_false_2.
Qed.

Lemma is_punct_eq m t : is_punct m t = true → t = tokPunct m.
Proof. apply bool_decide_eq_true. Qed.

(** [k] more marks are closed than opened, and on the way never more than that. *)
Definition closing_by (opening closing : string) (k : nat) (inner : list token) : Prop :=
  count closing inner = (count opening inner + k)%nat
  ∧ ∀ a b, inner = a ++ b → (count closing a ≤ count opening a + k)%nat.

Lemma closing_0 o c inner : closing_by o c 0 inner ↔ balanced o c inner.
Proof. unfold closing_by, balanced. setoid_rewrite Nat.add_0_r. done. Qed.

Lemma closing_nil o c : closing_by o c 0 [].
Proof. split; [done|]. intros [|? a] b; [done|]. done. Qed.

(** A mark read in front of what closes [k'] marks. *)
Lemma closing_cons o c k k' t inner :
  closing_by o c k' inner →
  ((if is_punct c t then 1 else 0) + k' = (if is_punct o t then 1 else 0) + k)%nat →
  closing_by o c k (t :: inner).
Proof.
  intros [H1 H2] Hk. split; [rewrite !count_cons; lia|]. intros [|x a] b Heq; [unfold count; simpl; lia|].
  injection Heq as <- Heq. rewrite !count_cons. specialize (H2 a b Heq). lia.
Qed.

Lemma bracket_spec k toks inner after :
  bracket (S k) toks = Some (inner, after) →
  toks = inner ++ tokPunct "]" :: after ∧ closing_by "[" "]" k inner.
Proof.
  revert k inner. induction toks as [|t toks IH]; intros k inner; cbn [bracket]; [done|].
  assert (∀ d, match bracket (S d) toks with Some (i, a) => Some (t :: i, a) | None => None end = Some (inner, after) →
    ((if is_punct "]" t then 1 else 0) + d = (if is_punct "[" t then 1 else 0) + k)%nat →
    t :: toks = inner ++ tokPunct "]" :: after ∧ closing_by "[" "]" k inner) as Hgo.
  { intros d Hb Hd. destruct (bracket (S d) toks) as [[i a]|] eqn:Hbr; [|done]. injection Hb as <- <-.
    apply IH in Hbr as [-> Hc]. split; [done|]. by eapply closing_cons. }
  destruct (is_punct "[" t) eqn:Ho.
  { assert (is_punct "]" t = false) as Hc by (apply is_punct_eq in Ho as ->; done). intros H. apply (Hgo (S k) H). rewrite Hc. lia. }
  destruct (is_punct "]" t) eqn:Hc.
  - destruct k as [|k]; [|intros H; apply (Hgo k H); lia]. intros [= <- <-]. apply is_punct_eq in Hc as ->.
    split; [done|]. apply closing_nil.
  - intros H. by apply (Hgo k H).
Qed.

(** What a bracket encloses is determined. *)
Lemma balanced_past o c inner k : o ≠ c → balanced o c inner → balanced o c (inner ++ tokPunct c :: k) → False.
Proof.
  intros Hne [H1 _] [_ H2]. specialize (H2 (inner ++ [tokPunct c]) k). rewrite <-app_assoc in H2.
  specialize (H2 eq_refl). rewrite !count_app, !count_cons in H2.
  assert (is_punct c (tokPunct c) = true) as Hc by (by apply bool_decide_eq_true).
  assert (is_punct o (tokPunct c) = false) as Ho by (apply bool_decide_eq_false; congruence).
  rewrite Hc, Ho in H2. change (count c []) with 0%nat in H2. change (count o []) with 0%nat in H2. lia.
Qed.

Lemma balanced_unique o c i1 i2 r1 r2 : o ≠ c →
  balanced o c i1 → balanced o c i2 → i1 ++ tokPunct c :: r1 = i2 ++ tokPunct c :: r2 → i1 = i2 ∧ r1 = r2.
Proof.
  intros Hne H1 H2 Heq. apply app_eq_inv in Heq as [(k & -> & Heq)|(k & -> & Heq)]; (destruct k as [|t k];
    [rewrite app_nil_r in *; by injection Heq as ->|injection Heq as <- Heq; exfalso]).
  - by apply (balanced_past o c i2 k).
  - by apply (balanced_past o c i1 k).
Qed.

(** *** Accesses *)

Lemma byte_quote q : (byte_val q =? 39) || (byte_val q =? 34) = true ↔ byte_val q = 39 ∨ byte_val q = 34.
Proof. rewrite orb_true_iff, !Z.eqb_eq. done. Qed.

Lemma unquoted k c : str_take (String.length (k +:+ String c "") - 1) (k +:+ String c "") = k.
Proof.
  rewrite length_sapp. simpl. replace (String.length k + 1 - 1)%nat with (String.length k) by lia.
  by rewrite str_take_app_le, str_take_all by lia.
Qed.

Lemma quoted_split s : s ≠ "" → ∃ k c, s = k +:+ String c "".
Proof.
  intros Hs. destruct (String.rev s) as [|c r] eqn:Hr; [by apply srev_eq in Hr|]. exists (String.rev r), c.
  apply srev_eq in Hr. rewrite Hr. change (String c r) with (String c "" +:+ r). by rewrite srev_app.
Qed.

Lemma bracketSeg_denotes inner : denotes inner (bracketSeg inner).
Proof.
  unfold bracketSeg. destruct inner as [|[x|x|x|lit|x] [|t inner]]; try (by constructor; intros ? [=]).
  destruct (parse_int lit) as [n|] eqn:Hn; [by constructor|].
  destruct lit as [|q s]; [constructor; intros ? [= <-]; by split|].
  destruct ((2 <=? str_len (String q s)) && _) eqn:Hq.
  - apply andb_true_iff in Hq as [Hlen Hq%byte_quote]. destruct (quoted_split s) as (k & c & ->).
    { intros ->. done. }
    cbn [str_drop String.length]. rewrite Nat.sub_succ, unquoted. by constructor.
  - constructor. intros ? [= <-]. split; [done|]. intros q' k c Hq' [= <- ->].
    apply byte_quote in Hq'. rewrite Hq', andb_true_r in Hq. apply Z.leb_gt in Hq. unfold str_len in Hq.
    cbn [String.length] in Hq. rewrite length_sapp in Hq. simpl in Hq. lia.
Qed.

Lemma denotes_bracketSeg inner seg : denotes inner seg → bracketSeg inner = seg.
Proof.
  intros [lit n Hn|q k c Hq Hn|inner' H].
  - unfold bracketSeg. by rewrite Hn.
  - unfold bracketSeg. rewrite Hn. apply byte_quote in Hq. rewrite Hq, andb_true_r.
    assert (2 <=? str_len (String q (k +:+ String c "")) = true) as ->.
    { apply Z.leb_le. unfold str_len. cbn [String.length]. rewrite length_sapp. simpl. lia. }
    cbn [str_drop String.length]. by rewrite Nat.sub_succ, unquoted.
  - pose proof (bracketSeg_denotes inner') as Hd. inversion Hd as [lit n Hn Hi Hs|q k c Hq Hn Hi Hs|? H' Hi Hs]; subst; [..|done].
    + destruct (H lit eq_refl). congruence.
    + destruct (H _ eq_refl) as [_ Hno]. by destruct (Hno q k c Hq).
Qed.

Lemma accesses_stop toks segs rest : stops toks → accesses toks segs rest → segs = [] ∧ rest = toks.
Proof.
  intros Hst H. destruct H as [p ts ss r H|i sg ts ss r Hi Hd H|ts H]; [..|done].
  - destruct (Hst ts) as [Hno _]. by destruct (Hno p).
  - destruct (Hst (i ++ tokPunct "]" :: ts)) as [_ Hno]. by destruct Hno.
Qed.

Lemma accesses_property_inv p toks segs rest :
  accesses (tokProperty p :: toks) segs rest → ∃ ss, segs = segProp p :: ss ∧ accesses toks ss rest.
Proof.
  intros H. inversion H as [? ? ? ? Ha|? ? ? ? ? ? ? Ha|? Hst]; subst; [eauto|].
  destruct (Hst toks) as [Hno _]. by destruct (Hno p).
Qed.

Lemma accesses_index_inv inner toks segs rest :
  balanced "[" "]" inner → accesses (tokPunct "[" :: inner ++ tokPunct "]" :: toks) segs rest →
  ∃ ss, segs = bracketSeg inner :: ss ∧ accesses toks ss rest.
Proof.
  intros Hi H. inversion H as [|i sg ts ss r Hb Hd Ha Heq|? Hst]; subst.
  - apply (balanced_unique "[") in Heq as [-> ->]; [|done..]. exists ss. by rewrite (denotes_bracketSeg _ _ Hd).
  - destruct (Hst (inner ++ tokPunct "]" :: toks)) as [_ Hno]. by destruct Hno.
Qed.

Lemma stops_other t toks : is_punct "[" t = false → (∀ p, t ≠ tokProperty p) → stops (t :: toks).
Proof.
  intros Hb%bool_decide_eq_false Hp rest. split; [intros p [= Heq _]; by destruct (Hp p)|]. by intros [= Heq _].
Qed.

(** The chain the scanner reads is the chain there is, also where more follows. *)
Lemma parse_segs_accesses fuel toks segs inners rest :
  (length toks ≤ fuel)%nat → parse_segs fuel toks = Ok (segs, inners, rest) →
  ∀ more, stops more → accesses (toks ++ more) segs (rest ++ more) ∧
    ∀ segs' rest', accesses (toks ++ more) segs' rest' → segs' = segs ∧ rest' = rest ++ more.
Proof.
  revert toks segs inners rest. induction fuel as [|fuel IH]; intros toks segs inners rest Hl Hp more Hm.
  { destruct toks; [|cbn [length] in Hl; lia]. injection Hp as <- <- <-. split; [by constructor|].
    intros segs' rest'. by apply accesses_stop. }
  assert (stops (toks ++ more) → Ok ([], [], toks) = Ok (segs, inners, rest) →
    accesses (toks ++ more) segs (rest ++ more)
    ∧ ∀ segs' rest', accesses (toks ++ more) segs' rest' → segs' = segs ∧ rest' = rest ++ more) as Hend.
  { intros Hst [= <- <- <-]. split; [by constructor|]. intros segs' rest'. by apply accesses_stop. }
  destruct toks as [|t toks]; [by apply Hend|].
  cbn [length] in Hl. destruct t as [x|x|x|x|x]; cbn [parse_segs] in Hp; try (by apply Hend; [apply stops_other|]).
  - destruct (parse_segs fuel toks) as [[[ss ins] r]|] eqn:Hps; [|done]. injection Hp as <- <- <-.
    destruct (IH toks _ _ _ ltac:(lia) Hps more Hm) as [H1 H2]. split; [by constructor|].
    intros segs' rest' (ss' & -> & Ha)%accesses_property_inv. by destruct (H2 _ _ Ha) as [-> ->].
  - destruct (is_punct "[" (tokPunct x)) eqn:Hb; [|by apply Hend; [apply stops_other|]].
    apply is_punct_eq in Hb as [= ->]. destruct (bracket 1 toks) as [[inner after]|] eqn:Hbr; [|done].
    apply bracket_spec in Hbr as [-> Hbal%closing_0].
    destruct (parse_segs fuel after) as [[[ss ins] r]|] eqn:Hps; [|done]. injection Hp as <- <- <-.
    rewrite length_app in Hl. cbn [length] in Hl.
    destruct (IH after _ _ _ ltac:(lia) Hps more Hm) as [H1 H2]. cbn [app]. rewrite <-app_assoc. cbn [app].
    split; [constructor; [done|apply bracketSeg_denotes|done]|].
    intros segs' rest' (ss' & -> & Ha)%accesses_index_inv; [|done]. by destruct (H2 _ _ Ha) as [-> ->].
Qed.

(** What follows accesses that have ended does not matter. *)
Lemma accesses_more toks segs rest more : accesses toks segs rest → stops (rest ++ more) →
  accesses (toks ++ more) segs (rest ++ more).
Proof.
  induction 1 as [p toks segs rest _ IH|inner seg toks segs rest Hb Hd _ IH|toks _]; intros Hm; cbn [app].
  - constructor. by apply IH.
  - rewrite <-app_assoc. cbn [app]. constructor; [done..|]. by apply IH.
  - by constructor.
Qed.

Lemma closing_bracket inner k after : closing_by "[" "]" k inner →
  bracket (S k) (inner ++ tokPunct "]" :: after) = Some (inner, after).
Proof.
  revert k. induction inner as [|t inner IH]; intros k [H1 H2].
  { unfold count in H1. cbn in H1. by subst k. }
  pose proof (H2 [t] inner eq_refl) as Ht. rewrite !count_cons in H1, Ht. change (count _ []) with 0%nat in Ht.
  assert (∀ d, ((if is_punct "]" t then 1 else 0) + d = (if is_punct "[" t then 1 else 0) + k)%nat →
    bracket (S d) (inner ++ tokPunct "]" :: after) = Some (inner, after)) as Hin.
  { intros d Hd. apply IH. split; [lia|]. intros a b ->. specialize (H2 (t :: a) b eq_refl). rewrite !count_cons in H2. lia. }
  cbn [app bracket]. destruct (is_punct "[" t) eqn:Ho.
  - assert (is_punct "]" t = false) as Hc by (apply is_punct_eq in Ho as ->; done). rewrite Hc in Hin. by rewrite (Hin (S k)).
  - destruct (is_punct "]" t); [|by rewrite (Hin k)]. destruct k as [|k]; [lia|]. by rewrite (Hin k).
Qed.

(** The scanner reads every chain there is. *)
Lemma accesses_parse_segs toks segs rest : accesses toks segs rest →
  ∀ fuel, (length toks ≤ fuel)%nat → ∃ inners, parse_segs fuel toks = Ok (segs, inners, rest).
Proof.
  induction 1 as [p toks segs rest _ IH|inner seg toks segs rest Hb Hd _ IH|toks Hst]; intros fuel Hl.
  - cbn [length] in Hl. destruct fuel as [|fuel]; [lia|]. destruct (IH fuel ltac:(lia)) as [ins Hi].
    cbn [parse_segs]. rewrite Hi. by exists ins.
  - cbn [length] in Hl. rewrite length_app in Hl. cbn [length] in Hl. destruct fuel as [|fuel]; [lia|].
    destruct (IH fuel ltac:(lia)) as [ins Hi]. cbn [parse_segs]. change (is_punct "[" (tokPunct "[")) with true. cbv iota.
    rewrite (closing_bracket inner 0 toks) by (by apply closing_0). rewrite Hi, (denotes_bracketSeg _ _ Hd). by eexists.
  - exists []. destruct fuel as [|fuel]; [by destruct toks|]. destruct toks as [|t toks]; [done|].
    destruct (Hst toks) as [H1 H2]. cbn [parse_segs]. destruct (is_punct "[" t) eqn:Hp; [apply is_punct_eq in Hp as ->; done|].
    destruct t; try done. by destruct (H1 text).
Qed.

(** Where a name stands that the accesses of another hold: in a bracket, or behind them. *)
Lemma parse_segs_position fuel toks segs inners rest before x after :
  parse_segs fuel toks = Ok (segs, inners, rest) → toks = before ++ tokIdent x :: after →
  ∃ before', (last before' = last before ∨ before' = []) ∧
    (rest = before' ++ tokIdent x :: after
     ∨ ∃ inner after' out, inner ∈ inners ∧ inner = before' ++ tokIdent x :: after'
         ∧ after = after' ++ tokPunct "]" :: out).
Proof.
  assert (∀ t b b' : list token, last b' = last b ∨ b' = [] → last b' = last (t ++ b) ∨ b' = []) as Hlast.
  { intros t b b' [H|H]; [|by right]. destruct b as [|y b]; [right; by apply last_None|].
    left. rewrite H, last_app. destruct (last (y :: b)) eqn:E; [done|by apply last_None in E]. }
  revert toks segs inners rest before. induction fuel as [|fuel IH]; intros toks segs inners rest before Hp Heq.
  { destruct toks; injection Hp as <- <- <-; exists before; by split; [left|left]. }
  assert (Ok ([], [], toks) = Ok (segs, inners, rest) → ∃ before', (last before' = last before ∨ before' = []) ∧
    (rest = before' ++ tokIdent x :: after ∨ ∃ inner after' out, inner ∈ inners ∧ inner = before' ++ tokIdent x :: after'
         ∧ after = after' ++ tokPunct "]" :: out)) as Hend.
  { intros [= <- <- <-]. exists before. by split; left. }
  destruct toks as [|t toks]; [by apply Hend|]. destruct t as [y|y|y|y|y]; cbn [parse_segs] in Hp; try (by apply Hend).
  - destruct (parse_segs fuel toks) as [[[ss ins] r]|] eqn:Hps; [|done]. injection Hp as <- <- <-.
    destruct before as [|b before]; [done|]. injection Heq as <- Heq.
    destruct (IH _ _ _ _ before Hps Heq) as (b' & Hb & H). exists b'. split; [by apply (Hlast [tokProperty y])|done].
  - destruct (is_punct "[" (tokPunct y)); [|by apply Hend].
    destruct (bracket 1 toks) as [[inner out]|] eqn:Hbr; [|done]. apply bracket_spec in Hbr as [-> _].
    destruct (parse_segs fuel out) as [[[ss ins] r]|] eqn:Hps; [|done]. injection Hp as <- <- <-.
    destruct before as [|b before]; [done|]. injection Heq as <- Heq.
    apply app_eq_inv in Heq as [(k & -> & Heq)|(k & -> & Heq)].
    + destruct k as [|z k]; [done|]. injection Heq as <- ->. exists before. split; [by apply (Hlast [tokPunct y]); left|].
      right. exists (before ++ tokIdent x :: k), k, out. split_and!; [left|done|done].
    + destruct k as [|z k]; [done|]. injection Heq as <- Heq.
      destruct (IH _ _ _ _ k Hps Heq) as (b' & Hb & H). exists b'. split.
      * rewrite app_comm_cons. change (tokPunct "]" :: k) with ([tokPunct "]"] ++ k). rewrite app_assoc. by apply Hlast.
      * destruct H as [H|(i & a' & o & Hi & H)]; [by left|right]. exists i, a', o. split; [by right|done].
Qed.

(** *** The scanner reports every name *)

(** The contents of a reference's brackets, read by [f]. *)
Definition analyze_brackets (f : list token → result analysis) : list (list token) → result analysis :=
  fix brackets (l : list (list token)) : result analysis :=
    match l with
    | [] => Ok no_analysis
    | inner :: l' =>
        if static inner then brackets l'
        else try a := f inner in
             try b := brackets l' in Ok (an_app a b)
    end.

Lemma analyze_brackets_elem f l a inner :
  analyze_brackets f l = Ok a → inner ∈ l → static inner = false →
  ∃ b, f inner = Ok b ∧ ∀ r, r ∈ an_refs b → r ∈ an_refs a.
Proof.
  revert a. induction l as [|i l IH]; intros a; [by intros _ ?%elem_of_nil|]. cbn [analyze_brackets].
  intros H [->|Hin]%elem_of_cons Hs.
  - rewrite Hs in H. destruct (f i) as [b|]; [|done]. destruct (analyze_brackets f l) as [b'|]; [|done].
    injection H as <-. exists b. split; [done|]. intros r Hr. simpl. set_solver.
  - destruct (static i); [by apply IH|]. destruct (f i) as [b|]; [|done].
    destruct (analyze_brackets f l) as [b'|]; [|done]. injection H as <-.
    destruct (IH _ eq_refl Hin Hs) as (b'' & ? & Hb). exists b''. split; [done|]. intros r Hr. simpl. set_solver.
Qed.

Lemma analyze_ident fuel x toks a : reserved x = false → analyze_loop (S fuel) (tokIdent x :: toks) = Ok a →
  ∃ segs inners rest sub b,
    parse_segs (length toks) toks = Ok (segs, inners, rest)
    ∧ analyze_brackets (analyze_loop fuel) inners = Ok sub ∧ analyze_loop fuel rest = Ok b
    ∧ an_refs a = MkRef x segs :: an_refs sub ++ an_refs b.
Proof.
  intros Hx. cbn [analyze_loop]. change (is_punct "|" (tokIdent x)) with false. cbv iota. rewrite Hx. unfold parseRef.
  destruct (parse_segs (length toks) toks) as [[[segs inners] rest]|]; [|done].
  fold (analyze_brackets (analyze_loop fuel)). destruct (analyze_brackets (analyze_loop fuel) inners) as [sub|] eqn:Hs; [|done].
  destruct (analyze_loop fuel rest) as [b|] eqn:Hb; [|done]. intros [= <-]. by exists segs, inners, rest, sub, b.
Qed.

Lemma parse_segs_shorter fuel toks segs inners rest :
  parse_segs fuel toks = Ok (segs, inners, rest) →
  (length rest ≤ length toks)%nat ∧ ∀ inner, inner ∈ inners → (length inner < length toks)%nat.
Proof.
  revert toks segs inners rest. induction fuel as [|fuel IH]; intros toks segs inners rest Hp.
  { destruct toks; injection Hp as <- <- <-; split; try done; by intros ? ?%elem_of_nil. }
  assert (Ok ([], [], toks) = Ok (segs, inners, rest) →
    (length rest ≤ length toks)%nat ∧ ∀ inner, inner ∈ inners → (length inner < length toks)%nat) as Hend.
  { intros [= <- <- <-]. split; [done|]. by intros ? ?%elem_of_nil. }
  destruct toks as [|t toks]; [by apply Hend|]. destruct t as [y|y|y|y|y]; cbn [parse_segs] in Hp; try (by apply Hend).
  - destruct (parse_segs fuel toks) as [[[ss ins] r]|] eqn:Hps; [|done]. injection Hp as <- <- <-.
    destruct (IH _ _ _ _ Hps) as [H1 H2]. cbn [length]. split; [lia|]. intros i Hi. specialize (H2 i Hi). lia.
  - destruct (is_punct "[" (tokPunct y)); [|by apply Hend].
    destruct (bracket 1 toks) as [[inner out]|] eqn:Hbr; [|done]. apply bracket_spec in Hbr as [-> _].
    destruct (parse_segs fuel out) as [[[ss ins] r]|] eqn:Hps; [|done]. injection Hp as <- <- <-.
    destruct (IH _ _ _ _ Hps) as [H1 H2]. cbn [length]. rewrite length_app. cbn [length]. split; [lia|].
    intros i [->|Hi]%elem_of_cons; [lia|]. specialize (H2 i Hi). lia.
Qed.

Lemma reserved_words x : reserved x = true → x ∈ liquid_words.
Proof. apply bool_decide_eq_true. Qed.

Lemma last_cons_pipe t before :
  (last before = Some (tokPunct "|") → last (t :: before) = Some (tokPunct "|")).
Proof. intros H. change (t :: before) with ([t] ++ before). by rewrite last_app, H. Qed.

Lemma analyze_loop_covers fuel toks a :
  (length toks ≤ fuel)%nat → analyze_loop fuel toks = Ok a →
  ∀ before x after more segs rest,
    toks = before ++ tokIdent x :: after → x ∉ liquid_words → last before ≠ Some (tokPunct "|") →
    stops more → accesses (after ++ more) segs rest → MkRef x segs ∈ an_refs a.
Proof.
  revert toks a. induction fuel as [|fuel IH]; intros toks a Hl Ha before x after more segs rest Heq Hx Hb Hm Hacc.
  { destruct toks; [by destruct before|cbn [length] in Hl; lia]. }
  destruct toks as [|t toks]; [by destruct before|]. cbn [length] in Hl.
  assert (∀ before' toks' a', analyze_loop fuel toks' = Ok a' → (length toks' ≤ fuel)%nat →
    toks' = before' ++ tokIdent x :: after → last before' ≠ Some (tokPunct "|") → MkRef x segs ∈ an_refs a') as Hgo.
  { intros before' toks' a' Ha' Hl' Heq' Hb'. by apply (IH toks' a' Hl' Ha' before' x after more segs rest). }
  destruct before as [|b before].
  - injection Heq as -> ->. apply analyze_ident in Ha as (ss & ins & r & sub & b & Hp & _ & _ & ->).
    + destruct (parse_segs_accesses _ _ _ _ _ (Nat.le_refl _) Hp more Hm) as [_ Huniq].
      destruct (Huniq _ _ Hacc) as [-> _]. left.
    + destruct (reserved x) eqn:Hr; [|done]. by apply reserved_words in Hr.
  - injection Heq as -> Heq. assert (last before ≠ Some (tokPunct "|")) as Hb' by (intros H; by apply Hb, last_cons_pipe).
    destruct (is_punct "|" b) eqn:Hpipe.
    + apply is_punct_eq in Hpipe as ->. cbn [analyze_loop] in Ha. change (is_punct "|" (tokPunct "|")) with true in Ha. cbv iota in Ha.
      assert (analyze_loop fuel toks = Ok a → MkRef x segs ∈ an_refs a) as Hskip
        by (intros H; apply (Hgo before toks); [done|lia|done..]).
      destruct toks as [|[f|f|f|f|f] toks]; try (by apply Hskip).
      * destruct (analyze_loop fuel toks) as [a'|] eqn:Ha'; [|done]. injection Ha as <-. simpl.
        destruct before as [|b before]; [by destruct Hb|]. injection Heq as <- Heq.
        apply (Hgo before toks); [done|cbn [length] in Hl; lia|done|]. intros H. by apply Hb', last_cons_pipe.
      * destruct (analyze_loop fuel toks) as [a'|] eqn:Ha'; [|done]. injection Ha as <-. simpl.
        destruct before as [|b before]; [done|]. injection Heq as <- Heq.
        apply (Hgo before toks); [done|cbn [length] in Hl; lia|done|]. intros H. by apply Hb', last_cons_pipe.
    + assert (analyze_loop fuel toks = Ok a → MkRef x segs ∈ an_refs a) as Hskip by (intros H; apply (Hgo before toks); [done|lia|done..]).
      assert (∀ y, b = tokIdent y → reserved y = true → MkRef x segs ∈ an_refs a) as Hword.
      { intros y -> Hy. cbn [analyze_loop] in Ha. rewrite Hpipe, Hy in Ha. by apply Hskip. }
      assert ((∀ y, b ≠ tokIdent y) → MkRef x segs ∈ an_refs a) as Hother.
      { intros Hno. cbn [analyze_loop] in Ha. rewrite Hpipe in Ha. destruct b; try (by apply Hskip). by destruct (Hno text). }
      destruct b as [y|y|y|y|y]; try (by apply Hother). destruct (reserved y) eqn:Hy; [by apply (Hword y)|].
      apply analyze_ident in Ha as (ss & ins & r & sub & b & Hp & Hsub & Hrest & ->); [|done].
      destruct (parse_segs_shorter _ _ _ _ _ Hp) as [Hlr Hli].
      destruct (parse_segs_position _ _ _ _ _ _ _ _ Hp Heq) as (before' & Hlast & Hpos).
      assert (last before' ≠ Some (tokPunct "|")) as Hb'' by (destruct Hlast as [->| ->]; done).
      apply elem_of_cons. right. apply elem_of_app. destruct Hpos as [Hr|(inner & after' & out & Hin & Hi & ->)].
      * right. apply (Hgo before' r); [done|lia|done..].
      * left. assert (static inner = false) as Hst by (subst inner; by destruct before' as [|[] []]).
        destruct (analyze_brackets_elem _ _ _ _ Hsub Hin Hst) as (b' & Hb1 & Hincl). apply Hincl.
        apply (IH inner b' ltac:(specialize (Hli _ Hin); lia) Hb1 before' x after' (tokPunct "]" :: out ++ more) segs rest Hi Hx Hb'').
        -- by apply stops_other.
        -- by rewrite <-app_assoc in Hacc.
Qed.

(** Every variable an expression names is reported, also where more follows it. *)
Lemma analyze_names toks a r : analyze toks = Ok a → names toks r → r ∈ an_refs a.
Proof.
  intros Ha (before & after & rest & Heq & Hx & Hb & Hacc). destruct r as [x segs]. cbn [rf_root rf_segs] in *.
  apply (analyze_loop_covers (length toks) toks a (Nat.le_refl _) Ha before x after [] segs rest Heq Hx Hb).
  - intros r. by split.
  - by rewrite app_nil_r.
Qed.

(** ** Loops *)

(** A value: a literal, a variable or a group in parentheses, and accesses into it. *)
Inductive atom : list token → Prop :=
| atom_literal lit : atom [tokLiteral lit]
| atom_name x : atom [tokIdent x]
| atom_group inner : balanced "(" ")" inner → atom (tokPunct "(" :: inner ++ [tokPunct ")"]).
Inductive operand : list token → Prop :=
| operand_of a c segs : atom a → accesses c segs [] → operand (a ++ c).
Inductive arguments : list token → Prop :=
| arguments_one o : operand o → arguments o
| arguments_more o rest : operand o → arguments rest → arguments (o ++ tokPunct "," :: rest).
Inductive filters : list token → Prop :=
| filters_none : filters []
| filters_bare f rest : filters rest → filters (tokPunct "|" :: tokIdent f :: rest)
| filters_args f args rest : arguments args → filters rest → filters (tokPunct "|" :: tokKeyword f :: args ++ rest).

(** The modifiers behind a collection, and the values they are given. *)
Inductive modifiers : list token → list (list token) → Prop :=
| modifiers_none : modifiers [] []
| modifiers_reversed rest vals : modifiers rest vals → modifiers (tokIdent "reversed" :: rest) ([] :: vals)
| modifiers_value k o rest vals :
    k ∈ ["limit"; "offset"; "cols"] → operand o → modifiers rest vals →
    modifiers (tokKeyword k :: o ++ rest) (o :: vals).

(** [binder in collection modifiers] *)
Definition loop_parts (toks : list token) (binder : string) (collection : list token) (vals : list (list token)) : Prop :=
  ∃ o fs ms, toks = tokIdent binder :: tokIdent "in" :: collection ++ ms ∧ collection = o ++ fs
    ∧ operand o ∧ filters fs ∧ modifiers ms vals.

(** *** The scanner takes a loop apart *)

Lemma group_loop_spec o c k i toks n : o ≠ c →
  group_loop o c (S k) i toks = Some n →
  ∃ inner after, toks = inner ++ tokPunct c :: after ∧ n = (i + length inner + 1)%nat ∧ closing_by o c k inner.
Proof.
  intros Hne. revert k i. induction toks as [|t toks IH]; intros k i; cbn [group_loop]; [done|].
  assert (∀ d, group_loop o c (S d) (S i) toks = Some n →
    ((if is_punct c t then 1 else 0) + d = (if is_punct o t then 1 else 0) + k)%nat →
    ∃ inner after, t :: toks = inner ++ tokPunct c :: after ∧ n = (i + length inner + 1)%nat ∧ closing_by o c k inner) as Hgo.
  { intros d (inner & after & -> & -> & Hc)%IH Hd. exists (t :: inner), after. cbn [length].
    split_and!; [done|lia|by eapply closing_cons]. }
  destruct (is_punct o t) eqn:Ho.
  { assert (is_punct c t = false) as Hc by (apply is_punct_eq in Ho as ->; apply bool_decide_eq_false; congruence).
    intros H. apply (Hgo (S k) H). rewrite Hc. lia. }
  destruct (is_punct c t) eqn:Hc; [|intros H; by apply (Hgo k H)].
  destruct k as [|k]; [|intros H; apply (Hgo k H); lia]. intros [= <-]. apply is_punct_eq in Hc as ->.
  exists [], toks. split_and!; [done|cbn; lia|apply closing_nil].
Qed.

Lemma groupLen_spec toks o c n : o ≠ c → groupLen (tokPunct o :: toks) o c = Ok n →
  ∃ inner after, toks = inner ++ tokPunct c :: after ∧ n = (length inner + 2)%nat ∧ balanced o c inner.
Proof.
  intros Hne. unfold groupLen. cbn [group_loop]. assert (is_punct o (tokPunct o) = true) as -> by (by apply bool_decide_eq_true).
  destruct (group_loop o c 1 1 toks) as [m|] eqn:Hg; [|done]. intros [= <-].
  destruct (group_loop_spec o c 0 1 toks m Hne Hg) as (inner & after & -> & -> & Hc%closing_0).
  exists inner, after. split_and!; [done|lia|done].
Qed.

Lemma postfix_len_spec fuel i toks j : (length toks ≤ fuel)%nat → postfix_len fuel i toks = Ok j →
  ∃ c rest segs, toks = c ++ rest ∧ j = (i + length c)%nat ∧ accesses c segs [].
Proof.
  revert i toks. induction fuel as [|fuel IH]; intros i toks Hl.
  { destruct toks; [|cbn [length] in Hl; lia]. intros [= <-]. exists [], [], []. split_and!; [done|cbn; lia|]. constructor. by split. }
  assert (Ok i = Ok j → ∃ c rest segs, toks = c ++ rest ∧ j = (i + length c)%nat ∧ accesses c segs []) as Hend.
  { intros [= <-]. exists [], toks, []. split_and!; [done|cbn; lia|]. constructor. by split. }
  destruct toks as [|t toks]; [by apply Hend|]. cbn [length] in Hl. destruct t as [y|y|y|y|y]; cbn [postfix_len]; try (by apply Hend).
  - intros (c & rest & segs & -> & -> & Ha)%IH; [|lia]. exists (tokProperty y :: c), rest, (segProp y :: segs).
    cbn [length]. split_and!; [done|lia|by constructor].
  - destruct (is_punct "[" (tokPunct y)) eqn:Hb; [|by apply Hend]. apply is_punct_eq in Hb as [= ->].
    destruct (groupLen (tokPunct "[" :: toks) "[" "]") as [n|] eqn:Hg; [|done].
    apply groupLen_spec in Hg as (inner & after & -> & -> & Hbal); [|done].
    rewrite length_app in Hl. cbn [length] in Hl.
    replace (skipn (length inner + 2) (tokPunct "[" :: inner ++ tokPunct "]" :: after)) with after.
    2:{ replace (length inner + 2)%nat with (S (length (inner ++ [tokPunct "]"]))) by (rewrite length_app; cbn; lia).
        cbn [skipn]. rewrite (cons_middle _ inner after), app_assoc. by rewrite skipn_app, skipn_all, Nat.sub_diag. }
    intros (c & rest & segs & -> & -> & Ha)%IH; [|lia].
    exists (tokPunct "[" :: inner ++ tokPunct "]" :: c), rest, (bracketSeg inner :: segs).
    cbn [length app]. rewrite length_app, <-app_assoc. cbn [length].
    split_and!; [done|lia|]. constructor; [done|apply bracketSeg_denotes|done].
Qed.

Lemma skipn_length_app {A} (a b : list A) : skipn (length a) (a ++ b) = b.
Proof. by rewrite skipn_app, skipn_all, Nat.sub_diag. Qed.
Lemma firstn_length_app {A} (a b : list A) : firstn (length a) (a ++ b) = a.
Proof. by rewrite firstn_app, firstn_all, Nat.sub_diag, firstn_O, app_nil_r. Qed.

Lemma exprLen_spec toks n : exprLen toks = Ok n → ∃ o rest, toks = o ++ rest ∧ n = length o ∧ operand o ∧ o ≠ [].
Proof.
  assert (∀ t rest, atom [t] → postfix_len (length rest) 1 rest = Ok n →
    ∃ o r, t :: rest = o ++ r ∧ n = length o ∧ operand o ∧ o ≠ []) as Hatom.
  { intros t rest Ha (c & r & segs & -> & -> & Hc)%postfix_len_spec; [|done].
    exists ([t] ++ c), r. split_and!; [done|done|by econstructor|done]. }
  destruct toks as [|t toks]; [done|]. destruct t as [x|x|x|x|x]; cbn [exprLen]; try done.
  - apply Hatom. constructor.
  - apply Hatom. constructor.
  - destruct (is_punct "(" (tokPunct x)) eqn:Hb; [|done]. apply is_punct_eq in Hb as [= ->].
    destruct (groupLen (tokPunct "(" :: toks) "(" ")") as [m|] eqn:Hg; [|done].
    apply groupLen_spec in Hg as (inner & after & -> & -> & Hbal); [|done].
    assert (tokPunct "(" :: inner ++ tokPunct ")" :: after = (tokPunct "(" :: inner ++ [tokPunct ")"]) ++ after) as Heq
      by (cbn [app]; by rewrite <-app_assoc).
    rewrite Heq. replace (length inner + 2)%nat with (length (tokPunct "(" :: inner ++ [tokPunct ")"]))
      by (cbn [length]; rewrite length_app; cbn; lia).
    rewrite skipn_length_app. intros (c & r & segs & -> & -> & Hc)%postfix_len_spec; [|rewrite length_app; lia].
    exists ((tokPunct "(" :: inner ++ [tokPunct ")"]) ++ c), r.
    split_and!; [by rewrite app_assoc|by rewrite length_app|econstructor; [by constructor|done]|done].
Qed.

Lemma filter_args_spec fuel f i toks j : (length toks < fuel)%nat → filter_args fuel f i toks = Ok j →
  ∃ args rest, toks = args ++ rest ∧ j = (i + length args)%nat ∧ arguments args.
Proof.
  revert i toks. induction fuel as [|fuel IH]; intros i toks Hl; [lia|]. cbn [filter_args].
  destruct (exprLen toks) as [n|] eqn:He; [|done]. apply exprLen_spec in He as (o & rest & -> & -> & Ho & Hne).
  rewrite skipn_length_app. rewrite length_app in Hl. assert (length o ≠ 0)%nat by (by destruct o).
  assert (Ok (i + length o)%nat = Ok j → ∃ args rest', o ++ rest = args ++ rest' ∧ j = (i + length args)%nat ∧ arguments args) as Hend.
  { intros [= <-]. exists o, rest. split_and!; [done|lia|by constructor]. }
  destruct rest as [|t rest]; [by apply Hend|]. destruct (is_punct "," t) eqn:Hc; [|by apply Hend].
  apply is_punct_eq in Hc as ->. cbn [length] in Hl. intros (args & rest' & -> & -> & Ha)%IH; [|lia].
  exists (o ++ tokPunct "," :: args), rest'. rewrite <-app_assoc, length_app. cbn [length app].
  split_and!; [done|lia|by constructor].
Qed.

Lemma filters_len_spec fuel i toks j : (length toks ≤ fuel)%nat → filters_len fuel i toks = Ok j →
  ∃ fs rest, toks = fs ++ rest ∧ j = (i + length fs)%nat ∧ filters fs.
Proof.
  revert i toks. induction fuel as [|fuel IH]; intros i toks Hl.
  { destruct toks; [|cbn [length] in Hl; lia]. intros [= <-]. exists [], []. split_and!; [done|cbn; lia|constructor]. }
  assert (Ok i = Ok j → ∃ fs rest, toks = fs ++ rest ∧ j = (i + length fs)%nat ∧ filters fs) as Hend.
  { intros [= <-]. exists [], toks. split_and!; [done|cbn; lia|constructor]. }
  destruct toks as [|t toks]; [by apply Hend|]. cbn [filters_len]. cbn [length] in Hl.
  destruct (is_punct "|" t) eqn:Hp; [|by apply Hend]. apply is_punct_eq in Hp as ->.
  destruct toks as [|[f|f|f|f|f] toks]; try done; cbn [length] in Hl.
  - intros (fs & rest & -> & -> & Hf)%IH; [|lia]. exists (tokPunct "|" :: tokIdent f :: fs), rest. cbn [length app].
    split_and!; [done|lia|by constructor].
  - destruct (filter_args _ f (i + 2) toks) as [k|] eqn:Ha; [|done].
    apply filter_args_spec in Ha as (args & rest & -> & -> & Ha); [|lia]. rewrite length_app in Hl.
    replace (i + 2 + length args - i)%nat with (length (tokPunct "|" :: tokKeyword f :: args)) by (cbn [length]; lia).
    change (tokPunct "|" :: tokKeyword f :: args ++ rest) with ((tokPunct "|" :: tokKeyword f :: args) ++ rest).
    rewrite skipn_length_app. intros (fs & rest' & -> & -> & Hf)%IH; [|lia].
    exists (tokPunct "|" :: tokKeyword f :: args ++ fs), rest'. cbn [length app]. rewrite length_app, <-app_assoc.
    split_and!; [done|lia|by constructor].
Qed.

Lemma filteredLen_spec toks n : filteredLen toks = Ok n →
  ∃ o fs rest, toks = (o ++ fs) ++ rest ∧ n = length (o ++ fs) ∧ operand o ∧ filters fs.
Proof.
  unfold filteredLen. destruct (exprLen toks) as [i|] eqn:He; [|done]. apply exprLen_spec in He as (o & rest & -> & -> & Ho & _).
  rewrite skipn_length_app. intros (fs & rest' & -> & -> & Hf)%filters_len_spec; [|rewrite length_app; lia].
  exists o, fs, rest'. by rewrite <-app_assoc, length_app.
Qed.

Lemma loop_modifiers_spec fuel toks ms : (length toks ≤ fuel)%nat → loop_modifiers fuel toks = Ok ms →
  modifiers toks (lm_value <$> ms).
Proof.
  revert toks ms. induction fuel as [|fuel IH]; intros toks ms Hl.
  { destruct toks; [|cbn [length] in Hl; lia]. intros [= <-]. constructor. }
  destruct toks as [|t toks]; [intros [= <-]; constructor|]. cbn [length] in Hl.
  destruct t as [x|x|x|x|x]; cbn [loop_modifiers]; try done.
  - destruct (bareLoopModifiers x) eqn:Hx; [|done]. apply bool_decide_eq_true in Hx as ->.
    destruct (loop_modifiers fuel toks) as [more|] eqn:Hm; [|done]. intros [= <-]. csimpl. constructor. apply IH; [lia|done].
  - destruct (keywordLoopModifiers x) eqn:Hx; [|done]. apply bool_decide_eq_true in Hx.
    destruct (exprLen toks) as [n|] eqn:He; [|done]. apply exprLen_spec in He as (o & rest & -> & -> & Ho & Hne).
    rewrite skipn_length_app, firstn_length_app. rewrite length_app in Hl.
    destruct (loop_modifiers fuel rest) as [more|] eqn:Hm; [|done]. intros [= <-]. csimpl. constructor; [done..|].
    apply IH; [lia|done].
Qed.

(** The parts of a loop are the parts the scanner reports. *)
Lemma parseLoop_parts toks spec : parseLoop toks = Ok spec →
  loop_parts toks (ls_binder spec) (ls_collection spec) (lm_value <$> ls_modifiers spec).
Proof.
  unfold parseLoop. destruct toks as [|[b| | | |] [|[kw| | | |] [|t rest]]]; try done.
  case_bool_decide as Hkw; [|done]. cbn [negb]. subst kw. set (toks := t :: rest).
  destruct (filteredLen toks) as [n|] eqn:Hf; [|done]. apply filteredLen_spec in Hf as (o & fs & ms & -> & -> & Ho & Hfs).
  rewrite skipn_length_app, firstn_length_app. destruct (loop_modifiers _ ms) as [mods|] eqn:Hm; [|done]. intros [= <-].
  cbn [ls_binder ls_collection ls_modifiers]. exists o, fs, ms. split_and!; [done..|].
  eapply loop_modifiers_spec; [|exact Hm]. rewrite length_app. lia.
Qed.
End expressions.
