(* ===== verification/TemplateEngine.v ===== *)
(** * TemplateEngine: what the rendering engine promises

    The Liquid engine is not part of the repository. The class [LiquidSem] states what the
    strictness of [Template] relies on: what Liquid documents of its tags, and that an
    expression's value is a function of the values of the variables it names. What it names
    is what the grammar of [TemplateGrammar] says, not what the repository's scanner reports;
    an engine may fail on an expression or a tag, and it may panic. An engine here is a
    function of the template and its variables: a filter that reads the clock is outside. *)

From S2P Require Import Prelude GoStd GoStdFacts Core TemplateLex TemplateGrammar Template.

(** ** The engine *)

Definition env := string → value.
Definition env_set (σ : env) (x : string) (v : value) : env := λ y, if bool_decide (y = x) then v else σ y.
(** To the engine an absent name is a null one. *)
Definition env_of (b : list (string * value)) : env := λ x, default VNull (assoc x b).

(** How a rendering ends early: the engine returns an error, or it panics. *)
Inductive failure := Raises (e : error) | Panics (v : string).
Inductive signal := Next | Break | Continue | Failed (f : failure).
Record outcome := MkOutcome { o_env : env; o_out : string; o_sig : signal }.

(** One pass of a loop: the element, the metadata bound as [forloop], which carries on what
    the pass before left there, and what the tag writes around the body. *)
Record iteration := MkIteration { it_item : value; it_forloop : value → value; it_before : string; it_after : string }.

(** The names and their accesses that decide a reference: up to a computed one. *)
Fixpoint static_segs (segs : list pathSeg) : list pathSeg :=
  match segs with
  | segDynamic :: _ | [] => []
  | seg :: rest => seg :: static_segs rest
  end.
Definition is_static (r : ref) : Prop := static_segs (rf_segs r) = rf_segs r.

(** What a reference finds in an environment, and the environments an expression cannot tell
    apart: every variable it names is the same in both. *)
Definition value_at (acc : value → pathSeg → value) (σ : env) (r : ref) : value :=
  foldl acc (σ (rf_root r)) (static_segs (rf_segs r)).
Definition agree_on (acc : value → pathSeg → value) (σ1 σ2 : env) (toks : list token) : Prop :=
  ∀ r, names toks r → value_at acc σ1 r = value_at acc σ2 r.

Section execution.
Context {L : LexTables} {T : GoTables}.

Section bodies.
Context (exec : node → env → outcome).

Fixpoint exec_body (l : list node) (σ : env) : outcome :=
  match l with
  | [] => MkOutcome σ "" Next
  | c :: rest =>
      let o := exec c σ in
      match o_sig o with
      | Next => let o' := exec_body rest (o_env o) in MkOutcome (o_env o') (o_out o +:+ o_out o') (o_sig o')
      | _ => o
      end
  end.

Section passes.
Context (binder : string) (body : list node).

Fixpoint exec_loop (its : list iteration) (σ : env) : outcome :=
  match its with
  | [] => MkOutcome σ "" Next
  | it :: rest =>
      let o := exec_body body (env_set (env_set σ "forloop" (it_forloop it (σ "forloop"))) binder (it_item it)) in
      let out := it_before it +:+ o_out o +:+ it_after it in
      match o_sig o with
      | Next | Continue =>
          let o' := exec_loop rest (o_env o) in MkOutcome (o_env o') (out +:+ o_out o') (o_sig o')
      | Break => MkOutcome (o_env o) out Next
      | Failed f => MkOutcome (o_env o) out (Failed f)
      end
  end.
End passes.

Definition exec_nth (i : nat) (body : list node) (clauses : list (string * loc * list node)) (σ : env) : outcome :=
  match i with
  | O => exec_body body σ
  | S j => match clauses !! j with Some c => exec_body c.2 σ | None => MkOutcome σ "" Next end
  end.
End bodies.

Class LiquidSem (E : Liquid) := {
  (** Property, key and index accesses of a value, and how a value prints. *)
  acc : value → pathSeg → value;
  show : value → string;
  (** [{{ src }}], the value of [{% assign x = ... %}], the branch of a conditional, the
      passes of a loop, and any other tag: what it writes and the loop metadata after it. *)
  emit : env → string → loc → string + failure;
  assigned : env → string → loc → value + failure;
  choose : env → string → string → loc → list string → option nat + failure;
  plan : env → string → string → loc → list iteration + failure;
  other_tag : env → string → string → loc → string * value + failure;
  dead_text : node → string;
  stray : error;
  exec : node → env → outcome;

  acc_map : ∀ m p v, assoc p m = Some v → acc (VMap m) (segProp p) = v ∧ acc (VMap m) (segKey p) = v;
  show_string : ∀ s, show (VString s) = s;
  (** An expression reads the variables it names, and a variable on its own prints its value. *)
  emit_reads : ∀ σ1 σ2 src l toks,
    tokens src toks → agree_on acc σ1 σ2 toks → emit σ1 src l = emit σ2 src l;
  emit_whole : ∀ σ src l x after segs,
    tokens src (tokIdent x :: after) → x ∉ liquid_words → accesses after segs [] → static_segs segs = segs →
    foldl acc (σ x) segs ≠ VNull → emit σ src l = inl (show (foldl acc (σ x) segs));
  assigned_reads : ∀ σ1 σ2 src l x rhs,
    tokens src (tokIdent x :: tokPunct "=" :: rhs) → agree_on acc σ1 σ2 rhs →
    assigned σ1 src l = assigned σ2 src l;
  choose_reads : ∀ σ1 σ2 name args l conds,
    (∀ src, src ∈ args :: conds → ∃ toks, tokens src toks ∧ agree_on acc σ1 σ2 toks) →
    choose σ1 name args l conds = choose σ2 name args l conds;
  plan_reads : ∀ σ1 σ2 name args l toks binder collection vals,
    tokens args toks → loop_parts toks binder collection vals →
    agree_on acc σ1 σ2 collection → (∀ v, v ∈ vals → agree_on acc σ1 σ2 v) →
    plan σ1 name args l = plan σ2 name args l;
  other_reads : ∀ σ1 σ2 name args l toks,
    σ1 "forloop" = σ2 "forloop" → tokens args toks → agree_on acc σ1 σ2 toks →
    other_tag σ1 name args l = other_tag σ2 name args l;

  (** Nodes. [assign] and [capture] set a variable of the whole template; a loop gives its
      variable and [forloop] their values back when it ends. *)
  exec_seq : ∀ l σ, exec (SeqNode l) σ = exec_body exec l σ;
  exec_text : ∀ s σ, exec (TextNode s) σ = MkOutcome σ s Next;
  exec_raw : ∀ s σ, exec (RawNode s) σ = MkOutcome σ s Next;
  exec_object : ∀ src l σ,
    exec (ObjectNode src l) σ =
      match emit σ src l with inl s => MkOutcome σ s Next | inr f => MkOutcome σ "" (Failed f) end;
  exec_break : ∀ args l σ, exec (TagNode "break" args l) σ = MkOutcome σ "" Break;
  exec_continue : ∀ args l σ, exec (TagNode "continue" args l) σ = MkOutcome σ "" Continue;
  exec_assign : ∀ args l σ x rhs,
    tokens args (tokIdent x :: tokPunct "=" :: rhs) →
    exec (TagNode "assign" args l) σ =
      match assigned σ args l with
      | inl v => MkOutcome (env_set σ x v) "" Next
      | inr f => MkOutcome σ "" (Failed f)
      end;
  exec_other : ∀ name args l σ,
    name ∉ ["break"; "continue"; "include"; "assign"] →
    exec (TagNode name args l) σ =
      match other_tag σ name args l with
      | inl (out, f) => MkOutcome (env_set σ "forloop" f) out Next
      | inr f => MkOutcome σ "" (Failed f)
      end;
  exec_dead : ∀ name args l body cls σ,
    block_kind_of name = bkDead →
    exec (BlockNode name args l body cls) σ = MkOutcome σ (dead_text (BlockNode name args l body cls)) Next;
  exec_branch : ∀ name args l body cls σ,
    block_kind_of name = bkBranch →
    exec (BlockNode name args l body cls) σ =
      match choose σ name args l ((λ c, c.1.1) <$> cls) with
      | inr f => MkOutcome σ "" (Failed f)
      | inl None => MkOutcome σ "" Next
      | inl (Some i) => exec_nth exec i body cls σ
      end;
  exec_iterate : ∀ name args l body cls σ binder rest,
    block_kind_of name = bkLoop → tokens args (tokIdent binder :: tokIdent "in" :: rest) →
    exec (BlockNode name args l body cls) σ =
      match plan σ name args l with
      | inr f => MkOutcome σ "" (Failed f)
      | inl [] => exec_nth exec 1 body cls σ
      | inl its =>
          let o := exec_loop exec binder body its σ in
          MkOutcome (env_set (env_set (o_env o) binder (σ binder)) "forloop" (σ "forloop")) (o_out o) (o_sig o)
      end;
  exec_capture : ∀ args l body cls σ x,
    tokens args [tokIdent x] →
    exec (BlockNode "capture" args l body cls) σ =
      let o := exec_body exec body σ in
      match o_sig o with
      | Next => MkOutcome (env_set (o_env o) x (VString (o_out o))) "" Next
      | sig => MkOutcome (o_env o) "" sig
      end;
  render_exec : ∀ p b,
    lq_render p b =
      match exec p (env_of b) with
      | MkOutcome _ out Next => Rendered out
      | MkOutcome _ _ (Failed (Raises e)) => RenderFailed e
      | MkOutcome _ _ (Failed (Panics v)) => RenderPanicked v
      | MkOutcome _ _ _ => RenderFailed stray
      end;
}.
End execution.
