(* ===== verification/TemplateFlow.v ===== *)
(** * TemplateFlow: what an issue author can change in a prompt

    Proves what the walk of [Template] is for, on any engine that keeps the promises of
    [TemplateEngine]: run a template it accepts on two attempts that differ only in what
    others wrote, and the runs take the same way and write the same text outside fences. *)

From S2P Require Import Prelude GoStd GoStdFacts Core TemplateLex TemplateGrammar Template TemplateEngine.

(** ** Shapes that can be trusted *)

(** No fenced content anywhere beneath. *)
Fixpoint clean (s : shape) : bool :=
  negb (sh_tainted s)
  && (fix go (l : list (string * shape)) : bool := match l with [] => true | (_, f) :: r => clean f && go r end)
       (sh_fields s)
  && match sh_elem s with Some e => clean e | None => true end.

(** Taint reaches up: only strings and objects carry it, and a shape without it has none
    beneath. *)
Fixpoint wf_shape (s : shape) : bool :=
  if sh_tainted s then
    match sh_kind s with
    | kindString => true
    | kindObject =>
        (fix go (l : list (string * shape)) : bool := match l with [] => true | (_, f) :: r => wf_shape f && go r end)
          (sh_fields s)
    | _ => false
    end
  else clean s.

Lemma clean_field s n f : clean s = true → assoc n (sh_fields s) = Some f → clean f = true.
Proof.
  destruct s as [k fs el u t]; simpl. intros H. split_bools. clear H0.
  induction fs as [|[m g] fs IH]; simpl in *; [done|]. split_bools.
  case_bool_decide; [intros [= <-]; done|]. intros Ha. by apply IH.
Qed.

Lemma clean_elem s e : clean s = true → sh_elem s = Some e → clean e = true.
Proof. destruct s as [k fs el u t]; simpl. intros H ->. by split_bools. Qed.

Lemma clean_untainted s : clean s = true → sh_tainted s = false.
Proof. destruct s as [k fs el u t]; simpl. intros H. by split_bools. Qed.

Lemma clean_wf s : clean s = true → wf_shape s = true.
Proof.
  intros H. pose proof (clean_untainted _ H) as Ht. destruct s as [k fs el u t]; simpl in Ht; subst t. exact H.
Qed.

Lemma wf_untainted s : wf_shape s = true → sh_tainted s = false → clean s = true.
Proof. destruct s as [k fs el u t]; simpl. by destruct t. Qed.

Lemma wf_field s n f :
  wf_shape s = true → sh_tainted s = true → sh_kind s = kindObject → assoc n (sh_fields s) = Some f → wf_shape f = true.
Proof.
  destruct s as [k fs el u t]; cbn [wf_shape sh_kind sh_tainted sh_fields]. intros H -> -> Ha.
  induction fs as [|[m g] fs IH]; simpl in *; [done|]. split_bools.
  case_bool_decide; [by simplify_eq|]. by apply IH.
Qed.

Lemma access_clean s seg next : clean s = true → access s seg = Some next → clean next = true.
Proof.
  intros Hc. unfold access, property, keyIndex, index.
  destruct seg, (sh_kind s); repeat case_bool_decide; intros Ha; simplify_eq; try done;
    eauto using clean_field, clean_elem.
Qed.

Lemma wf_access s seg next : wf_shape s = true → sh_tainted s && negb (container s) = false →
  access s seg = Some next → wf_shape next = true.
Proof.
  intros Hw Hc Ha. destruct (sh_tainted s) eqn:Ht; [|by eapply clean_wf, access_clean; eauto using wf_untainted].
  assert (sh_kind s = kindObject) as Hk.
  { destruct s as [k fs el u t]; simpl in Ht; subst t. unfold container in Hc; simpl in *. by destruct k. }
  destruct seg as [p|p|i|]; simpl in Ha; unfold property, keyIndex, index in Ha; rewrite Hk in Ha; try done; by eapply wf_field.
Qed.

(** ** Two attempts *)

(** The variables whose text others wrote, with the note their fence carries. *)
Definition untrusted_spans : list (string * string) :=
  [("issue.title", fenceNoteIssue); ("issue.body", fenceNoteIssue); ("run.previous_attempt", fenceNoteAgent)].

(** What such a variable binds to. *)
Definition fenced (span : string * string) (s : string) : Prop :=
  (s = "" ∧ span.1 = "run.previous_attempt") ∨ ∃ salts value, fence salts span.1 span.2 value = Some s.

(** Two pieces at one place of a text: the same, or the fences of one variable. *)
Definition piece (p : string * string) : Prop :=
  p.1 = p.2 ∨ ∃ span, span ∈ untrusted_spans ∧ fenced span p.1 ∧ fenced span p.2.

Definition concat_all (l : list string) : string := foldr (λ s acc, s +:+ acc) "" l.

Definition same_outside_fences (s1 s2 : string) : Prop :=
  ∃ l, s1 = concat_all l.*1 ∧ s2 = concat_all l.*2 ∧ Forall piece l.

Lemma same_refl s : same_outside_fences s s.
Proof. exists [(s, s)]. simpl. rewrite sapp_nil_r. repeat constructor. Qed.

Lemma concat_all_app l1 l2 : concat_all (l1 ++ l2) = concat_all l1 +:+ concat_all l2.
Proof. induction l1 as [|a l1 IH]; simpl; [done|]. by rewrite IH, sapp_assoc. Qed.

Lemma same_app a1 a2 b1 b2 :
  same_outside_fences a1 a2 → same_outside_fences b1 b2 → same_outside_fences (a1 +:+ b1) (a2 +:+ b2).
Proof.
  intros (l1 & -> & -> & ?) (l2 & -> & -> & ?). exists (l1 ++ l2).
  rewrite !fmap_app, !concat_all_app. auto using Forall_app_2.
Qed.

#[local] Hint Resolve same_refl same_app : core.

Inductive rel : shape → value → value → Prop :=
| rel_same s v : sh_tainted s = false → rel s v v
| rel_text s a b : sh_kind s = kindString → sh_tainted s = true → same_outside_fences a b → rel s (VString a) (VString b)
| rel_object s m1 m2 :
    sh_kind s = kindObject → sh_tainted s = true →
    (∀ n f, assoc n (sh_fields s) = Some f →
       ∃ a1 a2, assoc n m1 = Some a1 ∧ assoc n m2 = Some a2 ∧ rel f a1 a2) →
    rel s (VMap m1) (VMap m2).

Lemma rel_eq s v1 v2 : sh_tainted s = false → rel s v1 v2 → v1 = v2.
Proof. intros Ht Hr. inversion Hr; congruence. Qed.

(** Two environments that differ, on the names of the scopes, inside fences only. *)
Definition agree (scopes : list (list (string * shape))) (σ1 σ2 : env) : Prop :=
  (∀ x s, lookup_scopes x scopes = Some s → rel s (σ1 x) (σ2 x)) ∧ σ1 "forloop" = σ2 "forloop".

(** A name is bound in one scope only, and [forloop] is trusted. *)
Fixpoint apart (scopes : list (list (string * shape))) : Prop :=
  match scopes with
  | [] => True
  | top :: rest =>
      (∀ x s, assoc x top = Some s → wf_shape s = true ∧ if bool_decide (x = "forloop") then sh_tainted s = false else lookup_scopes x rest = None)
      ∧ apart rest
  end.

Lemma apart_wf scopes x s : apart scopes → lookup_scopes x scopes = Some s → wf_shape s = true.
Proof.
  induction scopes as [|top rest IH]; simpl; [done|]. intros [Ht Hr].
  destruct (assoc x top) eqn:Ha; [intros [= <-]; by apply Ht in Ha as [? _]|]. by apply IH.
Qed.

Lemma apart_forloop scopes s : apart scopes → lookup_scopes "forloop" scopes = Some s → sh_tainted s = false.
Proof.
  induction scopes as [|top rest IH]; simpl; [done|]. intros [Ht Hr].
  destruct (assoc "forloop" top) eqn:Ha; [intros [= <-]; by apply Ht in Ha as [_ ?]|]. by apply IH.
Qed.

(** What holds inside a block holds outside it. *)
Lemma agree_tl top rest σ1 σ2 : apart (top :: rest) → agree (top :: rest) σ1 σ2 → agree rest σ1 σ2.
Proof.
  intros [Ht Hr] [Ha Hf]. split; [|done]. intros x s Hx. destruct (decide (x = "forloop")) as [->|Hne].
  { rewrite Hf. apply rel_same. by eapply apart_forloop. }
  apply Ha. simpl. destruct (assoc x top) eqn:Hx'; [|done].
  apply Ht in Hx' as [_ Hx']. rewrite bool_decide_eq_false_2 in Hx' by done. congruence.
Qed.

(** ** The discipline

    The walk looks at each block in a scope of its own, the engine keeps one environment;
    the two agree on templates that do not rebind, inside a block, a name that is visible
    outside it. The other conditions: in [{{ x[y] }}] the [y] is checked like any other
    expression, an object that holds fences is not printed as a whole, and no whitespace
    control joins the output of two nodes. *)

Section discipline.
Context {L : LexTables} {T : GoTables}.

Definition lexed (src : string) : list token := match lex src with Ok toks => toks | Err _ => [] end.
Definition refs_of (toks : list token) : list ref := match analyze toks with Ok a => an_refs a | Err _ => [] end.

Definition unbound (x : string) (scopes : list (list (string * shape))) : bool :=
  match lookup_scopes x scopes with None => true | Some _ => false end.

Definition plain_emission (src : string) (l : loc) (w : walker) : bool :=
  let toks := lexed src in
  match whole_ref toks with
  | None => true
  | Some _ =>
      match check_refs (tl (refs_of toks)) l false w with Ok _ => true | Err _ => false end
      && negb (sh_tainted (wholeRefShape w toks) && container (wholeRefShape w toks))
  end.

Definition plain_tag (name args : string) (w : walker) : bool :=
  if bool_decide (name = "assign")
  then match lexed args with tokIdent x :: _ => unbound x (tl (w_scopes w)) | _ => true end
  else true.

(** Read along the walk, in the state the walk is in. *)
Fixpoint disciplined (n : node) (w : walker) {struct n} : bool :=
  let body := fix body (l : list node) (w : walker) {struct l} : bool :=
    match l with
    | [] => true
    | c :: rest => disciplined c w && match walk_node c w with Ok w' => body rest w' | Err _ => true end
    end in
  let clauses := λ conds, fix clauses (cls : list (string * loc * list node)) (w : walker) : bool :=
    match cls with
    | [] => true
    | (cargs, cl, cbody) :: rest =>
        match (if negb conds || bool_decide (cargs = "") then Ok w else expr cargs cl w) with
        | Ok w =>
            body cbody (push w) && match scopedBody cbody w with Ok w' => clauses rest w' | Err _ => true end
        | Err _ => true
        end
    end in
  match n with
  | SeqNode children => body children w
  | ObjectNode src l => plain_emission src l w
  | TagNode name args _ => plain_tag name args w
  | BlockNode name args l b cls =>
      match block_kind_of name with
      | bkLoop =>
          match loopArgs name args l w with
          | Ok (binder, elem, w) =>
              let inner := wbind "forloop" forloopShape (wbind binder elem (push w)) in
              unbound binder (w_scopes w) && body b inner
              && match walk_body b inner with Ok w' => clauses false cls (pop w') | Err _ => true end
          | Err _ => true
          end
      | bkCapture =>
          match capture_target args l with Ok x => unbound x (tl (w_scopes w)) | Err _ => true end && body b (push w)
      | bkBranch =>
          match expr args l w with
          | Ok w =>
              body b (push w) && match scopedBody b w with Ok w' => clauses true cls w' | Err _ => true end
          | Err _ => true
          end
      | _ => true
      end
  | TextNode _ | RawNode _ => true
  | TrimNode => false
  end.

(** A walk that succeeds on a disciplined template, as a derivation. *)
Inductive walked : node → walker → walker → Prop :=
| walked_seq l w w' : walked_body l w w' → walked (SeqNode l) w w'
| walked_object src l w w' :
    emission src l w = Ok w' → plain_emission src l w = true → walked (ObjectNode src l) w w'
| walked_tag name args l w w' :
    tag name args l w = Ok w' → plain_tag name args w = true → walked (TagNode name args l) w w'
| walked_text s w : walked (TextNode s) w w
| walked_raw s w : walked (RawNode s) w w
| walked_dead name args l b cls w : block_kind_of name = bkDead → walked (BlockNode name args l b cls) w w
| walked_branch name args l b cls w w1 w2 w3 :
    block_kind_of name = bkBranch → expr args l w = Ok w1 →
    walked_body b (push w1) w2 → walked_clauses true cls (pop w2) w3 →
    walked (BlockNode name args l b cls) w w3
| walked_loop name args l b cls w binder elem w1 w2 w3 :
    block_kind_of name = bkLoop → loopArgs name args l w = Ok (binder, elem, w1) →
    binder ≠ "forloop" → unbound binder (w_scopes w1) = true →
    walked_body b (wbind "forloop" forloopShape (wbind binder elem (push w1))) w2 →
    walked_clauses false cls (pop w2) w3 →
    walked (BlockNode name args l b cls) w w3
| walked_capture args l b cls w x w1 :
    capture_target args l = Ok x → unbound x (tl (w_scopes w)) = true →
    walked_body b (push w) w1 →
    walked (BlockNode "capture" args l b cls) w
      (wbind x (if w_taintedEmissions w <? w_taintedEmissions w1 then taintedString else stringShape) (pop w1))
with walked_body : list node → walker → walker → Prop :=
| walked_nil w : walked_body [] w w
| walked_cons c rest w w1 w2 : walked c w w1 → walked_body rest w1 w2 → walked_body (c :: rest) w w2
with walked_clauses : bool → list (string * loc * list node) → walker → walker → Prop :=
| walked_no_clause conds w : walked_clauses conds [] w w
| walked_clause conds cargs cl cbody rest w w1 w2 w3 :
    (if negb conds || bool_decide (cargs = "") then Ok w else expr cargs cl w) = Ok w1 →
    walked_body cbody (push w1) w2 → walked_clauses conds rest (pop w2) w3 →
    walked_clauses conds ((cargs, cl, cbody) :: rest) w w3.

Scheme walked_mut := Induction for walked Sort Prop
with walked_body_mut := Induction for walked_body Sort Prop
with walked_clauses_mut := Induction for walked_clauses Sort Prop.
Combined Scheme walked_all from walked_mut, walked_body_mut, walked_clauses_mut.

Section node_induction.
Context (P : node → Prop).
Context (Hseq : ∀ l, Forall P l → P (SeqNode l)) (Hobj : ∀ a l, P (ObjectNode a l)) (Htag : ∀ n a l, P (TagNode n a l))
  (Hblock : ∀ n a l b cls, Forall P b → Forall (λ c, Forall P c.2) cls → P (BlockNode n a l b cls))
  (Htext : ∀ s, P (TextNode s)) (Hraw : ∀ s, P (RawNode s)) (Htrim : P TrimNode).

Fixpoint node_nested_ind (n : node) : P n :=
  let all := fix all (l : list node) : Forall P l :=
    match l with [] => Forall_nil_2 P | c :: r => Forall_cons_2 P c r (node_nested_ind c) (all r) end in
  match n with
  | SeqNode l => Hseq l (all l)
  | ObjectNode a l => Hobj a l
  | TagNode n a l => Htag n a l
  | BlockNode n a l b cls =>
      Hblock n a l b cls (all b)
        ((fix go (cs : list (string * loc * list node)) : Forall (λ c, Forall P c.2) cs :=
            match cs with [] => Forall_nil_2 _ | c :: r => Forall_cons_2 _ c r (all c.2) (go r) end) cls)
  | TextNode s => Htext s
  | RawNode s => Hraw s
  | TrimNode => Htrim
  end.
End node_induction.

(** The walk and the discipline in their unfolded form. *)
Definition disciplined_body : list node → walker → bool :=
  fix body (l : list node) (w : walker) {struct l} : bool :=
    match l with
    | [] => true
    | c :: rest => disciplined c w && match walk_node c w with Ok w' => body rest w' | Err _ => true end
    end.

Definition disciplined_clauses (conds : bool) : list (string * loc * list node) → walker → bool :=
  fix clauses (cls : list (string * loc * list node)) (w : walker) : bool :=
    match cls with
    | [] => true
    | (cargs, cl, cbody) :: rest =>
        match (if negb conds || bool_decide (cargs = "") then Ok w else expr cargs cl w) with
        | Ok w =>
            disciplined_body cbody (push w)
            && match scopedBody cbody w with Ok w' => clauses rest w' | Err _ => true end
        | Err _ => true
        end
    end.

Definition walk_clauses (conds : bool) : list (string * loc * list node) → walker → result walker :=
  fix clauses (cls : list (string * loc * list node)) (w : walker) : result walker :=
    match cls with
    | [] => Ok w
    | (cargs, cl, cbody) :: rest =>
        try w := (if negb conds || bool_decide (cargs = "") then Ok w else expr cargs cl w) in
        try w := scopedBody cbody w in
        clauses rest w
    end.

Lemma walk_branch name args l b cls w : block_kind_of name = bkBranch →
  walk_node (BlockNode name args l b cls) w =
    try w := expr args l w in try w := scopedBody b w in walk_clauses true cls w.
Proof. intros H. cbn [walk_node]. by rewrite H. Qed.

Lemma walk_loop name args l b cls w : block_kind_of name = bkLoop →
  walk_node (BlockNode name args l b cls) w =
    try la := loopArgs name args l w in
    let '(binder, elem, w) := la in
    try _ok := checkBindable binder l in
    try w := walk_body b (wbind "forloop" forloopShape (wbind binder elem (push w))) in
    walk_clauses false cls (pop w).
Proof. intros H. cbn [walk_node]. by rewrite H. Qed.

Lemma walked_body_intro l : Forall (λ n, ∀ w w', walk_node n w = Ok w' → disciplined n w = true → walked n w w') l →
  ∀ w w', walk_body l w = Ok w' → disciplined_body l w = true → walked_body l w w'.
Proof.
  induction 1 as [|c rest Hc _ IH]; intros w w'; cbn [walk_body disciplined_body]; [intros [= ->]; constructor|].
  destruct (walk_node c w) as [w1|] eqn:Hw; [|done]. intros. split_bools. econstructor; eauto.
Qed.

Lemma walked_clauses_intro conds cls :
  Forall (λ c, Forall (λ n, ∀ w w', walk_node n w = Ok w' → disciplined n w = true → walked n w w') c.2) cls →
  ∀ w w', walk_clauses conds cls w = Ok w' → disciplined_clauses conds cls w = true → walked_clauses conds cls w w'.
Proof.
  induction 1 as [|[[cargs cl] cbody] rest Hc _ IH]; intros w w'; cbn [walk_clauses disciplined_clauses];
    [intros [= ->]; constructor|].
  destruct (if _ : bool then _ else _) as [w1|] eqn:Hw1; [|done]. unfold scopedBody.
  destruct (walk_body cbody (push w1)) as [w2|] eqn:Hb; [|done]. intros. split_bools.
  econstructor; [done| |]; [by eapply walked_body_intro|by apply IH].
Qed.

Lemma checkBindable_ok x l u : checkBindable x l = Ok u → x ≠ "forloop".
Proof. unfold checkBindable, reservedBindings. by case_bool_decide. Qed.

Lemma walked_intro n : ∀ w w', walk_node n w = Ok w' → disciplined n w = true → walked n w w'.
Proof.
  induction n as [l IH| | |name args l b cls IHb IHc| | |] using node_nested_ind; intros w w' Hw Hd.
  - constructor. exact (walked_body_intro _ IH _ _ Hw Hd).
  - by constructor.
  - by constructor.
  - destruct (block_kind_of name) eqn:Hk.
    + cbn [walk_node] in Hw. rewrite Hk in Hw. injection Hw as <-. by constructor.
    + rewrite walk_branch in Hw by done. cbn [disciplined] in Hd. rewrite Hk in Hd.
      destruct (expr args l w) as [w1|] eqn:He; [|done]. unfold scopedBody in *.
      destruct (walk_body b (push w1)) as [w2|] eqn:Hb; [|done]. split_bools.
      eapply walked_branch; [done..| |]; [by eapply walked_body_intro|by eapply walked_clauses_intro].
    + rewrite walk_loop in Hw by done. cbn [disciplined] in Hd. rewrite Hk in Hd.
      destruct (loopArgs name args l w) as [[[binder elem] w1]|] eqn:Hl; [|done].
      destruct (checkBindable binder l) eqn:Hcb; [|done]. apply checkBindable_ok in Hcb.
      destruct (walk_body b _) as [w2|] eqn:Hb; [|done]. split_bools.
      eapply walked_loop; [done..| |]; [by eapply walked_body_intro|by eapply walked_clauses_intro].
    + assert (name = "capture") as ->.
      { unfold block_kind_of in Hk. by repeat case_bool_decide. }
      cbn [walk_node disciplined] in Hw, Hd. rewrite Hk in Hw, Hd.
      destruct (capture_target args l) as [x|] eqn:Hx; [|done]. split_bools.
      change (match scopedBody b w with Ok w1 => Ok (wbind x (if w_taintedEmissions w <? w_taintedEmissions w1
        then taintedString else stringShape) w1) | Err e => Err e end = Ok w') in Hw.
      unfold scopedBody in Hw. destruct (walk_body b (push w)) as [w1|] eqn:Hb; [|done]. injection Hw as <-.
      eapply (walked_capture _ _ _ _ _ _ w1); [done..|by eapply walked_body_intro].
    + cbn [walk_node] in Hw. by rewrite Hk in Hw.
  - injection Hw as <-. constructor.
  - injection Hw as <-. constructor.
  - done.
Qed.
End discipline.

(** ** Scopes and environments *)

Lemma assoc_set_lookup {A} x y (a : A) l : assoc y (assoc_set x a l) = if bool_decide (y = x) then Some a else assoc y l.
Proof.
  unfold assoc_set. cbn [assoc]. destruct (decide (x = y)) as [->|Hne].
  { by rewrite !bool_decide_eq_true_2 by done. }
  rewrite !bool_decide_eq_false_2 by done. induction l as [|[n b] l IH]; [done|]. rewrite filter_cons. cbn [assoc].
  case_decide; cbn [assoc fst] in *; repeat case_bool_decide; subst; naive_solver.
Qed.

Lemma lookup_set x y s top rest :
  lookup_scopes y (assoc_set x s top :: rest) = if bool_decide (y = x) then Some s else lookup_scopes y (top :: rest).
Proof. cbn [lookup_scopes]. rewrite assoc_set_lookup. by case_bool_decide. Qed.

Lemma unbound_None x scopes : unbound x scopes = true → lookup_scopes x scopes = None.
Proof. unfold unbound. by destruct (lookup_scopes x scopes). Qed.

Lemma apart_set x s top rest :
  apart (top :: rest) → wf_shape s = true →
  (if bool_decide (x = "forloop") then sh_tainted s = false else lookup_scopes x rest = None) →
  apart (assoc_set x s top :: rest).
Proof.
  intros [Ht Hr] Hs Hx. split; [|done]. intros y s'. rewrite assoc_set_lookup.
  destruct (bool_decide (y = x)) eqn:Hy; [|apply Ht]. apply bool_decide_eq_true in Hy as ->. by intros [= <-].
Qed.

Lemma agree_set x s v1 v2 top rest σ1 σ2 :
  agree (top :: rest) σ1 σ2 → rel s v1 v2 → x ≠ "forloop" →
  agree (assoc_set x s top :: rest) (env_set σ1 x v1) (env_set σ2 x v2).
Proof.
  intros [Ha Hf] Hr Hx. split; [|by unfold env_set; rewrite bool_decide_eq_false_2 by done].
  intros y s'. rewrite lookup_set. unfold env_set. case_bool_decide; [by intros [= <-]|apply Ha].
Qed.

Lemma agree_set_hidden x v1 v2 scopes σ1 σ2 :
  lookup_scopes x scopes = None → x ≠ "forloop" →
  agree scopes σ1 σ2 → agree scopes (env_set σ1 x v1) (env_set σ2 x v2).
Proof.
  intros Hn Hx [Ha Hf]. split; [|by unfold env_set; rewrite bool_decide_eq_false_2 by done].
  intros y s' Hy. unfold env_set. case_bool_decide; [congruence|by apply Ha].
Qed.

Lemma agree_set_forloop v scopes σ1 σ2 :
  apart scopes → agree scopes σ1 σ2 → agree scopes (env_set σ1 "forloop" v) (env_set σ2 "forloop" v).
Proof.
  intros Hap [Ha Hf]. split; [|by unfold env_set; rewrite bool_decide_eq_true_2 by done].
  intros y s' Hy. unfold env_set. case_bool_decide as Hn; [|by apply Ha].
  subst. apply rel_same. by eapply apart_forloop.
Qed.

Lemma agree_push scopes σ1 σ2 : agree scopes σ1 σ2 → agree ([] :: scopes) σ1 σ2.
Proof. done. Qed.

Lemma apart_push scopes : apart scopes → apart ([] :: scopes).
Proof. by split. Qed.

(** ** What the walk checks *)

Section checks.
Context {L : LexTables} {T : GoTables}.

Lemma check_segs_shape_at r l i s segs s' : check_segs r l i s segs = Ok s' → shape_at s segs = s'.
Proof.
  revert i s. induction segs as [|seg rest IH]; intros i s; cbn [check_segs shape_at]; [by intros [= ->]|].
  destruct (_ && _); [done|]. destruct (access s seg); [apply IH|done].
Qed.

Lemma check_segs_clean r l i s segs s' : check_segs r l i s segs = Ok s' → clean s = true → clean s' = true.
Proof.
  revert i s. induction segs as [|seg rest IH]; intros i s; cbn [check_segs]; [by intros [= ->]|].
  destruct (_ && _); [done|]. destruct (access s seg) eqn:Ha; [|done]. intros H Hs. eauto using access_clean.
Qed.

Lemma check_segs_wf r l i s segs s' : check_segs r l i s segs = Ok s' → wf_shape s = true → wf_shape s' = true.
Proof.
  revert i s. induction segs as [|seg rest IH]; intros i s; cbn [check_segs]; [by intros [= ->]|].
  destruct (_ && _) eqn:Hc; [done|]. destruct (access s seg) eqn:Ha; [|done]. intros H Hs. eauto using wf_access.
Qed.

(** A reference the walk accepts: the shape it ends at, and whether it counts as an
    emission of fenced content. *)
Lemma checkRef_ok r l bare w w' : checkRef r l bare w = Ok w' →
  ∃ s s', wlookup w (rf_root r) = Some s ∧ check_segs r l 0 s (rf_segs r) = Ok s' ∧
    w_scopes w' = w_scopes w ∧
    w_taintedEmissions w' = w_taintedEmissions w + (if sh_tainted s' then 1 else 0) ∧
    (bare = false → sh_tainted s' = false).
Proof.
  unfold checkRef. destruct (wlookup w (rf_root r)) as [s|]; [|done].
  destruct (check_segs r l 0 s (rf_segs r)) as [s'|] eqn:Hc; [|done]. intros H. exists s, s'.
  destruct (sh_tainted s'); [destruct bare; [|done]|]; simplify_eq/=; split_and!; auto with lia; done.
Qed.

Lemma check_refs_false refs l w w' : check_refs refs l false w = Ok w' →
  w_scopes w' = w_scopes w ∧ w_taintedEmissions w' = w_taintedEmissions w
  ∧ ∀ r, r ∈ refs → ∃ w1 w2, w_scopes w1 = w_scopes w ∧ checkRef r l false w1 = Ok w2.
Proof.
  revert w. induction refs as [|r rest IH]; intros w; cbn [check_refs].
  { intros [= ->]. split_and!; [done..|]. by intros r ?%not_elem_of_nil. }
  destruct (checkRef r l false w) as [w1|] eqn:Hr; [|done]. intros (Hs & Ht & H)%IH.
  pose proof Hr as (s & s' & _ & _ & Hs1 & Ht1 & Hb)%checkRef_ok. rewrite (Hb eq_refl) in Ht1.
  split_and!; [congruence|lia|]. intros r' [->|Hin]%elem_of_cons; [by exists w, w1|].
  destruct (H _ Hin) as (w2 & w3 & ? & ?). exists w2, w3. split; congruence.
Qed.

Lemma add_filters l w fs :
  w_scopes (foldl (add_filter l) w fs) = w_scopes w
  ∧ w_taintedEmissions (foldl (add_filter l) w fs) = w_taintedEmissions w.
Proof.
  revert w. induction fs as [|f fs IH]; intros w; [done|]. cbn [foldl]. destruct (IH (add_filter l w f)) as [-> ->].
  unfold add_filter. by destruct (assoc f (w_filters w)).
Qed.

(** An expression outside an emission reads trusted values only. *)
Lemma check_false toks l w w' : check toks l false w = Ok w' →
  w_scopes w' = w_scopes w ∧ w_taintedEmissions w' = w_taintedEmissions w
  ∧ ∀ r, r ∈ refs_of toks ∨ names toks r → ∃ w1 w2, w_scopes w1 = w_scopes w ∧ checkRef r l false w1 = Ok w2.
Proof.
  unfold check, refs_of. destruct (analyze toks) as [a|] eqn:Ha; [|done].
  destruct (check_refs (an_refs a) l false w) as [w1|] eqn:Hc; [|done]. intros [= <-].
  apply check_refs_false in Hc as (? & ? & Hin). destruct (add_filters l w1 (an_filters a)) as [-> ->].
  split_and!; [done..|]. intros r [Hr|Hr]; apply Hin; [done|]. by eapply analyze_names.
Qed.

Lemma whole_refs toks r : whole_ref toks = Some r → (∃ a, analyze toks = Ok a) → ∃ rest, refs_of toks = r :: rest.
Proof.
  unfold whole_ref, refs_of, analyze. destruct toks as [|[x| | | |] toks]; try done.
  destruct (reserved x) eqn:Hx; [done|]. cbn [length analyze_loop].
  change (is_punct "|" (tokIdent x)) with false. cbn [negb]. rewrite Hx.
  destruct (parseRef x toks) as [[[r' inners] rest]|]; [|done]. destruct rest; [|done]. intros [= ->] [a Ha].
  rewrite Ha. match type of Ha with (match ?x with _ => _ end) = _ => destruct x; [|done] end.
  split_match_in Ha; simplify_eq. simpl. eauto.
Qed.

(** The shape of a reference an expression consists of is the one it was checked with. *)
Lemma wholeRefShape_ok toks l w w' r : check toks l false w = Ok w' → whole_ref toks = Some r →
  ∃ s s', wlookup w (rf_root r) = Some s ∧ check_segs r l 0 s (rf_segs r) = Ok s' ∧ sh_tainted s' = false
    ∧ wholeRefShape w' toks = s'.
Proof.
  intros Hc Hw. assert (∃ a, analyze toks = Ok a) as Ha.
  { unfold check in Hc. destruct (analyze toks); [eauto|done]. }
  destruct (whole_refs _ _ Hw Ha) as [rest Hr]. apply check_false in Hc as (Hs & _ & Hin).
  destruct (Hin r) as (w1 & w2 & Hs1 & (s & s' & Hl & Hc & _ & _ & Hb)%checkRef_ok); [left; rewrite Hr; left|].
  exists s, s'. unfold wlookup in *. rewrite Hs1 in Hl. split_and!; [done..|by apply Hb|].
  unfold wholeRefShape, wlookup. rewrite Hw, Hs, Hl. by eapply check_segs_shape_at.
Qed.

Lemma wholeRefShape_clean toks l w w' :
  check toks l false w = Ok w' → apart (w_scopes w) → clean (wholeRefShape w' toks) = true.
Proof.
  intros Hc Hap. destruct (whole_ref toks) as [r|] eqn:Hw; [|unfold wholeRefShape; by rewrite Hw].
  destruct (wholeRefShape_ok _ _ _ _ _ Hc Hw) as (s & s' & Hl & Hs & Ht & ->).
  eapply wf_untainted; [|done]. eapply check_segs_wf; [done|]. by eapply apart_wf.
Qed.

Lemma check_refs_any refs l bare w w' : check_refs refs l bare w = Ok w' →
  w_scopes w' = w_scopes w ∧ w_taintedEmissions w ≤ w_taintedEmissions w'.
Proof.
  revert w. induction refs as [|r rest IH]; intros w; cbn [check_refs]; [by intros [= ->]|].
  destruct (checkRef r l bare w) as [w1|] eqn:Hr; [|done]. intros [Hs Ht]%IH.
  apply checkRef_ok in Hr as (s & s' & _ & _ & Hs1 & Ht1 & _). split; [congruence|]. destruct (sh_tainted s'); lia.
Qed.

Lemma emission_keeps src l w w' : emission src l w = Ok w' →
  w_scopes w' = w_scopes w ∧ w_taintedEmissions w ≤ w_taintedEmissions w'.
Proof.
  unfold emission, check. destruct (lex src) as [toks|]; [|done]. destruct (analyze toks) as [a|]; [|done].
  destruct (check_refs _ _ _ _) as [w1|] eqn:Hc; [|done]. intros [= <-]. apply check_refs_any in Hc.
  by destruct (add_filters l w1 (an_filters a)) as [-> ->].
Qed.

Lemma expr_checks src l w w' : expr src l w = Ok w' →
  ∃ toks, tokens src toks ∧ check toks l false w = Ok w'.
Proof. unfold expr. destruct (lex src) as [toks|] eqn:Hl; [|done]. apply lex_exact in Hl. eauto. Qed.

Lemma expr_keeps src l w w' : expr src l w = Ok w' →
  w_scopes w' = w_scopes w ∧ w_taintedEmissions w' = w_taintedEmissions w.
Proof. intros (toks & _ & (? & ? & _)%check_false)%expr_checks. done. Qed.

Lemma check_modifiers_ok ms l w w' : check_modifiers ms l w = Ok w' →
  w_scopes w' = w_scopes w ∧ w_taintedEmissions w' = w_taintedEmissions w
  ∧ ∀ v r, v ∈ lm_value <$> ms → names v r → ∃ w1 w2, w_scopes w1 = w_scopes w ∧ checkRef r l false w1 = Ok w2.
Proof.
  revert w. induction ms as [|m ms IH]; intros w; cbn [check_modifiers].
  { intros [= ->]. split_and!; [done..|]. by intros v r ?%not_elem_of_nil. }
  unfold checkTokens. destruct (check (lm_value m) l false w) as [w1|] eqn:Hm; [|done]. intros (Hs & Ht & H)%IH.
  apply check_false in Hm as (Hs1 & Ht1 & Hin1). split_and!; [congruence..|].
  intros v r. csimpl. intros [->|Hin]%elem_of_cons Hn; [apply Hin1; by right|].
  destruct (H _ _ Hin Hn) as (w2 & w3 & ? & ?). exists w2, w3. split; congruence.
Qed.

(** A loop's element shape is trusted, and so is every value its tag names. *)
Lemma loopArgs_ok tag args l w binder elem w' : loopArgs tag args l w = Ok (binder, elem, w') → apart (w_scopes w) →
  w_scopes w' = w_scopes w ∧ w_taintedEmissions w' = w_taintedEmissions w ∧ clean elem = true
  ∧ ∃ toks collection vals, tokens args toks ∧ loop_parts toks binder collection vals
      ∧ ∀ v r, v ∈ collection :: vals → names v r → ∃ w1 w2, w_scopes w1 = w_scopes w ∧ checkRef r l false w1 = Ok w2.
Proof.
  unfold loopArgs. destruct (lex args) as [toks|] eqn:Hl; [|done]. apply lex_exact in Hl.
  destruct (parseLoop toks) as [spec|] eqn:Hp; [|done]. apply parseLoop_parts in Hp. unfold checkTokens.
  destruct (check (ls_collection spec) l false w) as [w1|] eqn:Hc; [|done].
  destruct (check_modifiers (ls_modifiers spec) l w1) as [w2|] eqn:Hm; [|done]. intros [= <- <- <-] Hap.
  pose proof (check_false _ _ _ _ Hc) as (Hs & Ht & Hin).
  apply check_modifiers_ok in Hm as (Hs2 & Ht2 & Hin2).
  assert (clean (wholeRefShape w2 (ls_collection spec)) = true) as Hcl.
  { unfold wholeRefShape, wlookup. rewrite Hs2. by apply (wholeRefShape_clean _ _ _ _ Hc). }
  split_and!; [congruence..| |].
  - destruct (sh_kind _); try done. destruct (sh_elem _) eqn:He; [|done]. by eapply clean_elem.
  - exists toks, (ls_collection spec), (lm_value <$> ls_modifiers spec). split_and!; [done..|].
    intros v r [->|Hv]%elem_of_cons Hr; [apply Hin; by right|].
    destruct (Hin2 _ _ Hv Hr) as (w3 & w4 & ? & ?). exists w3, w4. split; congruence.
Qed.

(** ** What a walk leaves *)

Definition steps (w w' : walker) : Prop :=
  apart (w_scopes w') ∧ (∃ top, w_scopes w' = top :: tl (w_scopes w))
  ∧ w_taintedEmissions w ≤ w_taintedEmissions w'.

Definition ready (w : walker) : Prop := apart (w_scopes w) ∧ ∃ top rest, w_scopes w = top :: rest.

Lemma steps_ready w w' : ready w → steps w w' → ready w'.
Proof. intros _ (? & [top Ht] & _). split; [done|eauto]. Qed.

Lemma steps_same w w' : ready w → w_scopes w' = w_scopes w → w_taintedEmissions w ≤ w_taintedEmissions w' → steps w w'.
Proof. intros (Hap & top & rest & Hs) He Ht. unfold steps. rewrite He, Hs. rewrite Hs in Hap. eauto. Qed.

Lemma steps_trans w w1 w2 : steps w w1 → steps w1 w2 → steps w w2.
Proof. intros (_ & [t1 H1] & ?) (? & [t2 H2] & ?). split; [done|]. rewrite H1 in H2. split; [eauto|lia]. Qed.

Lemma steps_pop w w' : ready w → steps (push w) w' → steps w (pop w').
Proof.
  intros (Hap & top & rest & Hs) (Ha & [t Ht] & ?). unfold steps, pop. cbn [w_scopes w_taintedEmissions].
  unfold push in *; cbn [w_scopes w_taintedEmissions tl] in *. rewrite Ht, Hs. rewrite Hs in Hap. eauto.
Qed.

Lemma ready_push w : ready w → ready (push w).
Proof. intros (Hap & _). split; [by apply apart_push|]. cbn. eauto. Qed.

Lemma wbind_scopes x s w top rest : w_scopes w = top :: rest →
  w_scopes (wbind x s w) = assoc_set x s top :: rest ∧ w_taintedEmissions (wbind x s w) = w_taintedEmissions w.
Proof. unfold wbind. by intros ->. Qed.

Lemma steps_bind x s w : ready w → x ≠ "forloop" → unbound x (tl (w_scopes w)) = true → wf_shape s = true →
  steps w (wbind x s w).
Proof.
  intros (Hap & top & rest & Hs) Hx Hu Hw. unfold steps. destruct (wbind_scopes x s w _ _ Hs) as [-> ->].
  rewrite Hs in *. split_and!; [|eauto|lia]. apply apart_set; [done..|].
  rewrite bool_decide_eq_false_2 by done. by apply unbound_None.
Qed.

Lemma ready_loop binder elem w : ready w → binder ≠ "forloop" → unbound binder (w_scopes w) = true → clean elem = true →
  let inner := wbind "forloop" forloopShape (wbind binder elem (push w)) in
  ready inner ∧ w_scopes inner = assoc_set "forloop" forloopShape (assoc_set binder elem []) :: w_scopes w
  ∧ w_taintedEmissions inner = w_taintedEmissions w.
Proof.
  intros Hr Hb Hu Hc inner.
  destruct (wbind_scopes binder elem (push w) [] (w_scopes w) eq_refl) as [H1 T1].
  destruct (wbind_scopes "forloop" forloopShape _ _ _ H1) as [H2 T2]. fold inner in H2, T2.
  split_and!; [|done|by rewrite T2, T1]. split; [|rewrite H2; eauto]. rewrite H2.
  apply apart_set; [|done..]. apply apart_set; [apply apart_push, Hr|by apply clean_wf|].
  rewrite bool_decide_eq_false_2 by done. by apply unbound_None.
Qed.

Lemma capture_target_ok args l x : capture_target args l = Ok x → tokens args [tokIdent x] ∧ x ≠ "forloop".
Proof.
  unfold capture_target. destruct (lex args) as [[|[y| | | |] [|? ?]]|] eqn:Hl; try done. apply lex_exact in Hl.
  destruct (checkBindable y l) eqn:Hc; [|done]. intros [= ->]. by apply checkBindable_ok in Hc.
Qed.

Lemma assignTag_ok args l w w' : assignTag args l w = Ok w' →
  ∃ x rhs w1, lex args = Ok (tokIdent x :: tokPunct "=" :: rhs) ∧ x ≠ "forloop" ∧ check rhs l false w = Ok w1
    ∧ w' = wbind x (wholeRefShape w1 rhs) w1.
Proof.
  unfold assignTag. destruct (lex args) as [[|[x| | | |] [|eq [|t rest]]]|]; try done.
  unfold is_punct. case_bool_decide as He; [subst|done]. cbn [negb].
  destruct (checkBindable x l) eqn:Hc; [|done]. apply checkBindable_ok in Hc. unfold checkTokens.
  destruct (check (t :: rest) l false w) as [w1|] eqn:Hk; [|done]. intros [= <-]. eauto 8.
Qed.

Lemma tag_cases name args l w w' : tag name args l w = Ok w' →
  ((name = "break" ∨ name = "continue") ∧ w' = w)
  ∨ (name = "assign" ∧ assignTag args l w = Ok w')
  ∨ (name ∉ ["break"; "continue"; "include"; "assign"] ∧ expr args l w = Ok w').
Proof.
  unfold tag. repeat case_bool_decide; intros Hw; simplify_eq; [left; set_solver|by auto|].
  right; right. split; [set_solver|done].
Qed.

Lemma tag_steps name args l w w' : ready w → tag name args l w = Ok w' → plain_tag name args w = true → steps w w'.
Proof.
  intros Hr Ht Hp. apply tag_cases in Ht as [[_ ->]|[[-> Ha]|[_ He]]].
  - by apply steps_same.
  - apply assignTag_ok in Ha as (x & rhs & w1 & Hl & Hx & Hc & ->).
    pose proof (check_false _ _ _ _ Hc) as (Hs & Htn & _).
    assert (steps w w1) as H1 by (apply steps_same; [done..|lia]).
    eapply steps_trans; [exact H1|]. apply steps_bind; [by eapply steps_ready|done| |].
    + unfold plain_tag, lexed in Hp. rewrite bool_decide_eq_true_2, Hl in Hp by done. by rewrite Hs.
    + apply clean_wf. eapply wholeRefShape_clean; [done|apply Hr].
  - apply expr_keeps in He as []. apply steps_same; [done..|lia].
Qed.

Lemma walked_steps :
  (∀ n w w', walked n w w' → ready w → steps w w')
  ∧ (∀ l w w', walked_body l w w' → ready w → steps w w')
  ∧ (∀ conds cls w w', walked_clauses conds cls w w' → ready w → steps w w').
Proof.
  apply walked_all; intros; eauto using steps_ready, steps_trans, tag_steps.
  - apply emission_keeps in e as []. by apply steps_same.
  - by apply steps_same.
  - by apply steps_same.
  - by apply steps_same.
  - apply expr_keeps in e0 as [].
    assert (steps w w1) as H1' by (apply steps_same; [done..|lia]).
    eapply steps_trans; [exact H1'|]. pose proof (steps_ready _ _ H1 H1').
    assert (steps w1 (pop w2)) by eauto using steps_pop, ready_push. eauto using steps_trans, steps_ready.
  - pose proof (loopArgs_ok _ _ _ _ _ _ _ e0 (proj1 H1)) as (Hs & Ht & Hc & _).
    assert (steps w w1) as Hw1 by (apply steps_same; [done..|lia]). pose proof (steps_ready _ _ H1 Hw1) as Hr1.
    destruct (ready_loop binder elem w1) as (Hri & Hsi & Hti); [done..|].
    specialize (H Hri). assert (steps w1 (pop w2)) as Hp.
    { destruct H as (? & [top Htop] & Hle). rewrite Hsi in Htop. cbn [tl] in Htop. apply steps_same; [done|by cbn; rewrite Htop|cbn; lia]. }
    eapply steps_trans; [exact Hw1|]. eapply steps_trans; [exact Hp|]. eauto using steps_ready.
  - apply capture_target_ok in e as [_ Hx].
    assert (steps w (pop w1)) as Hp by eauto using steps_pop, ready_push.
    eapply steps_trans; [exact Hp|]. apply steps_bind; [by eapply steps_ready|done| |by destruct (_ <? _)].
    destruct Hp as (_ & [top Htop] & _). by rewrite Htop.
  - by apply steps_same.
  - assert (steps w w1) by auto. eauto using steps_trans, steps_ready.
  - by apply steps_same.
  - assert (steps w w1) as Hw1.
    { destruct (negb conds || _); [simplify_eq; by apply steps_same|].
      apply expr_keeps in e as []. apply steps_same; [done..|lia]. }
    eapply steps_trans; [exact Hw1|]. pose proof (steps_ready _ _ H1 Hw1).
    assert (steps w1 (pop w2)) by eauto using steps_pop, ready_push. eauto using steps_trans, steps_ready.
Qed.
End checks.

(** ** Two runs of one template *)

Section flow.
Context {L : LexTables} {T : GoTables} {E : Liquid} {S : LiquidSem E}.

Lemma acc_rel s seg next v1 v2 :
  wf_shape s = true → sh_tainted s && negb (container s) = false → seg ≠ segDynamic →
  access s seg = Some next → rel s v1 v2 → rel next (acc v1 seg) (acc v2 seg).
Proof.
  intros Hw Hc Hd Ha Hr. inversion Hr as [s' v Ht|s' a b Hk Ht Hsame|s' m1 m2 Hk Ht Hf]; subst.
  - apply rel_same, clean_untainted. eauto using access_clean, wf_untainted.
  - unfold container in Hc. by rewrite Ht, Hk in Hc.
  - destruct seg as [p|p|i|]; cbn [access] in Ha; unfold property, keyIndex, index in Ha; rewrite Hk in Ha; try done;
      destruct (Hf _ _ Ha) as (a1 & a2 & H1 & H2 & Hr').
    + by rewrite (proj1 (acc_map _ _ _ H1)), (proj1 (acc_map _ _ _ H2)).
    + by rewrite (proj2 (acc_map _ _ _ H1)), (proj2 (acc_map _ _ _ H2)).
Qed.

Lemma index_clean s next : wf_shape s = true → index s = Some next → clean s = true.
Proof.
  intros Hw Hi. apply wf_untainted; [done|]. destruct s as [k fs el u t]. unfold index in Hi.
  destruct t; [|done]. simpl in *. by destruct k.
Qed.

Lemma check_segs_rel r l i s segs s' v1 v2 :
  check_segs r l i s segs = Ok s' → wf_shape s = true → rel s v1 v2 →
  if sh_tainted s' then static_segs segs = segs ∧ rel s' (foldl acc v1 segs) (foldl acc v2 segs)
  else foldl acc v1 (static_segs segs) = foldl acc v2 (static_segs segs).
Proof.
  revert i s v1 v2. induction segs as [|seg rest IH]; intros i s v1 v2; cbn [check_segs static_segs foldl].
  { intros [= ->] _ Hr. destruct (sh_tainted s') eqn:Ht; [done|by eapply rel_eq]. }
  destruct (_ && _) eqn:Hc; [done|]. destruct (access s seg) as [next|] eqn:Ha; [|done]. intros Hs Hw Hr.
  destruct (decide (seg = segDynamic)) as [->|Hd].
  - pose proof (index_clean _ _ Hw Ha) as Hcl.
    rewrite (clean_untainted s') by (eapply check_segs_clean; [done|by eapply access_clean]).
    by eapply rel_eq; [apply clean_untainted|].
  - assert (rel next (acc v1 seg) (acc v2 seg)) as Hn by (by eapply acc_rel).
    specialize (IH _ _ _ _ Hs (wf_access _ _ _ Hw Hc Ha) Hn).
    destruct seg; try done; destruct (sh_tainted s'); cbn [foldl]; try done; destruct IH; split; congruence.
Qed.

Lemma checked_rel scopes r l w bare w' σ1 σ2 :
  checkRef r l bare w = Ok w' → w_scopes w = scopes → apart scopes → agree scopes σ1 σ2 →
  ∃ s', shape_at (default anyShape (lookup_scopes (rf_root r) scopes)) (rf_segs r) = s' ∧
    w_taintedEmissions w' = w_taintedEmissions w + (if sh_tainted s' then 1 else 0) ∧ (bare = false → sh_tainted s' = false) ∧
    if sh_tainted s' then
      is_static r ∧ rel s' (foldl acc (σ1 (rf_root r)) (rf_segs r)) (foldl acc (σ2 (rf_root r)) (rf_segs r))
    else value_at acc σ1 r = value_at acc σ2 r.
Proof.
  intros (s & s' & Hl & Hs & _ & Ht & Hb)%checkRef_ok <- Hap [Hag _]. exists s'. unfold wlookup in Hl. rewrite Hl.
  split_and!; [by eapply check_segs_shape_at|done..|].
  exact (check_segs_rel _ _ _ _ _ _ _ _ Hs (apart_wf _ _ _ Hap Hl) (Hag _ _ Hl)).
Qed.

(** What the walk lets an expression read is the same in both runs. *)
Lemma checked_reads scopes l (P : ref → Prop) σ1 σ2 :
  (∀ r, P r → ∃ w1 w2, w_scopes w1 = scopes ∧ checkRef r l false w1 = Ok w2) →
  apart scopes → agree scopes σ1 σ2 → ∀ r, P r → value_at acc σ1 r = value_at acc σ2 r.
Proof.
  intros H Hap Hag r Hr. destruct (H _ Hr) as (w1 & w2 & Hs & Hc).
  destruct (checked_rel _ _ _ _ _ _ _ _ Hc Hs Hap Hag) as (s' & _ & _ & Hb & Heq). by rewrite Hb in Heq.
Qed.

Lemma check_reads toks l w w' σ1 σ2 : check toks l false w = Ok w' → apart (w_scopes w) → agree (w_scopes w) σ1 σ2 →
  agree_on acc σ1 σ2 toks.
Proof. intros (_ & _ & H)%check_false Hap Hag r Hr. apply (checked_reads (w_scopes w) l (names toks)); eauto. Qed.

Lemma expr_reads src l w w' σ1 σ2 : expr src l w = Ok w' → apart (w_scopes w) → agree (w_scopes w) σ1 σ2 →
  ∃ toks, tokens src toks ∧ agree_on acc σ1 σ2 toks.
Proof. intros (toks & Ht & Hc)%expr_checks Hap Hag. eauto using check_reads. Qed.

(** An expression that is a variable on its own is one to the grammar. *)
Lemma whole_ref_spec toks r : whole_ref toks = Some r →
  ∃ after, toks = tokIdent (rf_root r) :: after ∧ rf_root r ∉ liquid_words ∧ accesses after (rf_segs r) [].
Proof.
  unfold whole_ref. destruct toks as [|[x| | | |] toks]; try done. destruct (reserved x) eqn:Hx; [done|]. unfold parseRef.
  destruct (parse_segs (length toks) toks) as [[[segs inners] rest]|] eqn:Hp; [|done]. destruct rest; [|done].
  intros [= <-]. exists toks. split_and!; [done| |].
  - cbn [rf_root]. by apply bool_decide_eq_false in Hx.
  - destruct (parse_segs_accesses _ _ _ _ _ (Nat.le_refl _) Hp [] ltac:(by intros r; split)) as [Ha _].
    by rewrite app_nil_r in Ha.
Qed.

(** Two outcomes of one node, walked from [w] to [w']. *)
Definition outcomes (w w' : walker) (o1 o2 : outcome) : Prop :=
  o_sig o1 = o_sig o2 ∧ same_outside_fences (o_out o1) (o_out o2)
  ∧ (w_taintedEmissions w' = w_taintedEmissions w → o_out o1 = o_out o2)
  ∧ agree (match o_sig o1 with Next => w_scopes w' | _ => tl (w_scopes w) end) (o_env o1) (o_env o2).

Lemma emission_outcomes src l w w' σ1 σ2 :
  emission src l w = Ok w' → plain_emission src l w = true → ready w → agree (w_scopes w) σ1 σ2 →
  outcomes w w' (exec (ObjectNode src l) σ1) (exec (ObjectNode src l) σ2).
Proof.
  intros He Hp [Hap (top & rest & Hs)] Hag. pose proof (emission_keeps _ _ _ _ He) as [Hsc _].
  assert (agree (tl (w_scopes w)) σ1 σ2) as Hagt by (rewrite Hs in *; by eapply agree_tl).
  rewrite !exec_object. unfold outcomes.
  assert (emit σ1 src l = emit σ2 src l ∨ ∃ a b, emit σ1 src l = inl a ∧ emit σ2 src l = inl b ∧
    same_outside_fences a b ∧ w_taintedEmissions w' ≠ w_taintedEmissions w) as
    [->|(a & b & -> & -> & Hsame & Ht)]; last first.
  { cbn [o_sig o_out o_env]. rewrite Hsc. split_and!; done. }
  { destruct (emit σ2 src l); cbn [o_sig o_out o_env]; rewrite ?Hsc; split_and!; try done; apply same_refl. }
  revert He Hp. unfold emission, plain_emission, lexed, refs_of. destruct (lex src) as [toks|] eqn:Hlex; [|done].
  apply lex_exact in Hlex.
  unfold check. destruct (analyze toks) as [a|] eqn:Han; [|done]. unfold isWholeRef.
  destruct (check_refs _ _ _ w) as [w1|] eqn:Hc; [|done]. intros [= <-].
  destruct (add_filters l w1 (an_filters a)) as [_ ->].
  destruct (whole_ref toks) as [r|] eqn:Hw; last first.
  { intros _. left. apply (emit_reads _ _ _ _ _ Hlex).
    rewrite bool_decide_eq_false_2 in Hc by (by intros [??]).
    apply check_refs_false in Hc as (_ & _ & Hin). intros r Hr.
    apply (checked_reads _ _ _ _ _ Hin Hap Hag). by eapply analyze_names. }
  rewrite bool_decide_eq_true_2 in Hc by eauto.
  destruct (whole_refs _ _ Hw (ex_intro _ a Han)) as [more Hrefs]. unfold refs_of in Hrefs. rewrite Han in Hrefs.
  rewrite Hrefs in *. cbn [tl check_refs] in *. intros Hp. split_bools.
  destruct (checkRef r l true w) as [w2|] eqn:Hr; [|done].
  destruct (checked_rel _ _ _ _ _ _ _ _ Hr eq_refl Hap Hag) as (s' & Hsh & Ht & _ & Hrel).
  destruct (sh_tainted s') eqn:Htn; last first.
  { left. apply (emit_reads _ _ _ _ _ Hlex).
    destruct (check_refs more l false w) as [w3|] eqn:Hm; [|done].
    apply check_refs_false in Hm as (_ & _ & Hin).
    intros r' Hr'. apply (analyze_names _ _ _ Han) in Hr'. rewrite Hrefs in Hr'.
    apply elem_of_cons in Hr' as [->|Hr']; [done|]. by apply (checked_reads _ _ _ _ _ Hin Hap Hag). }
  right. destruct Hrel as [Hst Hrel]. apply check_refs_any in Hc as [_ Hge].
  assert (container s' = false) as Hk.
  { unfold wholeRefShape, wlookup in H0. rewrite Hw in H0. unfold checkRef, wlookup in Hr.
    destruct (lookup_scopes (rf_root r) (w_scopes w)) eqn:Hlk; [|done]. simpl in Hsh. by rewrite Hsh, Htn in H0. }
  inversion Hrel as [? ? Hf|? x y _ _ Hsame Hs' Hx Hy|? m1 m2 Hk' _ _]; subst; [congruence| |].
  - destruct (whole_ref_spec _ _ Hw) as (after & -> & Hnw & Hacc).
    exists x, y. rewrite (emit_whole σ1 src l _ _ _ Hlex Hnw Hacc Hst), (emit_whole σ2 src l _ _ _ Hlex Hnw Hacc Hst) by congruence.
    rewrite <-Hx, <-Hy, !show_string. split_and!; [done..|lia].
  - unfold container in Hk. by rewrite Hk' in Hk.
Qed.

Lemma agree_outer w w' σ1 σ2 : ready w → steps w w' → agree (w_scopes w') σ1 σ2 → agree (tl (w_scopes w)) σ1 σ2.
Proof. intros _ (Hap & [top Htop] & _). rewrite Htop in *. by apply agree_tl. Qed.

Lemma ready_outer w σ1 σ2 : ready w → agree (w_scopes w) σ1 σ2 → agree (tl (w_scopes w)) σ1 σ2.
Proof. intros [Hap (top & rest & Hs)]. rewrite Hs in *. by apply agree_tl. Qed.

(** Whatever a body did, its names are gone when its block ends. *)
Lemma outcomes_outer w w' o1 o2 : ready w → steps w w' → outcomes w w' o1 o2 → agree (tl (w_scopes w)) (o_env o1) (o_env o2).
Proof. intros Hr Hs (_ & _ & _ & Ha). destruct (o_sig o1); try done. by eapply agree_outer. Qed.

Lemma exec_loop_outcomes binder b w w2 its scopes σ1 σ2 :
  ready w → steps w w2 → tl (w_scopes w) = scopes →
  (∀ σ1 σ2 item f, agree scopes σ1 σ2 →
     agree (w_scopes w) (env_set (env_set σ1 "forloop" f) binder item) (env_set (env_set σ2 "forloop" f) binder item)) →
  (∀ σ1 σ2, agree (w_scopes w) σ1 σ2 → outcomes w w2 (exec_body exec b σ1) (exec_body exec b σ2)) →
  agree scopes σ1 σ2 →
  let o1 := exec_loop exec binder b its σ1 in let o2 := exec_loop exec binder b its σ2 in
  o_sig o1 = o_sig o2 ∧ same_outside_fences (o_out o1) (o_out o2)
  ∧ (w_taintedEmissions w2 = w_taintedEmissions w → o_out o1 = o_out o2) ∧ agree scopes (o_env o1) (o_env o2).
Proof.
  intros Hr Hst Htl Hset Hbody. revert σ1 σ2. induction its as [|it its IH]; intros σ1 σ2 Hag; cbn [exec_loop].
  { cbn. split_and!; [done|apply same_refl|done..]. }
  rewrite (proj2 Hag). pose proof (Hbody _ _ (Hset _ _ (it_item it) (it_forloop it (σ2 "forloop")) Hag)) as Ho.
  pose proof (outcomes_outer _ _ _ _ Hr Hst Ho) as Hout. rewrite Htl in Hout.
  destruct Ho as (Hsig & Hsame & Heq & _).
  set (p1 := exec_body exec b (env_set (env_set σ1 _ _) _ _)) in *.
  set (p2 := exec_body exec b (env_set (env_set σ2 _ _) _ _)) in *. rewrite <-Hsig.
  specialize (IH _ _ Hout) as (IHs & IHo & IHe & IHa).
  assert (same_outside_fences (it_before it +:+ o_out p1 +:+ it_after it) (it_before it +:+ o_out p2 +:+ it_after it)) as Hw
    by auto using same_app, same_refl.
  destruct (o_sig p1); cbn [o_sig o_out o_env]; split_and!; try done; try (by apply same_app);
    try (intros Hn; by rewrite ?Heq, ?IHe by done).
Qed.

Lemma scoped_outcomes w w1 w2 w' o1 o2 :
  ready w → w_scopes w1 = w_scopes w → w_scopes w' = w_scopes w →
  w_taintedEmissions w ≤ w_taintedEmissions w1 → w_taintedEmissions w2 ≤ w_taintedEmissions w' →
  steps (push w1) w2 → outcomes (push w1) w2 o1 o2 → outcomes w w' o1 o2.
Proof.
  intros Hr Hs1 Hs' Hc1 Hc2 Hst Ho. assert (ready (push w1)) as Hr1.
  { apply ready_push. destruct Hr as [? (top & rest & Hs)]. split; [congruence|]. rewrite Hs1. eauto. }
  pose proof (outcomes_outer _ _ _ _ Hr1 Hst Ho) as Ha. cbn [push w_scopes tl] in Ha. rewrite Hs1 in Ha.
  destruct Ho as (Hsig & Hsame & Heq & _), Hst as (_ & _ & Hle). cbn [push w_taintedEmissions] in *.
  split_and!; [done..| |].
  - intros. apply Heq. lia.
  - destruct (o_sig o1); [by rewrite Hs'|by apply ready_outer..].
Qed.

Lemma clauses_closed conds cls w w' : walked_clauses conds cls w w' → ready w →
  w_scopes w' = w_scopes w ∧ w_taintedEmissions w ≤ w_taintedEmissions w'.
Proof.
  induction 1 as [|conds cargs cl cbody rest w w1 w2 w3 Hc Hb _ IH]; intros Hr; [done|].
  assert (w_scopes w1 = w_scopes w ∧ w_taintedEmissions w1 = w_taintedEmissions w) as [Hs1 Ht1].
  { destruct (negb conds || _); [by simplify_eq|]. by apply expr_keeps in Hc. }
  assert (ready w1) as Hr1 by (eapply steps_ready; [done|apply steps_same; [done..|lia]]).
  pose proof (proj1 (proj2 walked_steps) _ _ _ Hb (ready_push _ Hr1)) as Hst.
  pose proof (steps_ready _ _ Hr1 (steps_pop _ _ Hr1 Hst)) as Hr2.
  destruct (IH Hr2) as [Hs3 Ht3]. destruct Hst as (_ & [top Htop] & Hle). cbn in Hs3, Ht3, Hle.
  rewrite Htop in Hs3. cbn in Hs3. split; [congruence|lia].
Qed.

Lemma tag_outcomes name args l w w' σ1 σ2 :
  tag name args l w = Ok w' → plain_tag name args w = true → ready w → agree (w_scopes w) σ1 σ2 →
  outcomes w w' (exec (TagNode name args l) σ1) (exec (TagNode name args l) σ2).
Proof.
  intros Ht Hp Hr Hag. pose proof (ready_outer _ _ _ Hr Hag) as Hagt.
  apply tag_cases in Ht as [[[->| ->] ->]|[[-> Ha]|[Hn He]]].
  - rewrite !exec_break. by split_and!; [|apply same_refl|..].
  - rewrite !exec_continue. by split_and!; [|apply same_refl|..].
  - apply assignTag_ok in Ha as (x & rhs & w1 & Hl & Hx & Hc & ->). apply lex_exact in Hl. rewrite !(exec_assign _ _ _ _ _ Hl).
    pose proof (check_false _ _ _ _ Hc) as (Hs & Htn & Hin).
    assert (assigned σ1 args l = assigned σ2 args l) as ->.
    { apply (assigned_reads _ _ _ _ _ _ Hl). exact (check_reads _ _ _ _ _ _ Hc (proj1 Hr) Hag). }
    destruct (assigned σ2 args l) as [v|e]; unfold outcomes; cbn [o_sig o_out o_env];
      split_and!; try done; try apply same_refl.
    destruct (proj2 Hr) as (top & rest & Hsc). rewrite Hsc in Hs, Hag.
    rewrite (proj1 (wbind_scopes _ _ _ _ _ Hs)). apply agree_set; [done| |done].
    apply rel_same, clean_untainted. by eapply wholeRefShape_clean; [|apply Hr].
  - destruct (expr_reads _ _ _ _ _ _ He (proj1 Hr) Hag) as (toks & Htk & Hre).
    rewrite !exec_other by done. rewrite (other_reads σ1 σ2 _ _ _ toks) by (try apply Hag; done).
    apply expr_keeps in He as [Hs Htn].
    destruct (other_tag σ2 name args l) as [[out f]|e]; unfold outcomes; cbn [o_sig o_out o_env];
      split_and!; try done; try apply same_refl. rewrite Hs. by apply agree_set_forloop; [apply Hr|].
Qed.

Lemma outcomes_nothing w w' σ1 σ2 : w_scopes w' = w_scopes w → agree (w_scopes w) σ1 σ2 →
  outcomes w w' (MkOutcome σ1 "" Next) (MkOutcome σ2 "" Next).
Proof. intros Hs Ha. unfold outcomes; cbn. rewrite Hs. split_and!; [done|apply same_refl|done..]. Qed.

Lemma outcomes_text w s σ1 σ2 : agree (w_scopes w) σ1 σ2 → outcomes w w (MkOutcome σ1 s Next) (MkOutcome σ2 s Next).
Proof. intros Ha. split_and!; [done|apply same_refl|done..]. Qed.

Lemma outcomes_failed w w' e σ1 σ2 : ready w → agree (w_scopes w) σ1 σ2 →
  outcomes w w' (MkOutcome σ1 "" (Failed e)) (MkOutcome σ2 "" (Failed e)).
Proof. intros Hr Ha. split_and!; [done|apply same_refl|done|]. by apply ready_outer. Qed.

Lemma outcomes_seq w w1 w2 o1 o2 p1 p2 :
  ready w → steps w w1 → steps w1 w2 → outcomes w w1 o1 o2 → o_sig o1 = Next → outcomes w1 w2 p1 p2 →
  outcomes w w2 (MkOutcome (o_env p1) (o_out o1 +:+ o_out p1) (o_sig p1)) (MkOutcome (o_env p2) (o_out o2 +:+ o_out p2) (o_sig p2)).
Proof.
  intros Hr (_ & [t1 Ht1] & H1) (_ & _ & H2) (_ & Hs1 & He1 & _) _ (Hsg & Hs2 & He2 & Ha).
  unfold outcomes; cbn [o_sig o_out o_env]. split_and!; [done|by apply same_app| |].
  - intros. rewrite He1, He2 by lia. done.
  - rewrite Ht1 in Ha. by destruct (o_sig p1).
Qed.

Lemma outcomes_stop w w1 w2 o1 o2 : o_sig o1 ≠ Next → steps w w1 → steps w1 w2 → outcomes w w1 o1 o2 → outcomes w w2 o1 o2.
Proof.
  intros Hn (_ & _ & H1) (_ & _ & H2) (Hsg & Hs & He & Ha). split_and!; [done..| |].
  - intros. apply He. lia.
  - by destruct (o_sig o1).
Qed.

Lemma outcomes_from w w1 w' o1 o2 : w_scopes w1 = w_scopes w →
  w_taintedEmissions w ≤ w_taintedEmissions w1 ≤ w_taintedEmissions w' → outcomes w1 w' o1 o2 → outcomes w w' o1 o2.
Proof.
  intros Hs Hle (Hsg & Hsm & He & Ha). rewrite Hs in Ha. split_and!; [done..| |done]. intros. apply He. lia.
Qed.

(** Entering a pass of a loop, and leaving the loop. *)
Lemma agree_loop binder elem scopes item f σ1 σ2 :
  binder ≠ "forloop" → clean elem = true → agree scopes σ1 σ2 →
  agree (assoc_set "forloop" forloopShape (assoc_set binder elem []) :: scopes)
    (env_set (env_set σ1 "forloop" f) binder item) (env_set (env_set σ2 "forloop" f) binder item).
Proof.
  intros Hb Hc [Ha Hf]. unfold env_set. split; [|by rewrite bool_decide_eq_false_2, bool_decide_eq_true_2 by done].
  intros y s. rewrite !lookup_set. destruct (decide (y = "forloop")) as [->|Hy].
  { rewrite bool_decide_eq_true_2, bool_decide_eq_false_2 by done. intros [= <-]. by apply rel_same. }
  rewrite bool_decide_eq_false_2 by done. case_bool_decide; [by intros [= <-]; apply rel_same, clean_untainted|apply Ha].
Qed.

Lemma agree_restored binder scopes σ1 σ2 τ1 τ2 :
  binder ≠ "forloop" → lookup_scopes binder scopes = None → apart scopes → agree scopes σ1 σ2 → agree scopes τ1 τ2 →
  agree scopes (env_set (env_set τ1 binder (σ1 binder)) "forloop" (σ1 "forloop"))
    (env_set (env_set τ2 binder (σ2 binder)) "forloop" (σ2 "forloop")).
Proof.
  intros Hb Hn Hap [_ Hf] Ht. rewrite Hf. apply agree_set_forloop; [done|]. by apply agree_set_hidden.
Qed.

Lemma branch_outcomes w w1 w2 w3 b cls i σ1 σ2 :
  ready w → w_scopes w1 = w_scopes w → w_taintedEmissions w1 = w_taintedEmissions w →
  steps (push w1) w2 → w_scopes w3 = w_scopes w → w_taintedEmissions w2 ≤ w_taintedEmissions w3 →
  outcomes (push w1) w2 (exec_body exec b σ1) (exec_body exec b σ2) →
  (∀ j c, cls !! j = Some c → outcomes (pop w2) w3 (exec_body exec c.2 σ1) (exec_body exec c.2 σ2)) →
  agree (w_scopes w) σ1 σ2 →
  outcomes w w3 (exec_nth exec i b cls σ1) (exec_nth exec i b cls σ2).
Proof.
  intros Hr Hs1 Ht1 Hst Hs3 Ht3 Hb Hc Hag. destruct i as [|j]; cbn [exec_nth].
  - eapply (scoped_outcomes w w1 w2 w3); try done; lia.
  - destruct (cls !! j) as [c|] eqn:Hj; [|by apply outcomes_nothing].
    destruct Hst as (Hap & [top Htop] & Hle). cbn in Htop, Hle.
    eapply outcomes_from; [| |by eapply Hc]; cbn; [by rewrite Htop|lia].
Qed.

(** What the induction says of a body and of the clauses of a block. *)
Definition alike_body (l : list node) (w w' : walker) : Prop :=
  ready w → ∀ σ1 σ2, agree (w_scopes w) σ1 σ2 → outcomes w w' (exec_body exec l σ1) (exec_body exec l σ2).

Definition alike_clauses (conds : bool) (cls : list (string * loc * list node)) (w w' : walker) : Prop :=
  ready w → ∀ σ1 σ2, agree (w_scopes w) σ1 σ2 →
    (∀ c, conds = true → c ∈ cls → ∃ toks, tokens c.1.1 toks ∧ agree_on acc σ1 σ2 toks)
    ∧ ∀ j c, cls !! j = Some c → outcomes w w' (exec_body exec c.2 σ1) (exec_body exec c.2 σ2).

Lemma body_steps l w w' : walked_body l w w' → ready w → steps w w'.
Proof. apply walked_steps. Qed.

Lemma popped_scopes w w' : steps (push w) w' → w_scopes (pop w') = w_scopes w.
Proof. intros (_ & [top Htop] & _). cbn in Htop. cbn. by rewrite Htop. Qed.

Lemma ready_same w w' : ready w → w_scopes w' = w_scopes w → ready w'.
Proof. intros [? (top & rest & ?)] Hs. split; [congruence|rewrite Hs; eauto]. Qed.

Lemma branch_alike name args l b cls w w1 w2 w3 :
  block_kind_of name = bkBranch → expr args l w = Ok w1 →
  walked_body b (push w1) w2 → alike_body b (push w1) w2 →
  walked_clauses true cls (pop w2) w3 → alike_clauses true cls (pop w2) w3 →
  ready w → ∀ σ1 σ2, agree (w_scopes w) σ1 σ2 →
  outcomes w w3 (exec (BlockNode name args l b cls) σ1) (exec (BlockNode name args l b cls) σ2).
Proof.
  intros Hk He Hb IHb Hc IHc Hr σ1 σ2 Hag. rewrite !exec_branch by done.
  pose proof (expr_reads _ _ _ _ _ _ He (proj1 Hr) Hag) as Hre.
  apply expr_keeps in He as [Hs1 Ht1]. pose proof (ready_same _ _ Hr Hs1) as Hr1.
  pose proof (body_steps _ _ _ Hb (ready_push _ Hr1)) as Hst.
  pose proof (popped_scopes _ _ Hst) as Hs2. rewrite Hs1 in Hs2. pose proof (ready_same _ _ Hr Hs2) as Hr2.
  pose proof (clauses_closed _ _ _ _ Hc Hr2) as [Hs3 Ht3]. rewrite Hs2 in Hs3.
  destruct (IHc Hr2 σ1 σ2) as [Hcr Hcb]; [by rewrite Hs2|].
  rewrite (choose_reads σ1 σ2); last first.
  { intros src [->|Hin]%elem_of_cons; [done|].
    apply list_elem_of_fmap in Hin as (c & -> & Hin). by eapply Hcr. }
  destruct (choose σ2 name args l _) as [[i|]|e]; [|by apply outcomes_nothing|by apply outcomes_failed].
  eapply (branch_outcomes w w1 w2); try done. apply IHb; [by apply ready_push|]. cbn. by rewrite Hs1.
Qed.

Lemma loop_alike name args l b cls w binder elem w1 w2 w3 :
  block_kind_of name = bkLoop → loopArgs name args l w = Ok (binder, elem, w1) →
  binder ≠ "forloop" → unbound binder (w_scopes w1) = true →
  walked_body b (wbind "forloop" forloopShape (wbind binder elem (push w1))) w2 →
  alike_body b (wbind "forloop" forloopShape (wbind binder elem (push w1))) w2 →
  walked_clauses false cls (pop w2) w3 → alike_clauses false cls (pop w2) w3 →
  ready w → ∀ σ1 σ2, agree (w_scopes w) σ1 σ2 →
  outcomes w w3 (exec (BlockNode name args l b cls) σ1) (exec (BlockNode name args l b cls) σ2).
Proof.
  intros Hk Hl Hnf Hub Hb IHb Hc IHc Hr σ1 σ2 Hag.
  pose proof (loopArgs_ok _ _ _ _ _ _ _ Hl (proj1 Hr)) as (Hs1 & Ht1 & Hcl & toks & coll & vals & Htk & Hpt & Hin).
  assert (∀ v, v ∈ coll :: vals → agree_on acc σ1 σ2 v) as Hre.
  { intros v Hv r Hn. eapply (checked_reads (w_scopes w) l (names v)); [|apply Hr|done..]. intros r'. by apply Hin. }
  assert (plan σ1 name args l = plan σ2 name args l) as Hplan.
  { apply (plan_reads _ _ _ _ _ _ _ _ _ Htk Hpt); [apply Hre; left|]. intros; apply Hre. by right. }
  destruct Hpt as (o & fs & ms & -> & _). rewrite !(exec_iterate _ _ _ _ _ _ _ _ Hk Htk), Hplan.
  destruct (ready_loop binder elem w1) as (Hri & Hsi & Hti); [by eapply ready_same|done..|].
  set (inner := wbind "forloop" _ _) in *. pose proof (body_steps _ _ _ Hb Hri) as Hst.
  assert (w_scopes (pop w2) = w_scopes w) as Hs2.
  { destruct Hst as (_ & [top Htop] & _). rewrite Hsi in Htop. cbn in Htop. cbn. by rewrite Htop. }
  pose proof (ready_same _ _ Hr Hs2) as Hr2.
  pose proof (clauses_closed _ _ _ _ Hc Hr2) as [Hs3 Ht3]. rewrite Hs2 in Hs3. cbn in Ht3.
  destruct (IHc Hr2 σ1 σ2) as [_ Hcb]; [by rewrite Hs2|]. pose proof (proj2 (proj2 Hst)) as Hle.
  destruct (plan σ2 name args l) as [[|it its]|e]; [| |by apply outcomes_failed].
  - cbn [exec_nth]. destruct (cls !! 0%nat) as [c|] eqn:Hj; [|by apply outcomes_nothing].
    eapply outcomes_from; [exact Hs2|cbn; lia|by eapply Hcb].
  - destruct (exec_loop_outcomes binder b inner w2 (it :: its) (w_scopes w) σ1 σ2) as (Hsg & Hsm & He & Ha);
      [done..|by rewrite Hsi| | |done|].
    { intros. rewrite Hsi, Hs1. by apply agree_loop. }
    { intros. by apply IHb. }
    apply unbound_None in Hub. rewrite Hs1 in Hub.
    pose proof (agree_restored _ _ _ _ _ _ Hnf Hub (proj1 Hr) Hag Ha) as Hrest.
    unfold outcomes; cbn [o_sig o_out o_env]. split_and!; [done..| |].
    + intros. apply He. lia.
    + destruct (o_sig _); [by rewrite Hs3|by apply ready_outer..].
Qed.

Lemma capture_alike args l b cls w x w1 :
  capture_target args l = Ok x → walked_body b (push w) w1 → alike_body b (push w) w1 →
  ready w → ∀ σ1 σ2, agree (w_scopes w) σ1 σ2 →
  outcomes w (wbind x (if w_taintedEmissions w <? w_taintedEmissions w1 then taintedString else stringShape) (pop w1))
    (exec (BlockNode "capture" args l b cls) σ1) (exec (BlockNode "capture" args l b cls) σ2).
Proof.
  intros Hx Hb IHb Hr σ1 σ2 Hag. apply capture_target_ok in Hx as [Hlx Hnf].
  rewrite !(exec_capture _ _ _ _ _ _ Hlx). cbv zeta. pose proof (ready_push _ Hr) as Hrp.
  pose proof (body_steps _ _ _ Hb Hrp) as Hst. specialize (IHb Hrp _ _ Hag).
  pose proof (outcomes_outer _ _ _ _ Hrp Hst IHb) as Ho. cbn in Ho.
  destruct IHb as (Hsg & Hsm & He & _). cbn in He. rewrite <-Hsg. destruct (proj2 Hr) as (top & rest & Hsc).
  pose proof (popped_scopes _ _ Hst) as Hs1. rewrite Hsc in Hs1.
  pose proof (proj2 (proj2 Hst)) as Hle. cbn in Hle. unfold outcomes.
  destruct (o_sig (exec_body exec b σ1)); cbn [o_sig o_out o_env]; split_and!; try done; try apply same_refl;
    try (by apply ready_outer).
  rewrite (proj1 (wbind_scopes _ _ _ _ _ Hs1)). rewrite Hsc in Ho. apply agree_set; [done| |done].
  destruct (_ <? _) eqn:Hlt; [by apply rel_text|]. apply Z.ltb_ge in Hlt. rewrite He by lia. by apply rel_same.
Qed.

Lemma clause_alike conds cargs cl cbody rest w w1 w2 w3 :
  (if negb conds || bool_decide (cargs = "") then Ok w else expr cargs cl w) = Ok w1 →
  walked_body cbody (push w1) w2 → alike_body cbody (push w1) w2 →
  walked_clauses conds rest (pop w2) w3 → alike_clauses conds rest (pop w2) w3 →
  alike_clauses conds ((cargs, cl, cbody) :: rest) w w3.
Proof.
  intros Hc Hb IHb Hcs IHc Hr σ1 σ2 Hag.
  assert (w_scopes w1 = w_scopes w ∧ w_taintedEmissions w1 = w_taintedEmissions w
    ∧ (conds = true → ∃ toks, tokens cargs toks ∧ agree_on acc σ1 σ2 toks)) as (Hs1 & Ht1 & Hre).
  { destruct conds; cbn [negb orb] in Hc; [|by simplify_eq]. case_bool_decide as Hn.
    { simplify_eq. split_and!; [done..|]. intros _. exists []. split; [constructor|].
      intros r (before & ? & ? & Hno & _). by destruct before. }
    pose proof (expr_reads _ _ _ _ _ _ Hc (proj1 Hr) Hag). by apply expr_keeps in Hc as []. }
  pose proof (ready_same _ _ Hr Hs1) as Hr1. pose proof (body_steps _ _ _ Hb (ready_push _ Hr1)) as Hst.
  pose proof (popped_scopes _ _ Hst) as Hs2. rewrite Hs1 in Hs2. pose proof (ready_same _ _ Hr Hs2) as Hr2.
  pose proof (clauses_closed _ _ _ _ Hcs Hr2) as [Hs3 Ht3]. pose proof (proj2 (proj2 Hst)) as Hle. cbn in Hle, Ht3.
  destruct (IHc Hr2 σ1 σ2) as [Hcr Hcb]; [by rewrite Hs2|]. split.
  - intros c Hcond [->|Hin]%elem_of_cons; [by apply Hre|by eapply Hcr].
  - intros [|j] c Hj; cbn in Hj.
    + injection Hj as <-. eapply (scoped_outcomes w w1 w2 w3); try done; [congruence|lia|].
      apply IHb; [by apply ready_push|]. cbn. by rewrite Hs1.
    + eapply outcomes_from; [exact Hs2|cbn; lia|by eapply Hcb].
Qed.

(** The induction: what is walked runs alike. *)
Lemma walked_outcomes :
  (∀ n w w', walked n w w' → ready w → ∀ σ1 σ2, agree (w_scopes w) σ1 σ2 → outcomes w w' (exec n σ1) (exec n σ2))
  ∧ (∀ l w w', walked_body l w w' → alike_body l w w')
  ∧ (∀ conds cls w w', walked_clauses conds cls w w' → alike_clauses conds cls w w').
Proof.
  apply walked_all.
  - intros l w w' _ IH Hr σ1 σ2 Hag. rewrite !exec_seq. by apply IH.
  - intros. by apply emission_outcomes.
  - intros. by apply tag_outcomes.
  - intros s w Hr σ1 σ2 Hag. rewrite !exec_text. by apply outcomes_text.
  - intros s w Hr σ1 σ2 Hag. rewrite !exec_raw. by apply outcomes_text.
  - intros name args l b cls w Hk Hr σ1 σ2 Hag. rewrite !exec_dead by done. by apply outcomes_text.
  - intros. by eapply branch_alike.
  - intros. by eapply loop_alike.
  - intros. by eapply capture_alike.
  - intros w Hr σ1 σ2 Hag. by apply outcomes_nothing.
  - intros c rest w w1 w2 Hc IHc Hb IHb Hr σ1 σ2 Hag. cbn [exec_body].
    pose proof (proj1 walked_steps _ _ _ Hc Hr) as H1. pose proof (steps_ready _ _ Hr H1) as Hr1.
    pose proof (body_steps _ _ _ Hb Hr1) as H2.
    specialize (IHc Hr _ _ Hag). pose proof (proj1 IHc) as Hsg. rewrite <-Hsg.
    destruct (o_sig (exec c σ1)) eqn:Hsig; try (eapply outcomes_stop; [by rewrite Hsig|done..]).
    eapply outcomes_seq; [done..|]. apply IHb; [done|]. destruct IHc as (_ & _ & _ & Ha). by rewrite Hsig in Ha.
  - intros conds w Hr σ1 σ2 Hag. split; [by intros ? _ ?%not_elem_of_nil|done].
  - intros. by eapply clause_alike.
Qed.

End flow.

(** ** From the bindings *)

(** An attempt without what others wrote. *)
Definition trusted_issue (i : Issue) : Issue :=
  MkIssue (is_Identifier i) "" "" (is_Labels i) (is_State i) (is_Assignees i) (is_Blockers i) (is_URL i)
    (is_CreatedAt i) (is_UpdatedAt i) "" false.
Definition trusted_run (r : Run) : Run := MkRun (run_ID r) (run_PreviousOutcome r) "".
Definition trusted_part (v : Vars) : Vars :=
  MkVars (trusted_issue (v_Issue v)) (v_Attempt v) (v_Workspace v) (v_TargetBranch v) (trusted_run (v_Run v)).

Lemma root_ready : ready newWalker.
Proof.
  split; [|unfold newWalker; cbn; eauto]. split; [|done]. intros x s.
  assert (forallb (λ p, wf_shape p.2 && negb (bool_decide (p.1 = "forloop"))) rootScope = true) as Hall by (vm_compute; done).
  revert Hall. generalize rootScope. intros l.
  induction l as [|[n f] l IH]; cbn [assoc forallb]; [done|]. intros Hall Hs. split_bools.
  destruct (bool_decide (n = x)) eqn:Hx; [|by apply IH].
  apply bool_decide_eq_true in Hx as <-. simplify_eq. split; [done|]. by rewrite bool_decide_eq_false_2.
Qed.

Lemma fenced_piece span a b : span ∈ untrusted_spans → fenced span a → fenced span b → same_outside_fences a b.
Proof.
  intros Hs Ha Hb. exists [(a, b)]. cbn. rewrite !sapp_nil_r. split_and!; [done..|].
  apply Forall_singleton. right. eauto.
Qed.

(** A field that binds, from owners with the same trusted part, related values. *)
Definition respects {A} (trusted : A → A) (f : field A) : Prop :=
  ∀ a1 a2 x1 x2, trusted a1 = trusted a2 → fd_bind f a1 = Some x1 → fd_bind f a2 = Some x2 → rel (fd_shape f) x1 x2.

Lemma respects_trusted {A} (trusted : A → A) (f : field A) :
  sh_tainted (fd_shape f) = false → (∀ a, fd_bind f (trusted a) = fd_bind f a) → respects trusted f.
Proof.
  intros Ht Hf a1 a2 x1 x2 He H1 H2. rewrite <-Hf in H1, H2. rewrite He in H1. simplify_eq. by apply rel_same.
Qed.

Lemma respects_untrusted {A} (trusted : A → A) salts name note get :
  (name, note) ∈ untrusted_spans → respects trusted (untrusted salts name note get).
Proof.
  intros Hs a1 a2 x1 x2 _. cbn. intros (s1 & H1 & ->)%fmap_Some (s2 & H2 & ->)%fmap_Some.
  apply rel_text; [done..|]. eapply fenced_piece; [exact Hs|right; cbn; eauto..].
Qed.

Lemma respects_optional {A} (trusted : A → A) salts note get :
  ("run.previous_attempt", note) ∈ untrusted_spans → respects trusted (untrustedOptional salts "run.previous_attempt" note get).
Proof.
  intros Hs. assert (∀ a x, fd_bind (untrustedOptional salts "run.previous_attempt" note get) a = Some x →
    ∃ s, x = VString s ∧ fenced ("run.previous_attempt", note) s) as Hb.
  { intros a x. cbn. case_bool_decide; [intros [= <-]; exists ""; split; [done|by left]|].
    intros (s & Hf & ->)%fmap_Some. exists s. split; [done|right; cbn; eauto]. }
  intros a1 a2 x1 x2 _ (s1 & -> & H1)%Hb (s2 & -> & H2)%Hb. apply rel_text; [done..|]. by eapply fenced_piece.
Qed.

Lemma bind_fields_assoc {A} (fields : list (string * field A)) a m n s :
  bind_fields fields a = Some m → assoc n (prod_map id fd_shape <$> fields) = Some s →
  ∃ f x, (n, f) ∈ fields ∧ fd_shape f = s ∧ fd_bind f a = Some x ∧ assoc n m = Some x
    ∧ ∀ a' m', bind_fields fields a' = Some m' → ∃ x', fd_bind f a' = Some x' ∧ assoc n m' = Some x'.
Proof.
  revert m. induction fields as [|[k f] fields IH]; intros m; [done|]. cbn [bind_fields fmap list_fmap prod_map assoc].
  destruct (fd_bind f a) as [x|] eqn:Hx; [|done]. destruct (bind_fields fields a) as [m0|] eqn:Hm; [|done].
  intros [= <-]. cbn [assoc id fst snd]. case_bool_decide as Hk.
  - intros [= <-]. subst k. exists f, x. split_and!; [left|done..|]. intros a' m'.
    destruct (fd_bind f a') as [x'|]; [|done]. destruct (bind_fields fields a'); [|done]. intros [= <-].
    exists x'. cbn. by rewrite bool_decide_eq_true_2.
  - intros Hs. destruct (IH _ eq_refl Hs) as (f' & x' & Hin & Hsh & Hb & Ha & Hall). exists f', x'. split_and!; [by right|done..|].
    intros a' m'. destruct (fd_bind f a'); [|done]. destruct (bind_fields fields a') as [m1|] eqn:Hm1; [|done]. intros [= <-].
    cbn. rewrite bool_decide_eq_false_2 by done. by apply Hall.
Qed.

Lemma bind_fields_absent {A} (fields : list (string * field A)) a m n :
  bind_fields fields a = Some m → assoc n fields = None → assoc n m = None.
Proof.
  revert m. induction fields as [|[k f] fields IH]; intros m; cbn [bind_fields assoc]; [by intros [= <-]|].
  destruct (fd_bind f a); [|done]. destruct (bind_fields fields a) as [m0|]; [|done]. intros [= <-]. cbn [assoc].
  case_bool_decide; [done|]. by apply IH.
Qed.

Lemma object_absent {A} (fields : list (string * field A)) a m n :
  fd_bind (object fields) a = Some (VMap m) → assoc n fields = None → assoc n m = None.
Proof. cbn. intros (m' & Hm & [= ->])%fmap_Some. by apply bind_fields_absent with a. Qed.

Lemma respects_object {A} (trusted : A → A) (fields : list (string * field A)) :
  sh_tainted (fd_shape (object fields)) = true → Forall (λ p, respects trusted p.2) fields → respects trusted (object fields).
Proof.
  intros Ht Hall a1 a2 x1 x2 He. cbn. intros (m1 & H1 & ->)%fmap_Some (m2 & H2 & ->)%fmap_Some.
  apply rel_object; [done..|]. intros n s Hs.
  destruct (bind_fields_assoc _ _ _ _ _ H1 Hs) as (f & y1 & Hin & <- & Hb1 & Ha1 & Hother).
  destruct (Hother _ _ H2) as (y2 & Hb2 & Ha2). exists y1, y2. split_and!; [done..|].
  rewrite Forall_forall in Hall. exact (Hall _ Hin _ _ _ _ He Hb1 Hb2).
Qed.

Ltac solve_respects :=
  repeat apply Forall_cons_2; [..|apply Forall_nil_2]; cbn [snd];
  first [ by apply respects_trusted
        | apply respects_untrusted; by repeat (left || right)
        | apply respects_optional; by repeat (left || right)
        | idtac ].

Lemma respects_issue salts : respects trusted_issue (issueBinding salts).
Proof. apply respects_object; [done|]. solve_respects. Qed.

Lemma respects_run salts : respects trusted_run (runBinding salts).
Proof. apply respects_object; [done|]. solve_respects. Qed.

Lemma respects_root salts : respects trusted_part (rootBinding salts).
Proof.
  apply respects_object; [done|]. solve_respects.
  - intros v1 v2 x1 x2 He. exact (respects_issue salts _ _ _ _ (f_equal v_Issue He)).
  - intros v1 v2 x1 x2 He. exact (respects_run salts _ _ _ _ (f_equal v_Run He)).
Qed.

Lemma bindings_agree salts v1 v2 b1 b2 :
  trusted_part v1 = trusted_part v2 → bindings salts v1 = Some b1 → bindings salts v2 = Some b2 →
  agree (w_scopes newWalker) (env_of b1) (env_of b2).
Proof.
  unfold bindings. intros He Hb1 Hb2.
  destruct (fd_bind (rootBinding salts) v1) as [x1|] eqn:Hx1; [|done].
  destruct (fd_bind (rootBinding salts) v2) as [x2|] eqn:Hx2; [|done].
  pose proof (respects_root salts _ _ _ _ He Hx1 Hx2) as Hr.
  destruct x1 as [| | | |m1|], x2 as [| | | |m2|]; simplify_eq.
  inversion Hr as [? ? Ht| |? ? ? _ _ Hf]; [discriminate Ht|]; subst. split; last first.
  { unfold rootBinding in Hx1, Hx2. unfold env_of. by rewrite (object_absent _ _ _ _ Hx1), (object_absent _ _ _ _ Hx2). }
  intros x s. unfold newWalker. cbn [w_scopes lookup_scopes]. destruct (assoc x rootScope) as [s'|] eqn:Hs; [|done]. intros [= <-].
  destruct (Hf x s' Hs) as (a1 & a2 & Ha1 & Ha2 & Hra). unfold env_of. by rewrite Ha1, Ha2.
Qed.
