(* ===== verification/TemplateFacts.v ===== *)
(** * TemplateFacts: the contract of the prompt layer

    Fences cannot be closed from inside and are found in as many tries as the value is
    long; a shell reads an escaped value back; the scanners have enough fuel; a template
    the walk accepts writes the same prompt outside fences whatever others wrote. *)

From Stdlib Require Import Ascii.
From S2P Require Import Prelude GoStd GoStdFacts Core Sha256 TemplateLex Template TemplateEngine.
From S2P Require Import TemplateFlow.

(** ** Fences *)

Lemma all_bytes_take p n s : all_bytes p s = true → all_bytes p (str_take n s) = true.
Proof.
  revert n. induction s as [|c s IH]; intros [|n]; simpl; try done. intros H. split_bools.
  rewrite H. by apply IH.
Qed.

Definition is_hex (z : Z) : bool := is_digit z || in_range 97 102 z.

Lemma hex_all_bytes w z : all_bytes is_hex (hex w z) = true.
Proof.
  revert z. induction w as [|w IH]; intros z; [done|]. cbn [hex]. rewrite all_bytes_app, IH. cbn [andb].
  unfold hex_digit. pose proof (Z.mod_pos_bound z 16 ltac:(lia)).
  set (d := z mod 16) in *. assert (0 ≤ (if d <? 10 then 48 + d else 87 + d) < 256) by (destruct (Z.ltb_spec d 10); lia).
  cbn [all_bytes str1]. rewrite byte_val_of by done.
  unfold is_hex, is_digit, in_range. destruct (Z.ltb_spec d 10); lia.
Qed.

Lemma hex_encode_all_bytes l : all_bytes is_hex (hex_encode l) = true.
Proof. induction l as [|b l IH]; [done|]. cbn [hex_encode foldr]. rewrite all_bytes_app, hex_all_bytes. exact IH. Qed.

Lemma nonce_line salt value : avoids (byte_of 10) (fenceNonce salt value) = true.
Proof. eapply all_bytes_avoids; [by apply all_bytes_take, hex_encode_all_bytes|done]. Qed.

Lemma fenceUsing_Some nonce salts salt name note value s : fenceUsing nonce salts salt name note value = Some s →
  ∃ n k, n = nonce k value ∧ contains (closing_of n) value = false
    ∧ s = fenceOpen +:+ name +:+ " " +:+ n +:+ note +:+ fenceEnd +:+ nl +:+ value +:+ nl +:+ closing_of n.
Proof.
  revert salt. induction salts as [|salts IH]; intros salt; cbn [fenceUsing]; [done|].
  destruct (contains _ value) eqn:Hc; [apply IH|]. intros [= <-]. eauto.
Qed.

Lemma fenceUsing_None nonce salts salt name note value : fenceUsing nonce salts salt name note value = None →
  ∀ i, (i < salts)%nat → contains (closing_of (nonce (salt + Z.of_nat i) value)) value = true.
Proof.
  revert salt. induction salts as [|salts IH]; intros salt; cbn [fenceUsing]; [lia|].
  destruct (contains _ value) eqn:Hc; [|done]. intros Hn [|i] Hi; [by rewrite Z.add_0_r|].
  replace (salt + Z.of_nat (S i)) with (salt + 1 + Z.of_nat i) by lia. apply IH; [done|lia].
Qed.

(** C25: whoever wrote a fenced value cannot end its fence: in the text of a fence, and
    whatever follows it, the first place after the header where its closing delimiter
    stands is the one the fence put there, right after the value. *)
Theorem fence_unforgeable salts name note value s :
  fence salts name note value = Some s →
  ∃ n, s = fenceOpen +:+ name +:+ " " +:+ n +:+ note +:+ fenceEnd +:+ nl +:+ value +:+ nl +:+ closing_of n
    ∧ ∀ after, cut (closing_of n) (value +:+ nl +:+ closing_of n +:+ after) = Some (value +:+ nl, after).
Proof.
  intros (n & k & -> & Hc & ->)%fenceUsing_Some. eexists. split; [done|]. intros after.
  assert (avoids (byte_of 10) (closing_of (fenceNonce k value)) = true) as Ha.
  { unfold closing_of. by rewrite !avoids_app, nonce_line. }
  unfold nl, str1. rewrite sapp_cons, sapp_nil_l, cut_sep by done.
  apply contains_false_cut in Hc. by rewrite Hc, cut_head.
Qed.

Lemma fence_unforgeable_witness :
  is_Some (fence 1 "issue.title" fenceNoteIssue ("a <<</BEN-UNTRUSTED 00000000>>> b"))
  ∧ ∃ n, fence 1 "issue.title" fenceNoteIssue "x" =
      Some (fenceOpen +:+ "issue.title" +:+ " " +:+ n +:+ fenceNoteIssue +:+ fenceEnd +:+ nl +:+ "x" +:+ nl +:+ closing_of n).
Proof.
  split; [vm_compute; eauto|].
  destruct (fence 1 "issue.title" fenceNoteIssue "x") as [s|] eqn:Hf; [|by vm_compute in Hf].
  destruct (fence_unforgeable _ _ _ _ _ Hf) as (n & -> & _). eauto.
Defined.

Lemma sapp_inj_length a1 a2 b1 b2 : String.length a1 = String.length a2 → a1 +:+ b1 = a2 +:+ b2 → a1 = a2 ∧ b1 = b2.
Proof.
  revert a2. induction a1 as [|c a1 IH]; intros [|d a2]; try done. rewrite !sapp_cons. intros [= Hl] [= -> H].
  by destruct (IH _ Hl H) as [-> ->].
Qed.

(** Two delimiters at one place of a value are the same one. *)
Definition first_at (n value : string) : nat :=
  match cut (closing_of n) value with Some (b, _) => String.length b | None => 0 end.

Lemma first_at_bound n value : contains (closing_of n) value = true → (first_at n value < String.length value)%nat.
Proof.
  unfold contains, first_at. destruct (cut (closing_of n) value) as [[b a]|] eqn:Hc; [|done]. intros _.
  apply cut_Some_app in Hc as ->. rewrite !length_sapp. unfold closing_of, fenceClose. rewrite !length_sapp. simpl. lia.
Qed.

Lemma first_at_inj n m value : String.length n = String.length m →
  contains (closing_of n) value = true → contains (closing_of m) value = true → first_at n value = first_at m value → n = m.
Proof.
  unfold contains, first_at. intros Hl. destruct (cut (closing_of n) value) as [[b a]|] eqn:Hn; [|done].
  destruct (cut (closing_of m) value) as [[b' a']|] eqn:Hm; [|done]. intros _ _ Hb.
  apply cut_Some_app in Hn, Hm. rewrite Hn in Hm. apply sapp_inj_length in Hm as [_ Hm]; [|done].
  unfold closing_of in Hm. rewrite !sapp_assoc in Hm. apply sapp_inj_l in Hm.
  by apply sapp_inj_length in Hm as [? _].
Qed.

(** The search for a nonce ends: with nonces of one length that differ from salt to
    salt, a fence is found in at most one try more than the value has bytes. *)
Theorem fence_found nonce salts name note value :
  (∀ i j, 0 ≤ i < Z.of_nat salts → 0 ≤ j < Z.of_nat salts → nonce i value = nonce j value → i = j) →
  (∀ i j, String.length (nonce i value) = String.length (nonce j value)) →
  (String.length value < salts)%nat →
  is_Some (fenceUsing nonce salts 0 name note value).
Proof.
  intros Hinj Hlen Hsalts. destruct (fenceUsing _ _ _ _ _ _) eqn:Hf; [by eauto|]. exfalso.
  pose proof (fenceUsing_None _ _ _ _ _ _ Hf) as Hc.
  set (at' := λ i : nat, first_at (nonce (0 + Z.of_nat i) value) value).
  assert (NoDup (at' <$> seq 0 salts)) as Hnd.
  { apply NoDup_fmap_2_strong; [|apply NoDup_seq]. intros i j Hi%elem_of_seq Hj%elem_of_seq Heq.
    apply first_at_inj in Heq; [|done|by apply Hc; lia|by apply Hc; lia]. apply Hinj in Heq; lia. }
  assert ((at' <$> seq 0 salts) ⊆+ seq 0 (String.length value)) as Hsub%submseteq_length.
  { apply NoDup_submseteq; [done|]. intros x (i & -> & Hi%elem_of_seq)%list_elem_of_fmap.
    apply elem_of_seq. split; [lia|]. apply first_at_bound, Hc. lia. }
  rewrite length_fmap, !length_seq in Hsub. lia.
Qed.

Lemma fence_found_witness :
  is_Some (fenceUsing (λ salt _, str1 (97 + salt)) 60 0 "issue.body" fenceNoteIssue
             (closing_of "a" +:+ closing_of "b")).
Proof.
  apply fence_found.
  - intros i j Hi Hj Heq. apply (f_equal (λ s, match s with String c _ => byte_val c | _ => 0 end)) in Heq.
    unfold str1 in Heq. rewrite !byte_val_of in Heq by lia. lia.
  - done.
  - vm_compute. lia.
Defined.

(** ** Shell arguments *)

(** How a POSIX shell reads a word made of quoted parts: [None] for anything that is not
    plainly quoted, or a part left open. *)
Inductive quoting := Bare | Single | Double.
Fixpoint sh_word (q : quoting) (s : string) : option string :=
  match s with
  | EmptyString => match q with Bare => Some "" | _ => None end
  | String c s' =>
      let z := byte_val c in
      match q with
      | Bare => if z =? 39 then sh_word Single s' else if z =? 34 then sh_word Double s' else None
      | Single => if z =? 39 then sh_word Bare s' else String c <$> sh_word Single s'
      | Double =>
          if z =? 34 then sh_word Bare s'
          else if (z =? 36) || (z =? 96) || (z =? 92) then None else String c <$> sh_word Double s'
      end
  end.

Lemma replace_quote_cons new c s :
  replace_from "'" new 0 (String c s) =
    if bool_decide (c = "'"%char) then new +:+ replace_from "'" new 0 s else String c (replace_from "'" new 0 s).
Proof.
  cbn [replace_from]. unfold has_prefix. cbn [cut_prefix].
  destruct (decide (c = "'"%char)) as [->|Hne].
  - by rewrite !bool_decide_eq_true_2.
  - by rewrite !bool_decide_eq_false_2 by congruence.
Qed.

Lemma single_quoted_read value :
  sh_word Single (replace_from "'" ("'" +:+ str1 34 +:+ "'" +:+ str1 34 +:+ "'") 0 value +:+ "'") = Some value.
Proof.
  induction value as [|c value IH]; [done|].
  rewrite replace_quote_cons. case_bool_decide as Hc.
  - subst c. rewrite sapp_assoc.
    change (String "'" <$> sh_word Single (replace_from "'" ("'" +:+ str1 34 +:+ "'" +:+ str1 34 +:+ "'") 0 value +:+ "'")
            = Some (String "'" value)). by rewrite IH.
  - rewrite sapp_cons. cbn [sh_word]. destruct (Z.eqb_spec (byte_val c) 39) as [Hz|_].
    { by destruct Hc; apply byte_val_inj. }
    by rewrite IH.
Qed.

(** A shell reads an escaped value as one argument, and that argument is the value. *)
Theorem shellEscape_read value : sh_word Bare (shellEscape value) = Some value.
Proof. exact (single_quoted_read value). Qed.

(** ** The scanners have enough fuel *)

Section fuel.
Context {L : LexTables} {T : GoTables}.

Lemma span_length p l : (length (span p l).1 + length (span p l).2 = length l)%nat.
Proof.
  induction l as [|c l IH]; [done|]. cbn [span]. destruct (p c.1); [|done].
  destruct (span p l) as [a b]. cbn in *. lia.
Qed.

Lemma span_rest p l a b : span p l = (a, b) → (length b ≤ length l)%nat.
Proof. intros H. pose proof (span_length p l) as Hl. rewrite H in Hl. cbn in Hl. lia. Qed.

Lemma lexIdent_rest l : (length (lexIdent l).2 ≤ length l)%nat.
Proof.
  unfold lexIdent. destruct (span isIdentTail l) as [a b] eqn:Hs. apply span_rest in Hs.
  destruct b as [|c b]; [done|]. destruct (c.1 =? 63); cbn in *; lia.
Qed.

Lemma lexIdent_tail c l : isIdentTail c.1 = true → (length (lexIdent (c :: l)).2 ≤ length l)%nat.
Proof.
  intros Hc. unfold lexIdent. cbn [span]. rewrite Hc. destruct (span isIdentTail l) as [a b] eqn:Hs. apply span_rest in Hs.
  destruct b as [|d b]; [cbn; lia|]. destruct (d.1 =? 63); cbn in *; lia.
Qed.

Lemma isIdentStart_tail r : isIdentStart r = true → isIdentTail r = true.
Proof. unfold isIdentStart, isIdentTail. destruct (r =? 95), (letter_rune r); by rewrite ?orb_true_r. Qed.

Lemma lexNumber_rest c l : (length (lexNumber c l).2 ≤ length l)%nat.
Proof.
  unfold lexNumber. destruct (span is_digit l) as [a b] eqn:Hs. apply span_rest in Hs.
  destruct b as [|dot [|d b]]; [done..|]. destruct (_ && _); [|done].
  destruct (span is_digit b) as [x y] eqn:Hy. apply span_rest in Hy. cbn in *. lia.
Qed.

(** A step takes at least the rune it looks at. *)
Lemma lex_step_rest src c l toks rest : lex_step src c l = Ok (toks, rest) → (length rest ≤ length l)%nat.
Proof.
  unfold lex_step. destruct (space_rune c.1); [by intros [= <- <-]|].
  destruct ((c.1 =? 39) || (c.1 =? 34)).
  { destruct (span _ l) as [a b] eqn:Hs. apply span_rest in Hs. destruct b; [done|]. intros [= <- <-]. cbn in Hs. lia. }
  destruct (is_digit c.1 || _).
  { pose proof (lexNumber_rest c l). destruct (lexNumber c l). by intros [= <- <-]. }
  destruct (isIdentStart c.1) eqn:Hi.
  { apply isIdentStart_tail in Hi. pose proof (lexIdent_tail c l Hi) as Hl. destruct (lexIdent (c :: l)) as [n r].
    destruct r as [|d r]; [by intros [= <- <-]; cbn; lia|]. cbn in Hl.
    destruct (d.1 =? 58); intros [= <- <-]; cbn; lia. }
  destruct (c.1 =? 46).
  { destruct (head_is _ l).
    - pose proof (lexIdent_rest l). destruct (lexIdent l). by intros [= <- <-].
    - destruct l as [|d l]; [by intros [= <- <-]|]. destruct (d.1 =? 46); intros [= <- <-]; cbn; lia. }
  destruct l as [|d l]; [by intros [= <- <-]|]. destruct (two_char _ _); intros [= <- <-]; cbn; lia.
Qed.

(** The lexer never stops for want of fuel: any amount not below the number of runes
    gives the tokens of the whole source. *)
Theorem lex_fuel src fuel : (length (decode src) ≤ fuel)%nat → lex_loop src fuel (decode src) = lex src.
Proof.
  unfold lex. generalize (decode src) as l. intros l. revert fuel.
  assert (∀ n l f1 f2, (length l ≤ n)%nat → (length l ≤ f1)%nat → (length l ≤ f2)%nat →
    lex_loop src f1 l = lex_loop src f2 l) as H; [|intros; by eapply H].
  clear l. induction n as [|n IH]; intros [|c l] [|f1] [|f2]; cbn [length lex_loop]; try lia; try done.
  intros Hn H1 H2. destruct (lex_step src c l) as [[toks rest]|] eqn:Hs; [|done]. apply lex_step_rest in Hs.
  by rewrite (IH rest f1 f2) by lia.
Qed.

Lemma bracket_rest depth toks inner rest : bracket depth toks = Some (inner, rest) →
  (length inner + length rest < length toks)%nat.
Proof.
  revert depth inner rest. induction toks as [|t toks IH]; intros depth inner rest; cbn [bracket]; [done|].
  assert (∀ d, match bracket d toks with Some (i, a) => Some (t :: i, a) | None => None end = Some (inner, rest) →
    (length inner + length rest < S (length toks))%nat) as Hd.
  { intros d. destruct (bracket d toks) as [[i a]|] eqn:Hb; [|done]. intros [= <- <-]. apply IH in Hb. cbn. lia. }
  cbn [length]. destruct (is_punct "[" t); [apply Hd|]. destruct (is_punct "]" t); [|apply Hd].
  destruct depth as [|[|d]]; [intros [= <- <-]; cbn; lia..|apply Hd].
Qed.

(** What a reference takes: its brackets' contents and what follows are parts of it. *)
Lemma parse_segs_rest fuel toks segs inners rest : parse_segs fuel toks = Ok (segs, inners, rest) →
  (length rest ≤ length toks)%nat ∧ Forall (λ i, (length i ≤ length toks)%nat) inners.
Proof.
  revert toks segs inners rest. induction fuel as [|fuel IH]; intros toks segs inners rest; [by intros [= <- <- <-]|].
  destruct toks as [|t toks]; [by intros [= <- <- <-]|]. cbn [parse_segs].
  assert (∀ l s, (length l ≤ length toks)%nat → parse_segs fuel l = Ok s →
    (length s.2 ≤ length (t :: toks))%nat ∧ Forall (λ i, (length i ≤ length (t :: toks))%nat) s.1.2) as Hgo.
  { intros l [[s i] r] Hl [H1 H2]%IH. cbn [fst snd]. split; [cbn; lia|].
    eapply Forall_impl; [exact H2|]. cbn. lia. }
  destruct (is_punct "[" t) eqn:Hp.
  - assert (t = tokPunct "[") as -> by (by apply bool_decide_eq_true in Hp).
    destruct (bracket 1 toks) as [[inner after]|] eqn:Hb; [|done]. apply bracket_rest in Hb.
    destruct (parse_segs fuel after) as [s|] eqn:Hs; [|done]. apply Hgo in Hs as [H1 H2]; [|lia].
    destruct s as [[s i] r]. intros [= <- <- <-]. split; [done|]. constructor; [cbn; lia|done].
  - destruct t as [x|x|x|x|x]; try (by intros [= <- <- <-]).
    destruct (parse_segs fuel toks) as [s|] eqn:Hs; [|done]. apply Hgo in Hs; [|lia].
    destruct s as [[s i] r]. by intros [= <- <- <-].
Qed.

Lemma parse_segs_fuel f1 f2 toks : (length toks ≤ f1)%nat → (length toks ≤ f2)%nat → parse_segs f1 toks = parse_segs f2 toks.
Proof.
  revert f2 toks. induction f1 as [|f1 IH]; intros [|f2] [|t toks]; cbn [length]; try lia; try done. intros H1 H2.
  cbn [parse_segs]. rewrite (IH f2 toks) by lia.
  destruct (bracket 1 toks) as [[inner after]|] eqn:Hb; [|done]. apply bracket_rest in Hb.
  by rewrite (IH f2 after) by lia.
Qed.

(** The analysis of an expression sees all of it: any amount of fuel not below its
    number of tokens gives the same references and filters, brackets within brackets
    included. *)
Theorem analyze_fuel toks fuel : (length toks ≤ fuel)%nat → analyze_loop fuel toks = analyze toks.
Proof.
  unfold analyze. intros Hf. assert (∀ n l f1 f2, (length l ≤ n)%nat → (length l ≤ f1)%nat → (length l ≤ f2)%nat →
    analyze_loop f1 l = analyze_loop f2 l) as H; [|by eapply H].
  clear toks fuel Hf. induction n as [|n IH]; intros [|t l] [|f1] [|f2]; cbn [length]; try lia; try done.
  intros Hn H1 H2. cbn [analyze_loop]. destruct (is_punct "|" t).
  { destruct l as [|[x|x|x|x|x] l]; cbn [length] in *; try (by apply IH; cbn; lia); by rewrite (IH l f1 f2) by lia. }
  destruct t as [x|x|x|x|x]; try (by apply IH; lia). destruct (reserved x); [by apply IH; lia|].
  unfold parseRef. destruct (parse_segs (length l) l) as [[[segs inners] rest]|] eqn:Hp; [|done].
  apply parse_segs_rest in Hp as [Hr Hi]. rewrite (IH rest f1 f2) by lia.
  match goal with |- match ?x with _ => _ end = match ?y with _ => _ end => assert (x = y) as -> end; [|done].
  induction Hi as [|inner inners Hl _ IHi]; [done|]. destruct (static inner); [done|].
  rewrite (IH inner f1 f2) by lia. by rewrite IHi.
Qed.

End fuel.

Lemma lex_fuel_witness : lex_loop "issue.title | upcase" 100 (decode "issue.title | upcase") = lex "issue.title | upcase".
Proof. apply lex_fuel. vm_compute. lia. Defined.

Lemma analyze_fuel_witness :
  analyze_loop 50 [tokIdent "a"; tokPunct "["; tokIdent "b"; tokPunct "["; tokIdent "c"; tokPunct "]"; tokPunct "]"]
  = Ok (MkAnalysis [MkRef "a" [segDynamic]; MkRef "b" [segDynamic]; MkRef "c" []] []).
Proof. rewrite analyze_fuel by (cbn; lia). reflexivity. Defined.
