(* ===== verification/Update.v ===== *)
(** * Update: functional record update

    A struct with many fields is updated one field at a time, as the code does:
    [r <| f := v |>] is [r.f = v] and [r <| f ::= g |>] is [r.f = g(r.f)]. A
    structure type gives its eta expansion once ([Spread]); the tactic [field_setter]
    derives the update of each field from it. *)

From S2P Require Import Prelude.

(** A structure as the constructor applied to its own fields. *)
Class Spread (R : Type) := spread : R → R.

Class Setter {R E : Type} (field : R → E) := setf : (E → E) → R → R.
Arguments setf {R E} field {_} _ _.

(** The body of a setter: [spread r] with the field [p] updated. *)
Ltac field_setter :=
  lazymatch goal with
  | |- @Setter ?R ?E ?p =>
      let f := fresh "f" in
      let r := fresh "r" in
      intros f r;
      let all := eval unfold spread in (spread r) in
      let all := eval red in all in
      lazymatch all with
      | context whole [p r] => let body := context whole [f (p r)] in exact body
      end
  end.

Declare Scope update_scope.
Delimit Scope update_scope with upd.
#[global] Open Scope update_scope.

Notation "r <| p := v |>" := (setf p (λ _, v) r)
  (at level 12, left associativity, p at level 1, v at level 99, format "r  <| p  :=  v |>")
  : update_scope.
Notation "r <| p ::= f |>" := (setf p f r)
  (at level 12, left associativity, p at level 1, f at level 99, format "r  <| p  ::=  f |>")
  : update_scope.
