(* ===== verification/OrchRecord.v ===== *)
(** * OrchRecord: the state of the orchestrator's authority loop

    The data of [internal/orchestrator]: the run record and its small methods
    ([record.go]), the interfaces and the configuration it reads ([deps.go],
    [bundle.go]), owed effects ([owed.go]), held claims, ended cycles, pending marker
    clears, the log entries ([translog.go], [attempt.go]), signals ([signals.go]) and
    the [Orchestrator] itself ([orchestrator.go]).

    Every [*Record] the code allocates gets a fresh token, so a token stands for the
    pointer: [o_heap] maps tokens to the records they point to and [o_records] maps an
    issue to the token of its record. A goroutine is a [job]: what it captured when it
    was started. A run handle, a workspace provider and a channel are names. *)

From S2P Require Import Prelude GoStd Update Core Template OrchState OrchRecover.
From Stdlib Require Import Floats.SpecFloat.

(** ** Errors and the values the collaborators answer with *)

Definition ErrIssueNotFound : error := errors_New "issue not found on the tracker".
Definition ErrClaimTargetUnrecorded : error := errors_New "claim target is not recorded".
Definition ErrClaimNotAttempted : error :=
  errors_New "claim was refused before any assignment was attempted".
Definition ErrPublishApprovalPending : error := errors_New "publish approval is pending".

Inductive CredentialErrorClass := CredentialUnknown | CredentialTransient | CredentialPermanent.

#[export] Instance CredentialErrorClass_eq_dec : EqDecision CredentialErrorClass.
Proof. solve_decision. Defined.

(** An error as the loop reads it: what it wraps and says, and the class of the
    [*CredentialError] in its chain, if there is one. *)
Record fault := MkFault { ft_err : error; ft_class : option CredentialErrorClass }.

Definition err_Is (f : option fault) (sentinel : error) : bool :=
  match f with Some f => errors_Is (ft_err f) sentinel | None => false end.

Definition err_Error (f : option fault) : string :=
  match f with Some f => err_text (ft_err f) | None => "<nil>" end.

(** [core.CredentialFailure] *)
Definition CredentialFailure (f : option fault) : option CredentialErrorClass :=
  match f with Some f => ft_class f | None => None end.

Definition credentialTransient (f : option fault) : bool :=
  match CredentialFailure f with
  | Some class => bool_decide (class = CredentialTransient)
  | None => false
  end.

Definition credentialParks (f : option fault) : bool :=
  match CredentialFailure f with
  | Some class => negb (bool_decide (class = CredentialTransient))
  | None => false
  end.

Definition is_nil {A} (x : option A) : bool := match x with None => true | Some _ => false end.

(** A call that returns a value and an error. *)
Definition answer (A : Type) : Type := A * option fault.

(** A [float64]. *)
Definition float64 : Type := spec_float.
Definition f64_zero : float64 := S754_zero false.
Definition f64_add : float64 → float64 → float64 := SFadd 53 1024.
Definition f64_ltb : float64 → float64 → bool := SFltb.

Definition FailureReason : Type := string.
Definition FailureCrashed : FailureReason := "crashed".
Definition FailureStalled : FailureReason := "stalled".
Definition FailureTimeout : FailureReason := "timeout".
Definition FailureRateLimited : FailureReason := "rate_limited".
Definition FailureAuth : FailureReason := "auth".
Definition FailureLaunchError : FailureReason := "launch_error".
Definition FailureKilled : FailureReason := "killed".
Definition FailureBudgetExceeded : FailureReason := "budget_exceeded".
Definition FailureCredential : FailureReason := "credential".

Definition Retryable (r : FailureReason) : bool :=
  bool_decide (r ∈ [FailureCrashed; FailureStalled; FailureTimeout; FailureRateLimited;
                    FailureCredential]).

Inductive EventType :=
  | EventStarted | EventProgress | EventUsage | EventHeartbeat | EventSucceeded | EventFailed
  | EventOther (t : string).

#[export] Instance EventType_eq_dec : EqDecision EventType.
Proof. solve_decision. Defined.

Record Usage := MkUsage { u_InputTokens : Z; u_OutputTokens : Z; u_CostUSD : float64 }.

Definition no_usage : Usage := MkUsage 0 0 f64_zero.

Record Event := MkEvent {
  ev_Type : EventType;
  ev_Time : Z;
  ev_SessionID : string;
  ev_Continuation : string;
  ev_Text : string;
  ev_Usage : option Usage;
  ev_Reason : FailureReason;
}.

(** [core.Event{Type: t, Reason: reason}] *)
Definition bare_event (t : EventType) (reason : FailureReason) : Event :=
  MkEvent t zero_time "" "" "" None reason.

Inductive StopMode := StopInterrupt | StopDiscard.
Inductive Termination := TerminationUnconfirmed | TerminationConfirmed.

#[export] Instance Termination_eq_dec : EqDecision Termination.
Proof. solve_decision. Defined.
#[export] Instance StopMode_eq_dec : EqDecision StopMode.
Proof. solve_decision. Defined.

Record IssueContent := MkContent { ic_Title : string; ic_Body : string }.
Inductive ContentEditStatus := ContentEditUnknown | ContentEditNever | ContentEditAt.
Record ContentEdit := MkEdit { ed_Status : ContentEditStatus; ed_At : Z }.
Record ContentApproval := MkApproval { ca_Content : IssueContent; ca_Edit : ContentEdit }.

(** The zero [core.ContentApproval{}]. *)
Definition no_approval : ContentApproval := MkApproval (MkContent "" "") (MkEdit ContentEditUnknown zero_time).

Record approvedContent := MkApproved { ap_content : IssueContent; ap_at : Z }.

Record AttemptFacts := MkAttemptFacts {
  af_Commits : list string;
  af_Files : list string;
  af_CommitsTruncated : bool;
  af_FilesTruncated : bool;
}.

Definition no_attemptFacts : AttemptFacts := MkAttemptFacts [] [] false false.

Record MilestoneComment := MkMilestone {
  mc_Milestone : Milestone;
  mc_PRURL : string;
  mc_Reason : FailureReason;
  mc_ReasonUnavailable : bool;
  mc_Detail : string;
}.

Definition milestone_name (m : Milestone) : string :=
  match m with
  | MilestoneNone => ""
  | MilestoneClaimed => "claimed"
  | MilestonePublished => "published"
  | MilestoneFailed => "failed"
  | MilestoneNeedsReview => "needs-review"
  end.

Record RunEvidence := MkRunEvidence { re_Scheme : string; re_ID : string; re_Boot : string }.
Record RunMarker := MkRunMarker { rm_State : RunMarkerState; rm_Evidence : RunEvidence }.
Record WorkspaceRef := MkWorkspaceRef { wr_Key : string; wr_Path : string; wr_Identifier : string }.
Record AgentDescriptor := MkAgent { ag_Kind : string; ag_Model : string }.
Record RunFailure := MkRunFailure { rf_At : Z; rf_Reason : FailureReason; rf_Detail : string }.

Record RunLimits := MkRunLimits {
  rl_StallTimeout : Z;
  rl_AttemptTimeout : Z;
  rl_MaxTurns : Z;
  rl_MaxCostUSD : float64;
}.

Record RunSpec := MkRunSpec {
  sp_Workspace : WorkspacePaths;
  sp_Prompt : string;
  sp_Continuation : string;
  sp_Env : gmap string string;
  sp_Limits : RunLimits;
}.

Record VerifyResult := MkVerify { vr_Verdict : Evidence; vr_PRURL : string; vr_Detail : string }.

(** [Verdict.String] *)
Definition verdict_String (v : Evidence) : string :=
  match v with
  | VerdictUnknown => "unknown"
  | VerdictPublished => "published"
  | VerdictIncomplete => "incomplete"
  | VerdictContradicted => "contradicted"
  end.

Definition claimBaseState_String (s : ClaimBaseState) : string :=
  match s with
  | ClaimBaseUnknown => "unknown"
  | ClaimBaseAbsent => "absent"
  | ClaimBasePending => "pending"
  | ClaimBasePinned => "pinned"
  end.

(** [fmt.Sprintf("%+v", c)] of a [core.ClaimBase]. *)
Definition claimBase_v (c : ClaimBase) : string :=
  "{State:" +:+ claimBaseState_String (cb_State c) +:+ " Epoch:" +:+ itoa (cb_Epoch c)
  +:+ " BaseSHA:" +:+ cb_BaseSHA c +:+ " TargetBranch:" +:+ cb_TargetBranch c
  +:+ " OutgoingEpoch:" +:+ itoa (cb_OutgoingEpoch c) +:+ " OutgoingBaseSHA:" +:+ cb_OutgoingBaseSHA c
  +:+ " OutgoingTargetBranch:" +:+ cb_OutgoingTargetBranch c +:+ "}".

Definition no_claimBase : ClaimBase := MkClaimBase ClaimBaseUnknown 0 "" "" 0 "" "".

(** ** Configuration *)

Record LimitsConfig := MkLimitsConfig {
  lc_MaxConcurrentAgents : Z;
  lc_MaxTurns : Z;
  lc_MaxAttempts : Z;
  lc_MaxRetryBackoffMS : Z;
  lc_MaxCostUSD : option float64;
  lc_StallTimeoutMS : Z;
  lc_AttemptTimeoutMS : Z;
}.

(** Of a [config.WorkflowDefinition], what the loop reads; [RenderPrompt] is the
    loaded template's. *)
Record WorkflowDefinition := MkDefinition {
  df_Key : string;
  df_RequiredLabels : list string;
  df_ActiveStates : list string;
  df_IntervalMS : Z;
  df_Root : string;
  df_Limits : LimitsConfig;
  df_RenderPrompt : Vars → result string;
}.

(** A workspace provider: its name and which of the optional interfaces
    [workspaceLifecycleCompleter], [afterRunner], [endedCycleSource] and
    [cycleApprovalSource] it implements. *)
Record Workspaces := MkWorkspaces {
  wk_name : Z;
  wk_lifecycle : bool;
  wk_afterRun : bool;
  wk_endedCycles : bool;
  wk_cycleApproval : bool;
}.

(** The adapters in force. The tracker and the runner are asked through jobs, so of
    the tracker only the optional [contentApprovalSource] is kept. *)
Record Bundle := MkBundle {
  bu_Definition : WorkflowDefinition;
  bu_contentApproval : bool;
  bu_Workspaces : Workspaces;
  bu_Agent : AgentDescriptor;
  bu_ClaimPrincipal : string;
  bu_RemoteURL : string;
  bu_ResolveRun : bool;
}.

Record Identity := MkIdentity { id_Principal : string; id_RemoteURL : string; id_Root : string }.

#[export] Instance Identity_eq_dec : EqDecision Identity.
Proof. solve_decision. Defined.

Definition bundle_Identity (b : Bundle) : Identity :=
  MkIdentity (bu_ClaimPrincipal b) (bu_RemoteURL b) (df_Root (bu_Definition b)).

(** [config.Snapshot[*Bundle]] *)
Record snapshot := MkSnapshot {
  sn_Definition : WorkflowDefinition;
  sn_Runtime : Bundle;
  sn_Blocked : option error;
  sn_Revision : Z;
}.

(** What [Config] gives the loop beside the runtime source. *)
Record Config := MkConfig {
  cf_PrepRetryable : option (error → bool);
  cf_RunGone : bool;
  cf_FailureReasons : bool;
  cf_DaemonID : string;
  cf_Instance : string;
}.

(** ** Owed effects *)

Inductive effectTarget := effectTracker | effectLocal.

#[export] Instance effectTarget_eq_dec : EqDecision effectTarget.
Proof. solve_decision. Defined.

(** The closures the effects queue runs. *)
Inductive effectDo :=
  | DoSetStateLabels (issue : Issue) (label : StateLabel)
  | DoComment (issue : Issue) (c : MilestoneComment)
  | DoRelease (issue : Issue)
  | DoAbandonPendingClaimBase (issue : Issue)
  | DoAfterRun (ws : Workspace)
  | DoDispose (ws : Workspace) (keep : bool)
  | DoCompleteFailure (ws : Workspace)
  | DoCompleteShutdown (ws : Workspace)
  | DoNothing.

Record owedEffect := MkOwed {
  oe_what : string;
  oe_target : effectTarget;
  oe_projection : bool;
  oe_do : effectDo;
}.

Definition effectClaimLabel : string := "project ben:claimed".
Definition effectAbandonClaimBase : string := "abandon pending claim base".
Definition effectRelease : string := "release claim".
Definition effectForget : string := "forget the gone issue".

Definition isExit (what : string) : bool :=
  bool_decide (what = effectRelease) || bool_decide (what = effectForget).

(** ** The record *)

Record runOutcome := MkOutcome { oc_event : Event; oc_detail : string }.
Record finishRequest := MkFinish { fr_keepWorkspace : bool; fr_why : string }.

Inductive timerKind := timerBackoff | timerContinuation.

#[export] Instance timerKind_eq_dec : EqDecision timerKind.
Proof. solve_decision. Defined.

Record RunRecord := MkRecord {
  r_Issue : Issue;
  r_State : State;
  r_approvedAt : Z;
  r_claimVerified : bool;
  r_approvalInFlight : bool;
  r_claimEpoch : Z;
  r_claimBaseInFlight : bool;
  r_epochFaulted : bool;
  r_epochFaultDetail : string;
  r_claimBaseDispatch : bool;
  r_Attempt : Z;
  r_Turns : Z;
  r_attemptBase : Z;
  r_FailureReason : FailureReason;
  r_lastOutcome : string;
  r_previousAttempt : string;
  r_outputTail : string;
  r_outputTotal : Z;
  r_attemptFacts : AttemptFacts;
  r_attemptFactsRead : bool;
  r_summarizing : bool;
  r_summarized : bool;
  r_parkOnBudgetPending : bool;
  r_Workspace : Workspace;
  r_Continuation : string;
  r_SessionID : string;
  r_PRURL : string;
  r_Definition : WorkflowDefinition;
  r_handle : option Z;
  r_cancelRun : option Z;
  r_costUSD : float64;
  r_attemptStartedAt : Z;
  r_attemptUsage : Usage;
  r_attemptAgent : AgentDescriptor;
  r_attemptRecorded : bool;
  r_stopping : bool;
  r_budgetStop : bool;
  r_finishAfterStop : bool;
  r_keepOnStop : bool;
  r_stopReason : string;
  r_gone : bool;
  r_claimLost : bool;
  r_absenceInFlight : bool;
  r_owedWriteFailed : bool;
  r_pending : Z;
  r_finish : option finishRequest;
  r_suspended : bool;
  r_verifyRetry : bool;
  r_releasing : bool;
  r_stopInFlight : bool;
  r_probeInFlight : bool;
  r_owed : list owedEffect;
  r_owedInFlight : bool;
  r_disposalOwed : bool;
  r_claimBaseAbandonOwed : bool;
  r_ranThisAttempt : bool;
  r_afterRunFired : bool;
  r_eventsClosed : bool;
  r_handleDone : bool;
  r_domainQuiet : bool;
  r_outcome : option runOutcome;
  r_convertInFlight : bool;
  r_generation : Z;
  r_instance : string;
  r_token : Z;
  r_recovered : bool;
  r_unclassified : bool;
  r_recoverInFlight : bool;
  r_nextTimerAt : Z;
  r_nextTimerKind : timerKind;
  r_UpdatedAt : Z;
}.

#[export] Instance RunRecord_spread : Spread RunRecord := λ r,
  MkRecord (r_Issue r) (r_State r) (r_approvedAt r) (r_claimVerified r) (r_approvalInFlight r)
    (r_claimEpoch r) (r_claimBaseInFlight r) (r_epochFaulted r) (r_epochFaultDetail r)
    (r_claimBaseDispatch r) (r_Attempt r) (r_Turns r) (r_attemptBase r) (r_FailureReason r)
    (r_lastOutcome r) (r_previousAttempt r) (r_outputTail r) (r_outputTotal r)
    (r_attemptFacts r) (r_attemptFactsRead r) (r_summarizing r) (r_summarized r)
    (r_parkOnBudgetPending r) (r_Workspace r) (r_Continuation r) (r_SessionID r) (r_PRURL r)
    (r_Definition r) (r_handle r) (r_cancelRun r) (r_costUSD r) (r_attemptStartedAt r)
    (r_attemptUsage r) (r_attemptAgent r) (r_attemptRecorded r) (r_stopping r)
    (r_budgetStop r) (r_finishAfterStop r) (r_keepOnStop r) (r_stopReason r) (r_gone r)
    (r_claimLost r) (r_absenceInFlight r) (r_owedWriteFailed r) (r_pending r) (r_finish r)
    (r_suspended r) (r_verifyRetry r) (r_releasing r) (r_stopInFlight r) (r_probeInFlight r)
    (r_owed r) (r_owedInFlight r) (r_disposalOwed r) (r_claimBaseAbandonOwed r)
    (r_ranThisAttempt r) (r_afterRunFired r) (r_eventsClosed r) (r_handleDone r)
    (r_domainQuiet r) (r_outcome r) (r_convertInFlight r) (r_generation r) (r_instance r)
    (r_token r) (r_recovered r) (r_unclassified r) (r_recoverInFlight r) (r_nextTimerAt r)
    (r_nextTimerKind r) (r_UpdatedAt r).

#[export] Instance set_r_Issue : Setter r_Issue. Proof. field_setter. Defined.
#[export] Instance set_r_State : Setter r_State. Proof. field_setter. Defined.
#[export] Instance set_r_approvedAt : Setter r_approvedAt. Proof. field_setter. Defined.
#[export] Instance set_r_claimVerified : Setter r_claimVerified. Proof. field_setter. Defined.
#[export] Instance set_r_approvalInFlight : Setter r_approvalInFlight. Proof. field_setter. Defined.
#[export] Instance set_r_claimEpoch : Setter r_claimEpoch. Proof. field_setter. Defined.
#[export] Instance set_r_claimBaseInFlight : Setter r_claimBaseInFlight. Proof. field_setter. Defined.
#[export] Instance set_r_epochFaulted : Setter r_epochFaulted. Proof. field_setter. Defined.
#[export] Instance set_r_epochFaultDetail : Setter r_epochFaultDetail. Proof. field_setter. Defined.
#[export] Instance set_r_claimBaseDispatch : Setter r_claimBaseDispatch. Proof. field_setter. Defined.
#[export] Instance set_r_Attempt : Setter r_Attempt. Proof. field_setter. Defined.
#[export] Instance set_r_Turns : Setter r_Turns. Proof. field_setter. Defined.
#[export] Instance set_r_attemptBase : Setter r_attemptBase. Proof. field_setter. Defined.
#[export] Instance set_r_FailureReason : Setter r_FailureReason. Proof. field_setter. Defined.
#[export] Instance set_r_lastOutcome : Setter r_lastOutcome. Proof. field_setter. Defined.
#[export] Instance set_r_previousAttempt : Setter r_previousAttempt. Proof. field_setter. Defined.
#[export] Instance set_r_outputTail : Setter r_outputTail. Proof. field_setter. Defined.
#[export] Instance set_r_outputTotal : Setter r_outputTotal. Proof. field_setter. Defined.
#[export] Instance set_r_attemptFacts : Setter r_attemptFacts. Proof. field_setter. Defined.
#[export] Instance set_r_attemptFactsRead : Setter r_attemptFactsRead. Proof. field_setter. Defined.
#[export] Instance set_r_summarizing : Setter r_summarizing. Proof. field_setter. Defined.
#[export] Instance set_r_summarized : Setter r_summarized. Proof. field_setter. Defined.
#[export] Instance set_r_parkOnBudgetPending : Setter r_parkOnBudgetPending. Proof. field_setter. Defined.
#[export] Instance set_r_Workspace : Setter r_Workspace. Proof. field_setter. Defined.
#[export] Instance set_r_Continuation : Setter r_Continuation. Proof. field_setter. Defined.
#[export] Instance set_r_SessionID : Setter r_SessionID. Proof. field_setter. Defined.
#[export] Instance set_r_PRURL : Setter r_PRURL. Proof. field_setter. Defined.
#[export] Instance set_r_Definition : Setter r_Definition. Proof. field_setter. Defined.
#[export] Instance set_r_handle : Setter r_handle. Proof. field_setter. Defined.
#[export] Instance set_r_cancelRun : Setter r_cancelRun. Proof. field_setter. Defined.
#[export] Instance set_r_costUSD : Setter r_costUSD. Proof. field_setter. Defined.
#[export] Instance set_r_attemptStartedAt : Setter r_attemptStartedAt. Proof. field_setter. Defined.
#[export] Instance set_r_attemptUsage : Setter r_attemptUsage. Proof. field_setter. Defined.
#[export] Instance set_r_attemptAgent : Setter r_attemptAgent. Proof. field_setter. Defined.
#[export] Instance set_r_attemptRecorded : Setter r_attemptRecorded. Proof. field_setter. Defined.
#[export] Instance set_r_stopping : Setter r_stopping. Proof. field_setter. Defined.
#[export] Instance set_r_budgetStop : Setter r_budgetStop. Proof. field_setter. Defined.
#[export] Instance set_r_finishAfterStop : Setter r_finishAfterStop. Proof. field_setter. Defined.
#[export] Instance set_r_keepOnStop : Setter r_keepOnStop. Proof. field_setter. Defined.
#[export] Instance set_r_stopReason : Setter r_stopReason. Proof. field_setter. Defined.
#[export] Instance set_r_gone : Setter r_gone. Proof. field_setter. Defined.
#[export] Instance set_r_claimLost : Setter r_claimLost. Proof. field_setter. Defined.
#[export] Instance set_r_absenceInFlight : Setter r_absenceInFlight. Proof. field_setter. Defined.
#[export] Instance set_r_owedWriteFailed : Setter r_owedWriteFailed. Proof. field_setter. Defined.
#[export] Instance set_r_pending : Setter r_pending. Proof. field_setter. Defined.
#[export] Instance set_r_finish : Setter r_finish. Proof. field_setter. Defined.
#[export] Instance set_r_suspended : Setter r_suspended. Proof. field_setter. Defined.
#[export] Instance set_r_verifyRetry : Setter r_verifyRetry. Proof. field_setter. Defined.
#[export] Instance set_r_releasing : Setter r_releasing. Proof. field_setter. Defined.
#[export] Instance set_r_stopInFlight : Setter r_stopInFlight. Proof. field_setter. Defined.
#[export] Instance set_r_probeInFlight : Setter r_probeInFlight. Proof. field_setter. Defined.
#[export] Instance set_r_owed : Setter r_owed. Proof. field_setter. Defined.
#[export] Instance set_r_owedInFlight : Setter r_owedInFlight. Proof. field_setter. Defined.
#[export] Instance set_r_disposalOwed : Setter r_disposalOwed. Proof. field_setter. Defined.
#[export] Instance set_r_claimBaseAbandonOwed : Setter r_claimBaseAbandonOwed. Proof. field_setter. Defined.
#[export] Instance set_r_ranThisAttempt : Setter r_ranThisAttempt. Proof. field_setter. Defined.
#[export] Instance set_r_afterRunFired : Setter r_afterRunFired. Proof. field_setter. Defined.
#[export] Instance set_r_eventsClosed : Setter r_eventsClosed. Proof. field_setter. Defined.
#[export] Instance set_r_handleDone : Setter r_handleDone. Proof. field_setter. Defined.
#[export] Instance set_r_domainQuiet : Setter r_domainQuiet. Proof. field_setter. Defined.
#[export] Instance set_r_outcome : Setter r_outcome. Proof. field_setter. Defined.
#[export] Instance set_r_convertInFlight : Setter r_convertInFlight. Proof. field_setter. Defined.
#[export] Instance set_r_generation : Setter r_generation. Proof. field_setter. Defined.
#[export] Instance set_r_instance : Setter r_instance. Proof. field_setter. Defined.
#[export] Instance set_r_token : Setter r_token. Proof. field_setter. Defined.
#[export] Instance set_r_recovered : Setter r_recovered. Proof. field_setter. Defined.
#[export] Instance set_r_unclassified : Setter r_unclassified. Proof. field_setter. Defined.
#[export] Instance set_r_recoverInFlight : Setter r_recoverInFlight. Proof. field_setter. Defined.
#[export] Instance set_r_nextTimerAt : Setter r_nextTimerAt. Proof. field_setter. Defined.
#[export] Instance set_r_nextTimerKind : Setter r_nextTimerKind. Proof. field_setter. Defined.
#[export] Instance set_r_UpdatedAt : Setter r_UpdatedAt. Proof. field_setter. Defined.

(** *** Its methods *)

(** [sanitizeRunID] *)
Definition runID_rune (c : Z) : bool :=
  is_lower c || is_upper c || is_digit c || (c =? 45) || (c =? 95).

Definition sanitizeRunID (s : string) : string :=
  foldr (λ c acc, (if runID_rune c then encode_rune c else "-") +:+ acc) EmptyString (runes s).

Definition runID (r : RunRecord) : string :=
  let tail := itoa (r_token r) +:+ "." +:+ itoa (r_generation r) in
  if bool_decide (r_instance r = "")
  then sanitizeRunID (is_Identifier (r_Issue r)) +:+ "-" +:+ tail
  else sanitizeRunID (is_Identifier (r_Issue r)) +:+ "-" +:+ r_instance r +:+ "-" +:+ tail.

Record Snapshot := MkStatus {
  st_Identifier : string;
  st_State : State;
  st_Attempt : Z;
  st_Turns : Z;
  st_FailureReason : FailureReason;
  st_Branch : string;
  st_UpdatedAt : Z;
  st_RunID : string;
  st_NextTimerAt : Z;
  st_NextTimer : timerKind;
  st_Continuation : string;
  st_SessionID : string;
}.

Definition snapshot_of (r : RunRecord) : Snapshot :=
  MkStatus (is_Identifier (r_Issue r)) (r_State r) (r_Attempt r) (r_Turns r) (r_FailureReason r)
    (ws_Branch (r_Workspace r)) (r_UpdatedAt r) (runID r) (r_nextTimerAt r) (r_nextTimerKind r)
    (r_Continuation r) (r_SessionID r).

Definition orderedExit (r : RunRecord) : bool :=
  r_releasing r || r_stopping r || negb (is_nil (r_finish r)) || r_gone r || r_claimLost r.

Definition exiting (r : RunRecord) : bool := orderedExit r || r_suspended r.

Definition markGone (r : RunRecord) : RunRecord := r <| r_gone := true |>.
Definition markClaimLost (r : RunRecord) : RunRecord := r <| r_claimLost := true |>.

Definition hasWorkspace (r : RunRecord) : bool := negb (bool_decide (wp_Path (ws_Paths (r_Workspace r)) = "")).

Definition adoptRouting (fresh : Issue) (r : RunRecord) : RunRecord :=
  r <| r_Issue := MkIssue (is_Identifier (r_Issue r)) (is_Title (r_Issue r)) (is_Body (r_Issue r))
       (is_Labels fresh) (is_State fresh) (is_Assignees fresh) (is_Blockers fresh) (is_URL fresh)
       (is_CreatedAt (r_Issue r)) (is_UpdatedAt fresh) (is_Revision fresh) (is_Dispatchable fresh) |>.

Definition pin (a : approvedContent) (r : RunRecord) : RunRecord :=
  let i := r_Issue r in
  r <| r_Issue := MkIssue (is_Identifier i) (ic_Title (ap_content a)) (ic_Body (ap_content a))
       (is_Labels i) (is_State i) (is_Assignees i) (is_Blockers i) (is_URL i) (is_CreatedAt i)
       (is_UpdatedAt i) (is_Revision i) (is_Dispatchable i) |>
    <| r_approvedAt := ap_at a |>.

Definition owesAnything (r : RunRecord) : bool := negb (bool_decide (r_owed r = [])).

Definition owesBeforeExit (r : RunRecord) : bool :=
  match r_owed r with [] => false | eff :: _ => negb (isExit (oe_what eff)) end.

Definition owesForget (r : RunRecord) : bool :=
  existsb (λ eff, bool_decide (oe_what eff = effectForget)) (r_owed r).

Definition owesProjection (r : RunRecord) : bool := existsb oe_projection (r_owed r).

Definition attemptsRemainOf (max : Z) (r : RunRecord) : bool := r_Attempt r - r_attemptBase r <? max.
Definition continuableOf (max : Z) (r : RunRecord) : bool := r_Turns r <? max.

Definition restoreBudgets_ (r : RunRecord) : RunRecord :=
  r <| r_Turns := 0 |> <| r_costUSD := f64_zero |> <| r_attemptBase := r_Attempt r |>.

Definition maxCost (r : RunRecord) : float64 :=
  match lc_MaxCostUSD (df_Limits (r_Definition r)) with Some c => c | None => f64_zero end.

(** ** Other state of the loop *)

Record heldClaim := MkHeld {
  h_issue : Issue;
  h_prURL : string;
  h_workspace : Workspace;
  h_revision : string;
  h_cycleAnchor : Z;
  h_token : Z;
  h_releasing : bool;
  h_releaseFailed : bool;
  h_why : string;
  h_inFlight : bool;
}.

#[export] Instance heldClaim_spread : Spread heldClaim := λ h,
  MkHeld (h_issue h) (h_prURL h) (h_workspace h) (h_revision h) (h_cycleAnchor h) (h_token h)
    (h_releasing h) (h_releaseFailed h) (h_why h) (h_inFlight h).

#[export] Instance set_h_issue : Setter h_issue. Proof. field_setter. Defined.
#[export] Instance set_h_revision : Setter h_revision. Proof. field_setter. Defined.
#[export] Instance set_h_cycleAnchor : Setter h_cycleAnchor. Proof. field_setter. Defined.
#[export] Instance set_h_releasing : Setter h_releasing. Proof. field_setter. Defined.
#[export] Instance set_h_releaseFailed : Setter h_releaseFailed. Proof. field_setter. Defined.
#[export] Instance set_h_why : Setter h_why. Proof. field_setter. Defined.
#[export] Instance set_h_inFlight : Setter h_inFlight. Proof. field_setter. Defined.

Record endedCycle := MkEndedCycle {
  ec_issue : string;
  ec_workspace : Workspace;
  ec_workspaces : option Workspaces;
  ec_why : string;
  ec_inFlight : bool;
  ec_deferredCandidate : bool;
}.

#[export] Instance endedCycle_spread : Spread endedCycle := λ c,
  MkEndedCycle (ec_issue c) (ec_workspace c) (ec_workspaces c) (ec_why c) (ec_inFlight c)
    (ec_deferredCandidate c).

#[export] Instance set_ec_inFlight : Setter ec_inFlight. Proof. field_setter. Defined.
#[export] Instance set_ec_deferredCandidate : Setter ec_deferredCandidate.
Proof. field_setter. Defined.

Record markerStore := MkStore { ms_ws : Workspaces; ms_root : string }.

Definition sameStore (m other : markerStore) : bool := bool_decide (ms_root m = ms_root other).

(** [pc_id] is the pointer; the goroutine of a clear in flight holds it. *)
Record pendingClear := MkClear {
  pc_id : Z;
  pc_issue : Issue;
  pc_store : markerStore;
  pc_inFlight : bool;
  pc_abandoned : bool;
}.

#[export] Instance pendingClear_spread : Spread pendingClear := λ p,
  MkClear (pc_id p) (pc_issue p) (pc_store p) (pc_inFlight p) (pc_abandoned p).
#[export] Instance set_pc_inFlight : Setter pc_inFlight. Proof. field_setter. Defined.
#[export] Instance set_pc_abandoned : Setter pc_abandoned. Proof. field_setter. Defined.

Definition matches (p : pendingClear) (identifier : string) (store : markerStore) : bool :=
  bool_decide (is_Identifier (pc_issue p) = identifier) && sameStore (pc_store p) store.

Record TransitionEntry := MkTransition {
  te_TS : Z;
  te_Issue : string;
  te_From : State;
  te_To : State;
  te_Actor : string;
  te_Reason : string;
  te_RunID : string;
  te_FailureReason : FailureReason;
}.

Record AttemptOutcome := MkAttemptOutcome {
  ao_Issue : string;
  ao_Attempt : Z;
  ao_Turns : Z;
  ao_RunID : string;
  ao_Agent : AgentDescriptor;
  ao_StartedAt : Z;
  ao_EndedAt : Z;
  ao_Ran : bool;
  ao_FailureReason : FailureReason;
  ao_Verdict : Evidence;
  ao_Usage : Usage;
}.

Record parkedWant := MkParkedWant { pw_id : string; pw_labelsSettled : bool }.

(** [refreshResult]: the issue of a [Get], which may be nil, and its error. *)
Definition refreshResult : Type := answer (option Issue).

Record sweepResult := MkSweepResult {
  sr_read : bool;
  sr_issues : list Issue;
  sr_err : option fault;
}.

(** [sweepResult.byID]: a later issue of the same identifier wins. *)
Definition byID (res : sweepResult) : gmap string Issue :=
  foldl (λ seen iss, <[is_Identifier iss := iss]> seen) ∅ (sr_issues res).

Definition gone (res : refreshResult) : bool :=
  err_Is res.2 ErrIssueNotFound || (is_nil res.2 && is_nil res.1).

(** What recovery read of one claim. Of a candidate [rc_Assignees] is kept in the
    classification; the issue itself is [rf_issue]. *)
Record recoveryFacts := MkRecoveryFacts {
  rf_issue : Issue;
  rf_candidate : recoveryCandidate;
  rf_events : list ClaimEvent;
  rf_marker : recoveryMarkerState;
  rf_claimBase : ClaimBase;
  rf_preclassified : bool;
  rf_verdict : recoveryVerdict;
  rf_verify : VerifyResult;
  rf_workspace : Workspace;
  rf_failure : RunFailure;
  rf_failureSurvived : bool;
}.

#[export] Instance recoveryFacts_spread : Spread recoveryFacts := λ f,
  MkRecoveryFacts (rf_issue f) (rf_candidate f) (rf_events f) (rf_marker f) (rf_claimBase f)
    (rf_preclassified f) (rf_verdict f) (rf_verify f) (rf_workspace f) (rf_failure f)
    (rf_failureSurvived f).
#[export] Instance set_rf_marker : Setter rf_marker. Proof. field_setter. Defined.
#[export] Instance set_rf_claimBase : Setter rf_claimBase. Proof. field_setter. Defined.
#[export] Instance set_rf_preclassified : Setter rf_preclassified. Proof. field_setter. Defined.
#[export] Instance set_rf_verdict : Setter rf_verdict. Proof. field_setter. Defined.
#[export] Instance set_rf_verify : Setter rf_verify. Proof. field_setter. Defined.
#[export] Instance set_rf_workspace : Setter rf_workspace. Proof. field_setter. Defined.
#[export] Instance set_rf_failure : Setter rf_failure. Proof. field_setter. Defined.
#[export] Instance set_rf_failureSurvived : Setter rf_failureSurvived.
Proof. field_setter. Defined.

(** The workspace cleanup pass. *)
Record sweepPlan := MkSweepPlan {
  pl_refs : list WorkspaceRef;
  pl_full : bool;
  pl_owned : gset string;
  pl_live : bool;
  pl_cursor : string;
  pl_cur : snapshot;
}.

Record sweepResultSet := MkSweepSet {
  ss_deferred : gmap string WorkspaceRef;
  ss_skipped : gmap string WorkspaceRef;
  ss_cursor : string;
  ss_listFailed : bool;
}.

(** Where a cleanup pass is: it has not listed yet, is asking about a workspace, waits
    for the loop to reserve its issue, or works under the reservation. *)
Inductive sweepStage :=
  | SwListing
  | SwAsking
  | SwReserving (ref : WorkspaceRef)
  | SwDisposing (ref : WorkspaceRef).

(** ** Signals *)

(** [issue], [token] and [generation] of a signal to one record. *)
Record header := MkHeader { hd_issue : string; hd_token : Z; hd_generation : Z }.

(** What [ClaimBase] answered beside a failure. *)
Record cycleReading := MkCycleReading {
  cy_refs : list WorkspaceRef;
  cy_workspaces : Workspaces;
  cy_err : option fault;
  cy_seq : Z;
}.

(** [sigAdopt] carries the snapshot its [commit] publishes, whether [commit] panics, and
    whether the caller gave up before the loop got to it. *)
Record adoption := MkAdoption {
  ad_id : Z;
  ad_prev : option Bundle;
  ad_next : option Bundle;
  ad_commit : snapshot;
  ad_panics : bool;
  ad_cancelled : bool;
}.

Inductive signal :=
  | SigTick
  | SigReconciled (refreshed : gmap string refreshResult) (parked : list parkedWant) (sweep : sweepResult)
  | SigTickResult (candidates : list Issue) (err : option fault) (revision : Z)
  | SigClaimed (h : header) (verified : bool) (err : option fault)
  | SigApproved (h : header) (history : list ClaimEvent) (approval : ContentApproval)
      (requiredLabels : list string) (claimPrincipal : string) (err : option fault)
  | SigClaimBaseBegun (h : header) (err : option fault) (claimBase : ClaimBase)
      (claimBaseErr : option fault) (cycle : option cycleReading)
  | SigPrepared (h : header) (ws : Workspace) (facts : LocalBranchFacts) (err : option fault)
      (claimBase : ClaimBase) (claimBaseErr : option fault)
  | SigStarted (h : header) (handle : option Z) (err : option fault)
  | SigRunEvent (h : header) (event : Event)
  | SigEventsClosed (h : header) (sawTerminal : bool)
  | SigHandleDone (h : header)
  | SigProbed (h : header) (probe : Termination)
  | SigSummarized (h : header) (facts : AttemptFacts) (err : option fault)
  | SigVerified (h : header) (verify : VerifyResult) (err : option fault) (epochFault : bool)
      (epochDetail : string) (claimEpochReadFailed : bool)
  | SigStopped (h : header) (termination : Termination)
  | SigTimer (h : header) (timer : timerKind)
  | SigTimerFetched (h : header) (timer : timerKind) (revision : Z) (requiredLabels : list string)
      (claimPrincipal : string) (refetched : option Issue) (history : list ClaimEvent)
      (approval : ContentApproval) (claimBase : ClaimBase) (claimBaseErr : option fault)
      (runMarker : RunMarker) (markerErr : option fault) (err : option fault)
  | SigEffectDone (h : header) (effect : string) (err : option fault)
  | SigOwedConfirmed (h : header) (refetched : option Issue) (effect : string) (err : option fault)
  | SigClaimAnchor (h : header) (anchor : Z) (cycleSuperseded : bool) (cycleApprovalErr : option fault)
      (issueRevision : string) (err : option fault)
  | SigDoneOwnership (h : header) (refetched : option Issue) (err : option fault)
  | SigHeldConfirmed (h : header) (refetched : option Issue) (err : option fault)
  | SigHeldHistory (h : header) (refetched : Issue) (anchor : Z) (verified : bool)
      (cycleSuperseded : bool) (cycleApprovalErr : option fault) (err : option fault)
  | SigCycleDisposed (address : string) (err : option fault)
  | SigHeldReleased (h : header) (err : option fault)
  | SigParkedConfirmed (h : header) (refetched : option Issue) (labelsSettled : bool) (err : option fault)
  | SigAdopt (a : adoption)
  | SigShutdown (drained : Z)
  | SigRecovered (h : header) (revision : Z) (recovery : option (recoveryVerdict * recoveryFacts))
      (err : option fault)
  | SigRecoveryScan (candidates : list Issue) (err : option fault) (revision : Z)
  | SigSwept (res : sweepResultSet)
  | SigSweepReserve (identifier : string)
  | SigSweepRelease (identifier : string)
  | SigMarkerCleared (clear : Z) (err : option fault)
  | SigCycleScan (cycle : cycleReading).

(** ** Goroutines *)

(** One started worker, with what it captured. [JPump] carries its name, the handle,
    whether the event stream was terminal and closed, and whether its context was
    cancelled; [JStart] the marker clears it waits out. *)
Inductive job :=
  | JClaim (h : header) (issue : Issue)
  | JApprove (h : header) (issue : Issue) (contentSource : bool) (required : list string)
      (principal : string)
  | JClaimBase (h : header) (issue : Issue) (epoch : Z) (ws : Workspaces) (cycleSeq : option Z)
  | JPrepare (h : header) (issue : Issue) (attempt epoch : Z)
  | JStart (h : header) (issue : Issue) (spec : RunSpec) (waits : list Z)
  | JPump (pid : Z) (h : header) (handle : Z) (sawTerminal closed cancelled : bool)
  | JSummary (h : header) (ws : Workspace)
  | JVerify (h : header) (issue : Issue) (ws : Workspace) (principal : string)
  | JProbe (h : header) (handle : Z)
  | JStop (h : header) (handle : Z) (mode : StopMode)
  | JTimer (h : header) (kind : timerKind)
  | JTimerFetch (h : header) (kind : timerKind) (revision : Z) (issue : Issue) (expectedEpoch : Z)
  | JOwedConfirm (h : header) (effect : string)
  | JParkedConfirm (h : header) (settled : bool)
  | JAnchor (h : header) (issue : Issue) (required : list string) (ws : Workspaces) (principal : string)
  | JDoneOwnership (h : header)
  | JHeldConfirm (h : header)
  | JHeldHistory (h : header) (issue : Issue) (required : list string) (ws : Workspaces)
      (principal : string)
  | JCycleDispose (address : string) (ws : Workspace) (provider : Workspaces)
  | JClear (clear : Z) (issue : Issue) (store : markerStore)
  | JReconcile (wants : list (string * Issue)) (parked : list parkedWant) (sweepNeeded : bool)
  | JDispatch (revision : Z)
  | JRecover (h : header) (issue : Issue) (cur : snapshot)
  | JScan (revision : Z)
  | JCycleScan (ws : Workspaces) (seq : Z)
  | JSweep (plan : sweepPlan) (todo rest : list WorkspaceRef) (out : sweepResultSet) (stage : sweepStage).

(** An entry of the serial effects queue: a record's owed effect, or the release of a
    held claim. *)
Inductive effect :=
  | EffOwed (h : header) (eff : owedEffect)
  | EffHeldRelease (h : header) (issue : Issue).

Definition effectsQueueDepth : Z := 256.
Definition signalsDepth : Z := 64.

(** ** The orchestrator *)

(** Beside the fields of the struct: [o_cur] is the snapshot the runtime source
    publishes now, [o_clock] what the clock says, [o_order] the order in which the
    [range] of a map visits its keys (the first argument tells the loops apart),
    [o_signals] and [o_effects] the contents of the two channels, [o_jobs] the
    goroutines, [o_fresh] the next name of a pump or a pending clear, [o_acked] and
    [o_adopted] the drain waiters closed and the adoptions answered so far, and
    [o_wedged] records that the loop blocked sending to its own channel. *)
Record Orchestrator := MkOrchestrator {
  o_cfg : Config;
  o_cur : snapshot;
  o_clock : Z;
  o_order : nat → list string → list string;
  o_Transitions : list TransitionEntry;
  o_Attempts : list AttemptOutcome;
  o_signals : list signal;
  o_effects : list effect;
  o_jobs : list job;
  o_heap : gmap Z RunRecord;
  o_records : gmap string Z;
  o_held : gmap string heldClaim;
  o_nextToken : Z;
  o_fresh : Z;
  o_reconcileInFlight : bool;
  o_dispatchInFlight : bool;
  o_markerClears : list pendingClear;
  o_sweepDisposing : gset string;
  o_scanOwed : bool;
  o_scanInFlight : bool;
  o_cycleScanInFlight : bool;
  o_cycleScanFailed : bool;
  o_cycleMutationSeq : Z;
  o_cycleMutationsInFlight : Z;
  o_sweepPassOwed : bool;
  o_sweepDeferred : gmap string WorkspaceRef;
  o_sweepSkipped : gmap string WorkspaceRef;
  o_sweepCursor : string;
  o_sweepBundle : option Bundle;
  o_sweepInFlight : bool;
  o_parkedCursor : string;
  o_owedCursor : string;
  o_heldCursor : string;
  o_disposalCursor : string;
  o_endedCycles : gmap string endedCycle;
  o_draining : bool;
  o_drainWaiters : list Z;
  o_recovered : bool;
  o_published : gmap string Snapshot;
  o_heldCount : Z;
  o_drainingPublished : bool;
  o_identityWork : bool;
  o_acked : list Z;
  o_adopted : list (Z * option error);
  o_wedged : bool;
}.

#[export] Instance Orchestrator_spread : Spread Orchestrator := λ o,
  MkOrchestrator (o_cfg o) (o_cur o) (o_clock o) (o_order o) (o_Transitions o) (o_Attempts o)
    (o_signals o) (o_effects o) (o_jobs o) (o_heap o) (o_records o) (o_held o)
    (o_nextToken o) (o_fresh o) (o_reconcileInFlight o) (o_dispatchInFlight o)
    (o_markerClears o) (o_sweepDisposing o) (o_scanOwed o) (o_scanInFlight o)
    (o_cycleScanInFlight o) (o_cycleScanFailed o) (o_cycleMutationSeq o)
    (o_cycleMutationsInFlight o) (o_sweepPassOwed o) (o_sweepDeferred o) (o_sweepSkipped o)
    (o_sweepCursor o) (o_sweepBundle o) (o_sweepInFlight o) (o_parkedCursor o)
    (o_owedCursor o) (o_heldCursor o) (o_disposalCursor o) (o_endedCycles o) (o_draining o)
    (o_drainWaiters o) (o_recovered o) (o_published o) (o_heldCount o)
    (o_drainingPublished o) (o_identityWork o) (o_acked o) (o_adopted o) (o_wedged o).

#[export] Instance set_o_cur : Setter o_cur. Proof. field_setter. Defined.
#[export] Instance set_o_clock : Setter o_clock. Proof. field_setter. Defined.
#[export] Instance set_o_order : Setter o_order. Proof. field_setter. Defined.
#[export] Instance set_o_Transitions : Setter o_Transitions. Proof. field_setter. Defined.
#[export] Instance set_o_Attempts : Setter o_Attempts. Proof. field_setter. Defined.
#[export] Instance set_o_signals : Setter o_signals. Proof. field_setter. Defined.
#[export] Instance set_o_effects : Setter o_effects. Proof. field_setter. Defined.
#[export] Instance set_o_jobs : Setter o_jobs. Proof. field_setter. Defined.
#[export] Instance set_o_heap : Setter o_heap. Proof. field_setter. Defined.
#[export] Instance set_o_records : Setter o_records. Proof. field_setter. Defined.
#[export] Instance set_o_held : Setter o_held. Proof. field_setter. Defined.
#[export] Instance set_o_nextToken : Setter o_nextToken. Proof. field_setter. Defined.
#[export] Instance set_o_fresh : Setter o_fresh. Proof. field_setter. Defined.
#[export] Instance set_o_reconcileInFlight : Setter o_reconcileInFlight. Proof. field_setter. Defined.
#[export] Instance set_o_dispatchInFlight : Setter o_dispatchInFlight. Proof. field_setter. Defined.
#[export] Instance set_o_markerClears : Setter o_markerClears. Proof. field_setter. Defined.
#[export] Instance set_o_sweepDisposing : Setter o_sweepDisposing. Proof. field_setter. Defined.
#[export] Instance set_o_scanOwed : Setter o_scanOwed. Proof. field_setter. Defined.
#[export] Instance set_o_scanInFlight : Setter o_scanInFlight. Proof. field_setter. Defined.
#[export] Instance set_o_cycleScanInFlight : Setter o_cycleScanInFlight. Proof. field_setter. Defined.
#[export] Instance set_o_cycleScanFailed : Setter o_cycleScanFailed. Proof. field_setter. Defined.
#[export] Instance set_o_cycleMutationSeq : Setter o_cycleMutationSeq. Proof. field_setter. Defined.
#[export] Instance set_o_cycleMutationsInFlight : Setter o_cycleMutationsInFlight. Proof. field_setter. Defined.
#[export] Instance set_o_sweepPassOwed : Setter o_sweepPassOwed. Proof. field_setter. Defined.
#[export] Instance set_o_sweepDeferred : Setter o_sweepDeferred. Proof. field_setter. Defined.
#[export] Instance set_o_sweepSkipped : Setter o_sweepSkipped. Proof. field_setter. Defined.
#[export] Instance set_o_sweepCursor : Setter o_sweepCursor. Proof. field_setter. Defined.
#[export] Instance set_o_sweepBundle : Setter o_sweepBundle. Proof. field_setter. Defined.
#[export] Instance set_o_sweepInFlight : Setter o_sweepInFlight. Proof. field_setter. Defined.
#[export] Instance set_o_parkedCursor : Setter o_parkedCursor. Proof. field_setter. Defined.
#[export] Instance set_o_owedCursor : Setter o_owedCursor. Proof. field_setter. Defined.
#[export] Instance set_o_heldCursor : Setter o_heldCursor. Proof. field_setter. Defined.
#[export] Instance set_o_disposalCursor : Setter o_disposalCursor. Proof. field_setter. Defined.
#[export] Instance set_o_endedCycles : Setter o_endedCycles. Proof. field_setter. Defined.
#[export] Instance set_o_draining : Setter o_draining. Proof. field_setter. Defined.
#[export] Instance set_o_drainWaiters : Setter o_drainWaiters. Proof. field_setter. Defined.
#[export] Instance set_o_recovered : Setter o_recovered. Proof. field_setter. Defined.
#[export] Instance set_o_published : Setter o_published. Proof. field_setter. Defined.
#[export] Instance set_o_heldCount : Setter o_heldCount. Proof. field_setter. Defined.
#[export] Instance set_o_drainingPublished : Setter o_drainingPublished. Proof. field_setter. Defined.
#[export] Instance set_o_identityWork : Setter o_identityWork. Proof. field_setter. Defined.
#[export] Instance set_o_acked : Setter o_acked. Proof. field_setter. Defined.
#[export] Instance set_o_adopted : Setter o_adopted. Proof. field_setter. Defined.
#[export] Instance set_o_wedged : Setter o_wedged. Proof. field_setter. Defined.

Definition definition (o : Orchestrator) : WorkflowDefinition := sn_Definition (o_cur o).
Definition bundle (o : Orchestrator) : Bundle := sn_Runtime (o_cur o).
Definition limits (o : Orchestrator) : LimitsConfig := df_Limits (definition o).

(** [go func() { ... }()] *)
Definition spawn (j : job) (o : Orchestrator) : Orchestrator := o <| o_jobs ::= λ l, l ++ [j] |>.

Definition newToken (o : Orchestrator) : Z * Orchestrator :=
  (o_nextToken o + 1, o <| o_nextToken := o_nextToken o + 1 |>).

Definition fresh_name (o : Orchestrator) : Z * Orchestrator :=
  (o_fresh o + 1, o <| o_fresh := o_fresh o + 1 |>).

(** [o.send] from the loop itself: the loop is the only receiver, so with the buffer
    full it never returns. *)
Definition send_self (s : signal) (o : Orchestrator) : Orchestrator :=
  if Z.of_nat (length (o_signals o)) <? signalsDepth then o <| o_signals ::= λ l, l ++ [s] |>
  else o <| o_wedged := true |>.

(** [o.enqueue]: refused when the effects queue is full. *)
Definition enqueue (e : effect) (o : Orchestrator) : bool * Orchestrator :=
  if Z.of_nat (length (o_effects o)) <? effectsQueueDepth
  then (true, o <| o_effects ::= λ l, l ++ [e] |>)
  else (false, o).

Definition publish (r : RunRecord) (o : Orchestrator) : Orchestrator :=
  o <| o_published ::= <[is_Identifier (r_Issue r) := snapshot_of r]> |>.

Definition forget (identifier : string) (o : Orchestrator) : Orchestrator :=
  o <| o_records ::= delete identifier |> <| o_published ::= delete identifier |>.

(** *** A record in the hands of a handler

    A handler of one record works on the record its pointer names and on the rest of
    the orchestrator. *)
Record cell := MkCell { c_r : RunRecord; c_o : Orchestrator }.

#[export] Instance cell_spread : Spread cell := λ c, MkCell (c_r c) (c_o c).
#[export] Instance set_c_r : Setter c_r. Proof. field_setter. Defined.
#[export] Instance set_c_o : Setter c_o. Proof. field_setter. Defined.

(** The zero [Record{}]; its definition pointer is read by no record that was made. *)
Definition zero_record (d : WorkflowDefinition) : RunRecord :=
  MkRecord (MkIssue "" "" "" [] "" [] [] "" 0 0 "" false) "" zero_time false false 0 false false ""
    false 0 0 0 "" "" "" "" 0 no_attemptFacts false false false false no_workspace "" "" "" d
    None None f64_zero zero_time no_usage (MkAgent "" "") false false false false false "" false
    false false false 0 None false false false false false [] false false false false false false
    false false None false 0 "" 0 false false false zero_time timerBackoff zero_time.

(** The record a token points to. *)
Definition deref (t : Z) (o : Orchestrator) : RunRecord :=
  default (zero_record (definition o)) (o_heap o !! t).

Definition store_record (t : Z) (r : RunRecord) (o : Orchestrator) : Orchestrator :=
  o <| o_heap ::= <[t := r]> |>.

(** Run a handler of the record [t] points to. *)
Definition on_record (t : Z) (f : cell → cell) (o : Orchestrator) : Orchestrator :=
  let c := f (MkCell (deref t o) o) in store_record t (c_r c) (c_o c).

(** The issue, token and generation a goroutine captures. *)
Definition header_of (r : RunRecord) : header :=
  MkHeader (is_Identifier (r_Issue r)) (r_token r) (r_generation r).
