(* ===== verification/OrchApproval.v ===== *)
(** * OrchApproval: content approval, rotation and the account of an attempt

    The pure functions of [approval.go] (is the text of an issue what a labeler
    approved), of [absence.go] ([rotate], which picks the candidates a tick may spend a
    request on) and of [summary.go] (the account of a finished attempt the next prompt
    carries, cut to a byte budget at rune boundaries). *)

From S2P Require Import Prelude GoStd GoStdFacts Update Core Template OrchState OrchRecover.
From S2P Require Import OrchRecord.

(** ** approval.go *)

Definition ErrApprovalInstantUnknown : error := errors_New
  "the tracker's change log does not say when a required label was applied, so there is no approving instant to bind content to (SPEC §9.5)".
Definition ErrContentEditUnknown : error := errors_New
  "the tracker cannot say when the issue's title or body was last edited (SPEC §9.5, §9.10)".
Definition ErrContentDrift : error := errors_New
  "the issue's title or body was edited after the approving label, so its content is not what a labeler approved (SPEC §9.5)".
Definition ErrContentUnorderable : error := errors_New
  "the issue's title or body was edited in the same second as the approving label, so the two cannot be ordered (SPEC §9.5, §8.4)".
Definition ErrApprovalUnread : error := errors_New
  "orchestrator: the change log names no standing approval to compare against".

Definition approvalGranularity : Z := 1000000000.

(** [t.Truncate(d)]: down to a multiple of [d] since the zero time. *)
Definition time_truncate (d t : Z) : Z := t - t mod d.

Section approval.
Context {T : GoTables}.

(** The replay of one label's events: the event that stands, if any. *)
Definition standing_step (label : string) (st : option ClaimEvent) (ev : ClaimEvent) : option ClaimEvent :=
  if EqualFold (ce_Subject ev) label then
    match ce_Kind ev with
    | ClaimEventLabeled => Some ev
    | ClaimEventUnlabeled => None
    | _ => st
    end
  else st.

Definition standingLabeledEvent (history : list ClaimEvent) (label : string) : option ClaimEvent :=
  foldl (standing_step label) None history.

Definition standingLabeledAt (history : list ClaimEvent) (label : string) : option Z :=
  ce_At <$> standingLabeledEvent history label.

Definition standing_id_step (label : string) (st : Z * bool) (ev : ClaimEvent) : Z * bool :=
  if EqualFold (ce_Subject ev) label then
    match ce_Kind ev with
    | ClaimEventLabeled => (ce_ID ev, true)
    | ClaimEventUnlabeled => (0, false)
    | _ => st
    end
  else st.

Definition standingLabeledID (history : list ClaimEvent) (label : string) : option Z :=
  let '(id, applied) := foldl (standing_id_step label) (0, false) history in
  if negb applied || (id <=? 0) then None else Some id.

(** The latest of the instants the required labels stand since. *)
Fixpoint latest_instant (history : list ClaimEvent) (labels : list string) (latest : Z) : option Z :=
  match labels with
  | [] => Some latest
  | want :: labels =>
      match standingLabeledAt history want with
      | None => None
      | Some at_ => latest_instant history labels (if time_after at_ latest then at_ else latest)
      end
  end.

Definition approvingInstant (history : list ClaimEvent) (requiredLabels : list string) : option Z :=
  if bool_decide (requiredLabels = []) then None
  else latest_instant history requiredLabels zero_time.

Fixpoint standing_anchor (history : list ClaimEvent) (labels : list string) (anchor : Z) : Z :=
  match labels with
  | [] => anchor
  | want :: labels =>
      match standingLabeledID history want with
      | None => 0
      | Some id => standing_anchor history labels (if anchor <? id then id else anchor)
      end
  end.

Definition StandingApproval (history : list ClaimEvent) (requiredLabels : list string) : Z :=
  if bool_decide (requiredLabels = []) then 0 else standing_anchor history requiredLabels 0.

Fixpoint cycle_anchor (history : list ClaimEvent) (labels : list string) (anchor : Z) : option Z :=
  match labels with
  | [] => Some anchor
  | want :: labels =>
      match standingLabeledEvent history want with
      | None => None
      | Some event =>
          if ce_ID event <=? 0 then None
          else cycle_anchor history labels (if anchor <? ce_ID event then ce_ID event else anchor)
      end
  end.

Definition approvalCycleAnchor (history : list ClaimEvent) (requiredLabels : list string) : option Z :=
  if bool_decide (requiredLabels = []) then None else cycle_anchor history requiredLabels 0.

Definition checkApproval (history : list ClaimEvent) (requiredLabels : list string)
    (read : ContentApproval) : result approvedContent :=
  match approvingInstant history requiredLabels with
  | None => Err ErrApprovalInstantUnknown
  | Some approvedAt =>
      let ok := MkApproved (ca_Content read) approvedAt in
      match ed_Status (ca_Edit read) with
      | ContentEditNever => Ok ok
      | ContentEditAt =>
          let editedAt := time_truncate approvalGranularity (ed_At (ca_Edit read)) in
          let approvedSec := time_truncate approvalGranularity approvedAt in
          if time_after editedAt approvedSec then
            Err (errorf_w ErrContentDrift
              (": edited " +:+ rfc3339_utc editedAt +:+ ", approved " +:+ rfc3339_utc approvedSec))
          else if editedAt =? approvedSec then
            Err (errorf_w ErrContentUnorderable (": both at " +:+ rfc3339_utc approvedSec))
          else Ok ok
      | ContentEditUnknown => Err ErrContentEditUnknown
      end
  end.

(** [cycleSuperseded] of [cycle.go], given what the provider recorded. *)
Definition cycleSuperseded (ws : Workspaces) (standing : Z) (recorded : answer Z) : bool * option fault :=
  if negb (wk_cycleApproval ws) then (false, None)
  else if standing <=? 0 then (false, Some (MkFault ErrApprovalUnread None))
  else match recorded.2 with
       | Some e => (false, Some e)
       | None => ((0 <? recorded.1) && negb (recorded.1 =? standing), None)
       end.

(** ** Routing *)

Definition containsFold (haystack : list string) (needle : string) : bool :=
  existsb (λ h, EqualFold h needle) haystack.

Definition active (def : WorkflowDefinition) (issue : Issue) : bool :=
  let states := if bool_decide (df_ActiveStates def = []) then ["open"] else df_ActiveStates def in
  containsFold states (is_State issue).

Definition hasRequiredLabels (def : WorkflowDefinition) (issue : Issue) : bool :=
  forallb (containsFold (is_Labels issue)) (df_RequiredLabels def).

Definition routable (cur : snapshot) (issue : Issue) : bool :=
  hasRequiredLabels (sn_Definition cur) issue
  && match is_Assignees issue with
     | [a] => EqualFold a (bu_ClaimPrincipal (sn_Runtime cur))
     | _ => false
     end.

Definition hasStateLabel (issue : Issue) : bool :=
  existsb (λ l, (4 <=? str_len l) && EqualFold (str_take 4 l) "ben:") (is_Labels issue).
End approval.

(** ** rotate

    The code sorts its candidates by identifier, finds the first above the cursor and
    takes [n] from there around the end; the new cursor is the last taken. *)

Section rotate.
Context {A : Type} (identifier : A → string).

Definition id_lt (x y : A) : bool := String.ltb (identifier x) (identifier y).

Fixpoint first_above (cursor : string) (items : list A) (i : nat) : option nat :=
  match items with
  | [] => None
  | it :: items =>
      if String.ltb cursor (identifier it) then Some i else first_above cursor items (S i)
  end.

Fixpoint rotate_take (items : list A) (start i k : nat) (cursor : string) (picked : list A)
    : list A * string :=
  match k with
  | O => (picked, cursor)
  | S k =>
      match items !! ((start + i) mod length items)%nat with
      | Some it => rotate_take items start (S i) k (identifier it) (picked ++ [it])
      | None => (picked, cursor)
      end
  end.

Definition rotate (items : list A) (cursor : string) (n : nat) : list A * string :=
  if bool_decide (length items = 0)%nat || bool_decide (n = 0)%nat then ([], cursor)
  else
    let items := stable_sort id_lt items in
    let start := default O (first_above cursor items O) in
    rotate_take items start O (Nat.min n (length items)) cursor [].
End rotate.

(** ** summary.go: the account of an attempt *)

Definition summaryBudget : Z := 16384.
Definition summaryOutputReserve : Z := 8192.
Definition summaryIndent : string := "  ".

(** [utf8.RuneStart] of the byte at an index. *)
Definition rune_start_at (s : string) (i : nat) : bool :=
  match String.get i s with Some c => negb (is_cont (byte_val c)) | None => false end.

(** [for cut > 0 && !utf8.RuneStart(s[cut]) { cut-- }] *)
Fixpoint cut_down (s : string) (cut : nat) : nat :=
  match cut with
  | O => O
  | S n => if rune_start_at s cut then cut else cut_down s n
  end.

Definition truncateRunes (s : string) (max : Z) : string :=
  if max <=? 0 then ""
  else if str_len s <=? max then s
  else str_take (cut_down s (Z.to_nat max)) s.

(** [for cut < len(s) && !utf8.RuneStart(s[cut]) { cut++ }], for [k] bytes more. *)
Fixpoint cut_up (s : string) (cut k : nat) : nat :=
  match k with
  | O => cut
  | S k => if rune_start_at s cut then cut else cut_up s (S cut) k
  end.

Definition tailRunes (s : string) (max : Z) : string :=
  if max <=? 0 then ""
  else if str_len s <=? max then s
  else
    let cut := Z.to_nat (str_len s - max) in
    str_drop (cut_up s cut (String.length s - cut)) s.

Definition has_suffix_nl (s : string) : bool :=
  match String.get (String.length s - 1) s with
  | Some c => byte_val c =? 10
  | None => false
  end.

Definition renderList (label : string) (items : list string) (dropped : Z) (more : bool) : string :=
  if bool_decide (items = []) && (dropped =? 0) && negb more then label +:+ ": none" +:+ nl
  else
    label +:+ ":" +:+ nl
    +:+ foldr (λ item acc, summaryIndent +:+ item +:+ nl +:+ acc) "" items
    +:+ (if (0 <? dropped) && more
         then summaryIndent +:+ "… " +:+ itoa dropped
              +:+ " more not shown, and there were others beyond the read limit" +:+ nl
         else if 0 <? dropped then summaryIndent +:+ "… " +:+ itoa dropped +:+ " more not shown" +:+ nl
         else if more then summaryIndent +:+ "… more, beyond the read limit" +:+ nl
         else "").

(** The loop of [listSection], from [kept] items down. *)
Fixpoint list_section_from (kept : nat) (label : string) (items : list string) (more : bool)
    (budget : Z) : string :=
  match kept with
  | O => renderList label [] (Z.of_nat (length items)) more
  | S n =>
      let s := renderList label (take kept items) (Z.of_nat (length items - kept)) more in
      if str_len s <=? budget then s else list_section_from n label items more budget
  end.

Definition listSection (label : string) (items : list string) (more : bool) (budget : Z) : string :=
  list_section_from (length items) label items more budget.

Record attemptAccount := MkAccount {
  aa_attempt : Z;
  aa_outcome : string;
  aa_facts : AttemptFacts;
  aa_factsRead : bool;
  aa_output : string;
  aa_outputTotal : Z;
}.

Definition observed (a : attemptAccount) (budget : Z) : string :=
  if negb (aa_factsRead a) then "commits and files changed: not read" +:+ nl
  else
    let commits := listSection "commits" (af_Commits (aa_facts a)) (af_CommitsTruncated (aa_facts a)) budget in
    commits +:+ listSection "files changed" (af_Files (aa_facts a)) (af_FilesTruncated (aa_facts a))
      (budget - str_len commits).

Definition saidLabel : string := "what the agent said, most recent last".

Definition saidTruncated (shown total : Z) : string :=
  saidLabel +:+ " (truncated, " +:+ itoa shown +:+ " of " +:+ itoa total +:+ " bytes):" +:+ nl.

Definition saidHeading (total shown : Z) : string :=
  if shown <? total then saidTruncated shown total
  else saidLabel +:+ " (" +:+ itoa shown +:+ " bytes):" +:+ nl.

(** [strings.TrimSuffix(s, "\n")] *)
Definition trim_nl (s : string) : string :=
  if has_suffix_nl s then str_take (String.length s - 1) s else s.

Definition said (a : attemptAccount) (budget : Z) : string :=
  if bool_decide (aa_output a = "") then
    if 0 <? aa_outputTotal a
    then saidLabel +:+ ": none retained, of " +:+ itoa (aa_outputTotal a) +:+ " bytes" +:+ nl
    else saidLabel +:+ ": nothing" +:+ nl
  else
    let room := budget - str_len (saidTruncated (aa_outputTotal a) (aa_outputTotal a)) in
    if room <=? 0 then saidLabel +:+ ": not shown, of " +:+ itoa (aa_outputTotal a) +:+ " bytes" +:+ nl
    else
      let shown := if room <? str_len (aa_output a) then tailRunes (aa_output a) room else aa_output a in
      let shown := if has_suffix_nl shown then shown else shown +:+ nl in
      saidHeading (aa_outputTotal a) (str_len (trim_nl shown)) +:+ shown.

Definition renderWithin (a : attemptAccount) (budget reserve : Z) : string :=
  let head := "attempt " +:+ itoa (aa_attempt a) +:+ " ended: " +:+ aa_outcome a +:+ nl in
  let obs := observed a (budget - reserve - str_len head) in
  let sd := said a (budget - str_len head - str_len obs) in
  let out := head +:+ obs +:+ sd in
  if budget <? str_len out then truncateRunes out budget else out.

Definition render (a : attemptAccount) : string := renderWithin a summaryBudget summaryOutputReserve.

Definition retainOutput (text : string) (r : RunRecord) : RunRecord :=
  let joined :=
    if negb (bool_decide (r_outputTail r = "")) && negb (has_suffix_nl (r_outputTail r))
    then nl +:+ text else text in
  r <| r_outputTotal := r_outputTotal r + str_len joined |>
    <| r_outputTail := tailRunes (r_outputTail r +:+ joined) summaryBudget |>.

Definition recordAccount (outcome : string) (r : RunRecord) : RunRecord :=
  r <| r_previousAttempt :=
    render (MkAccount (r_Attempt r) outcome (r_attemptFacts r) (r_attemptFactsRead r)
      (r_outputTail r) (r_outputTotal r)) |>.

Definition forgetAccount (r : RunRecord) : RunRecord := r <| r_previousAttempt := "" |>.
