(* ===== verification/OrchPipeline.v ===== *)
(** * OrchPipeline: the phases of a run

    Models the handlers of one record: [transition], owed effects, disposal and release
    of [orchestrator.go] and [owed.go]; marker clears ([marker.go]); the ended-cycle
    ledger ([cycle.go]); the attempt log ([attempt.go]); the failure routing of
    [credential.go]; the phases claim, approve, initialize, prepare, start, run, stop,
    summarize, verify and retry of [pipeline.go], [summary.go] and [retry.go]; the
    hand-over of a finished run to the held claims ([held.go]).

    A handler maps a [cell] (its record and the rest) to the next one. Each [go]
    statement is a [spawn]; what its worker does with the answers it gets is
    [OrchLoop]'s. Log lines have no model. *)

From S2P Require Import Prelude GoStd Update Core Template OrchState OrchRecover OrchRecord.
From S2P Require Import OrchApproval.
From Stdlib Require Import Floats.SpecFloat.

(** ** retry.go: the jittered delay *)

Definition fnv64a (s : string) : Z :=
  (fix go (h : Z) (s : string) : Z :=
     match s with
     | EmptyString => h
     | String c s => go ((Z.lxor h (byte_val c) * 1099511628211) mod 2 ^ 64) s
     end) 14695981039346656037 s.

Definition f64_of_Z (z : Z) : float64 := binary_normalize 53 1024 z 0 false.

(** 0.2 as a [float64]. *)
Definition jitterFraction : float64 := S754_finite false 7205759403792794 (-55).

(** [time.Duration(x)]: towards zero. *)
Definition f64_trunc (x : float64) : Z :=
  match x with
  | S754_finite s m e =>
      let v := if 0 <=? e then Z.pos m * 2 ^ e else Z.pos m / 2 ^ (- e) in
      if s then - v else v
  | _ => 0
  end.

Definition backoffDelay (identifier : string) (attempt max : Z) : Z :=
  let attempt := if attempt <? 1 then 1 else attempt in
  let delay := f64_of_Z (backoffBase attempt max) in
  let h := fnv64a (identifier +:+ "#" +:+ itoa attempt) in
  let unit := SFdiv 53 1024 (f64_of_Z (Z.shiftr h 11)) (f64_of_Z (2 ^ 53)) in
  let spread := SFmul 53 1024 delay jitterFraction in
  let jittered :=
    SFadd 53 1024 (SFsub 53 1024 delay spread)
      (SFmul 53 1024 (SFmul 53 1024 (f64_of_Z 2) spread) unit) in
  let out := f64_trunc jittered in
  if out <? 0 then 0 else out.

Definition continuationDelay : Z := 1000000000.

(** The trigger text of an edge of the state map. *)
Definition legal_reason (from to : State) : string :=
  match list_find (λ e, e.1 = (from, to)) legalTransitions with
  | Some (_, (_, reason)) => reason
  | None => ""
  end.

Section pipeline.
Context {T : GoTables}.

(** ** The ended-cycle ledger ([cycle.go]) *)

Definition cyclesOutliveClaims (ws : Workspaces) : bool := wk_lifecycle ws.

Definition cycleWorkspace (workspaces : Workspaces) (ws : Workspace) : Workspace :=
  if negb (cyclesOutliveClaims workspaces) || bool_decide (ws_Key ws = "") then no_workspace
  else MkWorkspace (MkPaths (wp_Path (ws_Paths ws)) "" "") (ws_Key ws) (ws_Branch ws) (ws_ClaimEpoch ws)
         "" "" false false.

Definition oweEndedCycle (id : string) (workspaces : Workspaces) (ws : Workspace) (why : string)
    (o : Orchestrator) : Orchestrator :=
  let cycle := cycleWorkspace workspaces ws in
  let path := wp_Path (ws_Paths cycle) in
  if bool_decide (ws_Key cycle = "") || bool_decide (path = "") then o
  else match o_endedCycles o !! path with
       | Some _ => o
       | None =>
           o <| o_endedCycles ::= <[path := MkEndedCycle id cycle (Some workspaces) why false false]> |>
       end.

Definition endedCycleOwed (id : string) (o : Orchestrator) : bool :=
  o_cycleScanFailed o
  || existsb (λ kc, bool_decide (ec_issue kc.2 = id)) (map_to_list (o_endedCycles o)).

(** ** Owed effects ([owed.go]) *)

Definition driveOwed (c : cell) : cell :=
  if r_owedInFlight (c_r c) then c
  else match r_owed (c_r c) with
       | [] => c
       | eff :: _ =>
           if isExit (oe_what eff) && endedCycleOwed (is_Identifier (r_Issue (c_r c))) (c_o c) then c
           else
             let '(ok, o) := enqueue (EffOwed (header_of (c_r c)) eff) (c_o c) in
             MkCell (c_r c <| r_owedInFlight := ok |>) o
       end.

Definition oweEffect (eff : owedEffect) (c : cell) : cell :=
  driveOwed (c <| c_r ::= λ r, r <| r_owed ::= λ l, l ++ [eff] |> |>).

Definition owe (what : string) (target : effectTarget) (do_ : effectDo) (c : cell) : cell :=
  oweEffect (MkOwed what target false do_) c.

Definition oweProjection (what : string) (do_ : effectDo) (c : cell) : cell :=
  oweEffect (MkOwed what effectTracker true do_) c.

(** ** Transitions *)

Definition labelName (l : StateLabel) : string :=
  if bool_decide (l = StateLabelNone) then "no state label" else "ben:" +:+ label_name l.

(** [None] is the [IllegalTransitionError], which changes nothing. *)
Definition transitionCaused (to : State) (reason : string) (cause : FailureReason) (c : cell) : option cell :=
  let from := r_State (c_r c) in
  if negb (Allowed from to) then None
  else
    let r := c_r c <| r_State := to |> <| r_UpdatedAt := o_clock (c_o c) |> in
    let entry := MkTransition (r_UpdatedAt r) (is_Identifier (r_Issue r)) from to
                   (cf_DaemonID (o_cfg (c_o c))) reason (runID r) cause in
    let o := publish r (c_o c <| o_Transitions ::= λ l, l ++ [entry] |>) in
    let want := stateLabel to in
    Some (if bool_decide (want = stateLabel from) then MkCell r o
          else
            let what :=
              if bool_decide (from = StateQueued) && bool_decide (to = StateClaimed)
              then effectClaimLabel else "project " +:+ labelName want in
            oweProjection what (DoSetStateLabels (r_Issue r) want) (MkCell r o)).

Definition transition (to : State) (reason : string) (c : cell) : option cell :=
  transitionCaused to reason "" c.

Definition comment (m : MilestoneComment) (c : cell) : cell :=
  owe ("comment " +:+ milestone_name (mc_Milestone m)) effectTracker (DoComment (r_Issue (c_r c)) m) c.

(** A comment with only a milestone and a detail. *)
Definition plain_comment (m : Milestone) (detail : string) : MilestoneComment :=
  MkMilestone m "" "" false detail.

(** ** Ends of attempts and records *)

Definition abandonPendingClaimBase (c : cell) : cell :=
  if r_claimBaseAbandonOwed (c_r c) then c
  else
    let c := c <| c_r ::= λ r, r <| r_claimBaseAbandonOwed := true |> |> in
    owe effectAbandonClaimBase effectLocal (DoAbandonPendingClaimBase (r_Issue (c_r c))) c.

Definition release (why : string) (c : cell) : cell :=
  if r_releasing (c_r c) then c
  else
    let c := c <| c_r ::= λ r, r <| r_releasing := true |> <| r_stopReason := why |> |> in
    let c := abandonPendingClaimBase c in
    owe effectRelease effectTracker (DoRelease (r_Issue (c_r c))) c.

Definition attemptEnded (c : cell) : cell :=
  if negb (r_ranThisAttempt (c_r c)) || r_afterRunFired (c_r c) then c
  else
    let c := c <| c_r ::= λ r, r <| r_afterRunFired := true |> |> in
    if negb (wk_afterRun (bu_Workspaces (bundle (c_o c)))) || negb (hasWorkspace (c_r c)) then c
    else owe "after_run hook" effectLocal (DoAfterRun (r_Workspace (c_r c))) c.

Definition oweDisposal (complete : Workspace → effectDo) (c : cell) : cell :=
  if negb (hasWorkspace (c_r c)) || r_disposalOwed (c_r c) then c
  else
    let c := c <| c_r ::= λ r, r <| r_disposalOwed := true |> |> in
    owe "dispose workspace" effectLocal (complete (r_Workspace (c_r c))) c.

Definition disposePublished (c : cell) : cell := oweDisposal (λ ws, DoDispose ws false) c.

Definition completeFailure (c : cell) : cell :=
  if negb (wk_lifecycle (bu_Workspaces (bundle (c_o c)))) then c else oweDisposal DoCompleteFailure c.

Definition completeShutdown (c : cell) : cell :=
  if negb (wk_lifecycle (bu_Workspaces (bundle (c_o c)))) then c else oweDisposal DoCompleteShutdown c.

Definition oweRemoteRevocation (c : cell) : bool * cell :=
  let id := is_Identifier (r_Issue (c_r c)) in
  let before := endedCycleOwed id (c_o c) in
  let o := oweEndedCycle id (bu_Workspaces (bundle (c_o c))) (r_Workspace (c_r c))
             "claim revoked by tracker state" (c_o c) in
  (before || endedCycleOwed id o, MkCell (c_r c) o).

Definition disposeRevoked (keep : bool) (c : cell) : cell :=
  let '(owed, c) := oweRemoteRevocation c in
  if owed then c else oweDisposal (λ ws, DoDispose ws keep) c.

Definition completeRevocationOnly (c : cell) : cell := (oweRemoteRevocation c).2.

(** [attempt.go] *)
Definition recordAttempt (reason : FailureReason) (verdict : Evidence) (c : cell) : cell :=
  if r_attemptRecorded (c_r c) || (r_attemptStartedAt (c_r c) =? zero_time) then c
  else
    let r := c_r c <| r_attemptRecorded := true |> in
    let entry := MkAttemptOutcome (is_Identifier (r_Issue r)) (r_Attempt r) (r_Turns r) (runID r)
                   (r_attemptAgent r) (r_attemptStartedAt r) (o_clock (c_o c)) (r_ranThisAttempt r)
                   reason verdict (r_attemptUsage r) in
    MkCell r (c_o c <| o_Attempts ::= λ l, l ++ [entry] |>).

(** ** Run-marker clears ([marker.go]) *)

Definition markerStoreFor (b : Bundle) : markerStore :=
  MkStore (bu_Workspaces b) (id_Root (bundle_Identity b)).

Definition rememberPendingClear (p : pendingClear) (l : list pendingClear) : list pendingClear :=
  if existsb (λ q, matches q (is_Identifier (pc_issue p)) (pc_store p) && negb (pc_abandoned q)) l
  then l else l ++ [p].

Definition forgetPendingClear (id : Z) (l : list pendingClear) : list pendingClear :=
  filter (λ q, pc_id q ≠ id) l.

Definition clearExecutingFor (p : pendingClear) (l : list pendingClear) : bool :=
  existsb (λ q, negb (pc_id q =? pc_id p) && pc_inFlight q
                && matches q (is_Identifier (pc_issue p)) (pc_store p)) l.

(** The loop of [driveMarkerClears]: [before] are the entries already visited, as they
    now are. *)
Fixpoint drive_clears (before todo : list pendingClear) : list pendingClear * list job :=
  match todo with
  | [] => (before, [])
  | p :: todo =>
      if pc_inFlight p || clearExecutingFor p (before ++ p :: todo) then drive_clears (before ++ [p]) todo
      else
        let '(l, js) := drive_clears (before ++ [p <| pc_inFlight := true |>]) todo in
        (l, JClear (pc_id p) (pc_issue p) (pc_store p) :: js)
  end.

Definition driveMarkerClears (o : Orchestrator) : Orchestrator :=
  let '(l, js) := drive_clears [] (o_markerClears o) in
  o <| o_markerClears := l |> <| o_jobs ::= λ old, old ++ js |>.

Definition clearMarkerWith (store : markerStore) (issue : Issue) (o : Orchestrator) : Orchestrator :=
  let '(id, o) := fresh_name o in
  driveMarkerClears (o <| o_markerClears ::= rememberPendingClear (MkClear id issue store false false) |>).

Definition freeWorkspaceMarker (c : cell) : cell :=
  c <| c_o ::= clearMarkerWith (markerStoreFor (bundle (c_o c))) (r_Issue (c_r c)) |>.

(** The clears of one workspace: those not in flight are dropped, the others abandoned
    and waited for. *)
Definition abandonPendingClears (identifier : string) (store : markerStore) (l : list pendingClear)
    : list pendingClear * list Z :=
  foldr (λ p acc,
    let '(kept, waits) := acc in
    if negb (matches p identifier store) then (p :: kept, waits)
    else if pc_inFlight p then (p <| pc_abandoned := true |> :: kept, pc_id p :: waits)
    else (kept, waits)) ([], []) l.

(** The entry is in the list until this signal, so [None] does not arise. *)
Definition onMarkerCleared (clear : Z) (err : option fault) (o : Orchestrator) : Orchestrator :=
  match list_find (λ p, pc_id p = clear) (o_markerClears o) with
  | None => driveMarkerClears o
  | Some (_, p) =>
      let l := (λ q, if pc_id q =? clear then q <| pc_inFlight := false |> else q) <$> o_markerClears o in
      if pc_abandoned p then
        driveMarkerClears (o <| o_markerClears := forgetPendingClear clear l |>)
      else match err with
           | Some _ => o <| o_markerClears := l |>
           | None => driveMarkerClears (o <| o_markerClears := forgetPendingClear clear l |>)
           end
  end.

(** ** Slots *)

(** The keys a [range] over a map visits. *)
Definition visit {A} (site : nat) (m : gmap string A) (o : Orchestrator) : list string :=
  o_order o site (map_to_list m).*1.

Definition takes_slot (r : RunRecord) : bool :=
  bool_decide (r_State r ∈ [StateQueued; StateClaimed; StatePreparing; StateRunning])
  || (bool_decide (r_State r = StateVerifying) && negb (r_domainQuiet r)).

Definition runningCount (o : Orchestrator) : Z :=
  Z.of_nat (length (filter (λ kt, takes_slot (deref kt.2 o) = true) (map_to_list (o_records o)))).

Definition freeSlots (def : WorkflowDefinition) (o : Orchestrator) : Z :=
  let free := lc_MaxConcurrentAgents (df_Limits def) - runningCount o in
  if free <? 0 then 0 else free.

(** ** Leaving a state *)

Definition armTimer (kind : timerKind) (d : Z) (c : cell) : cell :=
  let r := c_r c <| r_nextTimerAt := o_clock (c_o c) + d |> <| r_nextTimerKind := kind |> in
  MkCell r (spawn (JTimer (header_of r) kind) (publish r (c_o c))).

(** [time.Duration(ms)*time.Millisecond] *)
Definition milliseconds (ms : Z) : Z := wrap64 (ms * 1000000).

Definition backoffFor (c : cell) : Z :=
  backoffDelay (is_Identifier (r_Issue (c_r c))) (r_Attempt (c_r c))
    (milliseconds (lc_MaxRetryBackoffMS (limits (c_o c)))).

Definition enterBackoff (why : string) (cause : FailureReason) (c : cell) : cell :=
  match transitionCaused StateBackoff why cause c with
  | None => c
  | Some c =>
      let c := c <| c_r ::= λ r, r <| r_stopping := false |> <| r_Continuation := "" |>
                 <| r_SessionID := "" |> <| r_generation ::= Z.succ |> |> in
      armTimer timerBackoff (backoffFor c) c
  end.

Definition enterFailed (why : string) (cause : FailureReason) (c : cell) : cell :=
  match transitionCaused StateFailed why cause c with
  | None => c
  | Some c =>
      let c := comment (MkMilestone MilestoneFailed "" (r_FailureReason (c_r c)) false why) c in
      release ("failed: " +:+ why) (completeFailure c)
  end.

Definition enterNeedsReview (why : string) (cause : FailureReason) (c : cell) : cell :=
  if orderedExit (c_r c) then c
  else match transitionCaused StateNeedsReview why cause c with
       | None => c
       | Some c => comment (plain_comment MilestoneNeedsReview why) c
       end.

Definition enterEpochFault (why : string) (c : cell) : cell :=
  enterNeedsReview why ""
    (c <| c_r ::= λ r, r <| r_epochFaulted := true |> <| r_epochFaultDetail := why |> |>).

Definition failAttempt (reason : FailureReason) (retryable : bool) (detail : string) (c : cell) : cell :=
  let c := recordAttempt reason VerdictUnknown (attemptEnded c) in
  let c := c <| c_r ::= λ r, recordAccount reason (r <| r_FailureReason := reason |> <| r_lastOutcome := reason |>) |> in
  if retryable && attemptsRemainOf (lc_MaxAttempts (limits (c_o c))) (c_r c)
  then enterBackoff detail reason c
  else enterFailed detail reason c.

(** [credential.go] *)
Definition parkCredential (detail : string) (c : cell) : cell :=
  let c := recordAttempt "" VerdictUnknown (attemptEnded c) in
  let c := c <| c_r ::= λ r, forgetAccount (r <| r_lastOutcome := "" |>) |> in
  enterNeedsReview detail "" c.

Definition failLaunch (err : option fault) (what : string) (retryable : bool) (c : cell) : cell :=
  let detail := what +:+ ": " +:+ err_Error err in
  if credentialTransient err then failAttempt FailureCredential true detail c
  else if credentialParks err then parkCredential detail c
  else failAttempt FailureLaunchError retryable detail c.

(** ** Stopping and finishing *)

Definition beginStop (mode : StopMode) (c : cell) : cell :=
  if r_stopInFlight (c_r c) then c
  else match r_handle (c_r c) with
       | None => c <| c_o ::= send_self (SigStopped (header_of (c_r c)) TerminationConfirmed) |>
       | Some handle =>
           MkCell (c_r c <| r_stopInFlight := true |>)
             (spawn (JStop (header_of (c_r c)) handle mode) (c_o c))
       end.

Definition finishNow (keepWorkspace : bool) (why : string) (c : cell) : cell :=
  let c := attemptEnded c in
  let reason := if r_parkOnBudgetPending (c_r c) then FailureBudgetExceeded else FailureKilled in
  let c := c <| c_r ::= λ r, r <| r_parkOnBudgetPending := false |> |> in
  let c := recordAttempt reason VerdictUnknown c in
  let c := disposeRevoked keepWorkspace (abandonPendingClaimBase c) in
  if r_gone (c_r c) || r_claimLost (c_r c) then
    if owesForget (c_r c) then c else owe effectForget effectLocal DoNothing c
  else release why c.

Definition stopAndFinish (keepWorkspace : bool) (why : string) (c : cell) : cell :=
  let c := c <| c_r ::= λ r, r <| r_keepOnStop := keepWorkspace |> <| r_stopReason := why |>
             <| r_finishAfterStop := true |> |> in
  match r_handle (c_r c) with
  | Some _ => beginStop StopDiscard (c <| c_r ::= λ r, r <| r_stopping := true |> |>)
  | None =>
      if 0 <? r_pending (c_r c)
      then c <| c_r ::= λ r, r <| r_finish := Some (MkFinish keepWorkspace why) |> |>
      else finishNow keepWorkspace why c
  end.

(** [None] when nothing was requested: the handler goes on. *)
Definition finishIfRequested (c : cell) : option cell :=
  match r_finish (c_r c) with
  | None => None
  | Some req =>
      if 0 <? r_pending (c_r c) then None
      else
        let c := c <| c_r ::= λ r, r <| r_finish := None |> |> in
        Some (match r_handle (c_r c) with
              | Some _ => beginStop StopDiscard (c <| c_r ::= λ r, r <| r_stopping := true |> |>)
              | None => finishNow (fr_keepWorkspace req) (fr_why req) c
              end)
  end.

(** [context.CancelFunc] of a pump. *)
Definition cancel_pump (pid : Z) (o : Orchestrator) : Orchestrator :=
  o <| o_jobs ::= fmap (λ j,
    match j with
    | JPump p h handle st cl cancelled => JPump p h handle st cl (cancelled || (p =? pid))
    | j => j
    end) |>.

(** [if r.cancelRun != nil { r.cancelRun(); r.cancelRun = nil }] *)
Definition cancelRun (c : cell) : cell :=
  match r_cancelRun (c_r c) with
  | Some pid => MkCell (c_r c <| r_cancelRun := None |>) (cancel_pump pid (c_o c))
  | None => c
  end.

(** A pending worker's answer has arrived. *)
Definition answered (c : cell) : cell := c <| c_r ::= λ r, r <| r_pending ::= Z.pred |> |>.

(** Start a worker the record waits for. *)
Definition spawn_pending (j : RunRecord → job) (c : cell) : cell :=
  let r := c_r c <| r_pending ::= Z.succ |> in MkCell r (spawn (j r) (c_o c)).

(** ** Claim and approval *)

Definition beginClaim (issue : Issue) (cur : snapshot) (o : Orchestrator) : Orchestrator :=
  let '(token, o) := newToken o in
  let r := zero_record (sn_Definition cur)
             <| r_Issue := issue |> <| r_State := StateQueued |> <| r_Attempt := 1 |>
             <| r_UpdatedAt := o_clock o |> <| r_token := token |> <| r_instance := cf_Instance (o_cfg o) |> in
  let o := publish r (o <| o_records ::= <[is_Identifier issue := token]> |>) in
  let c := spawn_pending (λ r, JClaim (header_of r) issue) (MkCell r o) in
  store_record token (c_r c) (c_o c).

Definition beginApproval (c : cell) : cell :=
  let r := c_r c in
  if r_approvalInFlight r || exiting r || o_draining (c_o c) then c
  else
    let cur := o_cur (c_o c) in
    spawn_pending (λ r, JApprove (header_of r) (r_Issue r) (bu_contentApproval (sn_Runtime cur))
                         (df_RequiredLabels (sn_Definition cur)) (bu_ClaimPrincipal (sn_Runtime cur)))
      (c <| c_r ::= λ r, r <| r_approvalInFlight := true |> |>).

Definition onClaimed (verified : bool) (err : option fault) (c : cell) : cell :=
  let c := answered c in
  match finishIfRequested c with
  | Some c => c
  | None =>
      match err with
      | Some _ =>
          if err_Is err ErrClaimNotAttempted
          then c <| c_o ::= forget (is_Identifier (r_Issue (c_r c))) |>
          else release ("claim could not be verified: " +:+ err_Error err) c
      | None =>
          if negb verified then c <| c_o ::= forget (is_Identifier (r_Issue (c_r c))) |>
          else beginApproval (c <| c_r ::= λ r, r <| r_claimVerified := true |> |>)
      end
  end.

Definition beginClaimBase (c : cell) : cell :=
  let r := c_r c in
  let eligible := bool_decide (r_State r = StateQueued)
                  || (bool_decide (r_State r = StateBackoff) && r_claimBaseDispatch r) in
  if r_claimBaseInFlight r || exiting r || o_draining (c_o c) || negb eligible || (r_claimEpoch r <=? 0)
  then c
  else
    let c := c <| c_r ::= λ r, r <| r_claimBaseInFlight := true |> |> in
    let ws := bu_Workspaces (bundle (c_o c)) in
    let o := c_o c in
    let '(seq, o) :=
      if wk_endedCycles ws
      then (Some (o_cycleMutationSeq o + 1),
            o <| o_cycleMutationSeq ::= Z.succ |> <| o_cycleMutationsInFlight ::= Z.succ |>)
      else (None, o) in
    spawn_pending (λ r, JClaimBase (header_of r) (r_Issue r) (r_claimEpoch r) ws seq) (MkCell (c_r c) o).

Definition onApproved (history : list ClaimEvent) (approval : ContentApproval)
    (requiredLabels : list string) (claimPrincipal : string) (err : option fault) (c : cell) : cell :=
  let c := answered c <| c_r ::= λ r, r <| r_approvalInFlight := false |> |> in
  match finishIfRequested c with
  | Some c => c
  | None =>
      if exiting (c_r c) || o_draining (c_o c) || negb (bool_decide (r_State (c_r c) = StateQueued)) then c
      else if err_Is err ErrIssueNotFound then
        finishNow false "issue is gone from the tracker" (c <| c_r ::= markGone |>)
      else if negb (is_nil err) then c
      else match checkApproval history requiredLabels approval with
           | Err e => enterNeedsReview ("content approval: " +:+ err_text e) "" c
           | Ok approved =>
               let c := c <| c_r ::= pin approved |> in
               let epoch := claimCycleAnchor history claimPrincipal in
               if epoch <=? 0 then
                 enterEpochFault "claim epoch: current assignment has no positive establishing event ID" c
               else beginClaimBase (c <| c_r ::= λ r, r <| r_claimEpoch := epoch |> |>)
           end
  end.

(** ** Preparing and starting *)

Definition claimBaseAllowsPrepare (state : ClaimBase) (epoch : Z) (readErr : option fault) : bool :=
  if negb (is_nil readErr) || (epoch <=? 0) || negb (cb_Epoch state =? epoch) then false
  else bool_decide (cb_State state = ClaimBasePending) || claimBasePinsEpoch state epoch.

Definition claimBaseAuthorizesWorkspace (state : ClaimBase) (ws : Workspace) : bool :=
  (0 <? ws_ClaimEpoch ws) && negb (bool_decide (ws_BaseSHA ws = ""))
  && negb (bool_decide (ws_TargetBranch ws = "")) && claimBasePinsEpoch state (ws_ClaimEpoch ws)
  && bool_decide (cb_BaseSHA state = ws_BaseSHA ws) && bool_decide (cb_TargetBranch state = ws_TargetBranch ws).

Definition legacyClaimBaseCanUpgrade (state : ClaimBase) (epoch : Z) : bool :=
  (0 <? epoch) && bool_decide (cb_State state = ClaimBasePinned) && (0 <? cb_Epoch state)
  && negb (cb_Epoch state =? epoch) && negb (bool_decide (cb_BaseSHA state = ""))
  && bool_decide (cb_TargetBranch state = "").

Definition prepRetryable (err : option fault) (o : Orchestrator) : bool :=
  match cf_PrepRetryable (o_cfg o), err with
  | Some p, Some f => p (ft_err f)
  | _, _ => false
  end.

(** What [beginPrepare] resets for the new attempt. *)
Definition new_attempt (o : Orchestrator) (r : RunRecord) : RunRecord :=
  r <| r_ranThisAttempt := false |> <| r_afterRunFired := false |>
    <| r_eventsClosed := false |> <| r_handleDone := false |> <| r_domainQuiet := false |>
    <| r_outcome := None |>
    <| r_budgetStop := false |> <| r_finishAfterStop := false |>
    <| r_attemptStartedAt := o_clock o |> <| r_attemptUsage := no_usage |>
    <| r_attemptRecorded := false |> <| r_attemptAgent := bu_Agent (bundle o) |>
    <| r_outputTail := "" |> <| r_outputTotal := 0 |>
    <| r_attemptFacts := no_attemptFacts |> <| r_attemptFactsRead := false |>
    <| r_summarizing := false |> <| r_summarized := false |> <| r_parkOnBudgetPending := false |>.

Definition beginPrepare (c : cell) : cell :=
  if o_draining (c_o c) then c
  else
    spawn_pending (λ r, JPrepare (header_of r) (r_Issue r) (r_Attempt r) (r_claimEpoch r))
      (c <| c_r ::= new_attempt (c_o c) |>).

Definition onClaimBaseBegun (err : option fault) (claimBase : ClaimBase) (claimBaseErr : option fault)
    (cycleRead cycleScanOK : bool) (c : cell) : cell :=
  let c := answered c <| c_r ::= λ r, r <| r_claimBaseInFlight := false |> |> in
  match finishIfRequested c with
  | Some c => c
  | None =>
      let r := c_r c in
      let epoch := r_claimEpoch r in
      let proceed : cell :=
        if bool_decide (r_State r = StateBackoff) then
          let c := c <| c_r ::= λ r, r <| r_claimBaseDispatch := false |> <| r_Attempt ::= Z.succ |> |> in
          match transition StatePreparing (legal_reason StateBackoff StatePreparing) c with
          | None => c
          | Some c => beginPrepare c
          end
        else
          match transition StateClaimed (legal_reason StateQueued StateClaimed) c with
          | None => c <| c_o ::= forget (is_Identifier (r_Issue (c_r c))) |>
          | Some c => comment (plain_comment MilestoneClaimed "") c
          end in
      if exiting r || o_draining (c_o c) then c
      else if cycleRead && negb cycleScanOK then c
      else if negb (bool_decide (r_State r = StateQueued))
              && (negb (bool_decide (r_State r = StateBackoff)) || negb (r_claimBaseDispatch r)) then c
      else if is_nil err then proceed
      else if err_Is claimBaseErr ErrClaimTargetUnrecorded && legacyClaimBaseCanUpgrade claimBase epoch then c
      else if negb (is_nil claimBaseErr) then
        enterEpochFault "claim epoch: pending intent is unreadable after initialization failed" c
      else if claimBasePinsEpoch claimBase epoch then proceed
      else if bool_decide (cb_State claimBase = ClaimBaseAbsent)
              || (bool_decide (cb_State claimBase = ClaimBasePending) && (cb_Epoch claimBase =? epoch))
              || (claimBasePinsEpoch claimBase (cb_Epoch claimBase) && negb (cb_Epoch claimBase =? epoch))
      then c
      else enterEpochFault
             ("claim epoch: initialization found contradictory provider state " +:+ claimBase_v claimBase) c
  end.

Definition onClaimProjected (c : cell) : cell :=
  if negb (bool_decide (r_State (c_r c) = StateClaimed)) || exiting (c_r c) then c
  else match transition StatePreparing (legal_reason StateClaimed StatePreparing) c with
       | None => c
       | Some c => beginPrepare c
       end.

Definition renderPrompt (r : RunRecord) : result string :=
  df_RenderPrompt (r_Definition r)
    (MkVars (r_Issue r) (r_Attempt r) (wp_Path (ws_Paths (r_Workspace r)))
       (ws_TargetBranch (r_Workspace r))
       (MkRun (is_Identifier (r_Issue r) +:+ "-" +:+ itoa (r_Attempt r)) (r_lastOutcome r)
          (r_previousAttempt r))).

Definition run_spec (prompt : string) (r : RunRecord) : RunSpec :=
  let l := df_Limits (r_Definition r) in
  MkRunSpec (ws_Paths (r_Workspace r)) prompt (r_Continuation r)
    (list_to_map
       [("BEN_ISSUE", is_Identifier (r_Issue r));
        ("BEN_ATTEMPT", itoa (r_Attempt r));
        ("BEN_RUN_ID", runID r);
        ("BEN_WORKSPACE", wp_Path (ws_Paths (r_Workspace r)));
        ("BEN_BRANCH", ws_Branch (r_Workspace r))])
    (MkRunLimits (milliseconds (lc_StallTimeoutMS l)) (milliseconds (lc_AttemptTimeoutMS l))
       (lc_MaxTurns l) (maxCost r)).

Definition beginStart (c : cell) : cell :=
  if o_draining (c_o c) then c
  else
    let cur := o_cur (c_o c) in
    let c := c <| c_r ::= λ r, r <| r_Definition := sn_Definition cur |>
                               <| r_attemptAgent := bu_Agent (sn_Runtime cur) |> |> in
    match renderPrompt (c_r c) with
    | Err e => failAttempt FailureLaunchError false ("rendering the prompt: " +:+ err_text e) c
    | Ok prompt =>
        let spec := run_spec prompt (c_r c) in
        let '(clears, waits) :=
          abandonPendingClears (is_Identifier (r_Issue (c_r c))) (markerStoreFor (sn_Runtime cur))
            (o_markerClears (c_o c)) in
        spawn_pending (λ r, JStart (header_of r) (r_Issue r) spec waits)
          (c <| c_o ::= λ o, o <| o_markerClears := clears |> |>)
    end.

Definition lf_AdvancedPastBase (f : LocalBranchFacts) (baseSHA : string) : bool :=
  advancedPastBase (lb_Head f) (lb_DescendsBase f) baseSHA.

Definition onPrepared (ws : Workspace) (facts : LocalBranchFacts) (err : option fault)
    (claimBase : ClaimBase) (claimBaseErr : option fault) (c : cell) : cell :=
  let c := answered c in
  let c := if bool_decide (wp_Path (ws_Paths ws) = "") then c
           else c <| c_r ::= λ r, r <| r_Workspace := ws |> |> in
  match finishIfRequested c with
  | Some c => c
  | None =>
      let epoch := r_claimEpoch (c_r c) in
      if o_draining (c_o c) then c <| c_r ::= λ r, r <| r_suspended := true |> |>
      else if negb (is_nil err) then
        if negb (claimBaseAllowsPrepare claimBase epoch claimBaseErr) then
          enterEpochFault ("claim epoch: prepare refused under provider state " +:+ claimBase_v claimBase
                           +:+ ": " +:+ err_Error claimBaseErr) c
        else failLaunch err "preparing the workspace" (prepRetryable err (c_o c)) c
      else if negb (is_nil claimBaseErr) || (epoch <=? 0) || negb (ws_ClaimEpoch ws =? epoch)
              || negb (claimBaseAuthorizesWorkspace claimBase ws) then
        enterEpochFault
          ("claim epoch: prepared workspace carries " +:+ itoa (ws_ClaimEpoch ws) +:+ "/" +:+ ws_BaseSHA ws
           +:+ "/" +:+ ws_TargetBranch ws +:+ ", provider returned " +:+ claimBase_v claimBase +:+ ": "
           +:+ err_Error claimBaseErr +:+ "; expected epoch " +:+ itoa epoch
           +:+ " and the same complete tuple") c
      else
        let r := c_r c in
        let advanced := ws_PriorWork (r_Workspace r) || lf_AdvancedPastBase facts (lb_BaseSHA facts) in
        let c := if (r_Attempt r =? 1) && advanced
                 then c <| c_r ::= λ r, r <| r_Attempt := 2 |> <| r_attemptBase := 1 |> |> else c in
        beginStart c
  end.

(** ** The run *)

Definition pumpRun (handle : Z) (c : cell) : cell :=
  let '(pid, o) := fresh_name (c_o c) in
  MkCell (c_r c <| r_cancelRun := Some pid |>)
    (spawn (JPump pid (header_of (c_r c)) handle false false false) o).

(** A [Start] that returns neither a handle nor an error panics in the pump; [Runner]
    forbids it. *)
Definition onStarted (handle : option Z) (err : option fault) (c : cell) : cell :=
  let c := answered c in
  let c := match handle with
           | Some _ => c <| c_r ::= λ r, r <| r_handle := handle |> |>
           | None => c
           end in
  let c := if negb (is_nil err) && is_nil handle then freeWorkspaceMarker c else c in
  match finishIfRequested c with
  | Some c => c
  | None =>
      if o_draining (c_o c) then
        let c := c <| c_r ::= λ r, r <| r_suspended := true |> |> in
        match handle with
        | Some h => pumpRun h (c <| c_r ::= λ r, r <| r_ranThisAttempt := true |> |>)
        | None => c
        end
      else if negb (is_nil err) then failLaunch err "starting the agent" false c
      else match transition StateRunning (legal_reason StatePreparing StateRunning) c with
           | None => c
           | Some c =>
               let c := c <| c_r ::= λ r, r <| r_ranThisAttempt := true |> |> in
               match handle with Some h => pumpRun h c | None => c end
           end
  end.

Definition beginProbe (c : cell) : cell :=
  match r_probeInFlight (c_r c), r_handle (c_r c) with
  | false, Some handle =>
      MkCell (c_r c <| r_probeInFlight := true |>) (spawn (JProbe (header_of (c_r c)) handle) (c_o c))
  | _, _ => c
  end.

Definition beginVerify (c : cell) : cell :=
  spawn_pending (λ r, JVerify (header_of r) (r_Issue r) (r_Workspace r) (bu_ClaimPrincipal (bundle (c_o c)))) c.

Definition holdOutcome (ev : Event) (detail : string) (r : RunRecord) : RunRecord :=
  r <| r_outcome := Some (MkOutcome ev detail) |>.

(** The rest of [applyOutcome] once the account has been read. *)
Definition apply_held_outcome (c : cell) : cell :=
  match r_outcome (c_r c) with
  | None => c
  | Some out =>
      if negb (r_eventsClosed (c_r c)) || negb (r_domainQuiet (c_r c)) then c
      else
        let c := c <| c_r ::= λ r, r <| r_outcome := None |> |> in
        if bool_decide (ev_Type (oc_event out) = EventSucceeded) then beginVerify c
        else failAttempt (ev_Reason (oc_event out)) (Retryable (ev_Reason (oc_event out))) (oc_detail out) c
  end.

Definition park_with_account (c : cell) : cell :=
  let c := attemptEnded c in
  let c := c <| c_r ::= λ r, recordAccount (r_lastOutcome r) r |> in
  let c := recordAttempt FailureBudgetExceeded VerdictUnknown c in
  enterNeedsReview "budget exceeded" FailureBudgetExceeded c.

(** [resumeAfterAccount], which is only reached with the account read. *)
Definition resumeAfterAccount (c : cell) : cell :=
  if r_parkOnBudgetPending (c_r c)
  then park_with_account (c <| c_r ::= λ r, r <| r_parkOnBudgetPending := false |> |>)
  else apply_held_outcome c.

Definition beginSummary (c : cell) : cell :=
  if r_summarizing (c_r c) then c
  else if negb (hasWorkspace (c_r c)) then
    resumeAfterAccount (c <| c_r ::= λ r, r <| r_summarized := true |> |>)
  else
    spawn_pending (λ r, JSummary (header_of r) (r_Workspace r))
      (c <| c_r ::= λ r, r <| r_summarizing := true |> |>).

Definition parkOnBudget (c : cell) : cell :=
  if negb (r_summarized (c_r c))
  then beginSummary (c <| c_r ::= λ r, r <| r_parkOnBudgetPending := true |> |>)
  else park_with_account c.

Definition applyOutcome (c : cell) : cell :=
  match r_outcome (c_r c) with
  | None => c
  | Some _ =>
      if negb (r_eventsClosed (c_r c)) || negb (r_domainQuiet (c_r c)) then c
      else if negb (r_summarized (c_r c)) then beginSummary c
      else apply_held_outcome c
  end.

Definition confirmQuiet (c : cell) : cell :=
  let r := c_r c in
  if is_nil (r_outcome r) || negb (r_eventsClosed r) || r_domainQuiet r || r_probeInFlight r
     || r_stopInFlight r || exiting r then c
  else match r_handle r with
       | None => applyOutcome (freeWorkspaceMarker (c <| c_r ::= λ r, r <| r_domainQuiet := true |> |>))
       | Some _ => if negb (r_handleDone r) then beginProbe c else beginStop StopInterrupt c
       end.

Definition quiet (c : cell) : cell :=
  let c := freeWorkspaceMarker (c <| c_r ::= λ r, r <| r_domainQuiet := true |> |>) in
  let c := cancelRun c in
  applyOutcome (c <| c_r ::= λ r, r <| r_handle := None |> |>).

Definition onRunEvent (ev : Event) (c : cell) : cell :=
  let c := match ev_Type ev, ev_Usage ev with
           | EventUsage, Some u =>
               c <| c_r ::= λ r,
                 r <| r_attemptUsage := MkUsage (wrap64 (u_InputTokens (r_attemptUsage r) + u_InputTokens u))
                        (wrap64 (u_OutputTokens (r_attemptUsage r) + u_OutputTokens u))
                        (f64_add (u_CostUSD (r_attemptUsage r)) (u_CostUSD u)) |>
                   <| r_costUSD ::= λ x, f64_add x (u_CostUSD u) |> |>
           | _, _ => c
           end in
  let r := c_r c in
  if negb (bool_decide (r_State r = StateRunning)) then c
  else match ev_Type ev with
       | EventStarted =>
           let r := if bool_decide (ev_Continuation ev = "") then r
                    else r <| r_Continuation := ev_Continuation ev |> in
           let r := r <| r_SessionID := ev_SessionID ev |> in
           MkCell r (publish r (c_o c))
       | EventProgress => c <| c_r ::= retainOutput (ev_Text ev) |>
       | EventUsage =>
           if is_nil (ev_Usage ev) then c
           else if f64_ltb f64_zero (maxCost r) && f64_ltb (maxCost r) (r_costUSD r)
                   && negb (r_stopping r) && negb (r_suspended r) then
             beginStop StopDiscard
               (c <| c_r ::= λ r, r <| r_stopping := true |> <| r_budgetStop := true |>
                    <| r_FailureReason := FailureBudgetExceeded |>
                    <| r_lastOutcome := FailureBudgetExceeded |> |>)
           else c
       | EventSucceeded =>
           if r_stopping r then c
           else match transition StateVerifying (legal_reason StateRunning StateVerifying) c with
                | None => c
                | Some c =>
                    c <| c_r ::= λ r, holdOutcome ev "agent run failed" (r <| r_lastOutcome := "succeeded" |>) |>
                end
       | EventFailed =>
           if r_stopping r then c
           else c <| c_r ::= λ r, holdOutcome ev "agent run failed" (r <| r_FailureReason := ev_Reason ev |>) |>
       | EventHeartbeat | EventOther _ => c
       end.

Definition onEventsClosed (sawTerminal : bool) (c : cell) : cell :=
  let c := c <| c_r ::= λ r, r <| r_eventsClosed := true |> |> in
  let r := c_r c in
  if r_suspended r || r_stopping r || r_releasing r || negb (is_nil (r_finish r)) then c
  else if sawTerminal then confirmQuiet c
  else if negb (bool_decide (r_State r = StateRunning)) then c
  else confirmQuiet
         (c <| c_r ::= holdOutcome (bare_event EventFailed FailureCrashed)
                         "the agent exited without a terminal event" |>).

Definition onProbed (probe : Termination) (c : cell) : cell :=
  let c := c <| c_r ::= λ r, r <| r_probeInFlight := false |> |> in
  if exiting (c_r c) || r_stopInFlight (c_r c) then c
  else if r_handleDone (c_r c) then confirmQuiet c
  else if bool_decide (probe = TerminationConfirmed) then quiet c
  else c.

(** *** Shutdown of one run ([shutdown.go]) *)

Definition finishSuspended (c : cell) : cell :=
  let r := c_r c in
  if negb (r_domainQuiet r) || (negb (is_nil (r_handle r)) && negb (r_handleDone r)) then c
  else
    let c := cancelRun c in
    attemptEnded (c <| c_r ::= λ r, r <| r_handle := None |> <| r_outcome := None |> |>).

Definition suspendStopped (c : cell) : cell :=
  finishSuspended (freeWorkspaceMarker (c <| c_r ::= λ r, r <| r_domainQuiet := true |> |>)).

Definition onHandleDone (c : cell) : cell :=
  let c := c <| c_r ::= λ r, r <| r_handleDone := true |> |> in
  if r_suspended (c_r c) then finishSuspended c else confirmQuiet c.

Definition onStopped (termination : Termination) (c : cell) : cell :=
  let c := c <| c_r ::= λ r, r <| r_stopInFlight := false |> |> in
  let confirmed := bool_decide (termination = TerminationConfirmed) in
  if r_suspended (c_r c) then if negb confirmed then c else suspendStopped c
  else if negb confirmed then c
  else if negb (exiting (c_r c)) then quiet c
  else
    let c := freeWorkspaceMarker (c <| c_r ::= λ r, r <| r_domainQuiet := true |> |>) in
    let c := cancelRun c in
    let c := c <| c_r ::= λ r, r <| r_handle := None |> <| r_outcome := None |> |> in
    let budgetStop := r_budgetStop (c_r c) in
    let budgetPark := budgetStop && negb (r_finishAfterStop (c_r c)) in
    let c := c <| c_r ::= λ r, r <| r_stopping := false |> <| r_budgetStop := false |>
                               <| r_finishAfterStop := false |> |> in
    if budgetPark then parkOnBudget c
    else
      let c := attemptEnded c in
      let reason := if budgetStop then FailureBudgetExceeded else FailureKilled in
      let c := recordAttempt reason VerdictUnknown c in
      let r := c_r c in
      if 0 <? r_pending r
      then c <| c_r ::= λ r, r <| r_finish := Some (MkFinish (r_keepOnStop r) (r_stopReason r)) |> |>
      else finishNow (r_keepOnStop r) (r_stopReason r) c.

(** ** The account and the verdict *)

Definition endAttemptSuspended (c : cell) : cell :=
  let r := c_r c in
  let '(reason, r) :=
    if r_parkOnBudgetPending r then (FailureBudgetExceeded, r <| r_parkOnBudgetPending := false |>)
    else match r_outcome r with
         | Some out =>
             if bool_decide (ev_Type (oc_event out) = EventFailed) then (ev_Reason (oc_event out), r)
             else ("", r)
         | None => ("", r)
         end in
  recordAttempt reason VerdictUnknown (attemptEnded (MkCell r (c_o c))).

Definition onSummarized (facts : AttemptFacts) (err : option fault) (c : cell) : cell :=
  let c := answered c <| c_r ::= λ r, r <| r_summarizing := false |> <| r_summarized := true |> |> in
  let c := if is_nil err
           then c <| c_r ::= λ r, r <| r_attemptFacts := facts |> <| r_attemptFactsRead := true |> |> else c in
  match finishIfRequested c with
  | Some c => c
  | None => if r_suspended (c_r c) then endAttemptSuspended c else resumeAfterAccount c
  end.

Definition onVerified (verify : VerifyResult) (err : option fault) (epochFault : bool)
    (epochDetail : string) (claimEpochReadFailed : bool) (c : cell) : cell :=
  let c := answered c in
  match finishIfRequested c with
  | Some c => c
  | None =>
      let again := c <| c_r ::= λ r, r <| r_verifyRetry := true |> |> in
      if r_suspended (c_r c) then c
      else if epochFault then
        enterEpochFault epochDetail (recordAttempt "" VerdictUnknown (attemptEnded c))
      else if err_Is err ErrIssueNotFound then
        finishNow false "issue disappeared before verification" (c <| c_r ::= markGone |>)
      else if claimEpochReadFailed then again
      else if err_Is err ErrPublishApprovalPending then again
      else if credentialTransient err then again
      else
        let c := attemptEnded c in
        let c := c <| c_r ::= λ r, recordAccount (r_lastOutcome r) r |> in
        if negb (is_nil err) then
          enterNeedsReview ("verification failed: " +:+ err_Error err) ""
            (recordAttempt "" VerdictUnknown c)
        else
          let c := recordAttempt "" (vr_Verdict verify) c in
          match vr_Verdict verify with
          | VerdictPublished =>
              match transition StateDone (legal_reason StateVerifying StateDone) c with
              | None => c
              | Some c =>
                  let c := c <| c_r ::= λ r, r <| r_PRURL := vr_PRURL verify |> |> in
                  disposePublished (comment (MkMilestone MilestonePublished (vr_PRURL verify) "" false "") c)
              end
          | VerdictIncomplete =>
              if negb (continuableOf (lc_MaxTurns (limits (c_o c))) (c_r c)) then
                enterNeedsReview "max_turns exhausted without published evidence" "" c
              else
                let c := c <| c_r ::= λ r, forgetAccount r <| r_SessionID := "" |> <| r_generation ::= Z.succ |>
                                           <| r_FailureReason := "" |> |> in
                armTimer timerContinuation continuationDelay c
          | VerdictContradicted =>
              enterNeedsReview
                (if bool_decide (vr_Detail verify = "")
                 then "publish evidence contradicts the agent's claim" else vr_Detail verify) "" c
          | VerdictUnknown =>
              enterNeedsReview
                ("verification returned no usable verdict (" +:+ verdict_String (vr_Verdict verify) +:+ ")"
                 +:+ (if bool_decide (vr_Detail verify = "") then "" else ": " +:+ vr_Detail verify)) "" c
          end
  end.

Definition driveVerifyRetry (c : cell) : cell :=
  let r := c_r c in
  if negb (bool_decide (r_State r = StateVerifying)) || negb (r_verifyRetry r) || (0 <? r_pending r)
     || r_suspended r || exiting r then c
  else beginVerify (c <| c_r ::= λ r, r <| r_verifyRetry := false |> |>).

(** ** Timers *)

Definition onTimer (kind : timerKind) (c : cell) : cell :=
  let r := c_r c <| r_nextTimerAt := zero_time |> in
  MkCell r (spawn (JTimerFetch (header_of r) kind (sn_Revision (o_cur (c_o c))) (r_Issue r) (r_claimEpoch r))
              (publish r (c_o c))).

Definition rearm (kind : timerKind) (c : cell) : cell :=
  armTimer kind (match kind with timerBackoff => backoffFor c | timerContinuation => continuationDelay end) c.

(** Whether the claim base read with the timer lets the issue be dispatched again. *)
Inductive redispatch := RdGo | RdRearm | RdFault (why : string).

Definition redispatch_gate (anchor : Z) (history : list ClaimEvent) (claimBase : ClaimBase)
    (claimBaseErr : option fault) (runMarker : RunMarker) (markerErr : option fault) (r : RunRecord) : redispatch :=
  if negb (anchor =? r_claimEpoch r) then
    RdFault ("claim epoch: re-dispatch expected assignment " +:+ itoa (r_claimEpoch r)
             +:+ ", history names " +:+ itoa anchor)
  else if negb (is_nil claimBaseErr) then
    RdFault "claim epoch: provider state is unreadable before re-dispatch"
  else match cb_State claimBase with
       | ClaimBasePinned =>
           if negb (claimBasePinsEpoch claimBase (r_claimEpoch r))
              || (hasWorkspace r && negb (claimBaseAuthorizesWorkspace claimBase (r_Workspace r)))
           then RdFault ("claim epoch: re-dispatch found pinned state " +:+ claimBase_v claimBase
                         +:+ ", expected epoch " +:+ itoa (r_claimEpoch r)
                         +:+ " and the retained workspace pair")
           else RdGo
       | ClaimBasePending =>
           let '(gate, resolved) :=
             classifyRecoveryClaimBase anchor claimBase false (rm_State runMarker)
               (negb (is_nil markerErr)) (currentCycleRunningEvidence history anchor) in
           if negb resolved then
             RdFault "claim epoch: pending state unexpectedly bypassed the re-dispatch gate"
           else if bool_decide (v_action gate = recoveryActionBlocked) then RdRearm
           else if negb (bool_decide (v_action gate = recoveryActionApprove)) || v_epochFault gate then
             RdFault ("claim epoch: " +:+ v_detail gate)
           else if negb (ws_ClaimEpoch (r_Workspace r) =? 0) || negb (bool_decide (ws_BaseSHA (r_Workspace r) = ""))
                   || negb (bool_decide (ws_TargetBranch (r_Workspace r) = "")) then
             RdFault "claim epoch: pending state conflicts with a retained workspace epoch/base/target tuple"
           else RdGo
       | ClaimBaseUnknown | ClaimBaseAbsent =>
           RdFault ("claim epoch: re-dispatch found non-authorizing provider state " +:+ claimBase_v claimBase)
       end.

Definition onTimerFetched (kind : timerKind) (revision : Z) (requiredLabels : list string)
    (claimPrincipal : string) (refetched : option Issue) (history : list ClaimEvent)
    (approval : ContentApproval) (claimBase : ClaimBase) (claimBaseErr : option fault)
    (runMarker : RunMarker) (markerErr : option fault) (err : option fault) (c : cell) : cell :=
  if exiting (c_r c) then c
  else
    let cur := o_cur (c_o c) in
    if negb (sn_Revision cur =? revision) then rearm kind c
    else if gone (refetched, err) then
      finishNow false "issue is gone from the tracker" (c <| c_r ::= markGone |>)
    else match err, refetched with
    | None, Some fresh =>
        if negb (active (sn_Definition cur) fresh) then
          finishNow false "issue went terminal while waiting to re-dispatch" c
        else if negb (routable cur fresh) then finishNow true "issue is no longer routable" c
        else match checkApproval history requiredLabels approval with
        | Err e => enterNeedsReview ("content approval: " +:+ err_text e) "" c
        | Ok approved =>
            let c := c <| c_r ::= adoptRouting fresh |> in
            let c := if time_after (ap_at approved) (r_approvedAt (c_r c)) then c <| c_r ::= pin approved |> else c in
            if negb (is_nil (sn_Blocked cur)) then rearm kind c
            else if freeSlots (sn_Definition cur) (store_record (r_token (c_r c)) (c_r c) (c_o c)) <=? 0 then
              if bool_decide (r_State (c_r c) = StateBackoff) then
                match transition StateBackoff (legal_reason StateBackoff StateBackoff) c with
                | None => c
                | Some c => rearm kind c
                end
              else rearm kind c
            else
              let anchor := claimCycleAnchor history claimPrincipal in
              if anchor <=? 0 then
                enterEpochFault "claim epoch: re-dispatch has no positive current assignment event" c
              else if r_claimEpoch (c_r c) =? 0 then
                beginClaimBase
                  (c <| c_r ::= λ r, r <| r_claimEpoch := anchor |> <| r_claimBaseDispatch := true |>
                                       <| r_Definition := sn_Definition cur |> |>)
              else match redispatch_gate anchor history claimBase claimBaseErr runMarker markerErr (c_r c) with
              | RdRearm => rearm kind c
              | RdFault why => enterEpochFault why c
              | RdGo =>
                  let continuing := bool_decide (r_State (c_r c) = StateVerifying) in
                  let reason := if continuing then legal_reason StateVerifying StatePreparing
                                else legal_reason StateBackoff StatePreparing in
                  let c := c <| c_r ::= λ r,
                    (if continuing then r <| r_Turns ::= Z.succ |> else r)
                      <| r_Attempt ::= Z.succ |> <| r_Definition := sn_Definition cur |> |> in
                  match transition StatePreparing reason c with
                  | None => c
                  | Some c => beginPrepare c
                  end
              end
        end
    | _, _ => rearm kind c
    end.

(** ** The hand-over of a finished run ([held.go]) *)

(** [o.records[r.Issue.Identifier] == r], by token. *)
Definition is_current (c : cell) : bool :=
  bool_decide (o_records (c_o c) !! is_Identifier (r_Issue (c_r c)) = Some (r_token (c_r c))).

Definition readyToConvert (c : cell) : bool :=
  let r := c_r c in
  bool_decide (r_State r = StateDone) && is_current c && negb (exiting r) && negb (owesAnything r)
  && (r_pending r =? 0) && negb (r_convertInFlight r).

Definition driveHold (c : cell) : cell :=
  if negb (readyToConvert c) then c
  else
    let b := bundle (c_o c) in
    let r := c_r c <| r_convertInFlight := true |> in
    MkCell r (spawn (JAnchor (header_of r) (r_Issue r) (df_RequiredLabels (bu_Definition b))
                       (bu_Workspaces b) (bu_ClaimPrincipal b)) (c_o c)).

Definition confirmDoneOwnership (c : cell) : cell :=
  let r := c_r c <| r_convertInFlight := true |> in
  MkCell r (spawn (JDoneOwnership (header_of r)) (c_o c)).

Definition publishHeld (o : Orchestrator) : Orchestrator :=
  o <| o_heldCount := Z.of_nat (size (o_held o)) |>.

Definition convertToHeld (anchor : Z) (revision : string) (c : cell) : cell :=
  let r := c_r c in
  let id := is_Identifier (r_Issue r) in
  let '(token, o) := newToken (c_o c) in
  let h := MkHeld (r_Issue r) (r_PRURL r) (cycleWorkspace (bu_Workspaces (bundle o)) (r_Workspace r))
             revision anchor token false false "" false in
  MkCell r (publishHeld (o <| o_held ::= <[id := h]> |> <| o_records ::= delete id |>)).

Definition onClaimAnchor (anchor : Z) (superseded : bool) (approvalErr : option fault)
    (issueRevision : string) (err : option fault) (c : cell) : cell :=
  let c := c <| c_r ::= λ r, r <| r_convertInFlight := false |> |> in
  let id := is_Identifier (r_Issue (c_r c)) in
  let ended why c := c <| c_o ::= oweEndedCycle id (bu_Workspaces (bundle (c_o c))) (r_Workspace (c_r c)) why |> in
  if negb (readyToConvert c) then c
  else if err_Is err ErrIssueNotFound then
    ended "issue is gone from the tracker" c <| c_o ::= forget id |>
  else if negb (is_nil err) then c
  else if err_Is approvalErr ErrApprovalUnread then confirmDoneOwnership c
  else if negb (is_nil approvalErr) then c
  else if superseded then
    release "the approval anchoring this workspace cycle was withdrawn"
      (ended "the approval anchoring this workspace cycle was withdrawn" c)
  else if anchor =? 0 then confirmDoneOwnership c
  else convertToHeld anchor issueRevision c.

Definition cycleEndedBy (def : WorkflowDefinition) (res : refreshResult) : option string :=
  if gone res then Some "issue is gone from the tracker"
  else match res with
       | (Some issue, None) =>
           if negb (active def issue) then Some "issue went terminal"
           else if negb (hasRequiredLabels def issue) then Some "issue left the workflow's label partition"
           else None
       | _ => None
       end.

Definition onDoneOwnership (refetched : option Issue) (err : option fault) (c : cell) : cell :=
  let c := c <| c_r ::= λ r, r <| r_convertInFlight := false |> |> in
  let id := is_Identifier (r_Issue (c_r c)) in
  let def := definition (c_o c) in
  if negb (readyToConvert c) then c
  else
    let c := match cycleEndedBy def (refetched, err) with
             | Some why =>
                 c <| c_o ::= oweEndedCycle id (bu_Workspaces (bundle (c_o c))) (r_Workspace (c_r c)) why |>
             | None => c
             end in
    if gone (refetched, err) then c <| c_o ::= forget id |>
    else match err, refetched with
         | None, Some fresh =>
             if negb (containsFold (is_Assignees fresh) (bu_ClaimPrincipal (bundle (c_o c))))
             then c <| c_o ::= forget id |>
             else if negb (active def fresh) then
               release "issue went terminal before the claim cycle could be anchored" c
             else if negb (hasRequiredLabels def fresh) then
               release "issue left the workflow's label partition before the claim cycle could be anchored" c
             else c
         | _, _ => c
         end.

(** ** Completion of an owed effect ([owed.go]) *)

Definition afterEffect (what : string) (c : cell) : cell :=
  if bool_decide (what = effectClaimLabel) then onClaimProjected c
  else if isExit what then c <| c_o ::= forget (is_Identifier (r_Issue (c_r c))) |>
  else c.

Definition owes_tracker (r : RunRecord) : bool :=
  match r_owed r with eff :: _ => bool_decide (oe_target eff = effectTracker) | [] => false end.

Definition onEffectDone (effect : string) (err : option fault) (c : cell) : cell :=
  let c := c <| c_r ::= λ r, r <| r_owedInFlight := false |> |> in
  match err with
  | Some _ =>
      if r_gone (c_r c) && owes_tracker (c_r c) then
        driveOwed (c <| c_r ::= λ r, r <| r_owed ::= tail |> <| r_owedWriteFailed := false |> |>)
      else if owes_tracker (c_r c) then c <| c_r ::= λ r, r <| r_owedWriteFailed := true |> |>
      else c
  | None =>
      let c := c <| c_r ::= λ r, r <| r_owed ::= tail |> <| r_owedWriteFailed := false |> |> in
      driveHold (driveOwed (afterEffect effect c))
  end.

Definition onOwedConfirmed (refetched : option Issue) (err : option fault) (c : cell) : cell :=
  let c := c <| c_r ::= λ r, r <| r_absenceInFlight := false |> |> in
  if r_gone (c_r c) || negb (r_owedWriteFailed (c_r c)) then c
  else if gone (refetched, err) then
    driveOwed (stopAndFinish false "issue is gone from the tracker" (c <| c_r ::= markGone |>))
  else c.

(** ** Parked records ([parked.go]) *)

Definition applyParked (fresh : Issue) (cur : snapshot) (labelsUsable : bool) (c : cell) : cell :=
  if negb (active (sn_Definition cur) fresh) then stopAndFinish false "issue went terminal" c
  else
    let c := c <| c_r ::= adoptRouting fresh |> in
    if negb labelsUsable || hasStateLabel fresh then c
    else
      let c := c <| c_r ::= restoreBudgets_ |> in
      if r_epochFaulted (c_r c) then
        let r := c_r c <| r_UpdatedAt := o_clock (c_o c) |> in
        let c := MkCell r (publish r (c_o c)) in
        let c := oweProjection "re-project ben:needs-review for epoch fault"
                   (DoSetStateLabels (r_Issue r) StateLabelNeedsReview) c in
        comment (plain_comment MilestoneNeedsReview (r_epochFaultDetail (c_r c))) c
      else enterBackoff "human removed the state label; budgets restored" "" c.

Definition onParkedConfirmed (refetched : option Issue) (labelsSettled : bool) (err : option fault)
    (c : cell) : cell :=
  let c := c <| c_r ::= λ r, r <| r_absenceInFlight := false |> |> in
  if exiting (c_r c) || negb (bool_decide (r_State (c_r c) = StateNeedsReview)) then c
  else
    let cur := o_cur (c_o c) in
    if gone (refetched, err) then
      stopAndFinish false "issue is gone from the tracker" (c <| c_r ::= markGone |>)
    else match err, refetched with
         | None, Some fresh =>
             if negb (containsFold (is_Assignees fresh) (bu_ClaimPrincipal (sn_Runtime cur))) then
               let keep := active (sn_Definition cur) fresh in
               let why := if keep then "the principal is no longer assigned"
                          else "issue went terminal and the principal is no longer assigned" in
               stopAndFinish keep why (c <| c_r ::= markClaimLost |>)
             else applyParked fresh cur (labelsSettled && negb (owesProjection (c_r c))) c
         | _, _ => c
         end.
End pipeline.
