(* ===== verification/OrchHeld.v ===== *)
(** * OrchHeld: held claims, parked records and ended cycles

    Models the loop's work across records: the retained claims of [held.go], the parked
    records of [parked.go], absence confirmations of [absence.go] and the disposal of
    ended workspace cycles of [cycle.go]. Each tick spends at most one confirming read
    per kind, on the candidate [rotate] picks. *)

From S2P Require Import Prelude GoStd Update Core Template OrchState OrchRecover OrchRecord.
From S2P Require Import OrchApproval OrchPipeline.

Section held.
Context {T : GoTables}.

(** A handler applied to the records a [range] visits. Nothing it calls adds or removes
    a record while the loop runs. *)
Definition for_records (site : nat) (f : cell → cell) (o : Orchestrator) : Orchestrator :=
  foldl (λ o id, match o_records o !! id with Some t => on_record t f o | None => o end)
    o (visit site (o_records o) o).

(** The records of a [range] a condition keeps. *)
Definition select_records (site : nat) (p : RunRecord → bool) (o : Orchestrator) : list RunRecord :=
  omap (λ id, match o_records o !! id with
              | Some t => if p (deref t o) then Some (deref t o) else None
              | None => None
              end) (visit site (o_records o) o).

Definition recordIdentifier (r : RunRecord) : string := is_Identifier (r_Issue r).

(** ** Absence confirmations ([absence.go]) *)

Definition owedConfirmationsPerTick : nat := 1.
Definition parkedConfirmationsPerTick : nat := 1.
Definition heldConfirmationsPerTick : nat := 1.
Definition endedCyclesPerTick : nat := 1.

Definition confirmOwedAbsence (c : cell) : cell :=
  match r_owed (c_r c) with
  | [] => c
  | eff :: _ =>
      let r := c_r c <| r_absenceInFlight := true |> in
      MkCell r (spawn (JOwedConfirm (header_of r) (oe_what eff)) (c_o c))
  end.

Definition offerOwedConfirmations (o : Orchestrator) : Orchestrator :=
  if o_draining o then o
  else
    let candidates := select_records 8 (λ r,
      r_owedWriteFailed r && owesAnything r && negb (r_gone r) && negb (r_absenceInFlight r)) o in
    let '(picked, cursor) := rotate recordIdentifier candidates (o_owedCursor o) owedConfirmationsPerTick in
    foldl (λ o r, on_record (r_token r) confirmOwedAbsence o) (o <| o_owedCursor := cursor |>) picked.

(** ** Parked records ([parked.go]) *)

Definition confirmParkedAbsence (c : cell) : cell :=
  let settled := negb (owesProjection (c_r c)) in
  let r := c_r c <| r_absenceInFlight := true |> in
  MkCell r (spawn (JParkedConfirm (header_of r) settled) (c_o c)).

Definition offerParkedConfirmations (absent : list RunRecord) (o : Orchestrator) : Orchestrator :=
  let '(picked, cursor) := rotate recordIdentifier absent (o_parkedCursor o) parkedConfirmationsPerTick in
  foldl (λ o r, on_record (r_token r) confirmParkedAbsence o) (o <| o_parkedCursor := cursor |>) picked.

Definition classifyParked (w : parkedWant) (fresh : Issue) (cur : snapshot) (c : cell) : cell :=
  applyParked fresh cur (pw_labelsSettled w && negb (owesProjection (c_r c))) c.

(** One parked record of the sweep: classified when the read returned it, otherwise
    kept for a confirmation. *)
Definition sweep_parked_one (seen : gmap string Issue) (cur : snapshot)
    (st : Orchestrator * list RunRecord) (w : parkedWant) : Orchestrator * list RunRecord :=
  let '(o, absent) := st in
  match o_records o !! pw_id w with
  | None => (o, absent)
  | Some t =>
      let r := deref t o in
      if exiting r || negb (bool_decide (r_State r = StateNeedsReview)) || r_absenceInFlight r
      then (o, absent)
      else match seen !! pw_id w with
           | None => (o, absent ++ [r])
           | Some fresh => (on_record t (classifyParked w fresh cur) o, absent)
           end
  end.

Definition sweepParked (wants : list parkedWant) (res : sweepResult) (cur : snapshot) (o : Orchestrator)
    : Orchestrator :=
  if negb (is_nil (sr_err res)) then o
  else
    let '(o, absent) := foldl (sweep_parked_one (byID res) cur) (o, []) wants in
    offerParkedConfirmations absent o.

(** ** Held claims ([held.go]) *)

Definition put_held (id : string) (h : heldClaim) (o : Orchestrator) : Orchestrator :=
  o <| o_held ::= <[id := h]> |>.

Definition dropHeld (id : string) (o : Orchestrator) : Orchestrator :=
  publishHeld (o <| o_held ::= delete id |> <| o_published ::= delete id |>).

Definition held_header (id : string) (h : heldClaim) : header := MkHeader id (h_token h) 0.

Definition driveHeldRelease (id : string) (h : heldClaim) (o : Orchestrator) : Orchestrator :=
  if h_inFlight h then o
  else
    let '(ok, o) := enqueue (EffHeldRelease (held_header id h) (h_issue h)) o in
    put_held id (h <| h_inFlight := ok |>) o.

Definition driveHeldExit (id : string) (h : heldClaim) (o : Orchestrator) : Orchestrator :=
  if h_inFlight h || endedCycleOwed id o then o else driveHeldRelease id h o.

Definition releaseHeld (id : string) (h : heldClaim) (why : string) (o : Orchestrator) : Orchestrator :=
  if h_releasing h || o_draining o then o
  else
    let h := h <| h_releasing := true |> <| h_why := why |> in
    let o := oweEndedCycle id (bu_Workspaces (bundle o)) (h_workspace h) why (put_held id h o) in
    driveHeldExit id h o.

Definition checkHeldHistory (id : string) (h : heldClaim) (fresh : Issue) (o : Orchestrator) : Orchestrator :=
  let b := bundle o in
  let h := h <| h_inFlight := true |> in
  spawn (JHeldHistory (held_header id h) fresh (df_RequiredLabels (bu_Definition b)) (bu_Workspaces b)
           (bu_ClaimPrincipal b)) (put_held id h o).

Definition classifyHeld (id : string) (h : heldClaim) (fresh : Issue) (cur : snapshot) (o : Orchestrator)
    : Orchestrator :=
  if negb (active (sn_Definition cur) fresh) then releaseHeld id h "issue went terminal" o
  else if negb (hasRequiredLabels (sn_Definition cur) fresh) then
    releaseHeld id h "issue left the workflow's label partition" o
  else if negb (bool_decide (is_Revision fresh = h_revision h)) then checkHeldHistory id h fresh o
  else put_held id (h <| h_issue := fresh |>) o.

Definition sweep_held_one (seen : gmap string Issue) (cur : snapshot)
    (st : Orchestrator * list string) (id : string) : Orchestrator * list string :=
  let '(o, absent) := st in
  match o_held o !! id with
  | None => (o, absent)
  | Some h =>
      if h_releasing h || h_inFlight h then (o, absent)
      else match seen !! id with
           | None => (o, absent ++ [id])
           | Some fresh => (classifyHeld id h fresh cur o, absent)
           end
  end.

(** The claims the read no longer returned. *)
Definition sweepHeld (res : sweepResult) (cur : snapshot) (o : Orchestrator) : Orchestrator * list string :=
  if o_draining o || negb (is_nil (sr_err res)) then (o, [])
  else foldl (sweep_held_one (byID res) cur) (o, []) (visit 4 (o_held o) o).

Definition confirmHeldClaim (id : string) (o : Orchestrator) : Orchestrator :=
  match o_held o !! id with
  | None => o
  | Some h =>
      let h := if h_releasing h then h <| h_releaseFailed := false |> else h in
      let h := h <| h_inFlight := true |> in
      spawn (JHeldConfirm (held_header id h)) (put_held id h o)
  end.

Definition offerHeldConfirmations (absent : list string) (o : Orchestrator) : Orchestrator :=
  let failing := filter (λ id, match o_held o !! id with
                               | Some h => h_releasing h && h_releaseFailed h && negb (h_inFlight h)
                               | None => false
                               end = true) (visit 5 (o_held o) o) in
  let '(picked, cursor) := rotate id (absent ++ failing) (o_heldCursor o) heldConfirmationsPerTick in
  foldl (λ o id, confirmHeldClaim id o) (o <| o_heldCursor := cursor |>) picked.

Definition retryHeldExits (o : Orchestrator) : Orchestrator :=
  foldl (λ o id, match o_held o !! id with
                 | Some h => if h_releasing h then driveHeldExit id h o else o
                 | None => o
                 end) o (visit 6 (o_held o) o).

(** [heldFor]: the claim a signal is about, unless a later one took its place. *)
Definition heldFor (hd : header) (o : Orchestrator) : option heldClaim :=
  match o_held o !! hd_issue hd with
  | Some h => if h_token h =? hd_token hd then Some h else None
  | None => None
  end.

Definition onHeldReleased (hd : header) (err : option fault) (o : Orchestrator) : Orchestrator :=
  match heldFor hd o with
  | None => o
  | Some h =>
      let id := hd_issue hd in
      let h := h <| h_inFlight := false |> in
      if is_nil err then dropHeld id (put_held id h o)
      else put_held id (h <| h_releaseFailed := true |>) o
  end.

Definition onHeldConfirmed (hd : header) (refetched : option Issue) (err : option fault) (o : Orchestrator)
    : Orchestrator :=
  match heldFor hd o with
  | None => o
  | Some h =>
      let id := hd_issue hd in
      let h := h <| h_inFlight := false |> in
      let o := put_held id h o in
      let res := (refetched, err) in
      let o := if h_releasing h then o
               else match cycleEndedBy (definition o) res with
                    | Some why => oweEndedCycle id (bu_Workspaces (bundle o)) (h_workspace h) why o
                    | None => o
                    end in
      let exit h o := if h_releasing h then driveHeldExit id h o else o in
      if gone res then dropHeld id o
      else match err, refetched with
           | None, Some fresh =>
               if negb (containsFold (is_Assignees fresh) (bu_ClaimPrincipal (bundle o))) then dropHeld id o
               else if h_releasing h then exit h o
               else put_held id (h <| h_issue := fresh |>) o
           | _, _ => exit h o
           end
  end.

Definition onHeldHistory (hd : header) (refetched : Issue) (anchor : Z) (closed superseded : bool)
    (approvalErr err : option fault) (o : Orchestrator) : Orchestrator :=
  match heldFor hd o with
  | None => o
  | Some h =>
      let id := hd_issue hd in
      let h := h <| h_inFlight := false |> in
      if negb (is_nil err) || (anchor =? 0) then put_held id h o
      else
        let h := h <| h_cycleAnchor := anchor |> in
        let o := put_held id h o in
        if closed then releaseHeld id h "issue was closed inside this claim cycle" o
        else if negb (is_nil approvalErr) then o
        else if superseded then releaseHeld id h "the approval anchoring this workspace cycle was withdrawn" o
        else put_held id (h <| h_issue := refetched |> <| h_revision := is_Revision refetched |>) o
  end.

(** ** Ended cycles ([cycle.go]) *)

Definition adoptDurableEndedCycles (ws : Workspaces) (refs : list WorkspaceRef) (o : Orchestrator)
    : Orchestrator :=
  foldl (λ o ref,
    oweEndedCycle (wr_Identifier ref) ws
      (MkWorkspace (MkPaths (wr_Path ref) "" "") (wr_Key ref) "" 0 "" "" false false)
      "the approval was withdrawn and re-applied while BEN was not observing it" o) o refs.

Definition applyCycleScan (ws : Workspaces) (refs : list WorkspaceRef) (err : option fault) (mayClear : bool)
    (o : Orchestrator) : bool * Orchestrator :=
  if negb (is_nil err) then (false, o <| o_cycleScanFailed := true |>)
  else
    let o := adoptDurableEndedCycles ws refs o in
    (true, if mayClear then o <| o_cycleScanFailed := false |> else o).

Definition beginCycleScan (o : Orchestrator) : Orchestrator :=
  if o_cycleScanInFlight o || o_draining o || (0 <? o_cycleMutationsInFlight o) then o
  else
    let ws := bu_Workspaces (bundle o) in
    if negb (wk_endedCycles ws) then o <| o_cycleScanFailed := false |>
    else spawn (JCycleScan ws (o_cycleMutationSeq o)) (o <| o_cycleScanInFlight := true |>).

(** Drop a disposal from the ledger and let the claims it held back leave. *)
Definition clearEndedCycle (address : string) (o : Orchestrator) : Orchestrator :=
  match o_endedCycles o !! address with
  | None => o
  | Some cyc =>
      let id := ec_issue cyc in
      let o := if ec_deferredCandidate cyc then o <| o_scanOwed := true |> else o in
      let o := o <| o_endedCycles ::= delete address |> in
      if endedCycleOwed id o then o
      else
        let o := match o_held o !! id with
                 | Some h => if h_releasing h then driveHeldExit id h o else o
                 | None => o
                 end in
        match o_records o !! id with
        | Some t => on_record t driveOwed o
        | None => o
        end
  end.

Definition disposeEndedCycle (address : string) (o : Orchestrator) : Orchestrator :=
  match o_endedCycles o !! address with
  | None => o
  | Some cyc =>
      let ws := default (bu_Workspaces (bundle o)) (ec_workspaces cyc) in
      if negb (wk_lifecycle ws) then clearEndedCycle address o
      else
        spawn (JCycleDispose address (ec_workspace cyc) ws)
          (o <| o_endedCycles ::= <[address := cyc <| ec_inFlight := true |>]> |>)
  end.

Definition driveEndedCycles (o : Orchestrator) : Orchestrator :=
  let waits id := match o_records o !! id with Some t => owesBeforeExit (deref t o) | None => false end in
  let candidates := filter (λ a, match o_endedCycles o !! a with
                                 | Some cyc => negb (ec_inFlight cyc) && negb (waits (ec_issue cyc))
                                 | None => false
                                 end = true) (visit 7 (o_endedCycles o) o) in
  let '(picked, cursor) := rotate id candidates (o_disposalCursor o) endedCyclesPerTick in
  foldl (λ o a, disposeEndedCycle a o) (o <| o_disposalCursor := cursor |>) picked.

Definition onCycleDisposed (address : string) (err : option fault) (o : Orchestrator) : Orchestrator :=
  match o_endedCycles o !! address with
  | None => o
  | Some cyc =>
      let o := o <| o_endedCycles ::= <[address := cyc <| ec_inFlight := false |>]> |> in
      if negb (is_nil err) then o
      else clearEndedCycle address (o <| o_cycleMutationSeq ::= Z.succ |>)
  end.
End held.
