(* ===== verification/OrchResume.v ===== *)
(** * OrchResume: recovery and workspace cleanup

    Models [recover.go]: reading what is known of a claim found after a restart
    ([recoveryFacts]), applying the verdict of [OrchRecover], retrying both, and the
    cleanup pass over workspaces whose issue is finished. A function of a worker takes
    the answers its collaborators gave; one of the loop maps the orchestrator. *)

From S2P Require Import Prelude GoStd Update Core Template OrchState OrchRecover OrchRecord.
From S2P Require Import OrchApproval OrchPipeline OrchHeld.

(** [fmt.Errorf("<prefix>%w", err)] *)
Definition fault_wrap (prefix : string) (f : fault) : fault :=
  MkFault (errorf_wrap prefix (ft_err f) "") (ft_class f).

Definition plain_fault (text : string) : fault := MkFault (errors_New text) None.

Section resume.
Context {T : GoTables}.

(** ** Reading the facts of one claim *)

(** What the collaborators answer while one claim is read, as far as they are asked. *)
Record recoveryReads := MkReads {
  rd_ClaimHistory : answer (list ClaimEvent);
  rd_ResolveWorkspace : answer (Workspace * bool);
  rd_ClaimBase : answer ClaimBase;
  rd_ReadRunMarker : answer RunMarker;
  rd_RunGone : answer bool;
  rd_ResolveRun : answer bool;
  rd_ClearRunMarker : option fault;
  rd_Verify : answer VerifyResult;
  rd_LastFailure : answer (option RunFailure);
}.

Definition marker_where (ws : Workspace) : string :=
  let path := wp_Path (ws_Paths ws) in
  if bool_decide (path = "") then "(no workspace resolved)" else path.

Definition runMarkerState_number (s : RunMarkerState) : Z :=
  match s with
  | RunMarkerUnreadable => 0 | RunMarkerAbsent => 1 | RunMarkerIdentified => 2 | RunMarkerUnknownLaunch => 3
  end.

(** [probe] is [None] when the daemon has no prober. *)
Definition resolveMarkerValueWith (ws : Workspace) (marker : RunMarker) (probe : option (answer bool))
    (clearErr : option fault) : answer recoveryMarkerState :=
  match rm_State marker with
  | RunMarkerAbsent => (recoveryMarkerFree, None)
  | RunMarkerUnknownLaunch => (recoveryMarkerUnknownLaunch, None)
  | RunMarkerIdentified =>
      match probe with
      | None => (recoveryMarkerPossiblyLive, None)
      | Some (_, Some _) => (recoveryMarkerPossiblyLive, None)
      | Some (true, None) =>
          match clearErr with
          | Some e =>
              (recoveryMarkerUnresolved,
               Some (fault_wrap ("workspace " +:+ marker_where ws
                                 +:+ ": clearing the marker of a run confirmed gone: ") e))
          | None => (recoveryMarkerFree, None)
          end
      | Some (false, None) => (recoveryMarkerPossiblyLive, None)
      end
  | RunMarkerUnreadable =>
      (recoveryMarkerUnresolved,
       Some (plain_fault ("workspace " +:+ marker_where ws +:+ ": run marker state "
                          +:+ itoa (runMarkerState_number (rm_State marker))
                          +:+ " is not one this daemon understands")))
  end.

(** The prober of [Config.RunGone], which may be nil. *)
Definition run_gone (cfg : Config) (rd : recoveryReads) : option (answer bool) :=
  if cf_RunGone cfg then Some (rd_RunGone rd) else None.

Definition resolveMarker (cfg : Config) (ws : Workspace) (rd : recoveryReads) : answer recoveryMarkerState :=
  match rd_ReadRunMarker rd with
  | (_, Some e) => (recoveryMarkerUnresolved, Some (fault_wrap ("workspace " +:+ marker_where ws +:+ ": ") e))
  | (marker, None) => resolveMarkerValueWith ws marker (run_gone cfg rd) (rd_ClearRunMarker rd)
  end.

Definition recoveryNeedsEvidence (candidate : recoveryCandidate) (events : list ClaimEvent)
    (principal : string) : bool :=
  let anchor := claimCycleAnchor events principal in
  if negb (rc_active candidate) || closedInCycle events anchor then false
  else if negb (solePrincipal (rc_Assignees candidate) principal)
          && match arbitrateRecovery events (rc_Assignees candidate) principal with
             | recoveryArbitrationOurs => false
             | _ => true
             end then false
  else if (anchor =? 0) || negb (rc_inPartition candidate) then false
  else
    let p := replayRecoveryProjection events anchor in
    if rp_standing p then
      rp_effectiveKnown p && (bool_decide (rp_effective p = StateLabelClaimed)
                              || bool_decide (rp_effective p = StateLabelRunning))
    else if negb (rp_sawLabeled p) || negb (rp_lastWasRemoval p) || negb (rp_lastRemovedKnown p) then false
    else bool_decide (rp_lastRemoved p = StateLabelClaimed) || bool_decide (rp_lastRemoved p = StateLabelRunning).

Definition recoveryStartReplayApproval (candidate : recoveryCandidate) (events : list ClaimEvent)
    (evidence : Evidence) (principal : string) (requiredLabels : list string) : option Z :=
  if negb (bool_decide (v_action (classifyRecoveryFacts candidate events evidence principal)
                        = recoveryActionBackoff)) then None
  else
    let p := replayRecoveryProjection events (claimCycleAnchor events principal) in
    if negb (rp_standing p) || negb (rp_effectiveKnown p) then None
    else if negb (bool_decide (rp_effective p = StateLabelClaimed))
            && negb (bool_decide (rp_effective p = StateLabelRunning)) then None
    else approvalCycleAnchor events requiredLabels.

Definition recoveryEvidence (issue : Issue) (ws : Workspace) (verify : answer VerifyResult)
    : VerifyResult * option fault :=
  let none := MkVerify VerdictUnknown "" "" in
  if bool_decide (wp_Path (ws_Paths ws) = "") then
    (none, Some (plain_fault ("claim " +:+ is_Identifier issue
       +:+ " reached verification without an authorized workspace epoch/base/target tuple")))
  else match verify with
       | (_, Some e) => (none, Some e)
       | (res, None) =>
           if bool_decide (vr_Verdict res = VerdictUnknown)
           then (none, Some (plain_fault "publish-evidence check returned no verdict"))
           else if bool_decide (vr_Verdict res = VerdictPublished) && bool_decide (vr_PRURL res = "")
           then (none, Some (plain_fault
                  "publish-evidence check reported published with no pull request URL"))
           else (res, None)
       end.

Definition no_verdict : recoveryVerdict := plainRecovery recoveryActionUnknown 0.

(** The facts before anything but the change log was read. *)
Definition candidate_facts (issue : Issue) (events : list ClaimEvent) (cur : snapshot) : recoveryFacts :=
  MkRecoveryFacts issue
    (MkCandidate (is_Assignees issue) (active (sn_Definition cur) issue)
       (hasRequiredLabels (sn_Definition cur) issue))
    events recoveryMarkerUnresolved no_claimBase false no_verdict (MkVerify VerdictUnknown "" "")
    no_workspace (MkRunFailure zero_time "" "") false.

(** The run-marker part of an ungated claim, once its workspace is authorized. *)
Definition recovery_marker (cfg : Config) (issue : Issue) (cur : snapshot) (rd : recoveryReads)
    (ws : Workspace) (facts : recoveryFacts) : answer recoveryFacts :=
  let principal := bu_ClaimPrincipal (sn_Runtime cur) in
  let rawMarker := (rd_ReadRunMarker rd).1 in
  match resolveMarkerValueWith ws rawMarker (run_gone cfg rd) (rd_ClearRunMarker rd) with
  | (_, Some e) => (facts, Some (fault_wrap "run marker: " e))
  | (marker, None) =>
      let facts := facts <| rf_marker := marker |> in
      match marker with
      | recoveryMarkerUnknownLaunch => (facts, None)
      | _ =>
          let '(verified, verr) :=
            if recoveryNeedsEvidence (rf_candidate facts) (rf_events facts) principal
            then recoveryEvidence issue ws (rd_Verify rd)
            else (rf_verify facts, None) in
          match verr with
          | Some e => (facts, Some (fault_wrap "publish evidence: " e))
          | None =>
              let facts := facts <| rf_verify := verified |> in
              match recoveryStartReplayApproval (rf_candidate facts) (rf_events facts) (vr_Verdict verified)
                      principal (df_RequiredLabels (sn_Definition cur)), marker with
              | Some _, recoveryMarkerPossiblyLive =>
                  if bu_ResolveRun (sn_Runtime cur) then
                    match resolveMarkerValueWith ws rawMarker (Some (rd_ResolveRun rd)) (rd_ClearRunMarker rd) with
                    | (_, Some e) => (facts, Some (fault_wrap "run marker: " e))
                    | (marker, None) => (facts <| rf_marker := marker |>, None)
                    end
                  else (facts, None)
              | _, _ => (facts, None)
              end
          end
      end
  end.

Definition read_recoveryFacts (cfg : Config) (issue : Issue) (cur : snapshot) (rd : recoveryReads)
    : answer recoveryFacts :=
  match rd_ClaimHistory rd with
  | (_, Some e) => (candidate_facts issue [] cur, Some (fault_wrap "claim history: " e))
  | (events, None) =>
      let facts := candidate_facts issue events cur in
      let '(_, gated, anchor) :=
        classifyRecoveryTrackerGates (rf_candidate facts) events (bu_ClaimPrincipal (sn_Runtime cur)) in
      let '((ws, found), werr) := rd_ResolveWorkspace rd in
      if (gated : bool) then
        match werr with
        | Some e => (facts, Some (fault_wrap "resolving the workspace: " e))
        | None =>
            let facts := facts <| rf_workspace := ws |> in
            match resolveMarker cfg ws rd with
            | (_, Some e) => (facts, Some (fault_wrap "run marker: " e))
            | (marker, None) => (facts <| rf_marker := marker |>, None)
            end
        end
      else
        let '(claimBase, claimBaseErr) := rd_ClaimBase rd in
        let '(rawMarker, markerErr) := rd_ReadRunMarker rd in
        let facts := facts <| rf_claimBase := claimBase |> in
        let preclassified v := facts <| rf_preclassified := true |> <| rf_verdict := v |> in
        let '(gateVerdict, resolved) :=
          classifyRecoveryClaimBase anchor claimBase (negb (is_nil claimBaseErr)) (rm_State rawMarker)
            (negb (is_nil markerErr)) (currentCycleRunningEvidence events anchor) in
        if (resolved : bool) then (preclassified gateVerdict, None)
        else match markerErr with
        | Some e => (facts, Some (fault_wrap "run marker: " e))
        | None =>
            match werr with
            | Some _ =>
                (preclassified (epochFaultRecovery anchor "pinned claim epoch cannot resolve its workspace"), None)
            | None =>
                if negb found || negb (claimBaseAuthorizesWorkspace claimBase ws) then
                  (preclassified (epochFaultRecovery anchor
                     "resolved workspace does not carry the pinned claim epoch/base/target"), None)
                else recovery_marker cfg issue cur rd ws (facts <| rf_workspace := ws |>)
            end
        end
  end.

Definition claimCycleAnchorAt (events : list ClaimEvent) (principal : string) : Z :=
  foldl (λ at_ ev,
    if EqualFold (ce_Subject ev) principal then
      match ce_Kind ev with
      | ClaimEventAssigned => ce_At ev
      | ClaimEventUnassigned => zero_time
      | _ => at_
      end
    else at_) zero_time events.

(** A failure reason that survived the restart and belongs to this claim cycle. *)
Definition lastFailure (cfg : Config) (events : list ClaimEvent) (principal : string)
    (read : answer (option RunFailure)) : answer (option RunFailure) :=
  if negb (cf_FailureReasons cfg) then (None, None)
  else match read with
       | (_, Some e) => (None, Some e)
       | (None, None) => (None, None)
       | (Some failure, None) =>
           let anchor := claimCycleAnchorAt events principal in
           if anchor =? zero_time then (None, None)
           else if negb (time_after (rf_At failure) anchor) then (None, None)
           else (Some failure, None)
       end.

Definition milestone_is_failed (m : Milestone) : bool :=
  match m with MilestoneFailed => true | _ => false end.

Definition classify (cfg : Config) (facts : recoveryFacts) (cur : snapshot) (read : answer (option RunFailure))
    : answer (recoveryVerdict * recoveryFacts) :=
  if rf_preclassified facts then ((rf_verdict facts, facts), None)
  else
    let principal := bu_ClaimPrincipal (sn_Runtime cur) in
    let v := classifyRecovery (rf_candidate facts) (rf_events facts) (vr_Verdict (rf_verify facts))
               (rf_marker facts) principal in
    if negb (milestone_is_failed (v_milestone v)) then ((v, facts), None)
    else match lastFailure cfg (rf_events facts) principal read with
         | (_, Some e) =>
             ((no_verdict, facts),
              Some (fault_wrap "reading the transition log for the failure reason: " e))
         | (Some failure, None) =>
             ((v, facts <| rf_failure := failure |> <| rf_failureSurvived := true |>), None)
         | (None, None) =>
             ((v, facts <| rf_failure := MkRunFailure zero_time "" "" |> <| rf_failureSurvived := false |>), None)
         end.

(** Both halves, as a worker runs them. *)
Definition read_and_classify (cfg : Config) (issue : Issue) (cur : snapshot) (rd : recoveryReads)
    : answer (option (recoveryVerdict * recoveryFacts)) :=
  match read_recoveryFacts cfg issue cur rd with
  | (_, Some e) => (None, Some e)
  | (facts, None) =>
      match classify cfg facts cur (rd_LastFailure rd) with
      | (_, Some e) => (None, Some e)
      | (vf, None) => (Some vf, None)
      end
  end.

(** ** Applying a verdict *)

Definition action_String (a : recoveryAction) : string :=
  match a with
  | recoveryActionUnknown => "recoveryAction(0)"
  | recoveryActionBlocked => "blocked"
  | recoveryActionWait => "wait"
  | recoveryActionApprove => "approve"
  | recoveryActionBackoff => "backoff"
  | recoveryActionPark => "park"
  | recoveryActionHold => "hold"
  | recoveryActionReleaseKeep => "release, keep workspace"
  | recoveryActionReleaseDispose => "release, dispose workspace"
  | recoveryActionGone => "issue gone from the tracker"
  end.

(** The new record and its token. *)
Definition adoptRecovered (issue : Issue) (facts : recoveryFacts) (v : recoveryVerdict) (cur : snapshot)
    (state : State) (o : Orchestrator) : Z * Orchestrator :=
  let '(token, o) := newToken o in
  let r := zero_record (sn_Definition cur)
             <| r_Issue := issue |> <| r_State := state |> <| r_Workspace := rf_workspace facts |>
             <| r_PRURL := vr_PRURL (rf_verify facts) |> <| r_Attempt := v_attemptFloor v |>
             <| r_claimEpoch := v_cycleAnchor v |> <| r_UpdatedAt := o_clock o |>
             <| r_token := token |> <| r_recovered := true |> in
  let r := if 2 <=? v_attemptFloor v then r <| r_attemptBase := v_attemptFloor v - 1 |> else r in
  let o := publish r (o <| o_records ::= <[is_Identifier issue := token]> |>) in
  let entry := MkTransition (r_UpdatedAt r) (is_Identifier issue) StateQueued state (cf_DaemonID (o_cfg o))
                 ("recovered at startup: " +:+ action_String (v_action v)) "" "" in
  (token, store_record token r (o <| o_Transitions ::= λ l, l ++ [entry] |>)).

Definition adoptUnclassified (issue : Issue) (cur : snapshot) (o : Orchestrator) : Orchestrator :=
  let '(token, o) := newToken o in
  let r := zero_record (sn_Definition cur)
             <| r_Issue := issue |> <| r_State := StateQueued |> <| r_UpdatedAt := o_clock o |>
             <| r_token := token |> <| r_recovered := true |> <| r_unclassified := true |> in
  store_record token r (publish r (o <| o_records ::= <[is_Identifier issue := token]> |>)).

(** The comment, and the record with the failure reason it learned. *)
Definition recoveryComment (facts : recoveryFacts) (v : recoveryVerdict) (r : RunRecord)
    : MilestoneComment * RunRecord :=
  match v_milestone v with
  | MilestonePublished => (MkMilestone MilestonePublished (vr_PRURL (rf_verify facts)) "" false "", r)
  | MilestoneFailed =>
      if rf_failureSurvived facts then
        (MkMilestone MilestoneFailed "" (rf_Reason (rf_failure facts)) false (rf_Detail (rf_failure facts)),
         r <| r_FailureReason := rf_Reason (rf_failure facts) |>)
      else (MkMilestone MilestoneFailed "" "" true
              "recovered after a restart; the failure reason did not survive", r)
  | MilestoneNeedsReview =>
      (plain_comment MilestoneNeedsReview
         (if bool_decide (v_detail v = "") then vr_Detail (rf_verify facts) else v_detail v), r)
  | m => (plain_comment m "", r)
  end.

Definition projectRecovery (facts : recoveryFacts) (v : recoveryVerdict) (c : cell) : cell :=
  if negb (v_project v) then c
  else
    let want := v_stateLabel v in
    let c := oweProjection ("project " +:+ labelName want) (DoSetStateLabels (r_Issue (c_r c)) want) c in
    match v_milestone v with
    | MilestoneNone => c
    | _ =>
        let '(m, r) := recoveryComment facts v (c_r c) in
        comment m (MkCell r (c_o c))
    end.

Definition resumeRecoveredBackoff (c : cell) : cell :=
  match transition StatePreparing "recovered orphan: resuming the failure track" c with
  | None => c
  | Some c =>
      enterBackoff "recovered orphan: work may already exist on the branch (SPEC §9.10)" "" c
  end.

Definition applyRecovery (issue : Issue) (facts : recoveryFacts) (v : recoveryVerdict) (cur : snapshot)
    (o : Orchestrator) : Orchestrator :=
  let adopt state f :=
    let '(t, o) := adoptRecovered issue facts v cur state o in on_record t f o in
  let project := projectRecovery facts v in
  let why := "recovery: " +:+ action_String (v_action v) in
  match v_action v with
  | recoveryActionGone => forget (is_Identifier issue) o
  | recoveryActionBlocked | recoveryActionUnknown => adoptUnclassified issue cur o
  | recoveryActionWait =>
      adopt StateQueued (λ c, project (c <| c_r ::= λ r, r <| r_unclassified := true |> |>))
  | recoveryActionApprove =>
      adopt StateQueued (λ c, beginApproval (project (c <| c_r ::= λ r, r <| r_claimVerified := true |> |>)))
  | recoveryActionBackoff => adopt StateClaimed (λ c, resumeRecoveredBackoff (project c))
  | recoveryActionPark =>
      adopt StateNeedsReview (λ c,
        project (c <| c_r ::= λ r, r <| r_epochFaulted := v_epochFault v |>
                                     <| r_epochFaultDetail := v_detail v |> |>))
  | recoveryActionHold => adopt StateDone (λ c, driveHold (disposePublished (project c)))
  | recoveryActionReleaseKeep =>
      adopt StateQueued (λ c, release why (completeRevocationOnly (abandonPendingClaimBase (project c))))
  | recoveryActionReleaseDispose =>
      adopt StateQueued (λ c, release why (disposeRevoked false (abandonPendingClaimBase (project c))))
  end.

(** ** Retrying recovery *)

Definition retryRecoveryScan (cur : snapshot) (o : Orchestrator) : Orchestrator :=
  if negb (o_scanOwed o) || o_scanInFlight o || o_draining o || o_cycleScanInFlight o || o_cycleScanFailed o
  then o
  else spawn (JScan (sn_Revision cur)) (o <| o_scanInFlight := true |>).

Definition retry_classify (cur : snapshot) (c : cell) : cell :=
  if negb (r_unclassified (c_r c)) || r_recoverInFlight (c_r c) then c
  else
    let r := c_r c <| r_recoverInFlight := true |> in
    MkCell r (spawn (JRecover (header_of r) (r_Issue r) cur) (c_o c)).

Definition retryRecovery (o : Orchestrator) : Orchestrator :=
  let cur := o_cur o in
  for_records 9 (retry_classify cur) (retryRecoveryScan cur o).

(** One candidate of a scan: left to its record, its held claim or its cycle's disposal,
    or adopted. *)
Definition scan_one (cur : snapshot) (o : Orchestrator) (issue : Issue) : Orchestrator :=
  let id := is_Identifier issue in
  match o_records o !! id, o_held o !! id with
  | None, None =>
      if endedCycleOwed id o then
        o <| o_endedCycles ::= fmap (λ cyc,
               if bool_decide (ec_issue cyc = id) then cyc <| ec_deferredCandidate := true |> else cyc) |>
      else adoptUnclassified issue cur o
  | _, _ => o
  end.

Definition onRecoveryScan (candidates : list Issue) (err : option fault) (revision : Z) (o : Orchestrator)
    : Orchestrator :=
  let o := o <| o_scanInFlight := false |> in
  let cur := o_cur o in
  if negb (sn_Revision cur =? revision) || negb (is_nil err) then o
  else retryRecovery (foldl (scan_one cur) (o <| o_scanOwed := false |>) candidates).

Definition onRecovered (t : Z) (revision : Z) (recovery : option (recoveryVerdict * recoveryFacts))
    (err : option fault) (o : Orchestrator) : Orchestrator :=
  let o := on_record t (λ c, c <| c_r ::= λ r, r <| r_recoverInFlight := false |> |>) o in
  let r := deref t o in
  let id := is_Identifier (r_Issue r) in
  let cur := o_cur o in
  if negb (sn_Revision cur =? revision) || negb (r_unclassified r)
     || bool_decide (id ∈ o_sweepDisposing o) then o
  else match err, recovery with
       | None, Some (v, facts) =>
           if bool_decide (v_action v = recoveryActionBlocked) then o
           else applyRecovery (rf_issue facts) facts v cur (forget id o)
       | _, _ => o
       end.

(** ** Workspace cleanup *)

Definition maxSweepExaminations : nat := 8.

Definition grantDisposal (identifier : string) (o : Orchestrator) : bool * Orchestrator :=
  if o_draining o || negb (is_nil (o_records o !! identifier)) || negb (is_nil (o_held o !! identifier))
     || endedCycleOwed identifier o || bool_decide (identifier ∈ o_sweepDisposing o)
  then (false, o)
  else (true, o <| o_sweepDisposing ::= union {[identifier]} |>).

Definition defer_ref (ref : WorkspaceRef) (out : sweepResultSet) : sweepResultSet :=
  MkSweepSet (<[wr_Key ref := ref]> (ss_deferred out)) (ss_skipped out) (ss_cursor out) (ss_listFailed out).

(** The answer reaches the pass that asked. *)
Definition sweep_reply (identifier : string) (granted : bool) (j : job) : job :=
  match j with
  | JSweep plan todo rest out (SwReserving ref) =>
      if bool_decide (wr_Identifier ref = identifier) then
        if granted then JSweep plan todo rest out (SwDisposing ref)
        else JSweep plan todo rest (defer_ref ref out) SwAsking
      else j
  | j => j
  end.

Definition onSweepReserve (identifier : string) (o : Orchestrator) : Orchestrator :=
  let '(granted, o) := grantDisposal identifier o in
  o <| o_jobs ::= fmap (sweep_reply identifier granted) |>.

Definition onSweepRelease (identifier : string) (o : Orchestrator) : Orchestrator :=
  o <| o_sweepDisposing ::= λ s, s ∖ {[identifier]} |>.

Definition empty_sweep : sweepResultSet := MkSweepSet ∅ ∅ "" false.

(** Which of the listed workspaces a pass looks at, and those it leaves to their owner. *)
Definition sweep_candidates (plan : sweepPlan) (listed : list WorkspaceRef)
    : list WorkspaceRef * gmap string WorkspaceRef :=
  let want : gset string := list_to_set (wr_Key <$> pl_refs plan) in
  foldl (λ st ref,
    let '(cands, skipped) := st in
    if bool_decide (wr_Identifier ref = "") then (cands, skipped)
    else if bool_decide (wr_Identifier ref ∈ pl_owned plan) then (cands, <[wr_Identifier ref := ref]> skipped)
    else if negb (pl_full plan) && negb (bool_decide (wr_Key ref ∈ want)) then (cands, skipped)
    else (cands ++ [ref], skipped)) ([], ∅) listed.

(** Where the pass resumes: the first candidate at or above the cursor. *)
Fixpoint sweep_start (cursor : string) (cands : list WorkspaceRef) (i : nat) : nat :=
  match cands with
  | [] => O
  | ref :: cands =>
      if bool_decide (cursor = "") || negb (String.ltb (wr_Key ref) cursor) then i
      else sweep_start cursor cands (S i)
  end.

(** The candidates in the order the pass visits them, around the end. *)
Definition sweep_order (cursor : string) (cands : list WorkspaceRef) : list WorkspaceRef :=
  let start := sweep_start cursor cands O in drop start cands ++ take start cands.

(** After the listing: what is examined, what is put off, and what is known already. *)
Definition sweep_plan (plan : sweepPlan) (listed : answer (list WorkspaceRef))
    : list WorkspaceRef * list WorkspaceRef * sweepResultSet :=
  match listed with
  | (_, Some _) => ([], [], MkSweepSet ∅ ∅ "" true)
  | (refs, None) =>
      let '(cands, skipped) := sweep_candidates plan refs in
      let order := sweep_order (pl_cursor plan) cands in
      let rest := drop maxSweepExaminations order in
      (take maxSweepExaminations order, rest,
       MkSweepSet ∅ skipped (match rest with ref :: _ => wr_Key ref | [] => "" end) false)
  end.

(** The first question of [sweepOneWorkspace]: [None] to go on, otherwise whether the
    workspace is asked about again. A nil issue without an error does not arise. *)
Definition sweep_ask (cur : snapshot) (fresh : answer (option Issue)) : option bool :=
  if err_Is fresh.2 ErrIssueNotFound then None
  else match fresh with
       | (_, Some _) => Some true
       | (Some issue, None) =>
           if active (sn_Definition cur) issue then
             if negb (cyclesOutliveClaims (bu_Workspaces (sn_Runtime cur)))
                || hasRequiredLabels (sn_Definition cur) issue then Some false else None
           else None
       | (None, None) => Some true
       end.

(** The rest, under the reservation: whether it is asked about again, and the workspace
    disposed of, if one was. *)
Definition sweep_dispose (cfg : Config) (ref : WorkspaceRef) (rd : recoveryReads) (disposeErr : option fault)
    : bool * option Workspace :=
  match resolveMarker cfg (MkWorkspace (MkPaths "" "" "") (wr_Key ref) "" 0 "" "" false false) rd with
  | (_, Some _) => (true, None)
  | (recoveryMarkerUnknownLaunch, None) => (false, None)
  | (recoveryMarkerFree, None) =>
      match rd_ResolveWorkspace rd with
      | (_, Some _) => (true, None)
      | ((ws, found), None) =>
          let ws := if (found : bool) then ws
                    else MkWorkspace (MkPaths (wr_Path ref) "" "") (wr_Key ref) "" 0 "" "" false false in
          (negb (is_nil disposeErr), Some ws)
      end
  | _ => (true, None)
  end.

Definition ownedIssues (o : Orchestrator) : gset string :=
  dom (o_records o) ∪ dom (o_held o) ∪ list_to_set ((λ kc, ec_issue kc.2) <$> map_to_list (o_endedCycles o)).

Definition sweepHandbackOwed (o : Orchestrator) : bool :=
  existsb (λ kr, is_nil (o_records o !! kr.1) && is_nil (o_held o !! kr.1)) (map_to_list (o_sweepSkipped o)).

Definition sweepOwed (o : Orchestrator) : bool :=
  o_sweepPassOwed o || negb (bool_decide (o_sweepDeferred o = ∅)) || o_sweepInFlight o || sweepHandbackOwed o.

Definition onSwept (res : sweepResultSet) (o : Orchestrator) : Orchestrator :=
  let o := o <| o_sweepInFlight := false |> in
  if ss_listFailed res then o <| o_sweepPassOwed := true |>
  else
    let o := o <| o_sweepPassOwed := false |> <| o_sweepDeferred := ss_deferred res |>
               <| o_sweepCursor := ss_cursor res |> <| o_sweepSkipped := ss_skipped res |> in
    if bool_decide (o_sweepDeferred o = ∅) && bool_decide (o_sweepSkipped o = ∅)
    then o <| o_sweepBundle := None |> else o.

Definition beginSweep (plan : sweepPlan) (o : Orchestrator) : Orchestrator :=
  let plan := MkSweepPlan (pl_refs plan) (pl_full plan) (pl_owned plan) true (pl_cursor plan) (pl_cur plan) in
  spawn (JSweep plan [] [] empty_sweep SwListing) (o <| o_sweepInFlight := true |>).

Definition ref_lt (a b : WorkspaceRef) : bool := String.ltb (wr_Key a) (wr_Key b).

Definition retrySweep (o : Orchestrator) : Orchestrator :=
  if o_sweepInFlight o || o_draining o || o_scanOwed o || o_cycleScanFailed o then o
  else if negb (o_sweepPassOwed o) && bool_decide (o_sweepDeferred o = ∅) && negb (sweepHandbackOwed o) then o
  else
    let cur := o_cur o in
    let moved := match o_sweepBundle o with
                 | Some b => negb (bool_decide (bundle_Identity b = bundle_Identity (sn_Runtime cur)))
                 | None => false
                 end in
    let o := if moved
             then o <| o_sweepDeferred := ∅ |> <| o_sweepSkipped := ∅ |> <| o_sweepBundle := None |>
                    <| o_sweepPassOwed := true |>
             else o in
    let owned := ownedIssues o in
    let freed := filter (λ kr, kr.1 ∉ owned) (map_to_list (o_sweepSkipped o)) in
    let o := o <| o_sweepSkipped ::= filter (λ kr, kr.1 ∈ owned) |>
               <| o_sweepDeferred ::= λ d, foldr (λ kr d, <[wr_Key kr.2 := kr.2]> d) d freed |> in
    let refs := if o_sweepPassOwed o then []
                else stable_sort ref_lt (map_to_list (o_sweepDeferred o)).*2 in
    let plan := MkSweepPlan refs (o_sweepPassOwed o) owned false (o_sweepCursor o) cur in
    beginSweep plan (o <| o_sweepBundle := Some (sn_Runtime cur) |>).

(** ** Identity work ([orchestrator.go]) *)

Definition identityWorkOutstanding (o : Orchestrator) : bool :=
  negb (bool_decide (o_records o = ∅)) || negb (bool_decide (dom (o_held o) = ∅))
  || negb (bool_decide (dom (o_endedCycles o) = ∅))
  || o_scanOwed o || o_scanInFlight o || o_cycleScanInFlight o || o_cycleScanFailed o
  || (0 <? o_cycleMutationsInFlight o) || sweepOwed o
  || negb (bool_decide (length (o_markerClears o) = 0)%nat).

Definition publishIdentityWork (o : Orchestrator) : Orchestrator :=
  o <| o_identityWork := identityWorkOutstanding o |>.

Definition identityMoved (a : adoption) : bool :=
  match ad_prev a, ad_next a with
  | Some p, Some n => negb (bool_decide (bundle_Identity p = bundle_Identity n))
  | _, _ => true
  end.

Definition ErrWorkOutstanding : error := errors_New
  "reload not adopted: work bound to the current configuration is still outstanding".
Definition ErrReloadPanic : error := errors_New "panic while reloading WORKFLOW.md".

(** The acknowledgement is recorded by its error; its text is not modelled. *)
Definition onAdopt (a : adoption) (o : Orchestrator) : Orchestrator :=
  if identityMoved a && identityWorkOutstanding o then
    if ad_cancelled a then o
    else o <| o_adopted ::= λ l, l ++ [(ad_id a, Some ErrWorkOutstanding)] |>
  else if ad_cancelled a then o
  else if ad_panics a then o <| o_adopted ::= λ l, l ++ [(ad_id a, Some ErrReloadPanic)] |>
  else o <| o_cur := ad_commit a |> <| o_adopted ::= λ l, l ++ [(ad_id a, None)] |>.

(** ** Startup

    [Recover] runs before the loop. [read] answers what [recoverCandidate] reads of each
    claim, [sweep] is the result of the first cleanup pass. *)
Definition recoverCandidate (cur : snapshot) (read : Issue → recoveryReads) (o : Orchestrator) (issue : Issue)
    : Orchestrator :=
  match read_and_classify (o_cfg o) issue cur (read issue) with
  | (Some (v, facts), None) => applyRecovery issue facts v cur o
  | _ => adoptUnclassified issue cur o
  end.

Definition Recover (cycles : answer (list WorkspaceRef)) (candidates : answer (list Issue))
    (read : Issue → recoveryReads) (sweep : sweepResultSet) (o : Orchestrator) : Orchestrator :=
  let o := o <| o_recovered := true |> in
  let cur := o_cur o in
  let ws := bu_Workspaces (sn_Runtime cur) in
  let '(cycleErr, o) :=
    if wk_endedCycles ws then (cycles.2, (applyCycleScan ws cycles.1 cycles.2 true o).2)
    else (None, o <| o_cycleScanFailed := false |>) in
  publishIdentityWork
    (if negb (is_nil candidates.2) then o <| o_scanOwed := true |> <| o_sweepPassOwed := true |>
     else if negb (is_nil cycleErr) then
       o <| o_scanOwed := true |> <| o_sweepPassOwed := true |> <| o_sweepBundle := Some (sn_Runtime cur) |>
     else
       let o := foldl (recoverCandidate cur read) o candidates.1 in
       let o := o <| o_sweepPassOwed := ss_listFailed sweep |> <| o_sweepDeferred := ss_deferred sweep |>
                  <| o_sweepSkipped := ss_skipped sweep |> <| o_sweepCursor := ss_cursor sweep |> in
       if o_sweepPassOwed o || negb (bool_decide (o_sweepDeferred o = ∅))
          || negb (bool_decide (o_sweepSkipped o = ∅))
       then o <| o_sweepBundle := Some (sn_Runtime cur) |> else o).
End resume.
