(* ===== verification/OrchLoop.v ===== *)
(** * OrchLoop: the authority loop and its workers

    Models [signals.go] (the loop's dispatch of a signal, ticks, reconciliation and
    dispatch), [shutdown.go], and the bodies of the goroutines of the orchestrator, which
    turn the answers of the tracker, the workspace provider and the runner into signals.
    [step] is the system: the loop takes a signal off its channel, a goroutine or the
    effects worker finishes a call, a pump forwards an event of its run, time passes. *)

From S2P Require Import Prelude GoStd Update Core Template OrchState OrchRecover OrchRecord.
From S2P Require Import OrchApproval OrchPipeline OrchHeld OrchResume.

Section loop.
Context {T : GoTables}.

(** ** Ticks *)

Definition beginReconcile (o : Orchestrator) : Orchestrator :=
  if o_reconcileInFlight o then o
  else
    let ids := visit 1 (o_records o) o in
    let at_id {A} (f : string → RunRecord → option A) :=
      omap (λ id, match o_records o !! id with Some t => f id (deref t o) | None => None end) ids in
    let wants := at_id (λ id r,
      if bool_decide (r_State r ∈ [StateClaimed; StateRunning; StatePreparing; StateVerifying])
      then Some (id, r_Issue r) else None) in
    let parked := at_id (λ id r,
      if bool_decide (r_State r = StateNeedsReview) && negb (exiting r) && negb (r_absenceInFlight r)
      then Some (MkParkedWant id (negb (owesProjection r))) else None) in
    let sweepNeeded := negb (bool_decide (dom (o_held o) = ∅)) || negb (bool_decide (length parked = 0)%nat) in
    spawn (JReconcile wants parked sweepNeeded) (o <| o_reconcileInFlight := true |>).

Definition beginDispatchReads (o : Orchestrator) : Orchestrator :=
  if o_dispatchInFlight o || o_reconcileInFlight o || o_draining o || o_cycleScanInFlight o
     || o_cycleScanFailed o then o
  else spawn (JDispatch (sn_Revision (o_cur o))) (o <| o_dispatchInFlight := true |>).

(** The request budget of the tick is the tracker's. *)
Definition onTick (o : Orchestrator) : Orchestrator :=
  beginReconcile (for_records 0 driveVerifyRetry (beginCycleScan o)).

(** ** Reconciliation *)

Definition retry_record (c : cell) : cell :=
  let c := driveHold (driveOwed c) in
  let c := if r_stopping (c_r c) && negb (is_nil (r_handle (c_r c))) then beginStop StopDiscard c else c in
  let c := if bool_decide (r_State (c_r c) = StateQueued) && r_claimVerified (c_r c) then
             if 0 <? r_claimEpoch (c_r c) then beginClaimBase c else beginApproval c
           else c in
  let c := if bool_decide (r_State (c_r c) = StateBackoff) && r_claimBaseDispatch (c_r c)
              && (0 <? r_claimEpoch (c_r c)) then beginClaimBase c else c in
  confirmQuiet c.

Definition retryPendingExits (o : Orchestrator) : Orchestrator := for_records 2 retry_record o.

Definition reconcile_one (res : refreshResult) (cur : snapshot) (c : cell) : cell :=
  if exiting (c_r c) || bool_decide (r_State (c_r c) = StateNeedsReview) then c
  else if gone res then stopAndFinish false "issue is gone from the tracker" (c <| c_r ::= markGone |>)
  else match res with
       | (Some fresh, None) =>
           if negb (active (sn_Definition cur) fresh) then stopAndFinish false "issue went terminal" c
           else if negb (routable cur fresh) then stopAndFinish true "issue is no longer routable" c
           else c <| c_r ::= adoptRouting fresh |>
       | _ => c
       end.

Definition reconcile (refreshed : gmap string refreshResult) (cur : snapshot) (o : Orchestrator) : Orchestrator :=
  foldl (λ o id, match o_records o !! id, refreshed !! id with
                 | Some t, Some res => on_record t (reconcile_one res cur) o
                 | _, _ => o
                 end) o (visit 3 refreshed o).

Definition onReconciled (refreshed : gmap string refreshResult) (parked : list parkedWant)
    (sweep : sweepResult) (o : Orchestrator) : Orchestrator :=
  let o := o <| o_reconcileInFlight := false |> in
  let cur := o_cur o in
  let o := reconcile refreshed cur o in
  let '(o, absentHeld) :=
    if sr_read sweep then
      let '(o, absent) := sweepHeld sweep cur o in (sweepParked parked sweep cur o, absent)
    else (o, []) in
  let o := retryHeldExits (offerHeldConfirmations absentHeld o) in
  let o := retryPendingExits (driveEndedCycles o) in
  let o := driveMarkerClears (offerOwedConfirmations o) in
  beginDispatchReads (retrySweep (retryRecovery o)).

(** ** Dispatch *)

Definition candidate_lt (a b : Issue) : bool :=
  if negb (is_CreatedAt a =? is_CreatedAt b) then time_before (is_CreatedAt a) (is_CreatedAt b)
  else String.ltb (is_Identifier a) (is_Identifier b).

Definition eligible (o : Orchestrator) (i : Issue) : bool :=
  let id := is_Identifier i in
  is_Dispatchable i && is_nil (o_records o !! id) && is_nil (o_held o !! id)
  && negb (endedCycleOwed id o) && negb (bool_decide (id ∈ o_sweepDisposing o)).

Fixpoint claim_while_free (cur : snapshot) (issues : list Issue) (o : Orchestrator) : Orchestrator :=
  match issues with
  | [] => o
  | issue :: issues =>
      if freeSlots (sn_Definition cur) o <=? 0 then o else claim_while_free cur issues (beginClaim issue cur o)
  end.

Definition dispatch (candidates : list Issue) (cur : snapshot) (o : Orchestrator) : Orchestrator :=
  if o_draining o then o
  else claim_while_free cur
         (stable_sort candidate_lt (filter (λ i, eligible o i = true) candidates)) o.

Definition onTickResult (candidates : list Issue) (err : option fault) (revision : Z) (o : Orchestrator)
    : Orchestrator :=
  let o := o <| o_dispatchInFlight := false |> in
  let cur := o_cur o in
  if negb (sn_Revision cur =? revision) then onTick o
  else if negb (is_nil (sn_Blocked cur)) || negb (is_nil err) || o_cycleScanInFlight o || o_cycleScanFailed o
  then o
  else dispatch candidates cur o.

Definition onCycleScan (cy : cycleReading) (o : Orchestrator) : Orchestrator :=
  let o := o <| o_cycleScanInFlight := false |> in
  let fresh := (cy_seq cy =? o_cycleMutationSeq o) && (o_cycleMutationsInFlight o =? 0) in
  beginDispatchReads
    (if negb (is_nil (cy_err cy)) || fresh
     then (applyCycleScan (cy_workspaces cy) (cy_refs cy) (cy_err cy) fresh o).2 else o).

(** ** Shutdown ([shutdown.go]) *)

Definition shutdown_record (c : cell) : cell :=
  if orderedExit (c_r c) then driveOwed c
  else
    let c := c <| c_r ::= λ r, r <| r_suspended := true |> |> in
    let c := if is_nil (r_handle (c_r c)) && (r_pending (c_r c) =? 0)
             then completeShutdown (recordAttempt FailureKilled VerdictUnknown c) else c in
    let c := driveOwed c in
    if negb (is_nil (r_handle (c_r c))) && negb (r_domainQuiet (c_r c)) then beginStop StopInterrupt c else c.

Definition record_drained (r : RunRecord) : bool :=
  negb ((0 <? r_pending r) || r_probeInFlight r || r_stopInFlight r
        || (negb (is_nil (r_handle r)) && negb (r_handleDone r))
        || (negb (is_nil (r_handle r)) && negb (r_domainQuiet r))
        || owesAnything r || r_owedInFlight r).

Definition drained (o : Orchestrator) : bool :=
  forallb (λ kt, record_drained (deref kt.2 o)) (map_to_list (o_records o))
  && bool_decide (dom (o_endedCycles o) = ∅)
  && forallb (λ kh, negb (h_inFlight kh.2) && negb (h_releasing kh.2)) (map_to_list (o_held o))
  && forallb (λ p, negb (pc_inFlight p)) (o_markerClears o).

Definition driveShutdown (o : Orchestrator) : Orchestrator :=
  if negb (o_draining o) then o
  else
    let o := for_records 10 shutdown_record o in
    if negb (drained o) then o
    else o <| o_acked ::= λ l, l ++ o_drainWaiters o |> <| o_drainWaiters := [] |>.

Definition onShutdown (waiter : Z) (o : Orchestrator) : Orchestrator :=
  let o := o <| o_drainWaiters ::= λ l, l ++ [waiter] |> in
  let o := if o_draining o then o else o <| o_draining := true |> <| o_drainingPublished := true |> in
  driveShutdown o.

(** ** The dispatch of a signal *)

(** A signal to one record: by its token, and unless it may outlive the attempt by its
    generation. *)
Definition deliver (h : header) (any_generation : bool) (f : Z → Orchestrator → Orchestrator)
    (o : Orchestrator) : Orchestrator :=
  match o_records o !! hd_issue h with
  | None => o
  | Some t =>
      let r := deref t o in
      if negb (hd_token h =? r_token r) then o
      else if any_generation || (hd_generation h =? r_generation r) then f t o
      else o
  end.

(** What [handle] does first with the ended-cycle reading of a claim-base worker. *)
Definition cycle_answer (cycle : option cycleReading) (o : Orchestrator) : bool * Orchestrator :=
  match cycle with
  | None => (false, o)
  | Some cy =>
      let o := if o_cycleMutationsInFlight o <=? 0 then o <| o_cycleScanFailed := true |>
               else o <| o_cycleMutationsInFlight ::= Z.pred |> in
      if negb (is_nil (cy_err cy)) then applyCycleScan (cy_workspaces cy) (cy_refs cy) (cy_err cy) false o
      else (true,
            if cy_seq cy =? o_cycleMutationSeq o
            then (applyCycleScan (cy_workspaces cy) (cy_refs cy) (cy_err cy) false o).2 else o)
  end.

Definition dispatch_signal (s : signal) (o : Orchestrator) : Orchestrator :=
  let attempt h f := deliver h false (λ t, on_record t f) in
  let record h f := deliver h true (λ t, on_record t f) in
  match s with
  | SigTick => onTick o
  | SigReconciled refreshed parked sweep => onReconciled refreshed parked sweep o
  | SigTickResult candidates err revision => onTickResult candidates err revision o
  | SigClaimed h verified err => attempt h (onClaimed verified err) o
  | SigApproved h history approval labels principal err =>
      attempt h (onApproved history approval labels principal err) o
  | SigClaimBaseBegun h err cb cbErr cycle =>
      let '(ok, o) := cycle_answer cycle o in
      attempt h (onClaimBaseBegun err cb cbErr (negb (is_nil cycle)) ok) o
  | SigPrepared h ws facts err cb cbErr => attempt h (onPrepared ws facts err cb cbErr) o
  | SigStarted h handle err => attempt h (onStarted handle err) o
  | SigRunEvent h ev => attempt h (onRunEvent ev) o
  | SigEventsClosed h sawTerminal => attempt h (onEventsClosed sawTerminal) o
  | SigHandleDone h => attempt h onHandleDone o
  | SigProbed h probe => attempt h (onProbed probe) o
  | SigSummarized h facts err => attempt h (onSummarized facts err) o
  | SigVerified h verify err epochFault detail readFailed =>
      attempt h (onVerified verify err epochFault detail readFailed) o
  | SigStopped h termination => attempt h (onStopped termination) o
  | SigTimer h kind => attempt h (onTimer kind) o
  | SigTimerFetched h kind revision labels principal refetched history approval cb cbErr marker mErr err =>
      attempt h (onTimerFetched kind revision labels principal refetched history approval cb cbErr marker
                   mErr err) o
  | SigEffectDone h effect err => record h (onEffectDone effect err) o
  | SigOwedConfirmed h refetched _ err => record h (onOwedConfirmed refetched err) o
  | SigClaimAnchor h anchor superseded approvalErr revision err =>
      record h (onClaimAnchor anchor superseded approvalErr revision err) o
  | SigDoneOwnership h refetched err => record h (onDoneOwnership refetched err) o
  | SigHeldConfirmed h refetched err => onHeldConfirmed h refetched err o
  | SigHeldHistory h refetched anchor closed superseded approvalErr err =>
      onHeldHistory h refetched anchor closed superseded approvalErr err o
  | SigCycleDisposed address err => onCycleDisposed address err o
  | SigHeldReleased h err => onHeldReleased h err o
  | SigParkedConfirmed h refetched settled err => record h (onParkedConfirmed refetched settled err) o
  | SigAdopt a => onAdopt a o
  | SigShutdown waiter => onShutdown waiter o
  | SigRecovered h revision recovery err => deliver h true (λ t, onRecovered t revision recovery err) o
  | SigRecoveryScan candidates err revision => onRecoveryScan candidates err revision o
  | SigSwept res => onSwept res o
  | SigSweepReserve identifier => onSweepReserve identifier o
  | SigSweepRelease identifier => onSweepRelease identifier o
  | SigMarkerCleared clear err => onMarkerCleared clear err o
  | SigCycleScan cy => onCycleScan cy o
  end.

(** [handle], whose deferred call is [driveShutdown]. *)
Definition handle (s : signal) (o : Orchestrator) : Orchestrator := driveShutdown (dispatch_signal s o).

(** One turn of [loop]. *)
Definition turn (s : signal) (o : Orchestrator) : Orchestrator := publishIdentityWork (handle s o).

(** ** Workers

    What each goroutine sends, given the answers of the calls it makes. *)

Definition claim_worker (h : header) (claim : answer bool) : signal := SigClaimed h claim.1 claim.2.

(** [readApproval]: a tracker without the content read answers the zero value. *)
Definition readApproval (source : bool) (read : answer ContentApproval) : answer ContentApproval :=
  if source then read else (no_approval, None).

Definition approve_worker (h : header) (source : bool) (required : list string) (principal : string)
    (history : answer (list ClaimEvent)) (read : answer ContentApproval) : signal :=
  match history with
  | (_, Some e) => SigApproved h [] no_approval required principal (Some e)
  | (events, None) =>
      let '(approval, err) := readApproval source read in
      SigApproved h events approval required principal err
  end.

Definition claimBase_worker (h : header) (ws : Workspaces) (cycleSeq : option Z) (begin : option fault)
    (cycles : answer (list WorkspaceRef)) (state : answer ClaimBase) : signal :=
  let '(cb, cbErr) := if is_nil begin then (no_claimBase, None) else state in
  SigClaimBaseBegun h begin cb cbErr
    (match cycleSeq with Some seq => Some (MkCycleReading cycles.1 ws cycles.2 seq) | None => None end).

Definition prepare_worker (h : header) (prepared : answer (Workspace * LocalBranchFacts))
    (state : answer ClaimBase) : signal :=
  SigPrepared h prepared.1.1 prepared.1.2 prepared.2 state.1 state.2.

Definition start_worker (h : header) (marker : option fault) (started : answer (option Z)) : signal :=
  match marker with
  | Some e => SigStarted h None (Some (fault_wrap "recording the run marker before launch: " e))
  | None => SigStarted h started.1 started.2
  end.

Definition verify_worker (h : header) (ws : Workspace) (principal : string)
    (history : answer (list ClaimEvent)) (state : answer ClaimBase) (verified : answer VerifyResult) : signal :=
  let none := MkVerify VerdictUnknown "" "" in
  match history with
  | (_, Some e) =>
      SigVerified h none (Some (fault_wrap "reading the current claim epoch before verification: " e)) false
        "" true
  | (events, None) =>
      let anchor := claimCycleAnchor events principal in
      if (anchor <=? 0) || negb (anchor =? ws_ClaimEpoch ws) then
        SigVerified h none None true
          ("claim epoch: verification expected assignment " +:+ itoa (ws_ClaimEpoch ws)
           +:+ ", current history names " +:+ itoa anchor) false
      else if negb (is_nil state.2) || negb (claimBaseAuthorizesWorkspace state.1 ws) then
        SigVerified h none None true
          ("claim epoch: verification expected " +:+ itoa (ws_ClaimEpoch ws) +:+ "/" +:+ ws_BaseSHA ws +:+ "/"
           +:+ ws_TargetBranch ws +:+ ", provider returned " +:+ claimBase_v state.1 +:+ ": "
           +:+ err_Error state.2) false
      else SigVerified h verified.1 verified.2 false "" false
  end.

Definition no_marker : RunMarker := MkRunMarker RunMarkerUnreadable (MkRunEvidence "" "" "").

(** [snap] is what [revalidate] returned. *)
Definition timer_worker (h : header) (kind : timerKind) (revision expectedEpoch : Z) (snap : snapshot)
    (get : refreshResult) (history : answer (list ClaimEvent)) (read : answer ContentApproval)
    (state : answer ClaimBase) (marker : answer RunMarker) : signal :=
  let out := SigTimerFetched h kind revision (df_RequiredLabels (sn_Definition snap))
               (bu_ClaimPrincipal (sn_Runtime snap)) get.1 in
  if negb (is_nil get.2) then out [] no_approval no_claimBase None no_marker None get.2
  else if negb (is_nil history.2) then out history.1 no_approval no_claimBase None no_marker None history.2
  else
    let '(approval, err) := readApproval (bu_contentApproval (sn_Runtime snap)) read in
    let '(cb, cbErr) := if is_nil err && (0 <? expectedEpoch) then state else (no_claimBase, None) in
    let '(m, mErr) := if is_nil err && (0 <? expectedEpoch) && is_nil cbErr
                         && bool_decide (cb_State cb = ClaimBasePending) then marker else (no_marker, None) in
    out history.1 approval cb cbErr m mErr err.

Definition anchor_worker (h : header) (issue : Issue) (required : list string) (ws : Workspaces)
    (principal : string) (history : answer (list ClaimEvent)) (recorded : answer Z) : signal :=
  let '(superseded, approvalErr) := cycleSuperseded ws (StandingApproval history.1 required) recorded in
  SigClaimAnchor h (claimCycleAnchor history.1 principal) superseded approvalErr (is_Revision issue) history.2.

Definition heldHistory_worker (h : header) (issue : Issue) (required : list string) (ws : Workspaces)
    (principal : string) (history : answer (list ClaimEvent)) (recorded : answer Z) : signal :=
  let anchor := claimCycleAnchor history.1 principal in
  let '(superseded, approvalErr) := cycleSuperseded ws (StandingApproval history.1 required) recorded in
  SigHeldHistory h issue anchor (closedInCycle history.1 anchor) superseded approvalErr history.2.

Definition reconcile_worker (wants : list (string * Issue)) (parked : list parkedWant) (sweepNeeded : bool)
    (get : string → refreshResult) (heldClaims : answer (list Issue)) : signal :=
  SigReconciled (list_to_map ((λ w, (w.1, get w.1)) <$> reverse wants)) parked
    (if sweepNeeded then MkSweepResult true heldClaims.1 heldClaims.2 else MkSweepResult false [] None).

Definition dispatch_worker (revision : Z) (snap : snapshot) (fetch : answer (list Issue)) : signal :=
  if is_nil (sn_Blocked snap) then SigTickResult fetch.1 fetch.2 revision else SigTickResult [] None revision.

(** A claim that is gone or no longer ours needs no facts. *)
Definition gone_recovery (cur : snapshot) : recoveryVerdict * recoveryFacts :=
  (plainRecovery recoveryActionGone 0,
   candidate_facts (MkIssue "" "" "" [] "" [] [] "" 0 0 "" false) [] cur).

Definition recover_worker (cfg : Config) (h : header) (cur : snapshot) (get : refreshResult) (rd : recoveryReads)
    : signal :=
  let out := SigRecovered h (sn_Revision cur) in
  if err_Is get.2 ErrIssueNotFound then out (Some (gone_recovery cur)) None
  else match get with
       | (_, Some e) => out None (Some (fault_wrap "refetching the issue: " e))
       | (Some fresh, None) =>
           if negb (containsFold (is_Assignees fresh) (bu_ClaimPrincipal (sn_Runtime cur)))
           then out (Some (gone_recovery cur)) None
           else let '(vf, err) := read_and_classify cfg fresh cur rd in out vf err
       | (None, None) => out None None
       end.

(** ** Steps *)

(** [Runner.Start] returns a handle or an error, not both and not neither. *)
Definition start_answer (started : answer (option Z)) : Prop := is_nil started.1 = negb (is_nil started.2).

(** The signals a goroutine may finish with. A start waits until the clears it
    abandoned have returned; [Tracker.Get] returns the issue it was asked for, and issues have identifiers. *)
Inductive finishes (o : Orchestrator) : job → signal → Prop :=
  | fin_claim h issue a : finishes o (JClaim h issue) (claim_worker h a)
  | fin_approve h issue src req pr hist read :
      finishes o (JApprove h issue src req pr) (approve_worker h src req pr hist read)
  | fin_claimBase h issue epoch ws seq begin cycles state :
      finishes o (JClaimBase h issue epoch ws seq) (claimBase_worker h ws seq begin cycles state)
  | fin_prepare h issue attempt epoch prepared state :
      finishes o (JPrepare h issue attempt epoch) (prepare_worker h prepared state)
  | fin_start h issue spec waits marker started :
      (∀ id i st, id ∈ waits → JClear id i st ∉ o_jobs o) → start_answer started →
      finishes o (JStart h issue spec waits) (start_worker h marker started)
  | fin_summary h ws facts err : finishes o (JSummary h ws) (SigSummarized h facts err)
  | fin_verify h issue ws pr hist state verified :
      finishes o (JVerify h issue ws pr) (verify_worker h ws pr hist state verified)
  | fin_probe h hd t : finishes o (JProbe h hd) (SigProbed h t)
  | fin_stop h hd mode t : finishes o (JStop h hd mode) (SigStopped h t)
  | fin_timer h kind : finishes o (JTimer h kind) (SigTimer h kind)
  | fin_timerFetch h kind rev issue epoch snap get hist read state marker :
      finishes o (JTimerFetch h kind rev issue epoch)
        (timer_worker h kind rev epoch snap get hist read state marker)
  | fin_owed h what (get : refreshResult) : finishes o (JOwedConfirm h what) (SigOwedConfirmed h get.1 what get.2)
  | fin_parked h settled (get : refreshResult) :
      finishes o (JParkedConfirm h settled) (SigParkedConfirmed h get.1 settled get.2)
  | fin_anchor h issue req ws pr hist recorded :
      finishes o (JAnchor h issue req ws pr) (anchor_worker h issue req ws pr hist recorded)
  | fin_doneOwnership h (get : refreshResult) : finishes o (JDoneOwnership h) (SigDoneOwnership h get.1 get.2)
  | fin_heldConfirm h (get : refreshResult) : finishes o (JHeldConfirm h) (SigHeldConfirmed h get.1 get.2)
  | fin_heldHistory h issue req ws pr hist recorded :
      finishes o (JHeldHistory h issue req ws pr) (heldHistory_worker h issue req ws pr hist recorded)
  | fin_cycleDispose a ws p err : finishes o (JCycleDispose a ws p) (SigCycleDisposed a err)
  | fin_clear id issue store err : finishes o (JClear id issue store) (SigMarkerCleared id err)
  | fin_reconcile wants parked needed get held :
      finishes o (JReconcile wants parked needed) (reconcile_worker wants parked needed get held)
  | fin_dispatch rev snap fetch :
      (∀ i, i ∈ fetch.1 → is_Identifier i ≠ "") →
      finishes o (JDispatch rev) (dispatch_worker rev snap fetch)
  | fin_recover h issue cur (get : refreshResult) rd :
      (∀ fresh, get.1 = Some fresh → is_Identifier fresh = hd_issue h) →
      finishes o (JRecover h issue cur) (recover_worker (o_cfg o) h cur get rd)
  | fin_scan rev (cands : answer (list Issue)) :
      (∀ i, i ∈ cands.1 → is_Identifier i ≠ "") →
      finishes o (JScan rev) (SigRecoveryScan cands.1 cands.2 rev)
  | fin_cycleScan ws seq (refs : answer (list WorkspaceRef)) :
      finishes o (JCycleScan ws seq) (SigCycleScan (MkCycleReading refs.1 ws refs.2 seq))
  | fin_sweep plan rest out :
      finishes o (JSweep plan [] rest out SwAsking) (SigSwept (foldr defer_ref out rest)).

(** What a goroutine may do without finishing: a pump forwards, a cleanup pass moves
    on. The signal it sends, if any, comes second. *)
Inductive proceeds (o : Orchestrator) : job → job → option signal → Prop :=
  | pump_event p h hd st cn ev :
      proceeds o (JPump p h hd st false cn)
        (JPump p h hd (st || bool_decide (ev_Type ev = EventSucceeded) || bool_decide (ev_Type ev = EventFailed))
           false cn)
        (Some (SigRunEvent h ev))
  | pump_closed p h hd st cn :
      proceeds o (JPump p h hd st false cn) (JPump p h hd st true cn) (Some (SigEventsClosed h st))
  | sweep_listed plan listed todo rest out :
      sweep_plan plan listed = (todo, rest, out) →
      proceeds o (JSweep plan [] [] empty_sweep SwListing) (JSweep plan todo rest out SwAsking) None
  | sweep_asked plan ref todo rest out get again :
      sweep_ask (pl_cur plan) get = Some again →
      proceeds o (JSweep plan (ref :: todo) rest out SwAsking)
        (JSweep plan todo rest (if again then defer_ref ref out else out) SwAsking) None
  | sweep_reserves plan ref todo rest out get :
      sweep_ask (pl_cur plan) get = None →
      proceeds o (JSweep plan (ref :: todo) rest out SwAsking) (JSweep plan todo rest out (SwReserving ref))
        (Some (SigSweepReserve (wr_Identifier ref)))
  | sweep_disposed plan ref todo rest out rd err again ws :
      sweep_dispose (o_cfg o) ref rd err = (again, ws) →
      proceeds o (JSweep plan todo rest out (SwDisposing ref))
        (JSweep plan todo rest (if again then defer_ref ref out else out) SwAsking)
        (Some (SigSweepRelease (wr_Identifier ref))).

(** What the closure of an effect may return. *)
Definition effect_returns (b : Bundle) (do_ : effectDo) (err : option fault) : Prop :=
  match do_ with
  | DoNothing | DoAfterRun _ => err = None
  | DoCompleteFailure _ | DoCompleteShutdown _ => wk_lifecycle (bu_Workspaces b) = false → err = None
  | _ => True
  end.

Inductive runs_effect (o : Orchestrator) : effect → signal → Prop :=
  | run_owed h eff err :
      effect_returns (bundle o) (oe_do eff) err →
      runs_effect o (EffOwed h eff) (SigEffectDone h (oe_what eff) err)
  | run_release h issue err : runs_effect o (EffHeldRelease h issue) (SigHeldReleased h err).

(** What others send: the ticker, an operator's shutdown, a configuration reload. *)
Definition from_outside (s : signal) : bool :=
  match s with SigTick | SigShutdown _ | SigAdopt _ => true | _ => false end.

Definition has_room (o : Orchestrator) : Prop := Z.of_nat (length (o_signals o)) < signalsDepth.
Definition push (s : signal) (o : Orchestrator) : Orchestrator := o <| o_signals ::= λ l, l ++ [s] |>.

(** Every loop over a map is in some order of its keys. *)
Definition some_order (f : nat → list string → list string) : Prop := ∀ site l, f site l ≡ₚ l.

Inductive step (o : Orchestrator) : Orchestrator → Prop :=
  | step_turn s rest :
      o_signals o = s :: rest → o_wedged o = false → step o (turn s (o <| o_signals := rest |>))
  | step_finish l1 j l2 s :
      o_jobs o = l1 ++ j :: l2 → finishes o j s → has_room o →
      step o (push s (o <| o_jobs := l1 ++ l2 |>))
  | step_proceed l1 j l2 j' s :
      o_jobs o = l1 ++ j :: l2 → proceeds o j j' (Some s) → has_room o →
      step o (push s (o <| o_jobs := l1 ++ j' :: l2 |>))
  | step_quietly l1 j l2 j' :
      o_jobs o = l1 ++ j :: l2 → proceeds o j j' None → step o (o <| o_jobs := l1 ++ j' :: l2 |>)
  | step_handle_done l1 p h hd st cn l2 :
      o_jobs o = l1 ++ JPump p h hd st true cn :: l2 → has_room o →
      step o (push (SigHandleDone h) (o <| o_jobs := l1 ++ l2 |>))
  | step_pump_cancelled l1 p h hd st cl l2 :
      o_jobs o = l1 ++ JPump p h hd st cl true :: l2 → step o (o <| o_jobs := l1 ++ l2 |>)
  | step_effect e rest s :
      o_effects o = e :: rest → runs_effect o e s → has_room o →
      step o (push s (o <| o_effects := rest |>))
  | step_outside s : from_outside s = true → has_room o → step o (push s o)
  | step_time now order : o_clock o ≤ now → some_order order → step o (o <| o_clock := now |> <| o_order := order |>)
  | step_blocked err : step o (o <| o_cur := MkSnapshot (sn_Definition (o_cur o)) (sn_Runtime (o_cur o)) err
                                              (sn_Revision (o_cur o) + 1) |>).

(** ** Startup *)

(** [New], of a configuration it accepts: nothing is tracked, nothing is in flight. *)
Definition New (cfg : Config) (cur : snapshot) (now : Z) (order : nat → list string → list string)
    : Orchestrator :=
  MkOrchestrator cfg cur now order [] [] [] [] [] ∅ ∅ ∅ 0 0 false false [] ∅ false false false false 0 0 false
    ∅ ∅ "" None false "" "" "" "" ∅ false [] false ∅ 0 false false [] [] false.

(** The states of the system: [Run] refuses to start before [Recover]. The claims [Recover] is
    given have identifiers, and are listed once each. *)
Inductive reachable : Orchestrator → Prop :=
  | reachable_recovered cfg cur now order cycles candidates read sweep :
      some_order order → (∀ i, i ∈ candidates.1 → is_Identifier i ≠ "") →
      NoDup (is_Identifier <$> candidates.1) →
      reachable (Recover cycles candidates read sweep (New cfg cur now order))
  | reachable_step o o' : reachable o → step o o' → reachable o'.
End loop.
