(* ===== verification/OrchControl.v ===== *)
(** * OrchControl: the control machine of one run

    The abstract specification the loop is checked against: of a record only what decides
    which worker may be started when - its stage, whether a run handle is live, which
    exits are ordered, which workers of its present generation are in flight - and every
    handler reduced to what it does to that. Data the handlers read (the tracker's
    answers, the workspace) is chosen freely: a handler has a list of outcomes.

    The machine is finite where it matters: all states reachable from the initial ones are
    computed, and their closure under every handler is checked by evaluation
    ([control_closed]). [OrchRefine] shows that the loop of [OrchLoop] only makes steps of
    this machine, record by record. *)

From stdpp Require Import pmap.
From S2P Require Import Prelude Update.
#[local] Open Scope Z_scope.

(** ** States *)

Inductive stage :=
  | KQueued | KClaimed | KPreparing | KRunning | KVerifying | KBackoff | KDone | KNeedsReview | KFailed
  | KOther.

Definition stage_eqb (a b : stage) : bool :=
  match a, b with
  | KQueued, KQueued | KClaimed, KClaimed | KPreparing, KPreparing | KRunning, KRunning
  | KVerifying, KVerifying | KBackoff, KBackoff | KDone, KDone | KNeedsReview, KNeedsReview
  | KFailed, KFailed | KOther, KOther => true
  | _, _ => false
  end.

(** The edges of the state map. *)
Definition k_allowed (from to : stage) : bool :=
  match from, to with
  | KQueued, KClaimed | KClaimed, KPreparing | KPreparing, KRunning | KPreparing, KBackoff
  | KRunning, KVerifying | KRunning, KBackoff | KRunning, KNeedsReview
  | KVerifying, KDone | KVerifying, KPreparing | KVerifying, KNeedsReview
  | KBackoff, KPreparing | KBackoff, KBackoff | KNeedsReview, KBackoff
  | KQueued, KNeedsReview | KBackoff, KNeedsReview | KPreparing, KNeedsReview => true
  | (KQueued | KClaimed | KPreparing | KRunning | KVerifying | KBackoff | KNeedsReview), KFailed => true
  | _, _ => false
  end.

(** The last ten fields count the workers of the record's generation that are in flight:
    claim, approve, claim base, prepare, start, summarize, verify, timer, probe and stop;
    [k_open] says that its pump may still deliver events, [k_stale] counts the preparations and
    starts of its earlier generations that are in flight still. *)
Record ctl := MkCtl {
  k_stage : stage;
  k_handle : bool;
  k_outcome : bool;
  k_closed : bool;
  k_quiet : bool;
  k_summarizing : bool;
  k_summarized : bool;
  k_parkPending : bool;
  k_stopping : bool;
  k_budgetStop : bool;
  k_finishAfter : bool;
  k_finish : bool;
  k_suspended : bool;
  k_gone : bool;
  k_releasing : bool;
  k_exitOwed : bool;
  k_verifyRetry : bool;
  k_probing : bool;
  k_stopWait : bool;
  k_baseDispatch : bool;
  k_approving : bool;
  k_basing : bool;
  k_epoch : bool;
  k_claimed : bool;
  k_faulted : bool;
  k_disposal : bool;
  k_draining : bool;
  k_unclassified : bool;
  k_alive : bool;
  k_pending : Z;
  n_claim : nat;
  n_approve : nat;
  n_base : nat;
  n_prepare : nat;
  n_start : nat;
  n_summary : nat;
  n_verify : nat;
  n_timer : nat;
  n_probe : nat;
  n_stop : nat;
  k_open : bool;
  k_stale : nat;
}.

#[export] Instance ctl_spread : Spread ctl := λ v,
  MkCtl (k_stage v) (k_handle v) (k_outcome v) (k_closed v) (k_quiet v) (k_summarizing v)
    (k_summarized v) (k_parkPending v) (k_stopping v) (k_budgetStop v) (k_finishAfter v)
    (k_finish v) (k_suspended v) (k_gone v) (k_releasing v) (k_exitOwed v) (k_verifyRetry v)
    (k_probing v) (k_stopWait v) (k_baseDispatch v) (k_approving v) (k_basing v) (k_epoch v)
    (k_claimed v) (k_faulted v) (k_disposal v) (k_draining v) (k_unclassified v) (k_alive v)
    (k_pending v)
    (n_claim v) (n_approve v) (n_base v) (n_prepare v) (n_start v) (n_summary v) (n_verify v)
    (n_timer v) (n_probe v) (n_stop v) (k_open v) (k_stale v).

#[export] Instance set_k_stage : Setter k_stage. Proof. field_setter. Defined.
#[export] Instance set_k_handle : Setter k_handle. Proof. field_setter. Defined.
#[export] Instance set_k_outcome : Setter k_outcome. Proof. field_setter. Defined.
#[export] Instance set_k_closed : Setter k_closed. Proof. field_setter. Defined.
#[export] Instance set_k_quiet : Setter k_quiet. Proof. field_setter. Defined.
#[export] Instance set_k_summarizing : Setter k_summarizing. Proof. field_setter. Defined.
#[export] Instance set_k_summarized : Setter k_summarized. Proof. field_setter. Defined.
#[export] Instance set_k_parkPending : Setter k_parkPending. Proof. field_setter. Defined.
#[export] Instance set_k_stopping : Setter k_stopping. Proof. field_setter. Defined.
#[export] Instance set_k_budgetStop : Setter k_budgetStop. Proof. field_setter. Defined.
#[export] Instance set_k_finishAfter : Setter k_finishAfter. Proof. field_setter. Defined.
#[export] Instance set_k_finish : Setter k_finish. Proof. field_setter. Defined.
#[export] Instance set_k_suspended : Setter k_suspended. Proof. field_setter. Defined.
#[export] Instance set_k_gone : Setter k_gone. Proof. field_setter. Defined.
#[export] Instance set_k_releasing : Setter k_releasing. Proof. field_setter. Defined.
#[export] Instance set_k_exitOwed : Setter k_exitOwed. Proof. field_setter. Defined.
#[export] Instance set_k_verifyRetry : Setter k_verifyRetry. Proof. field_setter. Defined.
#[export] Instance set_k_probing : Setter k_probing. Proof. field_setter. Defined.
#[export] Instance set_k_stopWait : Setter k_stopWait. Proof. field_setter. Defined.
#[export] Instance set_k_baseDispatch : Setter k_baseDispatch. Proof. field_setter. Defined.
#[export] Instance set_k_approving : Setter k_approving. Proof. field_setter. Defined.
#[export] Instance set_k_basing : Setter k_basing. Proof. field_setter. Defined.
#[export] Instance set_k_epoch : Setter k_epoch. Proof. field_setter. Defined.
#[export] Instance set_k_claimed : Setter k_claimed. Proof. field_setter. Defined.
#[export] Instance set_k_faulted : Setter k_faulted. Proof. field_setter. Defined.
#[export] Instance set_k_disposal : Setter k_disposal. Proof. field_setter. Defined.
#[export] Instance set_k_draining : Setter k_draining. Proof. field_setter. Defined.
#[export] Instance set_k_unclassified : Setter k_unclassified. Proof. field_setter. Defined.
#[export] Instance set_k_alive : Setter k_alive. Proof. field_setter. Defined.
#[export] Instance set_k_pending : Setter k_pending. Proof. field_setter. Defined.
#[export] Instance set_n_claim : Setter n_claim. Proof. field_setter. Defined.
#[export] Instance set_n_approve : Setter n_approve. Proof. field_setter. Defined.
#[export] Instance set_n_base : Setter n_base. Proof. field_setter. Defined.
#[export] Instance set_n_prepare : Setter n_prepare. Proof. field_setter. Defined.
#[export] Instance set_n_start : Setter n_start. Proof. field_setter. Defined.
#[export] Instance set_n_summary : Setter n_summary. Proof. field_setter. Defined.
#[export] Instance set_n_verify : Setter n_verify. Proof. field_setter. Defined.
#[export] Instance set_n_timer : Setter n_timer. Proof. field_setter. Defined.
#[export] Instance set_n_probe : Setter n_probe. Proof. field_setter. Defined.
#[export] Instance set_n_stop : Setter n_stop. Proof. field_setter. Defined.
#[export] Instance set_k_open : Setter k_open. Proof. field_setter. Defined.
#[export] Instance set_k_stale : Setter k_stale. Proof. field_setter. Defined.

(** ** Handlers

    Each is named after the function it abstracts. [either] is a choice the control state
    does not determine. *)

Definition either (a b : list ctl) : list ctl := a ++ b.

Definition k_ordered (v : ctl) : bool :=
  k_releasing v || k_stopping v || k_finish v || k_gone v.
Definition k_exiting (v : ctl) : bool := k_ordered v || k_suspended v.

Definition k_transition (to : stage) (v : ctl) : option ctl :=
  if k_allowed (k_stage v) to then Some (v <| k_stage := to |>) else None.

(** A new generation: whatever is in flight belongs to the old one. *)
Definition k_bump (v : ctl) : ctl :=
  v <| k_stale := (k_stale v + n_prepare v + n_start v)%nat |>
    <| n_claim := O |> <| n_approve := O |> <| n_base := O |> <| n_prepare := O |> <| n_start := O |>
    <| n_summary := O |> <| n_verify := O |> <| n_timer := O |> <| n_probe := O |> <| n_stop := O |>
    <| k_open := false |>.

Definition k_armTimer (v : ctl) : ctl := v <| n_timer ::= S |>.
Definition k_answered (v : ctl) : ctl := v <| k_pending ::= Z.pred |>.
Definition k_wait (v : ctl) : ctl := v <| k_pending ::= Z.succ |>.

Definition k_release (v : ctl) : ctl :=
  if k_releasing v then v else v <| k_releasing := true |> <| k_exitOwed := true |>.

(** [oweDisposal] and what leads to it: the workspace is to be disposed of, or not. *)
Definition k_oweDisposal (v : ctl) : list ctl := either [v] [v <| k_disposal := true |>].

Definition k_enterBackoff (v : ctl) : ctl :=
  match k_transition KBackoff v with
  | None => v
  | Some v => k_armTimer (k_bump (v <| k_stopping := false |>))
  end.

Definition k_enterFailed (v : ctl) : list ctl :=
  match k_transition KFailed v with
  | None => [v]
  | Some v => k_release <$> k_oweDisposal v
  end.

Definition k_enterNeedsReview (v : ctl) : ctl :=
  if k_ordered v then v
  else match k_transition KNeedsReview v with None => v | Some v => v end.

Definition k_enterEpochFault (v : ctl) : ctl := k_enterNeedsReview (v <| k_faulted := true |>).

Definition k_failAttempt (v : ctl) : list ctl := either [k_enterBackoff v] (k_enterFailed v).

Definition k_failLaunch (v : ctl) : list ctl := either (k_failAttempt v) [k_enterNeedsReview v].

Definition k_beginStop (v : ctl) : ctl :=
  if k_stopWait v then v
  else if k_handle v then v <| k_stopWait := true |> <| n_stop ::= S |>
  else v <| n_stop ::= S |>.

(** A stop of a record without a handle is answered on the loop's own channel, if that
    has room. *)
Definition k_beginStops (v : ctl) : list ctl :=
  if k_stopWait v || k_handle v then [k_beginStop v] else either [v] [k_beginStop v].

Definition k_finishNow (v : ctl) : list ctl :=
  v ← k_oweDisposal (v <| k_parkPending := false |>);
  if k_gone v then [v <| k_exitOwed := true |>] else [k_release v].

Definition k_stopAndFinish (v : ctl) : list ctl :=
  let v := v <| k_finishAfter := true |> in
  if k_handle v then [k_beginStop (v <| k_stopping := true |>)]
  else if 0 <? k_pending v then [v <| k_finish := true |>]
  else k_finishNow v.

(** [None]: nothing was requested. *)
Definition k_finishIfRequested (v : ctl) : option (list ctl) :=
  if negb (k_finish v) || (0 <? k_pending v) then None
  else
    let v := v <| k_finish := false |> in
    Some (if k_handle v then [k_beginStop (v <| k_stopping := true |>)] else k_finishNow v).

Definition k_or_finish (v : ctl) (rest : list ctl) : list ctl :=
  match k_finishIfRequested v with Some l => l | None => rest end.

Definition k_forget (v : ctl) : ctl := v <| k_alive := false |>.

Definition k_beginApproval (v : ctl) : ctl :=
  if k_approving v || k_exiting v || k_draining v then v
  else k_wait (v <| k_approving := true |> <| n_approve ::= S |>).

Definition k_beginClaimBase (v : ctl) : ctl :=
  let eligible := stage_eqb (k_stage v) KQueued || (stage_eqb (k_stage v) KBackoff && k_baseDispatch v) in
  if k_basing v || k_exiting v || k_draining v || negb eligible || negb (k_epoch v) then v
  else k_wait (v <| k_basing := true |> <| n_base ::= S |>).

(** What a new attempt resets. *)
Definition k_fresh (v : ctl) : ctl :=
  v <| k_closed := false |> <| k_quiet := false |> <| k_outcome := false |> <| k_budgetStop := false |>
    <| k_finishAfter := false |> <| k_summarizing := false |> <| k_summarized := false |>
    <| k_parkPending := false |>.

Definition k_beginPrepare (v : ctl) : ctl :=
  if k_draining v then v else k_wait (k_fresh v <| n_prepare ::= S |>).

Definition k_onClaimed (v : ctl) : list ctl :=
  let v := k_answered v in
  k_or_finish v
    (either [k_forget v]
       (either [k_release v] [k_beginApproval (v <| k_claimed := true |>)])).

Definition k_onApproved (v : ctl) : list ctl :=
  let v := k_answered v <| k_approving := false |> in
  k_or_finish v
    (if k_exiting v || k_draining v || negb (stage_eqb (k_stage v) KQueued) then [v]
     else
       either (k_finishNow (v <| k_gone := true |>))
         (either [v]
            (either [k_enterNeedsReview v]
               (either [k_enterEpochFault v] [k_beginClaimBase (v <| k_epoch := true |>)])))).

Definition k_onClaimBaseBegun (v : ctl) : list ctl :=
  let v := k_answered v <| k_basing := false |> in
  k_or_finish v
    (if k_exiting v || k_draining v
        || (negb (stage_eqb (k_stage v) KQueued)
            && (negb (stage_eqb (k_stage v) KBackoff) || negb (k_baseDispatch v))) then [v]
     else
       either [v]
         (either [k_enterEpochFault v]
            (if stage_eqb (k_stage v) KBackoff then
               let v := v <| k_baseDispatch := false |> in
               match k_transition KPreparing v with None => [v] | Some v => [k_beginPrepare v] end
             else match k_transition KClaimed v with None => [k_forget v] | Some v => [v] end))).

Definition k_onClaimProjected (v : ctl) : ctl :=
  if negb (stage_eqb (k_stage v) KClaimed) || k_exiting v then v
  else match k_transition KPreparing v with None => v | Some v => k_beginPrepare v end.

Definition k_beginStart (v : ctl) : list ctl :=
  if k_draining v then [v] else either (k_failAttempt v) [k_wait (v <| n_start ::= S |>)].

Definition k_onPrepared (v : ctl) : list ctl :=
  let v := k_answered v in
  k_or_finish v
    (if k_draining v then [v <| k_suspended := true |>]
     else either [k_enterEpochFault v] (either (k_failLaunch v) (k_beginStart v))).

(** A handle, or an error. *)
Definition k_onStarted (v : ctl) : list ctl :=
  let v := k_answered v in
  let started := v <| k_handle := true |> in
  either
    (k_or_finish started
       (if k_draining started then [started <| k_suspended := true |> <| k_open := true |>]
        else match k_transition KRunning started with
             | None => [started]
             | Some v => [v <| k_open := true |>]
             end))
    (k_or_finish v (if k_draining v then [v <| k_suspended := true |>] else k_failLaunch v)).

Definition k_beginProbe (v : ctl) : ctl :=
  if k_probing v || negb (k_handle v) then v else v <| k_probing := true |> <| n_probe ::= S |>.

Definition k_beginVerify (v : ctl) : ctl := k_wait (v <| n_verify ::= S |>).

Definition k_ready (v : ctl) : bool := k_outcome v && k_closed v && k_quiet v.

Definition k_applyHeld (v : ctl) : list ctl :=
  if negb (k_ready v) then [v]
  else
    let v := v <| k_outcome := false |> in
    either [k_beginVerify v] (k_failAttempt v).

Definition k_resume (v : ctl) : list ctl :=
  if k_parkPending v then [k_enterNeedsReview (v <| k_parkPending := false |>)] else k_applyHeld v.

Definition k_beginSummary (v : ctl) : list ctl :=
  if k_summarizing v then [v]
  else either (k_resume (v <| k_summarized := true |>))
         [k_wait (v <| k_summarizing := true |> <| n_summary ::= S |>)].

Definition k_parkOnBudget (v : ctl) : list ctl :=
  if negb (k_summarized v) then k_beginSummary (v <| k_parkPending := true |>) else [k_enterNeedsReview v].

Definition k_applyOutcome (v : ctl) : list ctl :=
  if negb (k_ready v) then [v]
  else if negb (k_summarized v) then k_beginSummary v
  else k_applyHeld v.

Definition k_confirmQuiet (v : ctl) : list ctl :=
  if negb (k_outcome v) || negb (k_closed v) || k_quiet v || k_probing v || k_stopWait v || k_exiting v
  then [v]
  else if negb (k_handle v) then k_applyOutcome (v <| k_quiet := true |>)
  else either [k_beginProbe v] [k_beginStop v].

Definition k_quieten (v : ctl) : list ctl :=
  k_applyOutcome (v <| k_quiet := true |> <| k_handle := false |>).

Definition k_onRunEvent (v : ctl) : list ctl :=
  if negb (stage_eqb (k_stage v) KRunning) then [v]
  else
    either [v]
      (either
         (if k_stopping v || k_suspended v then [v]
          else k_beginStops (v <| k_stopping := true |> <| k_budgetStop := true |>))
         (if k_stopping v then [v]
          else
            either [v <| k_outcome := true |>]
              (match k_transition KVerifying v with
               | None => [v]
               | Some v => [v <| k_outcome := true |>]
               end))).

Definition k_onEventsClosed (v : ctl) : list ctl :=
  let v := v <| k_closed := true |> in
  if k_suspended v || k_stopping v || k_releasing v || k_finish v then [v]
  else
    either (k_confirmQuiet v)
      (if negb (stage_eqb (k_stage v) KRunning) then [v] else k_confirmQuiet (v <| k_outcome := true |>)).

Definition k_onProbed (v : ctl) : list ctl :=
  let v := v <| k_probing := false |> in
  if k_exiting v || k_stopWait v then [v]
  else either (k_confirmQuiet v) (either (k_quieten v) [v]).

Definition k_finishSuspended (v : ctl) : list ctl :=
  if negb (k_quiet v) then [v] else either [v] [v <| k_handle := false |> <| k_outcome := false |>].

Definition k_onHandleDone (v : ctl) : list ctl :=
  if k_suspended v then k_finishSuspended v else k_confirmQuiet v.

Definition k_onStopped (v : ctl) : list ctl :=
  let v := v <| k_stopWait := false |> in
  either [v]
    (if k_suspended v then k_finishSuspended (v <| k_quiet := true |>)
     else if negb (k_exiting v) then k_quieten v
     else
       let v := v <| k_quiet := true |> <| k_handle := false |> <| k_outcome := false |> in
       let park := k_budgetStop v && negb (k_finishAfter v) in
       let v := v <| k_stopping := false |> <| k_budgetStop := false |> <| k_finishAfter := false |> in
       if park then k_parkOnBudget v
       else if 0 <? k_pending v then [v <| k_finish := true |>]
       else k_finishNow v).

Definition k_onSummarized (v : ctl) : list ctl :=
  let v := k_answered v <| k_summarizing := false |> <| k_summarized := true |> in
  k_or_finish v (if k_suspended v then [v <| k_parkPending := false |>] else k_resume v).

Definition k_onVerified (v : ctl) : list ctl :=
  let v := k_answered v in
  k_or_finish v
    (if k_suspended v then [v]
     else
       either [k_enterEpochFault v]
         (either (k_finishNow (v <| k_gone := true |>))
            (either [v <| k_verifyRetry := true |>]
               (either [k_enterNeedsReview v]
                  (either
                     (match k_transition KDone v with None => [v] | Some v => k_oweDisposal v end)
                     [k_armTimer (k_bump v)]))))).

Definition k_driveVerifyRetry (v : ctl) : ctl :=
  if negb (stage_eqb (k_stage v) KVerifying) || negb (k_verifyRetry v) || (0 <? k_pending v)
     || k_suspended v || k_exiting v then v
  else k_beginVerify (v <| k_verifyRetry := false |>).

(** A timer that fired starts its re-fetch: one worker takes the place of the other. *)
Definition k_onTimer (v : ctl) : ctl := k_armTimer v.

Definition k_onTimerFetched (v : ctl) : list ctl :=
  if k_exiting v then [v]
  else
    either [k_armTimer v]
      (either (k_finishNow (v <| k_gone := true |>))
         (either (k_finishNow v)
            (either [k_enterNeedsReview v]
               (either
                  (if stage_eqb (k_stage v) KBackoff
                   then match k_transition KBackoff v with None => [v] | Some v => [k_armTimer v] end
                   else [k_armTimer v])
                  (either [k_enterEpochFault v]
                     (either
                        (if k_epoch v then []
                         else [k_beginClaimBase (v <| k_epoch := true |> <| k_baseDispatch := true |>)])
                        (match k_transition KPreparing v with
                         | None => [v]
                         | Some v => [k_beginPrepare v]
                         end))))))).

(** The record of a finished run is dropped, released or kept. *)
Definition k_onHandOver (v : ctl) : list ctl :=
  if negb (stage_eqb (k_stage v) KDone) || k_exiting v || negb (k_pending v =? 0) then [v]
  else either [v] (either [k_forget v] [k_release v]).

Definition k_onEffectDone (v : ctl) : list ctl :=
  either [v; v <| k_exitOwed := false |>]
    (either [k_onClaimProjected v]
       (if k_exitOwed v then [k_forget v; k_forget v <| k_exitOwed := false |>] else [])).

Definition k_applyParked (v : ctl) : list ctl :=
  either (k_stopAndFinish v) (either [v] (if k_faulted v then [v] else [k_enterBackoff v])).

Definition k_parked (v : ctl) : list ctl :=
  if k_exiting v || negb (stage_eqb (k_stage v) KNeedsReview) then [v]
  else either (k_stopAndFinish (v <| k_gone := true |>)) (k_applyParked v).

Definition k_reconcile (v : ctl) : list ctl :=
  if k_exiting v || stage_eqb (k_stage v) KNeedsReview then [v]
  else either (k_stopAndFinish (v <| k_gone := true |>)) (either (k_stopAndFinish v) [v]).

Definition k_retry (v : ctl) : list ctl :=
  let v := if k_stopping v && k_handle v then k_beginStop v else v in
  let v := if stage_eqb (k_stage v) KQueued && k_claimed v
           then if k_epoch v then k_beginClaimBase v else k_beginApproval v else v in
  let v := if stage_eqb (k_stage v) KBackoff && k_baseDispatch v && k_epoch v then k_beginClaimBase v else v in
  k_confirmQuiet v.

Definition k_shutdown (v : ctl) : list ctl :=
  if k_ordered v then [v]
  else
    v ← (let v := v <| k_suspended := true |> in
         if negb (k_handle v) && (k_pending v =? 0) then k_oweDisposal v else [v]);
    [if k_handle v && negb (k_quiet v) then k_beginStop v else v].

(** ** Steps *)

(** The answer of a worker in flight, taken off the count. *)
Definition k_take (n : ctl → nat) `{!Setter n} (f : ctl → list ctl) (v : ctl) : list ctl :=
  match n v with O => [] | S k => f (v <| n := k |>) end.

(** What a live record may do next. *)
Definition k_live (v : ctl) : list ctl :=
  k_take n_claim k_onClaimed v ++ k_take n_approve k_onApproved v ++ k_take n_base k_onClaimBaseBegun v
  ++ k_take n_prepare k_onPrepared v ++ k_take n_start k_onStarted v ++ k_take n_summary k_onSummarized v
  ++ k_take n_verify k_onVerified v ++ k_take n_timer k_onTimerFetched v
  ++ k_take n_timer (λ v, [k_onTimer v]) v
  ++ k_take n_probe k_onProbed v ++ k_take n_stop k_onStopped v
  ++ (if k_open v then k_onRunEvent v ++ k_onRunEvent (v <| k_open := false |>)
                       ++ k_onEventsClosed (v <| k_open := false |>) else [])
  ++ k_onHandleDone v ++ [k_driveVerifyRetry v] ++ k_onHandOver v ++ k_onEffectDone v
  ++ k_stopAndFinish (v <| k_gone := true |>) ++ k_parked v ++ k_reconcile v ++ k_retry v
  ++ (if k_draining v then k_shutdown v else [])
  ++ (if stage_eqb (k_stage v) KQueued || k_unclassified v then [k_forget v] else []).

(** What may happen beside: the daemon starts draining, the pump of a cancelled run ends, a
    worker of an earlier generation returns to nobody. *)
Definition k_any (v : ctl) : list ctl :=
  [v <| k_draining := true |>; v <| k_open := false |>; v <| k_stale ::= Nat.pred |>].

Definition k_next (v : ctl) : list ctl := k_live v ++ k_any v.

Definition k_start : ctl :=
  MkCtl KQueued false false false false false false false false false false false false false false false
    false false false false false false false false false false false false true 0 0 0 0 0 0 0 0 0 0 0 false 0.

(** A record as dispatch or recovery makes it: claiming, awaiting classification,
    recovered as unapproved claim, parked, finished, in backoff, or about to be released. *)
Definition k_initial : list ctl :=
  let base b := k_start <| k_epoch := b |> in
  let both f := [f (base false); f (base true)] in
  [k_start <| k_pending := 1 |> <| n_claim := 1%nat |>]
  ++ both (λ v, v <| k_unclassified := true |>)
  ++ both (λ v, v <| k_claimed := true |>)
  ++ both (λ v, v <| k_claimed := true |> <| k_approving := true |> <| k_pending := 1 |> <| n_approve := 1%nat |>)
  ++ both (λ v, v <| k_stage := KNeedsReview |>)
  ++ both (λ v, v <| k_stage := KNeedsReview |> <| k_faulted := true |>)
  ++ both (λ v, v <| k_stage := KDone |>)
  ++ both (λ v, v <| k_stage := KDone |> <| k_disposal := true |>)
  ++ both (λ v, v <| k_stage := KBackoff |> <| n_timer := 1%nat |>)
  ++ both (λ v, v <| k_releasing := true |> <| k_exitOwed := true |>)
  ++ both (λ v, v <| k_releasing := true |> <| k_exitOwed := true |> <| k_disposal := true |>).

(** The same while the daemon is draining. *)
Definition k_starts : list ctl := k_initial ++ ((λ v, v <| k_draining := true |>) <$> k_initial).

(** ** What every reachable state satisfies *)

(** Workers that are about to start an agent; that use the workspace; that the record waits
    for. *)
Definition k_launch (v : ctl) : nat := (n_prepare v + n_start v + k_stale v)%nat.
Definition k_phase (v : ctl) : nat := (k_launch v + n_summary v + n_verify v)%nat.
Definition k_waited (v : ctl) : nat := (k_phase v + n_claim v + n_approve v + n_base v)%nat.

(** A record that was dropped starts no worker any more: those in flight return to nobody. *)
Inductive k_step (v v' : ctl) : Prop :=
  | k_step_live : k_alive v = true → v' ∈ k_next v → k_step v v'
  | k_step_dead :
      k_alive v = false → k_alive v' = false → k_handle v' = k_handle v →
      (k_launch v' <= k_launch v)%nat → k_step v v'.

Inductive k_reach : ctl → Prop :=
  | k_reach_start v : v ∈ k_starts → k_reach v
  | k_reach_step v v' : k_reach v → k_step v v' → k_reach v'.

Definition k_none (n : nat) : bool := Nat.eqb n 0.

(** No agent runs and none is about to be started. *)
Definition k_idle (v : ctl) : bool := negb (k_handle v) && k_none (k_launch v).

Definition k_safe (v : ctl) : bool :=
  Nat.leb (k_phase v) 1
  && implb (k_handle v) (k_none (k_phase v))
  && implb (k_handle v) (existsb (stage_eqb (k_stage v)) [KPreparing; KRunning; KVerifying])
  && implb (k_handle v && stage_eqb (k_stage v) KPreparing) (k_exiting v)
  && implb (negb (k_none (k_launch v))) (stage_eqb (k_stage v) KPreparing)
  && implb (k_disposal v) (k_idle v)
  && implb (negb (k_none (n_start v))) (negb (k_open v))
  && Nat.leb (n_timer v) 1
  && implb (negb (k_none (n_timer v))) (negb (k_handle v) && k_none (k_phase v))
  && (Z.of_nat (k_waited v) <=? k_pending v)
  && Bool.eqb (k_probing v) (negb (k_none (n_probe v)))
  && implb (k_stopWait v) (negb (k_none (n_stop v)))
  && Nat.leb (n_probe v + n_stop v)%nat 2
  && k_none (k_stale v)
  && negb (stage_eqb (k_stage v) KOther).

(** Draining, no handler prepares or starts an agent, and draining never ends. *)
Definition k_fewer (v v' : ctl) : bool := Nat.leb (k_launch v') (k_launch v) && Nat.leb (n_start v') (n_start v).
Definition k_drains (v : ctl) : bool :=
  implb (k_draining v) (forallb (λ v', k_draining v' && k_fewer v v') (k_next v)).

(** A handler leaves the stage alone or takes one edge. *)
Definition k_edge (a b : stage) : bool := stage_eqb a b || k_allowed a b.
Definition k_edges (v : ctl) : bool := forallb (λ v', k_edge (k_stage v) (k_stage v')) (k_next v).

(** *** Equality of states *)

Definition ctl_eqb (v w : ctl) : bool :=
  stage_eqb (k_stage v) (k_stage w) && Bool.eqb (k_handle v) (k_handle w)
  && Bool.eqb (k_outcome v) (k_outcome w) && Bool.eqb (k_closed v) (k_closed w)
  && Bool.eqb (k_quiet v) (k_quiet w) && Bool.eqb (k_summarizing v) (k_summarizing w)
  && Bool.eqb (k_summarized v) (k_summarized w) && Bool.eqb (k_parkPending v) (k_parkPending w)
  && Bool.eqb (k_stopping v) (k_stopping w) && Bool.eqb (k_budgetStop v) (k_budgetStop w)
  && Bool.eqb (k_finishAfter v) (k_finishAfter w) && Bool.eqb (k_finish v) (k_finish w)
  && Bool.eqb (k_suspended v) (k_suspended w) && Bool.eqb (k_gone v) (k_gone w)
  && Bool.eqb (k_releasing v) (k_releasing w) && Bool.eqb (k_exitOwed v) (k_exitOwed w)
  && Bool.eqb (k_verifyRetry v) (k_verifyRetry w) && Bool.eqb (k_probing v) (k_probing w)
  && Bool.eqb (k_stopWait v) (k_stopWait w) && Bool.eqb (k_baseDispatch v) (k_baseDispatch w)
  && Bool.eqb (k_approving v) (k_approving w) && Bool.eqb (k_basing v) (k_basing w)
  && Bool.eqb (k_epoch v) (k_epoch w) && Bool.eqb (k_claimed v) (k_claimed w)
  && Bool.eqb (k_faulted v) (k_faulted w) && Bool.eqb (k_disposal v) (k_disposal w)
  && Bool.eqb (k_draining v) (k_draining w) && Bool.eqb (k_unclassified v) (k_unclassified w) && Bool.eqb (k_alive v) (k_alive w)
  && Z.eqb (k_pending v) (k_pending w) && Nat.eqb (n_claim v) (n_claim w)
  && Nat.eqb (n_approve v) (n_approve w) && Nat.eqb (n_base v) (n_base w)
  && Nat.eqb (n_prepare v) (n_prepare w) && Nat.eqb (n_start v) (n_start w)
  && Nat.eqb (n_summary v) (n_summary w) && Nat.eqb (n_verify v) (n_verify w)
  && Nat.eqb (n_timer v) (n_timer w) && Nat.eqb (n_probe v) (n_probe w)
  && Nat.eqb (n_stop v) (n_stop w) && Bool.eqb (k_open v) (k_open w) && Nat.eqb (k_stale v) (k_stale w).

Lemma stage_eqb_eq a b : stage_eqb a b = true → a = b.
Proof. by destruct a, b. Qed.

Lemma ctl_eqb_eq v w : ctl_eqb v w = true → v = w.
Proof.
  unfold ctl_eqb. intros H. repeat (apply andb_true_iff in H as [H ?]). destruct v, w. cbn in *.
  repeat match goal with
  | H : Bool.eqb _ _ = true |- _ => apply Bool.eqb_prop in H
  | H : Nat.eqb _ _ = true |- _ => apply Nat.eqb_eq in H
  | H : Z.eqb _ _ = true |- _ => apply Z.eqb_eq in H
  | H : stage_eqb _ _ = true |- _ => apply stage_eqb_eq in H
  end. by subst.
Qed.

(** *** The exploration *)

Definition key_bool (b : bool) (p : positive) : positive := if b then xI p else xO p.
Definition key_nat (n : nat) (p : positive) : positive :=
  match n with O => xO (xO p) | S O => xO (xI p) | _ => xI (xI p) end.
Definition key_stage (s : stage) : positive :=
  match s with
  | KQueued => 1 | KClaimed => 2 | KPreparing => 3 | KRunning => 4 | KVerifying => 5
  | KBackoff => 6 | KDone => 7 | KNeedsReview => 8 | KFailed => 9 | KOther => 10
  end%positive.
Definition key_Z (z : Z) : positive := match z with Z0 => 16 | Zpos p => (p~0)*16 | Zneg p => (p~1)*16 end%positive.

(** Where a state is stored; nothing depends on its being injective. *)
Definition key (v : ctl) : positive :=
  foldr key_bool
    (foldr key_nat (key_stage (k_stage v) + key_Z (k_pending v))%positive
       [n_claim v; n_approve v; n_base v; n_prepare v; n_start v; n_summary v; n_verify v; n_timer v;
        n_probe v; n_stop v])
    [k_handle v; k_outcome v; k_closed v; k_quiet v; k_summarizing v; k_summarized v; k_parkPending v;
     k_stopping v; k_budgetStop v; k_finishAfter v; k_finish v; k_suspended v; k_gone v; k_releasing v;
     k_exitOwed v; k_verifyRetry v; k_probing v; k_stopWait v; k_baseDispatch v; k_approving v; k_basing v;
     k_epoch v; k_claimed v; k_faulted v; k_disposal v; k_draining v; k_unclassified v; k_open v].

Definition k_add (st : Pmap ctl * list ctl) (v : ctl) : Pmap ctl * list ctl :=
  if negb (k_alive v) then st
  else match st.1 !! key v with Some _ => st | None => (<[key v := v]> st.1, v :: st.2) end.

Definition k_visit (st : Pmap ctl * list ctl) : Pmap ctl * list ctl :=
  match st with
  | (seen, []) => (seen, [])
  | (seen, v :: todo) => foldl k_add (seen, todo) (k_next v)
  end.

Fixpoint k_explore (p : positive) (st : Pmap ctl * list ctl) : Pmap ctl * list ctl :=
  match p with
  | xH => k_visit st
  | xO p => k_explore p (k_explore p st)
  | xI p => k_explore p (k_explore p (k_visit st))
  end.

(** 2^17 visits are enough: the check below fails on an unfinished exploration. *)
Definition k_found : Pmap ctl := (k_explore 131072 (foldl k_add (∅, []) k_starts)).1.

(** A state that was found, or the end of its record. *)
Definition k_in (m : Pmap ctl) (v : ctl) : bool :=
  if k_alive v then match m !! key v with Some v' => ctl_eqb v' v | None => false end else k_idle v.

Definition k_checked (m : Pmap ctl) (v : ctl) : bool :=
  k_safe v && k_drains v && k_edges v && forallb (k_in m) (k_next v).

Definition k_check (m : Pmap ctl) : bool :=
  forallb (k_in m) k_starts && map_fold (λ _ v b, b && k_checked m v) true m.

Lemma control_closed : k_check k_found = true.
Proof. vm_cast_no_check (eq_refl true). Qed.

Lemma map_fold_andb {A} (f : A → bool) (m : Pmap A) :
  map_fold (λ _ v b, b && f v) true m = true → ∀ i v, m !! i = Some v → f v = true.
Proof.
  apply (map_fold_weak_ind (λ b m, b = true → ∀ i v, m !! i = Some v → f v = true)).
  - intros _ i v Hi. by rewrite lookup_empty in Hi.
  - intros i x m' b Hm IH [Hb Hx]%andb_true_iff j v Hj.
    apply lookup_insert_Some in Hj as [[<- <-]|[_ Hj]]; [done|]. by apply (IH Hb j).
Qed.

Lemma k_in_lookup m v : k_in m v = true → k_alive v = true → m !! key v = Some v.
Proof.
  unfold k_in. intros H Hv. rewrite Hv in H. destruct (m !! key v) as [v'|] eqn:E; [|done].
  apply ctl_eqb_eq in H. by subst.
Qed.

Lemma k_idle_spec v : k_idle v = true ↔ k_handle v = false ∧ k_launch v = O.
Proof. unfold k_idle, k_none. rewrite andb_true_iff, negb_true_iff, Nat.eqb_eq. done. Qed.

(** Every state of a live record is one the exploration found; a dropped record is idle. *)
Lemma k_reach_found v : k_reach v → k_in k_found v = true.
Proof.
  pose proof control_closed as Hc. generalize dependent k_found. intros m Hc Hv.
  apply andb_true_iff in Hc as [Hs Hf]. pose proof (map_fold_andb _ _ Hf) as Hall.
  induction Hv as [v Hv|v v' Hv IH Hn].
  - by eapply forallb_forall in Hs; [|apply list_elem_of_In].
  - destruct Hn as [Ha Hn|Ha Ha' Hh Hl].
    + apply k_in_lookup in IH; [|done]. apply Hall, andb_true_iff in IH as [_ IH].
      by eapply forallb_forall in IH; [|apply list_elem_of_In].
    + unfold k_in in *. rewrite Ha in IH. rewrite Ha'. apply k_idle_spec in IH as [? ?].
      apply k_idle_spec. split; [congruence|lia].
Qed.

Lemma k_reach_live v : k_reach v → k_alive v = true → k_safe v = true ∧ k_drains v = true ∧ k_edges v = true.
Proof.
  intros Hv%k_reach_found Ha. pose proof control_closed as Hc. generalize dependent k_found.
  intros m Hv Hc. apply andb_true_iff in Hc as [_ Hf].
  apply k_in_lookup, (map_fold_andb _ _ Hf) in Hv; [|done]. unfold k_checked in Hv. by split_bools.
Qed.

Lemma k_reach_dead v : k_reach v → k_alive v = false → k_idle v = true.
Proof. intros Hv%k_reach_found Ha. unfold k_in in Hv. by rewrite Ha in Hv. Qed.

(** Where several steps lead. *)
Lemma k_reach_steps v v' : k_reach v → rtc k_step v v' → k_reach v'.
Proof. intros Hv H. revert Hv. induction H; eauto using k_reach_step. Qed.

Lemma k_reach_any v v' : k_reach v → k_alive v = true → v' ∈ k_next v → k_reach v'.
Proof. intros. eapply k_reach_step; [done|]. by apply k_step_live. Qed.

Lemma k_steps_dead v v' :
  rtc k_step v v' → k_alive v = false →
  k_alive v' = false ∧ k_handle v' = k_handle v ∧ (k_launch v' <= k_launch v)%nat.
Proof.
  induction 1 as [v|v w v' Hs _ IH]; intros Ha; [done|].
  destruct Hs as [Hc|_ Hw Hh Hl]; [congruence|]. destruct (IH Hw) as (? & ? & ?).
  split_and!; [done|congruence|lia].
Qed.

(** While the daemon drains, what is in flight to start an agent only runs out. *)
Lemma k_steps_drain v v' :
  k_reach v → rtc k_step v v' → k_draining v = true →
  (k_launch v' <= k_launch v)%nat ∧ (n_start v' <= n_start v)%nat.
Proof.
  intros Hv H. revert Hv. induction H as [v|v w v' Hs Hr IH]; intros Hv Hd; [done|].
  pose proof (k_reach_step _ _ Hv Hs) as Hrw. destruct Hs as [Ha Hn|Ha Ha' _ Hl].
  - destruct (k_reach_live v Hv Ha) as (_ & Hk & _). unfold k_drains in Hk. rewrite Hd in Hk. cbn in Hk.
    eapply forallb_forall in Hk; [|by apply list_elem_of_In]. unfold k_fewer in Hk.
    rewrite !andb_true_iff, !Nat.leb_le in Hk. destruct Hk as (Hdw & ? & ?). destruct (IH Hrw Hdw). lia.
  - destruct (k_steps_dead _ _ Hr Ha') as (Hav & _ & ?).
    pose proof (k_reach_dead _ Hv Ha) as [_ Hi]%k_idle_spec. unfold k_launch in *. lia.
Qed.

(** A live record took edges of the state map. *)
Lemma k_steps_edges v v' :
  k_reach v → rtc k_step v v' → k_alive v' = true →
  rtc (λ a b, k_allowed a b = true) (k_stage v) (k_stage v').
Proof.
  intros Hv H. revert Hv. induction H as [v|v w v' Hs Hr IH]; intros Hv Ha'; [done|].
  pose proof (k_reach_step _ _ Hv Hs) as Hrw. destruct Hs as [Ha Hn|Ha Haw _ _].
  - destruct (k_reach_live v Hv Ha) as (_ & _ & He). unfold k_edges in He.
    eapply forallb_forall in He; [|by apply list_elem_of_In]. unfold k_edge in He.
    apply orb_true_iff in He as [->%stage_eqb_eq|He]; [by apply IH|]. eapply rtc_l; [exact He|by apply IH].
  - destruct (k_steps_dead _ _ Hr Haw) as (Hav & _). congruence.
Qed.
