(* ===== verification/OrchFrame.v ===== *)
(** * OrchFrame: what a handler of one record may touch

    The workers, signals and effects in flight of the orchestrator as one mail: who it is
    addressed to and what it is. [Local] says what the handler of one record changes: its own
    record, its own mail, nothing of any other record. Every handler of [OrchPipeline] is
    local, and keeps its record's mail in order ([Wf]): no mail of a later generation, the
    events of a run before the end of its stream, at most one owed effect in flight. *)

From S2P Require Import Prelude GoStd Update Core Template OrchState OrchRecover OrchRecord.
From S2P Require Import OrchApproval OrchPipeline OrchHeld OrchResume OrchLoop.

(** ** Mail *)

Inductive tag := TClaim | TApprove | TBase | TPrepare | TStart | TSummary | TVerify | TTimer | TProbe | TStop.

#[export] Instance tag_eq_dec : EqDecision tag.
Proof. solve_decision. Defined.

(** Work of one kind, an event of a run, the end of its events, an open stream of events, or
    an owed effect. *)
Inductive item := IWork (k : tag) | IEvent | IClosed | IOpen | IOwed (what : string).

#[export] Instance item_eq_dec : EqDecision item.
Proof. solve_decision. Defined.

#[local] Notation mail := (list (header * item)).

Definition sig_item (s : signal) : option (header * item) :=
  match s with
  | SigClaimed h _ _ => Some (h, IWork TClaim)
  | SigApproved h _ _ _ _ _ => Some (h, IWork TApprove)
  | SigClaimBaseBegun h _ _ _ _ => Some (h, IWork TBase)
  | SigPrepared h _ _ _ _ _ => Some (h, IWork TPrepare)
  | SigStarted h _ _ => Some (h, IWork TStart)
  | SigSummarized h _ _ => Some (h, IWork TSummary)
  | SigVerified h _ _ _ _ _ => Some (h, IWork TVerify)
  | SigTimer h _ => Some (h, IWork TTimer)
  | SigTimerFetched h _ _ _ _ _ _ _ _ _ _ _ _ => Some (h, IWork TTimer)
  | SigProbed h _ => Some (h, IWork TProbe)
  | SigStopped h _ => Some (h, IWork TStop)
  | SigRunEvent h _ => Some (h, IEvent)
  | SigEventsClosed h _ => Some (h, IClosed)
  | SigEffectDone h what _ => Some (h, IOwed what)
  | _ => None
  end.

Definition job_item (j : job) : option (header * item) :=
  match j with
  | JClaim h _ => Some (h, IWork TClaim)
  | JApprove h _ _ _ _ => Some (h, IWork TApprove)
  | JClaimBase h _ _ _ _ => Some (h, IWork TBase)
  | JPrepare h _ _ _ => Some (h, IWork TPrepare)
  | JStart h _ _ _ => Some (h, IWork TStart)
  | JSummary h _ => Some (h, IWork TSummary)
  | JVerify h _ _ _ => Some (h, IWork TVerify)
  | JTimer h _ => Some (h, IWork TTimer)
  | JTimerFetch h _ _ _ _ => Some (h, IWork TTimer)
  | JProbe h _ => Some (h, IWork TProbe)
  | JStop h _ _ => Some (h, IWork TStop)
  | JPump _ h _ _ false _ => Some (h, IOpen)
  | _ => None
  end.

Definition eff_item (e : effect) : option (header * item) :=
  match e with EffOwed h eff => Some (h, IOwed (oe_what eff)) | EffHeldRelease _ _ => None end.

Definition inbox (o : Orchestrator) : mail := omap sig_item (o_signals o).
Definition outbox (o : Orchestrator) : mail := omap eff_item (o_effects o).
Definition works (o : Orchestrator) : mail := omap job_item (o_jobs o).
Definition flying (o : Orchestrator) : mail := inbox o ++ outbox o ++ works o.

Definition to_token (t : Z) (m : mail) : mail := filter (λ x, hd_token x.1 = t) m.

(** What is addressed to the record in its present generation. *)
Definition mine (r : RunRecord) (m : mail) : list item :=
  (filter (λ x, hd_token x.1 = r_token r ∧ hd_generation x.1 = r_generation r) m).*2.

Definition tally (k : tag) (l : list item) : nat := length (filter (λ i, i = IWork k) l).

Definition in_flight (k : tag) (r : RunRecord) (o : Orchestrator) : nat := tally k (mine r (flying o)).

Definition is_pump (i : item) : bool := match i with IEvent | IClosed | IOpen => true | _ => false end.
Definition pump (r : RunRecord) (o : Orchestrator) : list item :=
  filter (λ i, is_pump i = true) (mine r (flying o)).

(** The workers about to start an agent: prepare and start. *)
Definition is_launch (i : item) : bool := match i with IWork TPrepare | IWork TStart => true | _ => false end.

(** Those of the record's earlier generations. *)
Definition stale_in (r : RunRecord) (m : mail) : nat :=
  length (filter (λ x, (hd_token x.1 = r_token r ∧ hd_generation x.1 ≠ r_generation r) ∧ is_launch x.2 = true) m).
Definition stale (r : RunRecord) (o : Orchestrator) : nat := stale_in r (flying o).

(** The owed effects in flight, of any generation. *)
Definition owed_in (m : mail) : list string :=
  omap (λ x, match x.2 with IOwed what => Some what | _ => None end) m.
Definition owed_mail (t : Z) (o : Orchestrator) : list string := owed_in (to_token t (flying o)).

(** ** Order in a record's mail *)

Definition ident (r : RunRecord) : string := is_Identifier (r_Issue r).

Definition pump_shape (l : list item) : Prop :=
  ∃ n tl, l = repeat IEvent n ++ tl ∧ tl ∈ [[]; [IClosed]; [IOpen]].

Record Wf (r : RunRecord) (o : Orchestrator) : Prop := {
  wf_bound x : x ∈ flying o → hd_token x.1 = r_token r →
    hd_issue x.1 = ident r ∧ hd_generation x.1 ≤ r_generation r;
  wf_pump : pump_shape (pump r o);
  wf_owed : owed_mail (r_token r) o = []
    ∨ ∃ eff rest, r_owed r = eff :: rest ∧ r_owedInFlight r = true
                  ∧ owed_mail (r_token r) o = [oe_what eff];
}.

(** Every issue of a tracker has an identifier. *)
Definition named (i : Issue) : Prop := is_Identifier i ≠ "".

(** The contract of [Runner.Start], and of [Tracker.Get] for the claim a recovery refetched. *)
Definition signal_ok (s : signal) : Prop :=
  match s with
  | SigTickResult candidates _ _ | SigRecoveryScan candidates _ _ => Forall named candidates
  | SigStarted _ handle err => is_nil handle = negb (is_nil err)
  | SigRecovered h _ (Some (v, facts)) _ =>
      is_Identifier (rf_issue facts) = hd_issue h
      ∨ (v_action v = recoveryActionGone ∧ is_Identifier (rf_issue facts) = "")
  | _ => True
  end.

Record Local (c c' : cell) : Prop := {
  l_token : r_token (c_r c') = r_token (c_r c);
  l_ident : ident (c_r c') = ident (c_r c);
  l_heap : o_heap (c_o c') = o_heap (c_o c);
  l_next : o_nextToken (c_o c) ≤ o_nextToken (c_o c');
  l_draining : o_draining (c_o c') = o_draining (c_o c);
  l_records : o_records (c_o c') = o_records (c_o c)
              ∨ o_records (c_o c') = delete (ident (c_r c)) (o_records (c_o c));
  l_others t : t ≠ r_token (c_r c) → to_token t (flying (c_o c')) = to_token t (flying (c_o c));
  l_signals : Forall signal_ok (o_signals (c_o c)) → Forall signal_ok (o_signals (c_o c'));
  l_wf : Wf (c_r c) (c_o c) → Wf (c_r c') (c_o c');
}.

#[export] Instance Local_preorder : PreOrder Local.
Proof.
  split.
  - intros c. split; auto. lia.
  - intros c1 c2 c3 [T1 I1 H1 N1 D1 R1 O1 S1 W1] [T2 I2 H2 N2 D2 R2 O2 S2 W2].
    split; [congruence..|lia|congruence| | |auto|auto].
    + rewrite I1 in R2. destruct R1 as [R1|R1], R2 as [R2|R2]; rewrite R2, R1; auto.
      right. apply delete_delete_eq.
    + intros t Ht. rewrite O2 by congruence. auto.
Qed.

(** ** Mail under the primitive operations *)

Lemma mine_app r m1 m2 : mine r (m1 ++ m2) = mine r m1 ++ mine r m2.
Proof. unfold mine. by rewrite filter_app, fmap_app. Qed.

Lemma mine_own r x : x.1 = header_of r → mine r [x] = [x.2].
Proof. intros H. unfold mine. rewrite filter_cons_True; [done|]. by rewrite H. Qed.

Lemma tally_app k l1 l2 : tally k (l1 ++ l2) = (tally k l1 + tally k l2)%nat.
Proof. unfold tally. by rewrite filter_app, length_app. Qed.

Lemma tally_cons k x l : tally k (x :: l) = if decide (x = IWork k) then S (tally k l) else tally k l.
Proof. unfold tally. rewrite filter_cons. by case_decide. Qed.

Lemma stale_app r m1 m2 : stale_in r (m1 ++ m2) = (stale_in r m1 + stale_in r m2)%nat.
Proof. unfold stale_in. by rewrite filter_app, length_app. Qed.

Lemma stale_cons r x m :
  stale_in r (x :: m) = if decide ((hd_token x.1 = r_token r ∧ hd_generation x.1 ≠ r_generation r) ∧ is_launch x.2 = true)
                        then S (stale_in r m) else stale_in r m.
Proof. unfold stale_in. rewrite filter_cons. by case_decide. Qed.

Lemma stale_to_token r m : stale_in r (to_token (r_token r) m) = stale_in r m.
Proof.
  unfold to_token. induction m as [|x m IH]; [done|].
  rewrite filter_cons, stale_cons. case_decide; [rewrite stale_cons|rewrite decide_False by tauto]; by rewrite IH.
Qed.

Lemma mine_to_token r m : mine r (to_token (r_token r) m) = mine r m.
Proof.
  unfold mine, to_token. f_equal. induction m as [|x m IH]; [done|].
  rewrite (filter_cons _ x m), (filter_cons _ x m). case_decide as Ht; case_decide as Hm.
  - rewrite filter_cons_True by done. by f_equal.
  - rewrite filter_cons_False by done. done.
  - tauto.
  - done.
Qed.

(** Mail delivered to one more place. *)
Definition Inserted (x : header * item) (o o' : Orchestrator) : Prop :=
  ∃ a b, flying o = a ++ b ∧ flying o' = a ++ x :: b.

Lemma flying_spawn j o :
  flying (spawn j o) = flying o ++ match job_item j with Some x => [x] | None => [] end.
Proof.
  unfold flying, spawn, inbox, outbox, works. cbn. rewrite omap_app. cbn.
  rewrite <- !(assoc_L (++)). by destruct (job_item j).
Qed.

Lemma inserted_spawn j x o : job_item j = Some x → Inserted x o (spawn j o).
Proof. intros H. exists (flying o), []. rewrite flying_spawn, H, app_nil_r. done. Qed.

Lemma inserted_send s x o : sig_item s = Some x → Inserted x o (o <| o_signals ::= λ l, l ++ [s] |>).
Proof.
  intros H. exists (inbox o), (outbox o ++ works o). split; [done|].
  unfold flying, inbox. cbn. rewrite omap_app. cbn. rewrite H. by rewrite <- !(assoc_L (++)).
Qed.

Lemma inserted_enqueue e x o : eff_item e = Some x → Inserted x o (o <| o_effects ::= λ l, l ++ [e] |>).
Proof.
  intros H. exists (inbox o ++ outbox o), (works o). rewrite <- !(assoc_L (++)). split; [done|].
  unfold flying, outbox. cbn. rewrite omap_app. cbn. rewrite H. by rewrite <- !(assoc_L (++)).
Qed.

Lemma inserted_others x o o' t :
  Inserted x o o' → t ≠ hd_token x.1 → to_token t (flying o') = to_token t (flying o).
Proof.
  intros (a & b & Ha & Hb) Ht. rewrite Ha, Hb. unfold to_token.
  rewrite !filter_app, filter_cons_False; [done|congruence].
Qed.

Lemma inserted_elem x y o o' : Inserted x o o' → y ∈ flying o' → y = x ∨ y ∈ flying o.
Proof.
  intros (a & b & -> & ->). rewrite !elem_of_app, elem_of_cons. tauto.
Qed.

Lemma mine_inserted x o o' r :
  Inserted x o o' → x.1 = header_of r →
  ∃ a b, mine r (flying o) = a ++ b ∧ mine r (flying o') = a ++ x.2 :: b.
Proof.
  intros (a & b & -> & ->) Hx. exists (mine r a), (mine r b). rewrite !mine_app. split; [done|].
  unfold mine at 2. rewrite filter_cons_True; [done|]. rewrite Hx. done.
Qed.

Lemma stale_inserted x o o' r : Inserted x o o' → x.1 = header_of r → stale r o' = stale r o.
Proof.
  intros (a & b & Ha & Hb) Hx. unfold stale. rewrite Ha, Hb, !stale_app, stale_cons, decide_False; [done|].
  rewrite Hx. intros [[_ H] _]. by apply H.
Qed.

Lemma in_flight_inserted k k' o o' r :
  Inserted (header_of r, IWork k') o o' →
  in_flight k r o' = if decide (k = k') then S (in_flight k r o) else in_flight k r o.
Proof.
  intros H. destruct (mine_inserted _ _ _ r H eq_refl) as (a & b & Ha & Hb). unfold in_flight.
  rewrite Ha, Hb, !tally_app, tally_cons. cbn. repeat case_decide; simplify_eq; lia.
Qed.

Lemma pump_inserted x o o' r :
  Inserted x o o' → x.1 = header_of r → is_pump x.2 = false → pump r o' = pump r o.
Proof.
  intros H Hx Hp. destruct (mine_inserted _ _ _ r H Hx) as (a & b & Ha & Hb). unfold pump.
  rewrite Ha, Hb, !filter_app, filter_cons_False; [done|]. by rewrite Hp.
Qed.

Lemma owed_mail_inserted x o o' t :
  Inserted x o o' → (∀ what, x.2 ≠ IOwed what) → owed_mail t o' = owed_mail t o.
Proof.
  intros (a & b & Ha & Hb) Hx. unfold owed_mail, owed_in, to_token.
  rewrite Ha, Hb, !filter_app, !omap_app. f_equal. rewrite filter_cons. case_decide; [|done].
  destruct x as [h []]; cbn in *; try done. by destruct (Hx what).
Qed.

Lemma owed_mail_owed h what o o' :
  Inserted (h, IOwed what) o o' → owed_mail (hd_token h) o = [] → owed_mail (hd_token h) o' = [what].
Proof.
  intros (a & b & Ha & Hb) H. unfold owed_mail, owed_in, to_token in *.
  rewrite Ha, filter_app, omap_app in H. apply app_nil in H as [H1 H2].
  rewrite Hb, filter_app, omap_app, H1, filter_cons_True by done. cbn. by rewrite H2.
Qed.

(** The rest of the orchestrator, as far as records are concerned, stays as it was. *)
Record Still (o o' : Orchestrator) : Prop := {
  st_heap : o_heap o' = o_heap o;
  st_next : o_nextToken o ≤ o_nextToken o';
  st_draining : o_draining o' = o_draining o;
  st_records : o_records o' = o_records o;
  st_flying : flying o' = flying o;
  st_signals : o_signals o' = o_signals o;
}.

#[export] Instance Still_preorder : PreOrder Still.
Proof.
  split; [by split|]. intros x y z [] []. split; [congruence|lia|congruence..].
Qed.

Lemma still_spawn j o : job_item j = None → Still o (spawn j o).
Proof. intros H. split; try done. by rewrite flying_spawn, H, app_nil_r. Qed.

(** ** Locality of the primitive operations

    In the form the handlers need: what was local so far stays local. *)

(** The fields of a record its mail depends on. *)
Definition same_mail (r r' : RunRecord) : Prop :=
  r_token r' = r_token r ∧ ident r' = ident r ∧ r_generation r' = r_generation r
  ∧ r_owed r' = r_owed r ∧ r_owedInFlight r' = r_owedInFlight r.

Lemma mine_same r r' m : same_mail r r' → mine r' m = mine r m.
Proof. intros (Ht & _ & Hg & _). unfold mine. by rewrite Ht, Hg. Qed.

Lemma Wf_same r r' o o' : same_mail r r' → flying o' = flying o → Wf r o → Wf r' o'.
Proof.
  intros Hs Hf [Hb Hp Ho]. pose proof Hs as (Ht & Hi & Hg & Hw & Hw'). split.
  - intros x. rewrite Hf, Ht, Hi, Hg. apply Hb.
  - unfold pump. by rewrite Hf, (mine_same r r').
  - unfold owed_mail. rewrite Hf, Ht, Hw, Hw'. apply Ho.
Qed.

Lemma Local_data c0 c c' :
  Local c0 c → same_mail (c_r c) (c_r c') → Still (c_o c) (c_o c') → Local c0 c'.
Proof.
  intros H Hs Hst. etrans; [exact H|]. pose proof Hs as (Ht & Hi & _). destruct Hst as [Hh Hn Hd Hr Hf Hsg].
  split; [done..| |intros t _; by rewrite Hf|by rewrite Hsg|by apply Wf_same]. by left.
Qed.

(** [x] is news for the record, but neither of its run nor of an owed effect. *)
Lemma Wf_inserted k r o o' : Inserted (header_of r, IWork k) o o' → Wf r o → Wf r o'.
Proof.
  intros Hx [Hb Hp Ho]. split.
  - intros y Hy Ht. destruct (inserted_elem _ _ _ _ Hx Hy) as [->|Hy']; [|by apply Hb].
    by split.
  - by rewrite (pump_inserted _ _ _ _ Hx).
  - by rewrite (owed_mail_inserted _ _ _ _ Hx).
Qed.

Definition own_job (r : RunRecord) (j : job) : Prop :=
  job_item j = None ∨ ∃ k, job_item j = Some (header_of r, IWork k).

Lemma Local_spawn c0 r o j : own_job r j → Local c0 (MkCell r o) → Local c0 (MkCell r (spawn j o)).
Proof.
  intros [Hj|[k Hj]] H; (etrans; [exact H|]).
  - eapply Local_data; [reflexivity|done|]. by apply still_spawn.
  - pose proof (inserted_spawn _ _ o Hj) as Hx. split; auto; [done| |].
    + intros t Ht. by rewrite (inserted_others _ _ _ _ Hx).
    + by eapply Wf_inserted.
Qed.

Lemma Local_send c0 c t :
  Local c0 c → Local c0 (c <| c_o ::= send_self (SigStopped (header_of (c_r c)) t) |>).
Proof.
  intros H. etrans; [exact H|]. destruct c as [r o].
  change (Local (MkCell r o) (MkCell r (send_self (SigStopped (header_of r) t) o))).
  unfold send_self. destruct (_ <? signalsDepth).
  - pose proof (inserted_send (SigStopped (header_of r) t) _ o eq_refl) as Hx. split; auto; [done| | |].
    + intros u Hu. by rewrite (inserted_others _ _ _ _ Hx).
    + intros Hs. cbn. apply Forall_app_2; [done|]. by repeat constructor.
    + by eapply Wf_inserted.
  - eapply Local_data; [reflexivity|done|]. done.
Qed.

Lemma Local_driveOwed c0 c : Local c0 c → Local c0 (driveOwed c).
Proof.
  intros H. etrans; [exact H|]. unfold driveOwed. destruct c as [r o]. cbn.
  destruct (r_owedInFlight r) eqn:Hif; [reflexivity|]. destruct (r_owed r) as [|eff rest] eqn:How; [reflexivity|].
  case_match; [reflexivity|]. unfold enqueue. destruct (_ <? effectsQueueDepth).
  - set (o' := o <| o_effects ::= λ l, l ++ [EffOwed (header_of r) eff] |>).
    assert (Hx : Inserted (header_of r, IOwed (oe_what eff)) o o').
    { by apply (inserted_enqueue (EffOwed (header_of r) eff)). }
    split; auto; [done| |].
    + intros t Ht. exact (inserted_others _ _ _ _ Hx Ht).
    + intros [Hb Hp Ho]. cbn in *. split.
      * intros y Hy Ht. destruct (inserted_elem _ _ _ _ Hx Hy) as [->|Hy']; [by split|by apply Hb].
      * change (pump_shape (pump r o')). by rewrite (pump_inserted _ _ _ _ Hx).
      * right. exists eff, rest. split_and!; [done|done|].
        apply (owed_mail_owed _ _ _ _ Hx). destruct Ho as [Ho|(? & ? & ? & ? & ?)]; [done|congruence].
  - eapply Local_data; [reflexivity| |done]. split_and!; try done.
Qed.

Lemma Local_oweEffect c0 c eff : Local c0 c → Local c0 (oweEffect eff c).
Proof.
  intros H. apply Local_driveOwed. etrans; [exact H|]. split; auto; [done|].
  intros [Hb Hp Ho]. split; [done..|]. destruct Ho as [Ho|(e & rest & H1 & H2 & H3)]; [by left|right].
  exists e, (rest ++ [eff]). split_and!; [|done..]. cbn. by rewrite H1.
Qed.

Lemma Local_owe c0 c what t d : Local c0 c → Local c0 (owe what t d c).
Proof. apply Local_oweEffect. Qed.

Lemma Local_oweProjection c0 c what d : Local c0 c → Local c0 (oweProjection what d c).
Proof. apply Local_oweEffect. Qed.

Lemma mine_bound r o : Wf r o → ∀ r', r_token r' = r_token r → r_generation r < r_generation r' →
  mine r' (flying o) = [].
Proof.
  intros Hwf r' Ht Hg. unfold mine. destruct (filter _ (flying o)) as [|x l] eqn:E; [done|].
  assert (Hx : x ∈ x :: l) by left. rewrite <- E in Hx. apply list_elem_of_filter in Hx as [[H1 H2] Hx].
  destruct (wf_bound _ _ Hwf x Hx); [congruence|]. lia.
Qed.

(** What was about to start an agent is so still, for an earlier generation. *)
Lemma stale_bump r o r1 r' :
  Wf r o → r_token r' = r_token r → r_generation r < r_generation r' →
  r_token r1 = r_token r → r_generation r1 = r_generation r →
  stale r' o = (stale r1 o + in_flight TPrepare r1 o + in_flight TStart r1 o)%nat.
Proof.
  intros Hw Ht Hg Ht1 Hg1. pose proof (wf_bound _ _ Hw) as Hb. unfold stale, in_flight.
  induction (flying o) as [|x m IH]; [done|]. rewrite !stale_cons.
  assert (Hm : mine r1 (x :: m) = if decide (hd_token x.1 = r_token r1 ∧ hd_generation x.1 = r_generation r1)
                                  then x.2 :: mine r1 m else mine r1 m)
    by (unfold mine; rewrite filter_cons; by case_decide).
  rewrite Hm, Ht, Ht1, Hg1. rewrite IH by (intros y Hy; apply Hb; by right).
  destruct (decide (hd_token x.1 = r_token r)) as [E|E].
  - destruct (Hb x ltac:(by left) E) as [_ Hle].
    destruct (decide (hd_generation x.1 = r_generation r)) as [E'|E'].
    + rewrite (decide_False (P := ((_ ∧ _ ≠ r_generation r) ∧ _))) by tauto.
      rewrite (decide_True (P := (_ ∧ _ = r_generation r))) by tauto. rewrite !tally_cons.
      destruct (x.2) as [[]| | | |]; cbn [is_launch]; repeat case_decide; try done; lia.
    + rewrite (decide_False (P := (_ ∧ _ = r_generation r))) by tauto.
      destruct (is_launch x.2); repeat case_decide; lia.
  - rewrite !decide_False by tauto. done.
Qed.

(** A new generation: old mail is not for it. *)
Lemma Local_bump c0 c f :
  Local c0 c → same_mail (c_r c) (f (c_r c) <| r_generation := r_generation (c_r c) |>) →
  r_generation (f (c_r c)) = Z.succ (r_generation (c_r c)) → Local c0 (c <| c_r ::= f |>).
Proof.
  intros H Hs Hg. etrans; [exact H|]. destruct Hs as (Ht & Hi & _ & Hw & Hw'). cbn in *.
  split; auto; cbn; [done|]. intros Hwf. pose proof Hwf as [Hb Hp Ho]. split.
  - intros x Hx. rewrite Ht. unfold ident in *. cbn in Hi. rewrite Hi. intros Hxt.
    destruct (Hb x Hx Hxt). split; [done|lia].
  - unfold pump. rewrite (mine_bound _ _ Hwf (f (c_r c)) Ht) by lia. exists O, []. split; [done|]. left.
  - by rewrite Ht, Hw, Hw'.
Qed.

Lemma Local_forget c0 c id : id = ident (c_r c) → Local c0 c → Local c0 (c <| c_o ::= forget id |>).
Proof. intros -> H. etrans; [exact H|]. split; [done..|by right|done|auto|]. by apply Wf_same. Qed.

(** *** What the handlers do to the rest *)

Lemma still_jobs o o' l :
  Still o o' → omap job_item l = [] → Still o (o' <| o_jobs ::= λ old, old ++ l |>).
Proof.
  intros [Hh Hn Hd Hr Hf Hs] Hl. split; try done. unfold flying, works in *. cbn.
  rewrite omap_app, Hl, app_nil_r. done.
Qed.

Lemma drive_clears_jobs todo before : omap job_item (drive_clears before todo).2 = [].
Proof.
  revert before. induction todo as [|p todo IH]; intros before; [done|]. cbn. case_match; [apply IH|].
  specialize (IH (before ++ [p <| pc_inFlight := true |>])). by destruct (drive_clears _ _).
Qed.

Lemma still_driveMarkerClears o o' : Still o o' → Still o (driveMarkerClears o').
Proof.
  intros H. unfold driveMarkerClears. pose proof (drive_clears_jobs (o_markerClears o') []) as Hj.
  destruct (drive_clears _ _) as [l js]. apply (still_jobs o (o' <| o_markerClears := l |>) js); [|done].
  etrans; [exact H|]. done.
Qed.

Lemma still_clearMarkerWith store issue o o' : Still o o' → Still o (clearMarkerWith store issue o').
Proof. intros H. apply still_driveMarkerClears. etrans; [exact H|]. done. Qed.

Lemma still_oweEndedCycle id ws w why o o' : Still o o' → Still o (oweEndedCycle id ws w why o').
Proof. intros H. unfold oweEndedCycle. repeat case_match; try done; (etrans; [exact H|]; done). Qed.

Lemma still_publish r o o' : Still o o' → Still o (publish r o').
Proof. intros H. etrans; [exact H|]. done. Qed.

Lemma still_cancel_pump pid o o' : Still o o' → Still o (cancel_pump pid o').
Proof.
  intros H. etrans; [exact H|]. split; try done. unfold flying, works, cancel_pump. cbn. do 2 f_equal.
  induction (o_jobs o') as [|j l IH]; [done|]. destruct j; cbn; try (by rewrite IH).
Qed.

Create HintDb still.
#[export] Hint Resolve still_clearMarkerWith still_oweEndedCycle still_publish still_cancel_pump
  still_driveMarkerClears : still.
#[export] Hint Extern 5 (Still ?o ?o) => reflexivity : still.
#[export] Hint Extern 9 (Still _ _) => done : still.

Lemma Local_freeWorkspaceMarker c0 c : Local c0 c → Local c0 (freeWorkspaceMarker c).
Proof. intros H. eapply Local_data; [exact H|done|]. cbn. auto with still. Qed.

Lemma Local_cancelRun c0 c : Local c0 c → Local c0 (cancelRun c).
Proof.
  intros H. unfold cancelRun. case_match; [|done]. eapply Local_data; [exact H|done|]. cbn. auto with still.
Qed.

Lemma Local_pumpRun c0 c h :
  pump (c_r c) (c_o c) = [] → Local c0 c → Local c0 (pumpRun h c).
Proof.
  intros Hp H. etrans; [exact H|]. destruct c as [r o]. unfold pumpRun, fresh_name. cbn in *.
  set (o1 := o <| o_fresh := o_fresh o + 1 |>). set (j := JPump _ _ _ _ _ _).
  assert (Hx : Inserted (header_of r, IOpen) o1 (spawn j o1)) by by apply inserted_spawn.
  change (flying o1) with (flying o) in *. split; auto; [done| |].
  - intros t Ht. exact (inserted_others _ _ _ _ Hx Ht).
  - intros [Hb _ Ho]. cbn in *. split.
    + intros y Hy Ht. destruct (inserted_elem _ _ _ _ Hx Hy) as [->|Hy']; [by split|by apply Hb].
    + change (pump_shape (pump r (spawn j o1))). exists O, [IOpen]. split; [|by set_unfold; auto].
      unfold pump in *. change o1 with (o <| o_fresh := o_fresh o + 1 |>). rewrite flying_spawn.
      change (flying (o <| o_fresh := o_fresh o + 1 |>)) with (flying o).
      change (match job_item j with Some x => [x] | None => [] end) with [(header_of r, IOpen)].
      by rewrite mine_app, filter_app, Hp, (mine_own r (header_of r, IOpen)).
    + change (r_token (r <| r_cancelRun := Some (o_fresh o + 1) |>)) with (r_token r).
      by rewrite (owed_mail_inserted _ _ _ _ Hx).
Qed.

(** ** Every handler is local *)

Lemma Local_spawn_pending c0 c j :
  own_job (c_r c <| r_pending ::= Z.succ |>) (j (c_r c <| r_pending ::= Z.succ |>)) →
  Local c0 c → Local c0 (spawn_pending j c).
Proof.
  intros Hj H. apply Local_spawn; [done|]. eapply Local_data; [exact H|repeat split|]. reflexivity.
Qed.

(** A handler of one record that is local. The search for a handler's instance goes by its name. *)
#[export] Hint Opaque driveOwed oweEffect owe oweProjection freeWorkspaceMarker cancelRun comment
  abandonPendingClaimBase release attemptEnded oweDisposal disposePublished completeFailure completeShutdown
  recordAttempt completeRevocationOnly disposeRevoked armTimer enterBackoff enterFailed enterNeedsReview
  enterEpochFault failAttempt parkCredential failLaunch beginStop finishNow stopAndFinish answered
  beginApproval onClaimed beginClaimBase onApproved beginPrepare onClaimBaseBegun onClaimProjected beginStart
  onPrepared beginProbe beginVerify apply_held_outcome park_with_account resumeAfterAccount beginSummary
  parkOnBudget applyOutcome confirmQuiet quiet onRunEvent onEventsClosed onProbed finishSuspended
  suspendStopped onHandleDone onStopped endAttemptSuspended onSummarized onVerified driveVerifyRetry onTimer
  rearm onTimerFetched driveHold confirmDoneOwnership convertToHeld onClaimAnchor onDoneOwnership afterEffect
  onOwedConfirmed applyParked onParkedConfirmed transitionCaused transition finishIfRequested :
  typeclass_instances.

Class LocalOp (h : cell → cell) := local_op c : Local c (h c).

#[export] Instance LocalOp_driveOwed : LocalOp driveOwed.
Proof. intros c. by apply Local_driveOwed. Qed.
#[export] Instance LocalOp_oweEffect eff : LocalOp (oweEffect eff).
Proof. intros c. by apply Local_oweEffect. Qed.
#[export] Instance LocalOp_owe what t d : LocalOp (owe what t d).
Proof. intros c. by apply Local_oweEffect. Qed.
#[export] Instance LocalOp_oweProjection what d : LocalOp (oweProjection what d).
Proof. intros c. by apply Local_oweEffect. Qed.
#[export] Instance LocalOp_freeWorkspaceMarker : LocalOp freeWorkspaceMarker.
Proof. intros c. by apply Local_freeWorkspaceMarker. Qed.
#[export] Instance LocalOp_cancelRun : LocalOp cancelRun.
Proof. intros c. by apply Local_cancelRun. Qed.

(** A handler that may refuse. *)
Class LocalOpt (h : cell → option cell) := local_opt c0 c c' : h c = Some c' → Local c0 c → Local c0 c'.

Lemma Local_let c0 (x : cell) (f : cell → cell) :
  Local c0 x → (∀ y, Local c0 y → Local c0 (f y)) → Local c0 (let y := x in f y).
Proof. intros H Hf. exact (Hf x H). Qed.

Ltac same_mail :=
  first [ solve [repeat split]
        | match goal with |- context [if ?b then _ else _] => destruct b; solve [repeat split] end ].

(** One step outwards in the term of a handler. *)
Ltac local_step :=
  lazymatch goal with
  | |- Local ?c ?c => reflexivity
  | H : Local ?c0 ?c |- Local ?c0 ?c => exact H
  | |- Local ?c0 (let y : cell := ?x in @?f y) => refine (Local_let c0 x f _ _); [|intros ? ?; cbv beta]
  | |- Local ?c0 (let y := ?x in @?f y) => let b := eval cbv beta in (f x) in change (Local c0 b)
  | H : ?h ?c = Some ?c' |- Local ?c0 ?c' => apply (local_opt c0 c c' H)
  | |- Local ?c0 (setf c_r ?f ?c) =>
      first [ apply (Local_data c0 c); [|same_mail|reflexivity]
            | apply Local_bump; [|same_mail|reflexivity] ]
  | |- Local _ (setf c_o (forget _) _) =>
      apply Local_forget;
      [first [ reflexivity | etrans; [eapply l_ident; eassumption|symmetry; eapply l_ident; eassumption] ]|]
  | |- Local _ (setf c_o (send_self _) _) => apply Local_send
  | |- Local ?c0 (setf c_o _ ?c) => apply (Local_data c0 c); [|same_mail|solve [cbn [c_o setf set_c_o]; auto with still]]
  | |- Local _ (match (match ?x with _ => _ end) with _ => _ end) => destruct x eqn:?; cbv beta iota
  | |- Local _ (match ?x with _ => _ end) => destruct x eqn:?; cbv beta iota
  | |- Local ?c0 (MkCell ?r (spawn _ ?o)) =>
      apply Local_spawn; [solve [left; reflexivity | right; eexists; reflexivity]|]
  | |- Local ?c0 (MkCell ?r _) =>
      match r with
      | context [c_r ?c] =>
          apply (Local_data c0 c); [|same_mail|solve [cbn [c_o setf set_c_o]; auto with still]]
      end
  | |- Local _ (spawn_pending _ _) =>
      apply Local_spawn_pending; [solve [left; reflexivity | right; eexists; reflexivity]|]
  | |- Local ?c0 (?h ?c) => transitivity c; [|exact (local_op (h := h) c)]
  end.
Ltac local := intros; repeat local_step.
Tactic Notation "local_op" reference(h) := intros ?; cbv beta delta [h]; local.


Section local.
Context {T : GoTables}.

#[export] Instance LocalOpt_transitionCaused to reason cause : LocalOpt (transitionCaused to reason cause).
Proof.
  unfold transitionCaused. intros c0 c c' Ht H. destruct (Allowed _ _); [cbn in Ht|done].
  set (r := c_r c <| r_State := to |> <| r_UpdatedAt := o_clock (c_o c) |>) in *.
  assert (Hd : Local c0 (MkCell r (publish r (c_o c <| o_Transitions ::= λ l, l ++
     [MkTransition (r_UpdatedAt r) (is_Identifier (r_Issue r)) (r_State (c_r c)) to
                   (cf_DaemonID (o_cfg (c_o c))) reason (runID r) cause] |>)))).
  { apply (Local_data c0 c); [done|repeat split|]. apply still_publish. done. }
  injection Ht as <-. case_match; [exact Hd|]. etrans; [exact Hd|apply local_op].
Qed.

#[export] Instance LocalOp_comment m : LocalOp (comment m).
Proof. local_op comment. Qed.
#[export] Instance LocalOp_abandonPendingClaimBase : LocalOp abandonPendingClaimBase.
Proof. local_op abandonPendingClaimBase. Qed.
#[export] Instance LocalOp_release why : LocalOp (release why).
Proof. local_op release. Qed.
#[export] Instance LocalOp_attemptEnded : LocalOp attemptEnded.
Proof. local_op attemptEnded. Qed.
#[export] Instance LocalOp_oweDisposal f : LocalOp (oweDisposal f).
Proof. local_op oweDisposal. Qed.
#[export] Instance LocalOp_disposePublished : LocalOp disposePublished.
Proof. local_op disposePublished. Qed.
#[export] Instance LocalOp_completeFailure : LocalOp completeFailure.
Proof. local_op completeFailure. Qed.
#[export] Instance LocalOp_completeShutdown : LocalOp completeShutdown.
Proof. local_op completeShutdown. Qed.
#[export] Instance LocalOp_recordAttempt reason v : LocalOp (recordAttempt reason v).
Proof. local_op recordAttempt. Qed.
#[export] Instance LocalOpt_transition to reason : LocalOpt (transition to reason).
Proof. exact (LocalOpt_transitionCaused to reason ""). Qed.
#[export] Instance LocalOp_completeRevocationOnly : LocalOp completeRevocationOnly.
Proof. unfold completeRevocationOnly, oweRemoteRevocation. intros c. cbn [snd]. local. Qed.
#[export] Instance LocalOp_disposeRevoked keep : LocalOp (disposeRevoked keep).
Proof. intros c. unfold disposeRevoked, oweRemoteRevocation. local. Qed.
#[export] Instance LocalOp_armTimer kind d : LocalOp (armTimer kind d).
Proof. local_op armTimer. Qed.
#[export] Instance LocalOp_enterBackoff why cause : LocalOp (enterBackoff why cause).
Proof. local_op enterBackoff. Qed.
#[export] Instance LocalOp_enterFailed why cause : LocalOp (enterFailed why cause).
Proof. local_op enterFailed. Qed.
#[export] Instance LocalOp_enterNeedsReview why cause : LocalOp (enterNeedsReview why cause).
Proof. local_op enterNeedsReview. Qed.
#[export] Instance LocalOp_enterEpochFault why : LocalOp (enterEpochFault why).
Proof. local_op enterEpochFault. Qed.
#[export] Instance LocalOp_failAttempt reason retryable detail : LocalOp (failAttempt reason retryable detail).
Proof. local_op failAttempt. Qed.
#[export] Instance LocalOp_parkCredential detail : LocalOp (parkCredential detail).
Proof. local_op parkCredential. Qed.
#[export] Instance LocalOp_failLaunch err what retryable : LocalOp (failLaunch err what retryable).
Proof. local_op failLaunch. Qed.
#[export] Instance LocalOp_beginStop mode : LocalOp (beginStop mode).
Proof. local_op beginStop. Qed.
#[export] Instance LocalOp_finishNow keep why : LocalOp (finishNow keep why).
Proof. local_op finishNow. Qed.
#[export] Instance LocalOp_stopAndFinish keep why : LocalOp (stopAndFinish keep why).
Proof. local_op stopAndFinish. Qed.
#[export] Instance LocalOpt_finishIfRequested : LocalOpt finishIfRequested.
Proof.
  unfold finishIfRequested. intros c0 c c' H H0. destruct (r_finish (c_r c)); [|done]. case_match; [done|].
  injection H as <-. local.
Qed.
#[export] Instance LocalOp_answered : LocalOp answered.
Proof. local_op answered. Qed.

#[export] Instance LocalOp_beginApproval : LocalOp beginApproval.
Proof. local_op beginApproval. Qed.
#[export] Instance LocalOp_onClaimed verified err : LocalOp (onClaimed verified err).
Proof. local_op onClaimed. Qed.
#[export] Instance LocalOp_beginClaimBase : LocalOp beginClaimBase.
Proof. local_op beginClaimBase. Qed.
#[export] Instance LocalOp_onApproved history approval labels principal err : LocalOp (onApproved history approval labels principal err).
Proof. local_op onApproved. Qed.
#[export] Instance LocalOp_beginPrepare : LocalOp beginPrepare.
Proof. local_op beginPrepare. Qed.
#[export] Instance LocalOp_onClaimBaseBegun err cb cbErr read ok : LocalOp (onClaimBaseBegun err cb cbErr read ok).
Proof. local_op onClaimBaseBegun. Qed.
#[export] Instance LocalOp_onClaimProjected : LocalOp onClaimProjected.
Proof. local_op onClaimProjected. Qed.
#[export] Instance LocalOp_beginStart : LocalOp beginStart.
Proof. local_op beginStart. Qed.
#[export] Instance LocalOp_onPrepared ws facts err cb cbErr : LocalOp (onPrepared ws facts err cb cbErr).
Proof. local_op onPrepared. Qed.
#[export] Instance LocalOp_beginProbe : LocalOp beginProbe.
Proof. local_op beginProbe. Qed.
#[export] Instance LocalOp_beginVerify : LocalOp beginVerify.
Proof. local_op beginVerify. Qed.
#[export] Instance LocalOp_apply_held_outcome : LocalOp apply_held_outcome.
Proof. local_op apply_held_outcome. Qed.
#[export] Instance LocalOp_park_with_account : LocalOp park_with_account.
Proof. local_op park_with_account. Qed.
#[export] Instance LocalOp_resumeAfterAccount : LocalOp resumeAfterAccount.
Proof. local_op resumeAfterAccount. Qed.
#[export] Instance LocalOp_beginSummary : LocalOp beginSummary.
Proof. local_op beginSummary. Qed.
#[export] Instance LocalOp_parkOnBudget : LocalOp parkOnBudget.
Proof. local_op parkOnBudget. Qed.
#[export] Instance LocalOp_applyOutcome : LocalOp applyOutcome.
Proof. local_op applyOutcome. Qed.
#[export] Instance LocalOp_confirmQuiet : LocalOp confirmQuiet.
Proof. local_op confirmQuiet. Qed.
#[export] Instance LocalOp_quiet : LocalOp quiet.
Proof. local_op quiet. Qed.
#[export] Instance LocalOp_onRunEvent ev : LocalOp (onRunEvent ev).
Proof.
  unfold onRunEvent. intros c. set (c1 := match ev_Type ev with EventUsage => _ | _ => _ end).
  assert (H : Local c c1) by (subst c1; local). clearbody c1. cbv zeta. etrans; [exact H|].
  case_match; [reflexivity|]. destruct (ev_Type ev); try (by local).
Qed.
#[export] Instance LocalOp_onEventsClosed sawTerminal : LocalOp (onEventsClosed sawTerminal).
Proof. local_op onEventsClosed. Qed.
#[export] Instance LocalOp_onProbed probe : LocalOp (onProbed probe).
Proof. local_op onProbed. Qed.
#[export] Instance LocalOp_finishSuspended : LocalOp finishSuspended.
Proof. local_op finishSuspended. Qed.
#[export] Instance LocalOp_suspendStopped : LocalOp suspendStopped.
Proof. local_op suspendStopped. Qed.
#[export] Instance LocalOp_onHandleDone : LocalOp onHandleDone.
Proof. local_op onHandleDone. Qed.
#[export] Instance LocalOp_onStopped termination : LocalOp (onStopped termination).
Proof. local_op onStopped. Qed.
#[export] Instance LocalOp_endAttemptSuspended : LocalOp endAttemptSuspended.
Proof. local_op endAttemptSuspended. Qed.
#[export] Instance LocalOp_onSummarized facts err : LocalOp (onSummarized facts err).
Proof. local_op onSummarized. Qed.
#[export] Instance LocalOp_onVerified verify err fault detail failed : LocalOp (onVerified verify err fault detail failed).
Proof. local_op onVerified. Qed.
#[export] Instance LocalOp_driveVerifyRetry : LocalOp driveVerifyRetry.
Proof. local_op driveVerifyRetry. Qed.
#[export] Instance LocalOp_onTimer kind : LocalOp (onTimer kind).
Proof. local_op onTimer. Qed.
#[export] Instance LocalOp_rearm kind : LocalOp (rearm kind).
Proof. local_op rearm. Qed.
#[export] Instance LocalOp_onTimerFetched kind rev labels pr fresh hist appr cb cbErr mk mkErr err : LocalOp (onTimerFetched kind rev labels pr fresh hist appr cb cbErr mk mkErr err).
Proof. local_op onTimerFetched. Qed.
#[export] Instance LocalOp_driveHold : LocalOp driveHold.
Proof. local_op driveHold. Qed.
#[export] Instance LocalOp_confirmDoneOwnership : LocalOp confirmDoneOwnership.
Proof. local_op confirmDoneOwnership. Qed.
#[export] Instance LocalOp_convertToHeld anchor rev : LocalOp (convertToHeld anchor rev).
Proof.
  intros c. split; [done..|cbn; lia|done|by right|done|done|]. by apply Wf_same.
Qed.
#[export] Instance LocalOp_onClaimAnchor anchor sup aerr rev err : LocalOp (onClaimAnchor anchor sup aerr rev err).
Proof. local_op onClaimAnchor. Qed.
#[export] Instance LocalOp_onDoneOwnership fresh err : LocalOp (onDoneOwnership fresh err).
Proof. local_op onDoneOwnership. Qed.
#[export] Instance LocalOp_afterEffect what : LocalOp (afterEffect what).
Proof. local_op afterEffect. Qed.
#[export] Instance LocalOp_onOwedConfirmed fresh err : LocalOp (onOwedConfirmed fresh err).
Proof. local_op onOwedConfirmed. Qed.
#[export] Instance LocalOp_applyParked fresh cur usable : LocalOp (applyParked fresh cur usable).
Proof. local_op applyParked. Qed.
#[export] Instance LocalOp_onParkedConfirmed fresh settled err : LocalOp (onParkedConfirmed fresh settled err).
Proof. local_op onParkedConfirmed. Qed.
#[export] Instance LocalOp_confirmOwedAbsence : LocalOp confirmOwedAbsence.
Proof. local_op confirmOwedAbsence. Qed.
#[export] Instance LocalOp_confirmParkedAbsence : LocalOp confirmParkedAbsence.
Proof. local_op confirmParkedAbsence. Qed.
#[export] Instance LocalOp_classifyParked w fresh cur : LocalOp (classifyParked w fresh cur).
Proof. local_op classifyParked. Qed.
#[export] Instance LocalOp_projectRecovery facts v : LocalOp (projectRecovery facts v).
Proof.
  intros c. unfold projectRecovery. set (c1 := oweProjection _ _ c).
  assert (H : Local c c1) by apply local_op. clearbody c1.
  assert (Hc : ∀ m r, recoveryComment facts v (c_r c1) = (m, r) → Local c (comment m (MkCell r (c_o c1)))).
  { intros m r Hm. transitivity (MkCell r (c_o c1)); [|apply local_op].
    apply (Local_data c c1); [done| |done]. unfold recoveryComment in Hm. cbn [c_r].
    repeat case_match; injection Hm as <- <-; repeat split. }
  destruct (negb _); [reflexivity|]. destruct (recoveryComment facts v (c_r c1)) as [m r] eqn:Hm.
  destruct (v_milestone v); auto.
Qed.
#[export] Instance LocalOp_resumeRecoveredBackoff : LocalOp resumeRecoveredBackoff.
Proof. local_op resumeRecoveredBackoff. Qed.
#[export] Instance LocalOp_retry_classify cur : LocalOp (retry_classify cur).
Proof. local_op retry_classify. Qed.
#[export] Instance LocalOp_retry_record : LocalOp retry_record.
Proof. local_op retry_record. Qed.
#[export] Instance LocalOp_reconcile_one res cur : LocalOp (reconcile_one res cur).
Proof. local_op reconcile_one. Qed.
#[export] Instance LocalOp_shutdown_record : LocalOp shutdown_record.
Proof. local_op shutdown_record. Qed.

(** The answer of the owed effect has just been taken off the mail. *)
Lemma Local_unowed c0 c f :
  owed_mail (r_token (c_r c)) (c_o c) = [] → Local c0 c →
  r_token (f (c_r c)) = r_token (c_r c) → ident (f (c_r c)) = ident (c_r c) →
  r_generation (f (c_r c)) = r_generation (c_r c) → Local c0 (c <| c_r ::= f |>).
Proof.
  intros Ho H Ht Hi Hg. etrans; [exact H|]. split; auto; [done|]. intros [Hb Hp _]. cbn in *. split.
  - intros x. rewrite Ht, Hi, Hg. apply Hb.
  - unfold pump, mine in *. by rewrite Ht, Hg.
  - left. by rewrite Ht.
Qed.

Lemma Local_onEffectDone c what err :
  owed_mail (r_token (c_r c)) (c_o c) = [] → Local c (onEffectDone what err c).
Proof.
  intros Ho. unfold onEffectDone. set (c1 := c <| c_r ::= _ |>).
  assert (H1 : Local c c1) by by apply Local_unowed.
  assert (H2 : Local c (c1 <| c_r ::= λ r, r <| r_owed ::= tail |> <| r_owedWriteFailed := false |> |>))
    by by apply Local_unowed.
  destruct err; [|local]. case_match; [local|]. case_match; [|local]. by apply Local_unowed.
Qed.
End local.
