(* ===== verification/OrchRefine.v ===== *)
(** * OrchRefine: the handlers implement the control machine

    [abs] reads the control state of [OrchControl] off a record and its mail. Each handler of
    [OrchPipeline] and [OrchLoop] takes it to one of the outcomes of the
    handler of the control machine that bears its name. *)

From S2P Require Import Prelude GoStd Update Core Template OrchState OrchRecover OrchRecord.
From S2P Require Import OrchApproval OrchPipeline OrchHeld OrchResume OrchLoop OrchControl.
From S2P Require Import OrchFrame.

Definition stage_of (s : State) : stage :=
  if bool_decide (s = StateQueued) then KQueued
  else if bool_decide (s = StateClaimed) then KClaimed
  else if bool_decide (s = StatePreparing) then KPreparing
  else if bool_decide (s = StateRunning) then KRunning
  else if bool_decide (s = StateVerifying) then KVerifying
  else if bool_decide (s = StateBackoff) then KBackoff
  else if bool_decide (s = StateDone) then KDone
  else if bool_decide (s = StateNeedsReview) then KNeedsReview
  else if bool_decide (s = StateFailed) then KFailed
  else KOther.

Definition is_cons {A} (l : list A) : bool := match l with [] => false | _ => true end.

Definition abs (c : cell) : ctl :=
  let r := c_r c in
  let o := c_o c in
  MkCtl (stage_of (r_State r)) (negb (is_nil (r_handle r))) (negb (is_nil (r_outcome r))) (r_eventsClosed r)
    (r_domainQuiet r) (r_summarizing r) (r_summarized r) (r_parkOnBudgetPending r) (r_stopping r)
    (r_budgetStop r) (r_finishAfterStop r) (negb (is_nil (r_finish r))) (r_suspended r)
    (r_gone r || r_claimLost r) (r_releasing r) (existsb (λ eff, isExit (oe_what eff)) (r_owed r))
    (r_verifyRetry r) (r_probeInFlight r) (r_stopInFlight r) (r_claimBaseDispatch r) (r_approvalInFlight r)
    (r_claimBaseInFlight r) (0 <? r_claimEpoch r) (r_claimVerified r) (r_epochFaulted r) (r_disposalOwed r)
    (o_draining o) (r_unclassified r) (is_current c) (r_pending r)
    (in_flight TClaim r o) (in_flight TApprove r o) (in_flight TBase r o) (in_flight TPrepare r o)
    (in_flight TStart r o) (in_flight TSummary r o) (in_flight TVerify r o) (in_flight TTimer r o)
    (in_flight TProbe r o) (in_flight TStop r o) (is_cons (pump r o)) (stale r o).

(** ** Reading a condition of the code in the control state *)

Lemma stage_of_eqb s :
  (stage_eqb (stage_of s) KQueued = bool_decide (s = StateQueued))
  ∧ (stage_eqb (stage_of s) KClaimed = bool_decide (s = StateClaimed))
  ∧ (stage_eqb (stage_of s) KRunning = bool_decide (s = StateRunning))
  ∧ (stage_eqb (stage_of s) KVerifying = bool_decide (s = StateVerifying))
  ∧ (stage_eqb (stage_of s) KBackoff = bool_decide (s = StateBackoff))
  ∧ (stage_eqb (stage_of s) KDone = bool_decide (s = StateDone))
  ∧ (stage_eqb (stage_of s) KNeedsReview = bool_decide (s = StateNeedsReview)).
Proof.
  unfold stage_of. repeat (case_bool_decide; [subst; vm_compute; tauto|]). cbn. tauto.
Qed.

Lemma abs_stage c :
  (bool_decide (r_State (c_r c) = StateQueued) = stage_eqb (k_stage (abs c)) KQueued)
  ∧ (bool_decide (r_State (c_r c) = StateClaimed) = stage_eqb (k_stage (abs c)) KClaimed)
  ∧ (bool_decide (r_State (c_r c) = StateRunning) = stage_eqb (k_stage (abs c)) KRunning)
  ∧ (bool_decide (r_State (c_r c) = StateVerifying) = stage_eqb (k_stage (abs c)) KVerifying)
  ∧ (bool_decide (r_State (c_r c) = StateBackoff) = stage_eqb (k_stage (abs c)) KBackoff)
  ∧ (bool_decide (r_State (c_r c) = StateDone) = stage_eqb (k_stage (abs c)) KDone)
  ∧ (bool_decide (r_State (c_r c) = StateNeedsReview) = stage_eqb (k_stage (abs c)) KNeedsReview).
Proof. destruct (stage_of_eqb (r_State (c_r c))) as (?&?&?&?&?&?&?). by repeat split. Qed.

Lemma abs_orderedExit c : orderedExit (c_r c) = k_ordered (abs c).
Proof. unfold orderedExit, k_ordered. cbn. by rewrite <- !orb_assoc. Qed.

Lemma abs_exiting c : exiting (c_r c) = k_exiting (abs c).
Proof. unfold exiting, k_exiting. by rewrite abs_orderedExit. Qed.

(** The two state maps agree. *)
Lemma abs_Allowed c to :
  to ∈ [StateQueued; StateClaimed; StatePreparing; StateRunning; StateVerifying; StateBackoff; StateDone;
        StateNeedsReview; StateFailed] →
  Allowed (r_State (c_r c)) to = k_allowed (k_stage (abs c)) (stage_of to).
Proof.
  change (k_stage (abs c)) with (stage_of (r_State (c_r c))). generalize (r_State (c_r c)). intros from Hto.
  destruct (decide (from ∈ StateFailed :: StateDone :: nonTerminalStates)) as [Hf|Hf].
  - unfold nonTerminalStates in Hf. repeat (apply elem_of_cons in Hf as [->|Hf]);
      try (by apply not_elem_of_nil in Hf); clear -Hto;
      repeat (apply elem_of_cons in Hto as [->|Hto]; [vm_compute; reflexivity|]);
      by apply not_elem_of_nil in Hto.
  - assert (Hs : stage_of from = KOther).
    { unfold stage_of. repeat (rewrite bool_decide_eq_false_2 by (intros ->; apply Hf; vm_compute; set_solver)).
      done. }
    rewrite Hs. cbn. apply Bool.not_true_iff_false. intros Ha. apply Allowed_spec in Ha.
    destruct Ha as [[_ Ha]|Ha]; [apply Hf; set_solver|]. apply Hf. clear -Ha.
    unfold legalTransitions in Ha. cbn in Ha. unfold nonTerminalStates.
    repeat (apply elem_of_cons in Ha as [[= -> ->]|Ha]; [set_solver|]). by apply not_elem_of_nil in Ha.
Qed.

(** ** Workers and the rest *)

(** One more worker of a kind. *)
Definition k_more (k : tag) (v : ctl) : ctl :=
  match k with
  | TClaim => v <| n_claim ::= S |>
  | TApprove => v <| n_approve ::= S |>
  | TBase => v <| n_base ::= S |>
  | TPrepare => v <| n_prepare ::= S |>
  | TStart => v <| n_start ::= S |>
  | TSummary => v <| n_summary ::= S |>
  | TVerify => v <| n_verify ::= S |>
  | TTimer => v <| n_timer ::= S |>
  | TProbe => v <| n_probe ::= S |>
  | TStop => v <| n_stop ::= S |>
  end.

Lemma abs_inserted k r o o' :
  Inserted (header_of r, IWork k) o o' → o_draining o' = o_draining o → o_records o' = o_records o →
  abs (MkCell r o') = k_more k (abs (MkCell r o)).
Proof.
  intros Hx Hd Hr. unfold abs, is_current. cbn [c_r c_o]. rewrite Hd, Hr.
  rewrite !(in_flight_inserted _ k _ _ _ Hx), (pump_inserted _ _ _ _ Hx), (stale_inserted _ _ _ _ Hx) by done.
  by destruct k.
Qed.

Lemma abs_still r o o' : Still o o' → abs (MkCell r o') = abs (MkCell r o).
Proof.
  intros [_ _ Hd Hr Hf _]. unfold abs, is_current, in_flight, pump, stale. cbn [c_r c_o]. by rewrite Hd, Hr, Hf.
Qed.

Lemma abs_spawn k j r o :
  job_item j = Some (header_of r, IWork k) → abs (MkCell r (spawn j o)) = k_more k (abs (MkCell r o)).
Proof. intros H. apply abs_inserted; [|done..]. by apply inserted_spawn. Qed.

Lemma abs_spawn_other j r o : job_item j = None → abs (MkCell r (spawn j o)) = abs (MkCell r o).
Proof. intros H. apply abs_still. by apply still_spawn. Qed.

Lemma abs_eta c : abs (MkCell (c_r c) (c_o c)) = abs c.
Proof. by destruct c. Qed.

Lemma abs_c_o c f : Still (c_o c) (f (c_o c)) → abs (c <| c_o ::= f |>) = abs c.
Proof. intros H. rewrite <- (abs_eta c). exact (abs_still _ _ _ H). Qed.

(** *** Owed effects *)

Lemma abs_driveOwed c : abs (driveOwed c) = abs c.
Proof.
  destruct c as [r o]. unfold driveOwed. cbn [c_r c_o]. destruct (r_owedInFlight r); [done|].
  destruct (r_owed r) as [|eff rest]; [done|]. destruct (_ && _); [done|]. unfold enqueue.
  destruct (_ <? _); [|done]. set (o' := o <| o_effects ::= λ l, l ++ [EffOwed (header_of r) eff] |>).
  assert (Hx : Inserted (header_of r, IOwed (oe_what eff)) o o') by by eapply inserted_enqueue.
  change (abs (MkCell r o') = abs (MkCell r o)).
  destruct (mine_inserted _ _ _ r Hx eq_refl) as (a & b & Ha & Hb). unfold abs, is_current, in_flight.
  cbn [c_r c_o]. rewrite (pump_inserted _ _ _ _ Hx), (stale_inserted _ _ _ _ Hx) by done. rewrite Ha, Hb, !tally_app, !tally_cons. done.
Qed.

Lemma abs_oweEffect eff c :
  abs (oweEffect eff c) = if isExit (oe_what eff) then abs c <| k_exitOwed := true |> else abs c.
Proof.
  unfold oweEffect. rewrite abs_driveOwed. unfold abs. cbn. rewrite existsb_app. cbn.
  destruct (isExit _); cbn; [by rewrite orb_true_r|by rewrite orb_false_r].
Qed.

(** ** What the control state does not show *)

Create HintDb abs.

(** An update of fields the control state ignores. *)
Lemma abs_noop c f :
  (∀ r o, abs (MkCell (f r) o) = abs (MkCell r o)) → abs (c <| c_r ::= f |>) = abs c.
Proof. intros H. rewrite <- (abs_eta c). apply H. Qed.

(** An update the control machine follows by [g]. *)
Lemma abs_upd g c f :
  (∀ r o, abs (MkCell (f r) o) = g (abs (MkCell r o))) → abs (c <| c_r ::= f |>) = g (abs c).
Proof. intros H. rewrite <- (abs_eta c). apply H. Qed.

#[export] Hint Rewrite abs_driveOwed abs_eta : abs.

Ltac anoop :=
  match goal with |- context [abs (setf c_r ?f ?c)] => rewrite (abs_noop c f) by (intros; reflexivity) end.
Ltac asimp := repeat first [progress autorewrite with abs | anoop].
Tactic Notation "aupd" uconstr(g) :=
  match goal with |- context [abs (setf c_r ?f ?c)] => rewrite (abs_upd g c f) by (intros; reflexivity) end.

(** The same for the argument of a handler. *)
Tactic Notation "via" uconstr(g) :=
  match goal with |- abs (_ (setf c_r ?f ?c)) ∈ _ => rewrite <- (abs_upd g c f) by (intros; reflexivity) end.

Section noise.
Context {T : GoTables}.

Lemma abs_owe what t d c : isExit what = false → abs (owe what t d c) = abs c.
Proof. intros H. unfold owe. rewrite abs_oweEffect. cbn [oe_what]. by rewrite H. Qed.

Lemma abs_oweProjection l d c : abs (oweProjection ("project " +:+ labelName l) d c) = abs c.
Proof. unfold oweProjection. rewrite abs_oweEffect. by destruct l. Qed.

Lemma abs_comment m c : abs (comment m c) = abs c.
Proof. unfold comment. apply abs_owe. by destruct m as [[] ? ? ? ?]. Qed.

Lemma abs_abandonPendingClaimBase c : abs (abandonPendingClaimBase c) = abs c.
Proof.
  unfold abandonPendingClaimBase. destruct (r_claimBaseAbandonOwed _); [done|]. rewrite abs_owe by done. by asimp.
Qed.

Lemma abs_attemptEnded c : abs (attemptEnded c) = abs c.
Proof.
  unfold attemptEnded. destruct (_ || _); [done|]. destruct (_ || _); [by asimp|].
  rewrite abs_owe by done. by asimp.
Qed.

Lemma abs_recordAttempt reason v c : abs (recordAttempt reason v c) = abs c.
Proof. unfold recordAttempt. by destruct (_ || _). Qed.

Lemma abs_freeWorkspaceMarker c : abs (freeWorkspaceMarker c) = abs c.
Proof. unfold freeWorkspaceMarker. apply abs_c_o. auto with still. Qed.

Lemma abs_cancelRun c : abs (cancelRun c) = abs c.
Proof.
  unfold cancelRun. destruct (r_cancelRun (c_r c)); [|done].
  rewrite (abs_still _ (c_o c)) by auto with still. by destruct c.
Qed.

Lemma abs_oweEndedCycle id ws w why c : abs (c <| c_o ::= oweEndedCycle id ws w why |>) = abs c.
Proof. apply abs_c_o. auto with still. Qed.

Lemma abs_oweRemoteRevocation c : abs (oweRemoteRevocation c).2 = abs c.
Proof. unfold oweRemoteRevocation. cbn [snd]. rewrite (abs_still _ (c_o c)) by auto with still. apply abs_eta. Qed.

Lemma abs_answered c : abs (answered c) = k_answered (abs c).
Proof. by destruct c. Qed.

Lemma abs_driveHold c : abs (driveHold c) = abs c.
Proof.
  unfold driveHold. destruct (negb _); [done|]. rewrite abs_spawn_other by done. by destruct c.
Qed.

Lemma abs_confirmDoneOwnership c : abs (confirmDoneOwnership c) = abs c.
Proof. unfold confirmDoneOwnership. rewrite abs_spawn_other by done. by destruct c. Qed.
End noise.

#[export] Hint Rewrite @abs_comment @abs_abandonPendingClaimBase @abs_attemptEnded @abs_recordAttempt
  @abs_freeWorkspaceMarker @abs_cancelRun @abs_oweEndedCycle @abs_driveHold @abs_confirmDoneOwnership
  @abs_oweProjection : abs.

(** ** The handlers *)

Ltac cond := match goal with |- abs (if ?b then _ else _) ∈ _ => destruct b eqn:? end.
Ltac cond_eq := match goal with |- abs (if ?b then _ else _) = _ => destruct b eqn:? end.
Ltac in_left := apply elem_of_app; left.
Ltac in_right := apply elem_of_app; right.
Ltac in_one := apply list_elem_of_singleton.

(** The record's mail is in order. *)
Definition Good (c : cell) : Prop := Wf (c_r c) (c_o c).

Lemma Good_op h `{!LocalOp h} c : Good c → Good (h c).
Proof. apply (l_wf _ _ (local_op c)). Qed.

Lemma Good_local c c' : Local c c' → Good c → Good c'.
Proof. intros H. apply (l_wf _ _ H). Qed.

Lemma Good_data c f : same_mail (c_r c) (f (c_r c)) → Good c → Good (c <| c_r ::= f |>).
Proof. intros H. apply Good_local. by apply (Local_data c c). Qed.

Ltac good := first [assumption | eapply Good_local; [|eassumption]; local].

(** The abstract conditions, on the record. *)
Lemma abs_conds c :
  k_releasing (abs c) = r_releasing (c_r c) ∧ k_handle (abs c) = negb (is_nil (r_handle (c_r c)))
  ∧ k_outcome (abs c) = negb (is_nil (r_outcome (c_r c))) ∧ k_closed (abs c) = r_eventsClosed (c_r c)
  ∧ k_quiet (abs c) = r_domainQuiet (c_r c) ∧ k_summarizing (abs c) = r_summarizing (c_r c)
  ∧ k_summarized (abs c) = r_summarized (c_r c) ∧ k_parkPending (abs c) = r_parkOnBudgetPending (c_r c)
  ∧ k_stopping (abs c) = r_stopping (c_r c) ∧ k_budgetStop (abs c) = r_budgetStop (c_r c)
  ∧ k_finishAfter (abs c) = r_finishAfterStop (c_r c) ∧ k_finish (abs c) = negb (is_nil (r_finish (c_r c)))
  ∧ k_suspended (abs c) = r_suspended (c_r c) ∧ k_gone (abs c) = r_gone (c_r c) || r_claimLost (c_r c)
  ∧ k_verifyRetry (abs c) = r_verifyRetry (c_r c) ∧ k_probing (abs c) = r_probeInFlight (c_r c)
  ∧ k_stopWait (abs c) = r_stopInFlight (c_r c) ∧ k_baseDispatch (abs c) = r_claimBaseDispatch (c_r c)
  ∧ k_approving (abs c) = r_approvalInFlight (c_r c) ∧ k_basing (abs c) = r_claimBaseInFlight (c_r c)
  ∧ k_epoch (abs c) = (0 <? r_claimEpoch (c_r c)) ∧ k_claimed (abs c) = r_claimVerified (c_r c)
  ∧ k_faulted (abs c) = r_epochFaulted (c_r c) ∧ k_draining (abs c) = o_draining (c_o c)
  ∧ k_pending (abs c) = r_pending (c_r c).
Proof. by repeat split. Qed.

(** Rewrites a handler of the control machine to conditions on the record, and exits and
    states of the record to the control state. *)
Ltac kc c :=
  let H := fresh in
  pose proof (abs_conds c) as H;
  repeat match type of H with
  | ?e ∧ ?rest => let H1 := fresh in destruct H as [H1 H]; try rewrite !H1; clear H1
  end;
  try rewrite !H; clear H; rewrite ?(abs_exiting c), ?(abs_orderedExit c);
  pose proof (abs_stage c) as H;
  repeat match type of H with
  | ?e ∧ ?rest => let H1 := fresh in destruct H as [H1 H]; try rewrite !H1; clear H1
  end;
  try rewrite !H; clear H.

Section handlers.
Context {T : GoTables}.

Lemma abs_release why c : abs (release why c) = k_release (abs c).
Proof.
  unfold release, k_release. kc c. destruct (r_releasing (c_r c)); [done|].
  unfold owe. rewrite abs_oweEffect. cbn [oe_what]. change (isExit effectRelease) with true. cbv iota.
  asimp. by aupd (λ v, v <| k_releasing := true |>).
Qed.

Lemma abs_oweDisposal f c : abs (oweDisposal f c) ∈ k_oweDisposal (abs c).
Proof.
  unfold oweDisposal, k_oweDisposal. destruct (_ || _); [in_left; by in_one|]. in_right. in_one.
  rewrite abs_owe by done. by aupd (λ v, v <| k_disposal := true |>).
Qed.

Lemma abs_maybe_dispose (b : bool) f c : abs (if b then c else oweDisposal f c) ∈ k_oweDisposal (abs c).
Proof. destruct b; [in_left; by in_one|apply abs_oweDisposal]. Qed.

Lemma abs_completeFailure c : abs (completeFailure c) ∈ k_oweDisposal (abs c).
Proof. apply abs_maybe_dispose. Qed.

Lemma abs_completeShutdown c : abs (completeShutdown c) ∈ k_oweDisposal (abs c).
Proof. apply abs_maybe_dispose. Qed.

Lemma abs_disposeRevoked keep c : abs (disposeRevoked keep c) ∈ k_oweDisposal (abs c).
Proof.
  unfold disposeRevoked. pose proof (abs_oweRemoteRevocation c) as H.
  destruct (oweRemoteRevocation c) as [owed c']. cbn in H. rewrite <- H. apply abs_maybe_dispose.
Qed.

Lemma abs_transitionCaused to reason cause c :
  to ∈ [StateQueued; StateClaimed; StatePreparing; StateRunning; StateVerifying; StateBackoff; StateDone;
        StateNeedsReview; StateFailed] →
  abs <$> transitionCaused to reason cause c = k_transition (stage_of to) (abs c).
Proof.
  intros Hto. unfold transitionCaused, k_transition. rewrite abs_Allowed by done.
  destruct (k_allowed _ _); [|done]. cbn [negb fmap option_fmap option_map].
  set (r := c_r c <| r_State := to |> <| r_UpdatedAt := _ |>). set (o := publish _ _). f_equal.
  assert (H : abs (MkCell r o) = abs c <| k_stage := stage_of to |>).
  { subst o. rewrite (abs_still _ (c_o c)) by (apply still_publish; done). by destruct c. }
  destruct (bool_decide _); [exact H|]. destruct (_ && _); [|by rewrite abs_oweProjection].
  unfold oweProjection. rewrite abs_oweEffect. exact H.
Qed.

(** A transition, on both sides at once. *)
Ltac transits :=
  match goal with
  | |- context [transitionCaused ?to ?reason ?cause ?c] =>
      let H := fresh in
      assert (H : abs <$> transitionCaused to reason cause c = k_transition (stage_of to) (abs c))
        by (apply abs_transitionCaused; repeat (first [left; reflexivity | right]));
      let s := eval vm_compute in (stage_of to) in change (stage_of to) with s in H;
      let E := fresh "Ht" in
      destruct (transitionCaused to reason cause c) as [?|] eqn:E; cbn [fmap option_fmap option_map] in H;
      rewrite <- H; clear H
  end.

Lemma abs_bump c f :
  Good c → r_token (f (c_r c)) = r_token (c_r c) →
  r_generation (f (c_r c)) = Z.succ (r_generation (c_r c)) →
  abs (c <| c_r ::= f |>)
  = k_bump (abs (c <| c_r ::= λ r, f r <| r_generation := r_generation r |> |>)).
Proof.
  intros Hw Ht Hg. unfold abs, k_bump. cbn.
  rewrite (stale_bump _ _ (f (c_r c) <| r_generation := r_generation (c_r c) |>) (f (c_r c)) Hw Ht) by (done || lia).
  unfold in_flight, pump. rewrite (mine_bound _ _ Hw (f (c_r c)) Ht) by lia. unfold is_current. done.
Qed.

Lemma abs_armTimer kind d c : abs (armTimer kind d c) = k_armTimer (abs c).
Proof.
  unfold armTimer. rewrite (abs_spawn TTimer) by done. rewrite (abs_still _ (c_o c)) by auto with still.
  by destruct c.
Qed.

Lemma abs_enterBackoff why cause c : Good c → abs (enterBackoff why cause c) = k_enterBackoff (abs c).
Proof.
  intros Hw. unfold enterBackoff, k_enterBackoff. transits; [|done].
  rewrite abs_armTimer. rewrite abs_bump; [|good|done..]. by aupd (λ v, v <| k_stopping := false |>).
Qed.

Lemma abs_enterFailed why cause c : abs (enterFailed why cause c) ∈ k_enterFailed (abs c).
Proof.
  unfold enterFailed, k_enterFailed. transits; [|by in_one].
  rewrite abs_release. apply list_elem_of_fmap. eexists. split; [reflexivity|].
  rewrite <- (abs_comment (MkMilestone MilestoneFailed "" (r_FailureReason (c_r c0)) false why) c0).
  apply abs_completeFailure.
Qed.

Lemma abs_enterNeedsReview why cause c : abs (enterNeedsReview why cause c) = k_enterNeedsReview (abs c).
Proof.
  unfold enterNeedsReview, k_enterNeedsReview. rewrite abs_orderedExit. destruct (k_ordered _); [done|].
  transits; [|done]. by asimp.
Qed.

Lemma abs_enterEpochFault why c : abs (enterEpochFault why c) = k_enterEpochFault (abs c).
Proof.
  unfold enterEpochFault, k_enterEpochFault. rewrite abs_enterNeedsReview.
  by aupd (λ v, v <| k_faulted := true |>).
Qed.

Lemma abs_recordAccount o reason r : abs (MkCell (recordAccount reason r) o) = abs (MkCell r o).
Proof. unfold recordAccount. repeat case_match; done. Qed.

Lemma abs_failAttempt reason retryable detail c :
  Good c → abs (failAttempt reason retryable detail c) ∈ k_failAttempt (abs c).
Proof.
  intros Hw. cbv beta delta [failAttempt k_failAttempt]. set (c1 := recordAttempt _ _ _).
  assert (H1 : abs c1 = abs c) by (subst c1; by asimp).
  assert (Hw1 : Good c1) by (subst c1; good). clearbody c1. cbv zeta. set (c2 := c1 <| c_r ::= _ |>).
  assert (H2 : abs c2 = abs c). { rewrite <- H1. subst c2. rewrite abs_noop; [done|]. intros. by rewrite abs_recordAccount. }
  assert (Hw2 : Good c2) by (subst c2; good). clearbody c2. rewrite <- H2.
  destruct (_ && _); [in_left|in_right; apply abs_enterFailed]. in_one. by apply abs_enterBackoff.
Qed.

Lemma abs_failLaunch err what retryable c :
  Good c → abs (failLaunch err what retryable c) ∈ k_failLaunch (abs c).
Proof.
  intros Hw. unfold failLaunch, k_failLaunch. destruct (credentialTransient err);
    [in_left; by apply abs_failAttempt|]. destruct (credentialParks err); [|in_left; by apply abs_failAttempt].
  in_right. in_one. unfold parkCredential. rewrite abs_enterNeedsReview. by asimp.
Qed.

Lemma abs_beginStop mode c :
  r_handle (c_r c) ≠ None → abs (beginStop mode c) = k_beginStop (abs c).
Proof.
  intros Hh. unfold beginStop, k_beginStop. kc c. destruct (r_stopInFlight (c_r c)); [done|].
  destruct (r_handle (c_r c)) as [h|] eqn:E; [|done]. rewrite (abs_spawn TStop) by done. by destruct c.
Qed.

(** Without a handle the confirmation goes through the loop's own channel. *)
Lemma abs_beginStops mode c : abs (beginStop mode c) ∈ k_beginStops (abs c).
Proof.
  destruct (r_handle (c_r c)) as [h|] eqn:E.
  - rewrite abs_beginStop by congruence. unfold k_beginStops. kc c. rewrite E, orb_true_r. by in_one.
  - unfold k_beginStops, k_beginStop, beginStop. kc c. rewrite E. cbn [is_nil negb]. rewrite orb_false_r.
    destruct (r_stopInFlight (c_r c)); [by in_one|]. destruct c as [r o].
    change (setf c_o ?f (MkCell r o)) with (MkCell r (f o)). unfold send_self.
    destruct (_ <? signalsDepth); [in_right|in_left]; in_one; [|done].
    rewrite (abs_inserted TStop _ o); [done| |done..]. by apply inserted_send.
Qed.

Lemma owesForget_exit r :
  owesForget r = true → existsb (λ eff, isExit (oe_what eff)) (r_owed r) = true.
Proof.
  unfold owesForget. intros (x & Hx & Hw)%existsb_exists. apply existsb_exists. exists x. split; [done|].
  apply bool_decide_eq_true_1 in Hw. unfold isExit. by rewrite Hw.
Qed.

Lemma k_exitOwed_set v : k_exitOwed v = true → v <| k_exitOwed := true |> = v.
Proof. destruct v. cbn. by intros ->. Qed.

Lemma abs_finishNow keep why c : abs (finishNow keep why c) ∈ k_finishNow (abs c).
Proof.
  cbv beta delta [finishNow k_finishNow]. set (c1 := attemptEnded c).
  assert (H1 : abs c1 = abs c) by (subst c1; by asimp). clearbody c1. cbv zeta.
  set (c2 := c1 <| c_r ::= _ |>). assert (H2 : abs c2 = abs c <| k_parkPending := false |>) by (by rewrite <- H1).
  clearbody c2. rewrite <- H2. clear H1 H2.
  set (c3 := abandonPendingClaimBase _). assert (H3 : abs c3 = abs c2) by (subst c3; by asimp). clearbody c3.
  rewrite <- H3. pose proof (abs_disposeRevoked keep c3) as H. apply list_elem_of_bind. eexists.
  split; [|exact H]. set (c4 := disposeRevoked keep c3). kc c4. destruct (_ || _).
  - in_one. destruct (owesForget (c_r c4)) eqn:Hf.
    + by rewrite (k_exitOwed_set (abs c4)) by apply (owesForget_exit _ Hf).
    + unfold owe. by rewrite abs_oweEffect.
  - in_one. apply abs_release.
Qed.

Lemma abs_stopAndFinish keep why c : abs (stopAndFinish keep why c) ∈ k_stopAndFinish (abs c).
Proof.
  cbv beta delta [stopAndFinish k_stopAndFinish]. set (c1 := c <| c_r ::= _ |>).
  assert (H1 : abs c1 = abs c <| k_finishAfter := true |>) by (by destruct c). clearbody c1. cbv zeta.
  rewrite <- H1. kc c1. destruct (r_handle (c_r c1)) as [h|] eqn:Hh; cbn [is_nil negb].
  - in_one. rewrite abs_beginStop by (cbn; congruence). by aupd (λ v, v <| k_stopping := true |>).
  - destruct (0 <? r_pending (c_r c1)); [|apply abs_finishNow]. in_one.
    by aupd (λ v, v <| k_finish := true |>).
Qed.

Lemma abs_or_finish c rest l :
  abs rest ∈ l →
  abs (match finishIfRequested c with Some c => c | None => rest end) ∈ k_or_finish (abs c) l.
Proof.
  intros Hl. unfold k_or_finish, finishIfRequested, k_finishIfRequested. kc c.
  destruct (r_finish (c_r c)) as [[keep why]|] eqn:Hf; cbn [is_nil negb orb]; [|done].
  destruct (0 <? r_pending (c_r c)); [done|]. set (c1 := c <| c_r ::= _ |>).
  assert (H1 : abs c1 = abs c <| k_finish := false |>) by (by destruct c).
  change (r_handle (c_r c)) with (r_handle (c_r c1)). clearbody c1. cbv zeta. rewrite <- H1. kc c1.
  destruct (r_handle (c_r c1)) as [h|] eqn:Hh; cbn [is_nil negb]; [|apply abs_finishNow].
  in_one. rewrite abs_beginStop by (cbn; congruence). by aupd (λ v, v <| k_stopping := true |>).
Qed.

Lemma abs_spawn_pending k j c :
  job_item (j (c_r c <| r_pending ::= Z.succ |>)) = Some (header_of (c_r c), IWork k) →
  abs (spawn_pending j c) = k_wait (k_more k (abs c)).
Proof. intros H. unfold spawn_pending. rewrite (abs_spawn k) by done. destruct c. by destruct k. Qed.

Lemma abs_beginApproval c : abs (beginApproval c) = k_beginApproval (abs c).
Proof.
  unfold beginApproval, k_beginApproval. kc c. destruct (_ || _); [done|].
  rewrite (abs_spawn_pending TApprove) by done. by aupd (λ v, v <| k_approving := true |>).
Qed.

Lemma leb_ltb z : (z <=? 0) = negb (0 <? z).
Proof. by rewrite Z.leb_antisym. Qed.

Lemma abs_beginClaimBase c : abs (beginClaimBase c) = k_beginClaimBase (abs c).
Proof.
  unfold beginClaimBase, k_beginClaimBase. kc c. rewrite leb_ltb. cbv zeta. destruct (_ || _); [done|].
  destruct (wk_endedCycles _); rewrite (abs_spawn_pending TBase) by done; by destruct c.
Qed.

Lemma abs_new_attempt o0 r o : abs (MkCell (new_attempt o0 r) o) = k_fresh (abs (MkCell r o)).
Proof.
  assert (Hm : same_mail r (new_attempt o0 r)) by (repeat split; lazy; reflexivity).
  unfold abs, in_flight, pump, is_current. cbn [c_r c_o]. rewrite !(mine_same _ _ _ Hm).
  destruct Hm as (-> & Hi & _).
  change (is_Identifier (r_Issue (new_attempt o0 r))) with (ident (new_attempt o0 r)). rewrite Hi.
  generalize (mine r (flying o)). intros m. by destruct r.
Qed.

Lemma abs_beginPrepare c : abs (beginPrepare c) = k_beginPrepare (abs c).
Proof.
  unfold beginPrepare, k_beginPrepare. kc c. destruct (o_draining _); [done|].
  assert (H1 : abs (c <| c_r ::= new_attempt (c_o c) |>) = k_fresh (abs c))
    by (rewrite <- (abs_eta c); apply abs_new_attempt).
  revert H1. generalize (c <| c_r ::= new_attempt (c_o c) |>). intros c1 <-.
  by rewrite (abs_spawn_pending TPrepare).
Qed.

Lemma abs_dropped c o' :
  flying o' = flying (c_o c) → o_draining o' = o_draining (c_o c) →
  o_records o' !! is_Identifier (r_Issue (c_r c)) = None → abs (MkCell (c_r c) o') = k_forget (abs c).
Proof.
  intros Hf Hd Hr. unfold abs, is_current, in_flight, pump, stale. cbn [c_r c_o]. by rewrite Hf, Hd, Hr.
Qed.

Lemma abs_forget c : abs (c <| c_o ::= forget (is_Identifier (r_Issue (c_r c))) |>) = k_forget (abs c).
Proof. apply abs_dropped; [done..|]. apply lookup_delete_eq. Qed.

Lemma abs_onClaimed verified err c : abs (onClaimed verified err c) ∈ k_onClaimed (abs c).
Proof.
  cbv beta delta [onClaimed k_onClaimed]. rewrite <- abs_answered. generalize (answered c). clear c. intros c.
  cbv zeta. apply abs_or_finish. destruct err as [e|]; [destruct (err_Is _ _)|destruct verified]; cbn [negb].
  - in_left. in_one. apply abs_forget.
  - in_right. in_left. in_one. apply abs_release.
  - in_right. in_right. in_one. rewrite abs_beginApproval. by aupd (λ v, v <| k_claimed := true |>).
  - in_left. in_one. apply abs_forget.
Qed.

Lemma abs_onApproved history approval labels principal err c :
  abs (onApproved history approval labels principal err c) ∈ k_onApproved (abs c).
Proof.
  cbv beta delta [onApproved k_onApproved]. set (c1 := answered c <| c_r ::= _ |>).
  assert (H1 : abs c1 = k_answered (abs c) <| k_approving := false |>)
    by (subst c1; rewrite <- abs_answered; by destruct c).
  clearbody c1. rewrite <- H1. cbv zeta. apply abs_or_finish. kc c1. destruct (_ || _); [by in_one|].
  destruct (err_Is err ErrIssueNotFound).
  { in_left. via (λ v, v <| k_gone := true |>). apply abs_finishNow. }
  in_right. destruct (negb (is_nil err)); [in_left; by in_one|]. in_right.
  destruct (checkApproval _ _ _) as [approved|e]; [|in_left; in_one; apply abs_enterNeedsReview].
  set (c2 := c1 <| c_r ::= pin approved |>). assert (H2 : abs c2 = abs c1) by (subst c2; by anoop).
  clearbody c2. rewrite <- H2. in_right. destruct (_ <=? 0) eqn:He; [in_left|in_right]; in_one.
  - apply abs_enterEpochFault.
  - rewrite abs_beginClaimBase. f_equal. rewrite leb_ltb in He. apply negb_false_iff in He.
    rewrite <- He. by destruct c2.
Qed.

Lemma abs_onClaimBaseBegun err cb cbErr read ok c :
  abs (onClaimBaseBegun err cb cbErr read ok c) ∈ k_onClaimBaseBegun (abs c).
Proof.
  cbv beta delta [onClaimBaseBegun k_onClaimBaseBegun]. set (c1 := answered c <| c_r ::= _ |>).
  assert (H1 : abs c1 = k_answered (abs c) <| k_basing := false |>)
    by (subst c1; rewrite <- abs_answered; by destruct c).
  clearbody c1. rewrite <- H1. cbv zeta. apply abs_or_finish.
  set (proceed := if bool_decide (r_State (c_r c1) = StateBackoff) then _ else _).
  assert (Hp : abs proceed ∈
    (if stage_eqb (k_stage (abs c1)) KBackoff then
       let v := abs c1 <| k_baseDispatch := false |> in
       match k_transition KPreparing v with None => [v] | Some v => [k_beginPrepare v] end
     else match k_transition KClaimed (abs c1) with None => [k_forget (abs c1)] | Some v => [v] end)).
  { subst proceed. kc c1. destruct (stage_eqb _ _).
    - cbv zeta. set (c2 := c1 <| c_r ::= _ |>).
      assert (H2 : abs c2 = abs c1 <| k_baseDispatch := false |>) by (by destruct c1).
      clearbody c2. rewrite <- H2. unfold transition. transits; in_one; [apply abs_beginPrepare|done].
    - unfold transition. transits; in_one; [by asimp|]. apply abs_forget. }
  clearbody proceed. kc c1. destruct (k_exiting (abs c1) || o_draining (c_o c1)); cbn [orb]; [by in_one|].
  destruct (negb _ && _) eqn:He; [destruct (read && _); by in_one|].
  assert (Hc : abs c1 ∈ either [abs c1] (either [k_enterEpochFault (abs c1)]
    (if stage_eqb (k_stage (abs c1)) KBackoff then
       let v := abs c1 <| k_baseDispatch := false |> in
       match k_transition KPreparing v with None => [v] | Some v => [k_beginPrepare v] end
     else match k_transition KClaimed (abs c1) with None => [k_forget (abs c1)] | Some v => [v] end)))
    by (in_left; by in_one).
  destruct (read && _); [done|].
  destruct (is_nil err); [in_right; by in_right|].
  destruct (err_Is _ _ && _); [done|]. destruct (negb (is_nil cbErr)); [in_right; in_left; in_one; apply abs_enterEpochFault|].
  destruct (claimBasePinsEpoch _ _); [in_right; by in_right|]. cond; [done|].
  in_right. in_left. in_one. apply abs_enterEpochFault.
Qed.

Lemma abs_onClaimProjected c : abs (onClaimProjected c) = k_onClaimProjected (abs c).
Proof.
  unfold onClaimProjected, k_onClaimProjected, transition. kc c. destruct (_ || _); [done|].
  transits; [apply abs_beginPrepare|done].
Qed.

Lemma abs_beginStart c : Good c → abs (beginStart c) ∈ k_beginStart (abs c).
Proof.
  intros Hw. cbv beta delta [beginStart k_beginStart]. kc c. destruct (o_draining _); [by in_one|]. cbv zeta.
  set (c1 := c <| c_r ::= _ |>). assert (H1 : abs c1 = abs c) by (subst c1; by anoop).
  assert (Hw1 : Good c1) by (subst c1; good). clearbody c1. rewrite <- H1.
  destruct (renderPrompt (c_r c1)) as [prompt|e]; [|in_left; by apply abs_failAttempt].
  destruct (abandonPendingClears _ _ _) as [clears waits]. in_right. in_one.
  by rewrite (abs_spawn_pending TStart), (abs_c_o c1).
Qed.

Lemma abs_onPrepared ws facts err cb cbErr c :
  Good c → abs (onPrepared ws facts err cb cbErr c) ∈ k_onPrepared (abs c).
Proof.
  intros Hw. cbv beta delta [onPrepared k_onPrepared]. rewrite <- abs_answered. cbv zeta.
  set (c1 := if bool_decide _ then _ else _).
  assert (H1 : abs c1 = abs (answered c)) by (subst c1; destruct (bool_decide _); [done|by anoop]).
  assert (Hw1 : Good c1) by (subst c1; good). clearbody c1. rewrite <- H1. apply abs_or_finish. kc c1.
  destruct (o_draining (c_o c1)); [in_one; by aupd (λ v, v <| k_suspended := true |>)|].
  destruct (negb (is_nil err)).
  - destruct (negb _); [in_left; in_one; apply abs_enterEpochFault|]. in_right. in_left. by apply abs_failLaunch.
  - destruct (_ || _); [in_left; in_one; apply abs_enterEpochFault|]. in_right. in_right.
    set (c2 := if _ : bool then _ else _).
    assert (H2 : abs c2 = abs c1) by (subst c2; destruct (_ && _); [by anoop|done]).
    assert (Hw2 : Good c2) by (subst c2; good). clearbody c2. rewrite <- H2. by apply abs_beginStart.
Qed.

Lemma abs_pumpRun h c : abs (pumpRun h c) = abs c <| k_open := true |>.
Proof.
  destruct c as [r o]. unfold pumpRun, fresh_name. cbn [c_r c_o].
  set (o1 := o <| o_fresh := o_fresh o + 1 |>). set (r1 := r <| r_cancelRun := _ |>). set (j := JPump _ _ _ _ _ _).
  assert (Hx : Inserted (header_of r1, IOpen) o1 (spawn j o1)) by by apply inserted_spawn.
  destruct (mine_inserted _ _ _ r1 Hx eq_refl) as (a & b & Ha & Hb).
  change (abs (MkCell r o)) with (abs (MkCell r1 o1)). unfold abs, is_current, in_flight, pump.
  cbn [c_r c_o]. rewrite (stale_inserted _ _ _ _ Hx eq_refl), Ha, Hb, !tally_app, !tally_cons, filter_app, filter_cons_True by done.
  replace (is_cons (filter (λ i, is_pump i = true) a ++ _)) with true by by destruct (filter _ a).
  reflexivity.
Qed.

Lemma abs_onStarted handle err c :
  is_nil handle = negb (is_nil err) → Good c → abs (onStarted handle err c) ∈ k_onStarted (abs c).
Proof.
  intros Hs Hw. cbv beta delta [onStarted k_onStarted]. rewrite <- abs_answered.
  assert (Hw1 : Good (answered c)) by good. revert Hw1. generalize (answered c). clear c Hw. intros c Hw. cbv zeta.
  destruct handle as [h|], err as [e|]; try discriminate; cbn [is_nil negb andb].
  - in_left. set (c1 := c <| c_r ::= _ |>).
    assert (H1 : abs c1 = abs c <| k_handle := true |>) by (by destruct c). clearbody c1. rewrite <- H1.
    apply abs_or_finish. kc c1. destruct (o_draining (c_o c1)).
    + in_one. rewrite abs_pumpRun. by destruct c1.
    + unfold transition. transits; in_one; [|done]. rewrite abs_pumpRun. by asimp.
  - in_right. set (c1 := freeWorkspaceMarker c). assert (H1 : abs c1 = abs c) by (subst c1; by asimp).
    assert (Hw1 : Good c1) by (subst c1; good). clearbody c1. rewrite <- H1. apply abs_or_finish.
    kc c1. destruct (o_draining (c_o c1)); [|by apply abs_failLaunch]. in_one.
    by aupd (λ v, v <| k_suspended := true |>).
Qed.

(** The mail of a run is empty exactly if its stream is not open. *)
Lemma pump_closed c : k_open (abs c) = false → pump (c_r c) (c_o c) = [].
Proof. cbn. by destruct (pump _ _). Qed.

Lemma Local_onStarted handle err c : k_open (abs c) = false → Local c (onStarted handle err c).
Proof.
  intros Ho. cbv beta delta [onStarted]. set (c1 := answered c).
  assert (L1 : Local c c1) by (subst c1; local).
  assert (O1 : k_open (abs c1) = false) by done. clearbody c1. cbv zeta.
  set (c2 := match handle with Some _ => _ | None => c1 end).
  assert (L2 : Local c c2) by (subst c2; local).
  assert (O2 : k_open (abs c2) = false) by (subst c2; destruct handle; done). clearbody c2.
  set (c3 := if _ : bool then _ else _).
  assert (L3 : Local c c3) by (subst c3; local).
  assert (O3 : k_open (abs c3) = false)
    by (subst c3; destruct (_ && _); [by rewrite abs_freeWorkspaceMarker|done]).
  clearbody c3. clear -L3 O3. destruct (finishIfRequested c3) as [c'|] eqn:Hf; [local|].
  destruct (o_draining (c_o c3)).
  - destruct handle as [h|]; [|local]. apply Local_pumpRun; [|local]. by apply pump_closed.
  - destruct (negb (is_nil err)); [local|].
    pose proof (abs_transitionCaused StateRunning (legal_reason StatePreparing StateRunning) "" c3
                  ltac:(repeat (first [left; reflexivity | right]))) as Ht. unfold transition.
    destruct (transitionCaused _ _ _ c3) as [c4|] eqn:E; [|local].
    destruct handle as [h|]; [|local]. apply Local_pumpRun; [|local]. apply pump_closed.
    unfold k_transition in Ht. destruct (k_allowed _ _); [|done]. apply (inj Some) in Ht.
    change (k_open (abs c4) = false). by rewrite Ht.
Qed.

Lemma abs_beginProbe c : abs (beginProbe c) = k_beginProbe (abs c).
Proof.
  unfold beginProbe, k_beginProbe. kc c. destruct (r_probeInFlight (c_r c)); [done|].
  destruct (r_handle (c_r c)) eqn:E; cbn [is_nil negb orb]; [|done].
  rewrite (abs_spawn TProbe) by done. by destruct c.
Qed.

Lemma abs_beginVerify c : abs (beginVerify c) = k_beginVerify (abs c).
Proof. unfold beginVerify. by rewrite (abs_spawn_pending TVerify). Qed.

Lemma abs_apply_held_outcome c : Good c → abs (apply_held_outcome c) ∈ k_applyHeld (abs c).
Proof.
  intros Hw. cbv beta delta [apply_held_outcome k_applyHeld k_ready]. kc c.
  destruct (r_outcome (c_r c)) as [out|] eqn:E; cbn [is_nil negb andb]; [|by in_one].
  destruct (r_eventsClosed (c_r c)), (r_domainQuiet (c_r c)); cbn [negb orb andb]; try by in_one.
  cbv zeta. set (c1 := c <| c_r ::= _ |>). assert (H1 : abs c1 = abs c <| k_outcome := false |>) by (by destruct c).
  assert (Hw1 : Good c1) by (subst c1; good). clearbody c1. rewrite <- H1.
  cond; [in_left; in_one; apply abs_beginVerify|in_right; by apply abs_failAttempt].
Qed.

Lemma abs_park_with_account c : abs (park_with_account c) = k_enterNeedsReview (abs c).
Proof.
  unfold park_with_account. rewrite abs_enterNeedsReview, abs_recordAttempt.
  rewrite abs_noop by (intros; by rewrite abs_recordAccount). by rewrite abs_attemptEnded.
Qed.

Lemma abs_resumeAfterAccount c : Good c → abs (resumeAfterAccount c) ∈ k_resume (abs c).
Proof.
  intros Hw. unfold resumeAfterAccount, k_resume. kc c. cond; [|by apply abs_apply_held_outcome].
  in_one. rewrite abs_park_with_account. by aupd (λ v, v <| k_parkPending := false |>).
Qed.

Lemma abs_beginSummary c : Good c → abs (beginSummary c) ∈ k_beginSummary (abs c).
Proof.
  intros Hw. unfold beginSummary, k_beginSummary. kc c. cond; [by in_one|]. cond; [in_left|in_right].
  - via (λ v, v <| k_summarized := true |>).
    apply abs_resumeAfterAccount. good.
  - in_one. rewrite (abs_spawn_pending TSummary) by done. by aupd (λ v, v <| k_summarizing := true |>).
Qed.

Lemma abs_parkOnBudget c : Good c → abs (parkOnBudget c) ∈ k_parkOnBudget (abs c).
Proof.
  intros Hw. unfold parkOnBudget, k_parkOnBudget. kc c. cond; [|in_one; apply abs_park_with_account].
  via (λ v, v <| k_parkPending := true |>).
  apply abs_beginSummary. good.
Qed.

Lemma abs_applyOutcome c : Good c → abs (applyOutcome c) ∈ k_applyOutcome (abs c).
Proof.
  intros Hw. unfold applyOutcome, k_applyOutcome, k_ready. kc c.
  destruct (r_outcome (c_r c)) as [out|] eqn:E; cbn [is_nil negb andb]; [|by in_one].
  destruct (r_eventsClosed (c_r c)), (r_domainQuiet (c_r c)); cbn [negb orb andb]; try by in_one.
  cond; [by apply abs_beginSummary|by apply abs_apply_held_outcome].
Qed.

Lemma abs_confirmQuiet c : Good c → abs (confirmQuiet c) ∈ k_confirmQuiet (abs c).
Proof.
  intros Hw. unfold confirmQuiet, k_confirmQuiet. kc c. rewrite negb_involutive.
  cond; [by in_one|]. destruct (r_handle (c_r c)) as [h|] eqn:E; cbn [is_nil negb].
  - cond; [in_left; in_one; apply abs_beginProbe|in_right; in_one; apply abs_beginStop; congruence].
  - set (c1 := freeWorkspaceMarker _). assert (H1 : abs c1 = abs c <| k_quiet := true |>)
      by (subst c1; rewrite abs_freeWorkspaceMarker; by destruct c).
    assert (Hw1 : Good c1) by (subst c1; good). clearbody c1. rewrite <- H1. by apply abs_applyOutcome.
Qed.

Lemma abs_quiet c : Good c → abs (quiet c) ∈ k_quieten (abs c).
Proof.
  intros Hw. cbv beta delta [quiet k_quieten]. set (c1 := freeWorkspaceMarker _).
  assert (H1 : abs c1 = abs c <| k_quiet := true |>) by (subst c1; rewrite abs_freeWorkspaceMarker; by destruct c).
  assert (Hw1 : Good c1) by (subst c1; good). clearbody c1. cbv zeta. rewrite <- H1.
  rewrite <- (abs_cancelRun c1). assert (Hw2 : Good (cancelRun c1)) by good. revert Hw2.
  generalize (cancelRun c1). intros c2 Hw2.
  via (λ v, v <| k_handle := false |>).
  apply abs_applyOutcome. good.
Qed.

Lemma abs_onRunEvent ev c : abs (onRunEvent ev c) ∈ k_onRunEvent (abs c).
Proof.
  cbv beta delta [onRunEvent k_onRunEvent]. set (c1 := match ev_Type ev with EventUsage => _ | _ => _ end).
  assert (H1 : abs c1 = abs c).
  { subst c1. destruct (ev_Type ev); try done. destruct (ev_Usage ev); [|done]. by anoop. }
  clearbody c1. rewrite <- H1. clear c H1. cbv zeta. kc c1. cond; [by in_one|].
  assert (Hn : abs c1 ∈ either [abs c1]
    (either (if r_stopping (c_r c1) || r_suspended (c_r c1) then [abs c1]
             else k_beginStops (abs c1 <| k_stopping := true |> <| k_budgetStop := true |>))
       (if r_stopping (c_r c1) then [abs c1]
        else either [abs c1 <| k_outcome := true |>]
               (match k_transition KVerifying (abs c1) with
                | None => [abs c1] | Some v => [v <| k_outcome := true |>] end)))) by (in_left; by in_one).
  destruct (ev_Type ev) eqn:Et; try done.
  - rewrite (abs_still _ (c_o c1)) by auto with still.
    match goal with |- abs ?x ∈ _ => replace (abs x) with (abs c1); [done|] end. by destruct (bool_decide _), c1.
  - cond; [done|]. cond; [|done]. in_right. in_left.
    assert (Hs : r_stopping (c_r c1) || r_suspended (c_r c1) = false)
      by (destruct (r_stopping _), (r_suspended _); rewrite ?andb_false_r in Heqb1; done).
    rewrite Hs.
    via (λ v, v <| k_stopping := true |> <| k_budgetStop := true |>). apply abs_beginStops.
  - cond; [done|]. in_right. in_right. in_right. unfold transition. transits; in_one; [|done].
    by aupd (λ v, v <| k_outcome := true |>).
  - cond; [done|]. in_right. in_right. in_left. in_one. by aupd (λ v, v <| k_outcome := true |>).
Qed.

Lemma abs_onEventsClosed saw c : Good c → abs (onEventsClosed saw c) ∈ k_onEventsClosed (abs c).
Proof.
  intros Hw. cbv beta delta [onEventsClosed k_onEventsClosed]. set (c1 := c <| c_r ::= _ |>).
  assert (H1 : abs c1 = abs c <| k_closed := true |>) by (by destruct c).
  assert (Hw1 : Good c1) by (subst c1; good). clearbody c1. rewrite <- H1. cbv zeta. kc c1.
  cond; [by in_one|]. destruct saw; [in_left; by apply abs_confirmQuiet|]. in_right. cond; [by in_one|].
  via (λ v, v <| k_outcome := true |>).
  apply abs_confirmQuiet. good.
Qed.

Lemma abs_onProbed probe c : Good c → abs (onProbed probe c) ∈ k_onProbed (abs c).
Proof.
  intros Hw. cbv beta delta [onProbed k_onProbed]. set (c1 := c <| c_r ::= _ |>).
  assert (H1 : abs c1 = abs c <| k_probing := false |>) by (by destruct c).
  assert (Hw1 : Good c1) by (subst c1; good). clearbody c1. rewrite <- H1. cbv zeta. kc c1.
  cond; [by in_one|]. cond; [in_left; by apply abs_confirmQuiet|]. in_right.
  cond; [in_left; by apply abs_quiet|in_right; by in_one].
Qed.

Lemma abs_finishSuspended c : abs (finishSuspended c) ∈ k_finishSuspended (abs c).
Proof.
  unfold finishSuspended, k_finishSuspended. kc c. destruct (r_domainQuiet (c_r c)); cbn [negb orb]; [|by in_one].
  cond; [in_left; by in_one|]. in_right. in_one. rewrite abs_attemptEnded, <- (abs_cancelRun c).
  by aupd (λ v, v <| k_handle := false |> <| k_outcome := false |>).
Qed.

Lemma abs_suspendStopped c : abs (suspendStopped c) ∈ k_finishSuspended (abs c <| k_quiet := true |>).
Proof.
  unfold suspendStopped. set (c1 := freeWorkspaceMarker _).
  assert (H1 : abs c1 = abs c <| k_quiet := true |>) by (subst c1; rewrite abs_freeWorkspaceMarker; by destruct c).
  clearbody c1. rewrite <- H1. apply abs_finishSuspended.
Qed.

Lemma abs_onHandleDone c : Good c → abs (onHandleDone c) ∈ k_onHandleDone (abs c).
Proof.
  intros Hw. cbv beta delta [onHandleDone k_onHandleDone]. set (c1 := c <| c_r ::= _ |>).
  assert (H1 : abs c1 = abs c) by (by destruct c).
  assert (Hw1 : Good c1) by (subst c1; good). clearbody c1. rewrite <- H1. cbv zeta. kc c1.
  cond; [apply abs_finishSuspended|by apply abs_confirmQuiet].
Qed.

Lemma abs_onStopped termination c : Good c → abs (onStopped termination c) ∈ k_onStopped (abs c).
Proof.
  intros Hw. cbv beta delta [onStopped k_onStopped]. set (c1 := c <| c_r ::= _ |>).
  assert (H1 : abs c1 = abs c <| k_stopWait := false |>) by (by destruct c).
  assert (Hw1 : Good c1) by (subst c1; good). clearbody c1. clear Hw. rewrite <- H1. cbv zeta. kc c1.
  generalize (bool_decide (termination = TerminationConfirmed)). intros confirmed.
  destruct confirmed; cbn [negb]; [in_right|in_left; destruct (r_suspended _); by in_one].
  destruct (r_suspended (c_r c1)); [apply abs_suspendStopped|].
  destruct (negb (k_exiting (abs c1))); [by apply abs_quiet|].
  set (c2 := freeWorkspaceMarker _).
  assert (H2 : abs c2 = abs c1 <| k_quiet := true |>) by (subst c2; rewrite abs_freeWorkspaceMarker; by destruct c1).
  assert (Hw2 : Good c2) by (subst c2; good).
  clearbody c2. rewrite <- H2, <- (abs_cancelRun c2).
  assert (Hw3 : Good (cancelRun c2)) by good. revert Hw3. generalize (cancelRun c2).
  clear c2 H2 Hw2. intros c3 Hw3. set (c4 := c3 <| c_r ::= _ |>).
  assert (H4 : abs c4 = abs c3 <| k_handle := false |> <| k_outcome := false |>) by (by destruct c3).
  assert (Hw4 : Good c4) by (subst c4; good). clearbody c4. rewrite <- H4. kc c4.
  set (c5 := c4 <| c_r ::= _ |>).
  assert (H5 : abs c5 = abs c4 <| k_stopping := false |> <| k_budgetStop := false |> <| k_finishAfter := false |>)
    by (by destruct c4).
  assert (Hw5 : Good c5) by (subst c5; good). clearbody c5. rewrite <- H5.
  cond; [by apply abs_parkOnBudget|]. set (c6 := recordAttempt _ _ _).
  assert (H6 : abs c6 = abs c5) by (subst c6; by asimp). clearbody c6. rewrite <- H6. kc c6.
  cond; [in_one; by aupd (λ v, v <| k_finish := true |>)|apply abs_finishNow].
Qed.

Lemma k_parkPending_set v : k_parkPending v = false → v <| k_parkPending := false |> = v.
Proof. destruct v. cbn. by intros ->. Qed.

Lemma abs_endAttemptSuspended c : abs (endAttemptSuspended c) = abs c <| k_parkPending := false |>.
Proof.
  unfold endAttemptSuspended. destruct (r_parkOnBudgetPending (c_r c)) eqn:E.
  - rewrite abs_recordAttempt, abs_attemptEnded. by destruct c.
  - rewrite (k_parkPending_set (abs c)) by done.
    destruct (match r_outcome (c_r c) with Some _ => _ | None => _ end) as [reason r] eqn:Er.
    rewrite abs_recordAttempt, abs_attemptEnded. replace r with (c_r c); [apply abs_eta|].
    repeat case_match; by simplify_eq.
Qed.

Lemma abs_onSummarized facts err c : Good c → abs (onSummarized facts err c) ∈ k_onSummarized (abs c).
Proof.
  intros Hw. cbv beta delta [onSummarized k_onSummarized]. set (c1 := answered c <| c_r ::= _ |>).
  assert (H1 : abs c1 = k_answered (abs c) <| k_summarizing := false |> <| k_summarized := true |>)
    by (subst c1; rewrite <- abs_answered; by destruct c).
  assert (Hw1 : Good c1) by (subst c1; good). clearbody c1. rewrite <- H1. cbv zeta.
  set (c2 := if is_nil err then _ else _).
  assert (H2 : abs c2 = abs c1) by (subst c2; destruct (is_nil err); [by anoop|done]).
  assert (Hw2 : Good c2) by (subst c2; good). clearbody c2. rewrite <- H2. apply abs_or_finish. kc c2.
  cond; [in_one; apply abs_endAttemptSuspended|by apply abs_resumeAfterAccount].
Qed.

Lemma abs_onVerified verify err fault detail failed c :
  Good c → abs (onVerified verify err fault detail failed c) ∈ k_onVerified (abs c).
Proof.
  intros Hw. cbv beta delta [onVerified k_onVerified]. rewrite <- abs_answered.
  assert (Hw1 : Good (answered c)) by good. revert Hw1. generalize (answered c). clear c Hw. intros c Hw. cbv zeta.
  apply abs_or_finish. kc c. cond; [by in_one|]. cond.
  { in_left. in_one. rewrite abs_enterEpochFault. by asimp. }
  in_right. cond; [in_left; via (λ v, v <| k_gone := true |>); apply abs_finishNow|]. in_right.
  do 3 (cond; [in_left; in_one; by aupd (λ v, v <| k_verifyRetry := true |>)|]). in_right.
  set (c1 := attemptEnded c). assert (H1 : abs c1 = abs c) by (subst c1; by asimp).
  assert (Hw1 : Good c1) by (subst c1; good). clearbody c1. set (c2 := c1 <| c_r ::= _ |>).
  assert (H2 : abs c2 = abs c) by (rewrite <- H1; apply abs_noop; intros; by rewrite abs_recordAccount).
  assert (Hw2 : Good c2) by (subst c2; good). clearbody c2. clear c1 Hw1 H1. rewrite <- H2.
  cond; [in_left; in_one; rewrite abs_enterNeedsReview; by asimp|].
  set (c3 := recordAttempt _ _ c2). assert (H3 : abs c3 = abs c2) by (subst c3; by asimp).
  assert (Hw3 : Good c3) by (subst c3; good). clearbody c3. rewrite <- H3.
  destruct (vr_Verdict verify).
  - in_left. in_one. apply abs_enterNeedsReview.
  - in_right. in_left. unfold transition. transits; [|by in_one].
    set (c4 := comment _ _). match goal with |- _ ∈ k_oweDisposal ?v => replace v with (abs c4) by (subst c4; by asimp) end.
    apply abs_oweDisposal.
  - cond; [in_left; in_one; apply abs_enterNeedsReview|]. in_right. in_right. in_one.
    rewrite abs_armTimer, abs_bump by done. do 2 f_equal.
  - in_left. in_one. apply abs_enterNeedsReview.
Qed.

Lemma abs_driveVerifyRetry c : abs (driveVerifyRetry c) = k_driveVerifyRetry (abs c).
Proof.
  unfold driveVerifyRetry, k_driveVerifyRetry. kc c. destruct (_ || _); [done|]. rewrite abs_beginVerify.
  by aupd (λ v, v <| k_verifyRetry := false |>).
Qed.

Lemma abs_onTimer kind c : abs (onTimer kind c) = k_onTimer (abs c).
Proof.
  unfold onTimer. rewrite (abs_spawn TTimer) by done. rewrite (abs_still _ (c_o c)) by auto with still.
  by destruct c.
Qed.

Lemma abs_rearm kind c : abs (rearm kind c) = k_armTimer (abs c).
Proof. apply abs_armTimer. Qed.

Lemma abs_onTimerFetched kind rev labels pr fresh hist appr cb cbErr mk mkErr err c :
  abs (onTimerFetched kind rev labels pr fresh hist appr cb cbErr mk mkErr err c) ∈ k_onTimerFetched (abs c).
Proof.
  unfold onTimerFetched, k_onTimerFetched. rewrite abs_exiting. cond; [by in_one|].
  cond; [in_left; in_one; apply abs_rearm|].
  cond; [in_right; in_left; via (λ v, v <| k_gone := true |>); apply abs_finishNow|].
  destruct err as [e|]; [in_left; in_one; apply abs_rearm|].
  destruct fresh as [fresh|]; [|in_left; in_one; apply abs_rearm].
  cond; [do 2 in_right; in_left; apply abs_finishNow|].
  cond; [do 2 in_right; in_left; apply abs_finishNow|].
  destruct (checkApproval _ _ _) as [approved|e]; [|do 3 in_right; in_left; in_one; apply abs_enterNeedsReview].
  set (c1 := if time_after _ _ then _ else _).
  assert (H1 : abs c1 = abs c) by (subst c1; destruct (time_after _ _); by asimp).
  clearbody c1. rewrite <- H1. kc c1. cond; [in_left; in_one; apply abs_rearm|]. cond.
  { do 4 in_right. in_left. destruct (stage_eqb _ _); [|in_one; apply abs_rearm].
    unfold transition. transits; in_one; [apply abs_rearm|done]. }
  cond; [do 5 in_right; in_left; in_one; apply abs_enterEpochFault|]. cond.
  { do 6 in_right. in_left.
    match goal with H : (r_claimEpoch _ =? 0) = true |- _ => apply Z.eqb_eq in H; rewrite H end.
    in_one. rewrite abs_beginClaimBase. f_equal.
    aupd (λ v, v <| k_epoch := 0 <? claimCycleAnchor hist pr |> <| k_baseDispatch := true |>).
    match goal with H : (claimCycleAnchor _ _ <=? 0) = false |- _ =>
      rewrite leb_ltb in H; apply negb_false_iff in H; by rewrite H end. }
  destruct (redispatch_gate _ _ _ _ _ _ _).
  - do 7 in_right. set (c2 := c1 <| c_r ::= _ |>).
    assert (H2 : abs c2 = abs c1) by (subst c2; apply abs_noop; by destruct (stage_eqb _ _)).
    clearbody c2. rewrite <- H2. unfold transition. transits; in_one; [apply abs_beginPrepare|done].
  - in_left. in_one. apply abs_rearm.
  - do 5 in_right. in_left. in_one. apply abs_enterEpochFault.
Qed.

(** *** After the run *)

Lemma readyToConvert_spec c :
  readyToConvert c = true →
  stage_eqb (k_stage (abs c)) KDone = true ∧ k_exiting (abs c) = false ∧ (k_pending (abs c) =? 0) = true
  ∧ is_current c = true.
Proof.
  unfold readyToConvert. kc c. rewrite !andb_true_iff, !negb_true_iff. tauto.
Qed.

(** What the hand-over comes to once its record is known to be ready. *)
Lemma k_onHandOver_ready v :
  stage_eqb (k_stage v) KDone = true → k_exiting v = false → (k_pending v =? 0) = true →
  k_onHandOver v = [v; k_forget v; k_release v].
Proof. unfold k_onHandOver. by intros -> -> ->. Qed.

Lemma abs_onHandOver_other v : v ∈ k_onHandOver v.
Proof. unfold k_onHandOver. case_match; [by in_one|]. in_left. by in_one. Qed.

Lemma abs_convertToHeld anchor rev c : abs (convertToHeld anchor rev c) = k_forget (abs c).
Proof. unfold convertToHeld. cbn [newToken]. apply abs_dropped; [done..|]. apply lookup_delete_eq. Qed.

Lemma abs_onClaimAnchor anchor sup aerr rev err c :
  abs (onClaimAnchor anchor sup aerr rev err c) ∈ k_onHandOver (abs c).
Proof.
  cbv beta delta [onClaimAnchor]. set (c1 := c <| c_r ::= _ |>). assert (H1 : abs c1 = abs c) by (by destruct c).
  clearbody c1. rewrite <- H1. clear c H1. cbv zeta. destruct (readyToConvert c1) eqn:Hr; cbn [negb];
    [|apply abs_onHandOver_other].
  destruct (readyToConvert_spec _ Hr) as (Hs & Hx & Hp & _). rewrite (k_onHandOver_ready _ Hs Hx Hp).
  assert (Hf : ∀ c', abs c' = abs c1 → ident (c_r c') = ident (c_r c1) →
    abs (c' <| c_o ::= forget (ident (c_r c1)) |>) ∈ [abs c1; k_forget (abs c1); k_release (abs c1)]).
  { intros c' H' Hi. apply elem_of_cons. right. apply elem_of_cons. left. rewrite <- H', <- Hi. apply abs_forget. }
  cond; [apply (Hf (c1 <| c_o ::= _ |>)); [by asimp|done]|].
  assert (Hn : abs c1 ∈ [abs c1; k_forget (abs c1); k_release (abs c1)]) by by left.
  cond; [done|]. cond; [by rewrite abs_confirmDoneOwnership|]. cond; [done|]. cond.
  { rewrite abs_release. apply elem_of_cons. right. apply elem_of_cons. right. in_one. by asimp. }
  cond; [by rewrite abs_confirmDoneOwnership|]. rewrite abs_convertToHeld. apply elem_of_cons. right. by left.
Qed.

Lemma abs_onDoneOwnership fresh err c : abs (onDoneOwnership fresh err c) ∈ k_onHandOver (abs c).
Proof.
  cbv beta delta [onDoneOwnership]. set (c1 := c <| c_r ::= _ |>). assert (H1 : abs c1 = abs c) by (by destruct c).
  clearbody c1. rewrite <- H1. clear c H1. cbv zeta. destruct (readyToConvert c1) eqn:Hr; cbn [negb];
    [|apply abs_onHandOver_other].
  destruct (readyToConvert_spec _ Hr) as (Hs & Hx & Hp & _). rewrite (k_onHandOver_ready _ Hs Hx Hp).
  set (c2 := match cycleEndedBy _ _ with Some _ => _ | None => c1 end).
  assert (H2 : abs c2 = abs c1) by (subst c2; destruct (cycleEndedBy _ _); by asimp).
  assert (Hi : ident (c_r c2) = ident (c_r c1)) by (subst c2; by destruct (cycleEndedBy _ _)).
  clearbody c2. rewrite <- H2. clear Hs Hx Hp H2.
  assert (Hf : abs (c2 <| c_o ::= forget (ident (c_r c1)) |>) ∈ [abs c2; k_forget (abs c2); k_release (abs c2)]).
  { apply elem_of_cons. right. apply elem_of_cons. left. rewrite <- Hi. apply abs_forget. }
  assert (Hn : abs c2 ∈ [abs c2; k_forget (abs c2); k_release (abs c2)]) by by left.
  cond; [done|]. destruct err; [done|]. destruct fresh as [fresh|]; [|done]. cond; [done|].
  do 2 (cond; [rewrite abs_release; apply elem_of_cons; right; apply elem_of_cons; right; by in_one|]). done.
Qed.

(** Dropping the effect that was just done. *)
Lemma abs_tail c f :
  (∀ r o, abs (MkCell (f r) o)
          = abs (MkCell r o) <| k_exitOwed := existsb (λ eff, isExit (oe_what eff)) (tail (r_owed r)) |>) →
  abs (c <| c_r ::= f |>) ∈ [abs c; abs c <| k_exitOwed := false |>]
  ∧ (∀ eff rest, r_owed (c_r c) = eff :: rest → isExit (oe_what eff) = false →
                 abs (c <| c_r ::= f |>) = abs c).
Proof.
  intros Hf. destruct c as [r o]. change (setf c_r f (MkCell r o)) with (MkCell (f r) o). rewrite Hf. cbn [c_r].
  destruct (r_owed r) as [|eff rest] eqn:E.
  - cbn. split; [by right; left|done].
  - cbn [tail]. split.
    + destruct (existsb _ rest) eqn:Ex; [|by right; left]. rewrite k_exitOwed_set; [by left|]. cbn.
      rewrite E. cbn. by rewrite Ex, orb_true_r.
    + intros ? ? [= <- <-] Hx. assert (Hk : k_exitOwed (abs (MkCell r o)) = existsb (λ eff, isExit (oe_what eff)) rest).
      { cbn. rewrite E. cbn. by rewrite Hx. }
      rewrite <- Hk. by destruct (abs (MkCell r o)).
Qed.

Lemma abs_onEffectDone what err c :
  (∃ eff rest, r_owed (c_r c) = eff :: rest ∧ oe_what eff = what) →
  abs (onEffectDone what err c) ∈ k_onEffectDone (abs c).
Proof.
  intros (eff & rest & Ho & <-). unfold onEffectDone, k_onEffectDone. set (c1 := c <| c_r ::= _ |>).
  assert (H1 : abs c1 = abs c) by (by destruct c).
  assert (Ho1 : r_owed (c_r c1) = eff :: rest) by done. clearbody c1. rewrite <- H1. clear c Ho H1.
  pose proof (abs_tail c1 (λ r, r <| r_owed ::= tail |> <| r_owedWriteFailed := false |>)) as Ht.
  destruct Ht as [Ht Hsame]; [done|]. set (c2 := c1 <| c_r ::= _ |>) in *.
  destruct err as [e|].
  - in_left. cond; [by rewrite abs_driveOwed|]. cond; left.
  - rewrite abs_driveHold, abs_driveOwed. unfold afterEffect. cond.
    + in_right. in_left. in_one. rewrite abs_onClaimProjected. rewrite (Hsame _ _ Ho1); [done|].
      apply bool_decide_eq_true_1 in Heqb. by rewrite Heqb.
    + cond; [|by in_left]. do 2 in_right.
      assert (Hx : k_exitOwed (abs c1) = true) by (cbn; rewrite Ho1; cbn; by rewrite Heqb0).
      rewrite Hx. rewrite (abs_forget c2). apply elem_of_cons in Ht as [->|Ht]; [by left|].
      apply list_elem_of_singleton in Ht as ->. by right; left.
Qed.

Lemma abs_onOwedConfirmed fresh err c :
  abs (onOwedConfirmed fresh err c) = abs c ∨
  abs (onOwedConfirmed fresh err c) ∈ k_stopAndFinish (abs c <| k_gone := true |>).
Proof.
  unfold onOwedConfirmed. set (c1 := c <| c_r ::= _ |>). assert (H1 : abs c1 = abs c) by (by destruct c).
  clearbody c1. rewrite <- H1. destruct (_ || _); [by left|]. destruct (gone _); [|by left]. right.
  rewrite abs_driveOwed. via (λ v, v <| k_gone := true |>). apply abs_stopAndFinish.
Qed.

Lemma abs_applyParked fresh cur usable c : Good c → abs (applyParked fresh cur usable c) ∈ k_applyParked (abs c).
Proof.
  intros Hw. cbv beta delta [applyParked k_applyParked]. cond; [in_left; apply abs_stopAndFinish|].
  cbv zeta. set (c1 := c <| c_r ::= adoptRouting fresh |>). assert (H1 : abs c1 = abs c) by (subst c1; by anoop).
  assert (Hw1 : Good c1) by (subst c1; good). clearbody c1. rewrite <- H1. in_right.
  cond; [in_left; by in_one|]. in_right. set (c2 := c1 <| c_r ::= restoreBudgets_ |>).
  assert (H2 : abs c2 = abs c1) by (by destruct c1). assert (Hw2 : Good c2) by (subst c2; good).
  clearbody c2. rewrite <- H2. kc c2. destruct (r_epochFaulted (c_r c2)); in_one; [|by apply abs_enterBackoff].
  rewrite abs_comment. unfold oweProjection. rewrite abs_oweEffect. cbn [oe_what].
  rewrite (abs_still _ (c_o c2)) by auto with still. by destruct c2.
Qed.

Lemma abs_markClaimLost r o : abs (MkCell (markClaimLost r) o) = abs (MkCell r o) <| k_gone := true |>.
Proof.
  unfold abs. cbn [c_r c_o]. change (r_claimLost (markClaimLost r)) with true. by rewrite orb_true_r.
Qed.

Lemma abs_onParkedConfirmed fresh settled err c :
  Good c → abs (onParkedConfirmed fresh settled err c) ∈ k_parked (abs c).
Proof.
  intros Hw. cbv beta delta [onParkedConfirmed k_parked]. set (c1 := c <| c_r ::= _ |>).
  assert (H1 : abs c1 = abs c) by (by destruct c). assert (Hw1 : Good c1) by (subst c1; good).
  clearbody c1. rewrite <- H1. cbv zeta. kc c1. destruct (_ || _); [by in_one|].
  assert (Hg : ∀ f keep why, (∀ r o, abs (MkCell (f r) o) = abs (MkCell r o) <| k_gone := true |>) →
    abs (stopAndFinish keep why (c1 <| c_r ::= f |>)) ∈
      either (k_stopAndFinish (abs c1 <| k_gone := true |>)) (k_applyParked (abs c1))).
  { intros f keep why Hf. in_left. rewrite <- (abs_upd (λ v, v <| k_gone := true |>) c1 f Hf).
    apply abs_stopAndFinish. }
  cond; [by apply Hg|].
  assert (Hn : abs c1 ∈ either (k_stopAndFinish (abs c1 <| k_gone := true |>)) (k_applyParked (abs c1)))
    by (in_right; in_right; in_left; by in_one).
  destruct err; [done|]. destruct fresh as [fresh|]; [|done].
  cond; [apply Hg, abs_markClaimLost|]. in_right. by apply abs_applyParked.
Qed.

Lemma abs_classifyParked w fresh cur c :
  Good c → k_exiting (abs c) = false → stage_eqb (k_stage (abs c)) KNeedsReview = true →
  abs (classifyParked w fresh cur c) ∈ k_parked (abs c).
Proof.
  intros Hw Hx Hs. unfold k_parked. rewrite Hx, Hs. in_right. by apply abs_applyParked.
Qed.

Lemma abs_reconcile_one res cur c : abs (reconcile_one res cur c) ∈ k_reconcile (abs c).
Proof.
  unfold reconcile_one, k_reconcile. kc c. destruct (_ || _); [by in_one|].
  cond; [in_left; via (λ v, v <| k_gone := true |>); apply abs_stopAndFinish|]. in_right.
  destruct res as [[fresh|] [e|]]; try (in_right; by in_one).
  do 2 (cond; [in_left; apply abs_stopAndFinish|]). in_right. in_one. by anoop.
Qed.

Lemma abs_retry_record c : Good c → abs (retry_record c) ∈ k_retry (abs c).
Proof.
  intros Hw. cbv beta delta [retry_record k_retry]. set (c1 := driveHold (driveOwed c)).
  assert (H1 : abs c1 = abs c) by (subst c1; by asimp). assert (Hw1 : Good c1) by (subst c1; good).
  clearbody c1. rewrite <- H1. cbv zeta. set (c2 := if _ && negb _ then _ else c1).
  assert (H2 : abs c2 = if k_stopping (abs c1) && k_handle (abs c1) then k_beginStop (abs c1) else abs c1).
  { subst c2. kc c1. destruct (r_stopping (c_r c1)), (r_handle (c_r c1)) eqn:E; cbn [andb is_nil negb]; try done.
    apply abs_beginStop. congruence. }
  assert (Hw2 : Good c2) by (subst c2; good). clearbody c2. rewrite <- H2. set (c3 := if _ && _ then _ else c2).
  assert (H3 : abs c3 = if stage_eqb (k_stage (abs c2)) KQueued && k_claimed (abs c2)
    then if k_epoch (abs c2) then k_beginClaimBase (abs c2) else k_beginApproval (abs c2) else abs c2).
  { subst c3. kc c2. cond_eq; [|done].
    destruct (_ <? _); [apply abs_beginClaimBase|apply abs_beginApproval]. }
  assert (Hw3 : Good c3) by (subst c3; good). clearbody c3. rewrite <- H3. set (c4 := if _ : bool then _ else c3).
  assert (H4 : abs c4 = if stage_eqb (k_stage (abs c3)) KBackoff && k_baseDispatch (abs c3) && k_epoch (abs c3)
    then k_beginClaimBase (abs c3) else abs c3).
  { subst c4. kc c3. cond_eq; [apply abs_beginClaimBase|done]. }
  assert (Hw4 : Good c4) by (subst c4; good). clearbody c4. rewrite <- H4. by apply abs_confirmQuiet.
Qed.

Lemma abs_shutdown_record c : abs (shutdown_record c) ∈ k_shutdown (abs c).
Proof.
  cbv beta delta [shutdown_record k_shutdown]. rewrite abs_orderedExit.
  destruct (k_ordered (abs c)); [in_one; by asimp|]. cbv zeta. set (c1 := c <| c_r ::= _ |>).
  assert (H1 : abs c1 = abs c <| k_suspended := true |>) by (by destruct c). clearbody c1. rewrite <- H1.
  set (c2 := if _ && _ then completeShutdown _ else c1).
  assert (H2 : abs c2 ∈ if negb (k_handle (abs c1)) && (k_pending (abs c1) =? 0)
                        then k_oweDisposal (abs c1) else [abs c1]).
  { subst c2. kc c1. rewrite negb_involutive. destruct (_ && _); [|by in_one].
    rewrite <- (abs_recordAttempt FailureKilled VerdictUnknown c1). apply abs_completeShutdown. }
  clearbody c2. apply list_elem_of_bind. exists (abs c2). split; [|exact H2].
  rewrite <- (abs_driveOwed c2). generalize (driveOwed c2). intros c3. in_one. kc c3.
  destruct (r_handle (c_r c3)) eqn:E; cbn [is_nil negb andb]; [|done].
  cond_eq; [|done]. apply abs_beginStop. congruence.
Qed.

Lemma abs_confirmOwedAbsence c : abs (confirmOwedAbsence c) = abs c.
Proof.
  unfold confirmOwedAbsence. destruct (r_owed (c_r c)); [done|]. rewrite abs_spawn_other by done. by destruct c.
Qed.

Lemma abs_confirmParkedAbsence c : abs (confirmParkedAbsence c) = abs c.
Proof. unfold confirmParkedAbsence. rewrite abs_spawn_other by done. by destruct c. Qed.

Lemma abs_retry_classify cur c : abs (retry_classify cur c) = abs c.
Proof. unfold retry_classify. destruct (_ || _); [done|]. rewrite abs_spawn_other by done. by destruct c. Qed.

Lemma abs_projectRecovery facts v c : abs (projectRecovery facts v c) = abs c.
Proof.
  unfold projectRecovery. destruct (negb _); [done|]. set (c1 := oweProjection _ _ c).
  assert (H1 : abs c1 = abs c) by (subst c1; by asimp). clearbody c1. rewrite <- H1.
  destruct (recoveryComment facts v (c_r c1)) as [m r] eqn:Hm.
  assert (Hr : abs (MkCell r (c_o c1)) = abs c1).
  { rewrite <- (abs_eta c1). unfold recoveryComment in Hm. repeat case_match; by simplify_eq. }
  destruct (v_milestone v); try done; by rewrite abs_comment.
Qed.
End handlers.
