(* ===== verification/OrchSystem.v ===== *)
(** * OrchSystem: the whole loop refines the control machine

    The invariant of the orchestrator ([Consistent]) and the simulation ([Sim]): in every step of the
    system the control state of each record makes steps of the machine of [OrchControl], and
    a record that appears starts in one of its initial states. *)

From S2P Require Import Prelude GoStd Update Core Template OrchState OrchRecover OrchRecord.
From S2P Require Import OrchApproval OrchPipeline OrchHeld OrchResume OrchLoop OrchControl.
From S2P Require Import OrchFrame OrchRefine.

(** ** The invariant *)

Record Consistent (o : Orchestrator) : Prop := {
  ok_heap t r : o_heap o !! t = Some r → r_token r = t ∧ t ≤ o_nextToken o ∧ Wf r o;
  ok_records id t : o_records o !! id = Some t → ∃ r, o_heap o !! t = Some r ∧ ident r = id;
  ok_named : o_records o !! "" = None;
  ok_mail x : x ∈ flying o → hd_token x.1 ≤ o_nextToken o;
  ok_signals : Forall signal_ok (o_signals o);
}.

(** The control state of a record. *)
Definition view (o : Orchestrator) (t : Z) : option ctl := (λ r, abs (MkCell r o)) <$> o_heap o !! t.

Definition Reach (o : Orchestrator) : Prop := ∀ t v, view o t = Some v → k_reach v.

Record Sim (o o' : Orchestrator) : Prop := {
  sim_old t v : view o t = Some v → ∃ v', view o' t = Some v' ∧ rtc k_step v v';
  sim_new t v' : view o t = None → view o' t = Some v' →
    ∃ v, v ∈ k_starts ∧ rtc k_step v v' ∧ (o_draining o = true → k_draining v = true);
  sim_draining : o_draining o = true → o_draining o' = true;
}.

#[export] Instance Sim_preorder : PreOrder Sim.
Proof.
  split.
  - intros o. split; [|congruence|done]. intros t v H. by exists v.
  - intros o1 o2 o3 [H1 N1 D1] [H2 N2 D2]. split; [| |auto].
    + intros t v Hv. destruct (H1 t v Hv) as (v' & Hv' & Hs). destruct (H2 t v' Hv') as (v'' & ? & ?).
      exists v''. split; [done|]. by etrans.
    + intros t v'' Hn Hv''. destruct (view o2 t) as [v'|] eqn:E.
      * destruct (N1 t v' Hn E) as (v & Hv & Hs & Hd). destruct (H2 t v' E) as (w & Hw & Hs').
        assert (w = v'') as -> by congruence. exists v. split_and!; [done|by etrans|done].
      * destruct (N2 t v'' E Hv'') as (v & Hv & Hs & Hd). exists v. split_and!; auto.
Qed.

Lemma Sim_reach o o' : Sim o o' → Reach o → Reach o'.
Proof.
  intros [Ho Hn _] HR t v' Hv'. destruct (view o t) as [v|] eqn:E.
  - destruct (Ho t v E) as (w & Hw & Hs). assert (w = v') as -> by congruence.
    eapply k_reach_steps; [by eapply HR|done].
  - destruct (Hn t v' E Hv') as (v & Hv & Hs & _). eapply k_reach_steps; [by apply k_reach_start|done].
Qed.

(** What a piece of the loop does to the system. *)
Definition Evo (o o' : Orchestrator) : Prop := Consistent o → Reach o → Consistent o' ∧ Sim o o'.

#[export] Instance Evo_preorder : PreOrder Evo.
Proof.
  split; [by intros o ? ?|]. intros o1 o2 o3 H1 H2 HO HR. destruct (H1 HO HR) as [HO2 S2].
  destruct (H2 HO2 (Sim_reach _ _ S2 HR)) as [HO3 S3]. split; [done|]. by etrans.
Qed.

Lemma view_Some o t v : view o t = Some v ↔ ∃ r, o_heap o !! t = Some r ∧ v = abs (MkCell r o).
Proof. unfold view. rewrite fmap_Some. naive_solver. Qed.

(** The same heap, and no change any record could see. *)
Lemma Evo_same o o' :
  (o_draining o = true → o_draining o' = true) →
  o_heap o' = o_heap o → o_nextToken o ≤ o_nextToken o' → o_records o' = o_records o →
  (∀ x, x ∈ flying o' → ∃ y, y ∈ flying o ∧ hd_token y.1 = hd_token x.1) →
  (Forall signal_ok (o_signals o) → Forall signal_ok (o_signals o')) →
  (∀ t r, o_heap o !! t = Some r → Wf r o → Wf r o') →
  (∀ t r, o_heap o !! t = Some r → Wf r o → r_token r = t → rtc k_step (abs (MkCell r o)) (abs (MkCell r o'))) →
  Evo o o'.
Proof.
  intros Hdr Hh Hn Hr Hf Hs Hw Hv HO HR. destruct HO as [Oh Or Oe Om Os]. split.
  - split.
    + intros t r. rewrite Hh. intros H. destruct (Oh t r H) as (? & ? & ?).
      split_and!; [done|lia|by eapply Hw].
    + intros id t. rewrite Hr, Hh. apply Or.
    + by rewrite Hr.
    + intros x Hx. destruct (Hf x Hx) as (y & Hy & <-). pose proof (Om y Hy). lia.
    + auto.
  - split; [| |done].
    + intros t v (r & H & ->)%view_Some. exists (abs (MkCell r o')).
      destruct (Oh t r H) as (? & ? & ?). split; [|by eapply Hv].
      apply view_Some. exists r. by rewrite Hh.
    + intros t v' Hv0 (r & H & ->)%view_Some. rewrite Hh in H. unfold view in Hv0. by rewrite H in Hv0.
Qed.

Lemma Evo_still o o' : Still o o' → Evo o o'.
Proof.
  intros Hst. pose proof Hst as [Hh Hn Hd Hr Hf Hs]. apply Evo_same; try done.
  - by rewrite Hd.
  - intros x. rewrite Hf. eauto.
  - by rewrite Hs.
  - intros t r _. by apply Wf_same.
  - intros t r _ _ _. by rewrite (abs_still r o o').
Qed.

(** ** One record *)

Lemma mine_others r o o' :
  to_token (r_token r) (flying o') = to_token (r_token r) (flying o) →
  mine r (flying o') = mine r (flying o).
Proof. intros H. by rewrite <- (mine_to_token r (flying o')), H, mine_to_token. Qed.

Lemma elem_of_to_token t m x : x ∈ to_token t m ↔ hd_token x.1 = t ∧ x ∈ m.
Proof. unfold to_token. by rewrite list_elem_of_filter. Qed.

Lemma Wf_others r o o' :
  to_token (r_token r) (flying o') = to_token (r_token r) (flying o) → Wf r o → Wf r o'.
Proof.
  intros H [Hb Hp Ho]. split.
  - intros x Hx Ht. apply Hb; [|done]. assert (Hx' : x ∈ to_token (r_token r) (flying o')) by by apply elem_of_to_token.
    rewrite H in Hx'. by apply elem_of_to_token in Hx' as [_ ?].
  - unfold pump. by rewrite (mine_others _ _ _ H).
  - unfold owed_mail. by rewrite H.
Qed.

(** The control state of another record does not change. *)
Lemma abs_others r o o' :
  to_token (r_token r) (flying o') = to_token (r_token r) (flying o) →
  o_draining o' = o_draining o → is_current (MkCell r o') = is_current (MkCell r o) →
  abs (MkCell r o') = abs (MkCell r o).
Proof.
  intros H Hd Hc. unfold abs, in_flight, pump, stale. cbn [c_r c_o].
  by rewrite (mine_others _ _ _ H), <- (stale_to_token r (flying o')), H, stale_to_token, Hd, Hc.
Qed.

(** [f] run on the record of token [t] after [o] became [o1], where only mail of that record
    was lost on the way: what is left to say is where the record's control state goes. *)
Lemma record_frame t f r o o1 :
  Consistent o → o_heap o !! t = Some r → o_heap o1 = o_heap o → o_nextToken o ≤ o_nextToken o1 →
  o_records o1 = o_records o → o_draining o1 = o_draining o →
  (∀ x, x ∈ flying o1 → x ∈ flying o) →
  (∀ u, u ≠ t → to_token u (flying o1) = to_token u (flying o)) →
  (Forall signal_ok (o_signals o) → Forall signal_ok (o_signals o1)) → Wf r o1 →
  let c := f (MkCell r o1) in
  Local (MkCell r o1) c → (is_current (MkCell r o) = true ∨ o_records (c_o c) = o_records o) →
  Consistent (on_record t f o1) ∧ view (on_record t f o1) t = Some (abs c)
  ∧ ∀ u, u ≠ t → view (on_record t f o1) u = view o u.
Proof.
  intros HO Hr Hh Hn Hrec Hdr Hsub Hoth Hsig Hwf. cbv zeta. intros HL Hcur. pose proof HO as [Oh Or Oe Om Os].
  destruct (Oh t r Hr) as (Ht & Htn & Hw).
  unfold on_record, deref. rewrite Hh, Hr. cbn [default from_option id]. cbv zeta in *. set (c := f (MkCell r o1)) in *.
  destruct HL as [Lt Li Lh Ln Ld Lr Lo Ls Lw]. cbn [c_r c_o] in *. rewrite Ht in *.
  assert (Hflt : flying (store_record t (c_r c) (c_o c)) = flying (c_o c)) by done.
  assert (Hoth' : ∀ u, u ≠ t → to_token u (flying (c_o c)) = to_token u (flying o)).
  { intros u Hu. rewrite Lo by done. by apply Hoth. }
  assert (Hother : ∀ u r', u ≠ t → o_heap o !! u = Some r' →
    abs (MkCell r' (store_record t (c_r c) (c_o c))) = abs (MkCell r' o)).
  { intros u r' Hu H. destruct (Oh u r' H) as (Hu' & _ & _).
    apply abs_others; [rewrite Hu'; exact (Hoth' u Hu)|cbn; congruence|].
    unfold is_current. cbn [c_r c_o]. change (o_records (store_record _ _ ?o)) with (o_records o).
    destruct Lr as [Lr|Lr]; rewrite Lr, Hrec; [done|].
    destruct (decide (is_Identifier (r_Issue r') = ident r)) as [E|E]; [|by rewrite lookup_delete_ne].
    rewrite E, lookup_delete_eq. destruct Hcur as [Hcur|Hcur]; [|by rewrite <- Hcur, Lr, Hrec, lookup_delete_eq].
    unfold is_current in Hcur. cbn in Hcur. apply bool_decide_eq_true_1 in Hcur.
    fold (ident r) in Hcur. rewrite Hcur. rewrite !bool_decide_eq_false_2; congruence. }
  split_and!.
  - split.
    + intros u r' H. cbn in H. apply lookup_insert_Some in H as [[<- <-]|[Hu H]].
      * split_and!; [done|cbn; lia|]. apply (Wf_same (c_r c) _ (c_o c)); [by repeat split|done|]. by apply Lw.
      * rewrite Lh, Hh in H. destruct (Oh u r' H) as (Hu' & Hun & Hwu). split_and!; [done|cbn; lia|].
        eapply Wf_others; [|exact Hwu]. rewrite Hu', Hflt. by apply Hoth'.
    + intros id u Hu. change (o_records (store_record _ _ ?o)) with (o_records o) in Hu.
      assert (Ho : o_records o !! id = Some u).
      { destruct Lr as [Lr|Lr]; rewrite Lr, Hrec in Hu; [done|]. by apply lookup_delete_Some in Hu as [_ ?]. }
      destruct (Or id u Ho) as (r' & Hr' & Hi). cbn. destruct (decide (u = t)) as [->|Hut].
      * exists (c_r c). rewrite lookup_insert_eq. split; [done|]. rewrite Li. congruence.
      * exists r'. rewrite lookup_insert_ne by done. rewrite Lh, Hh. done.
    + change (o_records (store_record _ _ ?o)) with (o_records o).
      destruct Lr as [Lr|Lr]; rewrite Lr, Hrec; [done|]. by apply lookup_delete_None; right.
    + intros x Hx. rewrite Hflt in Hx. cbn. destruct (decide (hd_token x.1 = t)) as [E|E]; [lia|].
      assert (Hx' : x ∈ to_token (hd_token x.1) (flying (c_o c))) by by apply elem_of_to_token.
      rewrite Hoth' in Hx' by done. apply elem_of_to_token in Hx' as [_ Hx']. pose proof (Om x Hx'). lia.
    + change (o_signals (store_record _ _ ?o)) with (o_signals o). auto.
  - apply view_Some. exists (c_r c). split; [cbn; by rewrite lookup_insert_eq|].
    rewrite <- (abs_eta c). symmetry. by apply abs_others.
  - intros u Hut. unfold view. cbn [o_heap store_record setf set_o_heap]. rewrite lookup_insert_ne, Lh, Hh by done.
    destruct (o_heap o !! u) as [r'|] eqn:E; [|done]. cbn. f_equal. by eapply Hother.
Qed.

Lemma on_record_draining f `{!LocalOp f} t o : o_draining (on_record t f o) = o_draining o.
Proof. unfold on_record. cbv zeta. exact (l_draining _ _ (local_op (h := f) (MkCell (deref t o) o))). Qed.

Lemma Evo_record t f r o o1 :
  o_heap o !! t = Some r → o_heap o1 = o_heap o → o_nextToken o ≤ o_nextToken o1 →
  o_records o1 = o_records o → o_draining o1 = o_draining o →
  (∀ x, x ∈ flying o1 → x ∈ flying o) →
  (∀ u, u ≠ t → to_token u (flying o1) = to_token u (flying o)) →
  (Forall signal_ok (o_signals o) → Forall signal_ok (o_signals o1)) → (Wf r o → Wf r o1) →
  (Consistent o → Reach o → Wf r o1 →
   let c := f (MkCell r o1) in
   Local (MkCell r o1) c ∧ (is_current (MkCell r o) = true ∨ o_records (c_o c) = o_records o)
   ∧ rtc k_step (abs (MkCell r o)) (abs c)) →
  Evo o (on_record t f o1).
Proof.
  intros Hr Hh Hn Hrec Hdr Hsub Hoth Hsig Hwf Hf HO HR.
  pose proof (Hwf (proj2 (proj2 (ok_heap _ HO t r Hr)))) as Hw. destruct (Hf HO HR Hw) as (HL & Hc & Hs).
  destruct (record_frame t f r o o1 HO Hr Hh Hn Hrec Hdr Hsub Hoth Hsig Hw HL Hc) as (HO' & Hv & Hvo).
  split; [done|]. assert (Hv0 : view o t = Some (abs (MkCell r o))) by (unfold view; by rewrite Hr).
  assert (Hd : o_draining (on_record t f o1) = o_draining o).
  { unfold on_record, deref. rewrite Hh, Hr. cbn [default from_option id]. rewrite <- Hdr. exact (l_draining _ _ HL). }
  split; [| |by rewrite Hd].
  - intros u v Hu. destruct (decide (u = t)) as [->|Hut]; [|exists v; by rewrite Hvo].
    rewrite Hv0 in Hu. injection Hu as <-. eauto.
  - intros u v' Hu Hv'. destruct (decide (u = t)) as [->|Hut]; [congruence|]. rewrite Hvo in Hv' by done. congruence.
Qed.

Lemma steps_next v v' : k_alive v = true → v' ∈ k_next v → rtc k_step v v'.
Proof. intros. by apply rtc_once, k_step_live. Qed.

(** *** A new record *)

(** [r] as allocated in [o1], before [f] is run on it. *)
Record Allocated (r : RunRecord) (o o1 : Orchestrator) : Prop := {
  al_token : r_token r = o_nextToken o + 1;
  al_heap : o_heap o1 = <[r_token r := r]> (o_heap o);
  al_next : o_nextToken o1 = r_token r;
  al_records : o_records o1 = <[ident r := r_token r]> (o_records o);
  al_draining : o_draining o1 = o_draining o;
  al_flying : flying o1 = flying o;
  al_signals : o_signals o1 = o_signals o;
}.

Lemma Wf_allocated r o o1 : Consistent o → Allocated r o o1 → Wf r o1.
Proof.
  intros HO [At Ah An Ar Ad Af As].
  assert (Hno : ∀ x, x ∈ flying o1 → hd_token x.1 ≠ r_token r).
  { intros x Hx E. rewrite Af in Hx. pose proof (ok_mail _ HO x Hx). lia. }
  assert (Hto : to_token (r_token r) (flying o1) = []).
  { destruct (to_token _ _) as [|x l] eqn:E; [done|]. assert (Hx : x ∈ x :: l) by left. rewrite <- E in Hx.
    apply elem_of_to_token in Hx as [H1 H2]. by destruct (Hno x). }
  split.
  - intros x Hx E. by destruct (Hno x).
  - unfold pump. rewrite <- mine_to_token, Hto. exists O, []. split; [done|]. by left.
  - left. unfold owed_mail. by rewrite Hto.
Qed.

(** A record that another one takes the place of must be queued still. *)
Definition replaceable (id : string) (o : Orchestrator) : Prop :=
  ∀ t r, o_records o !! id = Some t → o_heap o !! t = Some r → stage_eqb (k_stage (abs (MkCell r o))) KQueued = true.

Lemma Evo_new r f o o1 :
  LocalOp f → Allocated r o o1 → ident r ≠ "" → replaceable (ident r) o →
  (Good (MkCell r o1) → abs (f (MkCell r o1)) ∈ k_starts) →
  Evo o (on_record (r_token r) f o1).
Proof.
  intros HL HA Hne Hrep Hv HO HR. pose proof HA as [At Ah An Ar Ad Af As].
  pose proof (Wf_allocated _ _ _ HO HA) as Hw. destruct HO as [Oh Or Oe Om Os].
  assert (Hnone : o_heap o !! r_token r = None).
  { destruct (o_heap o !! r_token r) as [r'|] eqn:E; [|done]. destruct (Oh _ _ E) as (_ & ? & _). lia. }
  assert (HO1 : Consistent o1).
  { split.
    - intros t r' H. rewrite Ah in H. apply lookup_insert_Some in H as [[<- <-]|[Ht H]]; [split_and!; [done|lia|done]|].
      destruct (Oh t r' H) as (? & ? & ?). split_and!; [done|lia|by eapply Wf_same].
    - intros id t H. rewrite Ar in H. rewrite Ah. apply lookup_insert_Some in H as [[<- <-]|[Hid H]].
      + exists r. by rewrite lookup_insert_eq.
      + destruct (Or id t H) as (r' & Hr' & ?). exists r'. split; [|done]. rewrite lookup_insert_ne; [done|]. congruence.
    - by rewrite Ar, lookup_insert_ne.
    - intros x Hx. rewrite Af in Hx. pose proof (Om x Hx). lia.
    - by rewrite As. }
  assert (Hr1 : o_heap o1 !! r_token r = Some r) by (rewrite Ah; apply lookup_insert_eq).
  assert (Hc1 : is_current (MkCell r o1) = true).
  { unfold is_current. cbn. rewrite Ar. fold (ident r). rewrite lookup_insert_eq. by apply bool_decide_eq_true_2. }
  destruct (record_frame (r_token r) f r o1 o1) as (HO' & Hvt & Hvo); try done;
    [by left|]. split; [done|].
  assert (Hold : ∀ u r', o_heap o !! u = Some r' → o_heap o1 !! u = Some r' ∧ rtc k_step (abs (MkCell r' o)) (abs (MkCell r' o1))).
  { intros u r' H. destruct (Oh u r' H) as (Hu & Hle & _). split; [rewrite Ah, lookup_insert_ne by lia; done|].
    destruct (decide (ident r' = ident r)) as [E|E].
    - assert (Hd : abs (MkCell r' o1) = k_forget (abs (MkCell r' o))).
      { unfold abs, is_current, in_flight, pump, stale. cbn [c_r c_o]. rewrite Af, Ad, Ar. fold (ident r').
        rewrite E, lookup_insert_eq, bool_decide_eq_false_2; [done|]. intros [=]. lia. }
      rewrite Hd. destruct (k_alive (abs (MkCell r' o))) eqn:Hal.
      + apply steps_next; [done|]. unfold k_next, k_live. rewrite (Hrep u r'); [|..|done].
        * cbn [orb]. assert (k_forget (abs (MkCell r' o)) ∈ [k_forget (abs (MkCell r' o))]) by by left.
          rewrite !elem_of_app. tauto.
        * cbn in Hal. unfold is_current in Hal. cbn in Hal. apply bool_decide_eq_true_1 in Hal.
          fold (ident r') in Hal. congruence.
      + apply rtc_once, k_step_dead; done.
    - assert (Hd : abs (MkCell r' o1) = abs (MkCell r' o)); [|by rewrite Hd].
      apply abs_others; [by rewrite Af|done|]. unfold is_current. cbn [c_r c_o]. rewrite Ar.
      fold (ident r'). by rewrite lookup_insert_ne. }
  assert (Hdr : o_draining (c_o (f (MkCell r o1))) = o_draining o) by (rewrite (l_draining _ _ (HL _)); done).
  split; [| |by intros Hd; rewrite on_record_draining, Ad].
  - intros u v (r' & H & ->)%view_Some. destruct (Hold u r' H) as [H1 Hs]. exists (abs (MkCell r' o1)).
    split; [|done]. destruct (Oh u r' H) as (_ & Hle & _). rewrite Hvo by lia. apply view_Some. eauto.
  - intros u v' Hu Hv'. destruct (decide (u = r_token r)) as [->|Hut].
    + rewrite Hvt in Hv'. apply (inj Some) in Hv'. subst v'. eexists. split_and!; [by apply Hv|done|].
      intros Hd. change (o_draining (c_o (f (MkCell r o1))) = true). congruence.
    + rewrite Hvo in Hv' by done. apply view_Some in Hv' as (r' & H & _). rewrite Ah, lookup_insert_ne in H by done.
      unfold view in Hu. by rewrite H in Hu.
Qed.

(** ** Steps of the control machine *)

Ltac in_next := unfold k_next, k_live; rewrite !elem_of_app; tauto.

(** The handler of the answer of a worker. *)
Definition k_answer (k : tag) (v : ctl) : list ctl :=
  match k with
  | TClaim => k_onClaimed v
  | TApprove => k_onApproved v
  | TBase => k_onClaimBaseBegun v
  | TPrepare => k_onPrepared v
  | TStart => k_onStarted v
  | TSummary => k_onSummarized v
  | TVerify => k_onVerified v
  | TTimer => k_onTimerFetched v ++ [k_onTimer v]
  | TProbe => k_onProbed v
  | TStop => k_onStopped v
  end.

Lemma k_take_more (n : ctl → nat) `{!Setter n} f v :
  (∀ u, n (u <| n ::= S |>) = S (n u)) → (∀ u, (u <| n ::= S |>) <| n := n u |> = u) →
  k_take n f (v <| n ::= S |>) = f v.
Proof. intros H1 H2. unfold k_take. by rewrite H1, H2. Qed.

Lemma k_answer_next k v v' : v' ∈ k_answer k v → v' ∈ k_next (k_more k v).
Proof.
  intros H. unfold k_next, k_live. rewrite !elem_of_app.
  destruct k; cbn [k_more k_answer] in *; rewrite ?elem_of_app in H;
    rewrite ?k_take_more by (intros []; reflexivity); tauto.
Qed.

(** ** Loops over the records *)

Lemma Evo_foldl {A} (P : Orchestrator → Prop) (g : Orchestrator → A → Orchestrator) l o :
  (∀ o a, P o → Evo o (g o a) ∧ P (g o a)) → P o → Evo o (foldl g o l) ∧ P (foldl g o l).
Proof.
  intros Hg. revert o. induction l as [|a l IH]; intros o HP; [done|]. cbn.
  destruct (Hg o a HP) as [H1 HP1]. destruct (IH _ HP1) as [H2 HP2]. split; [|done]. by etrans.
Qed.

Section system.
Context {T : GoTables}.

(** A handler that only takes steps of the machine, wherever it is called. *)
Definition Handler (P : cell → Prop) (f : cell → cell) : Prop :=
  ∀ c, Good c → is_current c = true → P c → rtc k_step (abs c) (abs (f c)).

Lemma Evo_on_record P f `{!LocalOp f} id t o :
  Handler P f → o_records o !! id = Some t → (∀ r, o_heap o !! t = Some r → P (MkCell r o)) →
  Evo o (on_record t f o).
Proof.
  intros Hf Hid HP HO HR. destruct (ok_records _ HO id t Hid) as (r & Hr & Hi).
  destruct (ok_heap _ HO t r Hr) as (Ht & _).
  assert (Hc : is_current (MkCell r o) = true).
  { unfold is_current. cbn. unfold ident in Hi. rewrite Hi, Hid, Ht. by apply bool_decide_eq_true_2. }
  refine (Evo_record t f r o o Hr eq_refl _ eq_refl eq_refl _ _ _ _ _ HO HR); try done.
  intros _ _ Hw. cbv zeta. split_and!; [apply local_op|by left|]. apply Hf; [done|done|]. by apply HP.
Qed.


Lemma Evo_for_records f `{!LocalOp f} site o :
  Handler (λ c, o_draining (c_o c) = o_draining o) f → Evo o (for_records site f o).
Proof.
  intros Hf. unfold for_records.
  apply (Evo_foldl (λ o', o_draining o' = o_draining o) _ _ o); [|done].
  intros o' id Hd. destruct (o_records o' !! id) as [t|] eqn:E; [|done].
  split; [|by rewrite on_record_draining]. by eapply Evo_on_record.
Qed.

(** ** Handlers that are steps *)

Lemma Handler_noop P f : (∀ c, abs (f c) = abs c) → Handler P f.
Proof. intros H c _ _ _. by rewrite H. Qed.

Lemma Handler_next (P : cell → Prop) f :
  (∀ c, Good c → P c → abs (f c) ∈ k_next (abs c)) → Handler P f.
Proof. intros H c Hw Hc HP. apply steps_next; [exact Hc|]. by apply H. Qed.

Lemma Handler_driveVerifyRetry P : Handler P driveVerifyRetry.
Proof.
  apply Handler_next. intros c _ _. rewrite abs_driveVerifyRetry.
  assert (k_driveVerifyRetry (abs c) ∈ [k_driveVerifyRetry (abs c)]) by by left. in_next.
Qed.

Lemma Handler_retry_record P : Handler P retry_record.
Proof. apply Handler_next. intros c Hw _. pose proof (abs_retry_record c Hw). in_next. Qed.

Lemma Handler_reconcile_one P res cur : Handler P (reconcile_one res cur).
Proof. apply Handler_next. intros c _ _. pose proof (abs_reconcile_one res cur c). in_next. Qed.

Lemma Handler_shutdown_record : Handler (λ c, o_draining (c_o c) = true) shutdown_record.
Proof.
  apply Handler_next. intros c _ Hd. pose proof (abs_shutdown_record c). unfold k_next, k_live.
  change (k_draining (abs c)) with (o_draining (c_o c)). rewrite Hd, !elem_of_app. tauto.
Qed.

Lemma Evo_if (b : bool) o o1 o2 : (b = true → Evo o o1) → (b = false → Evo o o2) → Evo o (if b then o1 else o2).
Proof. destruct b; auto. Qed.

(** The daemon starts to drain. *)
Lemma Evo_draining o o' :
  o_heap o' = o_heap o → o_nextToken o' = o_nextToken o → o_records o' = o_records o →
  flying o' = flying o → o_signals o' = o_signals o → o_draining o' = true → Evo o o'.
Proof.
  intros Hh Hn Hr Hf Hs Hd. apply Evo_same; try done; [lia|rewrite Hf; eauto|by rewrite Hs| |].
  - intros t r _. by apply Wf_same.
  - intros t r _ _ _.
    assert (Ha : abs (MkCell r o') = abs (MkCell r o) <| k_draining := true |>).
    { unfold abs, is_current, in_flight, pump, stale. cbn [c_r c_o]. by rewrite Hf, Hr, Hd. }
    rewrite Ha. destruct (k_alive (abs (MkCell r o))) eqn:Hal.
    + apply steps_next; [done|]. apply elem_of_app. right. by left.
    + apply rtc_once, k_step_dead; try done.
Qed.

Lemma Evo_driveShutdown o : Evo o (driveShutdown o).
Proof.
  unfold driveShutdown. destruct (o_draining o) eqn:Hd; cbn [negb]; [|done].
  transitivity (for_records 10 shutdown_record o).
  - apply Evo_for_records; [apply _|]. intros c Hw Hc H. apply Handler_shutdown_record; [done..|congruence].
  - cbv zeta. destruct (negb _); [done|]. by apply Evo_still.
Qed.

Lemma Evo_onShutdown waiter o : Evo o (onShutdown waiter o).
Proof.
  unfold onShutdown. cbv zeta. etrans; [|apply Evo_driveShutdown]. cbn.
  destruct (o_draining o); [by apply Evo_still|]. by apply Evo_draining.
Qed.

(** ** Records that appear and disappear *)

Lemma in_starts v : existsb (ctl_eqb v) k_starts = true → v ∈ k_starts.
Proof. intros (w & Hw & ->%ctl_eqb_eq)%existsb_exists. by apply list_elem_of_In. Qed.

Definition k_born (s : stage) (epoch draining : bool) : ctl :=
  k_start <| k_stage := s |> <| k_epoch := epoch |> <| k_draining := draining |>.

Lemma mine_allocated r o o1 : Consistent o → Allocated r o o1 → mine r (flying o1) = [].
Proof.
  intros HO HA. unfold mine. destruct (filter _ (flying o1)) as [|x l] eqn:E; [done|].
  assert (Hx : x ∈ x :: l) by left. rewrite <- E in Hx. apply list_elem_of_filter in Hx as [[H1 _] Hx].
  rewrite (al_flying _ _ _ HA) in Hx. pose proof (ok_mail _ HO x Hx). rewrite (al_token _ _ _ HA) in H1. lia.
Qed.

Lemma stale_allocated r o o1 : Consistent o → Allocated r o o1 → stale r o1 = O.
Proof.
  intros HO HA. unfold stale, stale_in. destruct (filter _ (flying o1)) as [|x l] eqn:E; [done|].
  assert (Hx : x ∈ x :: l) by left. rewrite <- E in Hx. apply list_elem_of_filter in Hx as [[[Ht _] _] Hx].
  rewrite (al_flying _ _ _ HA) in Hx. pose proof (ok_mail _ HO x Hx). rewrite Ht, (al_token _ _ _ HA) in *. lia.
Qed.

Lemma current_allocated r o o1 : Allocated r o o1 → is_current (MkCell r o1) = true.
Proof.
  intros HA. unfold is_current. cbn. rewrite (al_records _ _ _ HA). fold (ident r).
  rewrite lookup_insert_eq. by apply bool_decide_eq_true_2.
Qed.

(** What the control state shows of a record beside its state, its claim epoch and whether it
    waits for classification. *)
Definition shown (r : RunRecord) :=
  ((is_nil (r_handle r), is_nil (r_outcome r), r_eventsClosed r, r_domainQuiet r, r_summarizing r,
    r_summarized r, r_parkOnBudgetPending r, r_stopping r, r_budgetStop r, r_finishAfterStop r,
    is_nil (r_finish r), r_suspended r),
   (r_gone r || r_claimLost r, r_releasing r, existsb (λ eff, isExit (oe_what eff)) (r_owed r), r_verifyRetry r,
    r_probeInFlight r, r_stopInFlight r, r_claimBaseDispatch r, r_approvalInFlight r, r_claimBaseInFlight r,
    r_claimVerified r, r_epochFaulted r, r_disposalOwed r, r_pending r)).

Lemma abs_allocated d r o o1 :
  Consistent o → Allocated r o o1 → shown r = shown (zero_record d) →
  abs (MkCell r o1)
  = k_born (stage_of (r_State r)) (0 <? r_claimEpoch r) (o_draining o) <| k_unclassified := r_unclassified r |>.
Proof.
  intros HO HA Hs. pose proof (mine_allocated _ _ _ HO HA) as Hm. pose proof (current_allocated _ _ _ HA) as Hc.
  pose proof (al_draining _ _ _ HA) as Hd. unfold abs, in_flight, pump. rewrite Hc. cbn [c_r c_o].
  rewrite Hm, Hd, (stale_allocated _ _ _ HO HA). unfold shown in Hs. cbn [is_nil zero_record] in Hs.
  injection Hs as -> -> -> -> -> -> -> -> -> -> -> -> -> -> -> -> -> -> -> -> -> -> -> -> ->. done.
Qed.

(** The record of a fresh claim, and the orchestrator that holds a new record. *)
Definition claimed_record (issue : Issue) (cur : snapshot) (token : Z) (o : Orchestrator) : RunRecord :=
  zero_record (sn_Definition cur)
    <| r_Issue := issue |> <| r_State := StateQueued |> <| r_Attempt := 1 |>
    <| r_UpdatedAt := o_clock o |> <| r_token := token |> <| r_instance := cf_Instance (o_cfg o) |>.

Definition with_record (id : string) (token : Z) (r : RunRecord) (o : Orchestrator) : Orchestrator :=
  publish r (o <| o_nextToken := token |> <| o_records ::= <[id := token]> |>).

Lemma Allocated_with id token r o :
  r_token r = token → ident r = id → token = o_nextToken o + 1 →
  Allocated r o (store_record token r (with_record id token r o)).
Proof. intros <- <- H. by split. Qed.

Lemma deref_store t r o : deref t (store_record t r o) = r.
Proof. unfold deref. cbn. by rewrite lookup_insert_eq. Qed.

Lemma store_store t r r' o : store_record t r' (store_record t r o) = store_record t r' o.
Proof.
  transitivity (o <| o_heap := <[t := r']> (<[t := r]> (o_heap o)) |>); [done|]. by rewrite insert_insert_eq.
Qed.

Lemma beginClaim_eq issue cur o :
  let token := o_nextToken o + 1 in
  let r := claimed_record issue cur token (o <| o_nextToken := token |>) in
  beginClaim issue cur o
  = on_record token (spawn_pending (λ r, JClaim (header_of r) issue))
      (store_record token r (with_record (is_Identifier issue) token r o)).
Proof.
  cbv zeta. set (token := o_nextToken o + 1).
  unfold beginClaim, newToken. cbv beta zeta iota. fold token.
  fold (claimed_record issue cur token (o <| o_nextToken := token |>)).
  set (r := claimed_record issue cur token _). unfold on_record. rewrite deref_store. cbv zeta.
  fold (with_record (is_Identifier issue) token r o). generalize (with_record (is_Identifier issue) token r o).
  intros o1. unfold spawn_pending. cbv zeta. cbn [c_r c_o]. generalize (r <| r_pending ::= Z.succ |>). intros r'.
  change (spawn ?j (store_record token r o1)) with (store_record token r (spawn j o1)). by rewrite store_store.
Qed.

Lemma abs_spawn_claim issue c :
  abs (spawn_pending (λ r, JClaim (header_of r) issue) c) = k_wait (k_more TClaim (abs c)).
Proof. by rewrite (abs_spawn_pending TClaim). Qed.

Lemma Evo_beginClaim issue cur o :
  named issue → replaceable (is_Identifier issue) o → Evo o (beginClaim issue cur o).
Proof.
  intros Hn Hrep HO HR. rewrite beginClaim_eq. cbv zeta. set (token := o_nextToken o + 1).
  set (r := claimed_record issue cur token _). set (o1 := store_record _ _ _).
  assert (HA : Allocated r o o1) by by apply Allocated_with.
  refine (Evo_new r _ o o1 _ HA Hn Hrep _ HO HR).
  - intros c. apply Local_spawn_pending; [|done]. right. by eexists.
  - intros Hw. rewrite abs_spawn_claim.
    rewrite (abs_allocated (sn_Definition cur) r o) by done. apply in_starts.
    change (stage_of (r_State r)) with KQueued. change (r_claimEpoch r) with 0.
    change (r_unclassified r) with false. destruct (o_draining o); vm_compute; reflexivity.
Qed.

Lemma Evo_forget id o :
  (∀ t r, o_records o !! id = Some t → o_heap o !! t = Some r →
     stage_eqb (k_stage (abs (MkCell r o))) KQueued || r_unclassified r = true) →
  Evo o (forget id o).
Proof.
  intros Hq HO HR. pose proof HO as [Oh Or Oe Om Os].
  assert (Hv : ∀ t r, o_heap o !! t = Some r → rtc k_step (abs (MkCell r o)) (abs (MkCell r (forget id o)))).
  { intros t r H. destruct (Oh t r H) as (Ht & _).
    destruct (decide (ident r = id)) as [<-|Hi].
    - assert (Hd : abs (MkCell r (forget (ident r) o)) = k_forget (abs (MkCell r o)))
        by (apply (abs_dropped (MkCell r o)); [done..|apply lookup_delete_eq]).
      rewrite Hd. destruct (k_alive (abs (MkCell r o))) eqn:Hal; [|by apply rtc_once, k_step_dead].
      apply steps_next; [done|]. cbn in Hal. unfold is_current in Hal. cbn in Hal.
      apply bool_decide_eq_true_1 in Hal. rewrite Ht in Hal. fold (ident r) in Hal.
      assert (k_forget (abs (MkCell r o)) ∈ [k_forget (abs (MkCell r o))]) by by left.
      unfold k_next, k_live. change (k_unclassified (abs (MkCell r o))) with (r_unclassified r).
      rewrite (Hq t r Hal H), !elem_of_app. tauto.
    - rewrite (abs_others r o (forget id o)); [done..|]. unfold is_current. cbn [c_r c_o forget o_records setf set_o_records set_o_published].
      fold (ident r). by rewrite lookup_delete_ne. }
  split.
  - split; [|intros i t H| |done|done].
    + intros t r H. destruct (Oh t r H) as (? & ? & ?). split_and!; [done..|by apply (Wf_same r r o)].
    + cbn in H. apply lookup_delete_Some in H as [_ H]. by apply Or.
    + by apply lookup_delete_None; right.
  - split; [| |done].
    + intros t v (r & H & ->)%view_Some. exists (abs (MkCell r (forget id o))). split; [|by eapply Hv].
      apply view_Some. by exists r.
    + intros t v' Hn (r & H & ->)%view_Some. unfold view in Hn. change (o_heap (forget id o)) with (o_heap o) in H.
      by rewrite H in Hn.
Qed.

Lemma replaceable_none id o : o_records o !! id = None → replaceable id o.
Proof. intros H t r Ht. congruence. Qed.

(** *** Adoption *)

Definition unclassified_record (issue : Issue) (cur : snapshot) (token : Z) (o : Orchestrator) : RunRecord :=
  zero_record (sn_Definition cur)
    <| r_Issue := issue |> <| r_State := StateQueued |> <| r_UpdatedAt := o_clock o |>
    <| r_token := token |> <| r_recovered := true |> <| r_unclassified := true |>.

Lemma on_record_id t r o : on_record t (λ c, c) (store_record t r o) = store_record t r o.
Proof. unfold on_record. rewrite deref_store. cbn [c_r c_o]. apply store_store. Qed.

Lemma Evo_adoptUnclassified issue cur o :
  named issue → o_records o !! is_Identifier issue = None → Evo o (adoptUnclassified issue cur o).
Proof.
  intros Hne Hn HO HR. unfold adoptUnclassified, newToken. cbv beta zeta iota.
  set (token := o_nextToken o + 1). set (o0 := o <| o_nextToken := token |>).
  fold (unclassified_record issue cur token o0).
  change (store_record token (unclassified_record issue cur token o0) _)
    with (store_record token (unclassified_record issue cur token o0)
            (with_record (is_Identifier issue) token (unclassified_record issue cur token o0) o)).
  set (r := unclassified_record issue cur token o0). rewrite <- on_record_id.
  set (o1 := store_record token r _).
  assert (HA : Allocated r o o1) by by apply Allocated_with.
  refine (Evo_new r _ o o1 _ HA Hne (replaceable_none _ _ Hn) _ HO HR); [by intros c|].
  intros Hw.
  rewrite (abs_allocated (sn_Definition cur) r o) by done. apply in_starts.
  change (stage_of (r_State r)) with KQueued. change (r_claimEpoch r) with 0.
  change (r_unclassified r) with true. destruct (o_draining o); vm_compute; reflexivity.
Qed.

Lemma adoptRecovered_spec issue facts v cur state o :
  ∃ r o', adoptRecovered issue facts v cur state o = (o_nextToken o + 1, store_record (r_token r) r o')
  ∧ Allocated r o (store_record (r_token r) r o') ∧ r_token r = o_nextToken o + 1
  ∧ r_State r = state ∧ ident r = is_Identifier issue ∧ shown r = shown (zero_record (sn_Definition cur))
  ∧ r_unclassified r = false.
Proof.
  unfold adoptRecovered, newToken. cbv beta zeta iota. set (r0 := zero_record _ <| _ := _ |> <| _ := _ |> <| _ := _ |>
    <| _ := _ |> <| _ := _ |> <| _ := _ |> <| _ := _ |> <| _ := _ |> <| _ := _ |>).
  set (r := if 2 <=? v_attemptFloor v then _ else r0).
  assert (Hr : r_token r = o_nextToken o + 1 ∧ r_State r = state ∧ ident r = is_Identifier issue
    ∧ shown r = shown (zero_record (sn_Definition cur)) ∧ r_unclassified r = false)
    by (subst r; destruct (_ <=? _); by repeat split).
  clearbody r. destruct Hr as (H1 & H2 & H3 & H4 & H5). eexists r, _.
  split; [by rewrite <- H1|]. split_and!; try done. by split; cbn; rewrite ?H1, ?H3.
Qed.

Definition starts_from (f : cell → cell) (s : stage) : Prop :=
  ∀ c e d, abs c = k_born s e d → Good c → abs (f c) ∈ k_starts.

Lemma Evo_adoptRecovered issue facts v cur state f o :
  LocalOp f → named issue → o_records o !! is_Identifier issue = None → starts_from f (stage_of state) →
  Evo o (let '(t, o) := adoptRecovered issue facts v cur state o in on_record t f o).
Proof.
  intros HL Hne Hn Hf HO HR. destruct (adoptRecovered_spec issue facts v cur state o)
    as (r & o' & -> & HA & Ht & Hs & Hi & Hsh & Hu). rewrite <- Ht.
  refine (Evo_new r f o _ HL HA _ _ _ HO HR); [by rewrite Hi|apply replaceable_none; by rewrite Hi|].
  intros Hw. eapply Hf; [|exact Hw].
  rewrite (abs_allocated (sn_Definition cur) r o) by done. by rewrite Hs, Hu.
Qed.

(** The outcomes of a handler of a new record are among the initial states. *)
Ltac starting := apply in_starts; repeat match goal with b : bool |- _ => destruct b end; vm_compute; reflexivity.
Ltac started H := match type of H with ?x ∈ _ => revert H; generalize x; intros ? H;
    repeat (apply elem_of_cons in H as [->|H]; [starting|]); by apply not_elem_of_nil in H end.

Lemma disposal_in v w : v ∈ k_oweDisposal w → v ∈ [w; w <| k_disposal := true |>].
Proof. done. Qed.

Lemma Evo_applyRecovery issue facts v cur o :
  named issue → o_records o !! is_Identifier issue = None → Evo o (applyRecovery issue facts v cur o).
Proof.
  intros Hne Hn. unfold applyRecovery. cbv zeta.
  destruct (v_action v); try (by apply Evo_adoptUnclassified);
    try (apply Evo_adoptRecovered; [intros c; local|done|done|intros c e d Hc Hw]).
  - rewrite abs_projectRecovery. aupd (λ v, v <| k_unclassified := true |>). rewrite Hc. starting.
  - rewrite abs_beginApproval, abs_projectRecovery. aupd (λ v, v <| k_claimed := true |>). rewrite Hc. starting.
  - unfold resumeRecoveredBackoff. set (c1 := projectRecovery facts v c).
    assert (H1 : abs c1 = k_born KClaimed e d) by (subst c1; by rewrite abs_projectRecovery, Hc).
    assert (Hw1 : Good c1) by (subst c1; good). clearbody c1. unfold transition.
    pose proof (abs_transitionCaused StatePreparing "recovered orphan: resuming the failure track" "" c1
                  ltac:(repeat (first [left; reflexivity | right]))) as Ht.
    destruct (transitionCaused _ _ _ c1) as [c2|] eqn:E; [|rewrite H1 in Ht; by destruct e, d].
    assert (Hw2 : Good c2) by (eapply Good_local; [|exact Hw1]; local).
    rewrite abs_enterBackoff by done. rewrite H1 in Ht. cbn in Ht. apply (inj Some) in Ht. rewrite Ht. starting.
  - rewrite abs_projectRecovery.
    rewrite (abs_upd (λ u, u <| k_faulted := v_epochFault v |>)) by done. rewrite Hc.
    generalize (v_epochFault v). intros b. starting.
  - rewrite abs_driveHold. unfold disposePublished.
    pose proof (abs_oweDisposal (λ ws, DoDispose ws false) (projectRecovery facts v c)) as H.
    rewrite abs_projectRecovery, Hc in H. started H.
  - rewrite abs_release. unfold completeRevocationOnly. rewrite abs_oweRemoteRevocation, abs_abandonPendingClaimBase,
      abs_projectRecovery, Hc. starting.
  - rewrite abs_release.
    pose proof (abs_disposeRevoked false (abandonPendingClaimBase (projectRecovery facts v c))) as H.
    rewrite abs_abandonPendingClaimBase, abs_projectRecovery, Hc in H.
    started H.
  - apply Evo_forget. intros t r Ht. congruence.
Qed.
End system.

(** ** The parts of the loop that concern no record *)

Class StillOp (f : Orchestrator → Orchestrator) := still_op o : Still o (f o).

Lemma still_let o (x : Orchestrator) (f : Orchestrator → Orchestrator) :
  Still o x → (∀ y, Still o y → Still o (f y)) → Still o (let y := x in f y).
Proof. intros H Hf. exact (Hf x H). Qed.

Lemma still_foldl {A} (g : Orchestrator → A → Orchestrator) l o o' :
  (∀ o a, Still o (g o a)) → Still o o' → Still o (foldl g o' l).
Proof.
  intros Hg. revert o'. induction l as [|a l IH]; intros o' H; [done|]. cbn. apply IH. etrans; [exact H|apply Hg].
Qed.

Lemma still_enqueue e b o o' : eff_item e = None → enqueue e o = (b, o') → Still o o'.
Proof.
  intros He H. unfold enqueue in H. destruct (_ <? _); injection H as <- <-; [|done].
  split; try done. unfold flying, outbox. cbn. rewrite omap_app. cbn. by rewrite He, app_nil_r.
Qed.

#[export] Hint Opaque for_records driveMarkerClears onMarkerCleared publishHeld put_held dropHeld driveHeldRelease
  driveHeldExit releaseHeld checkHeldHistory classifyHeld confirmHeldClaim offerHeldConfirmations retryHeldExits
  onHeldReleased onHeldConfirmed onHeldHistory adoptDurableEndedCycles beginCycleScan retryRecoveryScan
  retrySweep beginSweep onSwept onSweepRelease onAdopt publishIdentityWork beginReconcile
  beginDispatchReads oweEndedCycle publish clearMarkerWith : typeclass_instances.

Ltac still_step :=
  lazymatch goal with
  | |- Still ?o ?o => reflexivity
  | H : Still ?o ?o' |- Still ?o ?o' => exact H
  | |- Still ?o (let y : Orchestrator := ?x in @?f y) => refine (still_let o x f _ _); [|intros ? ?; cbv beta]
  | |- Still ?o (let y := ?x in @?f y) => let b := eval cbv beta in (f x) in change (Still o b)
  | |- Still _ (match (match ?x with _ => _ end) with _ => _ end) => destruct x eqn:?; cbv beta iota
  | H : enqueue ?e ?o' = (?b, ?o1) |- Still ?o ?o1 =>
      transitivity o'; [|exact (still_enqueue e b o' o1 eq_refl H)]
  | |- Still _ (match ?x with _ => _ end) => destruct x eqn:?; cbv beta iota
  | |- Still ?o (spawn ?j ?o') => transitivity o'; [|apply still_spawn; reflexivity]
  | |- Still ?o (setf _ _ ?o') => transitivity o'; [|by split]
  | |- Still _ (foldl _ _ _) => apply still_foldl; [intros ? ?|]
  | |- Still ?o (?h ?o') => transitivity o'; [|exact (still_op (f := h) o')]
  end.
Ltac still := intros; repeat still_step.
Tactic Notation "still_op" reference(h) := intros ?; cbv beta delta [h]; still.

Section still.
Context {T : GoTables}.

#[export] Instance StillOp_driveMarkerClears : StillOp driveMarkerClears.
Proof. intros o. by apply still_driveMarkerClears. Qed.
#[export] Instance StillOp_oweEndedCycle id ws w why : StillOp (oweEndedCycle id ws w why).
Proof. intros o. by apply still_oweEndedCycle. Qed.
#[export] Instance StillOp_onMarkerCleared clear err : StillOp (onMarkerCleared clear err).
Proof. still_op onMarkerCleared. Qed.
#[export] Instance StillOp_publishHeld : StillOp publishHeld.
Proof. still_op publishHeld. Qed.
#[export] Instance StillOp_put_held id h : StillOp (put_held id h).
Proof. still_op put_held. Qed.
#[export] Instance StillOp_dropHeld id : StillOp (dropHeld id).
Proof. still_op dropHeld. Qed.
#[export] Instance StillOp_driveHeldRelease id h : StillOp (driveHeldRelease id h).
Proof. still_op driveHeldRelease. Qed.
#[export] Instance StillOp_driveHeldExit id h : StillOp (driveHeldExit id h).
Proof. still_op driveHeldExit. Qed.
#[export] Instance StillOp_releaseHeld id h why : StillOp (releaseHeld id h why).
Proof. still_op releaseHeld. Qed.
#[export] Instance StillOp_checkHeldHistory id h fresh : StillOp (checkHeldHistory id h fresh).
Proof. still_op checkHeldHistory. Qed.
#[export] Instance StillOp_classifyHeld id h fresh cur : StillOp (classifyHeld id h fresh cur).
Proof. still_op classifyHeld. Qed.
#[export] Instance StillOp_confirmHeldClaim id : StillOp (confirmHeldClaim id).
Proof. still_op confirmHeldClaim. Qed.
#[export] Instance StillOp_offerHeldConfirmations absent : StillOp (offerHeldConfirmations absent).
Proof. still_op offerHeldConfirmations. Qed.
#[export] Instance StillOp_retryHeldExits : StillOp retryHeldExits.
Proof. still_op retryHeldExits. Qed.
#[export] Instance StillOp_onHeldReleased hd err : StillOp (onHeldReleased hd err).
Proof. still_op onHeldReleased. Qed.
#[export] Instance StillOp_onHeldConfirmed hd fresh err : StillOp (onHeldConfirmed hd fresh err).
Proof. still_op onHeldConfirmed. Qed.
#[export] Instance StillOp_onHeldHistory hd fresh anchor closed sup aerr err :
  StillOp (onHeldHistory hd fresh anchor closed sup aerr err).
Proof. still_op onHeldHistory. Qed.
#[export] Instance StillOp_adoptDurableEndedCycles ws refs : StillOp (adoptDurableEndedCycles ws refs).
Proof. still_op adoptDurableEndedCycles. Qed.
#[export] Instance StillOp_beginCycleScan : StillOp beginCycleScan.
Proof. still_op beginCycleScan. Qed.
#[export] Instance StillOp_retryRecoveryScan cur : StillOp (retryRecoveryScan cur).
Proof. still_op retryRecoveryScan. Qed.
#[export] Instance StillOp_beginSweep plan : StillOp (beginSweep plan).
Proof. still_op beginSweep. Qed.
#[export] Instance StillOp_retrySweep : StillOp retrySweep.
Proof. still_op retrySweep. Qed.
#[export] Instance StillOp_onSwept res : StillOp (onSwept res).
Proof. still_op onSwept. Qed.
#[export] Instance StillOp_onSweepRelease id : StillOp (onSweepRelease id).
Proof. still_op onSweepRelease. Qed.
#[export] Instance StillOp_onAdopt a : StillOp (onAdopt a).
Proof. still_op onAdopt. Qed.
#[export] Instance StillOp_publishIdentityWork : StillOp publishIdentityWork.
Proof. still_op publishIdentityWork. Qed.
#[export] Instance StillOp_beginReconcile : StillOp beginReconcile.
Proof. still_op beginReconcile. Qed.
#[export] Instance StillOp_beginDispatchReads : StillOp beginDispatchReads.
Proof. still_op beginDispatchReads. Qed.

Lemma still_applyCycleScan ws refs err clear o : Still o (applyCycleScan ws refs err clear o).2.
Proof. unfold applyCycleScan. destruct (negb (is_nil err)); [done|]. cbn [snd]. still. Qed.

Lemma still_cycle_answer cycle o : Still o (cycle_answer cycle o).2.
Proof.
  unfold cycle_answer. destruct cycle as [cy|]; [|done]. cbv zeta. set (o1 := if _ <=? 0 then _ else _).
  assert (H1 : Still o o1) by (subst o1; still). clearbody o1.
  destruct (negb _); [etrans; [exact H1|apply still_applyCycleScan]|]. cbn [snd].
  destruct (_ =? _); [|done]. etrans; [exact H1|apply still_applyCycleScan].
Qed.

Lemma still_sweepHeld res cur o : Still o (sweepHeld res cur o).1.
Proof.
  unfold sweepHeld. destruct (_ || _); [done|].
  assert (H : ∀ l st, Still o st.1 → Still o (foldl (sweep_held_one (byID res) cur) st l).1); [|by apply H].
  induction l as [|id l IH]; intros [o1 absent] Hst; [done|]. cbn [foldl]. apply IH. unfold sweep_held_one.
  cbn [fst] in *. destruct (o_held o1 !! id) as [h|]; [|done]. destruct (_ || _); [done|].
  destruct (_ !! id); cbn [fst]; still.
Qed.

Lemma works_fmap f o :
  (∀ j, job_item (f j) = job_item j) → works (o <| o_jobs ::= fmap f |>) = works o.
Proof.
  intros Hf. unfold works. cbn. induction (o_jobs o) as [|j l IH]; [done|]. cbn. by rewrite Hf, IH.
Qed.

#[export] Instance StillOp_onSweepReserve id : StillOp (onSweepReserve id).
Proof.
  intros o. unfold onSweepReserve. destruct (grantDisposal id o) as [granted o1] eqn:E.
  assert (H1 : Still o o1) by (unfold grantDisposal in E; destruct (_ || _); injection E as <- <-; still).
  etrans; [exact H1|]. split; try done. unfold flying. rewrite works_fmap; [done|].
  intros []; try done. cbn. destruct stage; try done. cbn. by repeat case_match.
Qed.
End still.

(** ** The parts of the loop that run handlers *)

Lemma rotate_sub {A} (identifier : A → string) items cursor n x :
  x ∈ (rotate identifier items cursor n).1 → x ∈ items.
Proof.
  unfold rotate. destruct (_ || _); [by intros ?%not_elem_of_nil|]. cbv zeta.
  assert (H : ∀ l start k i cur picked, x ∈ (rotate_take identifier l start i k cur picked).1 → x ∈ picked ∨ x ∈ l).
  { intros l start k. induction k as [|k IH]; intros i cur picked Hx; [by left|]. cbn in Hx.
    destruct (l !! _) as [it|] eqn:E; [|by left]. apply IH in Hx as [Hx|Hx]; [|by right].
    apply elem_of_app in Hx as [Hx|Hx]; [by left|right]. apply list_elem_of_singleton in Hx as ->.
    by eapply list_elem_of_lookup_2. }
  intros [Hx|Hx]%H; [by apply not_elem_of_nil in Hx|]. by rewrite stable_sort_perm in Hx.
Qed.

Lemma Evo_still_l o o1 o2 : Still o o1 → Evo o1 o2 → Evo o o2.
Proof. intros H. etrans; [by apply Evo_still|done]. Qed.

Lemma Evo_still_r o o1 o2 : Evo o o1 → Still o1 o2 → Evo o o2.
Proof. intros H1 H2. etrans; [done|by apply Evo_still]. Qed.

Section loops.
Context {T : GoTables}.

(** A handler that neither drops its record nor shows in its control state may run on any record. *)
Lemma Evo_on_silent f t o :
  LocalOp f → (∀ c, o_records (c_o (f c)) = o_records (c_o c)) → (∀ c, abs (f c) = abs c) →
  is_Some (o_heap o !! t) → Evo o (on_record t f o).
Proof.
  intros HL Hr Ha [r H]. eapply (Evo_record t f r o o); try done.
  intros _ _ Hw. cbv zeta. split_and!; [apply local_op|right; apply Hr|by rewrite Ha].
Qed.

Lemma Evo_silent_records f picked o :
  LocalOp f → (∀ c, o_records (c_o (f c)) = o_records (c_o c)) → (∀ c, abs (f c) = abs c) →
  (∀ r, r ∈ picked → is_Some (o_heap o !! r_token r)) →
  Evo o (foldl (λ o r, on_record (r_token r) f o) o picked).
Proof.
  intros HL Hr Ha. revert o. induction picked as [|r picked IH]; intros o Hp; [done|]. cbn.
  etrans; [apply Evo_on_silent; try done; apply Hp; by left|]. apply IH. intros r' Hr'.
  destruct (decide (r_token r' = r_token r)) as [E|E]; [|destruct (Hp r' ltac:(by right)) as [x Hx]];
    unfold on_record; cbv zeta; cbn [o_heap store_record setf set_o_heap].
  - rewrite E, lookup_insert_eq. eauto.
  - rewrite lookup_insert_ne, (l_heap _ _ (local_op (h := f) _)) by done. cbn [c_o]. eauto.
Qed.

Lemma select_records_spec site p o r :
  Consistent o → r ∈ select_records site p o → o_heap o !! r_token r = Some r.
Proof.
  intros HO Hr. unfold select_records in Hr. apply list_elem_of_omap in Hr as (id & _ & Hid).
  destruct (o_records o !! id) as [t|] eqn:E; [|done]. destruct (ok_records _ HO id t E) as (r' & Hr' & _).
  unfold deref in Hid. rewrite Hr' in Hid. cbn in Hid. destruct (p r'); [|done]. injection Hid as <-.
  destruct (ok_heap _ HO t r' Hr') as (-> & _). done.
Qed.

Lemma Evo_offerOwedConfirmations o : Evo o (offerOwedConfirmations o).
Proof.
  intros HO HR. unfold offerOwedConfirmations. destruct (o_draining o); [by split|].
  set (cands := select_records _ _ o). pose proof (rotate_sub recordIdentifier cands (o_owedCursor o) owedConfirmationsPerTick) as Hsub.
  destruct (rotate _ _ _ _) as [picked cursor]. cbn [fst] in Hsub.
  refine (Evo_still_l o (o <| o_owedCursor := cursor |>) _ _ _ HO HR); [by split|].
  apply Evo_silent_records; [apply _| |apply abs_confirmOwedAbsence|].
  - intros c. unfold confirmOwedAbsence. by destruct (r_owed (c_r c)).
  - intros r Hr. apply Hsub, select_records_spec in Hr; [|done]. eauto.
Qed.

Lemma Evo_offerParkedConfirmations absent o :
  (Consistent o → ∀ r, r ∈ absent → is_Some (o_heap o !! r_token r)) → Evo o (offerParkedConfirmations absent o).
Proof.
  intros Hab HO HR. unfold offerParkedConfirmations.
  pose proof (rotate_sub recordIdentifier absent (o_parkedCursor o) parkedConfirmationsPerTick) as Hsub.
  destruct (rotate _ _ _ _) as [picked cursor]. cbn [fst] in Hsub.
  refine (Evo_still_l o (o <| o_parkedCursor := cursor |>) _ _ _ HO HR); [by split|].
  apply Evo_silent_records; [apply _|done|apply abs_confirmParkedAbsence|]. intros r Hr. by apply (Hab HO), Hsub.
Qed.

(** One parked record of a sweep. *)
Lemma sweep_parked_one_spec seen cur st w :
  Consistent st.1 → (∀ r, r ∈ st.2 → is_Some (o_heap st.1 !! r_token r)) →
  let st' := sweep_parked_one seen cur st w in
  Evo st.1 st'.1 ∧ (∀ r, r ∈ st'.2 → is_Some (o_heap st'.1 !! r_token r)).
Proof.
  intros HO Hab. destruct st as [o absent]. cbn [fst snd] in *. unfold sweep_parked_one.
  destruct (o_records o !! pw_id w) as [t|] eqn:Et; [|by split]. cbv zeta.
  destruct (_ || _) eqn:Hc; [by split|]. destruct (seen !! pw_id w) as [fresh|]; cbn [fst snd].
  - split.
    + eapply (Evo_on_record (λ c, k_exiting (abs c) = false ∧ stage_eqb (k_stage (abs c)) KNeedsReview = true));
        [apply _| |exact Et|].
      * apply Handler_next. intros c Hw [Hx Hs]. pose proof (abs_classifyParked w fresh cur c Hw Hx Hs). in_next.
      * intros r Hr. unfold deref in Hc. rewrite Hr in Hc. cbn [default from_option id] in Hc.
        apply orb_false_iff in Hc as [[Hx Hs]%orb_false_iff _]. apply negb_false_iff in Hs.
        rewrite <- abs_exiting. cbn [c_r]. split; [done|].
        destruct (abs_stage (MkCell r o)) as (_ & _ & _ & _ & _ & _ & <-). done.
    + intros r Hr. unfold on_record. cbv zeta. cbn [o_heap store_record setf set_o_heap].
      destruct (decide (r_token r = t)) as [->|Hne]; [rewrite lookup_insert_eq; eauto|].
      rewrite lookup_insert_ne, (l_heap _ _ (local_op (h := classifyParked w fresh cur) _)) by done. by apply Hab.
  - split; [done|]. intros r Hr. apply elem_of_app in Hr as [Hr|Hr]; [by apply Hab|].
    apply list_elem_of_singleton in Hr as ->. destruct (ok_records _ HO _ _ Et) as (r & Hr & _).
    unfold deref. rewrite Hr. cbn. destruct (ok_heap _ HO t r Hr) as (-> & _). eauto.
Qed.

Lemma Evo_sweepParked wants res cur o : Evo o (sweepParked wants res cur o).
Proof.
  unfold sweepParked. destruct (negb _); [done|].
  assert (H : ∀ l st, Consistent st.1 → Reach st.1 → (∀ r, r ∈ st.2 → is_Some (o_heap st.1 !! r_token r)) →
    let st' := foldl (sweep_parked_one (byID res) cur) st l in
    (Consistent st'.1 ∧ Sim st.1 st'.1) ∧ (∀ r, r ∈ st'.2 → is_Some (o_heap st'.1 !! r_token r))).
  { induction l as [|w l IH]; intros st HO HR Hab; [done|]. cbn.
    destruct (sweep_parked_one_spec (byID res) cur st w HO Hab) as [He Hab']. destruct (He HO HR) as [HO' Hs].
    destruct (IH _ HO' (Sim_reach _ _ Hs HR) Hab') as [[HO2 Hs2] Hab2]. split; [|done]. split; [done|]. by etrans. }
  intros HO HR. destruct (H wants (o, []) HO HR) as [[HO' Hs] Hab]; [by intros r ?%not_elem_of_nil|].
  destruct (foldl _ _ _) as [o' absent]. cbn [fst snd] in *.
  destruct (Evo_offerParkedConfirmations absent o' (λ _, Hab) HO' (Sim_reach _ _ Hs HR)) as [HO2 Hs2].
  split; [done|]. by etrans.
Qed.

Lemma Evo_foldl' {A} (g : Orchestrator → A → Orchestrator) l o : (∀ o a, Evo o (g o a)) → Evo o (foldl g o l).
Proof. intros H. by apply (Evo_foldl (λ _, True) g l o). Qed.

Lemma Evo_foldl_in {A} (g : Orchestrator → A → Orchestrator) l o :
  (∀ o a, a ∈ l → Evo o (g o a)) → Evo o (foldl g o l).
Proof.
  revert o. induction l as [|a l IH]; intros o H; [done|]. cbn. etrans; [apply H; by left|].
  apply IH. intros. apply H. by right.
Qed.

Lemma Evo_retryPendingExits o : Evo o (retryPendingExits o).
Proof. apply Evo_for_records; [apply _|apply Handler_retry_record]. Qed.

Lemma Evo_reconcile refreshed cur o : Evo o (reconcile refreshed cur o).
Proof.
  apply Evo_foldl'. intros o1 id. destruct (o_records o1 !! id) as [t|] eqn:E; [|done].
  destruct (refreshed !! id) as [res|]; [|done].
  by eapply (Evo_on_record (λ _, True)); [apply _|apply Handler_reconcile_one|exact E|].
Qed.

Lemma Evo_on_noop f t id o : LocalOp f → (∀ c, abs (f c) = abs c) → o_records o !! id = Some t → Evo o (on_record t f o).
Proof. intros HL Ha E. by eapply (Evo_on_record (λ _, True)); [apply _|by apply Handler_noop|exact E|]. Qed.

Lemma Evo_clearEndedCycle address o : Evo o (clearEndedCycle address o).
Proof.
  unfold clearEndedCycle. destruct (_ !! address) as [cyc|]; [|done]. cbv zeta.
  set (o1 := (if ec_deferredCandidate cyc then _ else o) <| o_endedCycles ::= _ |>).
  assert (H1 : Still o o1) by (subst o1; still). clearbody o1. eapply Evo_still_l; [exact H1|].
  destruct (endedCycleOwed _ o1); [done|]. set (o2 := match o_held o1 !! _ with Some _ => _ | None => o1 end).
  assert (H2 : Still o1 o2) by (subst o2; still). clearbody o2. eapply Evo_still_l; [exact H2|].
  destruct (o_records o2 !! ec_issue cyc) as [t|] eqn:E; [|done].
  by eapply Evo_on_noop; [apply _|apply abs_driveOwed|exact E].
Qed.

Lemma Evo_driveEndedCycles o : Evo o (driveEndedCycles o).
Proof.
  unfold driveEndedCycles. cbv zeta. destruct (rotate _ _ _ _) as [picked cursor].
  eapply Evo_still_l; [|apply Evo_foldl'; intros o1 a]; [still|].
  unfold disposeEndedCycle. destruct (_ !! a) as [cyc|]; [|done]. cbv zeta.
  destruct (negb _); [apply Evo_clearEndedCycle|]. apply Evo_still. still.
Qed.

Lemma Evo_onCycleDisposed address err o : Evo o (onCycleDisposed address err o).
Proof.
  unfold onCycleDisposed. destruct (_ !! address) as [cyc|]; [|done]. cbv zeta.
  destruct (negb _); [apply Evo_still; still|]. eapply Evo_still_l; [|apply Evo_clearEndedCycle]. still.
Qed.

Lemma Evo_retryRecovery o : Evo o (retryRecovery o).
Proof.
  unfold retryRecovery. cbv zeta. eapply Evo_still_l; [apply (still_op (f := retryRecoveryScan (o_cur o)))|].
  apply Evo_for_records; [apply _|]. apply Handler_noop, abs_retry_classify.
Qed.

Lemma Evo_op_l f o o' : StillOp f → Evo (f o) o' → Evo o o'.
Proof. intros Hf. apply Evo_still_l, still_op. Qed.

Lemma Evo_op_r f o o' : StillOp f → Evo o o' → Evo o (f o').
Proof. intros Hf H. eapply Evo_still_r; [exact H|apply still_op]. Qed.

Lemma Evo_onReconciled refreshed parked sweep o : Evo o (onReconciled refreshed parked sweep o).
Proof.
  unfold onReconciled. cbv zeta. set (o0 := o <| o_reconcileInFlight := false |>).
  assert (H0 : Still o o0) by by split. eapply Evo_still_l; [exact H0|]. set (o1 := reconcile refreshed (o_cur o0) o0).
  transitivity o1; [apply Evo_reconcile|].
  match goal with |- Evo o1 (let '(_, _) := ?x in _) => destruct x as [o2 absent] eqn:E end.
  assert (H2 : Evo o1 o2).
  { destruct (sr_read sweep); [|injection E as <- <-; done].
    pose proof (still_sweepHeld sweep (o_cur o0) o1) as Hs. destruct (sweepHeld sweep _ o1) as [o3 ab].
    injection E as <- <-. eapply Evo_still_l; [exact Hs|apply Evo_sweepParked]. }
  transitivity o2; [exact H2|]. do 2 (apply Evo_op_r; [apply _|]).
  etrans; [|apply Evo_retryRecovery]. apply Evo_op_r; [apply _|].
  etrans; [|apply Evo_offerOwedConfirmations]. etrans; [|apply Evo_retryPendingExits].
  etrans; [|apply Evo_driveEndedCycles]. do 2 (apply Evo_op_r; [apply _|]). done.
Qed.

Lemma Evo_onTick o : Evo o (onTick o).
Proof.
  unfold onTick. apply Evo_op_r; [apply _|]. eapply (Evo_op_l beginCycleScan); [apply _|].
  apply Evo_for_records; [apply _|apply Handler_driveVerifyRetry].
Qed.

(** *** Dispatch *)

Lemma beginClaim_replaceable issue cur id o :
  Consistent o → replaceable id o → replaceable id (beginClaim issue cur o).
Proof.
  intros HO Hrep t r Ht Hr. change (k_stage (abs (MkCell r (beginClaim issue cur o)))) with (stage_of (r_State r)).
  change (o_records (beginClaim issue cur o)) with (<[is_Identifier issue := o_nextToken o + 1]> (o_records o)) in Ht.
  change (o_heap (beginClaim issue cur o)) with
    (<[o_nextToken o + 1 := claimed_record issue cur (o_nextToken o + 1) (o <| o_nextToken := o_nextToken o + 1 |>)
         <| r_pending ::= Z.succ |>]> (o_heap o)) in Hr.
  apply lookup_insert_Some in Hr as [[<- <-]|[Hne Hr]]; [done|].
  apply lookup_insert_Some in Ht as [[_ <-]|[_ Ht]]; [done|]. exact (Hrep t r Ht Hr).
Qed.

Lemma Evo_claim_while_free cur issues o :
  (∀ issue, issue ∈ issues → named issue ∧ replaceable (is_Identifier issue) o) →
  Evo o (claim_while_free cur issues o).
Proof.
  revert o. induction issues as [|issue issues IH]; intros o Hrep; [done|]. cbn [claim_while_free]. destruct (_ <=? 0); [done|].
  intros HO HR. pose proof (Evo_beginClaim issue cur o (proj1 (Hrep issue ltac:(by left))) (proj2 (Hrep issue ltac:(by left)))) as H1.
  assert (Hrest : ∀ i, i ∈ issues → named i ∧ replaceable (is_Identifier i) (beginClaim issue cur o)).
  { intros i Hi. destruct (Hrep i ltac:(by right)). split; [done|]. by apply beginClaim_replaceable. }
  revert H1 Hrest. generalize (beginClaim issue cur o). intros o1 H1 Hrest.
  exact (transitivity (R := Evo) H1 (IH o1 Hrest) HO HR).
Qed.

Lemma Evo_dispatch candidates cur o : Forall named candidates → Evo o (dispatch candidates cur o).
Proof.
  intros Hc. unfold dispatch. destruct (o_draining o); [done|]. apply Evo_claim_while_free. intros issue Hi.
  rewrite stable_sort_perm in Hi. apply list_elem_of_filter in Hi as [He Hi].
  split; [by eapply Forall_forall in Hc|]. apply replaceable_none.
  unfold eligible in He. rewrite !andb_true_iff in He. destruct He as [[[[_ He] _] _] _].
  by destruct (o_records o !! _).
Qed.

Lemma Evo_onTickResult candidates err revision o :
  Forall named candidates → Evo o (onTickResult candidates err revision o).
Proof.
  intros Hc. unfold onTickResult. cbv zeta. set (o1 := o <| o_dispatchInFlight := false |>).
  assert (H1 : Still o o1) by by split. clearbody o1. eapply Evo_still_l; [exact H1|].
  destruct (negb _); [apply Evo_onTick|]. destruct (_ || _); [done|by apply Evo_dispatch].
Qed.

Lemma Evo_onCycleScan cy o : Evo o (onCycleScan cy o).
Proof.
  unfold onCycleScan. cbv zeta. apply Evo_op_r; [apply _|]. set (o1 := o <| o_cycleScanInFlight := false |>).
  assert (H1 : Still o o1) by by split. clearbody o1. eapply Evo_still_l; [exact H1|].
  destruct (_ || _); [|done]. apply Evo_still, still_applyCycleScan.
Qed.

(** *** Recovery *)

Lemma Evo_onRecoveryScan candidates err revision o :
  Forall named candidates → Evo o (onRecoveryScan candidates err revision o).
Proof.
  intros Hc. unfold onRecoveryScan. cbv zeta. set (o1 := o <| o_scanInFlight := false |>).
  assert (H1 : Still o o1) by by split. clearbody o1. eapply Evo_still_l; [exact H1|].
  destruct (_ || _); [done|]. etrans; [|apply Evo_retryRecovery].
  set (o2 := o1 <| o_scanOwed := false |>). assert (H2 : Still o1 o2) by by split.
  eapply Evo_still_l; [exact H2|]. apply Evo_foldl_in. intros o3 issue Hi. unfold scan_one.
  destruct (o_records o3 !! _) eqn:Er; [done|]. destruct (o_held o3 !! _); [done|]. cbv zeta.
  destruct (endedCycleOwed _ o3); [apply Evo_still; still|]. apply Evo_adoptUnclassified; [|done].
  by eapply Forall_forall in Hc.
Qed.

Lemma Evo_onRecovered t revision recovery err h o :
  signal_ok (SigRecovered h revision recovery err) → o_records o !! hd_issue h = Some t →
  Evo o (onRecovered t revision recovery err o).
Proof.
  intros Hok Ht HO HR. unfold onRecovered. cbv zeta.
  set (f := λ c : cell, c <| c_r ::= λ r, r <| r_recoverInFlight := false |> |>).
  assert (HL : LocalOp f) by (intros c; unfold f; local).
  assert (H1 : Evo o (on_record t f o)) by (eapply Evo_on_noop; [done|intros c; by destruct c|exact Ht]).
  assert (Ht1 : o_records (on_record t f o) !! hd_issue h = Some t) by done.
  revert H1 Ht1. generalize (on_record t f o). intros o1 H1 Ht1. clear f HL.
  refine (transitivity (R := Evo) H1 _ HO HR). clear o H1 HO HR Ht. intros HO HR.
  destruct (ok_records _ HO _ _ Ht1) as (r & Hr & Hi). unfold deref. rewrite Hr. cbn [default from_option id].
  unfold ident in Hi. rewrite Hi.
  match goal with |- Consistent ?x ∧ _ => enough (Evo o1 x) as He by exact (He HO HR) end.
  match goal with |- Evo _ (if ?b then _ else _) => destruct b eqn:Hc end; [done|].
  destruct err; [done|]. destruct recovery as [[v facts]|]; [|done].
  match goal with |- Evo _ (if ?b then _ else _) => destruct b end; [done|].
  apply orb_false_iff in Hc as [[_ Hu]%orb_false_iff _]. apply negb_false_iff in Hu.
  transitivity (forget (hd_issue h) o1).
  { apply Evo_forget. intros t' r' Ht' Hr'. assert (t' = t) as -> by congruence.
    assert (r' = r) as -> by congruence. by rewrite Hu, orb_true_r. }
  assert (Hne : hd_issue h ≠ "") by (intros E; rewrite E, (ok_named _ HO) in Ht1; done).
  assert (Hn : o_records (forget (hd_issue h) o1) !! hd_issue h = None) by apply lookup_delete_eq.
  destruct Hok as [Ha|[Ha He]].
  - apply Evo_applyRecovery; [unfold named|]; by rewrite Ha.
  - unfold applyRecovery. rewrite Ha, He. apply Evo_forget. intros t' r' Ht'. cbn in Ht'.
    rewrite lookup_delete_ne, (ok_named _ HO) in Ht' by done. done.
Qed.
End loops.
