(* ===== verification/OrchStep.v ===== *)
(** * OrchStep: every step of the system is a step of the control machines

    A signal taken off the channel and delivered to the record it is for, or dropped; a worker
    that sends its answer; a pump, an effect, a timer, a signal from outside. [step_evo] is the
    simulation: [Consistent] is preserved and every record's control state follows the machine of
    [OrchControl]. *)

From S2P Require Import Prelude GoStd Update Core Template OrchState OrchRecover OrchRecord.
From S2P Require Import OrchApproval OrchPipeline OrchHeld OrchResume OrchLoop OrchControl.
From S2P Require Import OrchFrame OrchRefine OrchSystem.

(** ** Taking a signal off the channel *)

Definition pop (rest : list signal) (o : Orchestrator) : Orchestrator := o <| o_signals := rest |>.

Lemma flying_pop s rest o :
  o_signals o = s :: rest →
  flying o = match sig_item s with Some x => [x] | None => [] end ++ flying (pop rest o).
Proof.
  intros H. unfold flying, inbox, pop. cbn. rewrite H. cbn. by destruct (sig_item s).
Qed.

Lemma pop_inserted s rest o x :
  o_signals o = s :: rest → sig_item s = Some x → Inserted x (pop rest o) o.
Proof. intros H Hx. exists [], (flying (pop rest o)). rewrite (flying_pop s rest o H), Hx. done. Qed.

Lemma mine_cons r x m :
  mine r (x :: m) = if decide (hd_token x.1 = r_token r ∧ hd_generation x.1 = r_generation r)
                    then x.2 :: mine r m else mine r m.
Proof. unfold mine. rewrite filter_cons. by case_decide. Qed.

Lemma pump_shape_tail i l : pump_shape (i :: l) → pump_shape l.
Proof.
  intros (n & tl & H & Ht). destruct n as [|n]; cbn in H.
  - repeat (apply elem_of_cons in Ht as [->|Ht]; [by (simplify_eq/=; try (exists O, []; split; [done|by left]))|]).
    by apply not_elem_of_nil in Ht.
  - injection H as _ ->. by exists n, tl.
Qed.

Lemma pump_shape_closed l : pump_shape (IClosed :: l) → l = [].
Proof.
  intros (n & tl & H & Ht). destruct n as [|n]; [|done]. cbn in H.
  repeat (apply elem_of_cons in Ht as [->|Ht]; [by simplify_eq/=|]). by apply not_elem_of_nil in Ht.
Qed.

Lemma pump_pop s rest o h it r :
  o_signals o = s :: rest → sig_item s = Some (h, it) →
  pump r o = if decide (hd_token h = r_token r ∧ hd_generation h = r_generation r)
             then if is_pump it then it :: pump r (pop rest o) else pump r (pop rest o)
             else pump r (pop rest o).
Proof.
  intros H Hx. unfold pump. rewrite (flying_pop s rest o H), Hx. cbn [app]. rewrite mine_cons. cbn [fst snd].
  case_decide; [|done]. rewrite filter_cons. by destruct (is_pump it).
Qed.

Lemma stale_pop s rest o h it r :
  o_signals o = s :: rest → sig_item s = Some (h, it) →
  stale r o = if decide ((hd_token h = r_token r ∧ hd_generation h ≠ r_generation r) ∧ is_launch it = true)
              then S (stale r (pop rest o)) else stale r (pop rest o).
Proof. intros H Hx. unfold stale. rewrite (flying_pop s rest o H), Hx. cbn [app]. apply stale_cons. Qed.

Lemma owed_pop s rest o h it t :
  o_signals o = s :: rest → sig_item s = Some (h, it) →
  owed_mail t o = match it with
                  | IOwed what => if decide (hd_token h = t) then what :: owed_mail t (pop rest o)
                                  else owed_mail t (pop rest o)
                  | _ => owed_mail t (pop rest o)
                  end.
Proof.
  intros H Hx. unfold owed_mail, owed_in, to_token. rewrite (flying_pop s rest o H), Hx. cbn [app].
  rewrite filter_cons. cbn [fst]. case_decide; destruct it; done.
Qed.

Lemma Wf_pop s rest o r : o_signals o = s :: rest → Wf r o → Wf r (pop rest o).
Proof.
  intros H [Hb Hp Ho]. destruct (sig_item s) as [[h it]|] eqn:Hx.
  - split.
    + intros x Hx'. apply Hb. rewrite (flying_pop s rest o H). apply elem_of_app. by right.
    + rewrite (pump_pop _ _ _ _ _ r H Hx) in Hp. case_decide; [|done]. destruct (is_pump it); [|done].
      by eapply pump_shape_tail.
    + rewrite (owed_pop _ _ _ _ _ (r_token r) H Hx) in Ho. destruct it; try done. case_decide; [|done].
      left. destruct Ho as [Ho|(eff & l & _ & _ & Ho)]; [done|]. by simplify_eq.
  - assert (Hf : flying (pop rest o) = flying o) by (rewrite (flying_pop s rest o H), Hx; done).
    apply (Wf_same r r o); [by repeat split|done|]. by split.
Qed.

Lemma Evo_pop_untagged s rest o : o_signals o = s :: rest → sig_item s = None → Evo o (pop rest o).
Proof.
  intros H Hx. assert (Hf : flying (pop rest o) = flying o) by (rewrite (flying_pop s rest o H), Hx; done).
  apply Evo_same; try done.
  - intros x. rewrite Hf. eauto.
  - rewrite H. intros Hs. by apply Forall_cons in Hs as [_ ?].
  - intros t r _. by apply Wf_pop with s.
  - intros t r _ _ _. rewrite (abs_others r o (pop rest o)); [done|by rewrite Hf|done..].
Qed.

(** A signal nobody takes: its record is gone, or has gone on to another generation. *)
Lemma Evo_pop_dropped s rest o h it :
  o_signals o = s :: rest → sig_item s = Some (h, it) →
  (∀ r, o_heap o !! hd_token h = Some r → is_current (MkCell r o) = true → hd_issue h = ident r →
        hd_generation h = r_generation r → False) →
  Evo o (pop rest o).
Proof.
  intros H Hx Hd. pose proof (pop_inserted s rest o _ H Hx) as Hin.
  apply Evo_same; try done.
  - intros x Hx'. exists x. split; [|done]. rewrite (flying_pop s rest o H). apply elem_of_app. by right.
  - rewrite H. intros Hs. by apply Forall_cons in Hs as [_ ?].
  - intros t r _. by apply Wf_pop with s.
  - intros t r Hr Hw Ht.
    assert (Hsame : mine r (flying (pop rest o)) = mine r (flying o) → rtc k_step (abs (MkCell r o)) (abs (MkCell r (pop rest o)))).
    { intros E.
      assert (Ha : abs (MkCell r (pop rest o)) = abs (MkCell r o) <| k_stale := stale r (pop rest o) |>)
        by (unfold abs, in_flight, pump; cbn [c_r c_o]; by rewrite E).
      rewrite Ha. destruct (is_current (MkCell r o)) eqn:Hc.
      - pose proof (stale_pop s rest o h it r H Hx) as Hst.
        assert (Hk : abs (MkCell r o) <| k_stale := stale r (pop rest o) |>
          ∈ [abs (MkCell r o); abs (MkCell r o) <| k_stale ::= Nat.pred |>]).
        { case_decide; [|rewrite <- Hst; by left]. right. in_one. unfold abs. cbn. by rewrite Hst. }
        apply elem_of_cons in Hk as [->|Hk]; [done|]. apply list_elem_of_singleton in Hk as ->.
        apply steps_next; [exact Hc|]. unfold k_next, k_any. set_solver.
      - apply rtc_once, k_step_dead; try done.
        change (in_flight TPrepare r o + in_flight TStart r o + stale r (pop rest o)
                <= in_flight TPrepare r o + in_flight TStart r o + stale r o)%nat.
        rewrite (stale_pop s rest o h it r H Hx). case_decide; lia. }
    destruct (decide (hd_token h = r_token r ∧ hd_generation h = r_generation r)) as [[E1 E2]|E].
    + destruct (is_current (MkCell r o)) eqn:Hc.
      * exfalso. apply (Hd r); [by rewrite E1, Ht|done| |done].
        apply (wf_bound _ _ Hw (h, it)); [|done]. rewrite (flying_pop s rest o H), Hx. by left.
      * apply rtc_once, k_step_dead; try done.
        change (in_flight TPrepare r (pop rest o) + in_flight TStart r (pop rest o) + stale r (pop rest o)
                <= in_flight TPrepare r o + in_flight TStart r o + stale r o)%nat.
        rewrite (stale_pop s rest o h it r H Hx), decide_False by tauto. unfold in_flight. rewrite (flying_pop s rest o H), Hx. cbn [app].
        rewrite mine_cons. case_decide; [|done]. rewrite !tally_cons. repeat case_decide; lia.
    + apply Hsame. rewrite (flying_pop s rest o H), Hx. cbn [app]. rewrite mine_cons. cbn [fst]. by case_decide.
Qed.

Section deliver.
Context {T : GoTables}.

Lemma Evo_deliver s rest o h it (any : bool) f :
  o_signals o = s :: rest → sig_item s = Some (h, it) →
  (any = false ∨ ∃ what, it = IOwed what) →
  (∀ r, Consistent o → Reach o → o_heap o !! hd_token h = Some r → is_current (MkCell r o) = true →
     Wf r o → Wf r (pop rest o) → hd_token h = r_token r → hd_issue h = ident r →
     (any = false → h = header_of r) →
     let c := MkCell r (pop rest o) in
     Local c (f c) ∧ rtc k_step (abs (MkCell r o)) (abs (f c))) →
  Evo o (deliver h any (λ t, on_record t f) (pop rest o)).
Proof.
  intros H Hx Hany Hf HO HR.
  assert (Hdrop : (∀ r, o_heap o !! hd_token h = Some r → is_current (MkCell r o) = true → hd_issue h = ident r →
        hd_generation h = r_generation r → False) → Consistent (pop rest o) ∧ Sim o (pop rest o)).
  { intros Hd. exact (Evo_pop_dropped s rest o h it H Hx Hd HO HR). }
  assert (Hcur : ∀ r, o_heap o !! hd_token h = Some r → is_current (MkCell r o) = true → hd_issue h = ident r →
    o_records o !! hd_issue h = Some (hd_token h) ∧ r_token r = hd_token h).
  { intros r Hr Hc Hi. destruct (ok_heap _ HO _ _ Hr) as (Ht & _). unfold is_current in Hc.
    apply bool_decide_eq_true_1 in Hc. cbn in Hc. fold (ident r) in Hc. rewrite Hi. split; [congruence|done]. }
  unfold deliver. change (o_records (pop rest o)) with (o_records o).
  destruct (o_records o !! hd_issue h) as [t|] eqn:Et.
  2:{ apply Hdrop. intros r Hr Hc Hi _. destruct (Hcur r Hr Hc Hi). congruence. }
  destruct (ok_records _ HO _ _ Et) as (r & Hr & Hi). destruct (ok_heap _ HO _ _ Hr) as (Ht & _ & Hw).
  unfold deref. change (o_heap (pop rest o)) with (o_heap o). rewrite Hr. cbn [default from_option id]. cbv zeta.
  destruct (hd_token h =? r_token r) eqn:Etok; cbn [negb].
  2:{ apply Hdrop. intros r' Hr' Hc' Hi' _. destruct (Hcur r' Hr' Hc' Hi') as [E _].
      apply Z.eqb_neq in Etok. congruence. }
  apply Z.eqb_eq in Etok. destruct (any || (hd_generation h =? r_generation r)) eqn:Eg.
  2:{ apply Hdrop. intros r' Hr' Hc' Hi' Hg'. apply orb_false_iff in Eg as [_ Eg]. apply Z.eqb_neq in Eg.
      rewrite Etok, Ht in Hr'. congruence. }
  assert (Htok : hd_token h = t) by congruence.
  assert (Hc : is_current (MkCell r o) = true).
  { unfold is_current. cbn. unfold ident in Hi. rewrite Hi, Et, Ht. by apply bool_decide_eq_true_2. }
  pose proof (Wf_pop s rest o r H Hw) as Hw1.
  refine (Evo_record t f r o (pop rest o) Hr eq_refl _ eq_refl eq_refl _ _ _ _ _ HO HR); try done.
  - intros x Hx'. rewrite (flying_pop s rest o H). apply elem_of_app. by right.
  - intros u Hu. symmetry. apply (inserted_others (h, it)); [by eapply pop_inserted|]. cbn. congruence.
  - rewrite H. intros Hs. by apply Forall_cons in Hs as [_ ?].
  - intros _ _ _. cbv zeta. destruct (Hf r) as [HL Hs]; try done.
    + by rewrite Htok.
    + intros ->. cbn in Eg. apply Z.eqb_eq in Eg. destruct h as [hi ht hg]. cbn in *. subst.
      done.
    + split_and!; [done|by left|done].
Qed.

(** The answer of a worker. *)
Lemma Evo_work s rest o h k f :
  o_signals o = s :: rest → sig_item s = Some (h, IWork k) →
  (∀ c, Good c → (k = TStart → k_open (abs c) = false) → Local c (f c) ∧ abs (f c) ∈ k_answer k (abs c)) →
  Evo o (deliver h false (λ t, on_record t f) (pop rest o)).
Proof.
  intros H Hx Hf. apply (Evo_deliver s rest o h (IWork k) false f H Hx); [by left|].
  intros r HO HR Hr Hc Hw Hw1 Ht Hi Hh. cbv zeta. specialize (Hh eq_refl).
  assert (Ha : abs (MkCell r o) = k_more k (abs (MkCell r (pop rest o)))).
  { apply abs_inserted; [|done..]. rewrite <- Hh. by eapply pop_inserted. }
  assert (Hre : k_reach (abs (MkCell r o))) by (eapply HR, view_Some; eauto).
  destruct (Hf (MkCell r (pop rest o)) Hw1) as [HL Hin].
  { intros ->. destruct (k_reach_live _ Hre Hc) as [Hs _]. rewrite Ha in Hs. unfold k_safe in Hs.
    repeat (apply andb_true_iff in Hs as [Hs ?]).
    match goal with H0 : implb (negb (k_none (n_start _))) _ = true |- _ => cbn in H0; by apply negb_true_iff in H0 end. }
  split; [done|]. apply steps_next; [exact Hc|]. rewrite Ha. by apply k_answer_next.
Qed.

(** An event of a run, or the end of its events. *)
Lemma abs_pop_pump s rest o h it r :
  o_signals o = s :: rest → sig_item s = Some (h, it) → is_pump it = true → h = header_of r →
  k_open (abs (MkCell r o)) = true
  ∧ abs (MkCell r (pop rest o)) = abs (MkCell r o) <| k_open := is_cons (pump r (pop rest o)) |>.
Proof.
  intros H Hx Hp Hh. assert (Hd : hd_token h = r_token r ∧ hd_generation h = r_generation r) by (by subst).
  pose proof (pump_pop _ _ _ _ _ r H Hx) as Hpump. rewrite decide_True, Hp in Hpump by done. split.
  - cbn [k_open abs c_r c_o]. by rewrite Hpump.
  - assert (Hm : ∀ k, in_flight k r (pop rest o) = in_flight k r o).
    { intros k. unfold in_flight. rewrite (flying_pop s rest o H), Hx. cbn [app]. rewrite mine_cons. cbn [fst snd].
      rewrite decide_True by done. rewrite tally_cons. by destruct it. }
    unfold abs. cbn [c_r c_o]. rewrite (stale_pop s rest o h it r H Hx), decide_False by tauto. by rewrite !Hm.
Qed.

Lemma k_onRunEvent_next v b v' :
  k_open v = true → v' ∈ k_onRunEvent (v <| k_open := b |>) → v' ∈ k_next v.
Proof.
  intros Ho Hv. unfold k_next, k_live. rewrite Ho, !elem_of_app. destruct b; [|tauto].
  replace (v <| k_open := true |>) with v in Hv; [tauto|]. destruct v. cbn in *. by subst.
Qed.

Lemma k_onEventsClosed_next v v' :
  k_open v = true → v' ∈ k_onEventsClosed (v <| k_open := false |>) → v' ∈ k_next v.
Proof. intros Ho Hv. unfold k_next, k_live. rewrite Ho, !elem_of_app. tauto. Qed.

Lemma Evo_runEvent rest o h ev :
  o_signals o = SigRunEvent h ev :: rest →
  Evo o (deliver h false (λ t, on_record t (onRunEvent ev)) (pop rest o)).
Proof.
  intros H. apply (Evo_deliver _ rest o h IEvent false _ H eq_refl); [by left|].
  intros r HO HR Hr Hc Hw Hw1 Ht Hi Hh. cbv zeta. split; [apply local_op|].
  destruct (abs_pop_pump _ _ _ h IEvent r H eq_refl eq_refl (Hh eq_refl)) as [Ho Ha].
  apply steps_next; [exact Hc|]. eapply k_onRunEvent_next; [done|]. rewrite <- Ha. apply abs_onRunEvent.
Qed.

Lemma Evo_eventsClosed rest o h saw :
  o_signals o = SigEventsClosed h saw :: rest →
  Evo o (deliver h false (λ t, on_record t (onEventsClosed saw)) (pop rest o)).
Proof.
  intros H. apply (Evo_deliver _ rest o h IClosed false _ H eq_refl); [by left|].
  intros r HO HR Hr Hc Hw Hw1 Ht Hi Hh. cbv zeta. split; [apply local_op|].
  destruct (abs_pop_pump _ _ _ h IClosed r H eq_refl eq_refl (Hh eq_refl)) as [Ho Ha].
  pose proof (pump_pop _ _ _ h IClosed r H eq_refl) as Hp. rewrite decide_True in Hp by (by rewrite (Hh eq_refl)).
  cbn [is_pump] in Hp. pose proof (wf_pump _ _ Hw) as Hs. rewrite Hp in Hs. apply pump_shape_closed in Hs.
  rewrite Hs in Ha. apply steps_next; [exact Hc|]. eapply k_onEventsClosed_next; [done|].
  change (is_cons []) with false in Ha. rewrite <- Ha. by apply abs_onEventsClosed.
Qed.

(** An owed effect that was carried out. *)
Lemma Evo_effectDone rest o h what err :
  o_signals o = SigEffectDone h what err :: rest →
  Evo o (deliver h true (λ t, on_record t (onEffectDone what err)) (pop rest o)).
Proof.
  intros H. apply (Evo_deliver _ rest o h (IOwed what) true _ H eq_refl); [right; eauto|].
  intros r HO HR Hr Hc Hw Hw1 Ht Hi _. cbv zeta.
  pose proof (owed_pop _ _ _ h (IOwed what) (r_token r) H eq_refl) as Hp. cbv iota in Hp.
  rewrite decide_True in Hp by done.
  destruct (wf_owed _ _ Hw) as [E|(eff & l & Ho & _ & E)]; [congruence|]. rewrite Hp in E.
  injection E as E1 E2. split; [by apply Local_onEffectDone|].
  assert (Ha : abs (MkCell r (pop rest o)) = abs (MkCell r o)).
  { assert (Hm : ∀ k, in_flight k r (pop rest o) = in_flight k r o).
    { intros k. unfold in_flight. rewrite (flying_pop _ rest o H). cbn [sig_item app]. rewrite mine_cons. cbn [fst snd].
      case_decide; [|done]. by rewrite tally_cons. }
    assert (Hpu : pump r (pop rest o) = pump r o).
    { rewrite (pump_pop _ _ _ h (IOwed what) r H eq_refl). cbn. by case_decide. }
    unfold abs. cbn [c_r c_o]. rewrite (stale_pop _ rest o h (IOwed what) r H eq_refl), decide_False by (intros [_ ?]; done).
    by rewrite !Hm, Hpu. }
  assert (Hin : abs (onEffectDone what err (MkCell r (pop rest o))) ∈ k_onEffectDone (abs (MkCell r (pop rest o)))).
  { apply abs_onEffectDone. exists eff, l. by split. }
  rewrite Ha in Hin. apply steps_next; [exact Hc|]. in_next.
Qed.

(** *** Signals that answer no worker *)

Lemma Evo_deliver_plain P h any f o :
  LocalOp f → Handler P f → (∀ c, P c) → Evo o (deliver h any (λ t, on_record t f) o).
Proof.
  intros HL Hf HP. unfold deliver. destruct (o_records o !! hd_issue h) as [t|] eqn:E; [|done]. cbv zeta.
  destruct (negb _); [done|]. destruct (_ || _); [|done]. by eapply (Evo_on_record P).
Qed.

Lemma Handler_onHandleDone : Handler (λ _, True) onHandleDone.
Proof. apply Handler_next. intros c Hw _. pose proof (abs_onHandleDone c Hw). in_next. Qed.

Lemma Handler_onOwedConfirmed fresh err : Handler (λ _, True) (onOwedConfirmed fresh err).
Proof.
  intros c Hw Hc _. destruct (abs_onOwedConfirmed fresh err c) as [H|H]; [by rewrite H|].
  apply steps_next; [exact Hc|]. in_next.
Qed.

Lemma Handler_onClaimAnchor anchor sup aerr rev err : Handler (λ _, True) (onClaimAnchor anchor sup aerr rev err).
Proof. apply Handler_next. intros c Hw _. pose proof (abs_onClaimAnchor anchor sup aerr rev err c). in_next. Qed.

Lemma Handler_onDoneOwnership fresh err : Handler (λ _, True) (onDoneOwnership fresh err).
Proof. apply Handler_next. intros c Hw _. pose proof (abs_onDoneOwnership fresh err c). in_next. Qed.

Lemma Handler_onParkedConfirmed fresh settled err : Handler (λ _, True) (onParkedConfirmed fresh settled err).
Proof. apply Handler_next. intros c Hw _. pose proof (abs_onParkedConfirmed fresh settled err c Hw). in_next. Qed.

(** The bookkeeping of ended cycles commutes with taking the signal. *)
Lemma oweEndedCycle_pop id ws w why rest o :
  oweEndedCycle id ws w why (pop rest o) = pop rest (oweEndedCycle id ws w why o).
Proof. unfold oweEndedCycle. cbv zeta. destruct (_ || _); [done|]. cbn. by destruct (_ !! _). Qed.

Lemma adoptDurableEndedCycles_pop ws refs rest o :
  adoptDurableEndedCycles ws refs (pop rest o) = pop rest (adoptDurableEndedCycles ws refs o).
Proof.
  unfold adoptDurableEndedCycles. revert o. induction refs as [|ref refs IH]; intros o; [done|].
  cbn [foldl]. by rewrite oweEndedCycle_pop, IH.
Qed.

Lemma applyCycleScan_pop ws refs err clear rest o :
  applyCycleScan ws refs err clear (pop rest o)
  = ((applyCycleScan ws refs err clear o).1, pop rest (applyCycleScan ws refs err clear o).2).
Proof.
  unfold applyCycleScan. destruct (negb _); [done|]. rewrite adoptDurableEndedCycles_pop. by destruct clear.
Qed.

Lemma cycle_answer_pop cycle rest o :
  cycle_answer cycle (pop rest o) = ((cycle_answer cycle o).1, pop rest (cycle_answer cycle o).2).
Proof.
  unfold cycle_answer. destruct cycle as [cy|]; [|done]. cbv zeta.
  change (o_cycleMutationsInFlight (pop rest o)) with (o_cycleMutationsInFlight o).
  set (o1 := if o_cycleMutationsInFlight o <=? 0 then o <| _ := _ |> else _).
  set (o1' := if o_cycleMutationsInFlight o <=? 0 then pop rest o <| _ := _ |> else _).
  assert (E : o1' = pop rest o1) by (subst o1 o1'; by destruct (_ <=? 0)). rewrite E. clearbody o1.
  rewrite applyCycleScan_pop. destruct (negb _); [done|]. cbn [fst snd].
  change (o_cycleMutationSeq (pop rest o1)) with (o_cycleMutationSeq o1).
  by destruct (_ =? _).
Qed.

Lemma Evo_untagged s rest o o' :
  o_signals o = s :: rest → sig_item s = None → Evo (pop rest o) o' → Evo o o'.
Proof. intros H Hx He. etrans; [by eapply Evo_pop_untagged|done]. Qed.

(** A worker's answer, when the handler is local and refines the control machine's. *)
Lemma Evo_worker s rest o h k f :
  LocalOp f → o_signals o = s :: rest → sig_item s = Some (h, IWork k) →
  (∀ c, Good c → abs (f c) ∈ k_answer k (abs c)) →
  Evo o (deliver h false (λ t, on_record t f) (pop rest o)).
Proof. intros HL H Hx Hf. eapply Evo_work; [done..|]. intros c Hw _. split; [apply local_op|by apply Hf]. Qed.

Lemma Evo_dispatch_signal s rest o :
  o_signals o = s :: rest → signal_ok s → Evo o (dispatch_signal s (pop rest o)).
Proof.
  intros H Hok.
  destruct s; cbn [dispatch_signal]; cbv zeta;
    try (eapply (Evo_untagged _ _ _ _ H eq_refl));
    try (apply Evo_still; exact (still_op _)).
  - apply Evo_onTick.
  - apply Evo_onReconciled.
  - by apply Evo_onTickResult.
  - eapply Evo_worker; [apply _|done|done|]. intros. apply abs_onClaimed.
  - eapply Evo_worker; [apply _|done|done|]. intros. apply abs_onApproved.
  - rewrite cycle_answer_pop. pose proof (still_cycle_answer cycle o) as Hst.
    destruct (cycle_answer cycle o) as [okc o1]. cbn [fst snd] in *. eapply Evo_still_l; [exact Hst|].
    assert (H1 : o_signals o1 = SigClaimBaseBegun h err claimBase claimBaseErr cycle :: rest)
      by (by rewrite (st_signals _ _ Hst)).
    eapply Evo_worker; [apply _|exact H1|done|]. intros. apply abs_onClaimBaseBegun.
  - eapply Evo_worker; [apply _|done|done|]. intros. by apply abs_onPrepared.
  - eapply Evo_work; [done|done|]. intros c Hw Ho. split; [apply Local_onStarted; by apply Ho|]. by apply abs_onStarted.
  - by apply Evo_runEvent.
  - by apply Evo_eventsClosed.
  - by eapply (Evo_deliver_plain (λ _, True)); [apply _|apply Handler_onHandleDone|].
  - eapply Evo_worker; [apply _|done|done|]. intros. by apply abs_onProbed.
  - eapply Evo_worker; [apply _|done|done|]. intros. by apply abs_onSummarized.
  - eapply Evo_worker; [apply _|done|done|]. intros. by apply abs_onVerified.
  - eapply Evo_worker; [apply _|done|done|]. intros. by apply abs_onStopped.
  - eapply Evo_worker; [apply _|done|done|]. intros. apply elem_of_app. right. in_one. apply abs_onTimer.
  - eapply Evo_worker; [apply _|done|done|]. intros. apply elem_of_app. left. apply abs_onTimerFetched.
  - by apply Evo_effectDone.
  - by eapply (Evo_deliver_plain (λ _, True)); [apply _|apply Handler_onOwedConfirmed|].
  - by eapply (Evo_deliver_plain (λ _, True)); [apply _|apply Handler_onClaimAnchor|].
  - by eapply (Evo_deliver_plain (λ _, True)); [apply _|apply Handler_onDoneOwnership|].
  - apply Evo_onCycleDisposed.
  - by eapply (Evo_deliver_plain (λ _, True)); [apply _|apply Handler_onParkedConfirmed|].
  - apply Evo_onShutdown.
  - unfold deliver. destruct (o_records (pop rest o) !! hd_issue h) as [t|] eqn:E; [|done]. cbv zeta.
    destruct (negb _); [done|]. cbn [orb]. by eapply Evo_onRecovered.
  - by apply Evo_onRecoveryScan.
  - apply Evo_onCycleScan.
Qed.

Lemma Evo_turn s rest o : o_signals o = s :: rest → Evo o (turn s (pop rest o)).
Proof.
  intros H HO HR. unfold turn, handle.
  assert (Hok : signal_ok s) by (pose proof (ok_signals _ HO) as Hs; rewrite H in Hs; by apply Forall_cons in Hs as [? _]).
  pose proof (Evo_dispatch_signal s rest o H Hok) as He. revert He. generalize (dispatch_signal s (pop rest o)).
  intros o1 He. refine (Evo_op_r publishIdentityWork o _ _ _ HO HR). etrans; [exact He|apply Evo_driveShutdown].
Qed.

(** ** Workers, pumps and effects *)

(** Mail changes hands. *)
Lemma Evo_moved o o' :
  o_heap o' = o_heap o → o_nextToken o' = o_nextToken o → o_records o' = o_records o →
  o_draining o' = o_draining o → flying o' ≡ₚ flying o →
  (∀ r, pump r o' = pump r o) →
  (Forall signal_ok (o_signals o) → Forall signal_ok (o_signals o')) → Evo o o'.
Proof.
  intros Hh Hn Hr Hd Hf Hp Hs. apply Evo_same; try done; [by rewrite Hd|lia|intros x; rewrite Hf; eauto| |].
  - intros t r _ [Wb Wp Wo]. split.
    + intros x. rewrite Hf. apply Wb.
    + by rewrite Hp.
    + assert (Hperm : owed_mail (r_token r) o' ≡ₚ owed_mail (r_token r) o).
      { unfold owed_mail, owed_in, to_token. by rewrite Hf. }
      destruct Wo as [E|(eff & l & E1 & E2 & E)]; rewrite E in Hperm.
      * left. by apply Permutation_nil_r.
      * right. exists eff, l. split_and!; [done..|]. by apply Permutation_singleton_r.
  - intros t r _ _ _. replace (abs (MkCell r o')) with (abs (MkCell r o)); [done|].
    assert (Hm : ∀ k, in_flight k r o' = in_flight k r o).
    { intros k. unfold in_flight, tally, mine. by rewrite Hf. }
    assert (Hst : stale r o' = stale r o) by (unfold stale, stale_in; by rewrite Hf).
    unfold abs, is_current. cbn [c_r c_o]. by rewrite !Hm, Hp, Hr, Hd, Hst.
Qed.

Lemma works_split o l1 j l2 :
  o_jobs o = l1 ++ j :: l2 →
  works o = omap job_item l1 ++ match job_item j with Some x => [x] | None => [] end ++ omap job_item l2.
Proof. intros H. unfold works. rewrite H, omap_app. cbn. by destruct (job_item j). Qed.

Lemma inbox_push s o :
  inbox (push s o) = inbox o ++ match sig_item s with Some x => [x] | None => [] end.
Proof. unfold inbox, push. cbn. rewrite omap_app. cbn. by destruct (sig_item s). Qed.

(** The pump items of a list of jobs are open streams. *)
Lemma pump_jobs r l i : i ∈ filter (λ i, is_pump i = true) (mine r (omap job_item l)) → i = IOpen.
Proof.
  rewrite list_elem_of_filter. intros [Hp Hi]. unfold mine in Hi.
  apply list_elem_of_fmap in Hi as ([h it] & -> & Hi). apply list_elem_of_filter in Hi as [_ Hi].
  apply list_elem_of_omap in Hi as (j & _ & Hj). cbn [snd] in *. destruct j; cbn in Hj; repeat case_match; simplify_eq; done.
Qed.

Lemma pump_app r m1 m2 :
  filter (λ i, is_pump i = true) (mine r (m1 ++ m2))
  = filter (λ i, is_pump i = true) (mine r m1) ++ filter (λ i, is_pump i = true) (mine r m2).
Proof. by rewrite mine_app, filter_app. Qed.

(** The news a worker sends is what it was at work on. *)
Lemma Evo_handed o l1 j l2 s :
  o_jobs o = l1 ++ j :: l2 → sig_item s = job_item j →
  (∀ h it, job_item j = Some (h, it) → is_pump it = false) → signal_ok s →
  Evo o (push s (o <| o_jobs := l1 ++ l2 |>)).
Proof.
  intros Hj Hs Hp Hok. set (o' := push s (o <| o_jobs := l1 ++ l2 |>)).
  assert (Hf' : flying o' = (inbox o ++ match job_item j with Some x => [x] | None => [] end) ++ outbox o
                            ++ omap job_item l1 ++ omap job_item l2).
  { unfold flying, o'. rewrite inbox_push, Hs. unfold works. cbn. by rewrite omap_app. }
  assert (Hf : flying o = inbox o ++ outbox o ++ omap job_item l1
                          ++ match job_item j with Some x => [x] | None => [] end ++ omap job_item l2).
  { unfold flying. by rewrite (works_split o l1 j l2 Hj). }
  apply Evo_moved; try done.
  - rewrite Hf, Hf'. generalize (match job_item j with Some x => [x] | None => [] end). intros m. solve_Permutation.
  - intros r. unfold pump. rewrite Hf, Hf', !pump_app.
    replace (filter _ (mine r (match job_item j with Some x => [x] | None => [] end))) with (@nil item); [by rewrite !app_nil_r|].
    destruct (job_item j) as [[h it]|]; [|done]. rewrite mine_cons. case_decide; [|done].
    rewrite filter_cons_False; [done|]. cbn. by rewrite (Hp h it).
  - intros Hall. apply Forall_app_2; [done|]. by constructor.
Qed.

(** *** What recovery read is about the issue it was asked about *)

Lemma recovery_marker_issue cfg issue cur rd ws facts :
  rf_issue (recovery_marker cfg issue cur rd ws facts).1 = rf_issue facts.
Proof. unfold recovery_marker. repeat (case_match; simplify_eq/=); done. Qed.

Lemma read_recoveryFacts_issue cfg issue cur rd : rf_issue (read_recoveryFacts cfg issue cur rd).1 = issue.
Proof.
  unfold read_recoveryFacts. repeat (case_match; simplify_eq/=; try done).
  by rewrite recovery_marker_issue.
Qed.

Lemma classify_issue cfg facts cur read v facts' :
  (classify cfg facts cur read).1 = (v, facts') → rf_issue facts' = rf_issue facts.
Proof. unfold classify. intros H. repeat (case_match; simplify_eq/=; try done). Qed.

Lemma read_and_classify_issue cfg issue cur rd v facts err :
  read_and_classify cfg issue cur rd = (Some (v, facts), err) → rf_issue facts = issue.
Proof.
  unfold read_and_classify. pose proof (read_recoveryFacts_issue cfg issue cur rd) as Hi.
  destruct (read_recoveryFacts cfg issue cur rd) as [f [e|]]; [done|]. cbn in Hi.
  pose proof (classify_issue cfg f cur (rd_LastFailure rd)) as Hc.
  destruct (classify cfg f cur (rd_LastFailure rd)) as [[v' f'] [e|]]; [done|]. intros [= -> -> <-].
  rewrite (Hc v facts eq_refl). done.
Qed.

Lemma recover_worker_ok cfg h cur get rd :
  (∀ fresh, get.1 = Some fresh → is_Identifier fresh = hd_issue h) →
  sig_item (recover_worker cfg h cur get rd) = None ∧ signal_ok (recover_worker cfg h cur get rd).
Proof.
  intros Hg. unfold recover_worker. destruct (err_Is _ _); [split; [done|by right]|].
  destruct get as [[fresh|] [e|]]; try done. destruct (negb _); [split; [done|by right]|].
  pose proof (read_and_classify_issue cfg fresh cur rd) as Hi.
  destruct (read_and_classify cfg fresh cur rd) as [[[v facts]|] err]; [|done]. split; [done|]. left.
  rewrite (Hi v facts err eq_refl). by apply Hg.
Qed.

(** Every worker sends what it was at work on, within the contracts. *)
Lemma finishes_item o j s :
  finishes o j s →
  sig_item s = job_item j ∧ (∀ h it, job_item j = Some (h, it) → is_pump it = false) ∧ signal_ok s.
Proof.
  intros H. destruct H; cbn [job_item]; try (split_and!; [done|by intros ? ? [= <- <-]|done]); try done.
  - unfold approve_worker. destruct hist as [ev [e|]]; [|destruct (readApproval _ _)];
      (split_and!; [done|by intros ? ? [= <- <-]|done]).
  - unfold claimBase_worker. destruct (if is_nil begin then _ else _);
      (split_and!; [done|by intros ? ? [= <- <-]|done]).
  - unfold start_worker. destruct marker as [e|]; (split_and!; [done|by intros ? ? [= <- <-]|done]).
  - unfold verify_worker. destruct hist as [ev [e|]]; [|cbv zeta; repeat case_match];
      (split_and!; [done|by intros ? ? [= <- <-]|done]).
  - unfold timer_worker. cbv zeta. repeat case_match; (split_and!; [done|by intros ? ? [= <- <-]|done]).
  - unfold anchor_worker. destruct (cycleSuperseded _ _ _). done.
  - unfold heldHistory_worker. cbv zeta. destruct (cycleSuperseded _ _ _). done.
  - unfold dispatch_worker. destruct (is_nil _); (split_and!; [done|done|]); [by apply Forall_forall|constructor].
  - destruct (recover_worker_ok (o_cfg o) h cur get rd) as [-> ?]; done.
  - split_and!; try done. by apply Forall_forall.
Qed.

(** *** The pump of a run *)

Lemma tally_pump k r x : is_pump x.2 = true → tally k (mine r [x]) = O.
Proof. intros H. rewrite mine_cons. case_decide; [|done]. rewrite tally_cons. by destruct (x.2). Qed.

Lemma stale_pump r x : is_pump x.2 = true → stale_in r [x] = O.
Proof. intros H. rewrite stale_cons, decide_False; [done|]. intros [_ Hl]. destruct x as [h []]; done. Qed.

Lemma owed_pump t x : is_pump x.2 = true → owed_in (to_token t [x]) = [].
Proof. intros H. unfold to_token. rewrite filter_cons. case_decide; [|done]. destruct x as [h []]; done. Qed.

Lemma owed_in_app t m1 m2 : owed_in (to_token t (m1 ++ m2)) = owed_in (to_token t m1) ++ owed_in (to_token t m2).
Proof. unfold owed_in, to_token. by rewrite filter_app, omap_app. Qed.

Lemma pump_outbox r o : filter (λ i, is_pump i = true) (mine r (outbox o)) = [].
Proof.
  apply elem_of_nil_inv. intros i [Hp Hi]%list_elem_of_filter. unfold mine in Hi.
  apply list_elem_of_fmap in Hi as ([h it] & -> & Hi). apply list_elem_of_filter in Hi as [_ Hi].
  apply list_elem_of_omap in Hi as (e & _ & He). by destruct e; simplify_eq/=.
Qed.

Lemma pump_shape_open a b c :
  pump_shape (a ++ b ++ IOpen :: c) → (∀ i, i ∈ b → i = IOpen) →
  ∃ n, a = repeat IEvent n ∧ b = [] ∧ c = [].
Proof.
  intros (n & tl & H & Ht) Hb.
  assert (Hlast : tl = [IOpen] ∧ a ++ b = repeat IEvent n ∧ c = []).
  { revert H. rewrite (app_assoc a). generalize (a ++ b). clear Hb. revert c. induction n as [|n IH]; intros c l H.
    - repeat (apply elem_of_cons in Ht as [->|Ht]; [destruct l as [|? [|]]; simplify_eq/=; done|]).
      by apply not_elem_of_nil in Ht.
    - destruct l as [|i l]; [done|]. cbn in H. injection H as -> H. destruct (IH c l H) as (-> & -> & ->). done. }
  destruct Hlast as (_ & Hab & ->). destruct b as [|i b].
  - exists n. by rewrite app_nil_r in Hab.
  - assert (Hi : i ∈ repeat IEvent n) by (rewrite <- Hab; set_solver).
    apply list_elem_of_In, repeat_spec in Hi. rewrite (Hb i) in Hi by (by left). done.
Qed.

(** An open pump sends an event and goes on, or the end of its events. *)
Lemma Evo_pumped o l1 j l2 j' h s it :
  o_jobs o = l1 ++ j :: l2 → job_item j = Some (h, IOpen) → sig_item s = Some (h, it) →
  (it = IEvent ∧ job_item j' = Some (h, IOpen) ∨ it = IClosed ∧ job_item j' = None) → signal_ok s →
  Evo o (push s (o <| o_jobs := l1 ++ j' :: l2 |>)).
Proof.
  intros Hj Hi Hs Hk Hok. set (o' := push s (o <| o_jobs := l1 ++ j' :: l2 |>)).
  set (w1 := omap job_item l1). set (w2 := omap job_item l2).
  set (wj := match job_item j' with Some x => [x] | None => [] end).
  assert (Hf : flying o = inbox o ++ outbox o ++ w1 ++ [(h, IOpen)] ++ w2).
  { unfold flying. by rewrite (works_split o l1 j l2 Hj), Hi. }
  assert (Hf' : flying o' = inbox o ++ [(h, it)] ++ outbox o ++ w1 ++ wj ++ w2).
  { assert (Hj' : o_jobs o' = l1 ++ j' :: l2) by reflexivity.
    unfold flying. rewrite (works_split o' l1 j' l2 Hj'). unfold o' at 1. rewrite inbox_push, Hs. by rewrite <- app_assoc. }
  assert (Hit : is_pump it = true) by (by destruct Hk as [[-> _]|[-> _]]).
  assert (Hwj : wj = [] ∨ wj = [(h, IOpen)]) by (unfold wj; destruct Hk as [[_ ->]|[_ ->]]; auto).
  assert (Hp : ∀ r, Wf r o → pump_shape (pump r o') ∧ is_cons (pump r o') = is_cons (pump r o)).
  { intros r Hw. pose proof (wf_pump _ _ Hw) as Hsh. revert Hsh. unfold pump. rewrite Hf, Hf', !pump_app, !pump_outbox.
    destruct (decide (hd_token h = r_token r ∧ hd_generation h = r_generation r)) as [E|E].
    - replace (mine r [(h, IOpen)]) with [IOpen] by (rewrite mine_cons; by rewrite decide_True).
      replace (mine r [(h, it)]) with [it] by (rewrite mine_cons; by rewrite decide_True).
      cbn [app]. rewrite (filter_cons_True _ IOpen []) by done. rewrite (filter_cons_True _ it []) by done. rewrite !filter_nil. cbn [app].
      intros Hsh. apply pump_shape_open in Hsh as (n & -> & Hb & Hc); [|intros i; apply pump_jobs].
      rewrite Hb, Hc. cbn [app]. unfold wj.
      destruct Hk as [[-> ->]|[-> ->]].
      + rewrite mine_cons, decide_True by done. cbn [snd]. rewrite filter_cons_True by done. split; [|by destruct n].
        exists (S n), [IOpen]. split; [|set_solver]. cbn [repeat]. rewrite repeat_cons, <- app_assoc. done.
      + split; [|by destruct n]. exists n, [IClosed]. split; [done|set_solver].
    - replace (mine r [(h, IOpen)]) with (@nil item) by (rewrite mine_cons; by rewrite decide_False).
      replace (mine r [(h, it)]) with (@nil item) by (rewrite mine_cons; by rewrite decide_False).
      replace (mine r wj) with (@nil item); [done|].
      destruct Hwj as [->| ->]; [done|]. rewrite mine_cons; by rewrite decide_False. }
  assert (Ht : ∀ k r, in_flight k r o' = in_flight k r o).
  { intros k r. unfold in_flight. rewrite Hf, Hf', !mine_app, !tally_app, (tally_pump k r (h, it)),
      (tally_pump k r (h, IOpen)) by done. destruct Hwj as [->| ->]; [done|]. by rewrite tally_pump. }
  assert (Hst : ∀ r, stale r o' = stale r o).
  { intros r. unfold stale. rewrite Hf, Hf', !stale_app, (stale_pump r (h, it)), (stale_pump r (h, IOpen)) by done.
    destruct Hwj as [->| ->]; [done|]. by rewrite stale_pump. }
  assert (Ho : ∀ t, owed_mail t o' = owed_mail t o).
  { intros t. unfold owed_mail. rewrite Hf, Hf', !owed_in_app, (owed_pump t (h, it)), (owed_pump t (h, IOpen)) by done.
    destruct Hwj as [->| ->]; [done|]. by rewrite owed_pump. }
  assert (Hx : ∀ x, x ∈ flying o' → ∃ y, y ∈ flying o ∧ y.1 = x.1).
  { intros x. rewrite Hf, Hf', !elem_of_app, list_elem_of_singleton. intros Hx.
    assert (x = (h, it) ∨ x ∈ wj ∨ x ∈ inbox o ++ outbox o ++ w1 ++ [(h, IOpen)] ++ w2) as [->|[Hw|?]]
      by (rewrite !elem_of_app; tauto).
    - exists (h, IOpen). split; [set_solver|done].
    - exists x. split; [|done]. destruct Hwj as [E|E]; rewrite E in Hw; [by apply not_elem_of_nil in Hw|]. set_solver.
    - exists x. by rewrite elem_of_app in *; rewrite !elem_of_app in *. }
  apply Evo_same; try done.
  - intros x (y & ? & E)%Hx. exists y. by rewrite E.
  - intros Hall. apply Forall_app_2; [done|]. by constructor.
  - intros t r _ Hw. split.
    + intros x (y & Hy & <-)%Hx. by apply (wf_bound _ _ Hw).
    + by apply Hp.
    + rewrite Ho. apply (wf_owed _ _ Hw).
  - intros t r _ Hw _. replace (abs (MkCell r o')) with (abs (MkCell r o)); [done|].
    unfold abs, is_current. cbn [c_r c_o]. rewrite !Ht, Hst. destruct (Hp r Hw) as [_ ->]. done.
Qed.

(** The pump of a cancelled run gives up: what it has sent is still on its way. *)
Lemma Evo_unpumped o l1 j l2 :
  o_jobs o = l1 ++ j :: l2 → (job_item j = None ∨ ∃ h, job_item j = Some (h, IOpen)) →
  Evo o (o <| o_jobs := l1 ++ l2 |>).
Proof.
  intros Hj Hi. set (o' := o <| o_jobs := l1 ++ l2 |>).
  set (w1 := omap job_item l1). set (w2 := omap job_item l2).
  set (wj := match job_item j with Some x => [x] | None => [] end).
  assert (Hf : flying o = inbox o ++ outbox o ++ w1 ++ wj ++ w2).
  { unfold flying. by rewrite (works_split o l1 j l2 Hj). }
  assert (Hf' : flying o' = inbox o ++ outbox o ++ w1 ++ w2).
  { unfold flying, o', works. cbn. by rewrite omap_app. }
  assert (Hwj : wj = [] ∨ ∃ h, wj = [(h, IOpen)]) by (unfold wj; destruct Hi as [->|[h ->]]; eauto).
  assert (Ht : ∀ k r, in_flight k r o' = in_flight k r o).
  { intros k r. unfold in_flight. rewrite Hf, Hf', !mine_app, !tally_app.
    destruct Hwj as [->|[h ->]]; [done|]. by rewrite (tally_pump k r). }
  assert (Hst : ∀ r, stale r o' = stale r o).
  { intros r. unfold stale. rewrite Hf, Hf', !stale_app. destruct Hwj as [->|[h ->]]; [done|]. by rewrite stale_pump. }
  assert (Ho : ∀ t, owed_mail t o' = owed_mail t o).
  { intros t. unfold owed_mail. rewrite Hf, Hf', !owed_in_app.
    destruct Hwj as [->|[h ->]]; [done|]. by rewrite owed_pump. }
  assert (Hp : ∀ r, pump_shape (pump r o) → pump_shape (pump r o')).
  { intros r. unfold pump. rewrite Hf, Hf', !pump_app, !pump_outbox. cbn [app].
    destruct Hwj as [->|[h ->]]; [done|]. rewrite mine_cons. case_decide; [|done].
    rewrite filter_cons_True by done. change (mine r []) with (@nil item). rewrite filter_nil. cbn [app snd].
    intros Hs. apply pump_shape_open in Hs as (n & -> & Hb & Hc); [|intros i; apply pump_jobs].
    rewrite Hb, Hc. exists n, []. split; [done|set_solver]. }
  apply Evo_same; try done.
  - intros x. rewrite Hf, Hf'. exists x. split; [set_solver|done].
  - intros t r _ [Wb Wp Wo]. split.
    + intros x Hx. apply Wb. rewrite Hf. rewrite Hf' in Hx. set_solver.
    + by apply Hp.
    + by rewrite Ho.
  - intros t r _ Hw _.
    assert (Ha : abs (MkCell r o') = abs (MkCell r o) <| k_open := is_cons (pump r o') |>).
    { unfold abs, is_current. cbn [c_r c_o]. by rewrite !Ht, Hst. }
    rewrite Ha. destruct (is_current (MkCell r o)) eqn:Hc; [|by apply rtc_once, k_step_dead].
    assert (Hmono : is_cons (pump r o') = true → k_open (abs (MkCell r o)) = true).
    { cbn [k_open abs c_r c_o]. unfold pump. rewrite Hf, Hf', !pump_app. repeat destruct (filter _ _); done. }
    revert Hmono. change (is_current (MkCell r o)) with (k_alive (abs (MkCell r o))) in Hc. clear Ha.
    revert Hc. generalize (abs (MkCell r o)). intros v Hv. destruct (is_cons (pump r o')); intros Hmono.
    + replace (v <| k_open := true |>) with v; [done|]. destruct v. cbn in *. by rewrite Hmono.
    + apply steps_next; [done|]. unfold k_next, k_any. set_solver.
Qed.

(** *** Effects and signals that concern no record's control state *)

Lemma Evo_flying o o' :
  o_heap o' = o_heap o → o_nextToken o' = o_nextToken o → o_records o' = o_records o →
  o_draining o' = o_draining o → flying o' = flying o →
  (Forall signal_ok (o_signals o) → Forall signal_ok (o_signals o')) → Evo o o'.
Proof. intros ???? Hf ?. apply Evo_moved; try done; [by rewrite Hf|]. intros r. unfold pump. by rewrite Hf. Qed.

Lemma Evo_push s o : sig_item s = None → signal_ok s → Evo o (push s o).
Proof.
  intros Hs Hok. apply Evo_flying; try done.
  - unfold flying. rewrite inbox_push, Hs. by rewrite app_nil_r.
  - intros Hall. apply Forall_app_2; [done|]. by constructor.
Qed.

Lemma Evo_relabel o l1 j l2 j' :
  o_jobs o = l1 ++ j :: l2 → job_item j' = job_item j → Evo o (o <| o_jobs := l1 ++ j' :: l2 |>).
Proof.
  intros Hj Hi. apply Evo_flying; try done. unfold flying. f_equal. f_equal.
  rewrite (works_split o l1 j l2 Hj), <- Hi. unfold works. cbn. rewrite omap_app. cbn. by destruct (job_item j').
Qed.

Lemma Evo_effect o e rest s :
  o_effects o = e :: rest → runs_effect o e s → Evo o (push s (o <| o_effects := rest |>)).
Proof.
  intros He Hr. assert (Hi : sig_item s = eff_item e ∧ signal_ok s) by (by destruct Hr). destruct Hi as [Hi Hok].
  assert (Hf : flying o = inbox o ++ match eff_item e with Some x => [x] | None => [] end
                          ++ omap eff_item rest ++ works o).
  { unfold flying, outbox. rewrite He. cbn. by destruct (eff_item e). }
  assert (Hf' : flying (push s (o <| o_effects := rest |>))
                = (inbox o ++ match eff_item e with Some x => [x] | None => [] end) ++ omap eff_item rest ++ works o).
  { unfold flying. rewrite inbox_push, Hi. done. }
  apply Evo_moved; try done.
  - rewrite Hf, Hf'. by rewrite <- app_assoc.
  - intros r. unfold pump. rewrite Hf, Hf'. by rewrite <- app_assoc.
  - intros Hall. apply Forall_app_2; [done|]. by constructor.
Qed.

Lemma Evo_proceeds o l1 j l2 j' s :
  o_jobs o = l1 ++ j :: l2 → proceeds o j j' s →
  Evo o (match s with Some s => push s (o <| o_jobs := l1 ++ j' :: l2 |>) | None => o <| o_jobs := l1 ++ j' :: l2 |> end).
Proof.
  intros Hj H. destruct H; cbn [sig_item];
    try (by eapply Evo_relabel; [exact Hj|]);
    try (etrans; [|by apply Evo_push]; by eapply Evo_relabel; [exact Hj|]).
  - by eapply (Evo_pumped _ _ _ _ _ h _ IEvent); [exact Hj|done|done|left|].
  - by eapply (Evo_pumped _ _ _ _ _ h _ IClosed); [exact Hj|done|done|right|].
Qed.

(** ** The simulation *)

(** Every step of the system keeps the invariant, and is for each record steps of the control
    machine. *)
Lemma step_evo o o' : step o o' → Evo o o'.
Proof.
  intros H. destruct H as [s rest Hs _|l1 j l2 s Hj Hfin _|l1 j l2 j' s Hj Hp _|l1 j l2 j' Hj Hp
    |l1 p h hd st cn l2 Hj _|l1 p h hd st cl l2 Hj|e rest s He Hr _|s Hs _|now order _ _|err].
  - by apply Evo_turn.
  - destruct (finishes_item o j s Hfin) as (Hi & Hnp & Hok). by eapply Evo_handed.
  - exact (Evo_proceeds o l1 j l2 j' (Some s) Hj Hp).
  - exact (Evo_proceeds o l1 j l2 j' None Hj Hp).
  - etrans; [|by apply Evo_push]. by eapply Evo_unpumped; [exact Hj|left].
  - eapply Evo_unpumped; [exact Hj|]. destruct cl; cbn; eauto.
  - by eapply Evo_effect.
  - apply Evo_push; by destruct s.
  - by apply Evo_flying.
  - by apply Evo_flying.
Qed.
End deliver.
