(* ===== verification/OrchSafety.v ===== *)
(** * OrchSafety: what holds of every run of the orchestrator

    Every state of the system satisfies [Consistent], and the control state of each of its records is
    one the exploration of [OrchControl] found. What that says of the agents the daemon runs:
    at most one worker of a record uses its workspace, none beside a live agent; no workspace is
    disposed of under an agent, no agent is forgotten; a draining daemon starts none, and
    acknowledges the drain when every one is gone. *)

From S2P Require Import Prelude GoStd Update Core Template OrchState OrchRecover OrchRecord.
From S2P Require Import OrchApproval OrchPipeline OrchHeld OrchResume OrchLoop OrchControl.
From S2P Require Import OrchFrame OrchRefine OrchSystem OrchStep.

Section safety.
Context {T : GoTables}.

(** ** Startup *)

Lemma Consistent_New cfg cur now order : Consistent (New cfg cur now order).
Proof. split; try done. intros x Hx. by apply not_elem_of_nil in Hx. Qed.

Lemma Reach_New cfg cur now order : Reach (New cfg cur now order).
Proof. by intros t v (r & Hr & _)%view_Some. Qed.

Lemma records_adopt issue facts v cur state f o id :
  LocalOp f → id ≠ is_Identifier issue →
  o_records (let '(t, o) := adoptRecovered issue facts v cur state o in on_record t f o) !! id = o_records o !! id.
Proof.
  intros HL Hid. destruct (adoptRecovered_spec issue facts v cur state o)
    as (r & o' & -> & HA & Ht & _ & Hi & _). rewrite <- Ht. unfold on_record. rewrite deref_store.
  set (o1 := store_record (r_token r) r o') in *. pose proof (HL (MkCell r o1)) as [_ _ _ _ _ Lr _ _ _].
  cbn [c_r c_o] in Lr. cbn. destruct Lr as [Lr|Lr]; rewrite Lr, ?lookup_delete_ne, (al_records _ _ _ HA), lookup_insert_ne;
    congruence.
Qed.

Lemma records_recoverCandidate cur read o issue id :
  id ≠ is_Identifier issue → o_records (recoverCandidate cur read o issue) !! id = o_records o !! id.
Proof.
  intros Hid.
  assert (Hu : o_records (adoptUnclassified issue cur o) !! id = o_records o !! id) by (cbn; by rewrite lookup_insert_ne).
  unfold recoverCandidate. destruct (read_and_classify _ _ _ _) as [[[v facts]|] [e|]]; try exact Hu.
  unfold applyRecovery. cbv zeta. destruct (v_action v); try exact Hu;
    try (apply records_adopt; [intros c; local|done]).
  cbn. by rewrite lookup_delete_ne.
Qed.

Lemma Evo_recoverCandidates cur read candidates o :
  (∀ i, i ∈ candidates → named i ∧ o_records o !! is_Identifier i = None) →
  NoDup (is_Identifier <$> candidates) → Evo o (foldl (recoverCandidate cur read) o candidates).
Proof.
  revert o. induction candidates as [|i l IH]; intros o Hc Hd; [done|]. cbn [foldl].
  cbn in Hd. apply NoDup_cons in Hd as [Hi Hd]. destruct (Hc i ltac:(by left)) as [Hn Hnone].
  etrans; [|apply IH; [|done]].
  - unfold recoverCandidate. destruct (read_and_classify _ _ _ _) as [[[v facts]|] [e|]];
      try (by apply Evo_adoptUnclassified). by apply Evo_applyRecovery.
  - intros j Hj. destruct (Hc j ltac:(by right)). split; [done|]. rewrite records_recoverCandidate; [done|].
    intros E. apply Hi. rewrite <- E. by apply list_elem_of_fmap_2.
Qed.

Lemma Evo_Recover cycles candidates read sweep o :
  o_records o = ∅ → (∀ i, i ∈ candidates.1 → named i) → NoDup (is_Identifier <$> candidates.1) →
  Evo o (Recover cycles candidates read sweep o).
Proof.
  intros Hr Hn Hd. unfold Recover. cbv zeta. set (o1 := o <| o_recovered := true |>).
  assert (H1 : Still o o1) by by split. assert (Hr1 : o_records o1 = ∅) by done. clearbody o1.
  apply (Evo_still_l o o1); [done|].
  set (cy := if wk_endedCycles _ then _ else _).
  assert (H2 : Still o1 cy.2).
  { subst cy. destruct (wk_endedCycles _); [apply still_applyCycleScan|by split]. }
  destruct cy as [cycleErr o2]. cbn [snd] in H2. apply (Evo_still_l o1 o2); [done|].
  apply Evo_op_r; [apply _|]. destruct (negb _); [by apply Evo_still|]. destruct (negb _); [by apply Evo_still|].
  etrans; [apply (Evo_recoverCandidates (o_cur o1) read candidates.1 o2); [|done]|].
  { intros i Hi. split; [by apply Hn|]. by rewrite (st_records _ _ H2), Hr1. }
  generalize (foldl (recoverCandidate (o_cur o1) read) o2 candidates.1). intros o3.
  apply Evo_still. destruct (_ || _); by split.
Qed.

(** The invariant, and the control states of the records. *)
Lemma reachable_ok o : reachable o → Consistent o ∧ Reach o.
Proof.
  induction 1 as [cfg cur now order cycles candidates read sweep _ Hn Hd|o o' _ [HO HR] Hs].
  - pose proof (Consistent_New cfg cur now order) as HO. pose proof (Reach_New cfg cur now order) as HR.
    destruct (Evo_Recover cycles candidates read sweep (New cfg cur now order) eq_refl Hn Hd HO HR).
    split; [done|by eapply Sim_reach].
  - destruct (step_evo _ _ Hs HO HR). split; [done|by eapply Sim_reach].
Qed.

Lemma reachable_record o t r : reachable o → o_heap o !! t = Some r → r_token r = t ∧ k_reach (abs (MkCell r o)).
Proof.
  intros [HO HR]%reachable_ok Hr. destruct (ok_heap _ HO t r Hr) as (Ht & _). split; [done|].
  eapply HR, view_Some. eauto.
Qed.

Lemma current_iff o t r :
  r_token r = t → is_current (MkCell r o) = true ↔ o_records o !! ident r = Some t.
Proof. intros <-. unfold is_current, ident. cbn. apply bool_decide_eq_true. Qed.

Lemma reachable_current o id t :
  reachable o → o_records o !! id = Some t →
  ∃ r, o_heap o !! t = Some r ∧ deref t o = r ∧ r_token r = t ∧ k_reach (abs (MkCell r o))
       ∧ k_safe (abs (MkCell r o)) = true ∧ is_current (MkCell r o) = true.
Proof.
  intros Ho Hid. destruct (reachable_ok o Ho) as [HO _]. destruct (ok_records _ HO id t Hid) as (r & Hr & Hi).
  destruct (reachable_record o t r Ho Hr) as [Ht Hk]. exists r.
  assert (Hc : is_current (MkCell r o) = true) by (apply (current_iff o t r Ht); congruence).
  destruct (k_reach_live _ Hk Hc) as [Hs _]. split_and!; try done. unfold deref. by rewrite Hr.
Qed.

(** ** Workers in flight *)

(** What is in flight for the record of a token, of any generation: as a goroutine, or as the
    answer of one that the loop has not taken yet. *)
Definition busy (p : item → bool) (t : Z) (o : Orchestrator) : nat :=
  length (filter (λ x, hd_token x.1 = t ∧ p x.2 = true) (flying o)).

(** Preparing a workspace or starting an agent; starting an agent. *)
Definition launches : Z → Orchestrator → nat := busy is_launch.
Definition starts : Z → Orchestrator → nat := busy (λ i, bool_decide (i = IWork TStart)).

Lemma launches_abs r o : launches (r_token r) o = k_launch (abs (MkCell r o)).
Proof.
  change (k_launch (abs (MkCell r o))) with (in_flight TPrepare r o + in_flight TStart r o + stale r o)%nat.
  unfold launches, busy, stale, in_flight. induction (flying o) as [|x m IH]; [done|].
  rewrite filter_cons, stale_cons, mine_cons.
  destruct (decide (hd_token x.1 = r_token r)) as [Et|Et].
  - destruct (decide (hd_generation x.1 = r_generation r)) as [Eg|Eg].
    + rewrite (decide_True (P := (_ ∧ _ = r_generation r))) by done.
      rewrite (decide_False (P := ((_ ∧ _ ≠ r_generation r) ∧ _))) by tauto. rewrite !tally_cons.
      destruct (x.2) as [[]| | | |]; cbn [is_launch]; repeat case_decide; try done; try tauto; cbn [length]; lia.
    + rewrite (decide_False (P := (_ ∧ _ = r_generation r))) by tauto.
      destruct (is_launch x.2); repeat case_decide; try tauto; cbn [length]; lia.
  - repeat (rewrite decide_False by tauto). done.
Qed.

Lemma busy_mono (p q : item → bool) t o : (∀ i, p i = true → q i = true) → (busy p t o <= busy q t o)%nat.
Proof.
  intros H. unfold busy. induction (flying o) as [|x m IH]; [done|]. rewrite !filter_cons.
  repeat case_decide; cbn [length]; naive_solver lia.
Qed.

Lemma starts_launches t o : (starts t o <= launches t o)%nat.
Proof. apply busy_mono. intros i. rewrite bool_decide_eq_true. by intros ->. Qed.

Lemma starts_abs r o : k_stale (abs (MkCell r o)) = O → starts (r_token r) o = n_start (abs (MkCell r o)).
Proof.
  cbn [k_stale n_start abs c_r c_o]. unfold starts, busy, stale, in_flight. induction (flying o) as [|x m IH]; [done|].
  rewrite filter_cons, stale_cons, mine_cons. intros Hst.
  destruct (decide (hd_token x.1 = r_token r)) as [Et|Et].
  - destruct (decide (hd_generation x.1 = r_generation r)) as [Eg|Eg].
    + rewrite decide_False in Hst by tauto. specialize (IH Hst).
      rewrite (decide_True (P := (_ ∧ _ = r_generation r))) by done. rewrite tally_cons.
      destruct (decide (x.2 = IWork TStart)) as [E|E].
      * rewrite decide_True by (split; [done|by apply bool_decide_eq_true_2]). cbn [length]. by rewrite IH.
      * rewrite decide_False by (intros [_ ?%bool_decide_eq_true_1]; done). done.
    + rewrite (decide_False (P := (_ ∧ _ = r_generation r))) by tauto.
      destruct (decide (x.2 = IWork TStart)) as [E|E].
      * rewrite decide_True in Hst by (rewrite E; tauto). done.
      * rewrite decide_False by (intros [_ ?%bool_decide_eq_true_1]; done). apply IH.
        revert Hst. case_decide; lia.
  - rewrite !decide_False by tauto. apply IH. by rewrite decide_False in Hst by tauto.
Qed.

(** States and stages. *)
Definition state_of (s : stage) : State :=
  match s with
  | KQueued => StateQueued | KClaimed => StateClaimed | KPreparing => StatePreparing | KRunning => StateRunning
  | KVerifying => StateVerifying | KBackoff => StateBackoff | KDone => StateDone
  | KNeedsReview => StateNeedsReview | KFailed => StateFailed | KOther => ""
  end.

Lemma state_of_stage s : stage_of s ≠ KOther → state_of (stage_of s) = s.
Proof. unfold stage_of. repeat (case_bool_decide; [by subst|]). done. Qed.

Lemma stage_inj s k : stage_of s = k → k ≠ KOther → s = state_of k.
Proof. intros <- H. by rewrite state_of_stage. Qed.

(** The safety check, read off a state. *)
Lemma k_safe_spec v :
  k_safe v = true →
  (k_phase v <= 1)%nat ∧ (k_handle v = true → k_phase v = O)
  ∧ (k_handle v = true → k_stage v ∈ [KPreparing; KRunning; KVerifying])
  ∧ (k_launch v ≠ O → k_stage v = KPreparing)
  ∧ (k_disposal v = true → k_handle v = false ∧ k_launch v = O)
  ∧ (n_timer v <= 1)%nat ∧ (n_timer v ≠ O → k_handle v = false ∧ k_phase v = O)
  ∧ (Z.of_nat (k_waited v) <= k_pending v) ∧ (k_probing v = true ↔ n_probe v ≠ O)
  ∧ (k_stopWait v = true → n_stop v ≠ O) ∧ k_stale v = O ∧ k_stage v ≠ KOther.
Proof.
  unfold k_safe, k_idle, k_none. rewrite !andb_true_iff, !implb_true_iff, !negb_true_iff, !Nat.leb_le, Z.leb_le,
    !Nat.eqb_eq, !Nat.eqb_neq, !andb_true_iff, !negb_true_iff, !Nat.eqb_eq, Bool.eqb_true_iff.
  intros H. decompose [and] H. clear H.
  split_and!; try done.
  - intros Hh. match goal with H : k_handle v = true → existsb _ _ = true |- _ => specialize (H Hh);
      apply existsb_exists in H as (s & Hs & ->%stage_eqb_eq) end. by apply list_elem_of_In.
  - intros Hl. apply stage_eqb_eq. auto.
  - match goal with H : k_probing v = _ |- _ => rewrite H end. by rewrite negb_true_iff, Nat.eqb_neq.
  - by intros E; rewrite E in *.
Qed.

(** Reads the control state of a record back as its fields and its mail. *)
Ltac concrete r o :=
  change (n_summary (abs (MkCell r o))) with (in_flight TSummary r o) in *;
  change (n_verify (abs (MkCell r o))) with (in_flight TVerify r o) in *;
  change (n_claim (abs (MkCell r o))) with (in_flight TClaim r o) in *;
  change (n_approve (abs (MkCell r o))) with (in_flight TApprove r o) in *;
  change (n_base (abs (MkCell r o))) with (in_flight TBase r o) in *;
  change (n_probe (abs (MkCell r o))) with (in_flight TProbe r o) in *;
  change (n_timer (abs (MkCell r o))) with (in_flight TTimer r o) in *;
  change (n_stop (abs (MkCell r o))) with (in_flight TStop r o) in *;
  change (k_pending (abs (MkCell r o))) with (r_pending r) in *;
  change (k_probing (abs (MkCell r o))) with (r_probeInFlight r) in *;
  change (k_stopWait (abs (MkCell r o))) with (r_stopInFlight r) in *;
  change (k_stage (abs (MkCell r o))) with (stage_of (r_State r)) in *;
  change (k_handle (abs (MkCell r o))) with (negb (is_nil (r_handle r))) in *.

(** ** Agents *)

(** C1: At most one worker at a time prepares a workspace, starts an agent in it, reads it for the
    account of a run or verifies it; none does while an agent is live, and an agent is live or
    about to be only in the states that say so. *)
Theorem one_agent_at_a_time o id t :
  reachable o → o_records o !! id = Some t →
  let r := deref t o in
  (launches t o + in_flight TSummary r o + in_flight TVerify r o <= 1)%nat
  ∧ (r_handle r ≠ None →
     launches t o = O ∧ in_flight TSummary r o = O ∧ in_flight TVerify r o = O
     ∧ r_State r ∈ [StatePreparing; StateRunning; StateVerifying])
  ∧ (launches t o ≠ O → r_State r = StatePreparing).
Proof.
  intros Ho Hid. destruct (reachable_current o id t Ho Hid) as (r & Hr & -> & <- & _ & Hs & _). cbv zeta.
  apply k_safe_spec in Hs as (H1 & H2 & H3 & H4 & _). unfold k_phase in *. rewrite launches_abs.
  concrete r o. split_and!; [done| |].
  - intros Hh. assert (Hk : negb (is_nil (r_handle r)) = true) by by destruct (r_handle r).
    specialize (H2 Hk). split_and!; try lia. specialize (H3 Hk).
    rewrite !elem_of_cons in *. destruct H3 as [E|[E|[E|E]]]; [apply stage_inj in E; [|done]; rewrite E; cbn [state_of]; tauto..|].
    by apply not_elem_of_nil in E.
  - intros Hl. exact (stage_inj _ KPreparing (H4 Hl) ltac:(done)).
Qed.

(** C3: A record the daemon has dropped, or whose workspace it is to dispose of, has no agent, and
    nothing in flight is about to start one: no agent is forgotten, no workspace is removed under
    one. *)
Theorem no_agent_left_behind o t r :
  reachable o → o_heap o !! t = Some r →
  o_records o !! is_Identifier (r_Issue r) ≠ Some t ∨ r_disposalOwed r = true →
  r_handle r = None ∧ launches t o = O.
Proof.
  intros Ho Hr Hd. destruct (reachable_record o t r Ho Hr) as [<- Hk]. rewrite launches_abs.
  enough (k_handle (abs (MkCell r o)) = false ∧ k_launch (abs (MkCell r o)) = O) as [Hh ?].
  { split; [|done]. cbn in Hh. by destruct (r_handle r). }
  destruct (is_current (MkCell r o)) eqn:Hc.
  - destruct (k_reach_live _ Hk Hc) as [(_ & _ & _ & _ & H & _)%k_safe_spec _]. apply H.
    destruct Hd as [Hd|Hd]; [|done]. destruct Hd. by apply (current_iff o _ r eq_refl).
  - pose proof (k_reach_dead _ Hk Hc) as H. by apply k_idle_spec in H.
Qed.

(** C4: A draining daemon starts nothing: in no step does any record gain a preparation or a
    start, and draining never ends. *)
Theorem draining_launches_nothing o o' t :
  reachable o → o_draining o = true → step o o' → is_Some (o_heap o' !! t) →
  o_draining o' = true ∧ (launches t o' <= launches t o)%nat ∧ (starts t o' <= starts t o)%nat.
Proof.
  intros Ho Hd Hs [r' Hr']. destruct (reachable_ok o Ho) as [HO HR]. destruct (step_evo o o' Hs HO HR) as [HO' [Hold Hnew Hdr]].
  assert (Ho' : reachable o') by by eapply reachable_step. destruct (reachable_record o' t r' Ho' Hr') as [Ht Hk'].
  split; [by apply Hdr|].
  assert (Hla : ∀ r o, r_token r = t → launches t o = k_launch (abs (MkCell r o))) by (intros ? ? <-; apply launches_abs).
  assert (Hst : ∀ r o, r_token r = t → k_reach (abs (MkCell r o)) → starts t o = n_start (abs (MkCell r o))).
  { intros r o0 <- Hk. destruct (is_current (MkCell r o0)) eqn:Hc.
    - apply starts_abs. destruct (k_reach_live _ Hk Hc) as [Hsafe _]. by apply k_safe_spec in Hsafe as (_&_&_&_&_&_&_&_&_&_&?&_).
    - pose proof (k_reach_dead _ Hk Hc) as [_ Hl]%k_idle_spec. apply starts_abs. unfold k_launch in Hl. lia. }
  destruct (o_heap o !! t) as [r|] eqn:Hr.
  - destruct (reachable_record o t r Ho Hr) as [Ht0 Hk].
    destruct (Hold t _ (proj2 (view_Some o t _) (ex_intro _ r (conj Hr eq_refl)))) as (v' & (r1 & Hr1 & ->)%view_Some & Hsteps).
    assert (r1 = r') as -> by congruence. destruct (k_steps_drain _ _ Hk Hsteps Hd) as [Hl Hn].
    rewrite (Hst r' o' Ht Hk'), (Hst r o Ht0 Hk), (Hla r' o' Ht), (Hla r o Ht0). done.
  - destruct (Hnew t (abs (MkCell r' o'))) as (v & Hv & Hsteps & Hdv); [unfold view; by rewrite Hr|apply view_Some; eauto|].
    pose proof (k_steps_drain v _ (k_reach_start v Hv) Hsteps (Hdv Hd)) as [Hl Hn].
    assert (Hz : k_launch v = O).
    { assert (Hall : forallb (λ v, Nat.eqb (k_launch v) 0) k_starts = true) by (vm_compute; reflexivity).
      eapply forallb_forall in Hall; [|by apply list_elem_of_In]. by apply Nat.eqb_eq. }
    rewrite (Hst r' o' Ht Hk'), (Hla r' o' Ht). unfold k_launch in *. lia.
Qed.

(** C5: When the loop finds the daemon drained, no record has a worker in flight it waits for,
    none is about to start an agent, and every agent is confirmed gone: its handle is done and its
    processes are quiet. *)
Theorem drained_means_quiet o id t :
  reachable o → drained o = true → o_records o !! id = Some t →
  let r := deref t o in
  launches t o = O
  ∧ (∀ k, k ∈ [TClaim; TApprove; TBase; TSummary; TVerify; TProbe] → in_flight k r o = O)
  ∧ (r_handle r ≠ None → r_handleDone r = true ∧ r_domainQuiet r = true)
  ∧ r_owed r = [].
Proof.
  intros Ho Hd Hid. destruct (reachable_current o id t Ho Hid) as (r & Hr & E & Ht & _ & Hs & _). cbv zeta.
  unfold drained in Hd. rewrite !andb_true_iff in Hd. destruct Hd as [[[Hd _] _] _].
  rewrite forallb_forall in Hd. specialize (Hd (id, t)). cbn [snd] in Hd. rewrite E in Hd |- *.
  assert (Hrd : record_drained r = true) by (apply Hd, list_elem_of_In; by apply elem_of_map_to_list). clear Hd.
  unfold record_drained in Hrd. apply negb_true_iff in Hrd. rewrite !orb_false_iff in Hrd.
  destruct Hrd as [[[[[[Hp Hpr] Hst] Hhd] Hq] Ho1] Ho2]. apply Z.ltb_ge in Hp.
  apply k_safe_spec in Hs as (_ & _ & _ & _ & _ & _ & _ & Hw & Hprobe & _).
  unfold k_waited, k_phase in Hw. rewrite <- Ht at 1. rewrite launches_abs. concrete r o. rewrite Hpr in Hprobe.
  split_and!.
  - lia.
  - intros k Hk. repeat (apply elem_of_cons in Hk as [->|Hk]; [first [lia|by destruct (in_flight TProbe r o); naive_solver]|]).
    by apply not_elem_of_nil in Hk.
  - intros Hh. destruct (r_handle r); [|done]. cbn in Hhd, Hq. by rewrite negb_false_iff in Hhd, Hq.
  - unfold owesAnything in Ho1. by apply negb_false_iff, bool_decide_eq_true_1 in Ho1.
Qed.

(** C2: The orchestrator refines the control machine: what a step does to a record is a sequence
    of steps of the machine from its control state, and a record that appears started in one of
    the machine's initial states. *)
Theorem step_refines o o' :
  reachable o → step o o' →
  (∀ t v, view o t = Some v → ∃ v', view o' t = Some v' ∧ rtc k_step v v')
  ∧ (∀ t v', view o t = None → view o' t = Some v' → ∃ v, v ∈ k_starts ∧ rtc k_step v v').
Proof.
  intros [HO HR]%reachable_ok Hs. destruct (step_evo o o' Hs HO HR) as [_ [Hold Hnew _]]. split; [exact Hold|].
  intros t v' Hn Hv. destruct (Hnew t v' Hn Hv) as (v & ? & ? & _). eauto.
Qed.

(** The machine's edges are the code's. *)
Lemma allowed_state_of a b : k_allowed a b = true → Allowed (state_of a) (state_of b) = true ∧ b ≠ KOther.
Proof. destruct a, b; try done; intros _; (split; [vm_compute; reflexivity|done]). Qed.

Lemma allowed_stages s s' :
  stage_of s ≠ KOther → rtc (λ a b, k_allowed a b = true) (stage_of s) (stage_of s') →
  rtc (λ a b, Allowed a b = true) s s'.
Proof.
  intros Hs H.
  assert (Hk : ∀ a b, rtc (λ a b, k_allowed a b = true) a b → a ≠ KOther →
               rtc (λ a b, Allowed a b = true) (state_of a) (state_of b) ∧ b ≠ KOther).
  { induction 1 as [a|a b c Hab _ IH]; intros Ha; [done|]. destruct (allowed_state_of a b Hab) as [E Hb].
    destruct (IH Hb). split; [|done]. by eapply rtc_l. }
  destruct (Hk _ _ H Hs) as [Hr Hs']. by rewrite !state_of_stage in Hr.
Qed.

(** C6: Between two states of the system the state of a tracked record moves along edges of the
    state map only. *)
Theorem records_follow_state_map o o' id t r :
  reachable o → step o o' → o_heap o !! t = Some r → o_records o' !! id = Some t →
  rtc (λ a b, Allowed a b = true) (r_State r) (r_State (deref t o')).
Proof.
  intros Ho Hs Hr Hid. assert (Ho' : reachable o') by by eapply reachable_step.
  destruct (reachable_ok o Ho) as [HO HR]. destruct (step_evo o o' Hs HO HR) as [HO' [Hold _ _]].
  destruct (reachable_current o' id t Ho' Hid) as (r' & Hr' & -> & _ & _ & _ & Hc').
  destruct (reachable_record o t r Ho Hr) as [_ Hk].
  destruct (Hold t _ (proj2 (view_Some o t _) (ex_intro _ r (conj Hr eq_refl)))) as (v' & (r1 & Hr1 & ->)%view_Some & Hsteps).
  assert (r1 = r') as -> by congruence. apply allowed_stages.
  - destruct (is_current (MkCell r o)) eqn:Hc.
    + destruct (k_reach_live _ Hk Hc) as [Hsafe _]. by apply k_safe_spec in Hsafe as (_&_&_&_&_&_&_&_&_&_&_&?).
    + destruct (k_steps_dead _ _ Hsteps Hc) as [Hd _]. cbn in Hd. congruence.
  - exact (k_steps_edges _ _ Hk Hsteps Hc').
Qed.

(** C7: The flags and counts by which a record waits are honest: its pending count is at least the
    workers in flight it counts, a probe is marked in flight exactly while one is, a stop only
    while one is, and at most one timer runs, never beside an agent or a worker on the
    workspace. *)
Theorem waits_are_honest o id t :
  reachable o → o_records o !! id = Some t →
  let r := deref t o in
  let n k := Z.of_nat (in_flight k r o) in
  Z.of_nat (launches t o) + n TSummary + n TVerify + n TClaim + n TApprove + n TBase ≤ r_pending r
  ∧ (r_probeInFlight r = true ↔ n TProbe ≠ 0)
  ∧ (r_stopInFlight r = true → n TStop ≠ 0)
  ∧ n TTimer ≤ 1
  ∧ (n TTimer ≠ 0 → r_handle r = None ∧ launches t o = O ∧ n TSummary = 0 ∧ n TVerify = 0).
Proof.
  intros Ho Hid. destruct (reachable_current o id t Ho Hid) as (r & Hr & -> & <- & _ & Hs & _). cbv zeta.
  apply k_safe_spec in Hs as (_ & _ & _ & _ & _ & Ht1 & Ht & Hw & Hp & Hst & _). unfold k_waited, k_phase in *.
  rewrite launches_abs.
  concrete r o.
  split_and!; try lia.
  - rewrite Hp. lia.
  - intros H. specialize (Hst H). lia.
  - intros H. destruct Ht as [Hh Hl]; [lia|]. destruct (r_handle r); [done|]. split_and!; lia || done.
Qed.
End safety.
