(* ===== verification/OrchExample.v ===== *)
(** * OrchExample: runs of the orchestrator

    A daemon with one issue, followed step by step: the states below are evaluated, and each
    is a state of the system. They witness the theorems of [OrchSafety]. *)

From S2P Require Import Prelude GoStd Update Core Template OrchState OrchRecover OrchRecord.
From S2P Require Import OrchApproval OrchPipeline OrchHeld OrchResume OrchLoop OrchControl.
From S2P Require Import OrchFrame OrchRefine OrchSystem OrchStep OrchSafety.

(** ** Steps as functions *)

(** The loop takes the next signal; the [n]-th goroutine finishes with a signal; the effects
    worker runs the next effect. *)
Definition play `{GoTables} (o : Orchestrator) : Orchestrator :=
  match o_signals o with s :: rest => turn s (o <| o_signals := rest |>) | [] => o end.
Definition finish (n : nat) (s : signal) (o : Orchestrator) : Orchestrator :=
  push s (o <| o_jobs := take n (o_jobs o) ++ drop (S n) (o_jobs o) |>).
Definition proceed (n : nat) (j : job) (s : signal) (o : Orchestrator) : Orchestrator :=
  push s (o <| o_jobs := take n (o_jobs o) ++ j :: drop (S n) (o_jobs o) |>).
Definition run_effect (err : option fault) (o : Orchestrator) : Orchestrator :=
  match o_effects o with
  | EffOwed h eff :: rest => push (SigEffectDone h (oe_what eff) err) (o <| o_effects := rest |>)
  | _ => o
  end.

Definition room (o : Orchestrator) : bool := Z.of_nat (length (o_signals o)) <? signalsDepth.

Section plays.
Context `{GoTables}.

Lemma step_play o : is_cons (o_signals o) = true → negb (o_wedged o) = true → step o (play o).
Proof.
  intros Hs Hw%negb_true_iff. unfold play. destruct (o_signals o) as [|s rest] eqn:E; [done|]. by apply step_turn.
Qed.

Lemma reachable_play o : reachable o → is_cons (o_signals o) = true → negb (o_wedged o) = true → reachable (play o).
Proof. intros Ho Hs Hw. eapply reachable_step; [exact Ho|by apply step_play]. Qed.

Lemma reachable_finish n j s o :
  reachable o → o_jobs o !! n = Some j → finishes o j s → room o = true → reachable (finish n s o).
Proof.
  intros Ho Hj Hf Hr%Z.ltb_lt. eapply reachable_step; [exact Ho|]. eapply step_finish; [|exact Hf|exact Hr].
  symmetry. by apply take_drop_middle.
Qed.

Lemma reachable_proceed n j j' s o :
  reachable o → o_jobs o !! n = Some j → proceeds o j j' (Some s) → room o = true → reachable (proceed n j' s o).
Proof.
  intros Ho Hj Hf Hr%Z.ltb_lt. eapply reachable_step; [exact Ho|]. eapply step_proceed; [|exact Hf|exact Hr].
  symmetry. by apply take_drop_middle.
Qed.

Lemma reachable_effect err o :
  reachable o → room o = true →
  match o_effects o with EffOwed h eff :: _ => effect_returns (bundle o) (oe_do eff) err | _ => False end →
  reachable (run_effect err o).
Proof.
  intros Ho Hr%Z.ltb_lt He. unfold run_effect. destruct (o_effects o) as [|[h eff|] rest] eqn:E; try done.
  eapply reachable_step; [exact Ho|]. eapply step_effect; [exact E| |exact Hr]. by constructor.
Qed.

Lemma reachable_push s o : reachable o → from_outside s = true → room o = true → reachable (push s o).
Proof. intros Ho Hs Hr%Z.ltb_lt. eapply reachable_step; [exact Ho|]. by apply step_outside. Qed.
End plays.

(** ** The daemon *)

Definition ex_limits : LimitsConfig := MkLimitsConfig 2 10 3 60000 None 0 0.
Definition ex_def : WorkflowDefinition :=
  MkDefinition "workflow" ["ready"] ["open"] 1000 "/work" ex_limits (λ _, Ok "do it").
Definition ex_workspaces : Workspaces := MkWorkspaces 1 false false false false.
Definition ex_bundle : Bundle :=
  MkBundle ex_def true ex_workspaces (MkAgent "claude" "model") "bot" "https://host/repo" true.
Definition ex_cur : snapshot := MkSnapshot ex_def ex_bundle None 1.
Definition ex_config : Config := MkConfig None true true "daemon" "instance".
Definition ex_issue : Issue :=
  MkIssue "o/r#1" "Title" "Body" ["ready"] "open" ["bot"] [] "https://host/1" 5 5 "5" true.
Definition ex_header : header := MkHeader "o/r#1" 1 0.
Definition ex_history : list ClaimEvent :=
  [MkClaimEvent ClaimEventAssigned "bot" "bot" 10 7; MkClaimEvent ClaimEventLabeled "human" "ready" 9 6].
Definition ex_approval : ContentApproval := MkApproval (MkContent "Title" "Body") (MkEdit ContentEditNever 0).
Definition ex_workspace : Workspace :=
  MkWorkspace (MkPaths "/work/1" "/git" "/private") "key" "branch" 7 "base" "main" false true.
Definition ex_claimBase : ClaimBase := MkClaimBase ClaimBasePinned 7 "base" "main" 0 "" "".

(** What recovery reads of a claim whose cycle was begun and not prepared. *)
Definition ex_reads : recoveryReads :=
  MkReads (ex_history, None) ((no_workspace, false), None) (MkClaimBase ClaimBasePending 7 "" "" 0 "" "", None)
    (MkRunMarker RunMarkerAbsent (MkRunEvidence "" "" ""), None) (false, None) (false, None) None
    (MkVerify VerdictUnknown "" "", None) (None, None).

(** A tick lists the issue, the claim is won, its content is approved, the cycle is begun, the
    label is projected, the workspace is prepared, the agent is started. *)
Definition ex_new : Orchestrator :=
  Recover ([], None) ([], None) (λ _, ex_reads) empty_sweep (New ex_config ex_cur 100 (λ _ l, l)).
Definition ex_tick : Orchestrator := play (push SigTick ex_new).
Definition ex_reconciled : Orchestrator :=
  play (finish 0 (reconcile_worker [] [] false (λ _, (None, None)) ([], None)) ex_tick).
Definition ex_dispatched : Orchestrator :=
  play (finish 0 (dispatch_worker 1 ex_cur ([ex_issue], None)) ex_reconciled).
Definition ex_claim_lost : Orchestrator := play (finish 0 (claim_worker ex_header (false, None)) ex_dispatched).
Definition ex_claimed : Orchestrator := play (finish 0 (claim_worker ex_header (true, None)) ex_dispatched).
Definition ex_approved : Orchestrator :=
  play (finish 0 (approve_worker ex_header true ["ready"] "bot" (ex_history, None) (ex_approval, None)) ex_claimed).
Definition ex_begun : Orchestrator :=
  play (finish 0 (claimBase_worker ex_header ex_workspaces None None ([], None) (no_claimBase, None)) ex_approved).
Definition ex_projected : Orchestrator := play (run_effect None ex_begun).
Definition ex_prepared : Orchestrator :=
  play (finish 0 (prepare_worker ex_header ((ex_workspace, MkLocalFacts "base" "base" true), None)
                    (ex_claimBase, None)) ex_projected).
Definition ex_started : Orchestrator := finish 0 (start_worker ex_header None (Some 42, None)) ex_prepared.
Definition ex_running : Orchestrator := play ex_started.

(** The daemon is told to stop while the workspace is prepared. *)
Definition ex_draining : Orchestrator := play (push (SigShutdown 1) ex_projected).

(** A daemon that holds no claim. *)
Lemma reachable_fresh cfg cur now :
  reachable (Recover ([], None) ([], None) (λ _, ex_reads) empty_sweep (New cfg cur now (λ _ l, l))).
Proof.
  apply reachable_recovered; [by intros site l|by intros i Hi%not_elem_of_nil|constructor].
Qed.

Ltac played := apply reachable_play; [|vm_compute; reflexivity..].
Ltac finished n c :=
  eapply (reachable_finish n); [|vm_compute; reflexivity|apply c|vm_compute; reflexivity].

Lemma reachable_ex_dispatched : reachable ex_dispatched.
Proof.
  unfold ex_dispatched. played. finished 0%nat fin_dispatch; [|by intros i ->%list_elem_of_singleton].
  unfold ex_reconciled. played. finished 0%nat fin_reconcile.
  unfold ex_tick. played. apply reachable_push; [|done|vm_compute; reflexivity]. apply reachable_fresh.
Qed.

Lemma reachable_ex_projected : reachable ex_projected.
Proof.
  unfold ex_projected. played. apply reachable_effect; [|vm_compute; reflexivity|vm_compute; done].
  unfold ex_begun. played. finished 0%nat fin_claimBase.
  unfold ex_approved. played. finished 0%nat fin_approve.
  unfold ex_claimed. played. finished 0%nat fin_claim. exact reachable_ex_dispatched.
Qed.

Lemma reachable_ex_started : reachable ex_started.
Proof.
  unfold ex_started.
  eapply (reachable_finish 0); [|vm_compute; reflexivity| |vm_compute; reflexivity].
  2:{ apply fin_start; [|done]. intros id i st Hid. by apply not_elem_of_nil in Hid. }
  unfold ex_prepared. played. finished 0%nat fin_prepare. exact reachable_ex_projected.
Qed.

Lemma step_ex_running : step ex_started ex_running.
Proof. unfold ex_running. apply step_play; vm_compute; reflexivity. Qed.

Lemma reachable_ex_running : reachable ex_running.
Proof. eapply reachable_step; [exact reachable_ex_started|exact step_ex_running]. Qed.

Lemma reachable_ex_claim_lost : reachable ex_claim_lost.
Proof. unfold ex_claim_lost. played. finished 0%nat fin_claim. exact reachable_ex_dispatched. Qed.

Lemma reachable_ex_draining : reachable ex_draining.
Proof.
  unfold ex_draining. played. apply reachable_push; [|done|vm_compute; reflexivity]. exact reachable_ex_projected.
Qed.

(** The preparation returns to the draining daemon, which starts no agent. *)
Definition ex_suspending : Orchestrator :=
  finish 0 (prepare_worker ex_header ((ex_workspace, MkLocalFacts "base" "base" true), None) (ex_claimBase, None))
    ex_draining.
Definition ex_suspended : Orchestrator := play ex_suspending.

Lemma reachable_ex_suspending : reachable ex_suspending.
Proof. unfold ex_suspending. finished 0%nat fin_prepare. exact reachable_ex_draining. Qed.

(** Its effects carried out, the daemon is drained. *)
Definition ex_drained : Orchestrator := play (run_effect None ex_suspended).

Lemma step_ex_suspended : step ex_suspending ex_suspended.
Proof. unfold ex_suspended. apply step_play; vm_compute; reflexivity. Qed.

Lemma reachable_ex_drained : reachable ex_drained.
Proof.
  unfold ex_drained. played. apply reachable_effect; [|vm_compute; reflexivity|vm_compute; done].
  eapply reachable_step; [exact reachable_ex_suspending|exact step_ex_suspended].
Qed.

(** ** Witnesses *)

(** The agent runs, and nothing else uses its workspace. *)
Lemma one_agent_witness :
  r_handle (deref 1 ex_running) = Some 42 ∧ launches 1 ex_running = O
  ∧ r_State (deref 1 ex_running) ∈ [StatePreparing; StateRunning; StateVerifying].
Proof.
  split; [vm_compute; reflexivity|].
  destruct (one_agent_at_a_time ex_running "o/r#1" 1 reachable_ex_running ltac:(vm_compute; reflexivity))
    as (_ & Hh & _).
  destruct Hh as (? & _ & _ & ?); [vm_compute; discriminate|]. by split.
Defined.

(** The claim was lost, and its record is gone. *)
Lemma no_agent_left_witness : launches 1 ex_claim_lost = O.
Proof.
  destruct (no_agent_left_behind ex_claim_lost 1 (deref 1 ex_claim_lost) reachable_ex_claim_lost) as [_ ?]; [..|done].
  - vm_compute. reflexivity.
  - left. vm_compute. discriminate.
Defined.

(** The preparation that was in flight is the last one. *)
Lemma draining_witness :
  launches 1 ex_suspending = 1%nat ∧ (launches 1 ex_suspended <= 1)%nat ∧ (starts 1 ex_suspended <= 0)%nat.
Proof.
  split; [vm_compute; reflexivity|].
  destruct (draining_launches_nothing ex_suspending ex_suspended 1 reachable_ex_suspending) as (_ & Hl & Hs).
  - vm_compute. reflexivity.
  - exact step_ex_suspended.
  - eexists. vm_compute. reflexivity.
  - split; [etrans; [exact Hl|]|etrans; [exact Hs|]]; apply Nat.leb_le; vm_compute; reflexivity.
Defined.

Lemma drained_witness : o_acked ex_drained = [1] ∧ in_flight TProbe (deref 1 ex_drained) ex_drained = O.
Proof.
  split; [vm_compute; reflexivity|].
  destruct (drained_means_quiet ex_drained "o/r#1" 1 reachable_ex_drained) as (_ & Hq & _);
    [vm_compute; reflexivity..|]. apply (Hq TProbe). clear. apply list_elem_of_In. cbn. tauto.
Defined.

Lemma refines_witness :
  ∃ v', view ex_running 1 = Some v' ∧ rtc k_step (abs (MkCell (deref 1 ex_started) ex_started)) v'.
Proof.
  destruct (step_refines ex_started ex_running reachable_ex_started step_ex_running) as [Hold _]. apply Hold.
  vm_compute. reflexivity.
Defined.

Lemma state_map_witness : rtc (λ a b, Allowed a b = true) StatePreparing StateRunning.
Proof.
  assert (H1 : r_State (deref 1 ex_started) = StatePreparing) by (vm_compute; reflexivity).
  assert (H2 : r_State (deref 1 ex_running) = StateRunning) by (vm_compute; reflexivity).
  rewrite <- H1, <- H2.
  apply (records_follow_state_map ex_started ex_running "o/r#1" 1 (deref 1 ex_started) reachable_ex_started
           step_ex_running); vm_compute; reflexivity.
Defined.

Lemma waits_witness : Z.of_nat (launches 1 ex_projected) ≤ r_pending (deref 1 ex_projected).
Proof.
  destruct (waits_are_honest ex_projected "o/r#1" 1 reachable_ex_projected ltac:(vm_compute; reflexivity)) as [H _].
  revert H. generalize (r_pending (deref 1 ex_projected)). intros n. lia.
Defined.
