(* ===== verification/OrchFindings.v ===== *)
(** * OrchFindings: runs that show where the orchestrator departs from its documentation

    Each is a run of the system of [OrchLoop], step by step: an agent started on content whose
    check has not returned, one agent more than the limit, two runs with one name. *)

From S2P Require Import Prelude GoStd Update Core Template OrchState OrchRecover OrchRecord.
From S2P Require Import OrchApproval OrchPipeline OrchHeld OrchResume OrchLoop OrchControl.
From S2P Require Import OrchFrame OrchRefine OrchSystem OrchStep OrchSafety OrchExample.

(** ** A recovered claim is dispatched before its content is approved

    The daemon restarts with its claim base pending: recovery adopts the claim as unapproved and
    asks for the approval. The tick's retry finds the claim's epoch set and begins the cycle
    instead, and the agent starts while the approval is still being read. *)

Definition recovered (instance : string) : Orchestrator :=
  Recover ([], None) ([ex_issue], None) (λ _, ex_reads) empty_sweep
    (New (MkConfig None true true "daemon" instance) ex_cur 100 (λ _ l, l)).

Definition by_tick : Orchestrator := play (push SigTick (recovered "instance")).
Definition by_retry : Orchestrator :=
  play (finish 1 (reconcile_worker [] [] false (λ _, (None, None)) ([], None)) by_tick).
Definition by_base : Orchestrator :=
  play (finish 1 (claimBase_worker ex_header ex_workspaces None None ([], None) (no_claimBase, None)) by_retry).
Definition by_label : Orchestrator := play (run_effect None by_base).
Definition by_prepare : Orchestrator :=
  play (finish 2 (prepare_worker ex_header ((ex_workspace, MkLocalFacts "base" "base" true), None)
                    (ex_claimBase, None)) by_label).
Definition by_start : Orchestrator := play (finish 2 (start_worker ex_header None (Some 42, None)) by_prepare).

Lemma reachable_restarted instance : reachable (recovered instance).
Proof.
  apply reachable_recovered; [by intros site l|by intros i ->%list_elem_of_singleton|apply NoDup_singleton].
Qed.

Lemma reachable_by_start : reachable by_start.
Proof.
  unfold by_start. played.
  eapply (reachable_finish 2); [|vm_compute; reflexivity| |vm_compute; reflexivity].
  2:{ apply fin_start; [|done]. intros id i st Hid. by apply not_elem_of_nil in Hid. }
  unfold by_prepare. played. finished 2%nat fin_prepare.
  unfold by_label. played. apply reachable_effect; [|vm_compute; reflexivity|vm_compute; done].
  unfold by_base. played. finished 1%nat fin_claimBase.
  unfold by_retry. played. finished 1%nat fin_reconcile.
  unfold by_tick. played. apply reachable_push; [|done|vm_compute; reflexivity]. apply reachable_restarted.
Qed.

(** C40: A claim recovered with its cycle begun is dispatched before its content is approved: in a
    state the daemon reaches, the agent runs, the approval of its content has not returned, and
    none was recorded. *)
Theorem recovered_claim_runs_unapproved :
  ∃ o, reachable o ∧ r_handle (deref 1 o) = Some 42 ∧ r_State (deref 1 o) = StateRunning
       ∧ r_approvalInFlight (deref 1 o) = true
       ∧ r_approvedAt (deref 1 o) = r_approvedAt (zero_record ex_def).
Proof. exists by_start. split; [exact reachable_by_start|]. vm_compute. by repeat split. Qed.

(** ** Runs of two instances with one name

    The record of a recovered claim does not carry the instance of the daemon. *)
Theorem recovered_run_ids_collide :
  "first" ≠ "second" ∧ runID (deref 1 (recovered "first")) = runID (deref 1 (recovered "second")).
Proof. split; [done|]. vm_compute. reflexivity. Qed.

(** ** One agent more than the limit

    A claim parked before its first attempt is approved anew and re-dispatched: the slot is
    checked when its timer fires, taken when its cycle has begun. Another issue is dispatched in
    between. *)

Definition one_def : WorkflowDefinition :=
  MkDefinition "workflow" ["ready"] ["open"] 1000 "/work" (MkLimitsConfig 1 10 3 60000 None 0 0) (λ _, Ok "do it").
Definition one_cur : snapshot :=
  MkSnapshot one_def
    (MkBundle one_def true ex_workspaces (MkAgent "claude" "model") "bot" "https://host/repo" true) None 1.
Definition other_issue : Issue :=
  MkIssue "o/r#2" "Title" "Body" ["ready"] "open" ["bot"] [] "https://host/2" 6 6 "6" true.
Definition ex_drift : ContentApproval := MkApproval (MkContent "Title" "Body") (MkEdit ContentEditAt 20000000000).
Definition again_header : header := MkHeader "o/r#1" 1 1.

Definition over_tick : Orchestrator :=
  play (push SigTick (Recover ([], None) ([], None) (λ _, ex_reads) empty_sweep
                         (New ex_config one_cur 100 (λ _ l, l)))).
Definition over_reconciled : Orchestrator :=
  play (finish 0 (reconcile_worker [] [] false (λ _, (None, None)) ([], None)) over_tick).
Definition over_dispatched : Orchestrator :=
  play (finish 0 (dispatch_worker 1 one_cur ([ex_issue], None)) over_reconciled).
Definition over_claimed : Orchestrator := play (finish 0 (claim_worker ex_header (true, None)) over_dispatched).
Definition over_parked : Orchestrator :=
  play (finish 0 (approve_worker ex_header true ["ready"] "bot" (ex_history, None) (ex_drift, None)) over_claimed).
Definition over_told : Orchestrator := play (run_effect None (play (run_effect None over_parked))).
Definition over_requeued : Orchestrator :=
  play (finish 0 (reconcile_worker [] [MkParkedWant "o/r#1" true] true (λ _, (None, None)) ([ex_issue], None))
          (play (push SigTick over_told))).
Definition over_fired : Orchestrator := play (finish 0 (SigTimer again_header timerBackoff) over_requeued).
Definition over_fetched : Orchestrator :=
  play (finish 1 (timer_worker again_header timerBackoff 1 0 one_cur (Some ex_issue, None) (ex_history, None)
                    (ex_approval, None) (no_claimBase, None) (no_marker, None)) over_fired).
Definition over_other : Orchestrator :=
  play (finish 0 (dispatch_worker 1 one_cur ([ex_issue; other_issue], None)) over_fetched).
Definition over_base : Orchestrator :=
  play (finish 0 (claimBase_worker again_header ex_workspaces None None ([], None) (no_claimBase, None)) over_other).

Lemma reachable_over_parked : reachable over_parked.
Proof.
  unfold over_parked. played. finished 0%nat fin_approve.
  unfold over_claimed. played. finished 0%nat fin_claim.
  unfold over_dispatched. played. finished 0%nat fin_dispatch; [|by intros i ->%list_elem_of_singleton].
  unfold over_reconciled. played. finished 0%nat fin_reconcile.
  unfold over_tick. played. apply reachable_push; [|done|vm_compute; reflexivity].
  apply reachable_fresh.
Qed.

Lemma reachable_over_requeued : reachable over_requeued.
Proof.
  unfold over_requeued. played. finished 0%nat fin_reconcile.
  played. apply reachable_push; [|done|vm_compute; reflexivity].
  unfold over_told. played. apply reachable_effect; [|vm_compute; reflexivity|vm_compute; done].
  played. apply reachable_effect; [exact reachable_over_parked|vm_compute; reflexivity|vm_compute; done].
Qed.

Lemma reachable_over_base : reachable over_base.
Proof.
  unfold over_base. played. finished 0%nat fin_claimBase.
  unfold over_other. played. finished 0%nat fin_dispatch.
  2:{ intros i [->|[->|Hi]%elem_of_cons]%elem_of_cons; [done..|by apply not_elem_of_nil in Hi]. }
  unfold over_fetched. played. finished 1%nat fin_timerFetch.
  unfold over_fired. played. finished 0%nat fin_timer. exact reachable_over_requeued.
Qed.

(** Two claims take a slot where the limit is one. *)
Theorem concurrency_limit_exceeded :
  ∃ o, reachable o ∧ lc_MaxConcurrentAgents (df_Limits (sn_Definition (o_cur o))) = 1 ∧ runningCount o = 2.
Proof. exists over_base. split; [exact reachable_over_base|]. vm_compute. by split. Qed.
