(* ===== verification/TrackerBudget.v ===== *)
(** * TrackerBudget: the request budget of the GitHub tracker

    Models [internal/tracker/github/budget.go]. A method of [requestBudget] is one critical
    section of its mutex; a reservation is a pointer, here an index in the store of
    reservations ([BudgetSystem] below), and [sync.Once] is its [r_once]. The counters
    [generation] and [reportEpoch] are [uint64] in the code and count windows and ticks; the
    channel [wake] is identified by the number of channels made before it, so the channels
    with a smaller number are closed. *)

From S2P Require Import Prelude GoStd ReviewGate OrchState Update.

Definition millisecond : Z := 1000000.
Definition hour : Z := 60 * minute.

Definition billedPerTick : Z := 40.
Definition ordinaryPerTick : Z := billedPerTick - 1.
Definition defaultBudgetWindow : Z := 30 * second.
Definition requestCreditUnit : Z := defaultBudgetWindow.

Definition secondaryPointsPerMinute : Z := 900.
Definition secondaryBurstPoints : Z := 100.
Definition secondaryRefillPoints : Z := secondaryPointsPerMinute - secondaryBurstPoints.
Definition secondaryCreditUnit : Z := minute.
Definition secondaryReadPoints : Z := 1.
Definition secondaryWritePoints : Z := 5.
Definition claimSecondaryReservePoints : Z := 2 * secondaryWritePoints + secondaryReadPoints.

Definition contentRequestsPerMinute : Z := 80.
Definition contentRequestsPerHour : Z := 500.
Definition contentMinuteBurstRequests : Z := 20.
Definition contentHourBurstRequests : Z := 80.
Definition contentMinuteRefillRequests : Z :=
  contentRequestsPerMinute - contentMinuteBurstRequests.
Definition contentHourRefillRequests : Z := contentRequestsPerHour - contentHourBurstRequests.
Definition contentMinuteCreditUnit : Z := minute.
Definition contentHourCreditUnit : Z := hour.
Definition claimContentReserveRequests : Z := 2.

(** ** Costs *)

Record requestCost := MkCost { secondaryPoints : Z; contentRequests : Z }.

#[export] Instance requestCost_eq_dec : EqDecision requestCost.
Proof. solve_decision. Defined.

Definition readRequestCost : requestCost := MkCost secondaryReadPoints 0.
Definition writeRequestCost : requestCost := MkCost secondaryWritePoints 1.

Definition requestCostForMethod (method : string) : requestCost :=
  if bool_decide (method = "GET") || bool_decide (method = "HEAD")
     || bool_decide (method = "OPTIONS")
  then readRequestCost else writeRequestCost.

Definition claimStageAssign : nat := 0.
Definition claimStageVerify : nat := 1.
Definition claimStageRelease : nat := 2.

Definition claimLeaseCosts : list requestCost :=
  [writeRequestCost; readRequestCost; writeRequestCost].

(** ** The budget *)

(** One of the four fixed-point allowances: the triples [credits], [heldCredits],
    [lastRefill] and their [secondary], [contentMinute] and [contentHour] counterparts. *)
Record allowance := MkAllowance { credits : Z; heldCredits : Z; lastRefill : Z }.

Record RequestReport := MkReport {
  Billed : Z; Unbilled : Z; ReportRefused : Z; Deferred : Z; Pending : Z;
  LateBilled : Z; LateUnbilled : Z;
}.

Definition no_report : RequestReport := MkReport 0 0 0 0 0 0 0.

Record requestBudget := MkBudget {
  b_limit : Z;
  b_ordinaryLimit : Z;
  b_ceiling : Z;
  b_opened : Z;
  b_generation : Z;
  b_used : Z;
  b_unattempted : Z;
  b_primary : allowance;
  b_borrowed : bool;
  b_secondary : allowance;
  b_contentMinute : allowance;
  b_contentHour : allowance;
  b_wake : Z;
  b_reportEpoch : Z;
  b_pending : Z;
  b_report : RequestReport;
}.

#[export] Instance allowance_spread : Spread allowance := λ a,
  MkAllowance (credits a) (heldCredits a) (lastRefill a).
#[export] Instance set_credits : Setter credits. Proof. field_setter. Defined.
#[export] Instance set_heldCredits : Setter heldCredits. Proof. field_setter. Defined.
#[export] Instance set_lastRefill : Setter lastRefill. Proof. field_setter. Defined.

#[export] Instance report_spread : Spread RequestReport := λ r,
  MkReport (Billed r) (Unbilled r) (ReportRefused r) (Deferred r) (Pending r) (LateBilled r)
    (LateUnbilled r).
#[export] Instance set_Billed : Setter Billed. Proof. field_setter. Defined.
#[export] Instance set_Unbilled : Setter Unbilled. Proof. field_setter. Defined.
#[export] Instance set_ReportRefused : Setter ReportRefused. Proof. field_setter. Defined.
#[export] Instance set_Deferred : Setter Deferred. Proof. field_setter. Defined.
#[export] Instance set_Pending : Setter Pending. Proof. field_setter. Defined.
#[export] Instance set_LateBilled : Setter LateBilled. Proof. field_setter. Defined.
#[export] Instance set_LateUnbilled : Setter LateUnbilled. Proof. field_setter. Defined.

#[export] Instance budget_spread : Spread requestBudget := λ b,
  MkBudget (b_limit b) (b_ordinaryLimit b) (b_ceiling b) (b_opened b) (b_generation b) (b_used b)
    (b_unattempted b) (b_primary b) (b_borrowed b) (b_secondary b) (b_contentMinute b)
    (b_contentHour b) (b_wake b) (b_reportEpoch b) (b_pending b) (b_report b).
#[export] Instance set_b_ceiling : Setter b_ceiling. Proof. field_setter. Defined.
#[export] Instance set_b_opened : Setter b_opened. Proof. field_setter. Defined.
#[export] Instance set_b_generation : Setter b_generation. Proof. field_setter. Defined.
#[export] Instance set_b_used : Setter b_used. Proof. field_setter. Defined.
#[export] Instance set_b_unattempted : Setter b_unattempted. Proof. field_setter. Defined.
#[export] Instance set_b_primary : Setter b_primary. Proof. field_setter. Defined.
#[export] Instance set_b_borrowed : Setter b_borrowed. Proof. field_setter. Defined.
#[export] Instance set_b_secondary : Setter b_secondary. Proof. field_setter. Defined.
#[export] Instance set_b_contentMinute : Setter b_contentMinute. Proof. field_setter. Defined.
#[export] Instance set_b_contentHour : Setter b_contentHour. Proof. field_setter. Defined.
#[export] Instance set_b_wake : Setter b_wake. Proof. field_setter. Defined.
#[export] Instance set_b_reportEpoch : Setter b_reportEpoch. Proof. field_setter. Defined.
#[export] Instance set_b_pending : Setter b_pending. Proof. field_setter. Defined.
#[export] Instance set_b_report : Setter b_report. Proof. field_setter. Defined.

Definition newRequestBudget (started : Z) : requestBudget :=
  MkBudget billedPerTick ordinaryPerTick defaultBudgetWindow started 0 0 0
    (MkAllowance (billedPerTick * requestCreditUnit) 0 started) false
    (MkAllowance (secondaryBurstPoints * secondaryCreditUnit) 0 started)
    (MkAllowance (contentMinuteBurstRequests * contentMinuteCreditUnit) 0 started)
    (MkAllowance (contentHourBurstRequests * contentHourCreditUnit) 0 started)
    0 0 0 no_report.

(** *** Refilling, with [int64] arithmetic where the elapsed time enters *)

Definition refillAllowance (now : Z) (a : allowance) (capacity rate : Z) : allowance :=
  if lastRefill a =? zero_time then a <| lastRefill := now |>
  else
    let elapsed := time_Sub now (lastRefill a) in
    if elapsed <=? 0 then a
    else
      let missing := wrap64 (capacity - credits a) in
      if missing <=? 0 then a <| credits := capacity |> <| lastRefill := now |>
      else
        (if Z.quot (wrap64 (missing + rate - 1)) rate <=? elapsed
         then a <| credits := capacity |>
         else a <| credits ::= λ c, wrap64 (c + wrap64 (elapsed * rate)) |>)
        <| lastRefill := now |>.

Definition refill_primary (now : Z) (b : requestBudget) (a : allowance) : allowance :=
  refillAllowance now a (b_limit b * requestCreditUnit - heldCredits a) billedPerTick.
Definition refill_secondary (now : Z) (a : allowance) : allowance :=
  refillAllowance now a (secondaryBurstPoints * secondaryCreditUnit - heldCredits a)
    secondaryRefillPoints.
Definition refill_contentMinute (now : Z) (a : allowance) : allowance :=
  refillAllowance now a (contentMinuteBurstRequests * contentMinuteCreditUnit - heldCredits a)
    contentMinuteRefillRequests.
Definition refill_contentHour (now : Z) (a : allowance) : allowance :=
  refillAllowance now a (contentHourBurstRequests * contentHourCreditUnit - heldCredits a)
    contentHourRefillRequests.

Definition refillLocked (now : Z) (b : requestBudget) : requestBudget :=
  b <| b_primary ::= refill_primary now b |>
    <| b_secondary ::= refill_secondary now |>
    <| b_contentMinute ::= refill_contentMinute now |>
    <| b_contentHour ::= refill_contentHour now |>.

(** *** Windows *)

Definition notifyLocked (b : requestBudget) : requestBudget := b <| b_wake ::= Z.succ |>.

Definition openLocked (now : Z) (b : requestBudget) : requestBudget :=
  notifyLocked (b <| b_opened := now |> <| b_generation ::= Z.succ |>
                  <| b_used := b_unattempted b |>).

Definition rollIfStaleLocked (now : Z) (b : requestBudget) : requestBudget :=
  if (b_opened b =? zero_time) || (b_ceiling b <=? time_Sub now (b_opened b))
  then openLocked now b else b.

Definition beginTick (now interval : Z) (b : requestBudget) : RequestReport * requestBudget :=
  let b := refillLocked now b in
  let spent := b_report b <| Pending := b_pending b |> in
  let b := b <| b_report := no_report |> <| b_pending := 0 |> <| b_reportEpoch ::= Z.succ |> in
  let interval := if interval <=? 0 then defaultBudgetWindow else interval in
  (spent, openLocked now (b <| b_ceiling := interval |>)).

(** ** Reservations *)

Record requestReservation := MkReservation {
  r_generation : Z;
  r_borrowed : bool;
  r_cost : requestCost;
  r_reportEpoch : Z;
  r_attempted : bool;
  r_waited : bool;
  r_once : bool;
}.

#[export] Instance reservation_spread : Spread requestReservation := λ r,
  MkReservation (r_generation r) (r_borrowed r) (r_cost r) (r_reportEpoch r) (r_attempted r)
    (r_waited r) (r_once r).
#[export] Instance set_r_generation : Setter r_generation. Proof. field_setter. Defined.
#[export] Instance set_r_reportEpoch : Setter r_reportEpoch. Proof. field_setter. Defined.
#[export] Instance set_r_attempted : Setter r_attempted. Proof. field_setter. Defined.
#[export] Instance set_r_waited : Setter r_waited. Proof. field_setter. Defined.
#[export] Instance set_r_once : Setter r_once. Proof. field_setter. Defined.

Definition reservation_for (b : requestBudget) (borrowed : bool) (cost : requestCost)
    : requestReservation :=
  MkReservation (b_generation b) borrowed cost 0 false false false.

(** Move [n] credits from the balance to the hold. *)
Definition hold (n : Z) (a : allowance) : allowance :=
  a <| credits ::= λ c, c - n |> <| heldCredits ::= λ h, h + n |>.

Definition secondaryReserve (preserveClaim : bool) : Z :=
  if preserveClaim then claimSecondaryReservePoints else 0.
Definition contentReserve (preserveClaim : bool) (cost : requestCost) : Z :=
  if preserveClaim && (0 <? contentRequests cost) then claimContentReserveRequests else 0.
Definition windowLimit (b : requestBudget) (conditional : bool) : Z :=
  if conditional then b_limit b else b_ordinaryLimit b.

Definition holdAll (n secondary content : Z) (b : requestBudget) : requestBudget :=
  b <| b_used ::= λ u, u + n |>
    <| b_unattempted ::= λ u, u + n |>
    <| b_primary ::= hold (n * requestCreditUnit) |>
    <| b_secondary ::= hold (secondary * secondaryCreditUnit) |>
    <| b_contentMinute ::= hold (content * contentMinuteCreditUnit) |>
    <| b_contentHour ::= hold (content * contentHourCreditUnit) |>.

Definition reserveOneWithCostLocked (conditional : bool) (cost : requestCost)
    (preserveClaim : bool) (b : requestBudget) : option (requestReservation * requestBudget) :=
  let sreserve := secondaryReserve preserveClaim in
  let creserve := contentReserve preserveClaim cost in
  if (secondaryPoints cost <=? 0) || (contentRequests cost <? 0)
     || (windowLimit b conditional <=? b_used b)
     || (credits (b_secondary b) <? (secondaryPoints cost + sreserve) * secondaryCreditUnit)
     || (credits (b_contentMinute b) <? (contentRequests cost + creserve) * contentMinuteCreditUnit)
     || (credits (b_contentHour b) <? (contentRequests cost + creserve) * contentHourCreditUnit)
  then None
  else if requestCreditUnit <=? credits (b_primary b)
  then Some (reservation_for b false cost,
             holdAll 1 (secondaryPoints cost) (contentRequests cost) b)
  else if conditional && (0 <=? credits (b_primary b)) && negb (b_borrowed b)
  then Some (reservation_for b true cost,
             holdAll 1 (secondaryPoints cost) (contentRequests cost) b <| b_borrowed := true |>)
  else None.

Definition reserveOneLocked (conditional : bool) (b : requestBudget)
    : option (requestReservation * requestBudget) :=
  reserveOneWithCostLocked conditional readRequestCost true b.

(** [if d > delay { delay = d }], with the time [missing] credits take at [rate]. *)
Definition raise_delay (needed have rate delay : Z) : Z :=
  if have <? needed
  then let d := Z.quot (needed - have + rate - 1) rate in if delay <? d then d else delay
  else delay.

Definition nextAdmissionLocked (now : Z) (conditional : bool) (cost : requestCost)
    (preserveClaim : bool) (b : requestBudget) : Z :=
  let delay := if windowLimit b conditional <=? b_used b
               then time_Sub (b_opened b + b_ceiling b) now else 0 in
  let needed := if conditional && negb (b_borrowed b) then 0 else requestCreditUnit in
  let delay := raise_delay needed (credits (b_primary b)) billedPerTick delay in
  let sreserve := secondaryReserve preserveClaim in
  let creserve := contentReserve preserveClaim cost in
  let delay := raise_delay ((secondaryPoints cost + sreserve) * secondaryCreditUnit)
                 (credits (b_secondary b)) secondaryRefillPoints delay in
  let delay := raise_delay ((contentRequests cost + creserve) * contentMinuteCreditUnit)
                 (credits (b_contentMinute b)) contentMinuteRefillRequests delay in
  let delay := raise_delay ((contentRequests cost + creserve) * contentHourCreditUnit)
                 (credits (b_contentHour b)) contentHourRefillRequests delay in
  if delay <=? 0 then millisecond else delay.

(** ** Acquiring *)

Definition ErrRequestBudget : error := errors_New "per-tick GitHub request budget spent".

Definition available (credits unit reserve : Z) : Z := Z.max 0 (Z.quot credits unit - reserve).

(** Which refusal the caller reads. *)
Definition refusal (conditional : bool) (cost : requestCost) (preserveClaim : bool)
    (b : requestBudget) : error :=
  let sreserve := secondaryReserve preserveClaim in
  let creserve := contentReserve preserveClaim cost in
  if credits (b_secondary b) <? (secondaryPoints cost + sreserve) * secondaryCreditUnit
  then errorf_w ErrRequestBudget
    (": GitHub secondary allowance has "
     +:+ itoa (available (credits (b_secondary b)) secondaryCreditUnit sreserve)
     +:+ " points available after reserving " +:+ itoa sreserve
     +:+ " for Claim; the request needs " +:+ itoa (secondaryPoints cost)
     +:+ " and is deferred to a later tick")
  else if credits (b_contentMinute b) <? (contentRequests cost + creserve) * contentMinuteCreditUnit
  then errorf_w ErrRequestBudget
    (": GitHub content allowance has "
     +:+ itoa (available (credits (b_contentMinute b)) contentMinuteCreditUnit creserve)
     +:+ " requests available in the minute bucket after reserving " +:+ itoa creserve
     +:+ " for Claim; the request needs " +:+ itoa (contentRequests cost)
     +:+ " and is deferred to a later tick")
  else if credits (b_contentHour b) <? (contentRequests cost + creserve) * contentHourCreditUnit
  then errorf_w ErrRequestBudget
    (": GitHub content allowance has "
     +:+ itoa (available (credits (b_contentHour b)) contentHourCreditUnit creserve)
     +:+ " requests available in the hour bucket after reserving " +:+ itoa creserve
     +:+ " for Claim; the request needs " +:+ itoa (contentRequests cost)
     +:+ " and is deferred to a later tick")
  else errorf_w ErrRequestBudget
    (": request window has " +:+ itoa (b_used b) +:+ " of " +:+ itoa (windowLimit b conditional)
     +:+ " " +:+ (if conditional then "conditional" else "ordinary")
     +:+ " slots reserved; the call is deferred to a later tick").

(** How a caller asks: [If-None-Match], [waitForRequestBudget],
    [refuseConditionalRequestBudget], the price, and whether the Claim floor is kept. *)
Record ask := MkAsk {
  a_conditional : bool;
  a_wait : bool;
  a_refusable : bool;
  a_cost : requestCost;
  a_preserveClaim : bool;
}.

Inductive turn :=
  | Got (r : requestReservation)
  | Declined (e : error)
  | Sleeping (wake delay : Z).

(** One turn of [acquireCost]'s loop, from taking the lock to releasing it. *)
Definition acquireTurn (now : Z) (q : ask) (deferred : bool) (b : requestBudget)
    : turn * requestBudget :=
  let b := refillLocked now (rollIfStaleLocked now b) in
  match reserveOneWithCostLocked (a_conditional q) (a_cost q) (a_preserveClaim q) b with
  | Some (r, b) => (Got (r <| r_waited := deferred |>), b)
  | None =>
      if (negb (a_conditional q) || a_refusable q) && negb (a_wait q)
      then (Declined (refusal (a_conditional q) (a_cost q) (a_preserveClaim q) b),
            b <| b_report ::= λ p, p <| ReportRefused ::= Z.succ |> |>)
      else
        let b := if deferred then b else b <| b_report ::= λ p, p <| Deferred ::= Z.succ |> |> in
        (Sleeping (b_wake b)
           (nextAdmissionLocked now (a_conditional q) (a_cost q) (a_preserveClaim q) b), b)
  end.

(** The loop. Each wake-up is what the context says by then, what others did to the budget
    while the caller slept, and the time it wakes at; the loop goes on for as long as there
    are wake-ups ([None]: still asleep). The [select]'s [ctx.Done] case returns what the next
    turn's [ctx.Err] returns. *)
Fixpoint acquireCost (wakeups : list (option error * (requestBudget → requestBudget) * Z))
    (q : ask) (deferred : bool) (b : requestBudget)
    : option (result requestReservation) * requestBudget :=
  match wakeups with
  | [] => (None, b)
  | (Some err, others, _) :: _ => (Some (Err err), others b)
  | (None, others, now) :: wakeups =>
      match acquireTurn now q deferred (others b) with
      | (Got r, b) => (Some (Ok r), b)
      | (Declined e, b) => (Some (Err e), b)
      | (Sleeping _ _, b) => acquireCost wakeups q true b
      end
  end.

(** [reserveLease] *)
Definition positiveCost (c : requestCost) : bool :=
  (0 <? secondaryPoints c) && (0 <=? contentRequests c).

Definition sumZ : list Z → Z := foldr Z.add 0.

Definition reserveLease (now : Z) (costs : list requestCost) (b : requestBudget)
    : result (list requestReservation) * requestBudget :=
  let b := refillLocked now (rollIfStaleLocked now b) in
  let n := Z.of_nat (length costs) in
  let points := sumZ (secondaryPoints <$> costs) in
  let content := sumZ (contentRequests <$> costs) in
  let refused := b <| b_report ::= λ p, p <| ReportRefused ::= Z.succ |> |> in
  if negb (forallb positiveCost costs)
  then (Err (errorf_w ErrRequestBudget ": claim request costs must be positive"), refused)
  else if (n =? 0) || (b_ordinaryLimit b <? b_used b + n)
       || (credits (b_primary b) <? n * requestCreditUnit)
       || (credits (b_secondary b) <? points * secondaryCreditUnit)
       || (credits (b_contentMinute b) <? content * contentMinuteCreditUnit)
       || (credits (b_contentHour b) <? content * contentHourCreditUnit)
  then (Err (errorf_w ErrRequestBudget
               (": claim needs " +:+ itoa n +:+ " reserved requests, " +:+ itoa points
                +:+ " secondary points, and " +:+ itoa content
                +:+ " content requests before it can write (ordinary window "
                +:+ itoa (b_used b) +:+ "/" +:+ itoa (b_ordinaryLimit b) +:+ ")")), refused)
  else (Ok (reservation_for b false <$> costs), holdAll n points content b).

(** ** Attempting, settling and returning a reservation *)

(** Take [n] credits off the hold. *)
Definition unhold (n : Z) (a : allowance) : allowance := a <| heldCredits ::= λ h, h - n |>.

Definition unholdAll (c : requestCost) (b : requestBudget) : requestBudget :=
  b <| b_primary ::= unhold requestCreditUnit |>
    <| b_secondary ::= unhold (secondaryPoints c * secondaryCreditUnit) |>
    <| b_contentMinute ::= unhold (contentRequests c * contentMinuteCreditUnit) |>
    <| b_contentHour ::= unhold (contentRequests c * contentHourCreditUnit) |>.

(** [None] is the panic on a negative hold. *)
Definition markAttemptedLocked (b : requestBudget) (r : requestReservation)
    : option (requestBudget * requestReservation) :=
  if r_attempted r then Some (b, r)
  else
    let b := if 0 <? b_unattempted b then b <| b_unattempted ::= Z.pred |> else b in
    let b := unholdAll (r_cost r) b in
    if (heldCredits (b_primary b) <? 0) || (heldCredits (b_secondary b) <? 0)
       || (heldCredits (b_contentMinute b) <? 0) || (heldCredits (b_contentHour b) <? 0)
    then None
    else Some (b <| b_pending ::= Z.succ |>,
               r <| r_attempted := true |> <| r_generation := b_generation b |>
                 <| r_reportEpoch := b_reportEpoch b |>).

Definition markAttempted (now : Z) (b : requestBudget) (r : requestReservation)
    : option (requestBudget * requestReservation) :=
  markAttemptedLocked (refillLocked now b) r.

(** [credits += n], at most the capacity the hold leaves. *)
Definition refund (burst n : Z) (a : allowance) : allowance :=
  a <| credits ::= λ c, Z.min (c + n) (burst - heldCredits a) |>.

Definition refundPrimaryLocked (generation : Z) (b : requestBudget) : requestBudget :=
  let b' := b <| b_primary ::= refund (b_limit b * requestCreditUnit) requestCreditUnit |> in
  if (generation =? b_generation b) && (0 <? b_used b) then b' <| b_used ::= Z.pred |> else b'.

Definition refundSecondaryLocked (points : Z) (b : requestBudget) : requestBudget :=
  b <| b_secondary ::=
         refund (secondaryBurstPoints * secondaryCreditUnit) (points * secondaryCreditUnit) |>.

Definition refundContentLocked (requests : Z) (b : requestBudget) : requestBudget :=
  b <| b_contentMinute ::= refund (contentMinuteBurstRequests * contentMinuteCreditUnit)
                             (requests * contentMinuteCreditUnit) |>
    <| b_contentHour ::= refund (contentHourBurstRequests * contentHourCreditUnit)
                           (requests * contentHourCreditUnit) |>.

Definition returnBorrow (r : requestReservation) (b : requestBudget) : requestBudget :=
  if r_borrowed r then b <| b_borrowed := false |> else b.

Definition settle (now : Z) (billed : bool) (b : requestBudget) (r : requestReservation)
    : option (requestBudget * requestReservation) :=
  if r_once r then Some (b, r)
  else
    '(b, r) ← markAttemptedLocked (refillLocked now b) r;
    let late := negb (r_reportEpoch r =? b_reportEpoch b) in
    let b := if negb late && (0 <? b_pending b) then b <| b_pending ::= Z.pred |> else b in
    let b :=
      if billed && late then b <| b_report ::= λ p, p <| LateBilled ::= Z.succ |> |>
      else if billed then b <| b_report ::= λ p, p <| Billed ::= Z.succ |> |>
      else if late then
        refundPrimaryLocked (r_generation r) (b <| b_report ::= λ p, p <| LateUnbilled ::= Z.succ |> |>)
      else
        refundPrimaryLocked (r_generation r) (b <| b_report ::= λ p, p <| Unbilled ::= Z.succ |> |>) in
    Some (notifyLocked (returnBorrow r b), r <| r_once := true |>).

Definition releaseUnused (now : Z) (b : requestBudget) (r : requestReservation)
    : requestBudget * requestReservation :=
  if r_once r then (b, r)
  else
    let b := refillLocked now b in
    let '(b, r) :=
      if r_attempted r then (b, r)
      else (unholdAll (r_cost r) (b <| b_unattempted ::= Z.pred |>),
            r <| r_generation := b_generation b |>) in
    let b := refundPrimaryLocked (r_generation r) b in
    let b := refundSecondaryLocked (secondaryPoints (r_cost r)) b in
    let b := refundContentLocked (contentRequests (r_cost r)) b in
    let b := if r_attempted r && (r_reportEpoch r =? b_reportEpoch b) && (0 <? b_pending b)
             then b <| b_pending ::= Z.pred |> else b in
    (notifyLocked (returnBorrow r b), r <| r_once := true |>).

(** ** Leases *)

Record requestLease := MkLease {
  l_reservations : list nat;
  l_taken : list bool;
  l_closed : bool;
}.

Definition take (l : requestLease) (stage : nat) : result (nat * requestLease) :=
  let absent := errorf_w ErrRequestBudget
    (": reserved claim request sequence has no stage " +:+ itoa (Z.of_nat stage)) in
  if l_closed l then Err absent
  else match l_reservations l !! stage with
  | None => Err absent
  | Some i =>
      if default false (l_taken l !! stage)
      then Err (errorf_w ErrRequestBudget
                  (": reserved claim stage " +:+ itoa (Z.of_nat stage) +:+ " was already taken"))
      else Ok (i, MkLease (l_reservations l) (<[stage := true]> (l_taken l)) false)
  end.

(** [close] up to its loop, which returns the reservations unused. *)
Definition close (l : requestLease) : requestLease :=
  MkLease (l_reservations l) (l_taken l) true.

(** ** The transport *)

(** What the base transport answers. *)
Inductive answer :=
  | TransportError (e : error)
  | NilResponse
  | Response (status : Z).

Definition StatusNotModified : Z := 304.

(** [err != nil || resp == nil || resp.StatusCode != http.StatusNotModified] *)
Definition billed (a : answer) : bool :=
  match a with
  | TransportError _ | NilResponse => true
  | Response status => negb (status =? StatusNotModified)
  end.

(** Between its reservation and the network, [RoundTrip] may meet a closed rate gate, a
    credential that does not refresh, or a spent network timeout; then it returns the
    reservation unused. [honor] is [honorRateGate]. *)
Definition abandon (honor : bool) (gate refresh start : option error) (r : requestReservation)
    : option error :=
  match (if honor then gate else None) with
  | Some e => Some e
  | None => match (if r_waited r then refresh else None) with Some e => Some e | None => start end
  end.

(** ** Network time *)

Definition DeadlineExceeded : error := errors_New "context deadline exceeded".

(** A request's redirects share one allowance of network time. *)
Record networkTimeoutState := MkTimeout { n_remaining : Z }.
Record networkSegment := MkSegment { s_started : Z; s_allowed : Z }.

Definition start (now : Z) (s : networkTimeoutState) : result networkSegment :=
  if n_remaining s <=? 0 then Err DeadlineExceeded else Ok (MkSegment now (n_remaining s)).

(** [contextExpired]: the segment's context reports [DeadlineExceeded]. *)
Definition deadlineExceeded (now : Z) (contextExpired : bool) (s : networkSegment) : bool :=
  (s_allowed s <=? time_Sub now (s_started s)) || contextExpired.

Definition finish (now : Z) (g : networkSegment) (s : networkTimeoutState) : networkTimeoutState :=
  let elapsed := Z.max 0 (time_Sub now (s_started g)) in
  MkTimeout (Z.max 0 (n_remaining s - elapsed)).

(** What [RoundTrip] returns for an answer. *)
Definition roundTripResult (a : answer) (expired : bool) : result Z :=
  match a with
  | TransportError e => Err (if expired then DeadlineExceeded else e)
  | NilResponse =>
      Err (if expired then DeadlineExceeded else errorf "github transport returned a nil response")
  | Response status => if expired then Err DeadlineExceeded else Ok status
  end.

(** ** Every interleaving

    The store of reservations with the calls that hold them. [RoundTrip] reserves, then either
    returns its reservation unused or marks it attempted just before it calls the base
    transport, and settles it with the answer; the calls of a lease are [Claim]'s, which makes
    them one after another and closes the lease when the last has returned. *)

Inductive pc :=
  | Slot  (** reserved by a lease, no request has taken it *)
  | Reserved
  | Sent
  | Ended.

#[export] Instance pc_eq_dec : EqDecision pc.
Proof. solve_decision. Defined.

Record call := MkCall { c_res : requestReservation; c_method : string; c_at : pc }.

(** What reached the network: a request of some price, in some window; and the 304 answers,
    which GitHub does not bill. *)
Inductive event :=
  | ESent (at_ : Z) (cost : requestCost) (generation : Z)
  | EUnbilled (at_ : Z) (generation : Z).

Record system := MkSystem {
  y_budget : requestBudget;
  y_calls : list call;
  y_leases : list requestLease;
  y_clock : Z;
  y_log : list event;
}.

#[export] Instance system_spread : Spread system := λ y,
  MkSystem (y_budget y) (y_calls y) (y_leases y) (y_clock y) (y_log y).
#[export] Instance set_y_budget : Setter y_budget. Proof. field_setter. Defined.
#[export] Instance set_y_calls : Setter y_calls. Proof. field_setter. Defined.
#[export] Instance set_y_leases : Setter y_leases. Proof. field_setter. Defined.
#[export] Instance set_y_clock : Setter y_clock. Proof. field_setter. Defined.
#[export] Instance set_y_log : Setter y_log. Proof. field_setter. Defined.

Definition newSystem (started : Z) : system :=
  MkSystem (newRequestBudget started) [] [] started [].

Inductive action :=
  | ATick (now interval : Z)
  | AAcquire (now : Z) (method : string) (conditional wait refusable preserveClaim deferred : bool)
  | AReserveLease (now : Z)
  | ATake (lease stage : nat)
  | ALeased (lease stage : nat)  (** [RoundTrip] takes the stage's reservation *)
  | AProceed (now : Z) (call : nat) (honor : bool) (gate refresh start : option error)
  | AAnswer (now : Z) (call : nat) (a : answer)
  | AClose (lease : nat)
  | AReturn (now : Z) (lease stage : nat).  (** [close]'s loop, one reservation at a time *)

Inductive outcome := Disabled | Panic | Next (y : system).

(** The methods of [Claim]'s three requests: assign, read back, unassign. *)
Definition stageMethod (stage : nat) : string :=
  match stage with 0%nat => "POST" | 1%nat => "GET" | _ => "DELETE" end.

Definition in_flight (c : call) : bool :=
  match c_at c with Reserved | Sent => true | _ => false end.

Definition set_call (i : nat) (r : requestReservation) (p : pc) (cs : list call) : list call :=
  alter (λ c, MkCall r (c_method c) p) i cs.

Definition perform (a : action) (y : system) : outcome :=
  let b := y_budget y in
  match a with
  | ATick now interval =>
      Next (y <| y_budget := (beginTick now interval b).2 |> <| y_clock := now |>)
  | AAcquire now method conditional wait refusable preserveClaim deferred =>
      let q := MkAsk conditional wait refusable (requestCostForMethod method) preserveClaim in
      let '(t, b) := acquireTurn now q deferred b in
      let y := y <| y_budget := b |> <| y_clock := now |> in
      match t with
      | Got r => Next (y <| y_calls ::= λ cs, cs ++ [MkCall r method Reserved] |>)
      | _ => Next y
      end
  | AReserveLease now =>
      let '(l, b) := reserveLease now claimLeaseCosts b in
      let y := y <| y_budget := b |> <| y_clock := now |> in
      match l with
      | Ok rs =>
          let n := length (y_calls y) in
          Next (y <| y_calls ::= λ cs, cs ++ imap (λ s r, MkCall r (stageMethod s) Slot) rs |>
                  <| y_leases ::= λ ls, ls ++ [MkLease (seq n (length rs))
                                                 (replicate (length rs) false) false] |>)
      | Err _ => Next y
      end
  | ATake j stage =>
      match y_leases y !! j with
      | Some l => match take l stage with
                  | Ok (_, l) => Next (y <| y_leases ::= <[j := l]> |>)
                  | Err _ => Next y
                  end
      | None => Disabled
      end
  | ALeased j stage =>
      match y_leases y !! j with
      | Some l =>
          match l_reservations l !! stage with
          | Some i =>
              match y_calls y !! i with
              | Some c =>
                  if negb (l_closed l) && default false (l_taken l !! stage)
                     && bool_decide (c_at c = Slot)
                  then Next (y <| y_calls ::= set_call i (c_res c) Reserved |>)
                  else Disabled
              | None => Disabled
              end
          | None => Disabled
          end
      | None => Disabled
      end
  | AProceed now i honor gate refresh start =>
      match y_calls y !! i with
      | Some c =>
          if negb (bool_decide (c_at c = Reserved)) then Disabled
          else
            match abandon honor gate refresh start (c_res c) with
            | Some _ =>
                let '(b, r) := releaseUnused now b (c_res c) in
                Next (y <| y_budget := b |> <| y_clock := now |>
                        <| y_calls ::= set_call i r Ended |>)
            | None =>
                match markAttempted now b (c_res c) with
                | None => Panic
                | Some (b, r) =>
                    Next (y <| y_budget := b |> <| y_clock := now |>
                            <| y_calls ::= set_call i r Sent |>
                            <| y_log ::= cons (ESent now (requestCostForMethod (c_method c))
                                                 (b_generation b)) |>)
                end
            end
      | None => Disabled
      end
  | AAnswer now i a =>
      match y_calls y !! i with
      | Some c =>
          if negb (bool_decide (c_at c = Sent)) then Disabled
          else
            match settle now (billed a) b (c_res c) with
            | None => Panic
            | Some (b, r) =>
                let y := y <| y_budget := b |> <| y_clock := now |>
                           <| y_calls ::= set_call i r Ended |> in
                Next (if billed a then y
                      else y <| y_log ::= cons (EUnbilled now (r_generation r)) |>)
            end
      | None => Disabled
      end
  | AClose j =>
      match y_leases y !! j with
      | Some l =>
          if existsb (λ i, match y_calls y !! i with Some c => in_flight c | None => false end)
               (l_reservations l)
          then Disabled
          else Next (y <| y_leases ::= <[j := close l]> |>)
      | None => Disabled
      end
  | AReturn now j stage =>
      match y_leases y !! j with
      | Some l =>
          match l_reservations l !! stage with
          | Some i =>
              match y_calls y !! i with
              | Some c =>
                  if negb (l_closed l) || in_flight c then Disabled
                  else
                    let '(b, r) := releaseUnused now b (c_res c) in
                    Next (y <| y_budget := b |> <| y_clock := now |>
                            <| y_calls ::= set_call i r Ended |>)
              | None => Disabled
              end
          | None => Disabled
          end
      | None => Disabled
      end
  end.

(** Critical sections read the clock inside the lock, so their times do not decrease. *)
Definition action_time (a : action) (y : system) : Z :=
  match a with
  | ATick now _ | AAcquire now _ _ _ _ _ _ | AReserveLease now | AProceed now _ _ _ _ _
  | AAnswer now _ _ | AReturn now _ _ => now
  | ATake _ _ | ALeased _ _ | AClose _ => y_clock y
  end.

(** A polling interval is a [time.Duration]. *)
Definition action_valid (a : action) : Prop :=
  match a with ATick _ interval => interval ≤ max_int64 | _ => True end.

Inductive reaches (started : Z) : system → Prop :=
  | reaches_new : reaches started (newSystem started)
  | reaches_step a y y' :
      reaches started y → action_valid a → y_clock y ≤ action_time a y → perform a y = Next y' →
      reaches started y'.
