(* ===== verification/TrackerBudgetFacts.v ===== *)
(** * TrackerBudgetFacts: what the request budget guarantees

    The four allowances of a budget are one token bucket with four sets of numbers, so the
    accounting is proved once, for a [meter], and instantiated. The invariant [Sound] ties the
    counters of the budget to the calls that hold its reservations and to the log of what
    reached the network; every action of every interleaving keeps it. *)

From S2P Require Import Prelude GoStd ReviewGate OrchState Update TrackerBudget.

(** ** A token bucket against a log of what it paid for *)

Definition ev_time (e : event) : Z := match e with ESent t _ _ | EUnbilled t _ => t end.

Record meter := MkMeter {
  m_burst : Z;
  m_rate : Z;
  (** how far the balance may be overdrawn *)
  m_floor : Z;
  m_weight : event → Z;
}.

Definition sum_if (P : event → bool) (w : event → Z) (log : list event) : Z :=
  foldr (λ e n, (if P e then w e else 0) + n) 0 log.

(** The credits paid for events from [t] on, and in a window. *)
Definition since (m : meter) (t : Z) : list event → Z :=
  sum_if (λ e, t <=? ev_time e) (m_weight m).
Definition between (m : meter) (t1 t2 : Z) : list event → Z :=
  sum_if (λ e, (t1 <=? ev_time e) && (ev_time e <=? t2)) (m_weight m).

Definition refilled (m : meter) (now : Z) (a : allowance) : allowance :=
  refillAllowance now a (m_burst m - heldCredits a) (m_rate m).

Class MeterOk (m : meter) : Prop := {
  mo_rate : 0 < m_rate m;
  mo_floor : 0 ≤ m_floor m;
  mo_burst : 0 ≤ m_burst m;
  mo_small : m_burst m + m_floor m + m_rate m < 2 ^ 62;
}.

Record Metered (m : meter) (a : allowance) (log : list event) : Prop := {
  mt_low : - m_floor m ≤ credits a;
  mt_held : 0 ≤ heldCredits a;
  mt_cap : credits a + heldCredits a ≤ m_burst m;
  mt_past : Forall (λ e, ev_time e ≤ lastRefill a) log;
  mt_since : ∀ t, t ≤ lastRefill a →
    since m t log + credits a + heldCredits a ≤ m_burst m + m_rate m * (lastRefill a - t);
  mt_window : ∀ t1 t2, t1 ≤ t2 →
    between m t1 t2 log ≤ m_burst m + m_floor m + m_rate m * (t2 - t1);
}.

Lemma time_Sub_le t u : u ≤ t → 0 ≤ time_Sub t u ≤ t - u.
Proof. unfold time_Sub, max_int64, min_int64. lia. Qed.

Lemma time_Sub_pos t u : time_Sub t u ≤ 0 → t ≤ u.
Proof. unfold time_Sub, max_int64, min_int64. lia. Qed.

Lemma quot_ceil_le n d k : 0 < d → 0 ≤ n → (Z.quot (n + d - 1) d ≤ k ↔ n ≤ k * d).
Proof.
  intros Hd Hn. rewrite Z.quot_div_nonneg by lia.
  pose proof (Z.div_mod (n + d - 1) d ltac:(lia)).
  pose proof (Z.mod_pos_bound (n + d - 1) d Hd). split; nia.
Qed.

Section bucket.
Context (m : meter) `{!MeterOk m}.

(** A refill: the balance grows by at most the rate, never past the capacity, and by the
    full rate below it. *)
Lemma refilled_spec now a :
  - m_floor m ≤ credits a → 0 ≤ heldCredits a → credits a + heldCredits a ≤ m_burst m →
  lastRefill a ≤ now →
  heldCredits (refilled m now a) = heldCredits a
  ∧ lastRefill (refilled m now a) = now
  ∧ credits a ≤ credits (refilled m now a)
  ∧ credits (refilled m now a) ≤ m_burst m - heldCredits a
  ∧ credits (refilled m now a) ≤ credits a + m_rate m * (now - lastRefill a).
Proof.
  destruct MeterOk0. intros Hl Hh Hc Hn. unfold refilled, refillAllowance.
  pose proof (time_Sub_le now (lastRefill a) Hn) as Hs. case_match eqn:Hz; simpl; [split_and!; nia|].
  case_match eqn:He; simpl.
  { apply Z.leb_le, time_Sub_pos in He. split_and!; [done|lia|nia..]. }
  apply Z.leb_gt in He. rewrite (wrap64_id (m_burst m - _ - _)) by (unfold min_int64, max_int64; lia).
  case_match eqn:Hm; simpl; [apply Z.leb_le in Hm; split_and!; nia|]. apply Z.leb_gt in Hm.
  rewrite (wrap64_id (_ + m_rate m - 1)) by (unfold min_int64, max_int64; lia).
  case_match eqn:Hq; simpl.
  - apply Z.leb_le in Hq. rewrite quot_ceil_le in Hq by lia. split_and!; nia.
  - assert (time_Sub now (lastRefill a) * m_rate m < m_burst m - heldCredits a - credits a) as Hlt.
    { apply Z.leb_gt, Z.lt_nge in Hq. rewrite quot_ceil_le in Hq by lia. lia. }
    rewrite (wrap64_id (_ * m_rate m)), wrap64_id by (unfold min_int64, max_int64; nia).
    split_and!; nia.
Qed.

Lemma since_past t log : Forall (λ e, ev_time e < t) log → since m t log = 0.
Proof.
  unfold since. induction 1 as [|e log He _ IH]; simpl; [done|].
  rewrite IH, (proj2 (Z.leb_gt _ _)) by lia. done.
Qed.

(** With every event no later than [t2], the window up to [t2] is all there is since [t1]. *)
Lemma between_all t1 t2 log :
  Forall (λ e, ev_time e ≤ t2) log → between m t1 t2 log = since m t1 log.
Proof.
  unfold since, between. induction 1 as [|e log He _ IH]; simpl; [done|].
  rewrite IH, (proj2 (Z.leb_le _ _) He), andb_true_r. done.
Qed.

Lemma metered_refill now a log :
  Metered m a log → lastRefill a ≤ now →
  Metered m (refilled m now a) log.
Proof.
  intros [Hl Hh Hc Hp Hs Hw] Hn.
  destruct (refilled_spec now a Hl Hh Hc Hn) as (Eh & El & H1 & H2 & H3). destruct MeterOk0.
  constructor; rewrite ?Eh, ?El; try lia; [|intros t Ht|done].
  - eapply Forall_impl; [exact Hp|]. simpl. lia.
  - destruct (decide (t ≤ lastRefill a)) as [Hle|Hgt].
    + specialize (Hs t Hle). nia.
    + rewrite since_past; [nia|]. eapply Forall_impl; [exact Hp|]. simpl. lia.
Qed.

Lemma metered_hold n a log :
  Metered m a log → 0 ≤ n → n ≤ credits a + m_floor m → Metered m (hold n a) log.
Proof.
  intros [Hl Hh Hc Hp Hs Hw] H0 Hn. constructor; simpl; try lia; [done| |done].
  intros t Ht. specialize (Hs t Ht). lia.
Qed.

(** Spend, refund and other events at the time of the last refill. *)
Lemma metered_event a a' e log :
  Metered m a log → ev_time e = lastRefill a →
  lastRefill a' = lastRefill a → - m_floor m ≤ credits a' → 0 ≤ heldCredits a' →
  credits a' + heldCredits a' ≤ m_burst m →
  credits a' + heldCredits a' + m_weight m e ≤ credits a + heldCredits a →
  Metered m a' (e :: log).
Proof.
  intros [Hl Hh Hc Hp Hs Hw] He El Hl' Hh' Hc' Hk. destruct MeterOk0.
  assert (∀ t, t ≤ lastRefill a → since m t (e :: log) + credits a' + heldCredits a' ≤
    m_burst m + m_rate m * (lastRefill a - t)) as Hs'.
  { intros t Ht. specialize (Hs t Ht). unfold since in *. simpl.
    rewrite He, (proj2 (Z.leb_le _ _) Ht). lia. }
  assert (Forall (λ e, ev_time e ≤ lastRefill a) (e :: log)) as Hp'.
  { constructor; [by rewrite He|done]. }
  constructor; rewrite ?El; try done. intros t1 t2 Ht. destruct (decide (lastRefill a ≤ t2)).
  - rewrite between_all by (eapply Forall_impl; [exact Hp'|]; simpl; lia).
    destruct (decide (t1 ≤ lastRefill a)) as [Hle|Hgt].
    + specialize (Hs' t1 Hle). nia.
    + rewrite since_past; [nia|]. eapply Forall_impl; [exact Hp'|]. simpl. lia.
  - specialize (Hw t1 t2 Ht). unfold between in *. simpl.
    rewrite He, (proj2 (Z.leb_gt (lastRefill a) t2)), andb_false_r by lia. lia.
Qed.

Lemma metered_spend n a e log :
  Metered m a log → ev_time e = lastRefill a → m_weight m e = n → 0 ≤ n → n ≤ heldCredits a →
  Metered m (unhold n a) (e :: log).
Proof. intros HM He Hw H0 Hn. pose proof HM as []. eapply metered_event; eauto; simpl; lia. Qed.

Lemma metered_free a e log :
  Metered m a log → ev_time e = lastRefill a → m_weight m e = 0 → Metered m a (e :: log).
Proof. intros HM He Hw. pose proof HM as []. eapply metered_event; eauto; lia. Qed.

Lemma metered_unbilled n a e log :
  Metered m a log → ev_time e = lastRefill a → 0 ≤ n → m_weight m e = - n →
  Metered m (refund (m_burst m) n a) (e :: log).
Proof. intros HM He H0 Hw. pose proof HM as []. eapply metered_event; eauto; simpl; lia. Qed.

Lemma metered_return n a log :
  Metered m a log → 0 ≤ n → n ≤ heldCredits a →
  Metered m (refund (m_burst m) n (unhold n a)) log.
Proof.
  intros [Hl Hh Hc Hp Hs Hw] H0 Hn. constructor; simpl; try lia; [done| |done].
  intros t Ht. specialize (Hs t Ht). lia.
Qed.

(** A balance that lacks [needed - credits] has it after the time that takes, no sooner. *)
Lemma refilled_when needed e a :
  - m_floor m ≤ credits a → heldCredits a = 0 → credits a ≤ m_burst m →
  lastRefill a ≠ zero_time → credits a < needed ≤ m_burst m → 0 ≤ e →
  e ≤ max_int64 →
  needed ≤ credits (refilled m (lastRefill a + e) a) ↔
  Z.quot (needed - credits a + m_rate m - 1) (m_rate m) ≤ e.
Proof.
  destruct MeterOk0. intros Hl Hh Hc Hz Hn He Hmax. rewrite quot_ceil_le by lia.
  unfold refilled, refillAllowance. rewrite Hh, (proj2 (Z.eqb_neq _ _) Hz).
  replace (time_Sub (lastRefill a + e) (lastRefill a)) with e
    by (unfold time_Sub, min_int64, max_int64 in *; lia).
  rewrite (wrap64_id (m_burst m - _ - _)) by (unfold min_int64, max_int64; lia).
  case_match eqn:H0; simpl; [apply Z.leb_le in H0; nia|]. apply Z.leb_gt in H0.
  rewrite (proj2 (Z.leb_gt _ _)) by lia.
  rewrite (wrap64_id (_ + m_rate m - 1)) by (unfold min_int64, max_int64; lia).
  case_match eqn:Hq; simpl.
  - apply Z.leb_le in Hq. rewrite quot_ceil_le in Hq by lia. nia.
  - apply Z.leb_gt, Z.lt_nge in Hq. rewrite quot_ceil_le in Hq by lia.
    rewrite (wrap64_id (e * _)), wrap64_id by (unfold min_int64, max_int64; nia). nia.
Qed.
End bucket.

(** ** The four meters *)

Definition primaryMeter : meter :=
  MkMeter (billedPerTick * requestCreditUnit) billedPerTick requestCreditUnit
    (λ e, match e with ESent _ _ _ => requestCreditUnit | EUnbilled _ _ => - requestCreditUnit end).
Definition sentWeight (w : requestCost → Z) (e : event) : Z :=
  match e with ESent _ c _ => w c | EUnbilled _ _ => 0 end.
Definition points_of (c : requestCost) : Z := secondaryPoints c * secondaryCreditUnit.
Definition minute_of (c : requestCost) : Z := contentRequests c * contentMinuteCreditUnit.
Definition hour_of (c : requestCost) : Z := contentRequests c * contentHourCreditUnit.
Definition secondaryMeter : meter :=
  MkMeter (secondaryBurstPoints * secondaryCreditUnit) secondaryRefillPoints 0 (sentWeight points_of).
Definition minuteMeter : meter :=
  MkMeter (contentMinuteBurstRequests * contentMinuteCreditUnit) contentMinuteRefillRequests 0
    (sentWeight minute_of).
Definition hourMeter : meter :=
  MkMeter (contentHourBurstRequests * contentHourCreditUnit) contentHourRefillRequests 0
    (sentWeight hour_of).

Ltac meter_ok := constructor; solve_decided.
#[export] Instance primary_ok : MeterOk primaryMeter. Proof. meter_ok. Qed.
#[export] Instance secondary_ok : MeterOk secondaryMeter. Proof. meter_ok. Qed.
#[export] Instance minute_ok : MeterOk minuteMeter. Proof. meter_ok. Qed.
#[export] Instance hour_ok : MeterOk hourMeter. Proof. meter_ok. Qed.

(** ** The invariant *)

Definition waiting (c : call) : bool := match c_at c with Slot | Reserved => true | _ => false end.

(** What the calls that have not reached the network hold. *)
Definition held_of (w : requestCost → Z) (c : call) : Z :=
  if waiting c then w (r_cost (c_res c)) else 0.
Definition held_by (w : requestCost → Z) (cs : list call) : Z := sumZ (held_of w <$> cs).

(** Requests charged to a window: sent in it and not answered 304. *)
Definition net_weight (e : event) : Z := match e with ESent _ _ _ => 1 | EUnbilled _ _ => -1 end.
Definition ev_gen (e : event) : Z := match e with ESent _ _ g | EUnbilled _ g => g end.
Definition charged (g : Z) : list event → Z := sum_if (λ e, ev_gen e =? g) net_weight.

Definition answering (g : Z) (c : call) : Z :=
  if bool_decide (c_at c = Sent) && (r_generation (c_res c) =? g) then 1 else 0.
(** Calls on the network that were sent in window [g]. *)
Definition answering_by (g : Z) (cs : list call) : Z := sumZ (answering g <$> cs).

Record CallOk (g : Z) (c : call) : Prop := {
  co_cost : r_cost (c_res c) = requestCostForMethod (c_method c);
  co_gen : r_generation (c_res c) ≤ g;
  co_phase : match c_at c with
             | Slot | Reserved => r_attempted (c_res c) = false ∧ r_once (c_res c) = false
             | Sent => r_attempted (c_res c) = true ∧ r_once (c_res c) = false
             | Ended => r_once (c_res c) = true
             end;
}.

Record Sound (b : requestBudget) (cs : list call) (log : list event) (clock : Z) : Prop := {
  so_primary : Metered primaryMeter (b_primary b) log;
  so_secondary : Metered secondaryMeter (b_secondary b) log;
  so_minute : Metered minuteMeter (b_contentMinute b) log;
  so_hour : Metered hourMeter (b_contentHour b) log;
  so_held : heldCredits (b_primary b) = held_by (λ _, requestCreditUnit) cs
            ∧ heldCredits (b_secondary b) = held_by points_of cs
            ∧ heldCredits (b_contentMinute b) = held_by minute_of cs
            ∧ heldCredits (b_contentHour b) = held_by hour_of cs;
  so_unattempted : b_unattempted b = held_by (λ _, 1) cs;
  so_calls : Forall (CallOk (b_generation b)) cs;
  so_gens : Forall (λ e, ev_gen e ≤ b_generation b) log;
  so_used : b_used b = b_unattempted b + charged (b_generation b) log;
  so_answering : answering_by (b_generation b) cs ≤ charged (b_generation b) log;
  so_limits : b_limit b = billedPerTick ∧ b_ordinaryLimit b = ordinaryPerTick
              ∧ b_used b ≤ billedPerTick;
  so_charged : ∀ g, charged g log ≤ billedPerTick;
  so_clock : lastRefill (b_primary b) ≤ clock ∧ lastRefill (b_secondary b) ≤ clock
             ∧ lastRefill (b_contentMinute b) ≤ clock ∧ lastRefill (b_contentHour b) ≤ clock;
}.

(** The fields the invariant speaks of. *)
Definition core_of (b : requestBudget) :=
  (b_limit b, b_ordinaryLimit b, b_generation b, b_used b, b_unattempted b,
   (b_primary b, b_secondary b, b_contentMinute b, b_contentHour b)).

Lemma sound_core b b' cs log clock :
  core_of b = core_of b' → Sound b cs log clock → Sound b' cs log clock.
Proof.
  unfold core_of. intros [= E1 E2 E3 E4 E5 E6 E7 E8 E9] [].
  constructor; rewrite <-?E1, <-?E2, <-?E3, <-?E4, <-?E5, <-?E6, <-?E7, <-?E8, <-?E9; done.
Qed.

Lemma core_borrowed b v : core_of (b <| b_borrowed := v |>) = core_of b.
Proof. done. Qed.

(** *** Sums over the calls *)

Lemma sumZ_app l k : sumZ (l ++ k) = sumZ l + sumZ k.
Proof. induction l as [|x l IH]; simpl; [done|]. rewrite IH. lia. Qed.

Lemma sumZ_insert l i x y : l !! i = Some x → sumZ (<[i := y]> l) = sumZ l - x + y.
Proof.
  revert i. induction l as [|z l IH]; intros [|i]; simpl; try done; intros E.
  - injection E as ->. lia.
  - rewrite (IH _ E). lia.
Qed.

Lemma sumZ_nonneg l : Forall (λ x, 0 ≤ x) l → 0 ≤ sumZ l.
Proof. induction 1; simpl; lia. Qed.

Lemma sumZ_member l i x : Forall (λ x, 0 ≤ x) l → l !! i = Some x → x ≤ sumZ l.
Proof.
  intros H. revert i. induction H as [|y l Hy H IH]; intros [|i]; simpl; try done; intros E.
  - injection E as ->. pose proof (sumZ_nonneg l H). lia.
  - specialize (IH _ E). lia.
Qed.

Lemma set_call_insert i r p cs c :
  cs !! i = Some c → set_call i r p cs = <[i := MkCall r (c_method c) p]> cs.
Proof.
  intros E. unfold set_call. apply list_eq. intros j. destruct (decide (i = j)) as [->|Hj].
  - rewrite list_lookup_alter_eq, list_lookup_insert_eq by (by eapply lookup_lt_Some).
    by rewrite E.
  - by rewrite list_lookup_alter_ne, list_lookup_insert_ne by done.
Qed.

Lemma held_by_set w i r p cs c :
  cs !! i = Some c →
  held_by w (set_call i r p cs) = held_by w cs - held_of w c + held_of w (MkCall r (c_method c) p).
Proof.
  intros E. rewrite (set_call_insert _ _ _ _ _ E). unfold held_by. rewrite list_fmap_insert.
  apply sumZ_insert. by rewrite list_lookup_fmap, E.
Qed.

Lemma answering_by_set g i r p cs c :
  cs !! i = Some c →
  answering_by g (set_call i r p cs) =
  answering_by g cs - answering g c + answering g (MkCall r (c_method c) p).
Proof.
  intros E. rewrite (set_call_insert _ _ _ _ _ E). unfold answering_by. rewrite list_fmap_insert.
  apply sumZ_insert. by rewrite list_lookup_fmap, E.
Qed.

Lemma cost_cases method :
  requestCostForMethod method = readRequestCost ∨ requestCostForMethod method = writeRequestCost.
Proof. unfold requestCostForMethod. case_match; auto. Qed.

Definition fair (w : requestCost → Z) : Prop := 0 ≤ w readRequestCost ∧ 0 ≤ w writeRequestCost.

Lemma held_of_nonneg w g c : fair w → CallOk g c → 0 ≤ held_of w c.
Proof.
  intros [Hr Hw] [Hc _ _]. unfold held_of. rewrite Hc. case_match; [|done].
  destruct (cost_cases (c_method c)) as [-> | ->]; done.
Qed.

Lemma held_by_member w g cs i c :
  fair w → Forall (CallOk g) cs → cs !! i = Some c → 0 ≤ held_of w c ≤ held_by w cs.
Proof.
  intros Hf Ha E. split.
  - eapply held_of_nonneg; [done|]. by eapply Forall_lookup_1.
  - unfold held_by. eapply sumZ_member.
    + apply Forall_fmap. eapply Forall_impl; [exact Ha|]. intros d. apply held_of_nonneg; done.
    + by rewrite list_lookup_fmap, E.
Qed.

Lemma fair_one : fair (λ _, 1). Proof. done. Qed.
Lemma fair_unit : fair (λ _, requestCreditUnit). Proof. done. Qed.
Lemma fair_points : fair points_of. Proof. done. Qed.
Lemma fair_minute : fair minute_of. Proof. done. Qed.
Lemma fair_hour : fair hour_of. Proof. done. Qed.
#[export] Hint Resolve fair_points fair_minute fair_hour : ben.

(** *** The invariant under the budget's own operations *)

Definition Fresh (now : Z) (b : requestBudget) : Prop :=
  lastRefill (b_primary b) = now ∧ lastRefill (b_secondary b) = now
  ∧ lastRefill (b_contentMinute b) = now ∧ lastRefill (b_contentHour b) = now.

Lemma metered_refilled m `{!MeterOk m} now clock a log :
  Metered m a log → lastRefill a ≤ clock → clock ≤ now →
  Metered m (refilled m now a) log ∧ lastRefill (refilled m now a) = now
  ∧ heldCredits (refilled m now a) = heldCredits a.
Proof.
  intros HM H1 H2. pose proof HM as [? ? ? _ _ _].
  destruct (refilled_spec m now a) as (? & ? & _); [done..|lia|].
  split; [apply metered_refill; [done..|lia]|done].
Qed.

Lemma sound_refill now b cs log clock :
  Sound b cs log clock → clock ≤ now →
  Sound (refillLocked now b) cs log now ∧ Fresh now (refillLocked now b).
Proof.
  intros [Hp Hs Hm Hh (E1 & E2 & E3 & E4) Hu Hc Hg Hus Ha Hl Hch (L1 & L2 & L3 & L4)] Hn.
  destruct (metered_refilled _ now clock _ _ Hp L1 Hn) as (Hp' & P1 & P2).
  destruct (metered_refilled _ now clock _ _ Hs L2 Hn) as (Hs' & P3 & P4).
  destruct (metered_refilled _ now clock _ _ Hm L3 Hn) as (Hm' & P5 & P6).
  destruct (metered_refilled _ now clock _ _ Hh L4 Hn) as (Hh' & P7 & P8).
  assert (refillLocked now b =
    b <| b_primary ::= refilled primaryMeter now |> <| b_secondary ::= refilled secondaryMeter now |>
      <| b_contentMinute ::= refilled minuteMeter now |>
      <| b_contentHour ::= refilled hourMeter now |>) as ->.
  { unfold refillLocked, refill_primary. destruct Hl as (-> & _). done. }
  split; [|by split_and!].
  constructor; cbn -[refilled]; try done; [split_and!; congruence|split_and!; lia].
Qed.

Lemma charged_later g log : Forall (λ e, ev_gen e ≤ g) log → charged (Z.succ g) log = 0.
Proof.
  unfold charged. induction 1 as [|e log He _ IH]; simpl; [done|].
  rewrite IH, (proj2 (Z.eqb_neq _ _)) by lia. done.
Qed.

Lemma answering_later g cs : Forall (CallOk g) cs → answering_by (Z.succ g) cs = 0.
Proof.
  unfold answering_by. induction 1 as [|c cs Hc _ IH]; csimpl; [done|]. rewrite IH.
  destruct Hc as [_ Hg _]. unfold answering.
  rewrite (proj2 (Z.eqb_neq _ _)), andb_false_r by lia. done.
Qed.

Lemma held_by_nonneg w g cs : fair w → Forall (CallOk g) cs → 0 ≤ held_by w cs.
Proof.
  intros Hf Ha. apply sumZ_nonneg, Forall_fmap. eapply Forall_impl; [exact Ha|].
  intros d. by apply held_of_nonneg.
Qed.

Lemma answering_by_nonneg g cs : 0 ≤ answering_by g cs.
Proof.
  apply sumZ_nonneg, Forall_fmap, Forall_forall. intros c _. simpl. unfold answering.
  case_match; lia.
Qed.

Lemma sound_open now b cs log clock :
  Sound b cs log clock → Sound (openLocked now b) cs log clock.
Proof.
  intros [Hp Hs Hm Hh E Hu Hc Hg Hus Ha Hl Hch L].
  pose proof (answering_by_nonneg (b_generation b) cs).
  constructor; cbn -[Z.succ]; try done.
  - eapply Forall_impl; [exact Hc|]. intros c []. constructor; [done|lia|done].
  - eapply Forall_impl; [exact Hg|]. simpl. lia.
  - rewrite charged_later by done. lia.
  - rewrite charged_later, answering_later by done. done.
  - split_and!; [apply Hl..|]. lia.
Qed.

Lemma sound_roll now b cs log clock :
  Sound b cs log clock → Sound (rollIfStaleLocked now b) cs log clock.
Proof. unfold rollIfStaleLocked. case_match; [apply sound_open|done]. Qed.

(** New calls whose costs the budget has set aside. *)
Lemma sound_hold n sp ct b cs news log clock :
  Sound b cs log clock →
  Forall (CallOk (b_generation b)) news → Forall (λ c, waiting c = true) news →
  n = held_by (λ _, 1) news → n * requestCreditUnit = held_by (λ _, requestCreditUnit) news →
  sp * secondaryCreditUnit = held_by points_of news →
  ct * contentMinuteCreditUnit = held_by minute_of news →
  ct * contentHourCreditUnit = held_by hour_of news →
  b_used b + n ≤ billedPerTick →
  n * requestCreditUnit ≤ credits (b_primary b) + requestCreditUnit →
  sp * secondaryCreditUnit ≤ credits (b_secondary b) →
  ct * contentMinuteCreditUnit ≤ credits (b_contentMinute b) →
  ct * contentHourCreditUnit ≤ credits (b_contentHour b) →
  Sound (holdAll n sp ct b) (cs ++ news) log clock.
Proof.
  intros [Hp Hs Hm Hh E Hu Hc Hg Hus Ha Hl Hch L] Hn Hw N1 N2 N3 N4 N5 Hmax C1 C2 C3 C4.
  assert (∀ w, held_by w (cs ++ news) = held_by w cs + held_by w news) as Happ.
  { intros w. unfold held_by. by rewrite fmap_app, sumZ_app. }
  assert (answering_by (b_generation b) (cs ++ news) = answering_by (b_generation b) cs) as Hans.
  { unfold answering_by. rewrite fmap_app, sumZ_app.
    assert (sumZ (answering (b_generation b) <$> news) = 0) as ->; [|lia].
    clear -Hw. induction Hw as [|c l Hc _ IH]; csimpl; [done|]. rewrite IH. unfold answering, waiting in *.
    destruct (c_at c); try done. }
  pose proof (held_by_nonneg _ _ news fair_unit Hn).
  pose proof (held_by_nonneg _ _ news fair_points Hn).
  pose proof (held_by_nonneg _ _ news fair_minute Hn).
  pose proof (held_by_nonneg _ _ news fair_hour Hn).
  constructor; cbn -[Z.add requestCreditUnit]; rewrite ?Happ, ?Hans; try done.
  - apply metered_hold; [done|lia|]. done.
  - apply metered_hold; [done|lia|]. simpl. lia.
  - apply metered_hold; [done|lia|]. simpl. lia.
  - apply metered_hold; [done|lia|]. simpl. lia.
  - destruct E as (E1 & E2 & E3 & E4). split_and!; lia.
  - lia.
  - by apply Forall_app.
  - lia.
  - split_and!; [apply Hl..|done].
Qed.

(** *** The invariant under the life of one reservation *)

(** What a call that has not reached the network holds, and that the budget holds it. *)
Lemma sound_waiting b cs log clock i c :
  Sound b cs log clock → cs !! i = Some c → waiting c = true →
  CallOk (b_generation b) c ∧ 0 < b_unattempted b
  ∧ requestCreditUnit ≤ heldCredits (b_primary b)
  ∧ 0 ≤ points_of (r_cost (c_res c)) ≤ heldCredits (b_secondary b)
  ∧ 0 ≤ minute_of (r_cost (c_res c)) ≤ heldCredits (b_contentMinute b)
  ∧ 0 ≤ hour_of (r_cost (c_res c)) ≤ heldCredits (b_contentHour b).
Proof.
  intros HS E Hw. pose proof (so_calls _ _ _ _ HS) as Ha.
  pose proof (held_by_member _ _ cs i c fair_unit Ha E) as H1.
  pose proof (held_by_member _ _ cs i c fair_one Ha E) as H0.
  pose proof (held_by_member _ _ cs i c fair_points Ha E) as H2.
  pose proof (held_by_member _ _ cs i c fair_minute Ha E) as H3.
  pose proof (held_by_member _ _ cs i c fair_hour Ha E) as H4.
  destruct (so_held _ _ _ _ HS) as (E1 & E2 & E3 & E4). pose proof (so_unattempted _ _ _ _ HS).
  unfold held_of in *. rewrite Hw in *. split_and!; [by eapply Forall_lookup_1|lia..].
Qed.

(** The call leaves the waiting ones: the holds lose its cost. *)
Lemma held_by_leave w i r p cs c :
  cs !! i = Some c → waiting c = true → waiting (MkCall r (c_method c) p) = false →
  held_by w (set_call i r p cs) = held_by w cs - w (r_cost (c_res c)).
Proof.
  intros E Hw Hp. rewrite (held_by_set _ _ _ _ _ _ E). unfold held_of. rewrite Hw, Hp. lia.
Qed.

Lemma calls_set g i r p cs c :
  Forall (CallOk g) cs → cs !! i = Some c → CallOk g (MkCall r (c_method c) p) →
  Forall (CallOk g) (set_call i r p cs).
Proof. intros Ha E Hc. rewrite (set_call_insert _ _ _ _ _ E). by apply Forall_insert. Qed.

Lemma charged_cons g e log :
  charged g (e :: log) = (if ev_gen e =? g then net_weight e else 0) + charged g log.
Proof. done. Qed.

Lemma sound_mark now b cs log i c :
  Sound b cs log now → Fresh now b → cs !! i = Some c → waiting c = true →
  ∃ b' r', markAttemptedLocked b (c_res c) = Some (b', r')
    ∧ b_generation b' = b_generation b
    ∧ Sound b' (set_call i r' Sent cs)
        (ESent now (requestCostForMethod (c_method c)) (b_generation b) :: log) now.
Proof.
  intros HS (F1 & F2 & F3 & F4) E Hw.
  destruct (sound_waiting _ _ _ _ _ _ HS E Hw) as ([Hcost Hgen Hph] & U & H1 & H2 & H3 & H4).
  destruct HS as [Hp Hs Hm Hh (E1 & E2 & E3 & E4) Hu Hc Hg Hus Ha Hl Hch L].
  assert (r_attempted (c_res c) = false ∧ r_once (c_res c) = false) as [Hat Hon].
  { unfold waiting in Hw. destruct (c_at c); done. }
  unfold markAttemptedLocked. rewrite Hat, (proj2 (Z.ltb_lt _ _) U).
  rewrite (proj2 (orb_false_iff _ _)) by (rewrite !orb_false_iff, !Z.ltb_ge;
    cbn -[Z.sub requestCreditUnit]; unfold points_of, minute_of, hour_of in *; lia).
  eexists _, _. split; [done|]. split; [done|].
  assert (waiting (MkCall (c_res c <| r_attempted := true |> <| r_generation := b_generation b |>
     <| r_reportEpoch := b_reportEpoch b |>) (c_method c) Sent) = false) as Hnw by done.
  constructor; cbn -[charged requestCreditUnit Z.sub Z.pred requestCostForMethod];
    rewrite ?(λ w, held_by_leave w _ _ _ _ _ E Hw Hnw); try done.
  - eapply metered_spend; [tc_solve|done|done|done|done|lia].
  - eapply metered_spend; [tc_solve|done|done| |apply H2..]. simpl. by rewrite <-Hcost.
  - eapply metered_spend; [tc_solve|done|done| |apply H3..]. simpl. by rewrite <-Hcost.
  - eapply metered_spend; [tc_solve|done|done| |apply H4..]. simpl. by rewrite <-Hcost.
  - unfold points_of, minute_of, hour_of in *. split_and!; lia.
  - lia.
  - eapply calls_set; [done..|]. by constructor.
  - by constructor.
  - rewrite charged_cons. cbn -[charged]. rewrite Z.eqb_refl. lia.
  - rewrite (answering_by_set _ _ _ _ _ _ E), charged_cons. unfold answering; cbn -[charged].
    rewrite Z.eqb_refl. unfold waiting in Hw. destruct (c_at c); try done; simpl; lia.
  - intros g. rewrite charged_cons. cbn -[charged].
    destruct (Z.eqb_spec (b_generation b) g) as [<-|_]; [|apply Hch].
    pose proof (held_by_member _ _ cs i c fair_one Hc E) as H0.
    unfold held_of in H0. rewrite Hw in H0. destruct Hl as (_ & _ & Hl). lia.
Qed.

(** A reservation returned without an attempt. *)
Lemma sound_release now b cs log clock i c :
  Sound b cs log clock → clock ≤ now → cs !! i = Some c → waiting c = true →
  let '(b', r') := releaseUnused now b (c_res c) in Sound b' (set_call i r' Ended cs) log now.
Proof.
  intros HS Hn E Hw. destruct (sound_refill now _ _ _ _ HS Hn) as [HR _]. clear HS.
  assert (r_attempted (c_res c) = false ∧ r_once (c_res c) = false) as [Hat Hon].
  { pose proof (co_phase _ _ (Forall_lookup_1 _ _ _ _ (so_calls _ _ _ _ HR) E)) as Hph.
    unfold waiting in Hw. destruct (c_at c); done. }
  unfold releaseUnused. rewrite Hat, Hon. revert HR. generalize (refillLocked now b). clear b. intros b HS.
  destruct (sound_waiting _ _ _ _ _ _ HS E Hw) as ([Hcost Hgen Hph] & U & H1 & H2 & H3 & H4).
  destruct HS as [Hp Hs Hm Hh (E1 & E2 & E3 & E4) Hu Hc Hg Hus Ha Hl Hch L].
  assert (0 < b_used b) as Hub.
  { pose proof (answering_by_nonneg (b_generation b) cs). lia. }
  destruct Hl as (Hl1 & Hl2 & Hl3).
  assert (waiting (MkCall (c_res c <| r_generation := b_generation b |> <| r_once := true |>)
    (c_method c) Ended) = false) as Hnw by done.
  unfold refundPrimaryLocked, refundSecondaryLocked, refundContentLocked; cbn -[Z.sub Z.pred requestCreditUnit unhold refund].
  rewrite Z.eqb_refl, (proj2 (Z.ltb_lt _ _) Hub).
  cbn -[Z.sub Z.pred requestCreditUnit unhold refund]. rewrite Hat. cbn -[Z.sub Z.pred requestCreditUnit unhold refund].
  eapply (sound_core (unholdAll (r_cost (c_res c)) b <| b_unattempted ::= Z.pred |> <| b_used ::= Z.pred |>
    <| b_primary ::= refund (b_limit b * requestCreditUnit) requestCreditUnit |>
    <| b_secondary ::= refund (secondaryBurstPoints * secondaryCreditUnit) (points_of (r_cost (c_res c))) |>
    <| b_contentMinute ::= refund (contentMinuteBurstRequests * contentMinuteCreditUnit) (minute_of (r_cost (c_res c))) |>
    <| b_contentHour ::= refund (contentHourBurstRequests * contentHourCreditUnit) (hour_of (r_cost (c_res c))) |>)).
  { unfold returnBorrow. cbn -[Z.sub Z.pred requestCreditUnit unhold refund]. by destruct (r_borrowed (c_res c)). }
  constructor; cbn -[charged requestCreditUnit Z.sub Z.pred unhold refund];
    rewrite ?(λ w, held_by_leave w _ _ _ _ _ E Hw Hnw); try done.
  - rewrite Hl1. by apply (metered_return primaryMeter).
  - apply (metered_return secondaryMeter); [done|apply H2..].
  - apply (metered_return minuteMeter); [done|apply H3..].
  - apply (metered_return hourMeter); [done|apply H4..].
  - cbn. unfold points_of, minute_of, hour_of in *. split_and!; lia.
  - lia.
  - eapply calls_set; [done..|]. by constructor.
  - lia.
  - rewrite (answering_by_set _ _ _ _ _ _ E). unfold answering; cbn -[answering_by charged].
    unfold waiting in Hw. destruct (c_at c); try done; simpl; lia.
  - split_and!; [done..|lia].
Qed.

(** *** An answer: the reservation was attempted, so only the report and, for a 304, the
    primary allowance and the window change. *)
Section answer.
Context (now : Z) (b : requestBudget) (cs : list call) (log : list event) (i : nat) (c : call).
Context (HS : Sound b cs log now) (HF : Fresh now b) (E : cs !! i = Some c) (Hw : c_at c = Sent).

Let cs' := set_call i (c_res c <| r_once := true |>) Ended cs.
Let mine := if r_generation (c_res c) =? b_generation b then 1 else 0.

Lemma answered_held w : held_by w cs' = held_by w cs.
Proof.
  unfold cs'. rewrite (held_by_set _ _ _ _ _ _ E). unfold held_of, waiting. rewrite Hw. simpl. lia.
Qed.

Lemma answered_answering :
  answering_by (b_generation b) cs' = answering_by (b_generation b) cs - mine
  ∧ mine ≤ answering_by (b_generation b) cs.
Proof.
  unfold cs', mine. rewrite (answering_by_set _ _ _ _ _ _ E). split.
  - unfold answering; cbn -[answering_by]. rewrite Hw. simpl. lia.
  - unfold answering_by. eapply (sumZ_member _ i).
    + apply Forall_fmap, Forall_forall. intros d _. simpl. unfold answering.
      destruct (bool_decide _ && _); lia.
    + rewrite list_lookup_fmap, E. simpl. unfold answering. by rewrite Hw.
Qed.

Lemma answered_calls : Forall (CallOk (b_generation b)) cs'.
Proof.
  pose proof (Forall_lookup_1 _ _ _ _ (so_calls _ _ _ _ HS) E) as [? ? _].
  eapply calls_set; [apply HS|done|by constructor].
Qed.

Lemma sound_billed : Sound b cs' log now.
Proof.
  pose proof answered_calls. destruct answered_answering as [Hab Hmem].
  destruct HS as [Hp Hs Hm Hh HE Hu Hc Hg Hus Ha Hl Hch L].
  constructor; rewrite ?answered_held, ?Hab; try done. unfold mine. case_match; lia.
Qed.

Lemma sound_unbilled :
  Sound (refundPrimaryLocked (r_generation (c_res c)) b) cs'
    (EUnbilled now (r_generation (c_res c)) :: log) now.
Proof.
  pose proof answered_calls as Hcs. destruct answered_answering as [Hab Hmem].
  pose proof (co_gen _ _ (Forall_lookup_1 _ _ _ _ (so_calls _ _ _ _ HS) E)) as Hgen.
  destruct HS as [Hp Hs Hm Hh HE Hu Hc Hg Hus Ha (Hl1 & Hl2 & Hl3) Hch L].
  destruct HF as (F1 & F2 & F3 & F4).
  pose proof (held_by_nonneg _ _ cs fair_one Hc) as Hun. rewrite <-Hu in Hun.
  assert (∀ g, charged g (EUnbilled now (r_generation (c_res c)) :: log) =
    charged g log - (if r_generation (c_res c) =? g then 1 else 0)) as Hcg.
  { intros g. rewrite charged_cons. cbn -[charged]. destruct (_ =? g); lia. }
  eapply (sound_core (b <| b_primary ::= refund (b_limit b * requestCreditUnit) requestCreditUnit |>
                        <| b_used ::= λ u, u - mine |>)).
  { unfold refundPrimaryLocked, core_of, mine in *.
    destruct (r_generation (c_res c) =? b_generation b); cbn -[Z.pred Z.sub refund requestCreditUnit] in *.
    - by rewrite (proj2 (Z.ltb_lt 0 (b_used b))) by lia.
    - by rewrite Z.sub_0_r. }
  constructor; cbn -[charged requestCreditUnit refund Z.sub];
    rewrite ?answered_held, ?Hab, ?Hcg; fold mine; try done; try (by apply metered_free); try lia.
  - rewrite Hl1. by apply (metered_unbilled primaryMeter).
  - by constructor.
  - split_and!; [done..|]. unfold mine. case_match; lia.
  - intros g. rewrite Hcg. specialize (Hch g). destruct (_ =? g); lia.
Qed.
End answer.

Lemma sound_settle now paid b cs log clock i c :
  Sound b cs log clock → clock ≤ now → cs !! i = Some c → c_at c = Sent →
  ∃ b' r', settle now paid b (c_res c) = Some (b', r')
    ∧ Sound b' (set_call i r' Ended cs)
        (if paid then log else EUnbilled now (r_generation r') :: log) now.
Proof.
  intros HS Hn E Hw. destruct (sound_refill now _ _ _ _ HS Hn) as [HR HF].
  pose proof (co_phase _ _ (Forall_lookup_1 _ _ _ _ (so_calls _ _ _ _ HR) E)) as Hph.
  rewrite Hw in Hph. destruct Hph as [Hat Hon].
  unfold settle, markAttemptedLocked. rewrite Hon, Hat. cbn -[refundPrimaryLocked refillLocked].
  eexists _, _. split; [done|]. cbn -[refundPrimaryLocked refillLocked]. destruct paid.
  - eapply (sound_core (refillLocked now b)); [|by eapply sound_billed].
    unfold returnBorrow.
    by destruct (r_borrowed (c_res c)), (r_reportEpoch (c_res c) =? _), (0 <? b_pending _).
  - eapply (sound_core (refundPrimaryLocked (r_generation (c_res c)) (refillLocked now b)));
      [|by eapply sound_unbilled].
    generalize (refillLocked now b). intros b'. unfold returnBorrow, refundPrimaryLocked.
    destruct (r_borrowed (c_res c)), (r_reportEpoch (c_res c) =? _), (0 <? b_pending _);
      cbn -[Z.pred refund requestCreditUnit]; by destruct (_ && _).
Qed.

(** *** Every action keeps the invariant, and none panics *)

Lemma sound_later b cs log clock now :
  Sound b cs log clock → clock ≤ now → Sound b cs log now.
Proof. intros [] ?. constructor; try done. split_and!; lia. Qed.

Lemma sound_refilled now b cs log clock :
  Sound b cs log clock → clock ≤ now →
  Sound (refillLocked now (rollIfStaleLocked now b)) cs log now.
Proof. intros HS Hn. by eapply sound_refill; [apply sound_roll|]. Qed.

Lemma sound_acquire now q deferred method b cs log clock :
  Sound b cs log clock → clock ≤ now → a_cost q = requestCostForMethod method →
  let '(t, b') := acquireTurn now q deferred b in
  Sound b' (match t with Got r => cs ++ [MkCall r method Reserved] | _ => cs end) log now.
Proof.
  intros HS Hn Hcost. apply (sound_refilled now) in HS; [|done]. unfold acquireTurn.
  revert HS. generalize (refillLocked now (rollIfStaleLocked now b)). clear b Hn. intros b HS.
  destruct (reserveOneWithCostLocked _ _ _ b) as [[r b']|] eqn:ER.
  - unfold reserveOneWithCostLocked in ER.
    destruct (_ || _) eqn:Hg in ER; [done|]. rewrite !orb_false_iff, !Z.leb_gt, !Z.ltb_ge in Hg.
    destruct Hg as (((((Hg1 & Hg2) & Hg3) & Hg4) & Hg5) & Hg6).
    assert (b_used b + 1 ≤ billedPerTick) as Hub.
    { destruct (so_limits _ _ _ _ HS) as (L1 & L2 & _). unfold windowLimit in Hg3.
      rewrite L1, L2 in Hg3. unfold ordinaryPerTick in Hg3. destruct (a_conditional q); lia. }
    assert (0 ≤ secondaryReserve (a_preserveClaim q) ∧ 0 ≤ contentReserve (a_preserveClaim q) (a_cost q)) as [Hr1 Hr2].
    { unfold secondaryReserve, contentReserve.
      destruct (a_preserveClaim q), (0 <? contentRequests (a_cost q)); done. }
    assert (Sound (holdAll 1 (secondaryPoints (a_cost q)) (contentRequests (a_cost q)) b)
      (cs ++ [MkCall (r <| r_waited := deferred |>) method Reserved]) log now
      ∧ core_of b' = core_of (holdAll 1 (secondaryPoints (a_cost q)) (contentRequests (a_cost q)) b)) as [HH Hcore].
    { assert (∃ bw, r = reservation_for b bw (a_cost q) ∧ 0 ≤ credits (b_primary b) ∧
        core_of b' = core_of (holdAll 1 (secondaryPoints (a_cost q)) (contentRequests (a_cost q)) b)) as (bw & -> & Hpos & ->).
      { destruct (requestCreditUnit <=? _) eqn:Hc in ER.
        - injection ER as <- <-. exists false. split_and!; [done| |done].
          apply Z.leb_le in Hc. unfold requestCreditUnit, defaultBudgetWindow, second in Hc. lia.
        - destruct (_ && _) eqn:Hb in ER; [|done]. injection ER as <- <-. split_bools.
          exists true. split_and!; [done|by apply Z.leb_le|apply core_borrowed]. }
      split; [|done]. apply sound_hold; try done.
      - constructor; [|done]. constructor; [done|simpl; lia|done].
      - by repeat constructor.
      - unfold held_by, held_of, points_of. simpl. lia.
      - unfold held_by, held_of, minute_of. simpl. lia.
      - unfold held_by, held_of, hour_of. simpl. lia.
      - lia.
      - unfold secondaryCreditUnit, minute, second in *. lia.
      - unfold contentMinuteCreditUnit, minute, second in *. lia.
      - unfold contentHourCreditUnit, hour, minute, second in *. lia. }
    by eapply sound_core.
  - destruct (_ && _); [by apply (sound_core b)|]. destruct deferred; [done|by apply (sound_core b)].
Qed.

Lemma sound_lease now b cs log clock :
  Sound b cs log clock → clock ≤ now →
  let '(l, b') := reserveLease now claimLeaseCosts b in
  Sound b' (match l with
            | Ok rs => cs ++ imap (λ s r, MkCall r (stageMethod s) Slot) rs
            | Err _ => cs
            end) log now.
Proof.
  intros HS Hn. apply (sound_refilled now) in HS; [|done]. unfold reserveLease.
  revert HS. generalize (refillLocked now (rollIfStaleLocked now b)). clear b Hn. intros b HS.
  change (negb (forallb positiveCost claimLeaseCosts)) with false. cbv iota.
  destruct (_ || _) eqn:Hg; [by apply (sound_core b)|].
  rewrite !orb_false_iff, !Z.ltb_ge in Hg. destruct Hg as (((((_ & Hg2) & Hg3) & Hg4) & Hg5) & Hg6).
  destruct (so_limits _ _ _ _ HS) as (L1 & L2 & _). rewrite L2 in Hg2.
  apply sound_hold; try done.
  - repeat (constructor; [constructor; [done|simpl; lia|done]|]). constructor.
  - by repeat constructor.
  - change ordinaryPerTick with 39 in Hg2. change billedPerTick with 40. simpl in *. lia.
  - unfold requestCreditUnit, defaultBudgetWindow, second in *. simpl in *. lia.
Qed.

Lemma sound_leased b cs log clock i c :
  Sound b cs log clock → cs !! i = Some c → c_at c = Slot →
  Sound b (set_call i (c_res c) Reserved cs) log clock.
Proof.
  intros HS E Hs. pose proof (Forall_lookup_1 _ _ _ _ (so_calls _ _ _ _ HS) E) as [? ? Hph].
  rewrite Hs in Hph. assert (∀ w, held_by w (set_call i (c_res c) Reserved cs) = held_by w cs) as Hh.
  { intros w. rewrite (held_by_set _ _ _ _ _ _ E). unfold held_of, waiting. rewrite Hs. simpl. lia. }
  destruct HS. constructor; rewrite ?Hh; try done.
  - eapply calls_set; [done..|by constructor].
  - rewrite (answering_by_set _ _ _ _ _ _ E). unfold answering; cbn -[answering_by].
    rewrite Hs. simpl. lia.
Qed.

Lemma set_call_same i cs c :
  cs !! i = Some c → set_call i (c_res c) (c_at c) cs = cs.
Proof.
  intros E. rewrite (set_call_insert _ _ _ _ _ E). apply list_insert_id. rewrite E. by destruct c.
Qed.

(** A loop of [close] reaches a reservation that no request uses. *)
Lemma sound_returned now b cs log clock i c :
  Sound b cs log clock → clock ≤ now → cs !! i = Some c → in_flight c = false →
  let '(b', r') := releaseUnused now b (c_res c) in Sound b' (set_call i r' Ended cs) log now.
Proof.
  intros HS Hn E Hf. unfold in_flight in Hf. destruct (c_at c) eqn:Hat; try done.
  - eapply sound_release; [done..|]. unfold waiting. by rewrite Hat.
  - pose proof (co_phase _ _ (Forall_lookup_1 _ _ _ _ (so_calls _ _ _ _ HS) E)) as Hph.
    rewrite Hat in Hph. unfold releaseUnused. rewrite Hph, <-Hat, set_call_same by done.
    by eapply sound_later.
Qed.

Definition SoundSystem (y : system) : Prop :=
  Sound (y_budget y) (y_calls y) (y_log y) (y_clock y).

Lemma sound_perform a y :
  SoundSystem y → y_clock y ≤ action_time a y →
  perform a y ≠ Panic ∧ ∀ y', perform a y = Next y' → SoundSystem y'.
Proof.
  unfold SoundSystem. intros HS Ht. destruct y as [b cs ls clock log].
  destruct a as [now iv|now me co wa re pr de|now|j st|j st|now i ho ga re st|now i an|j|now j st];
    cbn -[beginTick acquireTurn reserveLease take markAttempted settle releaseUnused imap
          claimLeaseCosts requestCostForMethod] in *.
  - split; [done|]. intros ? [= <-]. cbn -[beginTick]. unfold beginTick. cbn -[refillLocked openLocked].
    apply sound_open. eapply (sound_core (refillLocked now b)); [done|]. by eapply sound_refill.
  - pose proof (sound_acquire now (MkAsk co wa re (requestCostForMethod me) pr) de me b cs log clock
      HS Ht eq_refl) as HA.
    destruct (acquireTurn _ _ _ _) as [[r|e|w d] b']; (split; [done|]); intros ? [= <-]; exact HA.
  - pose proof (sound_lease now b cs log clock HS Ht) as HA.
    destruct (reserveLease _ _ _) as [[rs|e] b']; (split; [done|]); intros ? [= <-]; exact HA.
  - destruct (ls !! j) as [l|]; [|done].
    destruct (take l st) as [[? l']|]; (split; [done|]); intros ? [= <-]; exact HS.
  - destruct (ls !! j) as [l|]; [|done]. destruct (l_reservations l !! st) as [i|]; [|done].
    destruct (cs !! i) as [c|] eqn:E; [|done]. destruct (_ && _) eqn:Hg; [|done]. split_bools.
    split; [done|]. intros ? [= <-]. by apply sound_leased.
  - destruct (cs !! i) as [c|] eqn:E; [|done].
    destruct (decide (c_at c = Reserved)) as [Hr|Hr]; [|by rewrite bool_decide_eq_false_2 by done].
    rewrite bool_decide_eq_true_2 by done. cbn [negb].
    assert (waiting c = true) as Hw by (unfold waiting; by rewrite Hr).
    destruct (abandon _ _ _ _ _).
    + pose proof (sound_release now b cs log clock i c HS Ht E Hw) as HA.
      destruct (releaseUnused _ _ _) as [b' r']. split; [done|]. intros ? [= <-]. exact HA.
    + destruct (sound_refill now _ _ _ _ HS Ht) as [HR HF].
      destruct (sound_mark now _ _ _ _ _ HR HF E Hw) as (b' & r' & Hm & Hg & HA).
      unfold markAttempted. rewrite Hm. split; [done|]. intros ? [= <-].
      cbn -[requestCostForMethod]. rewrite Hg. exact HA.
  - destruct (cs !! i) as [c|] eqn:E; [|done].
    destruct (decide (c_at c = Sent)) as [Hr|Hr]; [|by rewrite bool_decide_eq_false_2 by done].
    rewrite bool_decide_eq_true_2 by done. cbn [negb].
    destruct (sound_settle now (billed an) _ _ _ _ _ _ HS Ht E Hr) as (b' & r' & Hm & HA).
    rewrite Hm. split; [done|]. intros ? [= <-]. destruct (billed an); exact HA.
  - destruct (ls !! j) as [l|]; [|done]. destruct (existsb _ _); [done|].
    split; [done|]. intros ? [= <-]. exact HS.
  - destruct (ls !! j) as [l|]; [|done]. destruct (l_reservations l !! st) as [i|]; [|done].
    destruct (cs !! i) as [c|] eqn:E; [|done]. destruct (_ || _) eqn:Hg; [done|]. split_bools.
    pose proof (sound_returned now b cs log clock i c HS Ht E ltac:(done)) as HA.
    destruct (releaseUnused _ _ _) as [b' r']. split; [done|]. intros ? [= <-]. exact HA.
Qed.

Lemma sound_new started : SoundSystem (newSystem started).
Proof.
  assert (∀ m, MeterOk m → Metered m (MkAllowance (m_burst m) 0 started) []) as Hm.
  { intros m []. constructor; simpl; try lia; [constructor| |]; intros; unfold since, between; simpl; nia. }
  constructor; simpl; try done.
  - by apply (Hm primaryMeter).
  - by apply (Hm secondaryMeter).
  - by apply (Hm minuteMeter).
  - by apply (Hm hourMeter).
Qed.

Lemma reaches_sound started y : reaches started y → SoundSystem y.
Proof.
  induction 1 as [|a y y' _ IH _ Ht Hp]; [apply sound_new|]. by eapply sound_perform.
Qed.

(** *** The clocks of the window *)

Record Timed (started : Z) (y : system) : Prop := {
  ti_started : started ≤ y_clock y;
  ti_opened : started ≤ b_opened (y_budget y) ≤ y_clock y;
  ti_ceiling : 0 < b_ceiling (y_budget y) ≤ max_int64;
}.

(** What the reservations' own operations leave alone. *)
Definition window_of (b : requestBudget) := (b_opened b, b_ceiling b).

Lemma refill_window now b : window_of (refillLocked now b) = window_of b.
Proof. done. Qed.

Lemma refund_window g b : window_of (refundPrimaryLocked g b) = window_of b.
Proof. unfold refundPrimaryLocked. by destruct (_ && _). Qed.

Lemma borrow_window r b : window_of (returnBorrow r b) = window_of b.
Proof. unfold returnBorrow. by destruct (r_borrowed r). Qed.

Lemma mark_window b r b' r' :
  markAttemptedLocked b r = Some (b', r') → window_of b' = window_of b.
Proof.
  unfold markAttemptedLocked. destruct (r_attempted r); [by intros [= <- <-]|].
  destruct (0 <? b_unattempted b); destruct (_ || _); try done; by intros [= <- <-].
Qed.

Lemma settle_window now paid b r b' r' :
  settle now paid b r = Some (b', r') → window_of b' = window_of b.
Proof.
  unfold settle. destruct (r_once r); [by intros [= <- <-]|].
  destruct (markAttemptedLocked _ r) as [[b1 r1]|] eqn:Hm; [|done]. cbn -[refundPrimaryLocked returnBorrow].
  apply mark_window in Hm. rewrite refill_window in Hm. rewrite <-Hm. intros [= <- <-].
  change (window_of (notifyLocked ?x)) with (window_of x). rewrite borrow_window.
  destruct paid, (r_reportEpoch r1 =? _), (0 <? b_pending b1); cbn -[refundPrimaryLocked];
    rewrite ?refund_window; done.
Qed.

Lemma release_window now b r : window_of (releaseUnused now b r).1 = window_of b.
Proof.
  unfold releaseUnused. destruct (r_once r); [done|].
  destruct (r_attempted r) eqn:Ha; cbn -[refundPrimaryLocked returnBorrow]; rewrite ?Ha;
    cbn -[refundPrimaryLocked returnBorrow];
    [destruct (_ && _)|]; change (window_of (notifyLocked ?x)) with (window_of x);
    rewrite borrow_window; unfold refundContentLocked, refundSecondaryLocked;
    exact (refund_window _ _).
Qed.

Lemma roll_window now b :
  window_of (rollIfStaleLocked now b) = window_of b
  ∨ window_of (rollIfStaleLocked now b) = (now, b_ceiling b).
Proof. unfold rollIfStaleLocked. destruct (_ || _); auto. Qed.

Lemma reserve_window co cost pr b r b' :
  reserveOneWithCostLocked co cost pr b = Some (r, b') → window_of b' = window_of b.
Proof.
  unfold reserveOneWithCostLocked. destruct (_ || _); [done|].
  destruct (requestCreditUnit <=? _); [by intros [= <- <-]|].
  destruct (_ && _); [|done]. by intros [= <- <-].
Qed.

Lemma acquire_window now q deferred b :
  window_of (acquireTurn now q deferred b).2 = window_of (rollIfStaleLocked now b).
Proof.
  unfold acquireTurn. rewrite <-(refill_window now (rollIfStaleLocked now b)).
  generalize (refillLocked now (rollIfStaleLocked now b)). intros b1.
  destruct (reserveOneWithCostLocked _ _ _ b1) as [[r b2]|] eqn:Hr.
  - by apply reserve_window in Hr.
  - destruct (_ && _); [done|by destruct deferred].
Qed.

Lemma lease_window now b :
  window_of (reserveLease now claimLeaseCosts b).2 = window_of (rollIfStaleLocked now b).
Proof.
  unfold reserveLease. rewrite <-(refill_window now (rollIfStaleLocked now b)).
  generalize (refillLocked now (rollIfStaleLocked now b)).
  intros b'. change (negb (forallb positiveCost claimLeaseCosts)) with false. cbv iota.
  by destruct (_ || _).
Qed.

(** [Timed] after a step that keeps the window, or opens it at [now]. *)
Lemma timed_step started y y' :
  Timed started y → y_clock y ≤ y_clock y' →
  window_of (y_budget y') = window_of (y_budget y)
  ∨ window_of (y_budget y') = (y_clock y', b_ceiling (y_budget y)) →
  Timed started y'.
Proof.
  unfold window_of. intros [] Hn [[= E1 E2]|[= E1 E2]]; constructor; rewrite ?E1, ?E2; lia.
Qed.

Lemma timed_perform started a y y' :
  Timed started y → action_valid a → y_clock y ≤ action_time a y → perform a y = Next y' →
  Timed started y'.
Proof.
  intros HT Hv Ht HP. destruct y as [b cs ls clock log].
  destruct a as [now iv|now me co wa re pr de|now|j st|j st|now i ho ga re st|now i an|j|now j st];
    cbn -[beginTick acquireTurn reserveLease take markAttempted settle releaseUnused imap
          claimLeaseCosts requestCostForMethod max_int64] in *.
  - injection HP as <-. destruct HT as [? ? ?]. constructor; cbn -[max_int64] in *; [lia..|].
    destruct (Z.leb_spec iv 0); [done|lia].
  - pose proof (acquire_window now (MkAsk co wa re (requestCostForMethod me) pr) de b) as Hw.
    pose proof (roll_window now b) as Hr. rewrite <-Hw in Hr.
    destruct (acquireTurn _ _ _ _) as [[r|e|w d] b']; injection HP as <-; by eapply timed_step.
  - pose proof (roll_window now b) as Hr. rewrite <-lease_window in Hr.
    destruct (reserveLease _ _ _) as [[rs|e] b']; injection HP as <-; by eapply timed_step.
  - destruct (ls !! j) as [l|]; [|done].
    destruct (take l st) as [[? l']|]; injection HP as <-; by apply (timed_step _ _ _ HT); [|left].
  - destruct (ls !! j) as [l|]; [|done]. destruct (l_reservations l !! st) as [i|]; [|done].
    destruct (cs !! i) as [c|]; [|done]. destruct (_ && _); [|done].
    injection HP as <-. by apply (timed_step _ _ _ HT); [|left].
  - destruct (cs !! i) as [c|]; [|done]. destruct (negb _); [done|].
    destruct (abandon _ _ _ _ _).
    + pose proof (release_window now b (c_res c)) as Hw. destruct (releaseUnused _ _ _) as [b' r'].
      injection HP as <-. by apply (timed_step _ _ _ HT); [|left].
    + unfold markAttempted in HP. destruct (markAttemptedLocked _ _) as [[b' r']|] eqn:Hm; [|done].
      apply mark_window in Hm. injection HP as <-. by apply (timed_step _ _ _ HT); [|left].
  - destruct (cs !! i) as [c|]; [|done]. destruct (negb (bool_decide _)); [done|].
    destruct (settle _ _ _ _) as [[b' r']|] eqn:Hm; [|done]. apply settle_window in Hm.
    injection HP as <-. destruct (billed an); by apply (timed_step _ _ _ HT); [|left].
  - destruct (ls !! j) as [l|]; [|done]. destruct (existsb _ _); [done|].
    injection HP as <-. by apply (timed_step _ _ _ HT); [|left].
  - destruct (ls !! j) as [l|]; [|done]. destruct (l_reservations l !! st) as [i|]; [|done].
    destruct (cs !! i) as [c|]; [|done]. destruct (_ || _); [done|].
    pose proof (release_window now b (c_res c)) as Hw. destruct (releaseUnused _ _ _) as [b' r'].
    injection HP as <-. by apply (timed_step _ _ _ HT); [|left].
Qed.

Lemma reaches_timed started y : reaches started y → Timed started y.
Proof.
  induction 1 as [|a y y' _ IH Hv Ht Hp]; [|by eapply timed_perform].
  constructor; simpl; [lia..|]. done.
Qed.

(** ** What it guarantees *)

Definition in_window (t1 t2 : Z) (e : event) : bool := (t1 <=? ev_time e) && (ev_time e <=? t2).
(** The price, by [w], of what was sent in a window of time. *)
Definition sent_in (w : requestCost → Z) (t1 t2 : Z) : list event → Z :=
  sum_if (in_window t1 t2) (sentWeight w).
(** Requests sent less 304 answers received. *)
Definition charged_in (t1 t2 : Z) : list event → Z := sum_if (in_window t1 t2) net_weight.

Lemma sum_if_scale P w w' k log :
  (∀ e, w' e = w e * k) → sum_if P w' log = sum_if P w log * k.
Proof.
  intros Hw. induction log as [|e log IH]; simpl; [done|]. rewrite IH, Hw. destruct (P e); lia.
Qed.

Lemma window_bound m k n t d w log a :
  Metered m a log → (∀ e, m_weight m e = w e * k) → 0 < k → 0 ≤ d →
  m_burst m + m_floor m + m_rate m * d < (n + 1) * k →
  sum_if (in_window t (t + d)) w log ≤ n.
Proof.
  intros HM Hw Hk Hd Hn. pose proof (mt_window _ _ _ HM t (t + d) ltac:(lia)) as H.
  unfold between in H. rewrite (sum_if_scale _ w _ k) in H by done. unfold in_window.
  replace (t + d - t) with d in H by lia. nia.
Qed.

(** C9: in every interleaving of requests, claims, answers and ticks, whatever is reserved,
    returned, redirected or borrowed, no minute sees more than 900 secondary points or 80
    content-generating requests on the network, no hour more than 500 of the latter, and no
    hour more than 4,841 requests net of the 304 answers it received: each bound is inside the
    limit GitHub publishes. No request window is charged more than 40. *)
Theorem rate_limits_hold started y t :
  reaches started y →
  sent_in secondaryPoints t (t + minute) (y_log y) ≤ secondaryPointsPerMinute
  ∧ sent_in contentRequests t (t + minute) (y_log y) ≤ contentRequestsPerMinute
  ∧ sent_in contentRequests t (t + hour) (y_log y) ≤ contentRequestsPerHour
  ∧ charged_in t (t + hour) (y_log y) ≤ 4841
  ∧ ∀ g, charged g (y_log y) ≤ billedPerTick.
Proof.
  intros HS%reaches_sound. destruct HS as [Hp Hs Hm Hh _ _ _ _ _ _ _ Hch _].
  split_and!; [| | | |done].
  - eapply (window_bound secondaryMeter secondaryCreditUnit); [done| |done..].
    intros []; simpl; unfold points_of; lia.
  - eapply (window_bound minuteMeter contentMinuteCreditUnit); [done| |done..].
    intros []; simpl; unfold minute_of; lia.
  - eapply (window_bound hourMeter contentHourCreditUnit); [done| |done..].
    intros []; simpl; unfold hour_of; lia.
  - eapply (window_bound primaryMeter requestCreditUnit); [done| |done..].
    intros []; simpl; lia.
Qed.

(** An allowance accounts for [held] and stays between its overdraft and its capacity. *)
Definition balanced (m : meter) (a : allowance) (held : Z) : Prop :=
  heldCredits a = held ∧ 0 ≤ held ∧ - m_floor m ≤ credits a ∧ credits a + held ≤ m_burst m.

(** C27: the counters of a budget are what its calls account for. Every allowance holds exactly
    the price of the reservations that have not reached the network, its balance and its hold
    together never exceed the burst (all of it far inside [int64]), the window's count is those
    reservations and the requests charged to it, at most 40, and no action, taken at any time,
    panics on a negative hold. *)
Theorem budget_accounts started y :
  reaches started y →
  let b := y_budget y in
  balanced primaryMeter (b_primary b) (held_by (λ _, requestCreditUnit) (y_calls y))
  ∧ balanced secondaryMeter (b_secondary b) (held_by points_of (y_calls y))
  ∧ balanced minuteMeter (b_contentMinute b) (held_by minute_of (y_calls y))
  ∧ balanced hourMeter (b_contentHour b) (held_by hour_of (y_calls y))
  ∧ b_unattempted b = held_by (λ _, 1) (y_calls y)
  ∧ b_used b = b_unattempted b + charged (b_generation b) (y_log y)
  ∧ 0 ≤ b_unattempted b ≤ b_used b ∧ b_used b ≤ billedPerTick
  ∧ ∀ a, y_clock y ≤ action_time a y → perform a y ≠ Panic.
Proof.
  intros HR. pose proof (reaches_sound _ _ HR) as HS. cbv zeta.
  assert (∀ m a h, Metered m a (y_log y) → heldCredits a = h → balanced m a h) as Hb.
  { intros m a h [] <-. by split_and!. }
  assert (∀ a, y_clock y ≤ action_time a y → perform a y ≠ Panic) as Hpn.
  { intros a Ha. by apply sound_perform. }
  destruct HS as [Hp Hs Hm Hh (E1 & E2 & E3 & E4) Hu Hc Hg Hus Ha (Hl1 & Hl2 & Hl3) Hch L].
  pose proof (held_by_nonneg _ _ _ fair_one Hc). pose proof (answering_by_nonneg (b_generation (y_budget y)) (y_calls y)).
  split_and!; auto; lia.
Qed.
