(* ===== verification/TrackerAdmission.v ===== *)
(** * TrackerAdmission: the wait the budget asks for

    [nextAdmissionLocked] computes how long a caller sleeps. When no other call holds a
    reservation, that wait is exact: a turn of [acquireCost] that comes later admits the
    request, one that comes sooner does not. *)

From S2P Require Import Prelude GoStd ReviewGate OrchState Update TrackerBudget TrackerBudgetFacts.

(** What a request needs of the budget. *)
Definition neededPrimary (q : ask) (b : requestBudget) : Z :=
  if a_conditional q && negb (b_borrowed b) then 0 else requestCreditUnit.
Definition neededSecondary (q : ask) : Z :=
  (secondaryPoints (a_cost q) + secondaryReserve (a_preserveClaim q)) * secondaryCreditUnit.
Definition neededContent (q : ask) (unit : Z) : Z :=
  (contentRequests (a_cost q) + contentReserve (a_preserveClaim q) (a_cost q)) * unit.

Definition ready (q : ask) (b : requestBudget) : Prop :=
  b_used b < windowLimit b (a_conditional q)
  ∧ neededPrimary q b ≤ credits (b_primary b)
  ∧ neededSecondary q ≤ credits (b_secondary b)
  ∧ neededContent q contentMinuteCreditUnit ≤ credits (b_contentMinute b)
  ∧ neededContent q contentHourCreditUnit ≤ credits (b_contentHour b).

Definition reserve (q : ask) (b : requestBudget) :=
  reserveOneWithCostLocked (a_conditional q) (a_cost q) (a_preserveClaim q) b.

Lemma reserve_ready q method b :
  a_cost q = requestCostForMethod method → is_Some (reserve q b) ↔ ready q b.
Proof.
  intros Hq. unfold reserve, reserveOneWithCostLocked.
  assert ((secondaryPoints (a_cost q) <=? 0) = false ∧ (contentRequests (a_cost q) <? 0) = false) as [-> ->].
  { rewrite Hq. destruct (cost_cases method) as [-> | ->]; done. }
  unfold ready, neededSecondary, neededContent. cbn [orb].
  destruct (Z.leb_spec (windowLimit b (a_conditional q)) (b_used b)).
  { split; [intros [? [=]]|lia]. }
  do 3 (match goal with |- context [?x <? ?y] => destruct (Z.ltb_spec x y) end; cbn [orb];
        [split; [intros [? [=]]|lia]|]).
  unfold neededPrimary. assert (0 < requestCreditUnit) by done.
  destruct (Z.leb_spec requestCreditUnit (credits (b_primary b))).
  { split; [|eauto]. intros _. split_and!; try done; destruct (_ && _); lia. }
  destruct (a_conditional q); cbn [andb]; [|split; [intros [? [=]]|lia]].
  destruct (Z.leb_spec 0 (credits (b_primary b))); cbn [andb].
  - destruct (b_borrowed b); cbn [negb]; [split; [intros [? [=]]|lia]|]. split; eauto.
  - split; [intros [? [=]]|]. destruct (b_borrowed b); cbn [negb]; lia.
Qed.

(** ** When a quiet budget becomes ready *)

Lemma raise_delay_le needed have rate delay e :
  raise_delay needed have rate delay ≤ e ↔
  delay ≤ e ∧ (have < needed → Z.quot (needed - have + rate - 1) rate ≤ e).
Proof.
  unfold raise_delay. destruct (Z.ltb_spec have needed).
  - destruct (Z.ltb_spec delay (Z.quot (needed - have + rate - 1) rate)); lia.
  - lia.
Qed.

(** One allowance that nothing holds, last refilled at [now]. *)
Lemma refilled_ready m `{!MeterOk m} now e needed a :
  - m_floor m ≤ credits a → heldCredits a = 0 → credits a ≤ m_burst m → lastRefill a = now →
  now ≠ zero_time → needed ≤ m_burst m → 0 ≤ e ≤ max_int64 →
  needed ≤ credits (refilled m (now + e) a) ↔
  (credits a < needed → Z.quot (needed - credits a + m_rate m - 1) (m_rate m) ≤ e).
Proof.
  intros Hl Hh Hc <- Hz Hn He. destruct (decide (credits a < needed)) as [Hlt|Hge].
  - rewrite refilled_when by (try done; lia). tauto.
  - destruct (refilled_spec m (lastRefill a + e) a) as (_ & _ & Hg & _); [done|lia..|]. lia.
Qed.

(** A budget between requests: everything returned, refilled at [now], its window open. *)
Record Quiet (now : Z) (b : requestBudget) : Prop := {
  qu_primary : balanced primaryMeter (b_primary b) 0;
  qu_secondary : balanced secondaryMeter (b_secondary b) 0;
  qu_minute : balanced minuteMeter (b_contentMinute b) 0;
  qu_hour : balanced hourMeter (b_contentHour b) 0;
  qu_fresh : Fresh now b;
  qu_limits : b_limit b = billedPerTick ∧ b_ordinaryLimit b = ordinaryPerTick
              ∧ b_unattempted b = 0;
  qu_window : zero_time < b_opened b ≤ now ∧ now < b_opened b + b_ceiling b
              ∧ 0 < b_ceiling b ≤ max_int64;
}.

Definition rawDelay (now : Z) (q : ask) (b : requestBudget) : Z :=
  raise_delay (neededContent q contentHourCreditUnit) (credits (b_contentHour b)) contentHourRefillRequests
    (raise_delay (neededContent q contentMinuteCreditUnit) (credits (b_contentMinute b)) contentMinuteRefillRequests
      (raise_delay (neededSecondary q) (credits (b_secondary b)) secondaryRefillPoints
        (raise_delay (neededPrimary q b) (credits (b_primary b)) billedPerTick
          (if windowLimit b (a_conditional q) <=? b_used b
           then time_Sub (b_opened b + b_ceiling b) now else 0)))).

Lemma next_raw now q b :
  nextAdmissionLocked now (a_conditional q) (a_cost q) (a_preserveClaim q) b =
  if rawDelay now q b <=? 0 then millisecond else rawDelay now q b.
Proof. done. Qed.

Definition turned (now : Z) (b : requestBudget) : requestBudget :=
  refillLocked now (rollIfStaleLocked now b).

Lemma refill_parts now b :
  b_limit b = billedPerTick →
  refillLocked now b =
  MkBudget (b_limit b) (b_ordinaryLimit b) (b_ceiling b) (b_opened b) (b_generation b) (b_used b)
    (b_unattempted b) (refilled primaryMeter now (b_primary b)) (b_borrowed b)
    (refilled secondaryMeter now (b_secondary b)) (refilled minuteMeter now (b_contentMinute b))
    (refilled hourMeter now (b_contentHour b)) (b_wake b) (b_reportEpoch b) (b_pending b) (b_report b).
Proof. intros Hl. destruct b; simpl in Hl. by subst. Qed.

Lemma quiet_ready now e q method b :
  Quiet now b → a_cost q = requestCostForMethod method → 0 ≤ e ≤ max_int64 →
  ready q (turned (now + e) b) ↔ rawDelay now q b ≤ e.
Proof.
  intros [(P1 & _ & P2 & P3) (S1 & _ & S2 & S3) (M1 & _ & M2 & M3) (H1 & _ & H2 & H3)
    (F1 & F2 & F3 & F4) (L1 & L2 & L3) (W1 & W2 & W3)] Hq He.
  rewrite !Z.add_0_r in P3, S3, M3, H3. assert (now ≠ zero_time) as Hz by lia.
  unfold rawDelay. rewrite !raise_delay_le.
  assert (neededSecondary q ≤ m_burst secondaryMeter ∧ neededContent q contentMinuteCreditUnit ≤ m_burst minuteMeter
    ∧ neededContent q contentHourCreditUnit ≤ m_burst hourMeter) as (N2 & N3 & N4).
  { unfold neededSecondary, neededContent. rewrite Hq.
    destruct (cost_cases method) as [-> | ->], (a_preserveClaim q); done. }
  assert (neededPrimary q b ≤ m_burst primaryMeter) as N1.
  { unfold neededPrimary. destruct (_ && _); done. }
  rewrite <-(refilled_ready primaryMeter now), <-(refilled_ready secondaryMeter now),
    <-(refilled_ready minuteMeter now), <-(refilled_ready hourMeter now) by done.
  set (o := rollIfStaleLocked (now + e) b).
  assert (b_primary o = b_primary b ∧ b_secondary o = b_secondary b ∧ b_contentMinute o = b_contentMinute b
    ∧ b_contentHour o = b_contentHour b ∧ b_limit o = b_limit b ∧ b_ordinaryLimit o = b_ordinaryLimit b
    ∧ b_borrowed o = b_borrowed b) as (O1 & O2 & O3 & O4 & O5 & O6 & O7).
  { unfold o, rollIfStaleLocked. by destruct (_ || _). }
  assert (b_used o < windowLimit b (a_conditional q) ↔
    (if windowLimit b (a_conditional q) <=? b_used b then time_Sub (b_opened b + b_ceiling b) now else 0) ≤ e) as Hw.
  { assert (0 < windowLimit b (a_conditional q)) as Hpos.
    { unfold windowLimit. rewrite L1, L2. by destruct (a_conditional q). }
    replace (time_Sub (b_opened b + b_ceiling b) now) with (b_opened b + b_ceiling b - now)
      by (unfold time_Sub, min_int64, max_int64 in *; lia).
    assert (b_used o = if b_opened b + b_ceiling b - now <=? e then 0 else b_used b) as ->.
    { unfold o, rollIfStaleLocked. rewrite (proj2 (Z.eqb_neq _ _)) by lia. cbn [orb].
      destruct (Z.leb_spec (b_ceiling b) (time_Sub (now + e) (b_opened b))), (Z.leb_spec (b_opened b + b_ceiling b - now) e);
        try done; unfold time_Sub, min_int64, max_int64 in *; lia. }
    destruct (Z.leb_spec (windowLimit b (a_conditional q)) (b_used b)),
      (Z.leb_spec (b_opened b + b_ceiling b - now) e); lia. }
  rewrite <-Hw. unfold turned. fold o. unfold ready, neededPrimary, windowLimit.
  rewrite (refill_parts (now + e) o) by congruence.
  cbn [b_used b_borrowed b_limit b_ordinaryLimit b_primary b_secondary b_contentMinute b_contentHour].
  rewrite O1, O2, O3, O4, O5, O6, O7. tauto.
Qed.

Lemma refilled_now m a : refilled m (lastRefill a) a = a.
Proof.
  unfold refilled, refillAllowance, time_Sub. rewrite Z.sub_diag.
  destruct (Z.eqb_spec (lastRefill a) zero_time); [by destruct a|done].
Qed.

Lemma quiet_turned now b : Quiet now b → turned (now + 0) b = b.
Proof.
  intros [_ _ _ _ (F1 & F2 & F3 & F4) (L1 & _) (W1 & W2 & W3)]. rewrite Z.add_0_r. unfold turned, rollIfStaleLocked.
  rewrite (proj2 (Z.eqb_neq _ _)), (proj2 (Z.leb_gt _ _))
    by (unfold time_Sub, min_int64, max_int64 in *; lia).
  cbn [orb]. rewrite refill_parts by done.
  rewrite <-F1 at 1. rewrite <-F2 at 1. rewrite <-F3 at 1. rewrite <-F4 at 1.
  rewrite !refilled_now. by destruct b.
Qed.

Lemma quiet_report now b p : Quiet now b → Quiet now (b <| b_report := p |>).
Proof. intros []. by constructor. Qed.

(** With no reservation outstanding, the turn that finds nothing leaves a quiet budget. *)
Lemma turned_quiet started y now :
  0 < started → reaches started y → y_clock y ≤ now →
  Forall (λ c, waiting c = false) (y_calls y) → Quiet now (turned now (y_budget y)).
Proof.
  intros H0 HR Hn Hw. pose proof (reaches_sound _ _ HR) as HS.
  destruct (reaches_timed _ _ HR) as [T1 T2 T3].
  pose proof (sound_roll now _ _ _ _ HS) as HO.
  destruct (sound_refill now _ _ _ _ HO Hn) as [[Hp Hs Hm Hh (E1 & E2 & E3 & E4) Hu _ _ _ _ (L1 & L2 & _) _ _] HF].
  assert (∀ w, held_by w (y_calls y) = 0) as Hz.
  { intros w. unfold held_by. clear -Hw. induction Hw as [|c cs Hc _ IH]; csimpl; [done|].
    rewrite IH. unfold held_of. by rewrite Hc. }
  rewrite Hz in E1, E2, E3, E4, Hu.
  assert (∀ m a log, Metered m a log → heldCredits a = 0 → balanced m a 0) as Hb.
  { intros m a log [] Ha. rewrite Ha in *. by split_and!. }
  constructor; eauto.
  unfold turned, rollIfStaleLocked. cbn [b_opened b_ceiling refillLocked].
  destruct (_ || _) eqn:Hst.
  - cbn -[max_int64]. unfold zero_time. lia.
  - rewrite orb_false_iff, Z.leb_gt in Hst. destruct Hst as [_ Hst]. cbn -[max_int64].
    unfold zero_time, time_Sub, min_int64, max_int64 in *. lia.
Qed.

(** C28: the wait is exact. When a request finds the budget spent and no reservation is
    outstanding, it is told to sleep a positive time [d]; if nothing else happens, it is
    admitted when it comes back at [d] or later and not when it comes back sooner. The fallback
    of a millisecond is never taken then, and a wait never outlasts the shortage. *)
Theorem admission_time_exact started y now q method deferred w d b1 :
  0 < started → reaches started y → y_clock y ≤ now →
  Forall (λ c, waiting c = false) (y_calls y) → a_cost q = requestCostForMethod method →
  acquireTurn now q deferred (y_budget y) = (Sleeping w d, b1) →
  0 < d ∧ ∀ e, 0 ≤ e ≤ max_int64 →
    (∃ r b2, acquireTurn (now + e) q true b1 = (Got r, b2)) ↔ d ≤ e.
Proof.
  intros H0 HR Hn Hw Hq HA. pose proof (turned_quiet _ _ _ H0 HR Hn Hw) as HQ.
  assert (Quiet now b1 ∧ reserve q b1 = None
    ∧ d = if rawDelay now q b1 <=? 0 then millisecond else rawDelay now q b1) as (HQ1 & HN & Hd).
  { unfold acquireTurn in HA. fold (turned now (y_budget y)) in HA. revert HQ HA.
    generalize (turned now (y_budget y)). intros b HQ.
    destruct (reserveOneWithCostLocked _ _ _ b) as [[? ?]|] eqn:HN; [done|].
    destruct (_ && _); [done|]. intros [= <- <- <-]. rewrite next_raw.
    destruct deferred; [by split_and!|]. split_and!; [by apply quiet_report| |done].
    apply eq_None_not_Some. rewrite (reserve_ready q method) by done.
    change (¬ ready q b). rewrite <-(reserve_ready q method) by done.
    apply eq_None_not_Some. exact HN. }
  assert (0 < rawDelay now q b1) as Hpos.
  { apply Z.nle_gt. intros Hle.
    apply (quiet_ready now 0 q method b1 HQ1 Hq) in Hle; [|done].
    rewrite quiet_turned in Hle by done. apply (reserve_ready q method b1 Hq) in Hle as [? Hle].
    by rewrite HN in Hle. }
  rewrite (proj2 (Z.leb_gt _ _)) in Hd by done. subst d. split; [done|]. intros e He.
  rewrite <-(quiet_ready now e q method b1 HQ1 Hq He), <-(reserve_ready q method _ Hq).
  unfold acquireTurn. fold (turned (now + e) b1).
  change (reserveOneWithCostLocked _ _ _ ?b) with (reserve q b).
  destruct (reserve q (turned (now + e) b1)) as [[r b2]|]; [split; eauto|].
  split; [|intros [? [=]]]. destruct (_ && _); intros (? & ? & [=]).
Qed.
