(* ===== verification/TrackerExample.v ===== *)
(** * TrackerExample: a budget at work

    A run of the budget through a claim, a conditional read answered 304 and a burst that
    spends the window; the witnesses of the budget's theorems are this run's states. *)

From S2P Require Import Prelude GoStd ReviewGate OrchState Update.
From S2P Require Import TrackerBudget TrackerBudgetFacts TrackerAdmission.

#[export] Instance action_valid_dec a : Decision (action_valid a).
Proof. destruct a; apply _. Defined.

(** Perform a list of actions; [None] when one is not enabled or goes back in time. *)
Fixpoint run (l : list action) (y : system) : option system :=
  match l with
  | [] => Some y
  | a :: l =>
      if bool_decide (action_valid a) && (y_clock y <=? action_time a y)
      then match perform a y with Next y' => run l y' | _ => None end
      else None
  end.

Lemma run_reaches started l y y' : reaches started y → run l y = Some y' → reaches started y'.
Proof.
  revert y. induction l as [|a l IH]; simpl; intros y HR; [by intros [= <-]|].
  destruct (_ && _) eqn:Hg; [|done]. split_bools.
  destruct (perform a y) as [| |y1] eqn:Hp; try done. apply IH. econstructor; try done. by apply Z.leb_le.
Qed.

Definition t0 : Z := time_Unix 1700000000 0.

(** An ordinary read: reserved, sent and answered 200. *)
Definition read (n : nat) (t : Z) : list action :=
  [AAcquire t "GET" false true false true false; AProceed t n true None None None;
   AAnswer t n (Response 200)].

(** A claim: the three requests are reserved together; the assignment and the read-back are
    sent, the release is not needed. *)
Definition claiming (t : Z) : list action :=
  [AReserveLease t; ATake 0 0; ALeased 0 0; AProceed t 0 true None None None;
   AAnswer t 0 (Response 201);
   ATake 0 1; ALeased 0 1; AProceed (t + second) 1 false None None None;
   AAnswer (t + second) 1 (Response 200); AClose 0; AReturn (t + second) 0 0;
   AReturn (t + second) 0 1; AReturn (t + second) 0 2].

Definition revalidating (n : nat) (t : Z) : list action :=
  [AAcquire t "GET" true true false true false; AProceed t n true None None None;
   AAnswer t n (Response 304)].

Definition claimed : option system :=
  run (claiming t0 ++ revalidating 3 (t0 + 2 * second)) (newSystem t0).

(** After the claim's two requests and the free read, two requests are charged and seven points
    and one content request spent. *)
Example claim_spends :
  (λ y, (b_used (y_budget y), b_unattempted (y_budget y),
         sent_in secondaryPoints t0 (t0 + minute) (y_log y),
         sent_in contentRequests t0 (t0 + minute) (y_log y),
         charged_in t0 (t0 + minute) (y_log y))) <$> claimed = Some (2, 0, 7, 1, 2).
Proof. vm_compute. reflexivity. Qed.

(** Thirty-nine reads at once spend the ordinary slots of the window. *)
Definition spent : option system :=
  run (concat ((λ n, read n t0) <$> seq 0 39)) (newSystem t0).

Definition waitingRead : ask := MkAsk false true false readRequestCost true.

Example spent_waits :
  (λ y, (acquireTurn t0 waitingRead false (y_budget y)).1) <$> spent =
  Some (Sleeping 39 (30 * second)).
Proof. vm_compute. reflexivity. Qed.

Definition or_new (y : option system) : system := default (newSystem t0) y.

Lemma claimed_reaches : reaches t0 (or_new claimed).
Proof.
  apply (run_reaches _ (claiming t0 ++ revalidating 3 (t0 + 2 * second)) (newSystem t0)); [constructor|].
  vm_compute. reflexivity.
Qed.

Lemma spent_reaches : reaches t0 (or_new spent).
Proof.
  apply (run_reaches _ (concat ((λ n, read n t0) <$> seq 0 39)) (newSystem t0)); [constructor|].
  vm_compute. reflexivity.
Qed.

Lemma rate_limits_hold_witness :
  sent_in secondaryPoints t0 (t0 + minute) (y_log (or_new claimed)) = 7
  ∧ sent_in secondaryPoints t0 (t0 + minute) (y_log (or_new claimed)) ≤ secondaryPointsPerMinute.
Proof.
  split; [vm_compute; reflexivity|].
  destruct (rate_limits_hold t0 (or_new claimed) t0 claimed_reaches) as (H & _). exact H.
Defined.

Lemma budget_accounts_witness :
  b_used (y_budget (or_new claimed)) = 2 ∧ b_used (y_budget (or_new claimed)) ≤ billedPerTick.
Proof.
  split; [vm_compute; reflexivity|].
  destruct (budget_accounts t0 (or_new claimed) claimed_reaches) as (_ & _ & _ & _ & _ & _ & _ & H & _).
  exact H.
Defined.

Definition spentTurn : turn * requestBudget := acquireTurn t0 waitingRead false (y_budget (or_new spent)).

Lemma admission_time_exact_witness :
  (∃ r b2, acquireTurn (t0 + 30 * second) waitingRead true spentTurn.2 = (Got r, b2))
  ∧ ¬ ∃ r b2, acquireTurn (t0 + (30 * second - 1)) waitingRead true spentTurn.2 = (Got r, b2).
Proof.
  destruct (admission_time_exact t0 (or_new spent) t0 waitingRead "GET" false 39 (30 * second) spentTurn.2)
    as [_ H].
  - vm_compute. reflexivity.
  - exact spent_reaches.
  - vm_compute. discriminate.
  - solve_decided.
  - reflexivity.
  - vm_compute. reflexivity.
  - split.
    + apply H; [split; vm_compute; discriminate|reflexivity].
    + intros HG. apply H in HG; [|split; vm_compute; discriminate]. revert HG. vm_compute. intros HG. by apply HG.
Defined.
