(* ===== verification/TrackerAdapter.v ===== *)
(** * TrackerAdapter: claims, labels and milestones on GitHub

    Models [internal/tracker/github/adapter.go], [issue.go] and [comment.go]: the claim race
    and its arbitration, the state labels, the milestone comments, which issues are
    dispatchable, and the pull request of a branch. A method is a function of the answers
    GitHub gave to its requests; it also returns the requests it made, so that what a daemon
    writes can be spoken of. [observe] stands for [rateGate.observe], which passes every error
    on or wraps it as a rate limit. *)

From S2P Require Import Prelude GoStd OrchState Core OrchRecover OrchRecord TrackerBudget.

Definition ErrPRAmbiguous : error := 
  errors_New "core: the forge returned more than one open pull request for the branch".
Definition ErrUnknownMilestone : error := errors_New "not a SPEC §8.4 milestone".
Definition ErrNoMilestoneOccurrence : error :=
  errors_New "no label transition anchoring this milestone".

(** [fmt.Errorf("%w: %w", core.ErrClaimNotAttempted, err)] *)
Definition notAttempted (err : error) : error :=
  MkError (err_chain ErrClaimNotAttempted ++ err_chain err)
    (err_text ErrClaimNotAttempted +:+ ": " +:+ err_text err).

(** [errors.Join(a, b)] *)
Definition errors_Join (a b : error) : error :=
  MkError (err_chain a ++ err_chain b) (err_text a +:+ nl +:+ err_text b).

(** ** The change log *)

(** A [gh.IssueEvent]; the getters of an absent assignee, label or actor return [""]. *)
Record IssueEvent := MkIssueEvent {
  ie_Event : string;
  ie_Actor : string;
  ie_Assignee : string;
  ie_Label : string;
  ie_CreatedAt : Z;
  ie_ID : Z;
}.

Definition claimEventKind (ev : IssueEvent) : option (ClaimEventKind * string) :=
  let e := ie_Event ev in
  if bool_decide (e = "assigned") then Some (ClaimEventAssigned, ie_Assignee ev)
  else if bool_decide (e = "unassigned") then Some (ClaimEventUnassigned, ie_Assignee ev)
  else if bool_decide (e = "labeled") then Some (ClaimEventLabeled, ie_Label ev)
  else if bool_decide (e = "unlabeled") then Some (ClaimEventUnlabeled, ie_Label ev)
  else if bool_decide (e = "closed") then Some (ClaimEventClosed, "")
  else if bool_decide (e = "reopened") then Some (ClaimEventReopened, "")
  else None.

(** The loop of [ClaimHistory] over the events read. *)
Definition claimHistory (events : list IssueEvent) : list ClaimEvent :=
  omap (λ ev, '(kind, subject) ← claimEventKind ev;
              Some (MkClaimEvent kind (ie_Actor ev) subject (ie_CreatedAt ev) (ie_ID ev))) events.

Record assignEvent := MkAssignEvent { ae_at : Z; ae_id : Z }.

#[export] Instance assignEvent_eq_dec : EqDecision assignEvent.
Proof. solve_decision. Defined.

Definition before (e other : assignEvent) : bool :=
  if negb (ae_at e =? ae_at other) then time_before (ae_at e) (ae_at other)
  else ae_id e <? ae_id other.

Definition compare (e other : assignEvent) : Z :=
  if before e other then -1 else if before other e then 1 else 0.

Definition eventOrder (ev : IssueEvent) : assignEvent := MkAssignEvent (ie_CreatedAt ev) (ie_ID ev).

(** [slices.SortFunc] by [compare]; events with one order are one event, so that the sort is
    not stable does not show. *)
Definition sortEvents : list IssueEvent → list IssueEvent :=
  stable_sort (λ x y, compare (eventOrder x) (eventOrder y) <? 0).

Definition perPage : nat := 100.

(** One page of a list: its items, the next page or 0, and whether it came from the cache. *)
Record page (A : Type) := MkPage { pg_items : list A; pg_next : Z; pg_fromCache : bool }.
Arguments MkPage {_} _ _ _.
Arguments pg_items {_} _.
Arguments pg_next {_} _.
Arguments pg_fromCache {_} _.

(** [issueEvents]: the pages are asked for by number, page 0 being the first; [fuel] is the
    number of requests, [None] when it does not suffice. *)
Fixpoint eventPages (observe : error → error) (issue : Z) (fuel : nat)
    (fetch : Z → result (page IssueEvent)) (revalidate : bool) (number : Z) (events : list IssueEvent)
    : option (result (list IssueEvent)) :=
  match fuel with
  | O => None
  | S fuel =>
      match fetch number with
      | Err e =>
          Some (Err (errorf_wrap ("reading change log of issue #" +:+ itoa issue +:+ ": ") (observe e) ""))
      | Ok p =>
          let events := events ++ pg_items p in
          if pg_next p =? 0 then
            if revalidate && pg_fromCache p && (length (pg_items p) =? perPage)%nat
            then eventPages observe issue fuel fetch revalidate
                   ((if number =? 0 then 1 else number) + 1) events
            else Some (Ok (sortEvents events))
          else eventPages observe issue fuel fetch revalidate (pg_next p) events
      end
  end.

Definition issueEvents (observe : error → error) (issue : Z) (fuel : nat)
    (fetch : Z → result (page IssueEvent)) (revalidate : bool) : option (result (list IssueEvent)) :=
  eventPages observe issue fuel fetch revalidate 0 [].

Section adapter.
Context {T : GoTables}.
Context (observe : error → error).

Definition containsFold (haystack : list string) (needle : string) : bool :=
  existsb (λ h, EqualFold h needle) haystack.

(** ** The claim race *)

Definition replay_step (st : gmap string assignEvent * gset string) (ev : IssueEvent)
    : gmap string assignEvent * gset string :=
  let '(held, seen) := st in
  let login := ToLower (ie_Assignee ev) in
  if bool_decide (login = "") then st
  else if bool_decide (ie_Event ev = "assigned")
  then (match held !! login with
        | Some _ => held
        | None => <[login := eventOrder ev]> held
        end, {[login]} ∪ seen)
  else if bool_decide (ie_Event ev = "unassigned")
  then (delete login held, {[login]} ∪ seen)
  else st.

Definition replayAssignments (events : list IssueEvent) : gmap string assignEvent * gset string :=
  foldl replay_step (∅, ∅) events.

(** The loop of [wonRace]: the winner so far, with its assignment. *)
Fixpoint race_loop (number : Z) (held : gmap string assignEvent) (seen : gset string)
    (assignees : list string) (winner : string) (best : assignEvent) : result string :=
  match assignees with
  | [] => Ok winner
  | login :: rest =>
      let key := ToLower login in
      match held !! key with
      | None =>
          if bool_decide (key ∈ seen) then race_loop number held seen rest winner best
          else Err (errorf ("issue #" +:+ itoa number +:+ ": no assignment event for " +:+ quote login
                            +:+ ", cannot order the claim race"))
      | Some at_ =>
          if bool_decide (winner = "") || before at_ best
          then race_loop number held seen rest login at_
          else race_loop number held seen rest winner best
      end
  end.

(** [wonRace] on the events [assignmentOrder] read. *)
Definition wonRace (number : Z) (events : list IssueEvent) (assignees : list string)
    (principal : string) : result bool :=
  let '(held, seen) := replayAssignments events in
  match held !! ToLower principal with
  | None => Ok false
  | Some _ =>
      try winner := race_loop number held seen assignees "" (MkAssignEvent zero_time 0) in
      Ok (EqualFold winner principal)
  end.

Definition issueNumber (identifier : string) : result Z :=
  match parse_int identifier with
  | Some n => Ok n
  | None => Err (errorf ("issue identifier " +:+ quote identifier +:+ " is not a GitHub issue number"))
  end.

Inductive request :=
  | RAssign (principal : string)
  | RReadBack
  | REvents
  | RUnassign (principal : string).

(** What [Claim] meets: the rate gate, the principal, the lease, and GitHub's answers. The
    assignment's answer comes with whether an exchange was attempted. *)
Record claimWorld := MkClaimWorld {
  cw_gate : option error;
  cw_identifier : string;
  cw_principal : result string;
  cw_lease : result requestLease;
  cw_assign : option error;
  cw_attempted : bool;
  cw_readBack : result (list string);
  cw_events : result (list IssueEvent);
  cw_unassign : option error;
}.

(** [release]: the lease's third stage, then the request. *)
Definition release (w : claimWorld) (number : Z) (principal : string) (lease : requestLease)
    : option error * list request :=
  match take lease claimStageRelease with
  | Err e => (Some e, [])
  | Ok _ =>
      (match cw_unassign w with
       | None => None
       | Some e => Some (errorf_wrap ("unassigning issue #" +:+ itoa number +:+ ": ") (observe e) "")
       end, [RUnassign principal])
  end.

(** What [Claim] returns, and the requests it made in order. *)
Record claimed := MkClaimed { cl_ours : bool; cl_err : option error; cl_requests : list request }.

(** From a contested read-back to the end. *)
Definition contested (w : claimWorld) (number : Z) (principal : string) (lease : requestLease)
    (assignees : list string) (made : list request) : claimed :=
  let made := made ++ [REvents] in
  let won := try events := cw_events w in wonRace number events assignees principal in
  match won with
  | Err e =>
      match release w number principal lease with
      | (Some relErr, rs) =>
          MkClaimed false (Some (errors_Join e (errorf_wrap "releasing unresolved claim: " relErr "")))
            (made ++ rs)
      | (None, rs) => MkClaimed false None (made ++ rs)
      end
  | Ok false =>
      match release w number principal lease with
      | (Some relErr, rs) =>
          MkClaimed false (Some (errorf_wrap ("releasing lost claim on issue #" +:+ itoa number +:+ ": ")
                                   relErr "")) (made ++ rs)
      | (None, rs) => MkClaimed false None (made ++ rs)
      end
  | Ok true => MkClaimed true None made
  end.

(** From the read-back to the end. *)
Definition verifyClaim (w : claimWorld) (number : Z) (principal : string) (lease : requestLease)
    (made : list request) : claimed :=
  match take lease claimStageVerify with
  | Err e => MkClaimed false (Some e) made
  | Ok (_, lease) =>
      let made := made ++ [RReadBack] in
      match cw_readBack w with
      | Err e =>
          let verifyErr := errorf_wrap ("verifying claim on issue #" +:+ itoa number +:+ ": ")
                             (observe e) "" in
          match release w number principal lease with
          | (Some relErr, rs) =>
              MkClaimed false
                (Some (errors_Join verifyErr (errorf_wrap "unwinding unverifiable claim: " relErr "")))
                (made ++ rs)
          | (None, rs) => MkClaimed false (Some verifyErr) (made ++ rs)
          end
      | Ok assignees =>
          if negb (containsFold assignees principal) then MkClaimed false None made
          else if (length assignees =? 1)%nat then MkClaimed true None made
          else contested w number principal lease assignees made
      end
  end.

Definition Claim (w : claimWorld) : claimed :=
  let refuse e := MkClaimed false (Some (notAttempted e)) [] in
  match cw_gate w with
  | Some e => refuse e
  | None =>
      match issueNumber (cw_identifier w) with
      | Err e => refuse e
      | Ok number =>
          match cw_principal w with
          | Err e => refuse e
          | Ok principal =>
              match cw_lease w with
              | Err e => refuse e
              | Ok lease =>
                  match take lease claimStageAssign with
                  | Err e => refuse e
                  | Ok (_, lease) =>
                      let made := if cw_attempted w then [RAssign principal] else [] in
                      match cw_assign w with
                      | Some e =>
                          let assignErr := errorf_wrap ("assigning issue #" +:+ itoa number +:+ ": ")
                                             (observe e) "" in
                          if negb (cw_attempted w) then refuse assignErr
                          else
                            match release w number principal lease with
                            | (Some relErr, rs) =>
                                MkClaimed false
                                  (Some (errors_Join assignErr
                                           (errorf_wrap "unwinding uncertain assignment: " relErr "")))
                                  (made ++ rs)
                            | (None, rs) => MkClaimed false (Some assignErr) (made ++ rs)
                            end
                      | None => verifyClaim w number principal lease made
                      end
                  end
              end
          end
      end
  end.

(** [Release], from its checks to the request. *)
Definition Release (gate : option error) (number : result Z) (principal : result string)
    (unassign : option error) : option error * list request :=
  match gate, number, principal with
  | Some e, _, _ | None, Err e, _ | None, Ok _, Err e => (Some e, [])
  | None, Ok number, Ok principal =>
      (match unassign with
       | None => None
       | Some e => Some (errorf_wrap ("unassigning issue #" +:+ itoa number +:+ ": ") (observe e) "")
       end, [RUnassign principal])
  end.

(** ** State labels *)

Definition statePrefix : string := "ben:".

(** A label outside the five constants is not a value of [StateLabel]. *)
Definition stateLabelName (l : StateLabel) : string :=
  match l with StateLabelNone => "" | _ => statePrefix +:+ label_name l end.

Definition isStateLabel (name : string) : bool := has_prefix statePrefix (ToLower name).

Inductive labelWrite := AddLabel (name : string) | RemoveLabel (name : string).

(** Whether a removal failed, and if so whether the label was already gone. *)
Inductive removal := Removed | AlreadyGone | RemoveFailed (e : error).

(** The loop of [SetStateLabels] over the labels the tracker answered with. *)
Fixpoint removeOthers (number : Z) (remove : string → removal) (want : string)
    (current : list string) : option error * list labelWrite :=
  match current with
  | [] => (None, [])
  | existing :: rest =>
      if negb (isStateLabel existing) || (negb (bool_decide (want = "")) && EqualFold existing want)
      then removeOthers number remove want rest
      else
        match remove existing with
        | RemoveFailed e =>
            (Some (errorf_wrap ("removing label " +:+ quote existing +:+ " from issue #" +:+ itoa number
                                +:+ ": ") (observe e) ""), [RemoveLabel existing])
        | _ =>
            let '(err, ws) := removeOthers number remove want rest in
            (err, RemoveLabel existing :: ws)
        end
  end.

(** [projectLabel]: [add] is the labels GitHub answers an addition with, [listed] the labels
    of all pages of the list. *)
Definition projectLabel (number : Z) (add : string → result (list string))
    (listed : result (list string)) (want : string) : result (list string) * list labelWrite :=
  if negb (bool_decide (want = "")) then
    (match add want with
     | Ok labels => Ok labels
     | Err e => Err (errorf_wrap ("adding label " +:+ quote want +:+ " to issue #" +:+ itoa number
                                  +:+ ": ") (observe e) "")
     end, [AddLabel want])
  else
    (match listed with
     | Ok labels => Ok labels
     | Err e => Err (errorf_wrap ("reading labels of issue #" +:+ itoa number +:+ ": ") (observe e) "")
     end, []).

Definition SetStateLabels (gate : option error) (number : result Z)
    (add : string → result (list string)) (listed : result (list string))
    (remove : string → removal) (label : StateLabel) : option error * list labelWrite :=
  match gate, number with
  | Some e, _ | None, Err e => (Some e, [])
  | None, Ok number =>
      let want := stateLabelName label in
      match projectLabel number add listed want with
      | (Err e, ws) => (Some e, ws)
      | (Ok current, ws) =>
          let '(err, ws') := removeOthers number remove want current in (err, ws ++ ws')
      end
  end.

(** ** Milestones *)

Definition field (name value : string) : string := "- " +:+ name +:+ ": " +:+ value.

(** The common end of [renderMilestone]. *)
Definition milestoneText (c : MilestoneComment) (daemon headline : string) (lines : list string) : string :=
  headline +:+ nl +:+ nl
  +:+ join nl (lines ++ (if negb (bool_decide (mc_Detail c = "")) then [field "detail" (mc_Detail c)]
                         else []) ++ [field "daemon" ("`" +:+ daemon +:+ "`")]) +:+ nl.

Definition renderMilestone (c : MilestoneComment) (daemon principal : string) : result string :=
  let kind := milestone_name (mc_Milestone c) in
  let rendered headline lines := Ok (milestoneText c daemon headline lines) in
  match mc_Milestone c with
  | MilestoneClaimed =>
      rendered "**BEN claimed this issue.**" [field "claim principal" ("@" +:+ principal)]
  | MilestonePublished =>
      if bool_decide (mc_PRURL c = "")
      then Err (errorf ("milestone " +:+ quote kind +:+ " requires a pull request URL"))
      else rendered "**BEN published a pull request.**" [field "pull request" (mc_PRURL c)]
  | MilestoneFailed =>
      if Bool.eqb (bool_decide (mc_Reason c = "")) (negb (mc_ReasonUnavailable c))
      then Err (errorf ("milestone " +:+ quote kind
                        +:+ " needs either a §7.3 failure reason or ReasonUnavailable, not both and not neither"))
      else rendered "**BEN failed on this issue and released its claim.**"
             [field "reason" (if mc_ReasonUnavailable c
                              then "not recorded — the run record did not survive a restart"
                              else "`" +:+ mc_Reason c +:+ "`")]
  | MilestoneNeedsReview => rendered "**BEN parked this issue for human review.**" []
  | MilestoneNone => Err (errorf_w ErrUnknownMilestone (": " +:+ quote kind))
  end.

Definition milestoneMarker (m : Milestone) (occurrence : Z) : string :=
  "<!-- ben:milestone kind=" +:+ milestone_name m +:+ " occurrence=" +:+ itoa occurrence +:+ " -->".

Record milestoneAnchor := MkAnchor { an_id : Z; an_at : Z }.

Definition anchorOf (ev : IssueEvent) : milestoneAnchor := MkAnchor (ie_ID ev) (ie_CreatedAt ev).

Definition labeledWith (ev : IssueEvent) (kind : string) (labels : list string) : bool :=
  bool_decide (ie_Event ev = kind)
  && existsb (λ l, EqualFold (ie_Label ev) (statePrefix +:+ l)) labels.

Definition lastTransition (events : list IssueEvent) (kind : string) (labels : list string)
    : option milestoneAnchor :=
  foldl (λ anchor ev, if labeledWith ev kind labels then Some (anchorOf ev) else anchor) None events.

(** [milestoneOccurrence] on the events read. *)
Definition milestoneOccurrence (number : Z) (events : list IssueEvent) (m : Milestone)
    (principal : string) : result milestoneAnchor :=
  let absent := Err (errorf_w ErrNoMilestoneOccurrence
    (": issue #" +:+ itoa number +:+ " carries no label transition anchoring the "
     +:+ quote (milestone_name m) +:+ " milestone")) in
  let found anchor := match anchor with Some a => Ok a | None => absent end in
  match m with
  | MilestoneClaimed =>
      match (replayAssignments events).1 !! ToLower principal with
      | None => Err (errorf_w ErrNoMilestoneOccurrence
                  (": issue #" +:+ itoa number +:+ " has no standing assignment to " +:+ principal
                   +:+ " to scope its claim milestone"))
      | Some start =>
          found (find_map (λ ev, if (ae_id start <=? ie_ID ev)
                                    && labeledWith ev "labeled" [label_name StateLabelClaimed]
                                 then Some (anchorOf ev) else None) events)
      end
  | MilestoneNeedsReview => found (lastTransition events "labeled" [label_name StateLabelNeedsReview])
  | MilestoneFailed => found (lastTransition events "labeled" [label_name StateLabelFailed])
  | MilestonePublished =>
      found (lastTransition events "unlabeled"
               [label_name StateLabelClaimed; label_name StateLabelRunning])
  | MilestoneNone => Err (errorf_w ErrUnknownMilestone (": " +:+ quote (milestone_name m)))
  end.

(** [opts.Since] of [hasMarker]. *)
Definition markerSince (anchoredAt : Z) : option Z :=
  if anchoredAt =? zero_time then None else Some (anchoredAt - 1000000000).

(** [hasMarker] over the bodies of all pages; it stops at the first that bears the marker. *)
Fixpoint hasMarker (pages : list (result (list string))) (number : Z) (marker : string) : result bool :=
  match pages with
  | [] => Ok false
  | Err e :: _ => Err (errorf_wrap ("reading comments of issue #" +:+ itoa number +:+ ": ") (observe e) "")
  | Ok bodies :: rest =>
      if existsb (contains marker) bodies then Ok true else hasMarker rest number marker
  end.

(** [Comment]: the error it returns and the body it posted, if it posted one. [comments since]
    is the pages of the comments GitHub lists for that bound. *)
Definition Comment (gate : option error) (number : result Z) (principal : result string)
    (daemon : string) (events : result (list IssueEvent))
    (comments : option Z → list (result (list string))) (create : option error)
    (c : MilestoneComment) : option error * option string :=
  match gate with
  | Some e => (Some e, None)
  | None =>
      match (try number := number in
             try principal := principal in
             try body := renderMilestone c daemon principal in
             try events := events in
             try anchor := milestoneOccurrence number events (mc_Milestone c) principal in
             let marker := milestoneMarker (mc_Milestone c) (an_id anchor) in
             try posted := hasMarker (comments (markerSince (an_at anchor))) number marker in
             Ok (number, if (posted : bool) then None else Some (body +:+ nl +:+ marker +:+ nl))) with
      | Err e => (Some e, None)
      | Ok (_, None) => (None, None)
      | Ok (number, Some body) =>
          (match create with
           | None => None
           | Some e => Some (errorf_wrap ("commenting on issue #" +:+ itoa number +:+ ": ") (observe e) "")
           end, Some body)
      end
  end.

(** ** Which issues may be dispatched *)

Definition hasOpenBlocker (issue : Issue) : bool := existsb bl_Open (is_Blockers issue).

Definition eligibleIgnoringBlockers (issue : Issue) (requiredLabels activeStates : list string) : bool :=
  forallb (containsFold (is_Labels issue)) requiredLabels
  && containsFold activeStates (is_State issue)
  && negb (0 <? length (is_Assignees issue))%nat
  && negb (existsb isStateLabel (is_Labels issue)).

Definition dispatchable (issue : Issue) (requiredLabels activeStates : list string) : bool :=
  eligibleIgnoringBlockers issue requiredLabels activeStates && negb (hasOpenBlocker issue).

(** A blocking issue's number and state. *)
Definition normalizeBlockers (blocking : list (Z * string)) : list Blocker :=
  (λ '(number, state), MkBlocker (itoa number) state (EqualFold state "open")) <$> blocking.

(** [applyVerdict]: [summary] is the issue's count of blockers when the listing states one,
    [blockedBy] the answer of the dependency list. *)
Definition mayHaveBlockers (summary : option Z) : bool :=
  match summary with None => true | Some n => 0 <? n end.

Definition applyVerdict (number : Z) (summary : option Z) (blockedBy : result (list (Z * string)))
    (requiredLabels activeStates : list string) (issue : Issue) : result Issue :=
  let eligible := eligibleIgnoringBlockers issue requiredLabels activeStates in
  let verdict blockers :=
    let issue := MkIssue (is_Identifier issue) (is_Title issue) (is_Body issue) (is_Labels issue)
      (is_State issue) (is_Assignees issue) blockers (is_URL issue) (is_CreatedAt issue)
      (is_UpdatedAt issue) (is_Revision issue) false in
    Ok (MkIssue (is_Identifier issue) (is_Title issue) (is_Body issue) (is_Labels issue)
      (is_State issue) (is_Assignees issue) blockers (is_URL issue) (is_CreatedAt issue)
      (is_UpdatedAt issue) (is_Revision issue) (eligible && negb (hasOpenBlocker issue))) in
  if eligible && mayHaveBlockers summary then
    match blockedBy with
    | Err e => Err (errorf_wrap ("listing blockers of issue #" +:+ itoa number +:+ ": ") (observe e) "")
    | Ok blocking => verdict (normalizeBlockers blocking)
    end
  else verdict (is_Blockers issue).

(** [listState] *)
Definition listState (activeStates : list string) : string :=
  match activeStates with
  | [s] => if EqualFold s "open" then "open" else "all"
  | _ => "all"
  end.

(** ** The pull request of a branch *)

Record pullRequest := MkGHPull {
  gp_Number : Z; gp_URL : string; gp_HeadRef : string; gp_BaseRef : string; gp_State : string;
}.

(** The loop over one page. *)
Fixpoint scanPulls (branch : string) (prs : list pullRequest) (found : option PR) : result (option PR) :=
  match prs with
  | [] => Ok found
  | pr :: rest =>
      if negb (bool_decide (gp_HeadRef pr = branch)) || negb (bool_decide (gp_State pr = "open"))
      then scanPulls branch rest found
      else match found with
           | Some _ => Err (errorf_w ErrPRAmbiguous (": branch " +:+ branch))
           | None => scanPulls branch rest
                       (Some (MkPullRequest (gp_Number pr) (gp_URL pr) "open" branch (gp_BaseRef pr)))
           end
  end.

Fixpoint scanPages (branch : string) (pages : list (result (list pullRequest))) (found : option PR)
    : result (option PR) :=
  match pages with
  | [] => Ok found
  | Err e :: _ => Err (errorf_wrap ("listing pull requests for " +:+ branch +:+ ": ") (observe e) "")
  | Ok prs :: rest => try found := scanPulls branch prs found in scanPages branch rest found
  end.

(** [pages] are the pages GitHub lists for the branch's head filter. *)
Definition FindPR (gate : option error) (branch : string) (pages : list (result (list pullRequest)))
    : result (option PR) :=
  if bool_decide (branch = "") then Err (errors_New "FindPR requires the workspace branch")
  else match gate with
       | Some e => Err e
       | None => scanPages branch pages None
       end.
End adapter.
