(* ===== verification/TrackerClaimFacts.v ===== *)
(** * TrackerClaimFacts: who owns a claim

    The arbitration of a contested claim, at claim time and after a restart, decides for the
    first standing assignment; two daemons whose verified claims stand are one. *)

From S2P Require Import Prelude GoStd GoStdFacts OrchState Core OrchRecover OrchRecoverFacts.
From S2P Require Import OrchRecord TrackerBudget TrackerAdapter.

(** ** Logins

    GitHub's logins are ASCII, so the two ways the code compares them without case agree. *)

Definition plain (s : string) : bool := all_bytes (λ b, b <? 128) s.

Lemma plain_cons c s : plain (String c s) = true ↔ byte_val c < 128 ∧ plain s = true.
Proof. unfold plain. simpl. by rewrite andb_true_iff, Z.ltb_lt. Qed.

Lemma runes_cons c s : byte_val c < 128 → runes (String c s) = byte_val c :: runes s.
Proof. intros Hc. unfold runes. simpl. by rewrite (proj2 (Z.ltb_lt _ _) Hc). Qed.

Lemma lower_small z : 0 ≤ z < 128 → 0 ≤ ascii_lower z < 128.
Proof. unfold ascii_lower, is_upper, in_range. destruct (_ && _) eqn:H; lia. Qed.

Lemma encode_small z : 0 ≤ z < 128 → encode_rune z = str1 z.
Proof.
  intros Hz. unfold encode_rune, in_range.
  rewrite (proj2 (Z.leb_le 0 z)), (proj2 (Z.leb_le z 1114111)), (proj2 (Z.leb_gt 55296 z)) by lia.
  simpl. by rewrite (proj2 (Z.ltb_lt z 128)) by lia.
Qed.

Section login.
Context {T : GoTables}.

Lemma ToLower_cons c s :
  byte_val c < 128 → ToLower (String c s) = String (byte_of (ascii_lower (byte_val c))) (ToLower s).
Proof.
  intros Hc. pose proof (byte_val_bound c). unfold ToLower. rewrite runes_cons by done. simpl.
  rewrite lower_rune_ascii, encode_small by (try apply lower_small; lia). done.
Qed.

Lemma fold_ToLower s t :
  plain s = true → plain t = true → EqualFold s t = true ↔ ToLower s = ToLower t.
Proof.
  unfold EqualFold. rewrite bool_decide_eq_true. revert t.
  induction s as [|c s IH]; intros [|d t]; rewrite ?plain_cons; intros Hs Ht.
  - done.
  - rewrite ToLower_cons, runes_cons by apply Ht. split; done.
  - rewrite ToLower_cons, runes_cons by apply Hs. split; done.
  - pose proof (byte_val_bound c). pose proof (byte_val_bound d).
    rewrite !ToLower_cons, !runes_cons by tauto. csimpl.
    rewrite !fold_rune_ascii by lia. split.
    + intros [= Hcd Hst]. rewrite Hcd. f_equal. apply IH; tauto.
    + intros [= Hcd Hst]. f_equal; [|apply IH; tauto].
      apply (f_equal byte_val) in Hcd.
      rewrite !byte_val_of in Hcd by (pose proof (lower_small (byte_val c)); pose proof (lower_small (byte_val d)); lia).
      done.
Qed.
End login.

(** ** The order of assignments *)

Definition as_recovery (a : assignEvent) : recoveryAssignment := MkAssignment (ae_at a) (ae_id a).

#[export] Instance as_recovery_inj : Inj (=) (=) as_recovery.
Proof. intros [] []. unfold as_recovery. simpl. congruence. Qed.

Lemma before_recovery a b : before a b = ra_before (as_recovery a) (as_recovery b).
Proof. done. Qed.

Lemma before_asym a b : before a b = true → before b a = false.
Proof. rewrite !before_recovery. apply ra_before_asym. Qed.

Lemma before_total a b : before a b = false → before b a = false → a = b.
Proof. rewrite !before_recovery. intros H1 H2. by apply as_recovery_inj, ra_before_total. Qed.

Lemma before_trans a b c : before a b = true → before b c = true → before a c = true.
Proof. rewrite !before_recovery. apply ra_before_trans. Qed.

Lemma before_neg_trans a b c : before a b = false → before b c = false → before a c = false.
Proof.
  intros H1 H2. destruct (before a c) eqn:H; [|done]. destruct (before b a) eqn:Hba.
  - by rewrite (before_trans b a c Hba H) in H2.
  - rewrite (before_total a b H1 Hba) in H. congruence.
Qed.

Section race.
Context {T : GoTables}.
Implicit Types (events log : list IssueEvent) (held : gmap string assignEvent) (seen : gset string).

(** Since when [login] stands assigned. *)
Definition stands events (login : string) : option assignEvent :=
  (replayAssignments events).1 !! ToLower login.

(** *** Replaying a longer log *)

Lemma replay_app events events' :
  replayAssignments (events ++ events') = foldl replay_step (replayAssignments events) events'.
Proof. unfold replayAssignments. by rewrite foldl_app. Qed.

Lemma replay_step_origin st ev k a :
  (replay_step st ev).1 !! k = Some a → st.1 !! k = Some a ∨ eventOrder ev = a.
Proof.
  destruct st as [held seen]. unfold replay_step. case_bool_decide; [by left|].
  case_bool_decide; simpl.
  - destruct (held !! ToLower (ie_Assignee ev)) eqn:Hh; [by left|].
    rewrite lookup_insert_Some. intros [[_ <-]|[_ ?]]; auto.
  - case_bool_decide; simpl; [|by left]. rewrite lookup_delete_Some. intros [_ ?]. by left.
Qed.

(** An assignment that stands began before the rest of the log, or in it. *)
Lemma replay_origin events rest k a :
  (replayAssignments (events ++ rest)).1 !! k = Some a →
  (replayAssignments events).1 !! k = Some a ∨ ∃ ev, ev ∈ rest ∧ eventOrder ev = a.
Proof.
  rewrite replay_app. generalize (replayAssignments events). clear events. intros st.
  revert st. induction rest as [|ev rest IH]; intros st; simpl; [by left|].
  intros [H|(ev' & ? & ?)]%IH; [|right; exists ev'; set_solver].
  apply replay_step_origin in H as [H|H]; [by left|]. right. exists ev. set_solver.
Qed.

Lemma stands_origin events k a :
  (replayAssignments events).1 !! k = Some a → ∃ ev, ev ∈ events ∧ eventOrder ev = a.
Proof. intros [H|H]%(replay_origin [] events); [done|done]. Qed.

(** A log in tracker order: strictly increasing by time and id. *)
Definition ordered log : Prop := StronglySorted (λ x y, before (eventOrder x) (eventOrder y) = true) log.

Lemma ordered_app_lt events rest x y :
  ordered (events ++ rest) → x ∈ events → y ∈ rest → before (eventOrder x) (eventOrder y) = true.
Proof.
  unfold ordered. induction events as [|e events IH]; simpl; [set_solver|].
  intros [Hs Hall]%StronglySorted_inv Hx Hy. apply elem_of_cons in Hx as [->|Hx]; [|by apply IH].
  rewrite Forall_forall in Hall. apply Hall. set_solver.
Qed.

(** A standing assignment stood at every point since it began. *)
Lemma stands_since events rest k a :
  ordered (events ++ rest) → (replayAssignments (events ++ rest)).1 !! k = Some a →
  (∃ ev, ev ∈ events ∧ eventOrder ev = a) → (replayAssignments events).1 !! k = Some a.
Proof.
  intros Ho [H|(y & Hy & <-)]%replay_origin (x & Hx & Hxy); [done|]. exfalso.
  pose proof (ordered_app_lt _ _ _ _ Ho Hx Hy) as Hb. rewrite Hxy in Hb.
  by rewrite (before_asym _ _ Hb) in Hb.
Qed.

(** *** The race *)

Definition accounted held seen (assignees : list string) : Prop :=
  ∀ l, l ∈ assignees → is_Some (held !! ToLower l) ∨ ToLower l ∈ seen.

(** [l] is listed, and nobody listed stands longer. *)
Definition first_of held (assignees : list string) (l : string) (a : assignEvent) : Prop :=
  l ∈ assignees ∧ held !! ToLower l = Some a
  ∧ ∀ l' a', l' ∈ assignees → held !! ToLower l' = Some a' → before a' a = false.

(** What the loop knows of the assignees it has passed. *)
Definition leads held (past : list string) (winner : string) (best : assignEvent) : Prop :=
  winner = "" ∧ (∀ l, l ∈ past → held !! ToLower l = None) ∨ first_of held past winner best.

Lemma leads_skip held past winner best l :
  leads held past winner best → held !! ToLower l = None → leads held (past ++ [l]) winner best.
Proof.
  intros [[-> Hn]|(Hw & Hb & Hf)] Hl; [left|right].
  - split; [done|]. intros l'. rewrite elem_of_app, list_elem_of_singleton. intros [?| ->]; auto.
  - split_and!; [set_solver|done|]. intros l' a'. rewrite elem_of_app, list_elem_of_singleton.
    intros [?| ->]; [by apply Hf|congruence].
Qed.

Lemma leads_take held past winner best l a :
  leads held past winner best → held !! "" = None → held !! ToLower l = Some a →
  bool_decide (winner = "") || before a best = true → leads held (past ++ [l]) l a.
Proof.
  intros HL He Hl Hb. right. split_and!; [set_solver|done|]. intros l' a'.
  rewrite elem_of_app, list_elem_of_singleton. intros [Hl'| ->] Ha'.
  - destruct HL as [[-> Hn]|(Hw & Hwb & Hf)]; [by rewrite Hn in Ha'|].
    rewrite bool_decide_eq_false_2 in Hb by (intros ->; change (held !! "" = Some best) in Hwb; congruence).
    apply (before_neg_trans _ best); [by eapply Hf|]. by apply before_asym.
  - rewrite Hl in Ha'. injection Ha' as <-. destruct (before a a) eqn:Haa; [|done].
    by rewrite (before_asym _ _ Haa) in Haa.
Qed.

Lemma leads_keep held past winner best l a :
  leads held past winner best → held !! ToLower l = Some a →
  bool_decide (winner = "") || before a best = false → leads held (past ++ [l]) winner best.
Proof.
  intros HL Hl Hb. apply orb_false_iff in Hb as [Hw0 Hb]. apply bool_decide_eq_false in Hw0.
  destruct HL as [[-> _]|(Hw & Hwb & Hf)]; [done|]. right. split_and!; [set_solver|done|].
  intros l' a'. rewrite elem_of_app, list_elem_of_singleton. intros [?| ->] Ha'; [by eapply Hf|].
  rewrite Hl in Ha'. by injection Ha' as <-.
Qed.

Lemma race_loop_spec number held seen assignees past winner best :
  held !! "" = None → leads held past winner best →
  match race_loop number held seen assignees winner best with
  | Ok w => accounted held seen assignees ∧ ∃ b, leads held (past ++ assignees) w b
  | Err _ => ¬ accounted held seen assignees
  end.
Proof.
  intros He. revert past winner best.
  induction assignees as [|l rest IH]; intros past winner best HL; simpl.
  { split; [intros ? ?; set_solver|]. exists best. by rewrite app_nil_r. }
  assert (is_Some (held !! ToLower l) ∨ ToLower l ∈ seen →
    accounted held seen rest ↔ accounted held seen (l :: rest)) as Hacc.
  { intros Hl. unfold accounted. split; intros H x; [|set_solver].
    intros [->|Hx]%elem_of_cons; auto. }
  replace (past ++ l :: rest) with ((past ++ [l]) ++ rest) by (by rewrite <-app_assoc).
  assert (∀ r, is_Some (held !! ToLower l) ∨ ToLower l ∈ seen →
    match r with
    | Ok w => accounted held seen rest ∧ ∃ b, leads held ((past ++ [l]) ++ rest) w b
    | Err _ => ¬ accounted held seen rest
    end →
    match r with
    | Ok w => accounted held seen (l :: rest) ∧ ∃ b, leads held ((past ++ [l]) ++ rest) w b
    | Err _ => ¬ accounted held seen (l :: rest)
    end) as Hcarry.
  { intros r Hl. by destruct r; rewrite Hacc. }
  destruct (held !! ToLower l) as [a|] eqn:Hl.
  - destruct (bool_decide (winner = "") || before a best) eqn:Hb.
    + apply Hcarry; [eauto|]. apply IH. by eapply leads_take.
    + apply Hcarry; [eauto|]. apply IH. by eapply leads_keep.
  - case_bool_decide as Hs.
    + apply Hcarry; [eauto|]. apply IH. by apply leads_skip.
    + intros H. destruct (H l) as [[? ?]|?]; [set_solver|congruence|done].
Qed.

Lemma replay_nonempty events : (replayAssignments events).1 !! "" = None.
Proof.
  unfold replayAssignments.
  assert (∀ st, st.1 !! "" = None → (foldl replay_step st events).1 !! "" = None) as H; [|by apply H].
  induction events as [|ev events IH]; intros [held seen] Hst; simpl; [done|]. apply IH.
  unfold replay_step. case_bool_decide as Hl; [done|]. case_bool_decide; simpl.
  - destruct (held !! ToLower (ie_Assignee ev)); [done|]. by rewrite lookup_insert_ne.
  - case_bool_decide; simpl; [|done]. by rewrite lookup_delete_ne.
Qed.

(** What a decided race means. *)
Lemma wonRace_spec number events assignees principal :
  plain principal = true →
  let '(held, seen) := replayAssignments events in
  match wonRace number events assignees principal with
  | Ok true => accounted held seen assignees ∧ is_Some (held !! ToLower principal)
               ∧ ∃ w a, first_of held assignees w a ∧ EqualFold w principal = true
  | Ok false => held !! ToLower principal = None
                ∨ accounted held seen assignees
                  ∧ ∃ w b, leads held assignees w b ∧ EqualFold w principal = false
  | Err _ => ¬ accounted held seen assignees
  end.
Proof.
  intros Hpl. unfold wonRace. pose proof (replay_nonempty events) as He.
  destruct (replayAssignments events) as [held seen]. simpl in He.
  destruct (held !! ToLower principal) as [a0|] eqn:Hp; [|by left].
  pose proof (race_loop_spec number held seen assignees [] "" (MkAssignEvent zero_time 0) He) as HR.
  destruct (race_loop _ _ _ _ _ _) as [w|e]; [|apply HR; left; set_solver].
  destruct HR as [Hacc (b & HL)]; [left; set_solver|]. simpl in HL.
  destruct (EqualFold w principal) eqn:Hw; [|right; eauto].
  split_and!; [done|eauto|]. exists w, b. split; [|done].
  destruct HL as [[-> _]|HL]; [|done]. exfalso.
  apply fold_ToLower in Hw; [|done..]. rewrite <-Hw in Hp. change (held !! "" = Some a0) in Hp. congruence.
Qed.

(** *** Claim time and recovery replay the same log *)

Lemma replay_step_history st ev :
  let st' := replay_step st ev in
  foldl arbitration_step (as_recovery <$> st.1, st.2) (claimHistory [ev]) =
  (as_recovery <$> st'.1, st'.2).
Proof.
  destruct st as [held seen]. unfold claimHistory, claimEventKind, replay_step. csimpl.
  destruct (decide (ie_Event ev = "assigned")) as [Ha|Ha].
  { rewrite !(bool_decide_eq_true_2 _ Ha). csimpl. unfold arbitration_step. simpl.
    case_bool_decide; [done|]. simpl. rewrite lookup_fmap.
    destruct (held !! ToLower (ie_Assignee ev)); simpl; [done|]. by rewrite fmap_insert. }
  rewrite !(bool_decide_eq_false_2 _ Ha).
  destruct (decide (ie_Event ev = "unassigned")) as [Hu|Hu].
  { rewrite !(bool_decide_eq_true_2 _ Hu). csimpl. unfold arbitration_step. simpl.
    case_bool_decide; [done|]. simpl. by rewrite fmap_delete. }
  rewrite !(bool_decide_eq_false_2 _ Hu).
  repeat case_bool_decide; csimpl; try done; unfold arbitration_step; simpl; try case_bool_decide; done.
Qed.

Lemma replay_history events :
  standing_assignments (claimHistory events) =
  (as_recovery <$> (replayAssignments events).1, (replayAssignments events).2).
Proof.
  unfold standing_assignments. induction events as [|ev events IH] using rev_ind.
  { unfold replayAssignments. simpl. by rewrite fmap_empty. }
  rewrite replay_app. simpl. rewrite <-replay_step_history, <-IH, <-foldl_app.
  unfold claimHistory. by rewrite omap_app.
Qed.

Lemma ordered_distinct log x y :
  ordered log → x ∈ log → y ∈ log → eventOrder x = eventOrder y → x = y.
Proof.
  unfold ordered. induction 1 as [|z log _ IH Hz]; [set_solver|].
  rewrite Forall_forall in Hz. rewrite !elem_of_cons. intros [->|Hx] [->|Hy] He; auto.
  - specialize (Hz y Hy). rewrite He in Hz. by rewrite (before_asym _ _ Hz) in Hz.
  - specialize (Hz x Hx). rewrite He in Hz. by rewrite (before_asym _ _ Hz) in Hz.
Qed.

(** An assignment is the order of an event that names its login. *)
Lemma replay_named events k a :
  (replayAssignments events).1 !! k = Some a →
  ∃ ev, ev ∈ events ∧ eventOrder ev = a ∧ ToLower (ie_Assignee ev) = k.
Proof.
  induction events as [|ev events IH] using rev_ind; [done|]. rewrite replay_app. simpl.
  assert ((replayAssignments events).1 !! k = Some a →
    ∃ e, e ∈ events ++ [ev] ∧ eventOrder e = a ∧ ToLower (ie_Assignee e) = k) as Hold.
  { intros (e & ? & ? & ?)%IH. exists e. set_solver. }
  destruct (replayAssignments events) as [held seen]. unfold replay_step. simpl in *.
  case_bool_decide; [done|]. case_bool_decide; simpl.
  - destruct (held !! ToLower (ie_Assignee ev)) eqn:Hh; [done|].
    rewrite lookup_insert_Some. intros [[<- <-]|[_ ?]]; [|auto]. exists ev. set_solver.
  - case_bool_decide; simpl; [|done]. rewrite lookup_delete_Some. intros [_ ?]. auto.
Qed.

Lemma stands_distinct events k k' a :
  ordered events → (replayAssignments events).1 !! k = Some a →
  (replayAssignments events).1 !! k' = Some a → k = k'.
Proof.
  intros Ho (x & Hx & Hxa & <-)%replay_named (y & Hy & Hya & <-)%replay_named.
  by rewrite (ordered_distinct _ _ _ Ho Hx Hy) by congruence.
Qed.

(** Being first is having the first standing assignment recovery looks for. *)
Lemma first_of_holds events assignees w a :
  ordered events → first_of (replayAssignments events).1 assignees w a →
  holds_first (claimHistory events) assignees (ToLower w).
Proof.
  intros Ho (Hin & Hw & Hf). unfold holds_first. rewrite replay_history. simpl. split.
  - apply list_elem_of_fmap. eauto.
  - exists (as_recovery a). rewrite lookup_fmap, Hw. split; [done|].
    intros w' a'. rewrite lookup_fmap. intros (l' & -> & Hl')%list_elem_of_fmap Hne.
    intros (b & Hb & ->)%fmap_Some. rewrite <-before_recovery.
    destruct (before a b) eqn:Hab; [done|]. exfalso. apply Hne.
    eapply stands_distinct; [done| |exact Hw]. rewrite Hb. f_equal.
    apply before_total; [by eapply Hf|done].
Qed.

Lemma accounted_all events assignees :
  accounted (replayAssignments events).1 (replayAssignments events).2 assignees ↔
  all_accounted (claimHistory events) assignees.
Proof.
  unfold accounted, all_accounted. rewrite replay_history. simpl.
  setoid_rewrite lookup_fmap. setoid_rewrite fmap_is_Some. done.
Qed.

Lemma plain_ToLower s : plain s = true → plain (ToLower s) = true ∧ ToLower (ToLower s) = ToLower s.
Proof.
  induction s as [|c s IH]; [done|]. rewrite plain_cons. intros [Hc Hs]. destruct (IH Hs) as [IH1 IH2].
  pose proof (byte_val_bound c). pose proof (lower_small (byte_val c) ltac:(lia)) as Hl.
  rewrite ToLower_cons by done. rewrite plain_cons, byte_val_of by lia. split; [split; [lia|done]|].
  rewrite ToLower_cons, IH2, byte_val_of by (rewrite ?byte_val_of; lia). do 2 f_equal.
  unfold ascii_lower, is_upper, in_range.
  destruct ((65 <=? byte_val c) && (byte_val c <=? 90)) eqn:Hu; [|by rewrite Hu].
  destruct ((65 <=? byte_val c + 32) && _) eqn:Hv; lia.
Qed.

Lemma fold_lower w principal :
  plain principal = true → plain w = true → EqualFold (ToLower w) principal = EqualFold w principal.
Proof.
  intros Hp Hw. apply eq_bool_prop_intro. rewrite !Is_true_true.
  destruct (plain_ToLower w Hw) as [? Hll]. rewrite !fold_ToLower by auto. by rewrite Hll.
Qed.

(** The race is refused only to a principal the log has assigned. *)
Lemma wonRace_standing number events assignees principal e :
  wonRace number events assignees principal = Err e → is_Some (stands events principal).
Proof.
  unfold wonRace, stands. destruct (replayAssignments events) as [held seen]. simpl.
  by destruct (held !! ToLower principal).
Qed.

(** The first assignment recovery looks for is one that stands. *)
Lemma holds_first_fold events assignees principal w :
  plain principal = true → (∀ l, l ∈ assignees → plain l = true) →
  holds_first (claimHistory events) assignees w → EqualFold w principal = true →
  is_Some (stands events principal).
Proof.
  intros Hp Hl [Hin (a & Ha & _)] He. apply list_elem_of_fmap in Hin as (l & -> & Hin).
  rewrite fold_lower in He by auto. apply fold_ToLower in He; [|auto..].
  rewrite replay_history in Ha. simpl in Ha. rewrite lookup_fmap in Ha.
  apply fmap_Some in Ha as (b & Hb & _). unfold stands. rewrite <-He. eauto.
Qed.

(** C29: claim-time and recovery arbitration are one decision. On the same change log and the
    same assignees, a principal among them wins the race of [Claim] exactly when recovery
    after a restart finds the claim to be its own. The race is refused for want of evidence
    exactly when recovery cannot order it and the log has the principal assigned; and it is
    lost exactly when recovery gives the issue to another, or when recovery cannot order it
    and the log does not have the principal assigned - the one case in which the two do not
    say the same, [Claim] giving way where recovery waits for an operator. *)
Theorem arbitrations_agree number events assignees principal :
  ordered events → Forall (λ l, plain l = true) (principal :: assignees) → principal ∈ assignees →
  let won := wonRace number events assignees principal in
  let recovered := arbitrateRecovery (claimHistory events) assignees principal in
  (won = Ok true ↔ recovered = recoveryArbitrationOurs)
  ∧ ((∃ e, won = Err e) ↔ recovered = recoveryArbitrationUnorderable ∧ is_Some (stands events principal))
  ∧ (won = Ok false ↔
       recovered = recoveryArbitrationOther
       ∨ recovered = recoveryArbitrationUnorderable ∧ stands events principal = None).
Proof.
  intros Ho [Hpp Hpl]%Forall_cons Hin. rewrite Forall_forall in Hpl. cbv zeta.
  destruct (arbitrate_cases (claimHistory events) assignees principal) as (winner & -> & Hw).
  pose proof (wonRace_spec number events assignees principal Hpp) as HR.
  pose proof (wonRace_standing number events assignees principal) as Hst.
  unfold stands in *. pose proof (accounted_all events assignees) as Hacc.
  assert (∀ w, winner = Some w → holds_first (claimHistory events) assignees w) as Hhf by (intros w ->; by apply Hw).
  pose proof (λ w H, holds_first_fold events assignees principal w Hpp Hpl (Hhf w H)) as Hheld. clear Hhf.
  destruct (replayAssignments events) as [held seen] eqn:Hre. simpl in Hacc, Hst, Hheld.
  assert (∀ w a, first_of held assignees w a → accounted held seen assignees →
    winner = Some (ToLower w) ∧ EqualFold (ToLower w) principal = EqualFold w principal) as Hwin.
  { intros w a Hf Hall. split; [|by apply fold_lower, Hpl, Hf]. apply Hw. split; [by apply Hacc|].
    eapply first_of_holds; [done|]. by rewrite Hre. }
  destruct (wonRace number events assignees principal) as [[|]|e].
  - destruct HR as (Hall & _ & w & a & Hf & He). destruct (Hwin w a Hf Hall) as [-> Hfold].
    simpl. rewrite Hfold, He. clear. naive_solver.
  - destruct (held !! ToLower principal) as [a0|] eqn:Ha0.
    + destruct HR as [HR|(Hall & w & b & [[-> Hn]|Hf] & He)]; [done|by rewrite (Hn principal Hin) in Ha0|].
      destruct (Hwin w b Hf Hall) as [-> Hfold]. simpl. rewrite Hfold, He. clear. naive_solver.
    + destruct winner as [w|]; simpl; rewrite Ha0; [|clear; split_and!; split; intros H; try done;
        [by destruct H|destruct H as [_ H]; by destruct (is_Some_None H)|by right]].
      destruct (EqualFold w principal) eqn:Hwp; [|clear; naive_solver].
      destruct (Hheld w eq_refl Hwp) as [? Hs]. unfold stands in Hs. rewrite Hre in Hs. simpl in Hs. congruence.
  - assert (winner = None) as ->.
    { destruct winner as [w|]; [|done]. exfalso. apply HR, Hacc. by apply (Hw w). }
    simpl. specialize (Hst e eq_refl). revert Hst. clear. intros [? ->]. naive_solver.
Qed.
End race.

(** ** Claims *)

Section claims.
Context {T : GoTables}.
Context (observe : error → error).

(** What GitHub documents of its answers: a read-back lists exactly the standing assignments
    of the log it reads, and the events read later are the log at that time. *)
Record Answered (log : list IssueEvent) (w : claimWorld) (p : string) : Prop := {
  an_principal : cw_principal w = Ok p;
  an_views : ∃ read later rest, log = read ++ later ++ rest
    ∧ (∀ l, cw_readBack w = Ok l →
         Forall (λ a, plain a = true) l
         ∧ ∀ k, (∃ a, a ∈ l ∧ ToLower a = k) ↔ is_Some ((replayAssignments read).1 !! k))
    ∧ (∀ evs, cw_events w = Ok evs → evs = read ++ later)
    (** the assignment read back is the one that stands in the end *)
    ∧ ∀ a, stands read p = Some a → stands log p = Some a;
}.

(** What [Claim] found when it says the claim is ours. *)
Lemma claim_verified w p :
  cl_ours (Claim observe w) = true → cw_principal w = Ok p →
  ∃ l number, cw_readBack w = Ok l ∧ containsFold l p = true
    ∧ (length l = 1%nat ∨ ∃ evs, cw_events w = Ok evs ∧ wonRace number evs l p = Ok true).
Proof.
  unfold Claim. intros HC Hp. destruct (cw_gate w); [done|]. destruct (issueNumber (cw_identifier w)) as [n|]; [|done].
  rewrite Hp in HC. destruct (cw_lease w) as [l0|]; [|done].
  destruct (take l0 claimStageAssign) as [[? l1]|]; [|done].
  destruct (cw_assign w).
  { destruct (negb _); [done|]. by destruct (release _ _ _ _ _) as [[?|] ?]. }
  unfold verifyClaim in HC. destruct (take l1 claimStageVerify) as [[? l2]|]; [|done].
  destruct (cw_readBack w) as [l|e]; [|by destruct (release _ _ _ _ _) as [[?|] ?]].
  exists l, n. destruct (containsFold l p); [|done]. split_and!; [done..|].
  simpl in HC. destruct (Nat.eqb_spec (length l) 1); [by left|]. right.
  unfold contested in HC. destruct (cw_events w) as [evs|]; [|by destruct (release _ _ _ _ _) as [[?|] ?]].
  exists evs. split; [done|].
  destruct (wonRace n evs l p) as [[|]|]; [done|by destruct (release _ _ _ _ _) as [[?|] ?]..].
Qed.

Lemma containsFold_elem l p :
  Forall (λ a, plain a = true) l → plain p = true → containsFold l p = true →
  ∃ a, a ∈ l ∧ ToLower a = ToLower p.
Proof.
  intros Hl Hp (a & Ha & He)%existsb_exists. apply list_elem_of_In in Ha. exists a. split; [done|].
  rewrite Forall_forall in Hl. by apply fold_ToLower; auto.
Qed.

(** A verified claim whose assignment still stands: where it began, and that nobody who has
    stood since before it was overlooked. *)
Lemma claim_first log w p :
  ordered log → plain p = true → Answered log w p → cl_ours (Claim observe w) = true →
  ∃ a, stands log p = Some a ∧
    ∀ k b, (replayAssignments log).1 !! k = Some b → before b a = true → k = ToLower p.
Proof.
  intros Ho Hpp [Hp (read & later & rest & -> & Hread & Hev & Hst)] HC.
  destruct (claim_verified _ _ HC Hp) as (l & n & Hl & Hc & Hcase).
  destruct (Hread l Hl) as [Hpl Hin]. pose proof (containsFold_elem _ _ Hpl Hpp Hc) as Hmem.
  destruct (proj1 (Hin (ToLower p)) Hmem) as [a Ha]. exists a.
  pose proof (Hst a Ha) as Hlog. split; [done|]. intros k b Hk Hb.
  destruct (stands_origin _ _ _ Ha) as (ea & Hea & Hea').
  assert (∃ eb, eb ∈ read ∧ eventOrder eb = b) as Heb.
  { destruct (stands_origin _ _ _ Hk) as (eb & Heb & Heb').
    apply elem_of_app in Heb as [Heb|Heb]; [by eauto|]. exfalso.
    pose proof (ordered_app_lt _ _ _ _ Ho Hea Heb) as Hlt. rewrite Hea', Heb' in Hlt.
    by rewrite (before_asym _ _ Hlt) in Hb. }
  pose proof (stands_since _ _ _ _ Ho Hk Heb) as Hkr.
  destruct (proj2 (Hin k) (mk_is_Some _ _ Hkr)) as (x & Hx & Hxk).
  destruct (decide (k = ToLower p)) as [|Hne]; [done|]. exfalso.
  destruct Hcase as [Hone|(evs & Hevs & Hwon)].
  { destruct l as [|y [|]]; [done| |done]. destruct Hmem as (z & Hz & Hzp). set_solver. }
  rewrite (Hev evs Hevs) in Hwon. rewrite app_assoc in Ho, Hk, Hlog.
  pose proof (wonRace_spec n (read ++ later) l p Hpp) as HR. rewrite Hwon in HR.
  assert ((replayAssignments (read ++ later)).1 !! k = Some b) as Hkl.
  { eapply stands_since; [exact Ho|exact Hk|]. destruct Heb as (eb & ? & ?). exists eb. set_solver. }
  assert ((replayAssignments (read ++ later)).1 !! ToLower p = Some a) as Hpl'.
  { eapply stands_since; [exact Ho|exact Hlog|]. exists ea. set_solver. }
  destruct (replayAssignments (read ++ later)) as [held seen]. simpl in Hkl, Hpl'.
  destruct HR as (_ & _ & w0 & a0 & (Hw0 & Ha0 & Hf) & He).
  rewrite Forall_forall in Hpl. apply fold_ToLower in He; [|by auto..]. rewrite He, Hpl' in Ha0.
  injection Ha0 as <-. rewrite <-Hxk in Hkl. by rewrite (Hf x b Hx Hkl) in Hb.
Qed.

(** C8: exactly one daemon wins. If two daemons claimed an issue and both were told that it is
    theirs, each from its own read-back and its own reading of the change log at any two
    moments, and the assignments both rest on still stand, then they are the same principal. *)
Theorem claim_exclusive log w1 w2 p1 p2 :
  ordered log → plain p1 = true → plain p2 = true →
  Answered log w1 p1 → Answered log w2 p2 →
  cl_ours (Claim observe w1) = true → cl_ours (Claim observe w2) = true →
  ToLower p1 = ToLower p2.
Proof.
  intros Ho P1 P2 A1 A2 C1 C2.
  destruct (claim_first _ _ _ Ho P1 A1 C1) as (a1 & S1 & F1).
  destruct (claim_first _ _ _ Ho P2 A2 C2) as (a2 & S2 & F2).
  destruct (before a1 a2) eqn:H12; [by apply (F2 _ a1)|].
  destruct (before a2 a1) eqn:H21; [by symmetry; apply (F1 _ a2)|].
  eapply stands_distinct; [exact Ho|exact S1|].
  by rewrite (before_total _ _ H12 H21).
Qed.

(** ** What a claim leaves behind *)

(** The lease [reserveLease] hands out. *)
Definition fresh_lease (l : requestLease) : Prop :=
  length (l_reservations l) = 3%nat ∧ l_taken l = [false; false; false] ∧ l_closed l = false.

(** The errors of GitHub, of the configuration and of the transport are not the sentinel; a
    request that succeeded was attempted. *)
Record Foreign (w : claimWorld) : Prop := {
  fo_assign : ∀ e, cw_assign w = Some e → errors_Is (observe e) ErrClaimNotAttempted = false;
  fo_read : ∀ e, cw_readBack w = Err e → errors_Is (observe e) ErrClaimNotAttempted = false;
  fo_events : ∀ e, cw_events w = Err e → errors_Is e ErrClaimNotAttempted = false;
  fo_unassign : ∀ e, cw_unassign w = Some e → errors_Is (observe e) ErrClaimNotAttempted = false;
  fo_attempted : cw_assign w = None → cw_attempted w = true;
  fo_lease : ∀ l, cw_lease w = Ok l → fresh_lease l;
}.

Definition unassigned (p : string) (c : claimed) : Prop := last (cl_requests c) = Some (RUnassign p).

(** Ours: verified, nothing undone. Not ours: either nothing was written, and the error says
    so, or the assignment was taken back last, or the read-back showed it never took. *)
Inductive settled (w : claimWorld) (p : string) (c : claimed) : Prop :=
  | settled_ours l :
      cl_ours c = true → cl_err c = None → cw_readBack w = Ok l → containsFold l p = true →
      RUnassign p ∉ cl_requests c → settled w p c
  | settled_untouched e :
      cl_ours c = false → cl_requests c = [] → cl_err c = Some e →
      errors_Is e ErrClaimNotAttempted = true → settled w p c
  | settled_withdrawn :
      cl_ours c = false → unassigned p c →
      (∀ e, cl_err c = Some e → errors_Is e ErrClaimNotAttempted = false) →
      (cl_err c = None → cw_unassign w = None) → settled w p c
  | settled_absent l :
      cl_ours c = false → cl_err c = None → cw_readBack w = Ok l → containsFold l p = false →
      settled w p c.

Lemma join_is a b s : errors_Is (errors_Join a b) s = errors_Is a s || errors_Is b s.
Proof.
  unfold errors_Is, errors_Join. simpl. rewrite <-bool_decide_or. apply bool_decide_ext.
  by rewrite elem_of_app.
Qed.

Lemma wrap_is p e s t : errors_Is (errorf_wrap p e s) t = errors_Is e t.
Proof. done. Qed.

Lemma take_stage rs taken stage i :
  rs !! stage = Some i → taken !! stage = Some false →
  take (MkLease rs taken false) stage = Ok (i, MkLease rs (<[stage := true]> taken) false).
Proof. intros Hr Ht. unfold take. simpl. by rewrite Hr, Ht. Qed.

(** The release stage of a lease whose other stages may be taken. *)
Lemma release_made w number p rs taken :
  length rs = 3%nat → taken !! claimStageRelease = Some false →
  release observe w number p (MkLease rs taken false) =
  (match cw_unassign w with
   | None => None
   | Some e => Some (errorf_wrap ("unassigning issue #" +:+ itoa number +:+ ": ") (observe e) "")
   end, [RUnassign p]).
Proof.
  intros Hl Ht. unfold release. destruct rs as [|r0 [|r1 [|r2 [|]]]]; try done.
  by rewrite (take_stage [r0; r1; r2] taken claimStageRelease r2 eq_refl Ht).
Qed.

Lemma race_error_plain number held seen assignees winner best e :
  race_loop number held seen assignees winner best = Err e →
  errors_Is e ErrClaimNotAttempted = false.
Proof.
  revert winner best. induction assignees as [|l rest IH]; intros winner best; simpl; [done|].
  destruct (held !! ToLower l).
  - destruct (_ || _); apply IH.
  - case_bool_decide; [apply IH|]. intros [= <-]. done.
Qed.

Lemma won_error_plain number events assignees p e :
  wonRace number events assignees p = Err e → errors_Is e ErrClaimNotAttempted = false.
Proof.
  unfold wonRace. destruct (replayAssignments events) as [held seen].
  destruct (held !! ToLower p); [|done].
  destruct (race_loop _ _ _ _ _ _) eqn:Hr; [done|]. intros [= <-]. by eapply race_error_plain.
Qed.

Lemma withdrawn w p made err :
  (∀ e, err = Some e → errors_Is e ErrClaimNotAttempted = false) →
  (err = None → cw_unassign w = None) →
  settled w p (MkClaimed false err (made ++ [RUnassign p])).
Proof.
  intros He Hn. apply settled_withdrawn; try done. unfold unassigned. simpl. by rewrite last_snoc.
Qed.

(** The end of every path that releases. *)
Ltac withdraw HF :=
  match goal with
  | |- context [cw_unassign ?w] =>
      let Hu := fresh in destruct (cw_unassign w) eqn:Hu
  end; (apply withdrawn; [|done]); intros ? [= <-];
  rewrite ?join_is, ?wrap_is, ?(fo_unassign _ HF _ ltac:(eassumption)), ?orb_false_r.

Lemma contested_settled w number p rs taken l made :
  Foreign w → length rs = 3%nat → taken !! claimStageRelease = Some false →
  cw_readBack w = Ok l → containsFold l p = true → RUnassign p ∉ made →
  settled w p (contested observe w number p (MkLease rs taken false) l made).
Proof.
  intros HF Hrs Ht Hl Hc Hm. unfold contested. rewrite release_made by done.
  destruct (cw_events w) as [evs|e] eqn:Hev.
  - destruct (wonRace number evs l p) as [[|]|e] eqn:Hw.
    + eapply settled_ours; simpl; try done. set_solver.
    + withdraw HF. done.
    + apply won_error_plain in Hw. withdraw HF; done.
  - pose proof (fo_events _ HF e Hev). withdraw HF; done.
Qed.

Lemma verify_settled w number p rs made :
  Foreign w → length rs = 3%nat → RUnassign p ∉ made →
  settled w p (verifyClaim observe w number p (MkLease rs [true; false; false] false) made).
Proof.
  intros HF Hrs Hm. destruct rs as [|r0 [|r1 [|r2 [|]]]]; try done. unfold verifyClaim.
  rewrite (take_stage [r0; r1; r2] [true; false; false] claimStageVerify r1 eq_refl eq_refl).
  destruct (cw_readBack w) as [l|e] eqn:Hl.
  - destruct (containsFold l p) eqn:Hc; simpl; [|by eapply settled_absent].
    destruct (length l =? 1)%nat; [eapply settled_ours; simpl; try done; set_solver|].
    apply contested_settled; try done. set_solver.
  - rewrite release_made by done. pose proof (fo_read _ HF e Hl). withdraw HF; done.
Qed.

(** C26: every path out of a claim is accounted for. A claim that is ours was read back and is
    not undone; a refusal that says nothing was attempted made no request; after any other
    refusal the unassignment is the last request made, or the read-back showed that the
    assignment never took; and a claim that simply was not ours, without an error, is
    withdrawn for certain. *)
Theorem claim_settles w p :
  Foreign w → cw_principal w = Ok p → settled w p (Claim observe w).
Proof.
  intros HF Hp. unfold Claim. rewrite Hp.
  assert (∀ e, settled w p (MkClaimed false (Some (notAttempted e)) [])) as Hrefuse.
  { intros e. by eapply settled_untouched. }
  destruct (cw_gate w); [done|]. destruct (issueNumber (cw_identifier w)) as [n|]; [|done].
  destruct (cw_lease w) as [l0|] eqn:Hl0; [|done].
  destruct (fo_lease _ HF l0 Hl0) as (Hrs & Htk & Hcl).
  destruct l0 as [rs taken closed]. simpl in Hrs, Htk, Hcl. subst taken closed.
  destruct rs as [|r0 [|r1 [|r2 [|]]]]; try done.
  rewrite (take_stage [r0; r1; r2] [false; false; false] claimStageAssign r0 eq_refl eq_refl).
  change (<[claimStageAssign := true]> [false; false; false]) with [true; false; false].
  destruct (cw_assign w) as [e|] eqn:Ha.
  - destruct (cw_attempted w); cbn [negb]; [|done]. rewrite release_made by done.
    pose proof (fo_assign _ HF e Ha). withdraw HF; done.
  - rewrite (fo_attempted _ HF Ha). apply verify_settled; [done..|]. set_solver.
Qed.
End claims.
