(* ===== verification/TrackerMilestoneFacts.v ===== *)
(** * TrackerMilestoneFacts: milestones across two programs

    The daemon writes a milestone comment and the review controller reads it: the comment the
    adapter renders is the one the controller's parsers take apart. *)

From S2P Require Import Prelude GoStd GoStdFacts Review ReviewMarker ReviewMarkerFacts ReviewMilestone.
From S2P Require Import OrchState Core OrchRecover OrchRecord TrackerBudget TrackerAdapter.
From Stdlib Require Import Ascii.

(** ** Trimming and splitting text without spaces at its ends *)

Definition visible (c : Ascii.ascii) : bool := in_range 33 126 (byte_val c).

Lemma trim_with_visible q2 q3 c s :
  visible c = true → (∀ b, q2 (byte_val c) b = false) → (∀ b d, q3 (byte_val c) b d = false) →
  trim_with q2 q3 (String c s) = String c s.
Proof.
  intros Hv H2 H3. simpl.
  assert (space1 (byte_val c) = false) as -> by (unfold visible, space1, in_range in *; lia).
  destruct s as [|c1 s]; [done|]. rewrite H2. destruct s as [|c2 s]; [done|]. by rewrite H3.
Qed.

Lemma trim_space_visible c s d t :
  visible c = true → visible d = true → String c s = t +:+ String d "" →
  trim_space (String c s) = String c s.
Proof.
  intros Hc Hd He. unfold trim_space, trim_left. rewrite trim_with_visible; [|done|intros; unfold visible, space2, space3, in_range in *; lia..].
  unfold trim_right. rewrite He, srev_app. change (String.rev (String d "")) with (String d "").
  rewrite sapp_cons, sapp_nil_l, trim_with_visible; [|done|intros; unfold visible, space2, space3, in_range in *; lia..].
  by rewrite srev_cons, srev_involutive.
Qed.

(** A text whose bytes are all visible. *)
Definition visible_text (s : string) : bool := all_bytes (in_range 33 126) s.

Lemma visible_text_cons c s : visible_text (String c s) = true ↔ visible c = true ∧ visible_text s = true.
Proof. unfold visible_text, visible. simpl. by rewrite andb_true_iff. Qed.

Lemma visible_text_last s :
  s ≠ "" → visible_text s = true → ∃ t d, s = t +:+ String d "" ∧ visible d = true.
Proof.
  induction s as [|c s IH]; [done|]. intros _ [Hc Hs]%visible_text_cons.
  destruct s as [|c1 s]; [exists "", c; done|].
  destruct IH as (t & d & -> & Hd); [done..|]. exists (String c t), d. done.
Qed.

Lemma trim_space_text p s :
  s ≠ "" → visible_text s = true → (p = "" ∨ ∃ c p', p = String c p' ∧ visible c = true) →
  trim_space (p +:+ s) = p +:+ s.
Proof.
  intros Hne Hs Hp. destruct (visible_text_last s Hne Hs) as (t & d & -> & Hd).
  destruct Hp as [->|(c & p' & -> & Hc)].
  - rewrite sapp_nil_l. destruct t as [|c t].
    + by apply (trim_space_visible d "" d "").
    + rewrite sapp_cons in *. apply visible_text_cons in Hs as [Hc _].
      by apply (trim_space_visible c _ d (String c t)).
  - rewrite sapp_cons. by apply (trim_space_visible c _ d (String c (p' +:+ t))); [..|rewrite sapp_cons, sapp_assoc].
Qed.

Lemma split_from_line cur x y :
  avoids (byte_of 10) x = true → split_from nl 0 cur (x +:+ nl +:+ y) = (cur +:+ x) :: split_from nl 0 "" y.
Proof.
  revert cur. induction x as [|c x IH]; intros cur Hx.
  - rewrite sapp_nil_l, sapp_nil_r. done.
  - apply avoids_cons in Hx as [Hc Hx]. rewrite sapp_cons. cbn [split_from].
    replace (has_prefix nl (String c (x +:+ nl +:+ y))) with false.
    + rewrite IH by done. by rewrite sapp_assoc.
    + unfold has_prefix, nl, str1. rewrite cut_prefix_cons.
      by rewrite bool_decide_eq_false_2 by congruence.
Qed.

Lemma split_line x y :
  avoids (byte_of 10) x = true → split (x +:+ nl +:+ y) nl = x :: split y nl.
Proof. intros Hx. unfold split. rewrite split_from_line by done. by rewrite sapp_nil_l. Qed.

Section milestone.
Context {T : GoTables}.
Context (observe : error → error).

Definition milestone_pairs (m : Milestone) (occurrence : Z) : list (string * string) :=
  [("kind", milestone_name m); ("occurrence", itoa occurrence)].

Lemma milestone_marker_text m n :
  milestoneMarker m n = marker_text markerMilestone (milestone_pairs m n).
Proof. unfold milestoneMarker, marker_text. simpl. unfold kv_token. by autorewrite with ben_str. Qed.

Lemma milestone_body pre m n :
  pre +:+ nl +:+ milestoneMarker m n +:+ nl = marker_body pre markerMilestone (milestone_pairs m n).
Proof. unfold marker_body. by rewrite milestone_marker_text. Qed.

Lemma milestone_pairs_plain m n : event_id n → Forall plain_pair (milestone_pairs m n).
Proof.
  intros Hn. repeat constructor; simpl; try done; [by destruct m|by apply event_id_value].
Qed.

#[local] Instance milestone_name_inj : Inj (=) (=) milestone_name.
Proof. by intros [] []. Qed.

(** Of all milestone markers a body carries its own and no other. *)
Lemma marker_carried pre m n m' n' :
  no_opener pre → event_id n → event_id n' →
  contains (milestoneMarker m' n') (pre +:+ nl +:+ milestoneMarker m n +:+ nl) = true ↔ m' = m ∧ n' = n.
Proof.
  intros Hpre Hn Hn'.
  assert (∀ k o, event_id o → avoids (byte_of 10) (milestoneMarker k o) = true) as Hnl.
  { intros k o Ho. unfold milestoneMarker. rewrite !avoids_app, (value_avoids _ _ (event_id_value _ Ho)) by done.
    by destruct k. }
  split.
  - change (nl +:+ ?x) with (String (byte_of 10) x). rewrite contains_sep by (auto || done).
    assert (contains (milestoneMarker m' n') pre = false) as ->.
    { unfold milestoneMarker. change ("<!-- ben:milestone kind=" +:+ ?x) with ("<!--" +:+ (" ben:milestone kind=" +:+ x)).
      by apply contains_longer. }
    cbn [orb]. unfold contains.
    replace (milestoneMarker m n +:+ nl) with
      (String "<" ("!-- ben:milestone kind=" +:+ milestone_name m +:+ " occurrence=" +:+ itoa n +:+ " -->" +:+ nl))
      by (unfold milestoneMarker; by autorewrite with ben_str).
    unfold milestoneMarker at 1. change ("<!-- ben:milestone kind=" +:+ ?x) with (String "<" ("!-- ben:milestone kind=" +:+ x)).
    rewrite cut_cons, cut_first_absent.
    2:{ rewrite !avoids_app, (value_avoids "<" _ (event_id_value _ Hn)) by done. by destruct m. }
    destruct (cut_prefix _ _) as [r|] eqn:Hp; [|done]. intros _. apply cut_prefix_Some in Hp.
    rewrite sapp_cons in Hp. injection Hp as Hp. rewrite !sapp_assoc in Hp. apply sapp_inj_l in Hp.
    assert (milestone_name m = milestone_name m') as Hm.
    { eapply name_space_inj; [by destruct m|by destruct m'|exact Hp]. }
    rewrite Hm in Hp. apply sapp_inj_l, sapp_inj_l in Hp.
    assert (itoa n = itoa n') as Ho.
    { eapply name_space_inj; [by apply event_id_value..|exact Hp]. }
    split; [by apply milestone_name_inj|destruct Hn, Hn'; apply itoa_inj; [lia..|done]].
  - intros [-> ->]. apply contains_spec. exists (pre +:+ nl), nl. by rewrite sapp_assoc.
Qed.

(** Text that cannot be taken for a marker. *)
Definition clean (c : MilestoneComment) (daemon principal : string) : Prop :=
  no_opener (mc_PRURL c) ∧ no_opener (mc_Detail c) ∧ no_opener (mc_Reason c)
  ∧ no_opener daemon ∧ no_opener principal.

Lemma no_opener_tick s : no_opener s → no_opener (s +:+ "`").
Proof.
  unfold no_opener. intros Hs. change (s +:+ "`") with (s +:+ String "`" ""). rewrite contains_sep by done.
  by rewrite Hs.
Qed.

Lemma no_opener_lines head lines :
  no_opener head → Forall no_opener lines → no_opener (head +:+ nl +:+ nl +:+ join nl lines +:+ nl).
Proof.
  intros Hh Hl. apply no_opener_nl; [done|]. apply (no_opener_nl ""); [done|].
  assert (no_opener (join nl lines)) as Hj.
  { induction Hl as [|x l Hx Hl IH]; [done|]. destruct l; [done|]. by apply no_opener_nl. }
  pose proof (no_opener_nl _ "" Hj ltac:(done)) as H. by rewrite sapp_nil_r in H.
Qed.

Lemma render_clean c daemon principal body :
  clean c daemon principal → renderMilestone c daemon principal = Ok body → no_opener body.
Proof.
  intros (Hu & Hd & Hr & Hda & Hp) HR.
  assert (∀ head lines, no_opener head → Forall no_opener lines →
    no_opener (milestoneText c daemon head lines)) as H.
  { intros head lines Hh Hl. unfold milestoneText. apply no_opener_lines; [done|]. apply Forall_app. split; [done|].
    apply Forall_app. split.
    - case_bool_decide; simpl; [done|]. constructor; [|done]. unfold field.
      by apply (no_opener_prefixed "- detail: ").
    - constructor; [|done]. unfold field. apply (no_opener_prefixed "- daemon: `"); [done|].
      by apply no_opener_tick. }
  unfold renderMilestone in HR. destruct (mc_Milestone c); [done| | | |].
  - injection HR as <-. apply H; [done|]. constructor; [|done].
    by apply (no_opener_prefixed "- claim principal: @").
  - case_bool_decide; [done|]. injection HR as <-. apply H; [done|]. constructor; [|done].
    by apply (no_opener_prefixed "- pull request: ").
  - destruct (Bool.eqb _ _); [done|]. injection HR as <-. apply H; [done|]. constructor; [|done].
    destruct (mc_ReasonUnavailable c); [done|].
    apply (no_opener_prefixed "- reason: `"); [done|]. by apply no_opener_tick.
  - injection HR as <-. by apply H.
Qed.

(** What [Comment] posts: the rendering and the marker of an occurrence no listed comment
    carries. *)
Lemma comment_posted gate number principal daemon events comments create c body :
  (Comment observe gate number principal daemon events comments create c).2 = Some body →
  ∃ n p evs text anchor, number = Ok n ∧ principal = Ok p ∧ events = Ok evs
    ∧ renderMilestone c daemon p = Ok text
    ∧ milestoneOccurrence n evs (mc_Milestone c) p = Ok anchor
    ∧ hasMarker observe (comments (markerSince (an_at anchor))) n
        (milestoneMarker (mc_Milestone c) (an_id anchor)) = Ok false
    ∧ body = text +:+ nl +:+ milestoneMarker (mc_Milestone c) (an_id anchor) +:+ nl.
Proof.
  unfold Comment. destruct gate; [done|]. destruct number as [n|]; [|done].
  destruct principal as [p|]; [|done]. destruct (renderMilestone c daemon p) as [text|] eqn:Hr; [|done].
  destruct events as [evs|]; [|done].
  destruct (milestoneOccurrence n evs (mc_Milestone c) p) as [anchor|] eqn:Ho; [|done].
  destruct (hasMarker _ _ _ _) as [[|]|] eqn:Hh; try done. simpl. intros [= <-].
  exists n, p, evs, text, anchor. by split_and!.
Qed.

(** The link is the first line that has one. *)
Lemma link_found url rest :
  url ≠ "" → visible_text url = true →
  publishedPRLink ("**BEN published a pull request.**" +:+ nl +:+ nl
                   +:+ field "pull request" url +:+ nl +:+ rest) = Some url.
Proof.
  intros Hne Hv. unfold publishedPRLink.
  assert (avoids (byte_of 10) (field "pull request" url) = true) as Hav.
  { unfold field. rewrite !avoids_app. simpl. revert Hv. apply all_bytes_impl.
    intros z. unfold in_range. change (byte_val (byte_of 10)) with 10. lia. }
  rewrite split_line by done. change (nl +:+ field ?a ?b +:+ ?x) with ("" +:+ nl +:+ (field a b +:+ x)).
  rewrite split_line by done. rewrite split_line by done. cbn [find_map].
  change (cut_prefix prLinkField (trim_space "**BEN published a pull request.**")) with (@None string).
  change (cut_prefix prLinkField (trim_space "")) with (@None string).
  change (field "pull request" url) with (prLinkField +:+ url).
  rewrite trim_space_text by (try done; right; by eexists _, _).
  rewrite cut_prefix_app. pose proof (trim_space_text "" url Hne Hv (or_introl eq_refl)) as Ht.
  rewrite sapp_nil_l in Ht. rewrite Ht. by rewrite bool_decide_eq_false_2.
Qed.

(** C30: the controller reads what the daemon wrote. The comment [Comment] posts for a
    published pull request, whatever else its text says short of a marker, parses back to the
    occurrence of the label transition it reports and to the pull request's URL. *)
Theorem published_read_back gate number principal daemon events comments create c body p :
  (Comment observe gate number principal daemon events comments create c).2 = Some body →
  principal = Ok p → mc_Milestone c = MilestonePublished → clean c daemon p →
  visible_text (mc_PRURL c) = true →
  ∃ n evs anchor, number = Ok n ∧ events = Ok evs
    ∧ milestoneOccurrence n evs MilestonePublished p = Ok anchor
    ∧ publishedPRLink body = Some (mc_PRURL c)
    ∧ (event_id (an_id anchor) → PublishedOccurrence body = Ok (an_id anchor)).
Proof.
  intros HC -> Hm Hcl Hv.
  apply comment_posted in HC as (n & p' & evs & text & anchor & -> & [= <-] & -> & Ht & Ho & _ & ->).
  rewrite Hm in *. exists n, evs, anchor. split_and!; [done..| |].
  - unfold renderMilestone in Ht. rewrite Hm in Ht. case_bool_decide as Hne; [done|]. injection Ht as <-.
    unfold milestoneText. destruct (_ ++ [field "daemon" _]) as [|x l] eqn:Hl; [by destruct (negb _)|].
    cbn [app]. change (join nl (?x :: ?y :: ?l)) with (x +:+ nl +:+ join nl (y :: l)). rewrite !sapp_assoc.
    by rewrite link_found.
  - intros Hid. rewrite milestone_body. unfold PublishedOccurrence.
    rewrite parseMarker_body; [|by eapply render_clean|done|by apply milestone_pairs_plain|solve_decided].
    by rewrite (field_id_itoa _ "occurrence" (an_id anchor)).
Qed.

Lemma hasMarker_all pages n marker :
  hasMarker observe (Ok <$> pages) n marker = Ok (existsb (existsb (contains marker)) pages).
Proof.
  induction pages as [|bodies pages IH]; csimpl; [done|]. by destruct (existsb (contains marker) bodies).
Qed.

(** C33: one comment per occurrence. The body posted for an occurrence of a milestone carries
    that occurrence's marker and no other, so a later call for the same occurrence that is
    shown the comment posts nothing, and a call for another kind or another occurrence is not
    silenced by it. *)
Theorem milestone_once gate number principal daemon events comments create c body p n evs anchor :
  (Comment observe gate number principal daemon events comments create c).2 = Some body →
  number = Ok n → principal = Ok p → events = Ok evs → clean c daemon p →
  milestoneOccurrence n evs (mc_Milestone c) p = Ok anchor → event_id (an_id anchor) →
  (∀ gate' daemon' events' evs' anchor' pages create' c',
     events' = Ok evs' → mc_Milestone c' = mc_Milestone c →
     milestoneOccurrence n evs' (mc_Milestone c) p = Ok anchor' → an_id anchor' = an_id anchor →
     body ∈ concat pages →
     (Comment observe gate' number principal daemon' events' (λ _, Ok <$> pages) create' c').2 = None)
  ∧ ∀ m' n', event_id n' → contains (milestoneMarker m' n') body = true →
      m' = mc_Milestone c ∧ n' = an_id anchor.
Proof.
  intros HC -> -> -> Hcl Ho Hid.
  apply comment_posted in HC as (n0 & p0 & evs0 & text & a0 & [= <-] & [= <-] & [= <-] & Ht & Ho0 & _ & ->).
  assert (a0 = anchor) as -> by congruence.
  pose proof (render_clean _ _ _ _ Hcl Ht) as Hno. split.
  - intros gate' daemon' ? evs' anchor' pages create' c' -> Hm Ho' Hid' Hin.
    unfold Comment. destruct gate'; [done|].
    destruct (renderMilestone c' daemon' p); [|done]. rewrite Hm, Ho', Hid', hasMarker_all.
    assert (existsb (existsb (contains (milestoneMarker (mc_Milestone c) (an_id anchor)))) pages = true) as ->; [|done].
    apply list_elem_of_In, in_concat in Hin as (bodies & Hb & Hin). apply existsb_exists.
    exists bodies. split; [done|]. apply existsb_exists. eexists. split; [exact Hin|].
    by apply marker_carried.
  - intros m' n' Hn' Hc. by apply marker_carried in Hc.
Qed.
End milestone.
