(* ===== verification/TrackerLabelFacts.v ===== *)
(** * TrackerLabelFacts: state labels and the change log as GitHub shows them

    [SetStateLabels] leaves exactly one state label and never none on the way; a change log
    read page by page is the whole log, although a page answered from the cache may carry a
    link to the next page that is out of date. *)

From S2P Require Import Prelude GoStd GoStdFacts OrchState Core OrchRecover OrchRecoverFacts OrchRecord.
From S2P Require Import TrackerBudget TrackerAdapter TrackerClaimFacts.

(** ** State labels *)

(** What GitHub documents of label writes: names are compared without case, an addition
    leaves the other labels alone and adds the name unless it is there, a removal takes away
    the name only. *)
Class LabelServer {T : GoTables} := {
  written : labelWrite → list string → list string;
  add_keeps n ls l : l ∈ ls → l ∈ written (AddLabel n) ls;
  add_only n ls l : l ∈ written (AddLabel n) ls → l ∈ ls ∨ l = n;
  add_there n ls : ∃ l, l ∈ written (AddLabel n) ls ∧ ToLower l = ToLower n;
  remove_iff n ls l : l ∈ written (RemoveLabel n) ls ↔ l ∈ ls ∧ ToLower l ≠ ToLower n;
}.

Section labels.
Context {T : GoTables} {server : LabelServer}.
Context (observe : error → error).

Definition writes (ls : list string) (ws : list labelWrite) : list string :=
  foldl (λ ls w, written w ls) ls ws.

Lemma state_fold a b : ToLower a = ToLower b → isStateLabel a = isStateLabel b.
Proof. unfold isStateLabel. by intros ->. Qed.

(** Removals of state labels other than [want]. *)
Definition otherStates (want : string) : labelWrite → Prop := λ w,
  ∃ n, w = RemoveLabel n ∧ isStateLabel n = true ∧ (want = "" ∨ ToLower n ≠ ToLower want).

Lemma otherStates_removals want ws : Forall (otherStates want) ws → Forall (λ w, ∃ n, w = RemoveLabel n) ws.
Proof. intros H. eapply Forall_impl; [exact H|]. intros w (n & -> & _). eauto. Qed.

Lemma removals_keep want ls ws l :
  Forall (otherStates want) ws →
  l ∈ ls → isStateLabel l = false ∨ (want ≠ "" ∧ ToLower l = ToLower want) → l ∈ writes ls ws.
Proof.
  intros Hws Hl Hc. revert ls Hl. induction Hws as [|w ws (n & -> & Hn & Hw) _ IH]; intros ls Hl; simpl; [done|].
  apply IH. apply remove_iff. split; [done|]. intros He. destruct Hc as [Hs|[Hne Hlw]].
  - rewrite (state_fold _ _ He) in Hs. congruence.
  - destruct Hw; congruence.
Qed.

Lemma removals_only ls ws l : Forall (λ w, ∃ n, w = RemoveLabel n) ws → l ∈ writes ls ws → l ∈ ls.
Proof.
  intros Hws. revert ls. induction Hws as [|w ws [n ->] _ IH]; intros ls; simpl; [done|].
  intros H%IH. by apply remove_iff in H as [? _].
Qed.

Lemma removals_gone ls ws n l :
  Forall (λ w, ∃ n, w = RemoveLabel n) ws → RemoveLabel n ∈ ws → l ∈ writes ls ws → ToLower l ≠ ToLower n.
Proof.
  intros Hws. revert ls. induction Hws as [|w ws [n0 ->] Hws IH]; intros ls; simpl; [set_solver|].
  intros [[= ->]|Hin]%elem_of_cons Hl; [|by eapply IH].
  apply removals_only in Hl; [|done]. by apply remove_iff in Hl as [_ ?].
Qed.

(** What the loop writes. *)
Lemma removeOthers_spec number remove want current err ws :
  plain want = true →
  (∀ l, l ∈ current → isStateLabel l = true → plain l = true) →
  removeOthers observe number remove want current = (err, ws) →
  Forall (otherStates want) ws
  ∧ (err = None → ∀ l, l ∈ current → isStateLabel l = true →
       RemoveLabel l ∈ ws ∨ want ≠ "" ∧ ToLower l = ToLower want).
Proof.
  intros Hw Hpl. revert err ws. induction current as [|l rest IH]; intros err ws; simpl.
  { intros [= <- <-]. split; [done|]. set_solver. }
  assert (∀ l, l ∈ rest → isStateLabel l = true → plain l = true) as Hpl' by set_solver.
  destruct (isStateLabel l) eqn:Hs; simpl.
  - assert (EqualFold l want = true ↔ ToLower l = ToLower want) as Hf.
    { apply fold_ToLower; [|done]. apply Hpl; [set_solver|done]. }
    destruct (negb (bool_decide (want = "")) && EqualFold l want) eqn:Hsk.
    + intros HR. apply IH in HR as [HF Hall]; [|done]. split; [done|]. intros He l' [->|Hl']%elem_of_cons Hs'; [|by apply Hall].
      split_bools. right. split; [done|by apply Hf].
    + assert (want = "" ∨ ToLower l ≠ ToLower want) as Hne.
      { apply andb_false_iff in Hsk as [Hsk|Hsk]; split_bools; [by left|].
        right. intros He%Hf. congruence. }
      destruct (remove l) as [| |e].
      1,2: destruct (removeOthers observe number remove want rest) as [err' ws'] eqn:HR; intros [= <- <-];
        destruct (IH Hpl' err' ws' eq_refl) as [HF Hall]; split; [constructor; [by eexists|done]|];
        intros He l' [->|Hl']%elem_of_cons Hs'; [left; set_solver|];
        destruct (Hall He l' Hl' Hs'); [left; set_solver|by right].
      intros [= <- <-]. split; [constructor; [by eexists|done]|done].
  - intros HR. apply IH in HR as [HF Hall]; [|done]. split; [done|]. intros He l' [->|Hl']%elem_of_cons Hs'; [congruence|].
    by apply Hall.
Qed.

Lemma state_name_plain label : plain (stateLabelName label) = true.
Proof. by destruct label. Qed.

(** What is left after the loop of removals has gone through all labels. *)
Lemma removals_exact want ls ws :
  Forall (otherStates want) ws →
  (∀ l, l ∈ ls → isStateLabel l = true → RemoveLabel l ∈ ws ∨ want ≠ "" ∧ ToLower l = ToLower want) →
  (∀ l, l ∈ writes ls ws → isStateLabel l = true → want ≠ "" ∧ ToLower l = ToLower want)
  ∧ ∀ l, isStateLabel l = false → l ∈ writes ls ws ↔ l ∈ ls.
Proof.
  intros HF Hall. pose proof (otherStates_removals _ _ HF) as HR. split.
  - intros l Hl Hs. pose proof (removals_only _ _ _ HR Hl) as Hin.
    destruct (Hall l Hin Hs) as [Hr|?]; [|done]. by destruct (removals_gone _ _ _ _ HR Hr Hl).
  - intros l Hs. split; [by apply removals_only|]. intros Hl. eapply removals_keep; [exact HF|done|by left].
Qed.

Lemma state_name_state label : stateLabelName label ≠ "" → isStateLabel (stateLabelName label) = true.
Proof.
  intros Hn. unfold isStateLabel. destruct label; [done|..]; unfold stateLabelName, statePrefix; simpl label_name;
    rewrite ?sapp_cons; rewrite !ToLower_cons by done; done.
Qed.

(** C31: a state label is set, not added. On an issue with labels [ls], whose state labels are
    ASCII, a call of [SetStateLabels] that reports success leaves the wanted state label and no
    other (none, for the state without a label), and every label that is not a state label as
    it was. Whether or not it succeeds, and wherever the daemon is killed, an issue that gets a
    state label has it from the first write on: no write removes it, so the issue is never
    left without one. *)
Theorem set_state_labels_exact gate number listed remove label ls err ws :
  (∀ l, l ∈ ls → isStateLabel l = true → plain l = true) →
  listed = Ok ls →
  SetStateLabels observe gate number (λ n, Ok (written (AddLabel n) ls)) listed remove label = (err, ws) →
  (err = None →
     (∀ l, l ∈ writes ls ws → isStateLabel l = true →
        label ≠ StateLabelNone ∧ ToLower l = ToLower (stateLabelName label))
     ∧ (∀ l, isStateLabel l = false → l ∈ writes ls ws ↔ l ∈ ls)
     ∧ (label ≠ StateLabelNone → ∃ l, l ∈ writes ls ws ∧ ToLower l = ToLower (stateLabelName label)))
  ∧ (label ≠ StateLabelNone → ∀ k, (0 < k)%nat → ws ≠ [] →
       ∃ l, l ∈ writes ls (firstn k ws) ∧ ToLower l = ToLower (stateLabelName label)).
Proof.
  intros Hpl -> HS. unfold SetStateLabels in HS.
  destruct gate; [by injection HS as <- <-|]. destruct number as [n|]; [|by injection HS as <- <-].
  pose proof (state_name_plain label) as Hwp. set (want := stateLabelName label) in *.
  assert (label = StateLabelNone ↔ want = "") as Hwant by (unfold want; by destruct label).
  unfold projectLabel in HS. case_bool_decide as Hw; cbn [negb] in HS.
  - destruct (removeOthers _ _ _ _ ls) as [err' ws'] eqn:HR. injection HS as <- <-. cbn [app].
    apply removeOthers_spec in HR as [HF Hall]; [|done..].
    split; [|intros Hl; by destruct Hl; apply Hwant]. intros He.
    destruct (removals_exact want ls ws' HF (Hall He)) as [H1 H2].
    split_and!; [intros l Hl Hs; by destruct (H1 l Hl Hs)|done|intros Hl; by destruct Hl; apply Hwant].
  - set (ls1 := written (AddLabel want) ls) in *.
    destruct (removeOthers _ _ _ _ ls1) as [err' ws'] eqn:HR. injection HS as <- <-. cbn [app].
    apply removeOthers_spec in HR as [HF Hall]; [|done|].
    2:{ intros l [Hl| ->]%add_only Hs; [by apply Hpl|done]. }
    assert (∀ k, ∃ l, l ∈ writes ls1 (firstn k ws') ∧ ToLower l = ToLower want) as Hkeep.
    { intros k. destruct (add_there want ls) as (l & Hl & Hlw). exists l. split; [|done].
      eapply removals_keep; [by apply Forall_take|exact Hl|by right]. }
    split; [|intros _ [|k] Hk _; [lia|by apply Hkeep]]. intros He.
    destruct (removals_exact want ls1 ws' HF (Hall He)) as [H1 H2]. split_and!.
    + intros l Hl Hs. split; [by intros ?%Hwant|]. by apply (H1 l Hl Hs).
    + intros l Hs. change (l ∈ writes ls1 ws' ↔ l ∈ ls). rewrite (H2 l Hs). split; [|apply add_keeps].
      intros [?| ->]%add_only; [done|]. pose proof (state_name_state label Hw : isStateLabel want = true). congruence.
    + intros _. destruct (Hkeep (length ws')) as (l & Hl & Hlw). rewrite firstn_all in Hl. by exists l.
Qed.
End labels.

(** ** The change log, page by page *)

(** A page of [perPage] items. *)
Definition slice (log : list IssueEvent) (q : nat) : list IssueEvent :=
  firstn perPage (skipn (perPage * (q - 1)) log).

(** How GitHub pages a list: pages are numbered from 1, a page links to the next one when
    there is more, and only an answer revalidated from the cache may lack a link it should
    have. *)
Definition Paged (log : list IssueEvent) (fetch : Z → result (page IssueEvent)) : Prop :=
  ∀ k, 0 ≤ k → let q := Z.to_nat (Z.max 1 k) in
  ∃ p, fetch k = Ok p ∧ pg_items p = slice log q
    ∧ (pg_next p ≠ 0 → pg_next p = Z.of_nat q + 1 ∧ (perPage * q < length log)%nat)
    ∧ (pg_next p = 0 → (length log ≤ perPage * q)%nat ∨ pg_fromCache p = true).

Lemma slice_length log j :
  length (slice log (S j)) = Nat.min perPage (length log - perPage * j).
Proof. unfold slice. rewrite length_firstn, length_skipn. f_equal. f_equal. lia. Qed.

Lemma slices_app log j :
  firstn (perPage * j) log ++ slice log (S j) = firstn (perPage * S j) log.
Proof.
  unfold slice. replace (S j - 1)%nat with j by lia. replace (perPage * S j)%nat with (perPage * j + perPage)%nat by lia.
  rewrite <-(firstn_skipn (perPage * j) log) at 3.
  rewrite firstn_app, length_firstn.
  destruct (Nat.le_gt_cases (perPage * j) (length log)).
  - rewrite Nat.min_l by done. replace (perPage * j + perPage - perPage * j)%nat with perPage by lia.
    f_equal. rewrite firstn_firstn. f_equal. lia.
  - rewrite skipn_all2 by lia. rewrite !firstn_nil, !app_nil_r, firstn_firstn. f_equal. lia.
Qed.

Lemma pages_all observe issue log fetch revalidate fuel j k :
  Paged log fetch →
  (revalidate = true ∨ ∀ k p, fetch k = Ok p → pg_fromCache p = false) →
  0 ≤ k → Z.to_nat (Z.max 1 k) = S j →
  (perPage * j ≤ length log → length log / perPage + 2 ≤ fuel + j →
  eventPages observe issue fuel fetch revalidate k (firstn (perPage * j) log) = Some (Ok (sortEvents log)))%nat.
Proof.
  intros HP Hrev. revert j k. induction fuel as [|fuel IH]; intros j k Hk Hj Hle Hf.
  { pose proof (Nat.div_le_lower_bound (length log) perPage j ltac:(done) Hle). lia. }
  destruct (HP k Hk) as (p & Hp & Hit & Hnext & Hlast). rewrite Hj in *. cbn [eventPages]. rewrite Hp.
  rewrite Hit, slices_app, slice_length. destruct (Z.eqb_spec (pg_next p) 0) as [Hz|Hz].
  - destruct (revalidate && pg_fromCache p && _) eqn:Hc.
    + split_bools. apply Nat.eqb_eq in H0. apply IH; [destruct (k =? 0); lia| |lia..].
      destruct (Z.eqb_spec k 0); lia.
    + rewrite firstn_all2; [done|]. destruct (Hlast Hz) as [?|Hca]; [done|].
      destruct (Nat.le_gt_cases (length log) (perPage * S j)) as [|Hgt]; [done|]. exfalso.
      destruct Hrev as [->|Hno]; [|by rewrite (Hno k p Hp) in Hca].
      rewrite Hca in Hc. cbn [andb] in Hc. apply Nat.eqb_neq in Hc. lia.
  - destruct (Hnext Hz) as [-> Hlt]. apply IH; lia.
Qed.

Lemma event_lt x y : (compare x y <? 0) = before x y.
Proof. unfold compare. destruct (before x y); [done|]. by destruct (before y x). Qed.

Lemma sortEvents_ordered log : NoDup (eventOrder <$> log) → ordered (sortEvents log).
Proof.
  intros Hnd. set (lt := λ x y : IssueEvent, compare (eventOrder x) (eventOrder y) <? 0).
  assert (StronglySorted (λ x y, lt y x = false) (sortEvents log)) as Hs.
  { apply sorted_by_strong; [|apply stable_sort_sorted]; unfold lt.
    - intros x y z. rewrite !event_lt. intros H1 H2. by eapply before_neg_trans.
    - intros x y. rewrite !event_lt. apply before_asym. }
  assert (NoDup (eventOrder <$> sortEvents log)) as Hnd'.
  { by rewrite (stable_sort_perm lt log : sortEvents log ≡ₚ log). }
  revert Hs Hnd'. generalize (sortEvents log). clear Hnd log. intros log Hs.
  induction Hs as [|x log Hs IH Hx]; csimpl; [constructor|]. intros [Hn Hnd]%NoDup_cons.
  constructor; [by apply IH|]. rewrite Forall_forall in Hx. apply Forall_forall. intros y Hy.
  specialize (Hx y Hy). unfold lt in Hx. rewrite event_lt in Hx.
  destruct (before (eventOrder x) (eventOrder y)) eqn:Hb; [done|]. exfalso. apply Hn.
  rewrite (before_total _ _ Hb Hx). by apply list_elem_of_fmap_2.
Qed.

(** C32: reading the change log is complete. Whatever pages come from the cache, and although a
    revalidated page may lack the link to a page that was added since, [issueEvents] returns
    every event of the log, in tracker order, within one request more than its pages need. *)
Theorem events_complete observe issue log fetch revalidate fuel :
  Paged log fetch → NoDup (eventOrder <$> log) →
  (revalidate = true ∨ ∀ k p, fetch k = Ok p → pg_fromCache p = false) →
  (length log / perPage + 2 ≤ fuel)%nat →
  issueEvents observe issue fuel fetch revalidate = Some (Ok (sortEvents log))
  ∧ ordered (sortEvents log) ∧ sortEvents log ≡ₚ log.
Proof.
  intros HP Hnd Hrev Hf. split_and!; [|by apply sortEvents_ordered|apply stable_sort_perm].
  apply (pages_all observe issue log fetch revalidate fuel 0 0 HP Hrev); lia.
Qed.
