(* ===== verification/TrackerAdapterExample.v ===== *)
(** * TrackerAdapterExample: two daemons race for an issue

    Concrete answers of GitHub for the adapter's theorems: a race that alice wins and bob
    withdraws from, a published milestone, a change log whose first page is out of date. *)

From S2P Require Import Prelude GoStd GoStdFacts Review ReviewMarker ReviewMarkerFacts ReviewMilestone.
From S2P Require Import OrchState Core OrchRecover OrchRecoverFacts OrchRecord TrackerBudget TrackerAdapter.
From S2P Require Import TrackerClaimFacts TrackerMilestoneFacts TrackerLabelFacts.

Definition passed (e : error) : error := e.

(** ** The race *)

Definition assigned (login : string) (at_ id : Z) : IssueEvent :=
  MkIssueEvent "assigned" login login "" at_ id.

(** Both are assigned within one second; bob leaves again. *)
Definition raceLog : list IssueEvent :=
  [assigned "Alice" 10 1; assigned "bob" 10 2; MkIssueEvent "unassigned" "bob" "bob" "" 12 3].

Definition threeStages : requestLease := MkLease [0; 1; 2]%nat [false; false; false] false.

Definition world (principal : string) (back : list string) (events : list IssueEvent) : claimWorld :=
  MkClaimWorld None "7" (Ok principal) (Ok threeStages) None true (Ok back) (Ok events) None.

(** Alice reads back while she is alone, and again when bob has come. *)
Definition aliceAlone : claimWorld := world "Alice" ["Alice"] (firstn 1 raceLog).
Definition aliceContested : claimWorld := world "alice" ["bob"; "Alice"] (firstn 2 raceLog).
Definition bobContested : claimWorld := world "bob" ["bob"; "Alice"] (firstn 2 raceLog).

Example race_decided :
  cl_ours (Claim passed aliceAlone) = true
  ∧ Claim passed aliceContested = MkClaimed true None [RAssign "alice"; RReadBack; REvents]
  ∧ Claim passed bobContested =
      MkClaimed false None [RAssign "bob"; RReadBack; REvents; RUnassign "bob"].
Proof. split_and!; vm_compute; reflexivity. Qed.

Lemma raceLog_ordered : ordered raceLog.
Proof. repeat constructor. Qed.

(** Assignees listed as they stand, by evaluation. *)
Lemma stands_exactly read l :
  Forall (λ a, plain a = true) l →
  dom (replayAssignments read).1 = list_to_set (ToLower <$> l) →
  Forall (λ a, plain a = true) l
  ∧ ∀ k, (∃ a, a ∈ l ∧ ToLower a = k) ↔ is_Some ((replayAssignments read).1 !! k).
Proof.
  intros Hp Hd. split; [done|]. intros k. rewrite <-elem_of_dom, Hd, elem_of_list_to_set, list_elem_of_fmap.
  naive_solver.
Qed.

(** The answers of a daemon that read both back and log at [n] events. *)
Lemma answered_at n principal l :
  cw_readBack (world principal l (firstn n raceLog)) = Ok l →
  Forall (λ a, plain a = true) l →
  dom (replayAssignments (firstn n raceLog)).1 = list_to_set (ToLower <$> l) →
  stands (firstn n raceLog) principal = stands raceLog principal →
  Answered raceLog (world principal l (firstn n raceLog)) principal.
Proof.
  intros _ Hp Hd Hs. constructor; [done|]. exists (firstn n raceLog), [], (skipn n raceLog). split_and!.
  - by rewrite app_nil_l, firstn_skipn.
  - intros ? [= <-]. by apply stands_exactly.
  - intros ? [= <-]. by rewrite app_nil_r.
  - intros a Ha. by rewrite <-Hs.
Qed.

Lemma claim_exclusive_witness : ToLower "Alice" = ToLower "alice".
Proof.
  apply (claim_exclusive passed raceLog aliceAlone aliceContested "Alice" "alice").
  - exact raceLog_ordered.
  - reflexivity.
  - reflexivity.
  - apply answered_at; [reflexivity|by repeat constructor|vm_compute; reflexivity|vm_compute; reflexivity].
  - apply answered_at; [reflexivity|by repeat constructor|vm_compute; reflexivity|vm_compute; reflexivity].
  - vm_compute. reflexivity.
  - vm_compute. reflexivity.
Defined.

Lemma claim_settles_witness : settled bobContested "bob" (Claim passed bobContested).
Proof.
  apply (claim_settles passed bobContested "bob"); [|reflexivity].
  constructor; intros; try discriminate; [reflexivity|].
  match goal with H : _ = Ok _ |- _ => injection H as <- end. by split_and!.
Defined.

Lemma arbitrations_agree_witness :
  arbitrateRecovery (claimHistory (firstn 2 raceLog)) ["bob"; "Alice"] "Alice" = recoveryArbitrationOurs.
Proof.
  apply (arbitrations_agree 7 (firstn 2 raceLog) ["bob"; "Alice"] "Alice").
  - repeat constructor.
  - by repeat constructor.
  - right. left.
  - vm_compute. reflexivity.
Defined.

(** The case in which the two differ: the read-back names a principal the log knows nothing
    of, so the race is lost and recovery cannot order it. *)
Example arbitrations_differ :
  let log := [MkIssueEvent "assigned" "bob" "bob" "" 10 1] in
  wonRace 7 log ["alice"; "bob"] "alice" = Ok false
  ∧ arbitrateRecovery (claimHistory log) ["alice"; "bob"] "alice" = recoveryArbitrationUnorderable.
Proof. by vm_compute. Qed.

(** ** A milestone *)

Definition publishedLog : list IssueEvent :=
  [MkIssueEvent "labeled" "ben" "" "ben:running" 20 4; MkIssueEvent "unlabeled" "ben" "" "ben:running" 30 9].

Definition published : MilestoneComment :=
  MkMilestone MilestonePublished "https://github.com/o/r/pull/5" "" false "".

Definition posted : option error * option string :=
  Comment passed None (Ok 7) (Ok "ben") "host/key" (Ok publishedLog) (λ _, []) None published.

Definition postedBody : string := default "" posted.2.

Lemma published_clean : clean published "host/key" "ben".
Proof. by split_and!. Qed.

Lemma published_read_back_witness :
  publishedPRLink postedBody = Some "https://github.com/o/r/pull/5" ∧ PublishedOccurrence postedBody = Ok 9.
Proof.
  destruct (published_read_back passed None (Ok 7) (Ok "ben") "host/key" (Ok publishedLog) (λ _, []) None
    published postedBody "ben") as (n & evs & anchor & Hn & He & Ho & Hl & Hid).
  - vm_compute. reflexivity.
  - reflexivity.
  - reflexivity.
  - exact published_clean.
  - reflexivity.
  - split; [exact Hl|]. injection Hn as <-. injection He as <-.
    assert (anchor = MkAnchor 9 30) as -> by (revert Ho; vm_compute; congruence).
    apply Hid. split; [reflexivity|]. vm_compute. discriminate.
Defined.

Lemma milestone_once_witness :
  (Comment passed None (Ok 7) (Ok "ben") "host/key" (Ok publishedLog) (λ _, [Ok [postedBody]]) None published).2
  = None.
Proof.
  destruct (milestone_once passed None (Ok 7) (Ok "ben") "host/key" (Ok publishedLog) (λ _, []) None
    published postedBody "ben" 7 publishedLog (MkAnchor 9 30)) as [H _].
  - vm_compute. reflexivity.
  - reflexivity.
  - reflexivity.
  - reflexivity.
  - exact published_clean.
  - vm_compute. reflexivity.
  - split; [reflexivity|]. vm_compute. discriminate.
  - refine (H None "host/key" (Ok publishedLog) publishedLog (MkAnchor 9 30) [[postedBody]] None published _ _ _ _ _);
      [reflexivity|reflexivity|vm_compute; reflexivity|reflexivity|left].
Defined.

(** ** Labels *)

Definition sameName (a b : string) : bool := bool_decide (ToLower a = ToLower b).

(** A server that keeps a list of labels. *)
#[export] Program Instance listServer : LabelServer := {
  written w ls :=
    match w with
    | AddLabel n => if existsb (sameName n) ls then ls else ls ++ [n]
    | RemoveLabel n => filter (λ l, ToLower l ≠ ToLower n) ls
    end;
}.
Next Obligation. intros n ls l Hl. simpl. destruct (existsb _ _); set_solver. Qed.
Next Obligation. intros n ls l. simpl. destruct (existsb _ _); set_solver. Qed.
Next Obligation.
  intros n ls. simpl. destruct (existsb _ _) eqn:He; [|exists n; set_solver].
  apply existsb_exists in He as (l & Hl & Hs). apply list_elem_of_In in Hl. exists l.
  split; [done|]. by apply bool_decide_eq_true in Hs.
Qed.
Next Obligation. intros n ls l. simpl. rewrite list_elem_of_filter. naive_solver. Qed.

Definition oldLabels : list string := ["bug"; "Ben:Claimed"].
Definition projected : option error * list labelWrite :=
  SetStateLabels passed None (Ok 7) (λ n, Ok (written (AddLabel n) oldLabels)) (Ok oldLabels)
    (λ _, Removed) StateLabelRunning.

Lemma set_state_labels_exact_witness :
  writes oldLabels projected.2 = ["bug"; "ben:running"]
  ∧ ∀ l, l ∈ writes oldLabels projected.2 → isStateLabel l = true → ToLower l = "ben:running".
Proof.
  split; [vm_compute; reflexivity|].
  destruct (set_state_labels_exact passed None (Ok 7) (Ok oldLabels) (λ _, Removed) StateLabelRunning oldLabels
    projected.1 projected.2) as [H _].
  - intros l Hl _. revert l Hl. apply Forall_forall. by repeat constructor.
  - reflexivity.
  - vm_compute. reflexivity.
  - intros l Hl Hs. destruct (H ltac:(vm_compute; reflexivity)) as (H1 & _).
    destruct (H1 l Hl Hs) as [_ Hl']. rewrite Hl'. reflexivity.
Defined.

(** ** A change log of 101 events, each page answered from the cache without a link *)

Definition longLog : list IssueEvent := (λ i, assigned "someone" 10 (Z.of_nat i)) <$> seq 1 101.
Definition stalePages (k : Z) : result (page IssueEvent) :=
  Ok (MkPage (slice longLog (Z.to_nat (Z.max 1 k))) 0 true).

Lemma events_complete_witness :
  issueEvents passed 7 3 stalePages true = Some (Ok (sortEvents longLog)) ∧ sortEvents longLog ≡ₚ longLog.
Proof.
  destruct (events_complete passed 7 longLog stalePages true 3) as (H1 & _ & H2).
  - intros k Hk. exists (MkPage (slice longLog (Z.to_nat (Z.max 1 k))) 0 true). split_and!; try done.
    intros _. by right.
  - solve_decided.
  - by left.
  - vm_compute. repeat constructor.
  - split; [exact H1|exact H2].
Defined.
